(* ===== verification/_CoqProject ===== *)
-Q . S2P
Prelude.v
RbTree.v
RbSpec.v
RbHeap.v
RbTheorems.v
PageInfo.v
PageInfoSpec.v
XomDomain.v
XomSpec.v
XomSeal.v
XomSealArm.v
XomSealSpec.v
XomSealArmSpec.v
XomToy.v
PageInfoTheorems.v
Rangeset.v
RangesetSpec.v
RangesetOps.v
RangesetTheorems.v
XomTheorems.v
P2mTypes.v
GuestCopy.v
XomGuest.v
XomRel.v
XomNoninterference.v
GuestCopySpec.v
XomGuestTheorems.v
MemType.v
Ept.v
EptSpec.v
EptOps.v
EptResolve.v
EptWalk.v
EptEntry.v
EptP2m.v
EptHardware.v
EptMisconfig.v
EptToy.v
EptFault.v
EptFaultSpec.v
EptFaultTheorems.v
EptTypeChange.v
EptTypeSpec.v
LogDirty.v
LogDirtyTheorems.v
EptTheorems.v
ModXom.v
ModXomSpec.v
ModXomTheorems.v
LibXom.v
LibXomTheorems.v
LibRegClear.v
SubpagePool.v
SubpagePoolTheorems.v
CHeap.v
Gctr.v
GctrToy.v
AesCtr.v
AesCtrTheorems.v
GcmContext.v
AesGcm.v
GcmSpec.v
OsslParams.v
CipherParams.v
GcmToy.v
GcmSession.v
AesGcmTheorems.v
CipherParamsTheorems.v
Hmac.v
HmacSpec.v
HmacToy.v
HmacTheorems.v
Provider.v
ProviderTheorems.v
