(* ===== verification/Prelude.v ===== *)
(** * Lixom: execute-only memory for guests, verified

    Lixom lets a process of a Xen guest hold code and keys in memory that can
    be executed and not read.  Four programs work together:

    - the hypervisor ([src/xen/xen/arch/{x86,arm}/xom_seal.c]) owns the
      protection: a hypercall makes guest frames execute-only, hands out
      write-once sub-pages of 128 bytes, wipes a page before it becomes
      accessible again, and records for which pages the registers must be
      cleared when the guest is interrupted; the protection itself is a bit
      pattern in the extended page tables ([arch/x86/mm/p2m-ept.c]);
    - the guest's kernel module ([src/modxom/modxom.c]) maps memory for a
      process through [/proc/xom] and turns the commands written to that file
      into hypercalls;
    - the user library ([src/libxom/libxom.c]) gives programs buffers,
      sub-pages and the migration of their code, over [/proc/xom] or over
      protection keys;
    - the OpenSSL provider ([src/openssl-provider]) puts the code of its
      ciphers, with the key patched into the instructions, into sub-pages, and
      restarts it when it was interrupted.

    ** Method

    Every C function is a function of the state monad [M] of this file:
    [S -> option (A * S)], where [None] is undefined behaviour (a freed or
    foreign address, a lock taken twice) or exhausted fuel.  The predicate
    [wp] is total correctness, so that each theorem of the form [wp m Q s]
    also says that [m] returns without undefined behaviour.  Integers are [Z]
    with the wrap-around of their C type written out ([u8] .. [u64], [s8],
    [s32]).  What the code calls outside its sources is a type class, with the
    laws the proofs rely on in a second class: [Xmalloc] (PageInfo),
    [P2mOps]/[P2mLaws] and [Arch]/[ArchLaws] (XomDomain, XomSpec; [P2mAtomic]
    adds that an update that fails changes nothing, which the Arm theorems
    need), [copy_env] (GuestCopy),
    [VectorUnit]/[VectorLaws] and [Domains] (XomGuest, XomGuestTheorems), [EptEnv]/[EptLaws]
    (Ept, EptSpec), [FaultEnv] (EptFault),
    [Kernel]/[KernelLaws] (ModXom, ModXomSpec), [Libc] (LibXom),
    [HeapEnv]/[HeapLaws] (CHeap), [GctrEnv]/[GctrLaws] (Gctr),
    [GcmEnv]/[GcmLaws] (AesGcm, GcmSpec), [Ossl]/[OsslLaws] (OsslParams),
    [HmacEnv]/[HmacLaws] (Hmac, HmacSpec), [ProviderEnv]/[ProviderLaws]
    (Provider, ProviderTheorems).  Each theorem that is numbered in its comment and
    has hypotheses has a witness, a lemma with the suffix [_ex], that applies it to concrete instances of those classes
    (XomToy, EptToy, GctrToy, GcmToy, HmacToy and the end of each file of theorems).

    ** Files

    - Prelude: machine integers, error numbers, the monad and its rules.
    - RbTree: [xen/lib/rbtree.c] on a heap of nodes, colour and parent packed
      in one word, every function.  RbSpec: red-black trees as an inductive
      type with a zipper, and the rebalancing as functions on them.  RbHeap:
      the simulation of the heap operations by those functions.  RbTheorems:
      insertion, removal, traversal and replacement are correct, the tree
      stays red-black and its height logarithmic.
    - PageInfo: the two trees of page records of [xom_seal.c]
      ([d->xom_subpages], [d->xom_reg_clear_pages]).  PageInfoSpec and
      PageInfoTheorems: they refine two finite maps from guest frames; tearing
      them down frees each record once.
    - XomDomain: the part of [struct domain] the hypercall works on (p2m
      table, pages with their reference counts, trees, locks, frames with a
      stale TLB entry) and the code the two architectures share line by line.
      XomSeal: [arch/x86/xom_seal.c].  XomSealArm: [arch/arm/xom_seal.c].
      [p2m_get_entry] of [arch/arm/mmu/p2m.c] leaves the access right of a
      frame without memory behind it unassigned; the Arm operations take what
      the variable holds then as an argument.
      XomSpec: the domain invariant [dom_inv], what an operation may do to a
      page, the trace of states of a batch.  XomSealSpec and XomSealArmSpec: each
      operation against it.  XomTheorems: confidentiality of execute-only
      pages in every state of every batch of operations, write-once sub-pages, safety
      (returns, locks and references balanced, TLB flushed), the behaviour of
      each operation, and the differences between the two architectures.
    - P2mTypes: the types of frames of [asm/p2m.h].  GuestCopy: [__hvm_copy]
      of [arch/x86/hvm/hvm.c], by which the hypercall reads its operations
      from the guest and stores its count there.  GuestCopySpec: what the
      copies read and change, and on what they depend.
    - XomGuest: what a guest can do: accesses, checked as
      [hvm_hap_nested_page_fault] does, and hypercalls through [do_mmuext_op]
      with operations in its memory, in any order chosen by what it has seen;
      the clearing of registers on a VM exit ([handle_register_clear]); creation and destruction of a domain.
      XomRel: a relational logic for two runs of the monad.
      XomNoninterference: the hypercall on two domains that differ in the
      contents of execute-only pages.  XomGuestTheorems: a guest that does not
      pass such pages to the hypercall cannot tell them apart, of the registers
      of an interrupted program only those that are kept are visible, a domain
      leaves no memory behind; the copies and the source page that are not
      checked.
    - MemType: [mtrr_get_type] and the pinned ranges of [hvm/mtrr.c].  Ept:
      [p2m-ept.c], the entries as records and as 64-bit words, the tables as
      pages in memory.  EptSpec: tables as a tree, its invariant [twf], the
      view of a frame.  EptOps: splitting and freeing.  EptResolve: marking
      entries for a change, and carrying the changes out on the way to a frame,
      of memory types and of frame types.
      EptWalk: walks as paths of the tree.  EptEntry: [ept_get_entry] reads
      and [ept_set_entry] replaces the view.  EptP2m: the invariant [ept_inv],
      and the instance of [P2mOps]/[P2mLaws], so that every theorem about the
      hypercall holds on these tables.  EptHardware: the processor's walk of
      the same memory (Intel SDM).  EptMisconfig: the handler of
      misconfigurations, and when it runs out of memory.  EptTheorems: updates
      are exact at every page size and invalidate what may be cached; the
      processor permits what the access right says and no access to sealed
      frames; misconfigurations are resolved; no stale memory types.
      EptFault: what Xen does with a violation ([ept_handle_violation],
      [hvm_hap_nested_page_fault], [p2m_mem_access_check]) and the functions of
      [p2m.c] it uses; effects on the guest, the monitor and devices are
      recorded as events.  EptFaultSpec, EptFaultTheorems: no path unseals a
      page and an access to a sealed page only gives the guest an exception;
      a superpage is split so that its code can be executed; ranges are mapped
      completely whatever the page sizes.
    - Rangeset: [common/rangeset.c], sets of numbers as lists of ranges, every
      operation but printing.  RangesetSpec and RangesetOps: each operation
      against a set of numbers.  RangesetTheorems: any sequence of operations
      gives what it gives on a set; limits hold; claims take the first place;
      consuming ends; what goes wrong with the largest number, with an empty
      set and with removals that begin in a gap.
    - EptTypeChange: log-dirty mode, which tracks the pages a guest writes to:
      [p2m_change_type_range] of [p2m.c] and [ept_change_entry_type_*] of
      [p2m-ept.c].  EptTypeSpec: the entries that are marked, exactly those of
      the range.  LogDirty: the set of log-dirty frames (Rangeset) answers the
      questions of the tables.  LogDirtyTheorems: the switch changes the set,
      the lookups and what the processor may use of the range; a page that is
      used then gets the rights of its new type, so that writes to log-dirty
      pages are noticed; not so for a single frame.  The class [Recalc] tells
      whether entries may wait for a new frame type: the theorems of
      EptTheorems and EptFaultTheorems are about tables without such entries
      (instance [settled]), those of log-dirty mode about tables with them
      ([marking]).
    - ModXom: the kernel module, every file operation.  ModXomSpec: the
      invariant [kinv] of its lists of processes and mappings.
      ModXomTheorems: every command within the bounds of its buffers keeps it;
      execute-only memory that goes back to the kernel has been wiped by the
      hypervisor model, called through [do_mmuext_op] with the arguments the
      module passes; the mapping life cycle;
      the paths that overflow, leak or use freed memory.
    - LibXom: the user library.  LibXomTheorems: the bytes it writes decode to
      the command that was meant, sub-pages are handed out once, locked
      buffers are never written through their handle; the arithmetic that goes wrong.
    - LibRegClear: blocks that expect a register clear, with the mutex, the
      signal handler and the jump buffer; each runs once with the hypervisor's
      protection, and not with protection keys.
    - SubpagePool, SubpagePoolTheorems: the provider's pool of sub-pages.
    - CHeap: the memory the contexts of the provider share (reference counters
      and [malloc]ed blocks).  OsslParams: arrays of [OSSL_PARAM], looking
      parameters up and answering them.
    - Gctr: the interruptible counter-mode routine as an interface (code with
      the key patched in, executed from locked sub-pages, interrupted any
      bounded number of times) and counter mode as its specification.
      AesCtr: [xom_aes_128_ctr.c] and the key patching of
      [xom_aes_common.c].  AesCtrTheorems: for every cut of the message and
      every sequence of interruptions the output is counter mode, with disjoint
      buffers or in place as far as [call_ok] goes; reference counts; what goes wrong when a context is
      used again, in place, or with the AVX2 routine.
    - GcmContext, AesGcm: [xom_aes_128_gcm.c].  GcmSpec: each operation
      against GHASH and GCM of SP 800-38D.  GcmSession: the life of one
      message as stages.  AesGcmTheorems: whole sessions of messages give the
      ciphertexts and tags of the standard, decryption accepts exactly the
      right tags, round trip; short messages, new keys, decryption in place
      and shared additional data, which fail.
    - CipherParams, CipherParamsTheorems: the parameters of both ciphers; the
      getters answer what their tables advertise.
    - Hmac: [xom_hmac_sha256.c].  HmacSpec, HmacTheorems: the MAC is
      HMAC-SHA256 of the message under the conditions the code needs, and each
      of these conditions is needed.
    - Provider, ProviderTheorems: [xom_provider.c], the tables the provider
      exports and their teardown.
    - GctrToy, GcmToy, HmacToy: concrete instances of the interfaces.

    ** Fuel

    Loops that are not structural take fuel, always computed from the state:
    the number of nodes of the heap for the tree loops ([rb_fuel],
    [pi_fuel]), the number of pages for the module's grouping loop, the number
    of chunks for the library, the number of frames of a range, the ranges of
    a set, three turns for each level of the tables ([levels_fuel]).  The
    theorems prove that the functions return, so the fuel is enough; for
    [rangeset_consume_ranges], whose callback decides how long it takes, there
    is some fuel from which on it returns.  The loops that restart an interrupted cipher
    routine take their fuel as an argument; the theorems hold for any fuel
    above the number of interruptions to come ([clears_left]) and the number
    of chunks of a request.

    ** Not modelled

    The Arm stage-2 tables, the page allocator and the rest of Xen are used
    through the classes above.  Of the extended page tables the host's p2m is
    modelled, without populate-on-demand, broken, shared or paged-out frames,
    alternate and nested tables and page modification logging.  Updates of
    single entries ([ept_set_entry]) are verified on tables without entries
    that wait for a new frame type, and the recalculation of types for frames
    that are not of an ioreq server.  A crash of the domain is recorded, and
    what it does is not modelled.  The IOMMU is told about changes
    through a parameter that may refuse them; there are no active alternate
    tables.  Copies from and to the guest are those of a 64-bit guest, without
    a monitor and outside of emulation; what executed code does is not modelled,
    so that a fetch shows only whether it is permitted.  Of the hypercall
    [do_mmuext_op], the operations on pages of paravirtualised domains are a
    parameter: a guest of the kind the project supports has none.  [dlsym]
    ([install_dlopen_hook]) of the library and the assembly routines of the
    provider are not modelled; the routines appear as parameters.
    The AVX2 version of the cipher routine
    ([has_vaes]) is part of the definitions, and the correctness theorems are
    about the AES-NI version.  Concurrency appears where the code has it: the
    locks are part of the state, and every operation runs between taking and
    releasing them. *)

From Stdlib Require Export ZArith Lia Bool.
From stdpp Require Export base tactics list gmap numbers option sorting.

#[global] Open Scope Z_scope.

(** ** Machine integers

    A [w]-bit unsigned integer is a [Z] in [0, 2^w); C's implicit conversions
    are the [mod] functions below, and [s8]/[s32] are the two's complement
    readings. *)

Definition u8 (z : Z) : Z := z mod 2 ^ 8.
Definition u32 (z : Z) : Z := z mod 2 ^ 32.
Definition u64 (z : Z) : Z := z mod 2 ^ 64.
Definition s8 (z : Z) : Z := (z + 2 ^ 7) mod 2 ^ 8 - 2 ^ 7.
Definition s32 (z : Z) : Z := (z + 2 ^ 31) mod 2 ^ 32 - 2 ^ 31.

(** Little-endian words *)
Definition le_bytes (l : list Z) : Z := foldr (fun b acc => b + 256 * acc) 0 l.
Definition le_encode (n : nat) (z : Z) : list Z := map (fun i => u8 (Z.shiftr z (8 * Z.of_nat i))) (seq 0 n).

Lemma le_encode_length n z : length (le_encode n z) = n.
Proof. unfold le_encode. by rewrite length_map, length_seq. Qed.

Lemma le_encode_bytes n z : Forall (fun b => 0 <= b < 256) (le_encode n z).
Proof. apply Forall_map, Forall_forall. intros i _. apply Z.mod_pos_bound. lia. Qed.

(** Linear arithmetic with division and remainder by constants. *)
Ltac zdiv := Z.to_euclidean_division_equations; lia.

(** ** errno values (Linux and Xen agree on these) *)

Definition EPERM : Z := 1.
Definition ESRCH : Z := 3.
Definition EBADF : Z := 9.
Definition ENOMEM : Z := 12.
Definition EFAULT : Z := 14.
Definition EBUSY : Z := 16.
Definition EEXIST : Z := 17.
Definition ENODEV : Z := 19.
Definition EINVAL : Z := 22.
Definition ENOSPC : Z := 28.
Definition EOVERFLOW : Z := 75.
Definition ERESTART : Z := 85.
Definition EOPNOTSUPP : Z := 95.

(** ** The state monad of the models

    A C function over a state [S] is a function [S -> option (A * S)]:
    [None] is undefined behaviour (a dereference of a pointer that is not
    allocated) or, for a loop, that its fuel ran out; the theorems that a
    function returns [Some] exclude both. *)

Definition M (S A : Type) : Type := S -> option (A * S).

Definition ret {S A} (a : A) : M S A := fun s => Some (a, s).
Definition bind {S A B} (m : M S A) (k : A -> M S B) : M S B :=
  fun s => match m s with Some (a, s') => k a s' | None => None end.
Definition ub {S A} : M S A := fun _ => None.
Definition get {S} : M S S := fun s => Some (s, s).
Definition put {S} (s : S) : M S unit := fun _ => Some (tt, s).
Definition gets {S A} (f : S -> A) : M S A := fun s => Some (f s, s).
Definition modify {S} (f : S -> S) : M S unit := fun s => Some (tt, f s).

(** [ASSERT] and [BUG_ON]: a failing one is undefined behaviour. *)
Definition assert {S} (b : bool) : M S unit := if b then ret tt else ub.

Declare Scope m_scope.
Delimit Scope m_scope with m.
Notation "'let!' x := c 'in' k" := (bind c (fun x => k))
  (at level 10, x name, c at level 100, k at level 200) : m_scope.
Notation "'let!' ' x := c 'in' k" := (bind c (fun x => k))
  (at level 10, x strict pattern, c at level 100, k at level 200) : m_scope.
Notation "'do!' c 'in' k" := (bind c (fun _ => k))
  (at level 10, c at level 100, k at level 200) : m_scope.
#[global] Open Scope m_scope.

Lemma bind_Some {S A B} (m : M S A) (k : A -> M S B) s a s' :
  m s = Some (a, s') -> bind m k s = k a s'.
Proof. intros H. unfold bind. by rewrite H. Qed.

Lemma bind_inv {S A B} (m : M S A) (k : A -> M S B) s r :
  bind m k s = Some r -> exists a s', m s = Some (a, s') /\ k a s' = Some r.
Proof. unfold bind. destruct (m s) as [[a s']|]; eauto || done. Qed.

(** ** Weakest preconditions

    [wp m Q s]: from state [s] the function [m] returns, without undefined
    behaviour, a value and a state satisfying [Q] (total correctness). *)

Definition wp {S A} (m : M S A) (Q : A -> S -> Prop) (s : S) : Prop :=
  exists a s', m s = Some (a, s') /\ Q a s'.

Lemma wp_ret {S A} (a : A) (Q : A -> S -> Prop) s : Q a s -> wp (ret a) Q s.
Proof. intros H. by exists a, s. Qed.

Lemma wp_bind {S A B} (m : M S A) (k : A -> M S B) Q s :
  wp m (fun a s' => wp (k a) Q s') s -> wp (bind m k) Q s.
Proof.
  intros (a & s' & Hm & b & s'' & Hk & HQ). exists b, s''. split; [|done].
  by rewrite (bind_Some _ _ _ _ _ Hm).
Qed.

Lemma wp_mono {S A} (m : M S A) (P Q : A -> S -> Prop) s :
  wp m P s -> (forall a s', P a s' -> Q a s') -> wp m Q s.
Proof. intros (a & s' & Hm & HP) H. exists a, s'. auto. Qed.

Lemma wp_gets {S A} (f : S -> A) (Q : A -> S -> Prop) s : Q (f s) s -> wp (gets f) Q s.
Proof. intros H. by exists (f s), s. Qed.

Lemma wp_get {S} (Q : S -> S -> Prop) s : Q s s -> wp get Q s.
Proof. intros H. by exists s, s. Qed.

Lemma wp_modify {S} (f : S -> S) (Q : unit -> S -> Prop) s : Q tt (f s) -> wp (modify f) Q s.
Proof. intros H. by exists tt, (f s). Qed.

Lemma wp_assert {S} b (Q : unit -> S -> Prop) s : b = true -> Q tt s -> wp (assert b) Q s.
Proof. intros ->. apply wp_ret. Qed.

Lemma wp_run {S A} (m : M S A) (Q : A -> S -> Prop) s a s' :
  wp m Q s -> m s = Some (a, s') -> Q a s'.
Proof. intros (a' & s'' & Hm & HQ) H. by simplify_eq. Qed.

Lemma wp_and {S A} (m : M S A) (P Q : A -> S -> Prop) s :
  wp m P s -> wp m Q s -> wp m (fun a s' => P a s' /\ Q a s') s.
Proof. intros (a & s' & Hm & HP) HQ. exists a, s'. split_and!; [done..|]. by eapply wp_run. Qed.

(** A specification under a condition of the state before. *)
Lemma wp_when {S A} (P : Prop) (m : M S A) (Q : A -> S -> Prop) s :
  wp m (fun _ _ => True) s -> (P -> wp m Q s) -> wp m (fun a s' => P -> Q a s') s.
Proof. intros (a & s' & Hm & _) HQ. exists a, s'. split; [done|]. intros HP. by eapply wp_run; [apply HQ|]. Qed.

(** A specification that also remembers the run. *)
Lemma wp_keep {S A} (m : M S A) (Q : A -> S -> Prop) s :
  wp m Q s -> wp m (fun a s' => m s = Some (a, s') /\ Q a s') s.
Proof. intros (a & s' & Hm & HQ). by exists a, s'. Qed.

(** ** Lists *)

Lemma take_repeat {A} (x : A) n : forall m, take n (repeat x m) = repeat x (Nat.min n m).
Proof. induction n as [|n IH]; intros [|m]; cbn; [done..|]. by rewrite IH. Qed.

(** A 64-bit number, most significant byte first *)
Definition be64 (z : Z) : list Z := rev (map (fun i => u8 (Z.shiftr z (8 * Z.of_nat i))) (seq 0 8)).

Lemma length_be64 z : length (be64 z) = 8%nat.
Proof. unfold be64. by rewrite length_rev, length_map, length_seq. Qed.

(** The full blocks of [k] bytes *)
Definition chunks {A} (k : nat) (data : list A) : list (list A) :=
  map (fun i => take k (drop (k * i) data)) (seq 0 (length data / k)).

Lemma chunks_app {A} k (x y : list A) : k <> O -> (length x mod k = 0)%nat ->
  chunks k (x ++ y) = chunks k x ++ chunks k y.
Proof.
  intros Hk Hx. set (q := (length x / k)%nat).
  assert (Hl : length x = (k * q)%nat) by (pose proof (Nat.div_mod_eq (length x) k); unfold q; lia).
  assert (Hd : (length (x ++ y) / k = q + length y / k)%nat).
  { rewrite length_app, Hl, (Nat.mul_comm k q), Nat.div_add_l; lia. }
  unfold chunks. fold q. rewrite Hd, seq_app, map_app. f_equal.
  - apply map_ext_in. intros i Hi%in_seq. assert (k * i + k <= k * q)%nat by nia.
    rewrite drop_app_le by lia. rewrite take_app_le by (rewrite length_drop; lia). done.
  - rewrite (Nat.add_comm 0 q), <- fmap_add_seq. unfold fmap. rewrite map_map. apply map_ext. intros i.
    rewrite drop_app_ge by nia. do 2 f_equal. nia.
Qed.

Lemma chunks_one {A} (x : list A) : x <> [] -> chunks (length x) x = [x].
Proof.
  intros Hx. assert (Hl : length x <> O) by (by destruct x). unfold chunks. rewrite Nat.div_same by done. cbn.
  by rewrite Nat.mul_0_r, drop_0, firstn_all.
Qed.
