(* ===== verification/RbTree.v ===== *)
(** * Red-black trees on a pointer heap

    Model of Xen's [lib/rbtree.c] and [include/xen/rbtree.h]: the nodes live
    in a heap indexed by address, [__rb_parent_color] packs the parent's
    address with the colour bit, and every assignment of the C code is a heap
    update.  A dereference of an address that holds no node is undefined
    behaviour ([None] in the monad). *)

From S2P Require Import Prelude.

(** ** Data and primitive accesses *)

Record rb_node := RbNode {
  rb_parent_color_ : Z;
  rb_right_ : Z;
  rb_left_ : Z
}.

(** The state an operation works on: the heap and the [struct rb_root] it was
    given. *)
Record rb_state := RbState {
  rb_heap : gmap Z rb_node;
  rb_root_node : Z
}.

Definition NULL : Z := 0.
Definition RB_RED : Z := 0.
Definition RB_BLACK : Z := 1.

Definition load (p : Z) : M rb_state rb_node :=
  fun s => match rb_heap s !! p with Some n => Some (n, s) | None => None end.

Definition store (p : Z) (f : rb_node -> rb_node) : M rb_state unit :=
  fun s => match rb_heap s !! p with
           | Some n => Some (tt, RbState (<[p := f n]> (rb_heap s)) (rb_root_node s))
           | None => None
           end.

Definition get_left (p : Z) : M rb_state Z := let! n := load p in ret (rb_left_ n).
Definition get_right (p : Z) : M rb_state Z := let! n := load p in ret (rb_right_ n).
Definition get_pc (p : Z) : M rb_state Z := let! n := load p in ret (rb_parent_color_ n).

Definition set_left (p v : Z) : M rb_state unit :=
  store p (fun n => RbNode (rb_parent_color_ n) (rb_right_ n) v).
Definition set_right (p v : Z) : M rb_state unit :=
  store p (fun n => RbNode (rb_parent_color_ n) v (rb_left_ n)).
Definition set_pc (p v : Z) : M rb_state unit :=
  store p (fun n => RbNode v (rb_right_ n) (rb_left_ n)).

Definition set_root (v : Z) : M rb_state unit :=
  modify (fun s => RbState (rb_heap s) v).

(** ** The macros of rbtree.c *)

Definition rb_parent_of (pc : Z) : Z := Z.land pc (Z.lnot 3).
Definition rb_color_of (pc : Z) : Z := Z.land pc 1.
Definition pc_is_black (pc : Z) : bool := negb (rb_color_of pc =? 0).
Definition pc_is_red (pc : Z) : bool := rb_color_of pc =? 0.

Definition rb_is_red (rb : Z) : M rb_state bool :=
  let! pc := get_pc rb in ret (pc_is_red pc).
Definition rb_is_black (rb : Z) : M rb_state bool :=
  let! pc := get_pc rb in ret (pc_is_black pc).
Definition rb_parent (rb : Z) : M rb_state Z :=
  let! pc := get_pc rb in ret (rb_parent_of pc).

Definition rb_set_black (rb : Z) : M rb_state unit :=
  let! pc := get_pc rb in set_pc rb (Z.lor pc RB_BLACK).

Definition rb_set_parent (rb p : Z) : M rb_state unit :=
  let! pc := get_pc rb in set_pc rb (Z.lor (rb_color_of pc) p).

Definition rb_set_parent_color (rb p color : Z) : M rb_state unit :=
  set_pc rb (Z.lor p color).

Definition rb_red_parent (red : Z) : M rb_state Z := get_pc red.

Definition rb_change_child (old new parent : Z) : M rb_state unit :=
  if negb (parent =? NULL) then
    let! l := get_left parent in
    if l =? old then set_left parent new else set_right parent new
  else set_root new.

Definition rb_rotate_set_parents (old new color : Z) : M rb_state unit :=
  let! parent := rb_parent old in
  let! pc := get_pc old in
  do! set_pc new pc in
  do! rb_set_parent_color old new color in
  rb_change_child old new parent.

(** [if (tmp) rb_set_parent_color(tmp, p, RB_BLACK);] *)
Definition set_parent_black_if (tmp p : Z) : M rb_state unit :=
  if negb (tmp =? NULL) then rb_set_parent_color tmp p RB_BLACK else ret tt.

(** [tmp && rb_is_red(tmp)] and [!tmp || rb_is_black(tmp)] *)
Definition nonnull_red (tmp : Z) : M rb_state bool :=
  if negb (tmp =? NULL) then rb_is_red tmp else ret false.
Definition null_or_black (tmp : Z) : M rb_state bool :=
  if tmp =? NULL then ret true else rb_is_black tmp.

(** ** Insertion fix-up *)

Fixpoint rb_insert_color_loop (fuel : nat) (node parent : Z) : M rb_state unit :=
  match fuel with
  | O => ub
  | S fuel =>
    if parent =? NULL then rb_set_parent_color node NULL RB_BLACK else
    let! black := rb_is_black parent in
    if black then ret tt else
    let! gparent := rb_red_parent parent in
    let! tmp := get_right gparent in
    if negb (parent =? tmp) then
      let! red := nonnull_red tmp in
      if red then
        do! rb_set_parent_color tmp gparent RB_BLACK in
        do! rb_set_parent_color parent gparent RB_BLACK in
        let node := gparent in
        let! parent := rb_parent node in
        do! rb_set_parent_color node parent RB_RED in
        rb_insert_color_loop fuel node parent
      else
        let! tmp := get_right parent in
        let! '(parent, tmp) :=
          (if node =? tmp then
             let! tmp := get_left node in
             do! set_right parent tmp in
             do! set_left node parent in
             do! set_parent_black_if tmp parent in
             do! rb_set_parent_color parent node RB_RED in
             let! tmp := get_right node in
             ret (node, tmp)
           else ret (parent, tmp)) in
        do! set_left gparent tmp in
        do! set_right parent gparent in
        do! set_parent_black_if tmp gparent in
        rb_rotate_set_parents gparent parent RB_RED
    else
      let! tmp := get_left gparent in
      let! red := nonnull_red tmp in
      if red then
        do! rb_set_parent_color tmp gparent RB_BLACK in
        do! rb_set_parent_color parent gparent RB_BLACK in
        let node := gparent in
        let! parent := rb_parent node in
        do! rb_set_parent_color node parent RB_RED in
        rb_insert_color_loop fuel node parent
      else
        let! tmp := get_left parent in
        let! '(parent, tmp) :=
          (if node =? tmp then
             let! tmp := get_right node in
             do! set_left parent tmp in
             do! set_right node parent in
             do! set_parent_black_if tmp parent in
             do! rb_set_parent_color parent node RB_RED in
             let! tmp := get_left node in
             ret (node, tmp)
           else ret (parent, tmp)) in
        do! set_right gparent tmp in
        do! set_left parent gparent in
        do! set_parent_black_if tmp gparent in
        rb_rotate_set_parents gparent parent RB_RED
  end.

(** The loop climbs two levels an iteration, so the number of nodes bounds it. *)
Definition rb_fuel (s : rb_state) : nat := S (S (size (rb_heap s))).

Definition rb_insert_color (node : Z) : M rb_state unit :=
  let! s := get in
  let! parent := rb_red_parent node in
  rb_insert_color_loop (rb_fuel s) node parent.

(** [rb_link_node(node, parent, rb_link)]: [rb_link] is the address of one of
    the parent's child fields, or of [root->rb_node]. *)
Inductive rb_link := LinkRoot | LinkLeft (p : Z) | LinkRight (p : Z).

Definition write_link (l : rb_link) (v : Z) : M rb_state unit :=
  match l with
  | LinkRoot => set_root v
  | LinkLeft p => set_left p v
  | LinkRight p => set_right p v
  end.

Definition read_link (l : rb_link) : M rb_state Z :=
  match l with
  | LinkRoot => gets rb_root_node
  | LinkLeft p => get_left p
  | LinkRight p => get_right p
  end.

Definition rb_link_node (node parent : Z) (link : rb_link) : M rb_state unit :=
  do! set_pc node parent in
  do! set_right node NULL in
  do! set_left node NULL in
  write_link link node.

(** ** Erasure *)

(** Cases 2 to 4 of the loop body, with the black [sibling] on the right;
    [again] is the [continue] of the loop with its new [node] and [parent]. *)
Definition rb_erase_cases_left (again : Z -> Z -> M rb_state unit) (parent sibling : Z)
    : M rb_state unit :=
  let! tmp1 := get_right sibling in
  let! b1 := null_or_black tmp1 in
  let! tmp2 := (if b1 then get_left sibling else ret NULL) in
  let! b2 := (if b1 then null_or_black tmp2 else ret false) in
  if b1 && b2 then
    do! rb_set_parent_color sibling parent RB_RED in
    let! pred := rb_is_red parent in
    if pred then rb_set_black parent
    else
      let node := parent in
      let! parent := rb_parent node in
      if negb (parent =? NULL) then again node parent else ret tt
  else
    let! '(tmp1, sibling) :=
      (if b1 then
         let! tmp1 := get_right tmp2 in
         do! set_left sibling tmp1 in
         do! set_right tmp2 sibling in
         do! set_right parent tmp2 in
         do! set_parent_black_if tmp1 sibling in
         ret (sibling, tmp2)
       else ret (tmp1, sibling)) in
    let! tmp2 := get_left sibling in
    do! set_right parent tmp2 in
    do! set_left sibling parent in
    do! rb_set_parent_color tmp1 sibling RB_BLACK in
    do! (if negb (tmp2 =? NULL) then rb_set_parent tmp2 parent else ret tt) in
    rb_rotate_set_parents parent sibling RB_BLACK.

(** The same cases with the [sibling] on the left. *)
Definition rb_erase_cases_right (again : Z -> Z -> M rb_state unit) (parent sibling : Z)
    : M rb_state unit :=
  let! tmp1 := get_left sibling in
  let! b1 := null_or_black tmp1 in
  let! tmp2 := (if b1 then get_right sibling else ret NULL) in
  let! b2 := (if b1 then null_or_black tmp2 else ret false) in
  if b1 && b2 then
    do! rb_set_parent_color sibling parent RB_RED in
    let! pred := rb_is_red parent in
    if pred then rb_set_black parent
    else
      let node := parent in
      let! parent := rb_parent node in
      if negb (parent =? NULL) then again node parent else ret tt
  else
    let! '(tmp1, sibling) :=
      (if b1 then
         let! tmp1 := get_left tmp2 in
         do! set_right sibling tmp1 in
         do! set_left tmp2 sibling in
         do! set_left parent tmp2 in
         do! set_parent_black_if tmp1 sibling in
         ret (sibling, tmp2)
       else ret (tmp1, sibling)) in
    let! tmp2 := get_right sibling in
    do! set_left parent tmp2 in
    do! set_right sibling parent in
    do! rb_set_parent_color tmp1 sibling RB_BLACK in
    do! (if negb (tmp2 =? NULL) then rb_set_parent tmp2 parent else ret tt) in
    rb_rotate_set_parents parent sibling RB_BLACK.

Fixpoint rb_erase_color_loop (fuel : nat) (node parent : Z) : M rb_state unit :=
  match fuel with
  | O => ub
  | S fuel =>
    let! sibling := get_right parent in
    if negb (node =? sibling) then
      let! red := rb_is_red sibling in
      let! sibling :=
        (if red then
           let! tmp1 := get_left sibling in
           do! set_right parent tmp1 in
           do! set_left sibling parent in
           do! rb_set_parent_color tmp1 parent RB_BLACK in
           do! rb_rotate_set_parents parent sibling RB_RED in
           ret tmp1
         else ret sibling) in
      rb_erase_cases_left (rb_erase_color_loop fuel) parent sibling
    else
      let! sibling := get_left parent in
      let! red := rb_is_red sibling in
      let! sibling :=
        (if red then
           let! tmp1 := get_right sibling in
           do! set_left parent tmp1 in
           do! set_right sibling parent in
           do! rb_set_parent_color tmp1 parent RB_BLACK in
           do! rb_rotate_set_parents parent sibling RB_RED in
           ret tmp1
         else ret sibling) in
      rb_erase_cases_right (rb_erase_color_loop fuel) parent sibling
  end.

Definition rb_erase_color (parent : Z) : M rb_state unit :=
  let! s := get in rb_erase_color_loop (rb_fuel s) NULL parent.

(** The [do { parent = successor; successor = tmp; tmp = tmp->rb_left; }
    while (tmp);] loop of [rb_erase]; returns [parent] and [successor]. *)
Fixpoint rb_leftmost_loop (fuel : nat) (successor tmp : Z) : M rb_state (Z * Z) :=
  match fuel with
  | O => ub
  | S fuel =>
    let parent := successor in
    let successor := tmp in
    let! tmp := get_left tmp in
    if negb (tmp =? NULL) then rb_leftmost_loop fuel successor tmp
    else ret (parent, successor)
  end.

(** Case 3 of [rb_erase], the node has two children: its successor takes its
    place.  Returns [rebalance]. *)
Definition rb_erase_two (fuel : nat) (node child : Z) : M rb_state Z :=
  let! tmp := get_left child in
  let! '(parent, successor, child2) :=
    (if tmp =? NULL then
       let! child2 := get_right child in
       ret (child, child, child2)
     else
       let! '(parent, successor) := rb_leftmost_loop fuel child tmp in
       let! child2 := get_right successor in
       do! set_left parent child2 in
       do! set_right successor child in
       do! rb_set_parent child successor in
       ret (parent, successor, child2)) in
  let! tmp := get_left node in
  do! set_left successor tmp in
  do! rb_set_parent tmp successor in
  let! pc := get_pc node in
  let tmp := rb_parent_of pc in
  do! rb_change_child node successor tmp in
  if negb (child2 =? NULL) then
    do! set_pc successor pc in
    do! rb_set_parent_color child2 parent RB_BLACK in
    ret NULL
  else
    let! pc2 := get_pc successor in
    do! set_pc successor pc in
    ret (if pc_is_black pc2 then parent else NULL).

Definition rb_erase (node : Z) : M rb_state unit :=
  let! s0 := get in
  let! child := get_right node in
  let! tmp := get_left node in
  let! rebalance :=
    (if tmp =? NULL then
       let! pc := get_pc node in
       let parent := rb_parent_of pc in
       do! rb_change_child node child parent in
       if negb (child =? NULL) then
         do! set_pc child pc in ret NULL
       else ret (if pc_is_black pc then parent else NULL)
     else if child =? NULL then
       let! pc := get_pc node in
       do! set_pc tmp pc in
       let parent := rb_parent_of pc in
       do! rb_change_child node tmp parent in
       ret NULL
     else rb_erase_two (rb_fuel s0) node child) in
  if negb (rebalance =? NULL) then rb_erase_color rebalance else ret tt.

(** ** Traversal *)

Fixpoint rb_go_left (fuel : nat) (n : Z) : M rb_state Z :=
  match fuel with
  | O => ub
  | S fuel =>
    let! l := get_left n in
    if negb (l =? NULL) then rb_go_left fuel l else ret n
  end.

Fixpoint rb_go_right (fuel : nat) (n : Z) : M rb_state Z :=
  match fuel with
  | O => ub
  | S fuel =>
    let! r := get_right n in
    if negb (r =? NULL) then rb_go_right fuel r else ret n
  end.

Definition rb_first : M rb_state Z :=
  let! s := get in
  let n := rb_root_node s in
  if n =? NULL then ret NULL else rb_go_left (rb_fuel s) n.

Definition rb_last : M rb_state Z :=
  let! s := get in
  let n := rb_root_node s in
  if n =? NULL then ret NULL else rb_go_right (rb_fuel s) n.

(** [RB_EMPTY_NODE(node)] *)
Definition rb_empty_node (node : Z) : M rb_state bool :=
  let! pc := get_pc node in ret (pc =? node).

Fixpoint rb_climb_right (fuel : nat) (node : Z) : M rb_state Z :=
  match fuel with
  | O => ub
  | S fuel =>
    let! parent := rb_parent node in
    if negb (parent =? NULL) then
      let! r := get_right parent in
      if node =? r then rb_climb_right fuel parent else ret parent
    else ret parent
  end.

Fixpoint rb_climb_left (fuel : nat) (node : Z) : M rb_state Z :=
  match fuel with
  | O => ub
  | S fuel =>
    let! parent := rb_parent node in
    if negb (parent =? NULL) then
      let! l := get_left parent in
      if node =? l then rb_climb_left fuel parent else ret parent
    else ret parent
  end.

Definition rb_next (node : Z) : M rb_state Z :=
  let! s := get in
  let! empty := rb_empty_node node in
  if empty then ret NULL else
  let! r := get_right node in
  if negb (r =? NULL) then rb_go_left (rb_fuel s) r
  else rb_climb_right (rb_fuel s) node.

Definition rb_prev (node : Z) : M rb_state Z :=
  let! s := get in
  let! empty := rb_empty_node node in
  if empty then ret NULL else
  let! l := get_left node in
  if negb (l =? NULL) then rb_go_right (rb_fuel s) l
  else rb_climb_left (rb_fuel s) node.

Definition rb_replace_node (victim new : Z) : M rb_state unit :=
  let! parent := rb_parent victim in
  do! rb_change_child victim new parent in
  let! l := get_left victim in
  do! (if negb (l =? NULL) then rb_set_parent l new else ret tt) in
  let! r := get_right victim in
  do! (if negb (r =? NULL) then rb_set_parent r new else ret tt) in
  let! v := load victim in
  store new (fun _ => v).
