(* ===== verification/RbSpec.v ===== *)
(** * Abstract red-black trees

    The mathematical trees that the pointer structures of [RbTree] represent:
    trees of node addresses with colours, contexts (the path from a node to
    the root), the two fix-up procedures as functions on a focused subtree and
    its context, and the proofs that they keep the in-order sequence and the
    five red-black properties listed at the top of [lib/rbtree.c]. *)

From S2P Require Import Prelude.

Inductive color := Red | Black.

#[export] Instance color_eq_dec : EqDecision color.
Proof. solve_decision. Defined.

Inductive tree := E | T (c : color) (l : tree) (a : Z) (r : tree).

(** One step of the path to the root: the hole is the left child ([FL]) or the
    right child ([FR]) of the node at [a]. *)
Inductive frame := FL (c : color) (a : Z) (r : tree) | FR (c : color) (l : tree) (a : Z).

Definition root_of (t : tree) : Z := match t with E => 0 | T _ _ a _ => a end.

Definition plug1 (t : tree) (f : frame) : tree :=
  match f with FL c a r => T c t a r | FR c l a => T c l a t end.

Fixpoint zip (t : tree) (k : list frame) : tree :=
  match k with [] => t | f :: k => zip (plug1 t f) k end.

Fixpoint inorder (t : tree) : list Z :=
  match t with E => [] | T _ l a r => inorder l ++ a :: inorder r end.

(** The in-order addresses before and after the hole of a context. *)
Fixpoint ctx_before (k : list frame) : list Z :=
  match k with
  | [] => []
  | FL _ _ _ :: k => ctx_before k
  | FR _ l a :: k => ctx_before k ++ inorder l ++ [a]
  end.
Fixpoint ctx_after (k : list frame) : list Z :=
  match k with
  | [] => []
  | FL _ a r :: k => a :: inorder r ++ ctx_after k
  | FR _ _ _ :: k => ctx_after k
  end.

Lemma inorder_zip t k : inorder (zip t k) = ctx_before k ++ inorder t ++ ctx_after k.
Proof.
  revert t; induction k as [|[c a r|c l a] k IH]; intros t; simpl.
  - by rewrite app_nil_r.
  - rewrite IH. simpl. by rewrite <-!app_assoc.
  - rewrite IH. simpl. by rewrite <-!app_assoc.
Qed.

Lemma zip_app t k1 k2 : zip t (k1 ++ k2) = zip (zip t k1) k2.
Proof. revert t; induction k1 as [|f k1 IH]; intros t; simpl; auto. Qed.

Definition frame_color (f : frame) : color := match f with FL c _ _ | FR c _ _ => c end.
Definition frame_addr (f : frame) : Z := match f with FL _ a _ | FR _ _ a => a end.

Definition is_red (t : tree) : bool := match t with T Red _ _ _ => true | _ => false end.
Definition recolor (c : color) (t : tree) : tree :=
  match t with E => E | T _ l a r => T c l a r end.
Abbreviation blacken := (recolor Black).

Lemma inorder_recolor c t : inorder (recolor c t) = inorder t.
Proof. by destruct t. Qed.

(** ** Insertion fix-up on a red subtree [t] in context [k] *)

Fixpoint ins_fix (t : tree) (k : list frame) : tree :=
  match k with
  | [] => blacken t
  | f1 :: k1 =>
    match frame_color f1, k1 with
    | Black, _ | Red, [] => zip t k
    | Red, f2 :: k2 =>
      match f2 with
      | FL gc g u =>
        if is_red u then ins_fix (T Red (blacken (plug1 t f1)) g (blacken u)) k2
        else match f1, t with
             | FL _ p s, _ => zip (T gc t p (T Red (blacken s) g u)) k2
             | FR _ s p, T tc tl n tr =>
                 zip (T gc (T Red s p (blacken tl)) n (T Red (blacken tr) g u)) k2
             | FR _ _ _, E => zip t k
             end
      | FR gc u g =>
        if is_red u then ins_fix (T Red (blacken u) g (blacken (plug1 t f1))) k2
        else match f1, t with
             | FR _ s p, _ => zip (T gc (T Red u g (blacken s)) p t) k2
             | FL _ p s, T tc tl n tr =>
                 zip (T gc (T Red u g (blacken tl)) n (T Red (blacken tr) p s)) k2
             | FL _ _ _, E => zip t k
             end
      end
    end
  end.

(** ** Erasure fix-up: the subtree [t] in the hole of [k] lacks one black node *)

(** Cases 2 to 4 of [__rb_erase_color], with the hole on the left or on the
    right of the parent [p] of colour [c] and sibling [s]; [cont] continues at
    the parent. *)
Definition erase_left (cont : tree -> tree) (t : tree) (c : color) (p : Z) (s : tree)
    (k : list frame) : tree :=
  match s with
  | E => zip (T c t p s) k
  | T sc sl sa sr =>
    if is_red sr then zip (T c (T Black t p sl) sa (blacken sr)) k
    else match sl with
         | T Red sll x slr =>
             zip (T c (T Black t p sll) x (T Black (blacken slr) sa sr)) k
         | _ => match c with
                | Red => zip (T Black t p (T Red sl sa sr)) k
                | Black => cont (T Black t p (T Red sl sa sr))
                end
         end
  end.

Definition erase_right (cont : tree -> tree) (t : tree) (c : color) (p : Z) (s : tree)
    (k : list frame) : tree :=
  match s with
  | E => zip (T c s p t) k
  | T sc sl sa sr =>
    if is_red sl then zip (T c (blacken sl) sa (T Black sr p t)) k
    else match sr with
         | T Red srl x srr =>
             zip (T c (T Black sl sa (blacken srl)) x (T Black srr p t)) k
         | _ => match c with
                | Red => zip (T Black (T Red sl sa sr) p t) k
                | Black => cont (T Black (T Red sl sa sr) p t)
                end
         end
  end.

Fixpoint erase_fix (t : tree) (k : list frame) : tree :=
  match k with
  | [] => t
  | FL c p s :: k =>
    match s with
    | T Red sl sa sr =>
        erase_left (fun t' => zip t' (FL c sa sr :: k)) t Red p (blacken sl) (FL c sa sr :: k)
    | _ => erase_left (fun t' => erase_fix t' k) t c p s k
    end
  | FR c s p :: k =>
    match s with
    | T Red sl sa sr =>
        erase_right (fun t' => zip t' (FR c sl sa :: k)) t Red p (blacken sr) (FR c sl sa :: k)
    | _ => erase_right (fun t' => erase_fix t' k) t c p s k
    end
  end.

(** The leftmost node of a non-empty tree: its context inside the tree, its
    colour, its address and its right child. *)
Fixpoint split_min (t : tree) (k : list frame) : list frame * color * Z * tree :=
  match t with
  | E => (k, Black, 0, E)
  | T c E a r => (k, c, a, r)
  | T c l a r => split_min l (FL c a r :: k)
  end.

Definition erase_hole (c : color) (k : list frame) : tree :=
  match c with Red => zip E k | Black => erase_fix E k end.

(** The node has two children: its in-order successor takes its place. *)
Definition erase_succ (c : color) (l r : tree) (k : list frame) : tree :=
  let '(path, sc, s, sr) := split_min r [] in
  let k' := path ++ FR c l s :: k in
  match sr with
  | E => erase_hole sc k'
  | _ => zip (blacken sr) k'
  end.

Definition erase_at (c : color) (l r : tree) (k : list frame) : tree :=
  match l, r with
  | E, E => erase_hole c k
  | E, _ => zip (recolor c r) k
  | _, E => zip (recolor c l) k
  | _, _ => erase_succ c l r k
  end.

(** ** The red-black properties *)

(** [rbt c n t]: [t] has root colour [c], no red node has a red child, and
    every path to a leaf has [n] black nodes. *)
Inductive rbt : color -> nat -> tree -> Prop :=
| rbt_E : rbt Black 0 E
| rbt_R n l a r : rbt Black n l -> rbt Black n r -> rbt Red n (T Red l a r)
| rbt_B n cl cr l a r : rbt cl n l -> rbt cr n r -> rbt Black (S n) (T Black l a r).

(** [ctx_ok c n k]: filling the hole with a tree of root colour [c] and black
    height [n] gives a red-black tree with a black root. *)
Inductive ctx_ok : color -> nat -> list frame -> Prop :=
| ck_nil n : ctx_ok Black n []
| ck_LB c cs n a s k : rbt cs n s -> ctx_ok Black (S n) k -> ctx_ok c n (FL Black a s :: k)
| ck_RB c cs n s a k : rbt cs n s -> ctx_ok Black (S n) k -> ctx_ok c n (FR Black s a :: k)
| ck_LR n a s k : rbt Black n s -> ctx_ok Red n k -> ctx_ok Black n (FL Red a s :: k)
| ck_RR n s a k : rbt Black n s -> ctx_ok Red n k -> ctx_ok Black n (FR Red s a :: k).

Create HintDb rbdb.
#[export] Hint Constructors rbt ctx_ok : rbdb.

Definition rb_tree (t : tree) : Prop := exists n, rbt Black n t.

Lemma ctx_ok_weaken n k : ctx_ok Red n k -> ctx_ok Black n k.
Proof. inversion 1; subst; eauto with rbdb. Qed.

Lemma ctx_ok_black c n k : ctx_ok c n k -> ctx_ok Black n k.
Proof. destruct c; eauto using ctx_ok_weaken. Qed.

#[export] Hint Resolve ctx_ok_weaken ctx_ok_black : rbdb.

Lemma rbt_zip c n t k : rbt c n t -> ctx_ok c n k -> rb_tree (zip t k).
Proof.
  intros Ht Hk; revert t Ht; induction Hk; intros t Ht; simpl; [by exists n|..];
    eauto with rbdb.
Qed.

Lemma rbt_blacken c n t : rbt c n t -> exists m, rbt Black m (blacken t).
Proof. inversion 1; subst; simpl; eauto with rbdb. Qed.

Lemma rbt_nored c n t : rbt c n t -> is_red t = false -> rbt Black n t.
Proof. inversion 1; subst; simpl; intros; (done || eauto with rbdb). Qed.

Lemma blacken_id n t : rbt Black n t -> blacken t = t.
Proof. inversion 1; subst; done. Qed.

(** Splitting a red-black tree at a node gives a valid subtree and context. *)
Lemma rbt_unzip t k n0 :
  rbt Black n0 (zip t k) -> exists c n, rbt c n t /\ ctx_ok c n k.
Proof.
  revert t; induction k as [|f k IH]; intros t H; simpl in H; [eauto with rbdb|].
  destruct (IH _ H) as (c & n & Ht & Hk).
  destruct f; simpl in Ht; inversion Ht; subst; eauto 8 with rbdb.
Qed.

(** ** Insertion keeps the order and the balance *)

Lemma ins_fix_inorder t k : inorder (ins_fix t k) = inorder (zip t k).
Proof.
  remember (length k) as m eqn:Hm. revert t k Hm.
  induction m as [m IH] using lt_wf_ind; intros t k ->.
  destruct k as [|f1 k1]; [by destruct t|].
  destruct f1 as [[] p s|[] s p], k1 as [|[gc g u|gc u g] k2]; simpl; try done;
    (destruct (is_red u);
      [ erewrite IH; [|simpl|reflexivity]; simpl; [|lia]
      | destruct t as [|tc tl n tr]; try done ]);
    rewrite ?inorder_zip; simpl; rewrite ?inorder_recolor; simpl;
    rewrite ?inorder_recolor; by repeat (rewrite <-?app_assoc; simpl).
Qed.

Lemma rbt_red_blacken c n t : rbt c n t -> is_red t = true -> rbt Black (S n) (blacken t).
Proof. inversion 1; subst; simpl; intros; (done || eauto with rbdb). Qed.

#[export] Hint Resolve rbt_red_blacken rbt_nored : rbdb.

(** A red node over a red parent is resolved by a rotation into a black node. *)
Ltac rb_rotate :=
  match goal with H : rbt Red _ ?t |- _ => inversion H; subst end;
  rewrite ?(blacken_id _ _) by eassumption;
  repeat match goal with H : rbt Black ?n ?t |- context [blacken ?t] =>
    rewrite (blacken_id n t H) end;
  eapply rbt_zip; eauto 6 with rbdb.

Lemma ins_fix_rb n t k : rbt Red n t -> ctx_ok Black n k -> rb_tree (ins_fix t k).
Proof.
  remember (length k) as m eqn:Hm. revert n t k Hm.
  induction m as [m IH] using lt_wf_ind; intros n t k -> Ht Hk.
  inversion Hk; subst; simpl.
  - by eapply rbt_blacken.
  - eapply rbt_zip; eauto with rbdb.
  - eapply rbt_zip; eauto with rbdb.
  - match goal with H : ctx_ok Red _ ?k |- _ => inversion H; subst; simpl end;
      (destruct (is_red _) eqn:Hu;
       [eapply IH; [|reflexivity|..]; simpl; eauto with rbdb lia|rb_rotate]).
  - match goal with H : ctx_ok Red _ ?k |- _ => inversion H; subst; simpl end;
      (destruct (is_red _) eqn:Hu;
       [eapply IH; [|reflexivity|..]; simpl; eauto with rbdb lia|rb_rotate]).
Qed.

(** ** Erasure keeps the order and the balance *)

Lemma erase_left_inorder cont t c p s k :
  (forall t', inorder (cont t') = inorder (zip t' k)) ->
  inorder (erase_left cont t c p s k) = inorder (zip (T c t p s) k).
Proof.
  intros Hc. destruct s as [|sc sl sa sr]; simpl; [done|].
  destruct (is_red sr); [|destruct sl as [|[] sll x slr], c; simpl];
    rewrite ?Hc, ?inorder_zip; simpl; rewrite ?inorder_recolor; simpl;
    by repeat (rewrite <-?app_assoc; simpl).
Qed.

Lemma erase_right_inorder cont t c p s k :
  (forall t', inorder (cont t') = inorder (zip t' k)) ->
  inorder (erase_right cont t c p s k) = inorder (zip (T c s p t) k).
Proof.
  intros Hc. destruct s as [|sc sl sa sr]; simpl; [done|].
  destruct (is_red sl); [|destruct sr as [|[] srl x srr], c; simpl];
    rewrite ?Hc, ?inorder_zip; simpl; rewrite ?inorder_recolor; simpl;
    by repeat (rewrite <-?app_assoc; simpl).
Qed.

Lemma erase_fix_inorder t k : inorder (erase_fix t k) = inorder (zip t k).
Proof.
  revert t; induction k as [|[c p s|c s p] k IH]; intros t; simpl; [done|..];
    destruct s as [|[] sl sa sr];
    rewrite ?erase_left_inorder, ?erase_right_inorder by (intros; simpl; auto);
    rewrite ?inorder_zip; simpl; rewrite ?inorder_zip; simpl; rewrite ?inorder_recolor;
    by repeat (rewrite <-?app_assoc; simpl).
Qed.

(** The height a context must accept for a node of colour [c] over black
    height [n]. *)
Definition up (c : color) (n : nat) : nat := match c with Black => S n | Red => n end.

Lemma erase_left_rb cont n t c p s k :
  rbt Black n t -> rbt Black (S n) s -> ctx_ok c (up c (S n)) k ->
  (forall t', c = Black -> rbt Black (S n) t' -> rb_tree (cont t')) ->
  rb_tree (erase_left cont t c p s k).
Proof.
  intros Ht Hs Hk Hc. inversion Hs; subst; simpl.
  destruct (is_red _) eqn:Hr; [|destruct l as [|[] sll x slr]];
    repeat match goal with H : rbt _ _ E |- _ => inversion H; clear H; subst
           | H : rbt _ _ (T _ _ _ _) |- _ => inversion H; clear H; subst end;
    destruct c; simpl in *;
    repeat match goal with H : rbt Black ?n ?t |- context [blacken ?t] =>
      rewrite (blacken_id n t H) end;
    try (eapply rbt_zip; [solve [eauto 8 with rbdb]|solve [eauto with rbdb]]);
    apply Hc; eauto 8 with rbdb.
Qed.

Lemma erase_right_rb cont n t c p s k :
  rbt Black n t -> rbt Black (S n) s -> ctx_ok c (up c (S n)) k ->
  (forall t', c = Black -> rbt Black (S n) t' -> rb_tree (cont t')) ->
  rb_tree (erase_right cont t c p s k).
Proof.
  intros Ht Hs Hk Hc. inversion Hs; subst; simpl.
  destruct (is_red _) eqn:Hr; [|destruct r as [|[] srl x srr]];
    repeat match goal with H : rbt _ _ E |- _ => inversion H; clear H; subst
           | H : rbt _ _ (T _ _ _ _) |- _ => inversion H; clear H; subst end;
    destruct c; simpl in *;
    repeat match goal with H : rbt Black ?n ?t |- context [blacken ?t] =>
      rewrite (blacken_id n t H) end;
    try (eapply rbt_zip; [solve [eauto 8 with rbdb]|solve [eauto with rbdb]]);
    apply Hc; eauto 8 with rbdb.
Qed.

Lemma erase_fix_rb n t k : rbt Black n t -> ctx_ok Black (S n) k -> rb_tree (erase_fix t k).
Proof.
  revert n t; induction k as [|f k IH]; intros n t Ht Hk; simpl; [by exists n|].
  inversion Hk; subst;
    match goal with H : rbt _ (S n) ?s |- _ => inversion H; subst end;
    repeat match goal with H : rbt Black ?n ?t |- context [blacken ?t] =>
      rewrite (blacken_id n t H) end;
    first [eapply erase_left_rb | eapply erase_right_rb]; simpl; eauto 6 with rbdb;
    intros; first [done | eapply IH; eauto with rbdb].
Qed.

Lemma split_min_spec t k path sc s sr :
  t <> E -> split_min t k = (path, sc, s, sr) ->
  zip (T sc E s sr) path = zip t k /\ ctx_before path = ctx_before k.
Proof.
  revert k; induction t as [|c l IHl a r _]; intros k Hne Hs; [done|].
  simpl in Hs. destruct l as [|lc ll la lr]; [by simplify_eq|].
  destruct (IHl _ ltac:(done) Hs) as [-> ->]. done.
Qed.

Definition is_FL (f : frame) : bool := match f with FL _ _ _ => true | FR _ _ _ => false end.

Lemma split_min_path t k path sc s sr :
  t <> E -> split_min t k = (path, sc, s, sr) ->
  exists p, path = p ++ k /\ forallb is_FL p = true /\ t = zip (T sc E s sr) p.
Proof.
  revert k; induction t as [|c l IHl a r _]; intros k Hne Hs; [done|].
  simpl in Hs. destruct l as [|lc ll la lr]; [simplify_eq; by exists []|].
  destruct (IHl _ ltac:(done) Hs) as (p & -> & Hp & Hz).
  exists (p ++ [FL c a r]). rewrite <-app_assoc, forallb_app, Hp, zip_app, <-Hz. done.
Qed.

Lemma erase_hole_inorder c k : inorder (erase_hole c k) = ctx_before k ++ ctx_after k.
Proof. destruct c; simpl; by rewrite ?erase_fix_inorder, inorder_zip. Qed.

Lemma ctx_app k1 k2 :
  ctx_before (k1 ++ k2) = ctx_before k2 ++ ctx_before k1 /\
  ctx_after (k1 ++ k2) = ctx_after k1 ++ ctx_after k2.
Proof.
  induction k1 as [|[c a r|c l a] k1 [IH1 IH2]]; simpl; split;
    rewrite ?app_nil_r, ?IH1, ?IH2; by repeat (rewrite <-?app_assoc; simpl).
Qed.

Lemma erase_succ_inorder c l r k :
  r <> E ->
  inorder (erase_succ c l r k) = ctx_before k ++ inorder l ++ inorder r ++ ctx_after k.
Proof.
  intros Hr. unfold erase_succ.
  destruct (split_min r []) as [[[path sc] s] sr] eqn:Hs.
  apply split_min_spec in Hs as [Hs Hp]; [|done]. simpl in Hp.
  apply (f_equal inorder) in Hs.
  rewrite inorder_zip, Hp in Hs. simpl in Hs. rewrite <-Hs.
  destruct (ctx_app path (FR c l s :: k)) as [Hb Ha].
  destruct sr; rewrite ?erase_hole_inorder, ?inorder_zip, ?inorder_recolor, Hb, Ha; simpl; rewrite ?Hp;
    by repeat (rewrite <-?app_assoc; simpl).
Qed.

Lemma erase_at_inorder c l r k :
  inorder (erase_at c l r k) = ctx_before k ++ inorder l ++ inorder r ++ ctx_after k.
Proof.
  destruct l as [|lc ll la lr], r as [|rc rl ra rr]; cbn [erase_at];
    rewrite ?erase_succ_inorder, ?erase_hole_inorder, ?inorder_zip, ?inorder_recolor;
    by rewrite ?app_nil_r.
Qed.

Lemma rbt_no_left c n a r : rbt c n (T c E a r) ->
  r = E \/ (c = Black /\ exists l' a' r', r = T Red l' a' r' /\ rbt Red 0 r).
Proof.
  intros H; inversion H; clear H; subst;
    repeat match goal with H : rbt _ _ E |- _ => inversion H; clear H; subst end.
  all: match goal with H : rbt _ 0 _ |- _ => inversion H; subst end; eauto 10.
Qed.

Lemma rbt_no_right c n l a : rbt c n (T c l a E) ->
  l = E \/ (c = Black /\ exists l' a' r', l = T Red l' a' r' /\ rbt Red 0 l).
Proof.
  intros H; inversion H; clear H; subst;
    repeat match goal with H : rbt _ _ E |- _ => inversion H; clear H; subst end.
  all: match goal with H : rbt _ 0 _ |- _ => inversion H; subst end; eauto 10.
Qed.

Lemma rbt_color c n c' l a r : rbt c n (T c' l a r) -> c = c'.
Proof. by inversion 1. Qed.

Lemma hole_ctx c n a k :
  rbt c n (T c E a E) -> ctx_ok c n k -> c = Black -> ctx_ok Black 1 k.
Proof.
  intros Ht Hk ->. inversion Ht; subst.
  by repeat match goal with H : rbt _ _ E |- _ => inversion H; clear H; subst end.
Qed.

Lemma erase_hole_rb c n a r k :
  rbt c n (T c E a r) -> r = E -> ctx_ok c n k -> rb_tree (erase_hole c k).
Proof.
  intros Ht -> Hk. inversion Ht; subst;
    repeat match goal with H : rbt _ _ E |- _ => inversion H; clear H; subst end; simpl.
  - eapply rbt_zip; eauto with rbdb.
  - eapply erase_fix_rb; eauto with rbdb.
Qed.

Lemma ctx_ok_zip_path t path c0 n0 k :
  rbt c0 n0 (zip t path) -> ctx_ok c0 n0 k ->
  exists c n, rbt c n t /\ ctx_ok c n (path ++ k).
Proof.
  revert t; induction path as [|f path IH]; intros t H Hk; simpl in *; [eauto|].
  destruct (IH _ H Hk) as (c & n & Ht & Hk').
  destruct f; simpl in Ht; inversion Ht; subst; eauto 8 with rbdb.
Qed.

(** The invariant at the place the successor is taken from. *)
Lemma split_min_ctx c n l a r k path sc s sr :
  r <> E -> split_min r [] = (path, sc, s, sr) -> rbt c n (T c l a r) -> ctx_ok c n k ->
  exists n', rbt sc n' (T sc E s sr) /\ ctx_ok sc n' (path ++ FR c l s :: k).
Proof.
  intros Hr Hs Ht Hk. apply split_min_spec in Hs as [Hs _]; [|done]. simpl in Hs.
  assert (exists c' n', rbt c' n' r /\ ctx_ok c' n' (FR c l s :: k)) as (c' & n' & Hr' & Hk')
    by (inversion Ht; subst; eauto with rbdb).
  rewrite <-Hs in Hr'.
  destruct (ctx_ok_zip_path _ _ _ _ _ Hr' Hk') as (c2 & n2 & Hn & Hk2).
  pose proof (rbt_color _ _ _ _ _ _ Hn) as ->. eauto.
Qed.

Lemma erase_succ_rb c n l a r k :
  r <> E -> rbt c n (T c l a r) -> ctx_ok c n k -> rb_tree (erase_succ c l r k).
Proof.
  intros Hr Ht Hk. unfold erase_succ.
  destruct (split_min r []) as [[[path sc] s] sr] eqn:Hs.
  destruct (split_min_ctx _ _ _ _ _ _ _ _ _ _ Hr Hs Ht Hk) as (n2 & Hn & Hk2).
  destruct (rbt_no_left _ _ _ _ Hn) as [->|(-> & l' & a' & r' & -> & Hred)].
  - by eapply erase_hole_rb.
  - inversion Hn; subst; repeat match goal with H : rbt _ _ E |- _ => inversion H; clear H; subst end.
    eapply rbt_zip; [|eassumption]. inversion Hred; subst; simpl; eauto with rbdb.
Qed.

Lemma erase_at_rb c n l a r k :
  rbt c n (T c l a r) -> ctx_ok c n k -> rb_tree (erase_at c l r k).
Proof.
  intros Ht Hk. destruct l as [|lc ll la lr], r as [|rc rl ra rr]; cbn [erase_at].
  - by eapply erase_hole_rb.
  - destruct (rbt_no_left _ _ _ _ Ht) as [?|(-> & ? & ? & ? & ? & Hred)]; simplify_eq.
    inversion Ht; subst; inversion Hred; subst;
      repeat match goal with H : rbt _ _ E |- _ => inversion H; clear H; subst end.
    eapply rbt_zip; eauto with rbdb.
  - destruct (rbt_no_right _ _ _ _ Ht) as [?|(-> & ? & ? & ? & ? & Hred)]; simplify_eq.
    inversion Ht; subst; inversion Hred; subst;
      repeat match goal with H : rbt _ _ E |- _ => inversion H; clear H; subst end.
    eapply rbt_zip; eauto with rbdb.
  - by eapply erase_succ_rb.
Qed.
