(* ===== verification/RbHeap.v ===== *)
(** * The pointer operations of rbtree.c implement the abstract trees

    [rep] says that a heap and a root pointer represent an abstract tree; the
    main lemmas run [rb_insert_color] and [rb_erase] of [RbTree] on such a
    heap and show that they return, touch nothing outside the tree, and leave
    a heap representing the trees [ins_fix] and [erase_at] of [RbSpec]. *)

From S2P Require Import Prelude RbTree RbSpec.

Definition cbit (c : color) : Z := match c with Red => 0 | Black => 1 end.
Definition mkpc (p : Z) (c : color) : Z := Z.lor p (cbit c).

(** Addresses of nodes are non-null and leave the two low bits free. *)
Definition ok_addr (a : Z) : Prop := a <> 0 /\ Z.land a 3 = 0.

(** ** The packed parent and colour word *)

Lemma land_ldiff_low p : Z.land p 3 = 0 -> Z.land p (Z.lnot 3) = p.
Proof.
  intros H. rewrite <-Z.ldiff_land. apply Z.bits_inj'. intros i Hi.
  rewrite Z.ldiff_spec.
  pose proof (f_equal (fun z => Z.testbit z i) H) as Hb. cbv beta in Hb.
  rewrite Z.land_spec, Z.bits_0 in Hb.
  by destruct (Z.testbit p i), (Z.testbit 3 i).
Qed.

Lemma rb_parent_of_mkpc p c : Z.land p 3 = 0 -> rb_parent_of (mkpc p c) = p.
Proof.
  intros H. unfold rb_parent_of, mkpc.
  rewrite Z.land_lor_distr_l, (land_ldiff_low p H). by destruct c; rewrite Z.lor_0_r.
Qed.

Lemma land3_land1 p : Z.land p 3 = 0 -> Z.land p 1 = 0.
Proof.
  intros H. change 1 with (Z.land 3 1). by rewrite Z.land_assoc, H.
Qed.

Lemma rb_color_of_mkpc p c : Z.land p 3 = 0 -> rb_color_of (mkpc p c) = cbit c.
Proof.
  intros H. unfold rb_color_of, mkpc.
  rewrite Z.land_lor_distr_l, (land3_land1 p H). by destruct c.
Qed.

Lemma mkpc_red p : mkpc p Red = p.
Proof. unfold mkpc. apply Z.lor_0_r. Qed.

Lemma mkpc_set_black p c : Z.lor (mkpc p c) 1 = mkpc p Black.
Proof. unfold mkpc. rewrite <-Z.lor_assoc. by destruct c. Qed.

(** ** The nodes a tree or a context puts into the heap *)

Fixpoint nodes (par : Z) (t : tree) : list (Z * rb_node) :=
  match t with
  | E => []
  | T c l a r =>
      (a, RbNode (mkpc par c) (root_of r) (root_of l)) :: nodes a l ++ nodes a r
  end.

Definition top (k : list frame) : Z := match k with [] => 0 | f :: _ => frame_addr f end.

(** [ctx_nodes x k]: the nodes of the context [k] when its hole points to [x]. *)
Fixpoint ctx_nodes (x : Z) (k : list frame) : list (Z * rb_node) :=
  match k with
  | [] => []
  | FL c a r :: k =>
      (a, RbNode (mkpc (top k) c) (root_of r) x) :: nodes a r ++ ctx_nodes a k
  | FR c l a :: k =>
      (a, RbNode (mkpc (top k) c) x (root_of l)) :: nodes a l ++ ctx_nodes a k
  end.

Fixpoint ctx_root (x : Z) (k : list frame) : Z :=
  match k with [] => x | f :: k => ctx_root (frame_addr f) k end.

Lemma nodes_zip t k : nodes 0 (zip t k) ≡ₚ nodes (top k) t ++ ctx_nodes (root_of t) k.
Proof.
  revert t; induction k as [|[c a r|c l a] k IH]; intros t; simpl.
  - by rewrite app_nil_r.
  - rewrite IH. simpl. solve_Permutation.
  - rewrite IH. simpl. solve_Permutation.
Qed.

Lemma root_zip t k : root_of (zip t k) = ctx_root (root_of t) k.
Proof. revert t; induction k as [|[] k IH]; intros t; simpl; rewrite ?IH; done. Qed.

Lemma nodes_fst p t : (nodes p t).*1 ≡ₚ inorder t.
Proof.
  revert p; induction t as [|c l IHl a r IHr]; intros p; simpl; [done|].
  rewrite fmap_app, IHl, IHr. solve_Permutation.
Qed.

(** ** Heaps described by a list of nodes

    [st F r L s]: the nodes of [L] are in the heap of [s], everything else is
    as in the heap [F], and the root pointer is [r]. *)

Record st (F : gmap Z rb_node) (r : Z) (L : list (Z * rb_node)) (s : rb_state) : Prop := {
  st_root : rb_root_node s = r;
  st_nodup : NoDup L.*1;
  st_ok : Forall ok_addr L.*1;
  st_look : forall a n, (a, n) ∈ L -> rb_heap s !! a = Some n;
  st_frame : forall a, a ∉ L.*1 -> rb_heap s !! a = F !! a
}.

#[export] Instance st_proper F r : Proper ((≡ₚ) ==> (=) ==> iff) (st F r).
Proof.
  intros L L' HL s ? <-. split; intros []; split; try done.
  - by rewrite <-HL.
  - by rewrite <-HL.
  - intros a n. rewrite <-HL. auto.
  - intros a. rewrite <-HL. auto.
  - by rewrite HL.
  - by rewrite HL.
  - intros a n. rewrite HL. auto.
  - intros a. rewrite HL. auto.
Qed.

Lemma st_perm F r L L' s : st F r L s -> L ≡ₚ L' -> st F r L' s.
Proof. by intros ? <-. Qed.

Lemma st_update F r a n n' L s :
  st F r ((a, n) :: L) s ->
  st F r ((a, n') :: L) (RbState (<[a := n']> (rb_heap s)) (rb_root_node s)).
Proof.
  intros [Hr Hnd Hok Hlk Hfr]. cbn [fmap list_fmap fst] in *.
  apply NoDup_cons in Hnd as [Hna Hnd].
  split; cbn [fmap list_fmap fst rb_heap rb_root_node]; auto.
  - by constructor.
  - intros b m [[= -> ->]|Hin]%elem_of_cons; [by rewrite lookup_insert_eq|].
    rewrite lookup_insert_ne; [by apply Hlk, elem_of_cons; right|].
    intros ->. apply Hna. apply list_elem_of_fmap. by exists (b, m).
  - intros b Hb. rewrite lookup_insert_ne; [by apply Hfr|].
    intros ->. apply Hb. by left.
Qed.

Lemma st_neq F r L s a n b m L' :
  st F r L s -> L ≡ₚ (a, n) :: (b, m) :: L' -> a <> b.
Proof.
  intros [] HL. rewrite HL in st_nodup0. simpl in st_nodup0.
  apply NoDup_cons in st_nodup0 as [H _]. intros ->. apply H. by left.
Qed.

Lemma st_nonnull F r L s a n : st F r L s -> (a, n) ∈ L -> ok_addr a.
Proof.
  intros [] Hin. rewrite Forall_forall in st_ok0. apply st_ok0.
  apply list_elem_of_fmap. by exists (a, n).
Qed.

(** *** Pulling a node to the front of a list *)

Lemma pull_here (x : Z * rb_node) L : x :: L ≡ₚ x :: L.
Proof. done. Qed.
Lemma pull_cons (x y : Z * rb_node) L L' : L ≡ₚ x :: L' -> y :: L ≡ₚ x :: y :: L'.
Proof. intros ->. solve_Permutation. Qed.
Lemma pull_app (x : Z * rb_node) L1 L2 L' : L2 ≡ₚ x :: L' -> L1 ++ L2 ≡ₚ x :: L1 ++ L'.
Proof. intros ->. solve_Permutation. Qed.
Lemma pull_app_l (x : Z * rb_node) L1 L2 L' : L1 ≡ₚ x :: L' -> L1 ++ L2 ≡ₚ x :: L' ++ L2.
Proof. intros ->. solve_Permutation. Qed.

Ltac pull :=
  first [ apply pull_here
        | apply pull_cons; pull
        | apply pull_app; pull
        | apply pull_app_l; pull ].

Lemma pull_elem (x : Z * rb_node) L L' : L ≡ₚ x :: L' -> x ∈ L.
Proof. intros ->. by left. Qed.

(** ** Rules for the primitive operations *)

Section rules.
Context (F : gmap Z rb_node) (r : Z) (L L' : list (Z * rb_node)) (s : rb_state).

Lemma wp_load n p (Q : rb_node -> rb_state -> Prop) :
  st F r L s -> L ≡ₚ (p, n) :: L' -> Q n s -> wp (load p) Q s.
Proof.
  intros Hst HL Hk. exists n, s. split; [|done].
  unfold load. by rewrite (st_look _ _ _ _ Hst p n (pull_elem _ _ _ HL)).
Qed.

Lemma wp_get_left pc rt lf p (Q : Z -> rb_state -> Prop) :
  st F r L s -> L ≡ₚ (p, RbNode pc rt lf) :: L' -> Q lf s -> wp (get_left p) Q s.
Proof. intros. apply wp_bind. eapply wp_load; eauto. by apply wp_ret. Qed.

Lemma wp_get_right pc rt lf p (Q : Z -> rb_state -> Prop) :
  st F r L s -> L ≡ₚ (p, RbNode pc rt lf) :: L' -> Q rt s -> wp (get_right p) Q s.
Proof. intros. apply wp_bind. eapply wp_load; eauto. by apply wp_ret. Qed.

Lemma wp_get_pc pc rt lf p (Q : Z -> rb_state -> Prop) :
  st F r L s -> L ≡ₚ (p, RbNode pc rt lf) :: L' -> Q pc s -> wp (get_pc p) Q s.
Proof. intros. apply wp_bind. eapply wp_load; eauto. by apply wp_ret. Qed.

Lemma wp_store f n p (Q : unit -> rb_state -> Prop) :
  st F r L s -> L ≡ₚ (p, n) :: L' ->
  (forall s', st F r ((p, f n) :: L') s' -> Q tt s') -> wp (store p f) Q s.
Proof.
  intros Hst HL Hk.
  exists tt, (RbState (<[p := f n]> (rb_heap s)) (rb_root_node s)). split.
  - unfold store. by rewrite (st_look _ _ _ _ Hst p n (pull_elem _ _ _ HL)).
  - apply Hk. eapply st_update, st_perm; eauto.
Qed.

Lemma wp_set_left pc rt lf p v (Q : unit -> rb_state -> Prop) :
  st F r L s -> L ≡ₚ (p, RbNode pc rt lf) :: L' ->
  (forall s', st F r ((p, RbNode pc rt v) :: L') s' -> Q tt s') -> wp (set_left p v) Q s.
Proof. intros. eapply wp_store; eauto. Qed.

Lemma wp_set_right pc rt lf p v (Q : unit -> rb_state -> Prop) :
  st F r L s -> L ≡ₚ (p, RbNode pc rt lf) :: L' ->
  (forall s', st F r ((p, RbNode pc v lf) :: L') s' -> Q tt s') -> wp (set_right p v) Q s.
Proof. intros. eapply wp_store; eauto. Qed.

Lemma wp_set_pc pc rt lf p v (Q : unit -> rb_state -> Prop) :
  st F r L s -> L ≡ₚ (p, RbNode pc rt lf) :: L' ->
  (forall s', st F r ((p, RbNode v rt lf) :: L') s' -> Q tt s') -> wp (set_pc p v) Q s.
Proof. intros. eapply wp_store; eauto. Qed.

Lemma wp_set_root v (Q : unit -> rb_state -> Prop) :
  st F r L s -> (forall s', st F v L s' -> Q tt s') -> wp (set_root v) Q s.
Proof. intros [] HQ. apply wp_modify, HQ. by split. Qed.

Lemma wp_set_parent_color c q pc rt lf p (Q : unit -> rb_state -> Prop) :
  st F r L s -> L ≡ₚ (p, RbNode pc rt lf) :: L' ->
  (forall s', st F r ((p, RbNode (mkpc q c) rt lf) :: L') s' -> Q tt s') ->
  wp (rb_set_parent_color p q (cbit c)) Q s.
Proof. intros. eapply wp_set_pc; eauto. Qed.

Lemma wp_rb_parent c q rt lf p (Q : Z -> rb_state -> Prop) :
  st F r L s -> L ≡ₚ (p, RbNode (mkpc q c) rt lf) :: L' -> Z.land q 3 = 0 ->
  Q q s -> wp (rb_parent p) Q s.
Proof.
  intros. apply wp_bind. eapply wp_get_pc; eauto. apply wp_ret. by rewrite rb_parent_of_mkpc.
Qed.

Lemma wp_rb_red_parent q rt lf p (Q : Z -> rb_state -> Prop) :
  st F r L s -> L ≡ₚ (p, RbNode (mkpc q Red) rt lf) :: L' -> Q q s -> wp (rb_red_parent p) Q s.
Proof. intros. eapply wp_get_pc; eauto. by rewrite mkpc_red. Qed.

Lemma wp_rb_is_red c q rt lf p (Q : bool -> rb_state -> Prop) :
  st F r L s -> L ≡ₚ (p, RbNode (mkpc q c) rt lf) :: L' -> Z.land q 3 = 0 ->
  Q (match c with Red => true | Black => false end) s -> wp (rb_is_red p) Q s.
Proof.
  intros. apply wp_bind. eapply wp_get_pc; eauto. apply wp_ret.
  unfold pc_is_red. rewrite rb_color_of_mkpc by done. by destruct c.
Qed.

Lemma wp_rb_is_black c q rt lf p (Q : bool -> rb_state -> Prop) :
  st F r L s -> L ≡ₚ (p, RbNode (mkpc q c) rt lf) :: L' -> Z.land q 3 = 0 ->
  Q (match c with Red => false | Black => true end) s -> wp (rb_is_black p) Q s.
Proof.
  intros. apply wp_bind. eapply wp_get_pc; eauto. apply wp_ret.
  unfold pc_is_black. rewrite rb_color_of_mkpc by done. by destruct c.
Qed.

Lemma wp_rb_set_black c q rt lf p (Q : unit -> rb_state -> Prop) :
  st F r L s -> L ≡ₚ (p, RbNode (mkpc q c) rt lf) :: L' ->
  (forall s', st F r ((p, RbNode (mkpc q Black) rt lf) :: L') s' -> Q tt s') ->
  wp (rb_set_black p) Q s.
Proof.
  intros. apply wp_bind. eapply wp_get_pc; eauto.
  unfold RB_BLACK. rewrite mkpc_set_black. eapply wp_set_pc; eauto.
Qed.

Lemma wp_rb_set_parent c q v rt lf p (Q : unit -> rb_state -> Prop) :
  st F r L s -> L ≡ₚ (p, RbNode (mkpc q c) rt lf) :: L' -> Z.land q 3 = 0 ->
  (forall s', st F r ((p, RbNode (mkpc v c) rt lf) :: L') s' -> Q tt s') ->
  wp (rb_set_parent p v) Q s.
Proof.
  intros ??? HQ. apply wp_bind. eapply wp_get_pc; eauto.
  rewrite rb_color_of_mkpc, Z.lor_comm by done. eapply wp_set_pc; eauto.
Qed.
End rules.

(** ** Rules for operations on whole subtrees and contexts *)

Lemma seg_here (X L : list (Z * rb_node)) : X ++ L ≡ₚ X ++ L.
Proof. done. Qed.
Lemma seg_last (X : list (Z * rb_node)) : X ≡ₚ X ++ [].
Proof. by rewrite app_nil_r. Qed.
Lemma seg_cons X (y : Z * rb_node) L L' : L ≡ₚ X ++ L' -> y :: L ≡ₚ X ++ y :: L'.
Proof. intros ->. solve_Permutation. Qed.
Lemma seg_app X (L1 L2 L' : list (Z * rb_node)) : L2 ≡ₚ X ++ L' -> L1 ++ L2 ≡ₚ X ++ L1 ++ L'.
Proof. intros ->. solve_Permutation. Qed.
Lemma seg_app_l X (L1 L2 L' : list (Z * rb_node)) : L1 ≡ₚ X ++ L' -> L1 ++ L2 ≡ₚ X ++ L' ++ L2.
Proof. intros ->. solve_Permutation. Qed.

(** Bring the nodes of a subtree or of a context to the front. *)
Ltac seg :=
  first [ apply seg_here | apply seg_last
        | apply seg_cons; seg | apply seg_app; seg | apply seg_app_l; seg ].

Lemma land3_0 : Z.land 0 3 = 0.
Proof. done. Qed.

Lemma st_aligned F r L L' s a n : st F r L s -> L ≡ₚ (a, n) :: L' -> Z.land a 3 = 0.
Proof. intros Hst HL. eapply (st_nonnull _ _ _ _ a n Hst), pull_elem, HL. Qed.

Lemma st_neq0 F r L L' s a n : st F r L s -> L ≡ₚ (a, n) :: L' -> a <> 0.
Proof. intros Hst HL. eapply (st_nonnull _ _ _ _ a n Hst), pull_elem, HL. Qed.

Lemma st_top_aligned F r L L' s x k :
  st F r L s -> L ≡ₚ ctx_nodes x k ++ L' -> Z.land (top k) 3 = 0.
Proof.
  intros Hst HL. destruct k as [|[] k]; [done|..]; simpl in *; eapply st_aligned; eauto.
Qed.

(** An address that is a node of [L'] is not the root of a disjoint subtree. *)
Lemma st_root_neq F r L L1 L' s q u a n :
  st F r L s -> L ≡ₚ nodes q u ++ L1 -> L1 ≡ₚ (a, n) :: L' -> root_of u <> a.
Proof.
  intros Hst HL HL1. rewrite HL1 in HL. destruct u as [|c l b rr]; simpl in *.
  - intros <-. eapply (st_neq0 _ _ _ (nodes q E ++ L') _ 0 n Hst); [|done].
    rewrite HL. simpl. done.
  - eapply (st_neq _ _ _ _ b _ a n _ Hst). rewrite HL. apply Permutation_skip. pull.
Qed.

Section subtree_rules.
Context (F : gmap Z rb_node) (r : Z) (L L' : list (Z * rb_node)) (s : rb_state).

Lemma wp_nonnull_red q u (Q : bool -> rb_state -> Prop) :
  st F r L s -> L ≡ₚ nodes q u ++ L' -> Z.land q 3 = 0 ->
  Q (is_red u) s -> wp (nonnull_red (root_of u)) Q s.
Proof.
  intros Hst HL Hq HQ. unfold nonnull_red, NULL. destruct u as [|c l a rr]; simpl in *.
  - by apply wp_ret.
  - rewrite (proj2 (Z.eqb_neq _ _) (st_neq0 _ _ _ _ _ _ _ Hst HL)).
    eapply wp_rb_is_red; eauto.
Qed.

Lemma wp_null_or_black q u (Q : bool -> rb_state -> Prop) :
  st F r L s -> L ≡ₚ nodes q u ++ L' -> Z.land q 3 = 0 ->
  Q (negb (is_red u)) s -> wp (null_or_black (root_of u)) Q s.
Proof.
  intros Hst HL Hq HQ. unfold null_or_black. destruct u as [|c l a rr]; simpl in *.
  - by apply wp_ret.
  - unfold NULL. rewrite (proj2 (Z.eqb_neq _ _) (st_neq0 _ _ _ _ _ _ _ Hst HL)).
    eapply wp_rb_is_black; eauto. by destruct c.
Qed.

Lemma wp_set_parent_black_if q u p (Q : unit -> rb_state -> Prop) :
  st F r L s -> L ≡ₚ nodes q u ++ L' ->
  (forall s', st F r (nodes p (blacken u) ++ L') s' -> Q tt s') ->
  wp (set_parent_black_if (root_of u) p) Q s.
Proof.
  intros Hst HL HQ. unfold set_parent_black_if. destruct u as [|c l a rr]; simpl in *.
  - apply wp_ret, HQ. by rewrite <-HL.
  - unfold NULL. rewrite (proj2 (Z.eqb_neq _ _) (st_neq0 _ _ _ _ _ _ _ Hst HL)).
    eapply (wp_set_parent_color _ _ _ _ _ Black); eauto.
Qed.

Lemma wp_set_parent_if q u p (Q : unit -> rb_state -> Prop) :
  st F r L s -> L ≡ₚ nodes q u ++ L' -> Z.land q 3 = 0 ->
  (forall s', st F r (nodes p u ++ L') s' -> Q tt s') ->
  wp (if negb (root_of u =? NULL) then rb_set_parent (root_of u) p else ret tt) Q s.
Proof.
  intros Hst HL Hq HQ. destruct u as [|c l a rr]; simpl in *.
  - apply wp_ret, HQ. by rewrite <-HL.
  - unfold NULL. rewrite (proj2 (Z.eqb_neq _ _) (st_neq0 _ _ _ _ _ _ _ Hst HL)).
    eapply wp_rb_set_parent; eauto.
Qed.
End subtree_rules.

Lemma wp_change_child F L L1 L' s k old new n0 (Q : unit -> rb_state -> Prop) :
  st F (ctx_root old k) L s -> L ≡ₚ (old, n0) :: L1 -> L1 ≡ₚ ctx_nodes old k ++ L' ->
  (forall s', st F (ctx_root new k) (ctx_nodes new k ++ (old, n0) :: L') s' -> Q tt s') ->
  wp (rb_change_child old new (top k)) Q s.
Proof.
  intros Hst HL H1 HQ. unfold rb_change_child, NULL.
  rewrite H1 in HL. rewrite (Permutation_middle (ctx_nodes old k)) in HL. clear H1.
  destruct k as [|f k]; simpl in *.
  - rewrite HL in Hst. eapply wp_set_root; eauto.
  - destruct f as [c a rr|c l a]; simpl in *;
      rewrite (proj2 (Z.eqb_neq _ _) (st_neq0 _ _ _ _ _ _ _ Hst HL)); simpl;
      apply wp_bind; (eapply wp_get_left; [done..|]).
    + rewrite Z.eqb_refl. eapply wp_set_left; eauto.
    + assert (root_of l <> old) as Hne.
      { eapply (st_root_neq _ _ _ _ _ _ a l old n0 Hst); [rewrite HL; seg|pull]. }
      rewrite (proj2 (Z.eqb_neq _ _) Hne). eapply wp_set_right; eauto.
Qed.

Lemma wp_rotate_set_parents F L L1 L2 L3 s k old new c c0 ro lo pcn rn ln
    (Q : unit -> rb_state -> Prop) :
  st F (ctx_root old k) L s ->
  L ≡ₚ (old, RbNode (mkpc (top k) c0) ro lo) :: L1 ->
  L1 ≡ₚ (new, RbNode pcn rn ln) :: L2 ->
  L2 ≡ₚ ctx_nodes old k ++ L3 ->
  (forall s', st F (ctx_root new k)
     (ctx_nodes new k ++ (old, RbNode (mkpc new c) ro lo) ::
      (new, RbNode (mkpc (top k) c0) rn ln) :: L3) s' -> Q tt s') ->
  wp (rb_rotate_set_parents old new (cbit c)) Q s.
Proof.
  intros Hst HL H1 H2 HQ. unfold rb_rotate_set_parents.
  assert (L ≡ₚ ctx_nodes old k ++ (old, RbNode (mkpc (top k) c0) ro lo) ::
            (new, RbNode pcn rn ln) :: L3) as HL' by (rewrite HL, H1, H2; solve_Permutation).
  rewrite HL' in Hst. clear HL H1 H2 HL'.
  pose proof (st_top_aligned _ _ _ _ _ _ _ Hst ltac:(done)) as Hal.
  apply wp_bind. eapply wp_rb_parent; [done|pull|done|].
  apply wp_bind. eapply wp_get_pc; [done|pull|].
  apply wp_bind. eapply wp_set_pc; [done|pull|]. intros s1 Hs1.
  apply wp_bind. eapply wp_set_parent_color; [done|pull|]. intros s2 Hs2.
  eapply wp_change_child; [done|pull|seg|]. intros s3 Hs3. apply HQ.
  eapply st_perm; [done|]. solve_Permutation.
Qed.

Lemma root_recolor c t : root_of (recolor c t) = root_of t.
Proof. by destruct t. Qed.

Lemma st_zip F t k s :
  st F (ctx_root (root_of t) k) (nodes (top k) t ++ ctx_nodes (root_of t) k) s ->
  st F (root_of (zip t k)) (nodes 0 (zip t k)) s.
Proof. intros H. rewrite root_zip. by rewrite nodes_zip. Qed.

(** ** Symbolic execution *)

(** Alignment side conditions. *)
Ltac aligned :=
  first [ done
        | eapply st_aligned; [eassumption|pull]
        | eapply st_top_aligned; [eassumption|seg] ].

Ltac neq_root :=
  first [ eapply st_root_neq; [eassumption|seg|pull]
        | apply not_eq_sym; eapply st_root_neq; [eassumption|seg|pull] ].

Lemma eqb_neq_false (a b : Z) : a <> b -> (a =? b) = false.
Proof. by apply Z.eqb_neq. Qed.

(** Decide the pointer comparisons of the C code from the disjointness of the
    nodes. *)
Ltac decide_eqb :=
  match goal with
  | |- context [0 =? NULL] => change (0 =? NULL) with true
  | |- context [?a =? ?a] => rewrite (Z.eqb_refl a)
  | |- context [?a =? NULL] =>
      rewrite (eqb_neq_false a NULL) by (eapply st_neq0; [eassumption|pull])
  | |- context [?a =? root_of ?u] => rewrite (eqb_neq_false a (root_of u)) by neq_root
  | |- context [root_of ?u =? ?a] => rewrite (eqb_neq_false (root_of u) a) by neq_root
  end; cbv beta iota; cbn [negb andb].

Ltac rb_step :=
  match goal with
  | |- wp (bind _ _) _ _ => apply wp_bind
  | |- wp (ret _) _ _ => apply wp_ret
  | |- wp (get_left _) _ _ => eapply wp_get_left; [eassumption|pull|]
  | |- wp (get_right _) _ _ => eapply wp_get_right; [eassumption|pull|]
  | |- wp (get_pc _) _ _ => eapply wp_get_pc; [eassumption|pull|]
  | |- wp (set_left _ _) _ _ => eapply wp_set_left; [eassumption|pull|]; intros
  | |- wp (set_right _ _) _ _ => eapply wp_set_right; [eassumption|pull|]; intros
  | |- wp (set_pc _ _) _ _ => eapply wp_set_pc; [eassumption|pull|]; intros
  | |- wp (rb_parent _) _ _ => eapply wp_rb_parent; [eassumption|pull|aligned|]
  | |- wp (rb_red_parent _) _ _ => eapply wp_rb_red_parent; [eassumption|pull|]
  | |- wp (rb_is_red _) _ _ => eapply wp_rb_is_red; [eassumption|pull|aligned|]
  | |- wp (rb_is_black _) _ _ => eapply wp_rb_is_black; [eassumption|pull|aligned|]
  | |- wp (rb_set_black _) _ _ => eapply wp_rb_set_black; [eassumption|pull|]; intros
  | |- wp (rb_set_parent _ _) _ _ => eapply wp_rb_set_parent; [eassumption|pull|aligned|]; intros
  | |- wp (rb_set_parent_color _ _ RB_RED) _ _ =>
      eapply (wp_set_parent_color _ _ _ _ _ Red); [eassumption|pull|]; intros
  | |- wp (rb_set_parent_color _ _ RB_BLACK) _ _ =>
      eapply (wp_set_parent_color _ _ _ _ _ Black); [eassumption|pull|]; intros
  | |- wp (nonnull_red _) _ _ => eapply wp_nonnull_red; [eassumption|seg|aligned|]
  | |- wp (null_or_black _) _ _ => eapply wp_null_or_black; [eassumption|seg|aligned|]
  | |- wp (set_parent_black_if _ _) _ _ =>
      eapply wp_set_parent_black_if; [eassumption|seg|]; intros
  | |- wp (if negb (root_of _ =? NULL) then rb_set_parent _ _ else ret tt) _ _ =>
      eapply wp_set_parent_if; [eassumption|seg|aligned|]; intros
  | |- wp (rb_change_child _ _ (rb_parent_of _)) _ _ => rewrite rb_parent_of_mkpc by aligned
  | |- wp (rb_change_child _ _ _) _ _ =>
      eapply wp_change_child; [eassumption|pull|seg|]; intros
  | |- wp (rb_rotate_set_parents _ _ RB_RED) _ _ =>
      eapply (wp_rotate_set_parents _ _ _ _ _ _ _ _ _ Red);
        [eassumption|pull|pull|seg|]; intros
  | |- wp (rb_rotate_set_parents _ _ RB_BLACK) _ _ =>
      eapply (wp_rotate_set_parents _ _ _ _ _ _ _ _ _ Black);
        [eassumption|pull|pull|seg|]; intros
  end; cbv beta iota; cbn [negb andb].

Ltac rb_steps := repeat first [rb_step | decide_eqb].

(** Close a goal that the final heap represents the expected tree. *)
Ltac rb_perm := eapply st_perm; [eassumption|]; simpl; rewrite ?root_recolor; solve_Permutation.
Ltac rb_done := apply st_zip; rb_perm.

Lemma rb_insert_color_loop_spec fuel F s l n r k h :
  (length k < fuel)%nat -> ctx_ok Black h k ->
  st F (ctx_root n k) (nodes (top k) (T Red l n r) ++ ctx_nodes n k) s ->
  wp (rb_insert_color_loop fuel n (top k))
     (fun _ s' => let t' := ins_fix (T Red l n r) k in st F (root_of t') (nodes 0 t') s') s.
Proof.
  revert s l n r k h; induction fuel as [|fuel IH]; intros s l n r k h Hlen Hk Hst; [lia|].
  destruct k as [|f1 k1]; cbn [rb_insert_color_loop].
  { cbn. simpl in Hst. rewrite app_nil_r in Hst. repeat rb_step. done. }
  inversion Hk; subst; simpl in Hst; cbn [top frame_addr].
  1,2: rb_steps; simpl; rb_done.
  all: match goal with H : ctx_ok Red _ _ |- _ => inversion H; clear H; subst end; simpl in Hst.
  all: rb_steps; simpl;
    match goal with u : tree |- context [is_red ?u] =>
      destruct (is_red u) eqn:Hred;
        [destruct u as [|[] ul ua ur]; simplify_eq/=|]
    end.
  2,4,6,8: rb_steps; rb_done.
  all: rb_steps; eapply IH;
    [simpl in Hlen; lia|eassumption|rb_perm].
Qed.

Lemma match_not_red {A} u (f : tree -> Z -> tree -> A) (x : A) :
  is_red u = false ->
  match u with T Red l a r => f l a r | _ => x end = x.
Proof. by destruct u as [|[] ? ? ?]. Qed.

Lemma not_red_black c n u : rbt c n u -> is_red u = false -> rbt Black n u.
Proof. by destruct 1; simpl; eauto with rbdb. Qed.

Lemma top_neq0 F r L L' s x f k :
  st F r L s -> L ≡ₚ ctx_nodes x (f :: k) ++ L' -> (top (f :: k) =? NULL) = false.
Proof.
  intros Hst HL. apply eqb_neq_false. destruct f; simpl in *; (eapply st_neq0; [exact Hst|exact HL]).
Qed.

Lemma rb_erase_cases_left_spec again cont F s t c p sl sa sr k :
  (forall s', c = Black -> k <> [] -> is_red sl = false -> is_red sr = false -> let t' := T Black t p (T Red sl sa sr) in
     st F (ctx_root p k) (nodes (top k) t' ++ ctx_nodes p k) s' ->
     wp (again p (top k)) (fun _ s' => st F (root_of (cont t')) (nodes 0 (cont t')) s') s') ->
  (k = [] -> forall t', cont t' = t') ->
  st F (ctx_root p k)
     (nodes (top k) (T c t p (T Black sl sa sr)) ++ ctx_nodes p k) s ->
  wp (rb_erase_cases_left again p sa)
     (fun _ s' => let t' := erase_left cont t c p (T Black sl sa sr) k in
                  st F (root_of t') (nodes 0 t') s') s.
Proof.
  intros Hcont Hnil Hst. simpl in Hst. unfold rb_erase_cases_left.
  rb_steps. simpl. destruct (is_red sr) eqn:Hr.
  { destruct sr as [|[] srl sra srr]; try done. simpl in Hst |- *. rb_steps. rb_done. }
  cbn [negb]. rb_steps. destruct (is_red sl) eqn:Hl.
  { destruct sl as [|[] sll sla slr]; try done. simpl in Hst |- *. rb_steps. rb_done. }
  rewrite (match_not_red sl) by done.
  cbn [negb]. rb_steps. destruct c; rb_steps; [rb_done|].
  destruct k as [|f k]; [rewrite Hnil by done; apply wp_ret; rb_perm|].
  erewrite top_neq0 by (eassumption || seg); cbn [negb].
  eapply Hcont; [done..|rb_perm].
Qed.

Lemma rb_erase_cases_right_spec again cont F s t c p sl sa sr k :
  (forall s', c = Black -> k <> [] -> is_red sl = false -> is_red sr = false -> let t' := T Black (T Red sl sa sr) p t in
     st F (ctx_root p k) (nodes (top k) t' ++ ctx_nodes p k) s' ->
     wp (again p (top k)) (fun _ s' => st F (root_of (cont t')) (nodes 0 (cont t')) s') s') ->
  (k = [] -> forall t', cont t' = t') ->
  st F (ctx_root p k)
     (nodes (top k) (T c (T Black sl sa sr) p t) ++ ctx_nodes p k) s ->
  wp (rb_erase_cases_right again p sa)
     (fun _ s' => let t' := erase_right cont t c p (T Black sl sa sr) k in
                  st F (root_of t') (nodes 0 t') s') s.
Proof.
  intros Hcont Hnil Hst. simpl in Hst. unfold rb_erase_cases_right.
  rb_steps. simpl. destruct (is_red sl) eqn:Hl.
  { destruct sl as [|[] sll sla slr]; try done. simpl in Hst |- *. rb_steps. rb_done. }
  cbn [negb]. rb_steps. destruct (is_red sr) eqn:Hr.
  { destruct sr as [|[] srl sra srr]; try done. simpl in Hst |- *. rb_steps. rb_done. }
  rewrite (match_not_red sr) by done.
  cbn [negb]. rb_steps. destruct c; rb_steps; [rb_done|].
  destruct k as [|f k]; [rewrite Hnil by done; apply wp_ret; rb_perm|].
  erewrite top_neq0 by (eassumption || seg); cbn [negb].
  eapply Hcont; [done..|rb_perm].
Qed.

Lemma rb_erase_color_loop_spec fuel F s t k h :
  (length k < fuel)%nat -> k <> [] -> rbt Black h t -> ctx_ok Black (S h) k ->
  st F (ctx_root (root_of t) k) (nodes (top k) t ++ ctx_nodes (root_of t) k) s ->
  wp (rb_erase_color_loop fuel (root_of t) (top k))
     (fun _ s' => let t' := erase_fix t k in st F (root_of t') (nodes 0 t') s') s.
Proof.
  revert s t k h; induction fuel as [|fuel IH]; intros s t k h Hlen Hne Ht Hk Hst; [lia|].
  destruct k as [|f k]; [done|]; cbn [rb_erase_color_loop].
  inversion Hk; subst; cbn [top frame_addr];
    match goal with H : rbt _ (S _) _ |- _ => inversion H; subst end.
  (* a red sibling: case 1, then the other cases under the rotated context *)
  1,3: repeat match goal with H : rbt Black (S _) ?u |- _ =>
      is_var u; inversion H; subst end;
    simpl in Hst; rb_steps; cbn [erase_fix blacken recolor];
    (eapply rb_erase_cases_left_spec || eapply rb_erase_cases_right_spec);
    [done|done|rb_perm].
  (* a black sibling *)
  all: simpl in Hst; rb_steps; cbn [erase_fix];
    (eapply rb_erase_cases_left_spec || eapply rb_erase_cases_right_spec);
    [|by intros ->|rb_perm].
  all: intros s1 Hc Hk1 Hl Hr t'; simplify_eq; intros Hs1; unfold t' in *.
  all: match type of Hs1 with context [nodes (top ?kk) ?u] =>
    eapply (IH s1 u kk); [simpl in Hlen; lia|done| |eassumption|done] end;
    eauto 6 using not_red_black with rbdb.
Qed.

(** ** Erasing a node *)

(** A node that left the tree belongs to the rest of the heap. *)
Lemma st_drop F r a n L s : st F r ((a, n) :: L) s -> st (<[a := n]> F) r L s.
Proof.
  intros [Hr Hnd Hok Hlk Hfr]. cbn [fmap list_fmap fst] in *.
  apply NoDup_cons in Hnd as [Hna Hnd]. inversion Hok; subst.
  split; auto.
  - intros b m Hin. apply Hlk. by right.
  - intros b Hb. destruct (decide (a = b)) as [<-|Hne].
    + rewrite lookup_insert_eq. apply Hlk. by left.
    + rewrite lookup_insert_ne by done. apply Hfr. apply not_elem_of_cons. auto.
Qed.

Lemma st_size F r L s : st F r L s -> (length L <= size (rb_heap s))%nat.
Proof.
  intros Hst. rewrite <-(length_fmap fst), <-(size_list_to_set (C := gset Z) L.*1) by apply Hst.
  rewrite <-size_dom. apply subseteq_size. intros a Ha.
  apply elem_of_list_to_set, list_elem_of_fmap in Ha as ([b n] & -> & Hin).
  apply elem_of_dom. exists n. by eapply st_look.
Qed.

Lemma length_ctx_nodes x k : (length k <= length (ctx_nodes x k))%nat.
Proof.
  revert x; induction k as [|[] k IH]; intros x; simpl; [lia|..];
    rewrite length_app; specialize (IH a); lia.
Qed.

(** The address above the hole of a path whose own parent is [q]. *)
Definition path_top (q : Z) (p : list frame) : Z := match p with [] => q | f :: _ => frame_addr f end.

(** The nodes of a path inside a subtree whose own parent is [q]. *)
Fixpoint path_nodes (q x : Z) (p : list frame) : list (Z * rb_node) :=
  match p with
  | [] => []
  | FL c a r :: p =>
      (a, RbNode (mkpc (path_top q p) c) (root_of r) x) :: nodes a r ++ path_nodes q a p
  | FR c l a :: p =>
      (a, RbNode (mkpc (path_top q p) c) x (root_of l)) :: nodes a l ++ path_nodes q a p
  end.

Lemma top_app p k : top (p ++ k) = path_top (top k) p.
Proof. by destruct p. Qed.

Lemma ctx_nodes_app x p k :
  ctx_nodes x (p ++ k) = path_nodes (top k) x p ++ ctx_nodes (ctx_root x p) k.
Proof.
  revert x; induction p as [|[] p IH]; intros x; simpl; [done|..];
    by rewrite IH, top_app, <-app_assoc.
Qed.

Lemma ctx_root_app x p k : ctx_root x (p ++ k) = ctx_root (ctx_root x p) k.
Proof. revert x; induction p as [|[] p IH]; intros x; simpl; [done|..]; apply IH. Qed.

Lemma nodes_path q t p :
  nodes q (zip t p) ≡ₚ nodes (path_top q p) t ++ path_nodes q (root_of t) p.
Proof.
  revert t; induction p as [|[c a r|c l a] p IH]; intros t; simpl.
  - by rewrite app_nil_r.
  - rewrite IH. simpl. solve_Permutation.
  - rewrite IH. simpl. solve_Permutation.
Qed.

Lemma rb_leftmost_loop_spec fuel F r L L' s q t k :
  st F r L s -> t <> E -> L ≡ₚ nodes q t ++ L' -> (length (nodes q t) <= fuel)%nat ->
  wp (rb_leftmost_loop fuel (top k) (root_of t))
     (fun res s' => s' = s /\
        let '(path, _, su, _) := split_min t k in res = (top path, su)) s.
Proof.
  revert L L' q t k; induction fuel as [|fuel IH]; intros L L' q t k Hst Hne HL Hf;
    destruct t as [|c l a rr]; try done; simpl in Hf; [lia|].
  rewrite HL in Hst. simpl in Hst. pose proof Hst as Hst0. cbn [rb_leftmost_loop root_of].
  destruct l as [|lc ll la lr]; cbn [nodes root_of app] in Hst.
  - clear Hst0. rb_steps. done.
  - rb_steps. change (split_min (T c (T lc ll la lr) a rr) k)
      with (split_min (T lc ll la lr) (FL c a rr :: k)).
    change a with (top (FL c a rr :: k)) at 1. change la with (root_of (T lc ll la lr)) at 1.
    eapply (IH _ _ a); [exact Hst0|done| |rewrite length_app in Hf; simpl in *; lia].
    seg.
Qed.

(** What the first part of [rb_erase] of node [a] leaves for the rebalancing:
    the final tree [t'], or a context with a hole that lacks one black node. *)
Definition erase_mid (F : gmap Z rb_node) (a : Z) (t' : tree) (reb : Z) (s : rb_state) : Prop :=
  exists n', (reb = NULL /\ st (<[a := n']> F) (root_of t') (nodes 0 t') s) \/
    (exists k', reb = top k' /\ k' <> [] /\ t' = erase_fix E k' /\ ctx_ok Black 1 k' /\
       st (<[a := n']> F) (ctx_root 0 k') (ctx_nodes 0 k') s).

Lemma erase_mid_done F a n' t k s :
  st F (ctx_root (root_of t) k) ((a, n') :: nodes (top k) t ++ ctx_nodes (root_of t) k) s ->
  erase_mid F a (zip t k) NULL s.
Proof. intros Hst. exists n'. left. split; [done|]. by apply st_zip, st_drop. Qed.

Lemma erase_mid_hole F a n' c q k s :
  Z.land q 3 = 0 -> (c = Black -> ctx_ok Black 1 k) ->
  st F (ctx_root 0 k) ((a, n') :: ctx_nodes 0 k) s ->
  erase_mid F a (erase_hole c k) (if pc_is_black (mkpc q c) then top k else NULL) s.
Proof.
  intros Hq Hk Hst. unfold pc_is_black. rewrite rb_color_of_mkpc by done.
  destruct c; simpl; [by eapply (erase_mid_done _ _ _ E)|].
  destruct k as [|f k]; [by eapply (erase_mid_done _ _ _ E [])|].
  exists n'. right. exists (f :: k). split_and!; auto using st_drop.
Qed.

Lemma rb_erase_color_spec F s k :
  k <> [] -> ctx_ok Black 1 k -> st F (ctx_root 0 k) (ctx_nodes 0 k) s ->
  wp (rb_erase_color (top k))
     (fun _ s' => let t' := erase_fix E k in st F (root_of t') (nodes 0 t') s') s.
Proof.
  intros Hne Hk Hst. apply wp_bind, wp_get.
  eapply (rb_erase_color_loop_spec _ _ _ E); eauto with rbdb.
  pose proof (st_size _ _ _ _ Hst). pose proof (length_ctx_nodes 0 k). unfold rb_fuel. lia.
Qed.

Lemma st_root_neq0 F r L L' s q u :
  st F r L s -> L ≡ₚ nodes q u ++ L' -> u <> E -> (root_of u =? NULL) = false.
Proof.
  intros Hst HL Hu. apply eqb_neq_false. destruct u as [|uc ul ua ur]; [done|].
  exact (st_neq0 _ _ _ _ _ _ _ Hst HL).
Qed.

Ltac erase_perm :=
  cbn [app]; rewrite <-?app_assoc; simpl;
  rewrite ?ctx_nodes_app, ?ctx_root_app, ?top_app; simpl;
  eapply st_perm; [eassumption|]; rewrite ?app_nil_r; solve_Permutation.

Lemma rb_erase_two_deep F s c l a rc rl ra rr k n fuel path sc su sr :
  l <> E -> rl <> E -> split_min (T rc rl ra rr) [] = (path, sc, su, sr) ->
  rbt sc n (T sc E su sr) -> ctx_ok sc n (path ++ FR c l su :: k) ->
  (length (nodes ra rl) <= fuel)%nat ->
  st F (ctx_root a k) (nodes (top k) (T c l a (T rc rl ra rr)) ++ ctx_nodes a k) s ->
  wp (rb_erase_two fuel a ra)
     (erase_mid F a (match sr with
                     | E => erase_hole sc (path ++ FR c l su :: k)
                     | _ => zip (blacken sr) (path ++ FR c l su :: k)
                     end)) s.
Proof.
  intros Hl Hrl Hs Hn Hk Hf Hst. unfold rb_erase_two. simpl in Hst.
  assert (split_min rl [FL rc ra rr] = (path, sc, su, sr)) as Hs' by (by destruct rl).
  rb_steps. erewrite (st_root_neq0 _ _ _ _ _ _ rl Hst) by (done || seg).
  rb_steps. eapply wp_mono.
  { eapply (rb_leftmost_loop_spec _ _ _ _ _ _ ra rl [FL rc ra rr]); [exact Hst|done|seg|done]. }
  intros [q su'] s' [-> Hq]. rewrite Hs' in Hq. simplify_eq.
  destruct (split_min_path _ _ _ _ _ _ Hrl Hs') as (p & -> & Hp & ->).
  rewrite nodes_path, root_zip in Hst.
  destruct l as [|lc ll la lr]; [done|].
  destruct p as [|[c1 a1 r1|] p1]; [| |done]; destruct sr as [|src srl sra srr];
    simpl in Hst; cbn [root_of app top frame_addr]; rb_steps.
  2,4: eapply erase_mid_done; erase_perm.
  all: eapply (erase_mid_hole _ _ _ _ _ (FL _ _ _ :: _));
    [aligned|intros; by eapply hole_ctx|erase_perm].
Qed.

Lemma rb_erase_two_spec F s c l a r k n fuel :
  l <> E -> r <> E -> rbt c n (T c l a r) -> ctx_ok c n k ->
  (length (nodes a r) <= fuel)%nat ->
  st F (ctx_root a k) (nodes (top k) (T c l a r) ++ ctx_nodes a k) s ->
  wp (rb_erase_two fuel a (root_of r)) (erase_mid F a (erase_at c l r k)) s.
Proof.
  intros Hl Hr Ht Hk Hf Hst.
  assert (erase_at c l r k = erase_succ c l r k) as -> by (destruct l, r; done).
  unfold erase_succ.
  destruct (split_min r []) as [[[path sc] su] sr] eqn:Hs.
  destruct (split_min_ctx _ _ _ _ _ _ _ _ _ _ Hr Hs Ht Hk) as (n2 & Hn & Hk2).
  destruct r as [|rc rl ra rr]; [done|].
  destruct rl as [|rlc rll rla rlr].
  - destruct l as [|lc ll la lr]; [done|]. unfold rb_erase_two.
    simpl in Hst, Hs. simplify_eq. cbn [app].
    destruct sr as [|src srl sra srr]; simpl in Hst; cbn [root_of]; rb_steps.
    + eapply (erase_mid_hole _ _ _ _ _ (FR _ _ _ :: k));
        [aligned|intros; by eapply hole_ctx|rb_perm].
    + eapply (erase_mid_done _ _ _ _ (FR _ _ _ :: k)). simpl. rb_perm.
  - eapply (rb_erase_two_deep _ _ _ _ _ rc (T rlc rll rla rlr) ra rr);
      [done|done|exact Hs|done|done| |done].
    simpl in Hf |- *. rewrite length_app in Hf. simpl in Hf. lia.
Qed.

Lemma rb_erase_spec F s c l a r k n :
  rbt c n (T c l a r) -> ctx_ok c n k ->
  st F (ctx_root a k) (nodes (top k) (T c l a r) ++ ctx_nodes a k) s ->
  wp (rb_erase a)
     (fun _ s' => let t' := erase_at c l r k in
        exists na, st (<[a := na]> F) (root_of t') (nodes 0 t') s') s.
Proof.
  intros Ht Hk Hst. unfold rb_erase. apply wp_bind, wp_get.
  pose proof (st_size _ _ _ _ Hst) as Hsz.
  pose proof Hst as Hst0. simpl in Hst. rb_steps.
  eapply (wp_mono _ (erase_mid F a (erase_at c l r k))).
  - destruct l as [|lc ll la lr].
    { destruct r as [|rc rl ra rr]; simpl in Hst; cbn [root_of].
      - change (0 =? NULL) with true. cbn [negb]. rb_steps.
        eapply erase_mid_hole; [aligned|intros; by eapply hole_ctx|rb_perm].
      - change (0 =? NULL) with true. cbv iota. rb_steps. cbn [erase_at].
        eapply erase_mid_done. rb_perm. }
    destruct r as [|rc rl ra rr].
    { simpl in Hst; cbn [root_of]. rb_steps. cbn [erase_at]. eapply erase_mid_done. rb_perm. }
    assert ((root_of (T lc ll la lr) =? NULL) = false) as -> by (simpl in Hst; decide_eqb; done).
    assert ((root_of (T rc rl ra rr) =? NULL) = false) as -> by (simpl in Hst; decide_eqb; done).
    eapply rb_erase_two_spec; [done..| |done].
    unfold rb_fuel. simpl in Hsz |- *. rewrite !length_app in *. simpl in Hsz.
    rewrite length_app in Hsz. lia.
  - intros reb s' (na & [[-> Hs']|(k' & -> & Hne & -> & Hk' & Hs')]).
    + apply wp_ret. eauto.
    + destruct k' as [|f k']; [done|].
      erewrite top_neq0 by (exact Hs' || apply seg_last); cbn [negb].
      eapply wp_mono; [by apply rb_erase_color_spec|]. simpl. eauto.
Qed.

(** ** Inserting a node *)

(** A node of the rest of the heap joins the described nodes. *)
Lemma st_take F r L s a n :
  st F r L s -> rb_heap s !! a = Some n -> ok_addr a -> a ∉ L.*1 -> st F r ((a, n) :: L) s.
Proof.
  intros [Hr Hnd Hok Hlk Hfr] Ha Hoka Hna. split; [done|by constructor|by constructor|..].
  - intros b m [[= -> ->]|Hin]%elem_of_cons; auto.
  - intros b Hb. apply not_elem_of_cons in Hb as [_ Hb]. auto.
Qed.

(** The field of the parent that a context's hole is. *)
Definition hole_link (k : list frame) : rb_link :=
  match k with
  | [] => LinkRoot
  | FL _ a _ :: _ => LinkLeft a
  | FR _ _ a :: _ => LinkRight a
  end.

Lemma rb_link_node_spec F k n n0 s (Q : unit -> rb_state -> Prop) :
  st F (ctx_root 0 k) ((n, n0) :: ctx_nodes 0 k) s ->
  (forall s', st F (ctx_root n k) (nodes (top k) (T Red E n E) ++ ctx_nodes n k) s' -> Q tt s') ->
  wp (rb_link_node n (top k) (hole_link k)) Q s.
Proof.
  intros Hst HQ. unfold rb_link_node. destruct n0 as [pc rt lf].
  rewrite <-(mkpc_red (top k)).
  apply wp_bind. eapply wp_set_pc; [done|pull|]. intros.
  rb_steps. destruct k as [|[c a r|c l a] k]; simpl in *.
  - eapply wp_set_root; [done|]. intros. apply HQ. rb_perm.
  - eapply wp_set_left; [done|pull|]. intros. apply HQ. rb_perm.
  - eapply wp_set_right; [done|pull|]. intros. apply HQ. rb_perm.
Qed.

Lemma rb_insert_color_spec F k h n s :
  ctx_ok Black h k ->
  st F (ctx_root n k) (nodes (top k) (T Red E n E) ++ ctx_nodes n k) s ->
  wp (rb_insert_color n)
     (fun _ s' => let t' := ins_fix (T Red E n E) k in st F (root_of t') (nodes 0 t') s') s.
Proof.
  intros Hk Hst. unfold rb_insert_color. apply wp_bind, wp_get.
  pose proof Hst as Hst0. simpl in Hst0. rb_step. rb_step.
  eapply rb_insert_color_loop_spec; [|done|done].
  pose proof (st_size _ _ _ _ Hst) as Hsz. pose proof (length_ctx_nodes n k).
  rewrite length_app in Hsz. unfold rb_fuel. lia.
Qed.

(** ** The operations on represented trees *)

(** The heap represents the red-black tree [t]; outside its nodes it is [F]. *)
Record rb_rep (F : gmap Z rb_node) (t : tree) (s : rb_state) : Prop := {
  rep_st : st F (root_of t) (nodes 0 t) s;
  rep_rb : rb_tree t
}.

Lemma rep_zip F t k s :
  rb_rep F (zip t k) s ->
  st F (ctx_root (root_of t) k) (nodes (top k) t ++ ctx_nodes (root_of t) k) s /\
  exists c n, rbt c n t /\ ctx_ok c n k.
Proof.
  intros [Hst [n0 Hrb]]. rewrite nodes_zip, root_zip in Hst. split; [done|]. by eapply rbt_unzip.
Qed.

Lemma rep_fresh F t s n L : st F (root_of t) L s -> L ≡ₚ nodes 0 t -> n ∉ inorder t -> n ∉ L.*1.
Proof. intros _ HL. by rewrite HL, nodes_fst. Qed.

Lemma rb_insert_rep F k n n0 s :
  rb_rep F (zip E k) s -> rb_heap s !! n = Some n0 -> ok_addr n -> n ∉ inorder (zip E k) ->
  wp (do! rb_link_node n (top k) (hole_link k) in rb_insert_color n)
     (fun _ s' => exists t', rb_rep F t' s' /\ inorder t' = ctx_before k ++ n :: ctx_after k) s.
Proof.
  intros Hrep Hn Hok Hnew. destruct (rep_zip _ _ _ _ Hrep) as [Hst (c & h & HE & Hk)].
  inversion HE; subst. simpl in Hst.
  apply wp_bind, (rb_link_node_spec F _ _ n0).
  - apply st_take; [done..|]. eapply rep_fresh; [|symmetry; apply (nodes_zip E)|done].
    by rewrite root_zip.
  - intros s' Hs'. eapply wp_mono; [by eapply rb_insert_color_spec|].
    intros [] s'' Hs''. eexists. split; [split; [exact Hs''|]|].
    + eapply ins_fix_rb; eauto with rbdb.
    + by rewrite ins_fix_inorder, inorder_zip.
Qed.

Lemma rb_erase_rep F c l a r k s :
  rb_rep F (zip (T c l a r) k) s ->
  wp (rb_erase a)
     (fun _ s' => exists t' na, rb_rep (<[a := na]> F) t' s' /\
        inorder t' = ctx_before k ++ inorder l ++ inorder r ++ ctx_after k) s.
Proof.
  intros Hrep. destruct (rep_zip _ _ _ _ Hrep) as [Hst (c' & h & Ht & Hk)].
  pose proof (rbt_color _ _ _ _ _ _ Ht) as ->.
  eapply wp_mono; [by eapply rb_erase_spec|]. intros [] s' (na & Hs').
  exists (erase_at c l r k), na. split; [split; [done|by eapply erase_at_rb]|].
  apply erase_at_inorder.
Qed.
