(* ===== verification/RbTheorems.v ===== *)
(** * What the red-black tree operations guarantee

    Traversal and replacement on a represented tree, the bound on the height,
    and the properties of insertion and erasure as a user of [rbtree.c] sees
    them. *)

From S2P Require Import Prelude RbTree RbSpec RbHeap.

(** ** Height *)

Fixpoint height (t : tree) : nat :=
  match t with E => 0 | T _ l _ r => S (max (height l) (height r)) end.

Definition slack (c : color) : nat := match c with Red => 1 | Black => 0 end.

Lemma rbt_height c n t : rbt c n t -> (height t <= 2 * n + slack c)%nat.
Proof. induction 1; try destruct cl, cr; simpl in *; lia. Qed.

Lemma rbt_size c n t : rbt c n t -> (2 ^ n <= S (length (inorder t)))%nat.
Proof. induction 1; simpl in *; rewrite ?length_app; simpl; lia. Qed.

(** A red-black tree of [n] nodes is at most [2 log2 (n + 1)] deep. *)
Definition balanced (t : tree) : Prop :=
  (height t <= 2 * Nat.log2 (S (length (inorder t))))%nat.

Lemma rb_tree_balanced t : rb_tree t -> balanced t.
Proof.
  intros [n Hn]. pose proof (rbt_height _ _ _ Hn) as Hh. simpl in Hh.
  pose proof (rbt_size _ _ _ Hn) as Hs. unfold balanced.
  apply Nat.log2_le_mono in Hs. rewrite Nat.log2_pow2 in Hs by lia. lia.
Qed.

(** ** Finding a node in a tree *)

Lemma inorder_split t a :
  a ∈ inorder t -> exists c l r k, t = zip (T c l a r) k.
Proof.
  enough (forall k, a ∈ inorder t -> exists c l r k', zip t k = zip (T c l a r) k') as H
    by exact (H []).
  induction t as [|c l IHl b r IHr]; intros k; simpl; [by intros ?%not_elem_of_nil|].
  rewrite elem_of_app, elem_of_cons. intros [Hl|[->|Hr]].
  - exact (IHl (FL c b r :: k) Hl).
  - by exists c, l, r, k.
  - exact (IHr (FR c l b :: k) Hr).
Qed.

Lemma rep_nodup F t s : rb_rep F t s -> NoDup (inorder t).
Proof. intros [[_ Hnd _ _ _] _]. by rewrite nodes_fst in Hnd. Qed.

Lemma nodup_split {A} (l1 l2 l1' l2' : list A) a :
  NoDup (l1 ++ a :: l2) -> l1 ++ a :: l2 = l1' ++ a :: l2' -> l1 = l1' /\ l2 = l2'.
Proof.
  revert l1'; induction l1 as [|b l1 IH]; intros [|b' l1'] Hnd Heq; simplify_eq/=; [done|..].
  - apply NoDup_cons in Hnd as [Hn _]. destruct Hn. rewrite elem_of_app. right. by left.
  - apply NoDup_cons in Hnd as [Hn _]. destruct Hn. rewrite elem_of_app. right. by left.
  - apply NoDup_cons in Hnd as [_ Hnd]. by destruct (IH l1' Hnd) as [-> ->].
Qed.

(** The node at [a] with what precedes and what follows it in order. *)
Lemma rep_split F t s a l1 l2 :
  rb_rep F t s -> inorder t = l1 ++ a :: l2 ->
  exists c l r k, t = zip (T c l a r) k /\ l1 = ctx_before k ++ inorder l /\
    l2 = inorder r ++ ctx_after k.
Proof.
  intros Hrep Heq. destruct (inorder_split t a) as (c & l & r & k & ->).
  { rewrite Heq, elem_of_app. right. by left. }
  exists c, l, r, k. split; [done|]. apply rep_nodup in Hrep. rewrite Heq in Hrep.
  eapply nodup_split; [exact Hrep|]. rewrite <-Heq, inorder_zip. simpl. by rewrite <-!app_assoc.
Qed.

#[export] Instance tree_eq_dec : EqDecision tree.
Proof. solve_decision. Defined.

(** ** Traversal *)

Lemma wp_det {A} (m : M rb_state A) x s : wp m (fun y s' => s' = s /\ y = x) s -> m s = Some (x, s).
Proof. by intros (y & s' & Hr & -> & ->). Qed.

Definition first_of (l : list Z) : Z := default NULL (head l).
Definition last_of (l : list Z) : Z := default NULL (last l).

Lemma first_of_app l x l' : first_of (l ++ x :: l') = first_of (l ++ [x]).
Proof. by destruct l. Qed.

Lemma last_of_app l x l' : last_of (l ++ x :: l') = last_of (x :: l').
Proof. unfold last_of. rewrite last_app. destruct (last (x :: l')) eqn:H; [done|]. by apply last_None in H. Qed.

Lemma last_of_app2 l x l' y l'' : last_of (l ++ x :: l' ++ y :: l'') = last_of (l' ++ y :: l'').
Proof. rewrite last_of_app, last_of_app. exact (last_of_app (x :: l') y l''). Qed.

Lemma rb_go_left_spec fuel F r L L' s q t :
  st F r L s -> t <> E -> L ≡ₚ nodes q t ++ L' -> (length (nodes q t) <= fuel)%nat ->
  wp (rb_go_left fuel (root_of t)) (fun x s' => s' = s /\ x = first_of (inorder t)) s.
Proof.
  revert L L' q t; induction fuel as [|fuel IH]; intros L L' q t Hst Hne HL Hf;
    destruct t as [|c l a rr]; try done; simpl in Hf; [lia|].
  rewrite HL in Hst. simpl in Hst. pose proof Hst as Hst0. cbn [rb_go_left root_of].
  rewrite length_app in Hf. destruct l as [|lc ll la lr].
  - clear Hst0. cbn [nodes root_of app] in Hst. rb_steps. done.
  - rb_steps. change la with (root_of (T lc ll la lr)) at 1.
    eapply wp_mono; [eapply (IH _ _ a); [exact Hst0|done|seg|simpl in *; lia]|].
    intros x s' [-> ->]. split; [done|]. cbn [inorder]. rewrite <-app_assoc. cbn [app].
    rewrite first_of_app. symmetry. by rewrite first_of_app.
Qed.

Lemma rb_go_right_spec fuel F r L L' s q t :
  st F r L s -> t <> E -> L ≡ₚ nodes q t ++ L' -> (length (nodes q t) <= fuel)%nat ->
  wp (rb_go_right fuel (root_of t)) (fun x s' => s' = s /\ x = last_of (inorder t)) s.
Proof.
  revert L L' q t; induction fuel as [|fuel IH]; intros L L' q t Hst Hne HL Hf;
    destruct t as [|c l a rr]; try done; simpl in Hf; [lia|].
  rewrite HL in Hst. simpl in Hst. pose proof Hst as Hst0. cbn [rb_go_right root_of].
  rewrite length_app in Hf. destruct rr as [|rc rl ra rr].
  - clear Hst0. cbn [nodes root_of app] in Hst. rb_steps. split; [done|]. simpl. by rewrite last_of_app.
  - rb_steps. change ra with (root_of (T rc rl ra rr)) at 1.
    eapply wp_mono; [eapply (IH _ _ a); [exact Hst0|done|seg|simpl in *; lia]|].
    intros x s' [-> ->]. split; [done|]. cbn [inorder]. by rewrite last_of_app2.
Qed.

Lemma rb_climb_right_spec fuel F s t k :
  st F (ctx_root (root_of t) k) (nodes (top k) t ++ ctx_nodes (root_of t) k) s -> t <> E ->
  (length k < fuel)%nat ->
  wp (rb_climb_right fuel (root_of t)) (fun x s' => s' = s /\ x = first_of (ctx_after k)) s.
Proof.
  revert t k; induction fuel as [|fuel IH]; intros t k Hst Hne Hf; [lia|].
  destruct t as [|c l a r]; [done|]. cbn [rb_climb_right root_of]. simpl in Hst.
  rb_step. rb_step. destruct k as [|[c1 b r1|c1 l1 b] k]; cbn [top frame_addr]; simpl in Hst.
  - by apply wp_ret.
  - rb_steps. done.
  - rb_steps. eapply (IH (T c1 l1 b (T c l a r)) k); [|done|simpl in Hf; lia].
    eapply st_perm; [exact Hst|]. simpl. solve_Permutation.
Qed.

Lemma rb_climb_left_spec fuel F s t k :
  st F (ctx_root (root_of t) k) (nodes (top k) t ++ ctx_nodes (root_of t) k) s -> t <> E ->
  (length k < fuel)%nat ->
  wp (rb_climb_left fuel (root_of t)) (fun x s' => s' = s /\ x = last_of (ctx_before k)) s.
Proof.
  revert t k; induction fuel as [|fuel IH]; intros t k Hst Hne Hf; [lia|].
  destruct t as [|c l a r]; [done|]. cbn [rb_climb_left root_of]. simpl in Hst.
  rb_step. rb_step. destruct k as [|[c1 b r1|c1 l1 b] k]; cbn [top frame_addr]; simpl in Hst.
  - by apply wp_ret.
  - rb_steps. eapply (IH (T c1 (T c l a r) b r1) k); [|done|simpl in Hf; lia].
    eapply st_perm; [exact Hst|]. simpl. solve_Permutation.
  - rb_steps. split; [done|]. cbn [ctx_before]. rewrite app_assoc. by rewrite last_of_app.
Qed.

(** A node of a tree is not marked empty. *)
Lemma rb_empty_node_spec F s c l a r k :
  st F (ctx_root a k) (nodes (top k) (T c l a r) ++ ctx_nodes a k) s ->
  wp (rb_empty_node a) (fun b s' => s' = s /\ b = false) s.
Proof.
  intros Hst. simpl in Hst. unfold rb_empty_node. rb_steps. split; [done|]. apply eqb_neq_false.
  assert (Z.land (top k) 3 = 0) as Hq by aligned.
  assert (rb_parent_of (mkpc (top k) c) = top k) as Hp by (by apply rb_parent_of_mkpc).
  assert (a <> top k) as Hne.
  { destruct k as [|[] k]; simpl in Hst; [eapply st_neq0; [eassumption|pull]|..];
      (eapply (st_neq _ _ _ _ a _ a0); [exact Hst|apply Permutation_skip; pull]). }
  intros Heq. rewrite Heq in Hp. apply Hne. rewrite <-Hp.
  unfold rb_parent_of. symmetry. apply land_ldiff_low. aligned.
Qed.

Lemma rep_fuel F t k s :
  rb_rep F (zip t k) s -> (length (nodes (top k) t) + length k < rb_fuel s)%nat.
Proof.
  intros Hrep. destruct (rep_zip _ _ _ _ Hrep) as [Hst _]. apply st_size in Hst.
  rewrite length_app in Hst. pose proof (length_ctx_nodes (root_of t) k). unfold rb_fuel. lia.
Qed.

Lemma rb_next_spec F s c l a r k :
  rb_rep F (zip (T c l a r) k) s ->
  wp (rb_next a) (fun x s' => s' = s /\ x = first_of (inorder r ++ ctx_after k)) s.
Proof.
  intros Hrep. destruct (rep_zip _ _ _ _ Hrep) as [Hst _]. pose proof (rep_fuel _ _ _ _ Hrep) as Hf.
  unfold rb_next. apply wp_bind, wp_get, wp_bind.
  eapply wp_mono; [by eapply rb_empty_node_spec|]. intros b s' [-> ->]. pose proof Hst as Hst0.
  simpl in Hst, Hf. rewrite length_app in Hf. rb_steps. destruct r as [|rc rl ra rr].
  - change (root_of E =? NULL) with true. cbn [negb inorder app]. eapply (rb_climb_right_spec _ _ _ (T c l a E)); [exact Hst0|done|lia].
  - erewrite (st_root_neq0 _ _ _ _ _ _ (T rc rl ra rr)) by (done || seg). cbn [negb].
    eapply wp_mono; [eapply (rb_go_left_spec _ _ _ _ _ _ a); [exact Hst|done|seg|lia]|].
    intros x s' [-> ->]. split; [done|]. cbn [inorder]. rewrite <-app_assoc. cbn [app].
    rewrite first_of_app. symmetry. by rewrite first_of_app.
Qed.

Lemma rb_prev_spec F s c l a r k :
  rb_rep F (zip (T c l a r) k) s ->
  wp (rb_prev a) (fun x s' => s' = s /\ x = last_of (ctx_before k ++ inorder l)) s.
Proof.
  intros Hrep. destruct (rep_zip _ _ _ _ Hrep) as [Hst _]. pose proof (rep_fuel _ _ _ _ Hrep) as Hf.
  unfold rb_prev. apply wp_bind, wp_get, wp_bind.
  eapply wp_mono; [by eapply rb_empty_node_spec|]. intros b s' [-> ->]. pose proof Hst as Hst0.
  simpl in Hst, Hf. rewrite length_app in Hf. rb_steps. destruct l as [|lc ll la lr].
  - change (root_of E =? NULL) with true. cbn [negb inorder app]. rewrite app_nil_r.
    eapply (rb_climb_left_spec _ _ _ (T c E a r)); [exact Hst0|done|lia].
  - erewrite (st_root_neq0 _ _ _ _ _ _ (T lc ll la lr)) by (done || seg). cbn [negb].
    eapply wp_mono; [eapply (rb_go_right_spec _ _ _ _ _ _ a); [exact Hst|done|seg|lia]|].
    intros x s' [-> ->]. split; [done|]. cbn [inorder]. rewrite app_assoc. by rewrite !last_of_app.
Qed.

(** ** Replacement *)

Lemma rb_replace_node_spec F s c l v r k n n0 :
  rb_rep F (zip (T c l v r) k) s -> rb_heap s !! n = Some n0 -> ok_addr n ->
  n ∉ inorder (zip (T c l v r) k) ->
  wp (rb_replace_node v n)
     (fun _ s' => exists nv, rb_rep (<[v := nv]> F) (zip (T c l n r) k) s') s.
Proof.
  intros Hrep Hn Hok Hnew. destruct (rep_zip _ _ _ _ Hrep) as [Hst (c' & h & Ht & Hk)].
  assert (n ∉ (nodes (top k) (T c l v r) ++ ctx_nodes v k).*1) as Hfresh.
  { by rewrite <-(nodes_zip (T c l v r)), nodes_fst. }
  apply (st_take _ _ _ _ n n0) in Hst; [|done..]. clear Hrep. simpl in Hst.
  unfold rb_replace_node. rb_steps.
  eapply wp_load; [eassumption|pull|]. eapply wp_store; [eassumption|pull|]. intros s1 Hs1.
  eexists. split.
  - eapply st_drop. rewrite root_zip.
    eapply st_perm; [exact Hs1|]. rewrite nodes_zip. simpl. solve_Permutation.
  - pose proof (rbt_color _ _ _ _ _ _ Ht) as ->. eapply rbt_zip; [|exact Hk].
    inversion Ht; subst; eauto with rbdb.
Qed.

(** ** Properties *)

(** C16: inserting a node works: linking a new node at the hole of a tree
    and calling [rb_insert_color] returns, the heap then represents a
    red-black tree of logarithmic height with the node at that place in the
    order, and no other node of the heap changes. *)
Theorem rb_insert_correct F k n n0 s :
  rb_rep F (zip E k) s -> rb_heap s !! n = Some n0 -> ok_addr n -> n ∉ inorder (zip E k) ->
  wp (do! rb_link_node n (top k) (hole_link k) in rb_insert_color n)
     (fun _ s' => exists t', rb_rep F t' s' /\ balanced t' /\
        inorder t' = ctx_before k ++ n :: ctx_after k /\
        forall a, a ∉ inorder t' -> rb_heap s' !! a = rb_heap s !! a) s.
Proof.
  intros Hrep Hn Hok Hnew. eapply wp_mono; [by eapply rb_insert_rep|].
  intros [] s' (t' & Hrep' & Hin). exists t'.
  split_and!; [done|by apply rb_tree_balanced, Hrep'|done|].
  intros a Ha. rewrite (st_frame _ _ _ _ (rep_st _ _ _ Hrep')) by (by rewrite nodes_fst).
  rewrite (st_frame _ _ _ _ (rep_st _ _ _ Hrep)); [done|]. rewrite nodes_fst, inorder_zip. simpl.
  rewrite Hin, elem_of_app, elem_of_cons in Ha. rewrite elem_of_app. tauto.
Qed.

(** C17: erasing a node works: [rb_erase] of any node of a represented tree
    returns, the heap then represents a red-black tree of logarithmic height
    with the same nodes in the same order without it, and no node outside the
    tree changes. *)
Theorem rb_erase_correct F t a l1 l2 s :
  rb_rep F t s -> inorder t = l1 ++ a :: l2 ->
  wp (rb_erase a)
     (fun _ s' => exists t' na, rb_rep (<[a := na]> F) t' s' /\ balanced t' /\
        inorder t' = l1 ++ l2 /\ forall b, b ∉ inorder t -> rb_heap s' !! b = rb_heap s !! b) s.
Proof.
  intros Hrep Hin. destruct (rep_split _ _ _ _ _ _ Hrep Hin) as (c & l & r & k & -> & -> & ->).
  eapply wp_mono; [by eapply rb_erase_rep|]. intros [] s' (t' & na & Hrep' & Hin'). exists t', na.
  split_and!; [done|by apply rb_tree_balanced, Hrep'|by rewrite Hin', app_assoc|].
  intros b Hb. rewrite (st_frame _ _ _ _ (rep_st _ _ _ Hrep)) by (by rewrite nodes_fst).
  rewrite Hin, !elem_of_app, elem_of_cons, elem_of_app in Hb.
  rewrite (st_frame _ _ _ _ (rep_st _ _ _ Hrep')); [rewrite lookup_insert_ne; [done|intros ->; tauto]|].
  rewrite nodes_fst, Hin', !elem_of_app. tauto.
Qed.

(** Traversal visits the nodes in order: [rb_first] and [rb_last] return
    the ends of the sequence (or NULL), [rb_next] and [rb_prev] the neighbours
    of a node (or NULL at the end), and none of them changes the heap. *)
Theorem rb_traversal_correct F t s :
  rb_rep F t s ->
  rb_first s = Some (first_of (inorder t), s) /\ rb_last s = Some (last_of (inorder t), s) /\
  forall l1 a l2, inorder t = l1 ++ a :: l2 ->
    rb_next a s = Some (first_of l2, s) /\ rb_prev a s = Some (last_of l1, s).
Proof.
  intros Hrep. pose proof (rep_st _ _ _ Hrep) as Hst. pose proof (rep_fuel _ t [] _ Hrep) as Hf.
  simpl in Hf. split_and!.
  - apply wp_det. unfold rb_first. apply wp_bind, wp_get. rewrite (st_root _ _ _ _ Hst).
    destruct (decide (t = E)) as [->|Hne]; [by apply wp_ret|].
    erewrite st_root_neq0 by (done || seg). eapply rb_go_left_spec; [done|done|seg|lia].
  - apply wp_det. unfold rb_last. apply wp_bind, wp_get. rewrite (st_root _ _ _ _ Hst).
    destruct (decide (t = E)) as [->|Hne]; [by apply wp_ret|].
    erewrite st_root_neq0 by (done || seg). eapply rb_go_right_spec; [done|done|seg|lia].
  - intros l1 a l2 Hin. destruct (rep_split _ _ _ _ _ _ Hrep Hin) as (c & l & r & k & -> & -> & ->).
    split; apply wp_det; [by eapply rb_next_spec|by eapply rb_prev_spec].
Qed.

(** [rb_replace_node] puts the new node at the victim's place: the heap
    represents a tree with the same sequence in which the victim is replaced. *)
Theorem rb_replace_node_correct F t v n n0 l1 l2 s :
  rb_rep F t s -> inorder t = l1 ++ v :: l2 -> rb_heap s !! n = Some n0 -> ok_addr n ->
  n ∉ inorder t ->
  wp (rb_replace_node v n)
     (fun _ s' => exists t' nv, rb_rep (<[v := nv]> F) t' s' /\ inorder t' = l1 ++ n :: l2) s.
Proof.
  intros Hrep Hin Hn Hok Hnew.
  destruct (rep_split _ _ _ _ _ _ Hrep Hin) as (c & l & r & k & -> & -> & ->).
  eapply wp_mono; [by eapply rb_replace_node_spec|]. intros [] s' (nv & Hrep').
  exists (zip (T c l n r) k), nv. split; [done|]. rewrite inorder_zip. simpl. by rewrite <-!app_assoc.
Qed.

(** ** A concrete tree

    Nodes 16, 32 and 48 in order, 32 at the root; node 64 is in no tree. *)

Definition demo_tree : tree := T Black (T Red E 16 E) 32 (T Red E 48 E).
Definition demo_heap : gmap Z rb_node :=
  list_to_map ((64, RbNode 64 0 0) :: nodes 0 demo_tree).
Definition demo : rb_state := RbState demo_heap 32.

Lemma demo_rep : rb_rep demo_heap demo_tree demo.
Proof.
  split; [split|].
  - done.
  - apply (bool_decide_unpack _). by vm_compute.
  - by repeat constructor.
  - intros a n Ha. cbn in Ha. rewrite !elem_of_cons in Ha.
    by destruct Ha as [[= -> ->]|[[= -> ->]|[[= -> ->]|[]%not_elem_of_nil]]].
  - done.
  - exists 1%nat. unfold demo_tree. eauto with rbdb.
Qed.

Lemma demo_64 : 64 ∉ inorder demo_tree.
Proof. apply (bool_decide_unpack _). by vm_compute. Qed.

Lemma rb_insert_correct_ex :
  wp (do! rb_link_node 64 16 (LinkRight 16) in rb_insert_color 64)
     (fun _ s' => exists t', rb_rep demo_heap t' s' /\ balanced t' /\
        inorder t' = [16; 64; 32; 48] /\
        forall a, a ∉ inorder t' -> rb_heap s' !! a = rb_heap demo !! a) demo.
Proof.
  apply (rb_insert_correct demo_heap [FR Red E 16; FL Black 32 (T Red E 48 E)] 64 (RbNode 64 0 0));
    [exact demo_rep|done|done|exact demo_64].
Defined.

Lemma rb_erase_correct_ex :
  wp (rb_erase 32)
     (fun _ s' => exists t' na, rb_rep (<[32 := na]> demo_heap) t' s' /\ balanced t' /\
        inorder t' = [16] ++ [48] /\
        forall b, b ∉ inorder demo_tree -> rb_heap s' !! b = rb_heap demo !! b) demo.
Proof. apply (rb_erase_correct demo_heap demo_tree 32 [16] [48]); [exact demo_rep|done]. Defined.

Lemma rb_traversal_correct_ex :
  rb_first demo = Some (16, demo) /\ rb_next 16 demo = Some (32, demo).
Proof.
  pose proof (rb_traversal_correct demo_heap demo_tree demo demo_rep) as (Hf & _ & Hn).
  split; [exact Hf|]. exact (proj1 (Hn [] 16 [32; 48] eq_refl)).
Defined.

Lemma rb_replace_node_correct_ex :
  wp (rb_replace_node 48 64)
     (fun _ s' => exists t' nv, rb_rep (<[48 := nv]> demo_heap) t' s' /\
        inorder t' = [16; 32] ++ [64]) demo.
Proof.
  apply (rb_replace_node_correct demo_heap demo_tree 48 64 (RbNode 64 0 0) [16; 32] []);
    [exact demo_rep|done|done|done|exact demo_64].
Defined.
