(* ===== verification/PageInfoSpec.v ===== *)
(** * The page-info trees implement finite maps

    [PI s m]: the two trees of [s] are valid red-black search trees that
    represent the maps [m XomSubpages] and [m XomRegClear] from frame numbers
    to info words, they share no node, and the heap holds nothing else (so
    nothing is leaked). *)

From S2P Require Import Prelude RbTree RbSpec RbHeap PageInfo.

(** ** Searching a tree by key *)

Section locate.
Context (key : Z -> Z) (g : Z).

(** The subtree whose root has key [g], or the hole where it belongs. *)
Fixpoint locate (t : tree) (k : list frame) : tree * list frame :=
  match t with
  | E => (E, k)
  | T c l a r =>
      if g <? key a then locate l (FL c a r :: k)
      else if key a <? g then locate r (FR c l a :: k)
      else (t, k)
  end.

Lemma locate_zip t k : zip (locate t k).1 (locate t k).2 = zip t k.
Proof.
  revert k; induction t as [|c l IHl a r IHr]; intros k; simpl; [done|].
  destruct (g <? key a); [by rewrite IHl|]. destruct (key a <? g); [by rewrite IHr|done].
Qed.

Lemma locate_key t k c l a r k' : locate t k = (T c l a r, k') -> key a = g.
Proof.
  revert k; induction t as [|c0 l0 IHl a0 r0 IHr]; intros k; simpl; [done|].
  destruct (g <? key a0) eqn:?; [apply IHl|]. destruct (key a0 <? g) eqn:?; [apply IHr|].
  intros [= <- <- <- <- <-]. lia.
Qed.

(** Everything left of the hole has a smaller key, everything right of it a
    larger one. *)
Definition split_at (k : list frame) : Prop :=
  Forall (fun a => key a < g) (ctx_before k) /\ Forall (fun a => g < key a) (ctx_after k).

Lemma sorted_split l a r :
  StronglySorted Z.lt (key <$> l ++ a :: r) ->
  Forall (fun b => key b < key a) l /\ Forall (fun b => key a < key b) r.
Proof.
  rewrite fmap_app, fmap_cons, StronglySorted_app.
  intros (H1 & _ & [_ H2]%StronglySorted_inv). split.
  - apply Forall_forall. intros b Hb. apply H1; [by apply list_elem_of_fmap_2|by left].
  - rewrite Forall_fmap in H2. exact H2.
Qed.

Lemma locate_split t k k' :
  StronglySorted Z.lt (key <$> inorder t) -> split_at k ->
  locate t k = (E, k') -> split_at k'.
Proof.
  revert k; induction t as [|c l IHl a r IHr]; intros k Hs [Hb Ha]; simpl; [by intros [= <-]|].
  cbn [inorder] in Hs. destruct (sorted_split _ _ _ Hs) as [Hl Hr].
  rewrite fmap_app, fmap_cons, StronglySorted_app in Hs.
  destruct Hs as (_ & Hsl & [Hsr _]%StronglySorted_inv).
  destruct (g <? key a) eqn:H1.
  - apply IHl; [done|]. split; [done|]. simpl. constructor; [lia|]. apply Forall_app. split; [|done].
    eapply Forall_impl; [exact Hr|]. simpl. lia.
  - destruct (key a <? g) eqn:H2; [|done].
    apply IHr; [done|]. split; [|done]. simpl. rewrite !Forall_app, Forall_singleton.
    split; [done|]. split; [|lia]. eapply Forall_impl; [exact Hl|]. simpl. lia.
Qed.
End locate.

(** ** Representation *)

Definition key_in (I : gmap Z xom_page_info) (a : Z) : Z := default 0 (xpi_gfn <$> I !! a).

Record tree_rep (s : pi_state) (sel : root_sel) (t : tree) (m : gmap Z Z) : Prop := {
  tr_rep : rb_rep (pi_nodes s) t (pi_rb s sel);
  tr_sorted : StronglySorted Z.lt (key_in (pi_infos s) <$> inorder t);
  tr_infos : forall a, a ∈ inorder t -> is_Some (pi_infos s !! a);
  tr_map : forall g i, m !! g = Some i <->
    exists a, a ∈ inorder t /\ pi_infos s !! a = Some (XomPageInfo g i)
}.

(** The nodes of [X] are allocated and in neither tree. *)
Record PI_trees (s : pi_state) (X : list Z) (ts : root_sel -> tree) (m : root_sel -> gmap Z Z)
    : Prop := {
  pi_reps : forall sel, tree_rep s sel (ts sel) (m sel);
  pi_disj : forall sel sel' a, a ∈ inorder (ts sel) -> a ∈ inorder (ts sel') -> sel = sel';
  pi_loose : forall sel a, a ∈ X -> a ∉ inorder (ts sel);
  pi_dom_nodes : forall a, is_Some (pi_nodes s !! a) <-> a ∈ X \/ exists sel, a ∈ inorder (ts sel);
  pi_dom_infos : forall a, is_Some (pi_infos s !! a) <-> a ∈ X \/ exists sel, a ∈ inorder (ts sel)
}.

Definition PI (s : pi_state) (m : root_sel -> gmap Z Z) : Prop := exists ts, PI_trees s [] ts m.

Definition upd {A} (m : root_sel -> A) (sel : root_sel) (x : A) : root_sel -> A :=
  fun sel' => if decide (sel' = sel) then x else m sel'.

Lemma upd_eq {A} (m : root_sel -> A) sel x : upd m sel x sel = x.
Proof. unfold upd. by rewrite decide_True. Qed.

Lemma upd_ne {A} (m : root_sel -> A) sel sel' x : sel' <> sel -> upd m sel x sel' = m sel'.
Proof. intros. unfold upd. by rewrite decide_False. Qed.

(** ** Running an operation of the red-black tree *)

Lemma pi_set_rb_id s sel : pi_set_rb s sel (pi_rb s sel) = s.
Proof. by destruct s, sel. Qed.

Lemma wp_on_tree {A} sel (m : M rb_state A) (Q : A -> pi_state -> Prop) s :
  wp m (fun a rs => Q a (pi_set_rb s sel rs)) (pi_rb s sel) -> wp (on_tree sel m) Q s.
Proof.
  intros (a & rs & Hm & HQ). exists a, (pi_set_rb s sel rs). split; [|done].
  unfold on_tree. by rewrite Hm.
Qed.

Lemma wp_on_tree_read {A} sel (m : M rb_state A) (Q : A -> pi_state -> Prop) s :
  wp m (fun a rs => rs = pi_rb s sel /\ Q a s) (pi_rb s sel) -> wp (on_tree sel m) Q s.
Proof.
  intros H. apply wp_on_tree. eapply wp_mono; [exact H|]. intros a rs [-> HQ].
  by rewrite pi_set_rb_id.
Qed.

Lemma wp_entry p e (Q : xom_page_info -> pi_state -> Prop) s :
  pi_infos s !! p = Some e -> Q e s -> wp (entry p) Q s.
Proof. intros He HQ. exists e, s. unfold entry. by rewrite He. Qed.

Lemma key_in_Some I a e : I !! a = Some e -> key_in I a = xpi_gfn e.
Proof. intros H. unfold key_in. by rewrite H. Qed.

Lemma get_walk_spec fuel sel g s F r L L' q t k :
  st F r L (pi_rb s sel) -> L ≡ₚ nodes q t ++ L' ->
  (forall a, a ∈ inorder t -> is_Some (pi_infos s !! a)) ->
  (length (nodes q t) < fuel)%nat ->
  wp (get_walk fuel sel g (root_of t))
     (fun p s' => s' = s /\ p = root_of (locate (key_in (pi_infos s)) g t k).1) s.
Proof.
  revert L' q t k; induction fuel as [|fuel IH]; intros L' q t k Hst HL Hi Hf; [lia|].
  destruct t as [|c l a rr]; cbn [get_walk root_of].
  { by apply wp_ret. }
  simpl in HL, Hf. rewrite length_app in Hf.
  rewrite (eqb_neq_false a NULL) by (eapply st_neq0; eauto). cbn [negb].
  destruct (Hi a) as [e He]; [simpl; set_solver|].
  apply wp_bind. eapply wp_entry; [done|].
  simpl. rewrite (key_in_Some _ _ _ He).
  destruct (g <? xpi_gfn e).
  { apply wp_bind, wp_on_tree_read. eapply wp_get_left; [done..|]. split; [done|].
    eapply (IH _ a l); [done|rewrite HL; seg| |lia].
    intros b Hb. apply Hi. simpl. set_solver. }
  destruct (xpi_gfn e <? g).
  { apply wp_bind, wp_on_tree_read. eapply wp_get_right; [done..|]. split; [done|].
    eapply (IH _ a rr); [done|rewrite HL; seg| |lia].
    intros b Hb. apply Hi. simpl. set_solver. }
  by apply wp_ret.
Qed.

(** In a sorted tree the located node is the one with the key. *)
Lemma locate_spec I t g c l a r k :
  locate (key_in I) g t [] = (T c l a r, k) ->
  a ∈ inorder t /\ key_in I a = g /\ t = zip (T c l a r) k.
Proof.
  intros Hl. pose proof (locate_zip (key_in I) g t []) as Hz. rewrite Hl in Hz. simpl in Hz.
  split_and!; [|by eapply locate_key|done]. rewrite <-Hz, inorder_zip. simpl. set_solver.
Qed.

Lemma locate_none I t g k :
  StronglySorted Z.lt (key_in I <$> inorder t) ->
  locate (key_in I) g t [] = (E, k) ->
  split_at (key_in I) g k /\ t = zip E k /\ forall a, a ∈ inorder t -> key_in I a <> g.
Proof.
  intros Hs Hl. pose proof (locate_zip (key_in I) g t []) as Hz. rewrite Hl in Hz. simpl in Hz.
  pose proof (locate_split _ _ _ [] _ Hs ltac:(split; constructor) Hl) as [Hb Ha].
  split_and!; [done|done|]. intros a. rewrite <-Hz, inorder_zip. simpl.
  rewrite elem_of_app. rewrite Forall_forall in Hb, Ha.
  intros [Hin|Hin]; [specialize (Hb _ Hin)|specialize (Ha _ Hin)]; lia.
Qed.

Lemma tree_rep_size s sel t m : tree_rep s sel t m -> (length (nodes 0 t) < pi_fuel s)%nat.
Proof.
  intros Htr. pose proof (st_size _ _ _ _ (rep_st _ _ _ (tr_rep _ _ _ _ Htr))) as H.
  unfold pi_fuel. simpl in H. lia.
Qed.

(** What [get_page_info_entry] returns: the entry of the frame, or null. *)
Lemma get_page_info_entry_spec s X ts m sel g :
  PI_trees s X ts m ->
  wp (get_page_info_entry sel g)
     (fun p s' => s' = s /\
        match locate (key_in (pi_infos s)) g (ts sel) [] with
        | (T c l a r, k) => p = a /\ a <> NULL /\
            exists i, pi_infos s !! a = Some (XomPageInfo g i) /\ m sel !! g = Some i
        | (E, _) => p = NULL /\ m sel !! g = None
        end) s.
Proof.
  intros HPI. pose proof (pi_reps _ _ _ _ HPI sel) as Htr.
  unfold get_page_info_entry. apply wp_bind, wp_get.
  rewrite (st_root _ _ _ _ (rep_st _ _ _ (tr_rep _ _ _ _ Htr)) : pi_root s sel = _).
  eapply wp_mono.
  { eapply (get_walk_spec _ _ _ _ _ _ _ [] 0 _ []);
      [apply Htr|by rewrite app_nil_r|apply Htr|by eapply tree_rep_size]. }
  intros p s' [-> ->]. split; [done|].
  destruct (locate _ _ _ _) as [[|c l a r] k] eqn:Hl; simpl.
  - split; [done|]. destruct (m sel !! g) as [i|] eqn:Hm; [|done].
    apply (tr_map _ _ _ _ Htr) in Hm as (a & Ha & He).
    destruct (locate_none _ _ _ _ (tr_sorted _ _ _ _ Htr) Hl) as (_ & _ & Hne).
    destruct (Hne a Ha). by rewrite (key_in_Some _ _ _ He).
  - destruct (locate_spec _ _ _ _ _ _ _ _ Hl) as (Ha & Hk & Ht).
    destruct (tr_infos _ _ _ _ Htr a Ha) as [[g' i] He].
    rewrite (key_in_Some _ _ _ He) in Hk. simpl in Hk. subst g'.
    split_and!; [done| |exists i; split; [done|]].
    + pose proof (st_ok _ _ _ _ (rep_st _ _ _ (tr_rep _ _ _ _ Htr))) as Hok.
      rewrite nodes_fst, Forall_forall in Hok. by apply Hok.
    + apply (tr_map _ _ _ _ Htr). eauto.
Qed.

(** ** Changing the heap *)

(** A tree depends only on its own nodes. *)
Lemma tree_rep_frame s s' sel t m :
  tree_rep s sel t m -> pi_root s' sel = pi_root s sel ->
  (forall a, a ∈ inorder t -> pi_nodes s' !! a = pi_nodes s !! a /\
                            pi_infos s' !! a = pi_infos s !! a) ->
  tree_rep s' sel t m.
Proof.
  intros [[[Hr Hnd Hok Hlk Hfr] Hrb] Hs Hi Hm] Hroot Heq.
  assert (forall a n, (a, n) ∈ nodes 0 t -> a ∈ inorder t) as Hin.
  { intros a n Ha. rewrite <-nodes_fst. apply list_elem_of_fmap. by exists (a, n). }
  split; [split; [split|]|..]; try done.
  - simpl in *. congruence.
  - intros a n Ha. simpl. rewrite (proj1 (Heq a (Hin _ _ Ha))). by apply Hlk.
  - assert (key_in (pi_infos s') <$> inorder t = key_in (pi_infos s) <$> inorder t) as ->; [|done].
    apply list_fmap_ext. intros i a Ha%list_elem_of_lookup_2. unfold key_in.
    by rewrite (proj2 (Heq a Ha)).
  - intros a Ha. rewrite (proj2 (Heq a Ha)). auto.
  - intros g i. rewrite Hm. split; intros (a & Ha & He); exists a; split; try done;
      by rewrite ?(proj2 (Heq a Ha)) in *.
Qed.

Lemma rb_rep_self F t s : rb_rep F t s -> rb_rep (rb_heap s) t s.
Proof. intros [[] ?]. by repeat split. Qed.

Lemma pi_set_rb_simpl s sel rs :
  pi_nodes (pi_set_rb s sel rs) = rb_heap rs /\ pi_infos (pi_set_rb s sel rs) = pi_infos s /\
  pi_rb (pi_set_rb s sel rs) sel = rs /\
  forall sel', sel' <> sel -> pi_root (pi_set_rb s sel rs) sel' = pi_root s sel'.
Proof. destruct sel, rs; simpl; split_and!; try done; by intros []. Qed.

(** One of the trees is replaced; nodes may move between it and [X]. *)
Lemma PI_replace s X X' ts m sel rs t' m' :
  PI_trees s X ts m -> rb_rep (rb_heap rs) t' rs ->
  (forall b, is_Some (rb_heap rs !! b) <-> is_Some (pi_nodes s !! b)) ->
  (forall b sel', sel' <> sel -> b ∈ inorder (ts sel') -> rb_heap rs !! b = pi_nodes s !! b) ->
  (forall b, b ∈ X \/ b ∈ inorder (ts sel) <-> b ∈ X' \/ b ∈ inorder t') ->
  (forall b, b ∈ X' -> b ∉ inorder t') ->
  StronglySorted Z.lt (key_in (pi_infos s) <$> inorder t') ->
  (forall g i, m' !! g = Some i <->
     exists a, a ∈ inorder t' /\ pi_infos s !! a = Some (XomPageInfo g i)) ->
  PI_trees (pi_set_rb s sel rs) X' (upd ts sel t') (upd m sel m').
Proof.
  intros [Hreps Hdisj Hloose Hdn Hdi] Hrep Hdom Hframe HX HX' Hs Hm.
  destruct (pi_set_rb_simpl s sel rs) as (Hn & Hi & Hrb & Hroot).
  assert (forall b sel', b ∈ inorder (upd ts sel t' sel') <->
    (sel' = sel /\ b ∈ inorder t') \/ (sel' <> sel /\ b ∈ inorder (ts sel'))) as Hu.
  { intros b sel'. unfold upd. destruct (decide _) as [->|]; [|split; [auto|by intros [[]|[]]]].
    split; [auto|by intros [[]|[]]]. }
  assert (forall b sel', sel' <> sel -> b ∈ inorder (ts sel') -> (b ∉ X) /\ (b ∉ inorder (ts sel))) as Ho.
  { intros b sel' Hne Hb. split; intros ?; [by eapply Hloose|eauto]. }
  assert (forall b, b ∈ X \/ (exists sel', b ∈ inorder (ts sel')) <->
                    b ∈ X' \/ exists sel', b ∈ inorder (upd ts sel t' sel')) as Hall.
  { intros b. setoid_rewrite Hu. split.
    - intros [Hb|[sel' Hb]].
      + destruct (proj1 (HX b) (or_introl Hb)); eauto.
      + destruct (decide (sel' = sel)) as [->|]; [|eauto 6].
        destruct (proj1 (HX b) (or_intror Hb)); eauto.
    - intros [Hb|[sel' [[-> Hb]|[? Hb]]]]; [| |eauto].
      + destruct (proj2 (HX b) (or_introl Hb)); eauto.
      + destruct (proj2 (HX b) (or_intror Hb)); eauto. }
  split.
  - intros sel'. destruct (decide (sel' = sel)) as [->|Hne].
    + rewrite !upd_eq. split; rewrite ?Hn, ?Hi, ?Hrb; try done.
      intros a Ha. rewrite Hdi. destruct (proj2 (HX a) (or_intror Ha)); eauto.
    + rewrite !upd_ne by done. eapply tree_rep_frame; [apply Hreps|by apply Hroot|].
      intros a Ha. rewrite Hn, Hi. eauto.
  - assert (forall b sel', sel' <> sel -> b ∈ inorder (ts sel') -> (b ∉ X') /\ (b ∉ inorder t')) as Ho'.
    { intros b sel' Hne Hb. destruct (Ho b sel' Hne Hb) as [H1 H2].
      split; intros H; destruct (proj2 (HX b)); auto. }
    intros s1 s2 a. rewrite !Hu.
    intros [[-> H1]|[Hn1 H1]] [[-> H2]|[Hn2 H2]]; [done| | |eauto].
    + by destruct (Ho' _ _ Hn2 H2).
    + by destruct (Ho' _ _ Hn1 H1).
  - intros sel' a Ha. rewrite Hu. intros [[-> H1]|[Hn1 H1]]; [by eapply HX'|].
    destruct (Ho a sel' Hn1 H1). destruct (proj2 (HX a) (or_introl Ha)); auto.
  - intros a. by rewrite Hn, Hdom, Hdn.
  - intros a. by rewrite Hi, Hdi.
Qed.

(** ** Insertion *)

Lemma wp_read_hole F t k s (Q : Z -> rb_state -> Prop) :
  st F (ctx_root (root_of t) k) (nodes (top k) t ++ ctx_nodes (root_of t) k) s ->
  Q (root_of t) s -> wp (read_link (hole_link k)) Q s.
Proof.
  intros Hst HQ. destruct k as [|[c a r|c l a] k]; simpl in *.
  - apply wp_gets. by rewrite (st_root _ _ _ _ Hst).
  - eapply wp_get_left; [exact Hst|pull|done].
  - eapply wp_get_right; [exact Hst|pull|done].
Qed.

Lemma insert_walk_spec fuel sel g s F t k :
  st F (ctx_root (root_of t) k) (nodes (top k) t ++ ctx_nodes (root_of t) k) (pi_rb s sel) ->
  (forall a, a ∈ inorder t -> is_Some (pi_infos s !! a)) ->
  (length (nodes (top k) t) < fuel)%nat ->
  wp (insert_walk fuel sel g (hole_link k) (top k))
     (fun r s' => s' = s /\
        r = match locate (key_in (pi_infos s)) g t k with
            | (E, k') => Some (hole_link k', top k') | _ => None
            end) s.
Proof.
  revert t k; induction fuel as [|fuel IH]; intros t k Hst Hi Hf; [lia|].
  cbn [insert_walk]. apply wp_bind, wp_on_tree_read.
  eapply wp_read_hole; [done|]. split; [done|].
  destruct t as [|c l a r]; [by apply wp_ret|].
  simpl in Hf. rewrite length_app in Hf. cbn [root_of].
  rewrite (eqb_neq_false a NULL) by (eapply st_neq0; [done|simpl; pull]). cbn [negb].
  destruct (Hi a) as [e He]; [simpl; set_solver|].
  apply wp_bind. eapply wp_entry; [done|]. simpl. rewrite (key_in_Some _ _ _ He).
  destruct (g <? xpi_gfn e); [|destruct (xpi_gfn e <? g); [|by apply wp_ret]].
  - eapply (IH l (FL c a r :: k)); [|intros b Hb; apply Hi; simpl; set_solver|simpl; lia].
    eapply st_perm; [done|]. simpl. solve_Permutation.
  - eapply (IH r (FR c l a :: k)); [|intros b Hb; apply Hi; simpl; set_solver|simpl; lia].
    eapply st_perm; [done|]. simpl. solve_Permutation.
Qed.

Lemma sorted_insert I k g a :
  StronglySorted Z.lt (key_in I <$> ctx_before k ++ ctx_after k) ->
  split_at (key_in I) g k -> key_in I a = g ->
  StronglySorted Z.lt (key_in I <$> ctx_before k ++ a :: ctx_after k).
Proof.
  intros Hs [Hb Ha] Hk. rewrite fmap_app, StronglySorted_app in *. destruct Hs as (H1 & H2 & H3).
  rewrite fmap_cons, StronglySorted_cons, Forall_fmap, Hk.
  rewrite Forall_forall in Hb. split_and!; try done.
  intros x y (b & -> & Hin)%list_elem_of_fmap [->|Hy]%elem_of_cons; [by apply Hb|].
  apply H1; [by apply list_elem_of_fmap_2|done].
Qed.

Lemma map_insert_char (m : gmap Z Z) (I : gmap Z xom_page_info) l1 l2 g i a :
  (forall g' i', m !! g' = Some i' <->
     exists b, b ∈ l1 ++ l2 /\ I !! b = Some (XomPageInfo g' i')) ->
  (forall b, b ∈ l1 ++ l2 -> key_in I b <> g) -> I !! a = Some (XomPageInfo g i) ->
  forall g' i', <[g := i]> m !! g' = Some i' <->
    exists b, b ∈ l1 ++ a :: l2 /\ I !! b = Some (XomPageInfo g' i').
Proof.
  intros Hm Hne Ha g' i'. destruct (decide (g' = g)) as [->|Hg].
  - rewrite lookup_insert_eq. split.
    + intros [= <-]. exists a. split; [set_solver|done].
    + intros (b & Hb & He).
      assert (b = a \/ b ∈ l1 ++ l2) as [->|Hin] by set_solver; [congruence|].
      destruct (Hne b Hin). by rewrite (key_in_Some _ _ _ He).
  - rewrite lookup_insert_ne, Hm by done. split.
    + intros (b & Hb & He). exists b. split; [set_solver|done].
    + intros (b & Hb & He). exists b. split; [|done].
      assert (b = a \/ b ∈ l1 ++ l2) as [->|Hin] by set_solver; [congruence|done].
Qed.

Lemma is_Some_frame F t s b :
  rb_rep F t s -> (forall a, a ∈ inorder t -> is_Some (F !! a)) ->
  is_Some (rb_heap s !! b) <-> is_Some (F !! b).
Proof.
  intros [Hst _] HF. destruct (decide (b ∈ inorder t)) as [Hb|Hb].
  - split; [auto|]. intros _. rewrite <-(nodes_fst 0) in Hb.
    apply list_elem_of_fmap in Hb as ([b' n] & -> & Hin). exists n. by apply (st_look _ _ _ _ Hst).
  - rewrite (st_frame _ _ _ _ Hst); [done|]. by rewrite nodes_fst.
Qed.

(** Linking the loose node [a] into the hole [locate] found. *)
Lemma insert_tree_spec s X ts m sel a g i k :
  PI_trees s (a :: X) ts m -> a ∉ X -> ok_addr a -> pi_infos s !! a = Some (XomPageInfo g i) ->
  locate (key_in (pi_infos s)) g (ts sel) [] = (E, k) ->
  wp (do! rb_link_node a (top k) (hole_link k) in rb_insert_color a)
     (fun _ rs => exists t', PI_trees (pi_set_rb s sel rs) X (upd ts sel t')
                               (upd m sel (<[g := i]> (m sel)))) (pi_rb s sel).
Proof.
  intros HPI HaX Hok Ha Hl. pose proof (pi_reps _ _ _ _ HPI sel) as Htr.
  destruct (locate_none _ _ _ _ (tr_sorted _ _ _ _ Htr) Hl) as (Hsp & Ht & Hne).
  assert (a ∉ inorder (ts sel)) as Hnt by (apply (pi_loose _ _ _ _ HPI); by left).
  pose proof (inorder_zip E k) as Hio. simpl in Hio. rewrite <-Ht in Hio.
  destruct (proj2 (pi_dom_nodes _ _ _ _ HPI a)) as [n0 Hn0]; [left; by left|].
  eapply wp_mono.
  { eapply (rb_insert_rep (pi_nodes s) k a n0); rewrite <-?Ht; [apply Htr|done..]. }
  intros [] rs (t' & Hrep & Hin). exists t'.
  assert (forall b, b ∈ inorder t' <-> b = a \/ b ∈ inorder (ts sel)) as Hmem.
  { intros b. rewrite Hin, Hio, !elem_of_app, elem_of_cons. tauto. }
  eapply (PI_replace s (a :: X)); [done|by eapply rb_rep_self|..].
  - intros b. eapply is_Some_frame; [done|]. intros c [->|Hc]%Hmem; [eauto|].
    apply (pi_dom_nodes _ _ _ _ HPI). eauto.
  - intros b sel' Hsel Hb. apply (st_frame _ _ _ _ (rep_st _ _ _ Hrep)).
    rewrite nodes_fst, Hmem. intros [->|Hb'].
    + by apply (pi_loose _ _ _ _ HPI sel' a); [left|].
    + by apply Hsel, (pi_disj _ _ _ _ HPI _ _ b).
  - intros b. rewrite Hmem, elem_of_cons. tauto.
  - intros b Hb [->|Hb']%Hmem; [done|]. by apply (pi_loose _ _ _ _ HPI sel b); [right|].
  - rewrite Hin. eapply sorted_insert; [rewrite <-Hio; apply Htr|done|].
    by rewrite (key_in_Some _ _ _ Ha).
  - rewrite Hin. apply map_insert_char; rewrite <-?Hio; try done. apply Htr.
Qed.

Lemma on_tree_bind {A B} sel (m : M rb_state A) (k : A -> M rb_state B) s :
  bind (on_tree sel m) (fun a => on_tree sel (k a)) s = on_tree sel (bind m k) s.
Proof.
  unfold bind, on_tree. destruct (m (pi_rb s sel)) as [[a rs]|]; [|done].
  destruct (pi_set_rb_simpl s sel rs) as (_ & _ & -> & _).
  destruct (k a rs) as [[b rs']|]; [|done]. by destruct sel.
Qed.

Lemma wp_on_tree_seq {A B C} sel (m : M rb_state A) (k : A -> M rb_state B) (c : C) Q s :
  wp (bind m k) (fun _ rs => Q c (pi_set_rb s sel rs)) (pi_rb s sel) ->
  wp (let! a := on_tree sel m in do! on_tree sel (k a) in ret c) Q s.
Proof.
  intros H. apply (wp_on_tree sel (bind m k) (fun _ => Q c)) in H as (b & s' & Hrun & HQ). exists c, s'. split; [|exact HQ].
  rewrite <-on_tree_bind in Hrun. apply bind_inv in Hrun as (a & s1 & H1 & H2).
  rewrite (bind_Some _ _ _ _ _ H1), (bind_Some _ _ _ _ _ H2). done.
Qed.

Lemma insert_page_info_node_spec s X ts m sel a g i :
  PI_trees s (a :: X) ts m -> a ∉ X -> ok_addr a -> pi_infos s !! a = Some (XomPageInfo g i) ->
  wp (insert_page_info_node sel a)
     (fun r s' => (r = - EEXIST /\ s' = s /\ is_Some (m sel !! g)) \/
        (r = 0 /\ m sel !! g = None /\ pi_infos s' = pi_infos s /\
         exists ts', PI_trees s' X ts' (upd m sel (<[g := i]> (m sel))))) s.
Proof.
  intros HPI HaX Hok Ha. pose proof (pi_reps _ _ _ _ HPI sel) as Htr.
  unfold insert_page_info_node. apply wp_bind, wp_get.
  apply wp_bind. eapply wp_entry; [done|]. cbn [xpi_gfn].
  apply wp_bind. eapply wp_mono.
  { eapply (insert_walk_spec _ _ g _ _ (ts sel) []).
    - simpl. rewrite app_nil_r. apply Htr.
    - apply Htr.
    - by eapply tree_rep_size. }
  intros r s' [-> ->]. destruct (locate _ _ _ _) as [[|c l b rr] k] eqn:Hl.
  - apply wp_on_tree_seq. eapply wp_mono; [by eapply insert_tree_spec|].
    intros [] rs [t' Ht']. right. split_and!; [done| |by destruct sel|eauto].
    destruct (m sel !! g) as [i'|] eqn:Hm; [|done].
    apply (tr_map _ _ _ _ Htr) in Hm as (b & Hb & He).
    destruct (locate_none _ _ _ _ (tr_sorted _ _ _ _ Htr) Hl) as (_ & _ & Hne).
    destruct (Hne b Hb). by rewrite (key_in_Some _ _ _ He).
  - apply wp_ret. left. split_and!; [done..|].
    destruct (locate_spec _ _ _ _ _ _ _ _ Hl) as (Hb & Hk & _).
    destruct (tr_infos _ _ _ _ Htr b Hb) as [[g' i'] He].
    rewrite (key_in_Some _ _ _ He) in Hk. simpl in Hk. subst g'.
    exists i'. apply (tr_map _ _ _ _ Htr). eauto.
Qed.

(** ** Allocation and release of loose nodes *)

Lemma PI_loose_update s s' X X' ts m :
  PI_trees s X ts m -> (forall sel, pi_root s' sel = pi_root s sel) ->
  (forall a sel, a ∈ inorder (ts sel) -> pi_nodes s' !! a = pi_nodes s !! a /\
                                       pi_infos s' !! a = pi_infos s !! a) ->
  (forall a sel, a ∈ X' -> a ∉ inorder (ts sel)) ->
  (forall a, is_Some (pi_nodes s' !! a) <-> a ∈ X' \/ exists sel, a ∈ inorder (ts sel)) ->
  (forall a, is_Some (pi_infos s' !! a) <-> a ∈ X' \/ exists sel, a ∈ inorder (ts sel)) ->
  PI_trees s' X' ts m.
Proof.
  intros [] Hroot Heq Hl Hn Hi. split; auto.
  intros sel. eapply tree_rep_frame; eauto.
Qed.

Lemma is_Some_insert {A} (M0 : gmap Z A) a x b :
  is_Some (<[a := x]> M0 !! b) <-> b = a \/ is_Some (M0 !! b).
Proof.
  destruct (decide (b = a)) as [->|].
  - rewrite lookup_insert_eq. split; eauto.
  - rewrite lookup_insert_ne by done. split; [auto|by intros []].
Qed.

Lemma is_Some_delete {A} (M0 : gmap Z A) a b :
  is_Some (delete a M0 !! b) <-> b <> a /\ is_Some (M0 !! b).
Proof.
  destruct (decide (b = a)) as [->|].
  - rewrite lookup_delete_eq. split; [by intros []|by intros []].
  - rewrite lookup_delete_ne by done. split; [auto|by intros []].
Qed.

Lemma not_dom_loose s X ts m a :
  PI_trees s X ts m -> a ∉ pi_used s -> a ∉ X /\ forall sel, a ∉ inorder (ts sel).
Proof.
  intros HPI Hu. unfold pi_used in Hu. rewrite not_elem_of_union, !not_elem_of_dom in Hu.
  assert (~ is_Some (pi_nodes s !! a)) as Hn by (rewrite <-eq_None_not_Some; apply Hu).
  rewrite (pi_dom_nodes _ _ _ _ HPI) in Hn. split; [auto|]. intros sel Hin. eauto.
Qed.

Lemma xmalloc_entry_spec `{Xmalloc} s X ts m g i :
  PI_trees s X ts m ->
  wp (xmalloc_entry g i)
     (fun p s' => (p = NULL /\ xmalloc_addr (pi_clock s) (pi_used s) = None /\ PI_trees s' X ts m) \/
        (ok_addr p /\ p ∉ X /\ pi_infos s' !! p = Some (XomPageInfo g i) /\
         PI_trees s' (p :: X) ts m)) s.
Proof.
  intros HPI. unfold xmalloc_entry. destruct (xmalloc_addr _ _) as [a|] eqn:Ha.
  - destruct (xmalloc_ok _ _ _ Ha) as [Hok Hu].
    destruct (not_dom_loose _ _ _ _ _ HPI Hu) as [HaX Hat].
    eexists _, _. split; [cbv zeta; by rewrite Ha|]. right. simpl.
    rewrite lookup_insert_eq. split_and!; try done.
    eapply PI_loose_update; [done|by intros []|..]; simpl.
    + intros b sel Hb. assert (a <> b) by (intros ->; by eapply Hat).
      by rewrite !lookup_insert_ne.
    + intros b sel [->|Hb]%elem_of_cons; [auto|by apply (pi_loose _ _ _ _ HPI)].
    + intros b. rewrite is_Some_insert, elem_of_cons, (pi_dom_nodes _ _ _ _ HPI). tauto.
    + intros b. rewrite is_Some_insert, elem_of_cons, (pi_dom_infos _ _ _ _ HPI). tauto.
  - eexists _, _. split; [cbv zeta; by rewrite Ha|]. left. split_and!; [done..|].
    eapply PI_loose_update; [done|by intros []|..]; simpl; try apply HPI; auto.
    intros b sel. apply (pi_loose _ _ _ _ HPI).
Qed.

Lemma rb_clear_node_spec s X ts m sel a :
  PI_trees s (a :: X) ts m ->
  wp (on_tree sel (rb_clear_node a))
     (fun _ s' => PI_trees s' (a :: X) ts m /\ pi_infos s' = pi_infos s) s.
Proof.
  intros HPI. destruct (proj2 (pi_dom_nodes _ _ _ _ HPI a)) as [n Hn]; [left; by left|].
  apply wp_on_tree. eexists tt, _. split.
  { unfold rb_clear_node, set_pc, store. simpl. by rewrite Hn. }
  split; [|by destruct sel].
  eapply PI_loose_update; [done|by destruct sel; intros []|..].
  - intros b sel' Hb. assert (a <> b) by (intros ->; eapply (pi_loose _ _ _ _ HPI); [by left|done]).
    destruct sel; simpl; by rewrite lookup_insert_ne.
  - intros b sel' Hb. by apply (pi_loose _ _ _ _ HPI).
  - intros b. destruct sel; simpl; rewrite is_Some_insert, (pi_dom_nodes _ _ _ _ HPI), elem_of_cons; tauto.
  - intros b. destruct sel; apply (pi_dom_infos _ _ _ _ HPI).
Qed.

Lemma xfree_spec s X ts m a :
  PI_trees s (a :: X) ts m -> a ∉ X ->
  wp (xfree a) (fun _ s' => PI_trees s' X ts m /\ pi_infos s' = delete a (pi_infos s)) s.
Proof.
  intros HPI HaX. destruct (proj2 (pi_dom_infos _ _ _ _ HPI a)) as [e He]; [left; by left|].
  assert (forall sel, a ∉ inorder (ts sel)) as Hat.
  { intros sel. apply (pi_loose _ _ _ _ HPI). by left. }
  unfold xfree. eexists tt, _. rewrite He. split; [done|]. split; [|done].
  eapply PI_loose_update; [done|by intros []|..]; simpl.
  - intros b sel Hb. assert (a <> b) by (intros ->; by eapply Hat). by rewrite !lookup_delete_ne.
  - intros b sel Hb. apply (pi_loose _ _ _ _ HPI). by right.
  - intros b. rewrite is_Some_delete, (pi_dom_nodes _ _ _ _ HPI), elem_of_cons.
    split; [tauto|]. intros [Hb|[sel Hb]]; (split; [intros ->; naive_solver|eauto]).
  - intros b. rewrite is_Some_delete, (pi_dom_infos _ _ _ _ HPI), elem_of_cons.
    split; [tauto|]. intros [Hb|[sel Hb]]; (split; [intros ->; naive_solver|eauto]).
Qed.

(** ** The specifications of the helpers *)

Lemma add_page_info_entry_spec `{Xmalloc} s m sel g i :
  PI s m ->
  wp (add_page_info_entry sel g i)
     (fun p s' => (p = NULL /\ PI s' m /\
                   (xmalloc_addr (pi_clock s) (pi_used s) = None \/ is_Some (m sel !! g))) \/
        (p <> NULL /\ m sel !! g = None /\ PI s' (upd m sel (<[g := i]> (m sel))))) s.
Proof.
  intros [ts HPI]. unfold add_page_info_entry. apply wp_bind.
  eapply wp_mono; [by eapply xmalloc_entry_spec|].
  intros p s1 [(-> & Hnone & HPI1)|(Hok & HpX & He & HPI1)].
  { apply wp_ret. left. split_and!; [done|by exists ts|auto]. }
  rewrite (eqb_neq_false p NULL) by apply Hok.
  apply wp_bind. eapply wp_mono; [by eapply rb_clear_node_spec|]. intros [] s2 [HPI2 Hi2].
  apply wp_bind. eapply wp_mono.
  { eapply insert_page_info_node_spec; [done..|]. by rewrite Hi2. }
  intros r s3 [(-> & -> & Hdup)|(-> & Hnew & _ & ts' & HPI3)]; simpl.
  - apply wp_bind. eapply wp_mono; [by eapply xfree_spec|]. intros [] s4 [HPI4 _].
    apply wp_ret. left. split_and!; [done|by exists ts|auto].
  - apply wp_ret. right. split_and!; [apply Hok|done|by exists ts'].
Qed.

Lemma sorted_delete {A} (f : A -> Z) l1 l2 a :
  StronglySorted Z.lt (f <$> l1 ++ a :: l2) -> StronglySorted Z.lt (f <$> l1 ++ l2).
Proof.
  rewrite !fmap_app, fmap_cons, !StronglySorted_app, StronglySorted_cons.
  intros (H1 & H2 & _ & H3). split_and!; try done. intros x y Hx Hy. apply H1; [done|by right].
Qed.

Lemma sorted_key_neq I l1 l2 a b :
  StronglySorted Z.lt (key_in I <$> l1 ++ a :: l2) -> b ∈ l1 ++ l2 -> key_in I b <> key_in I a.
Proof.
  intros [H1 H2]%sorted_split. rewrite Forall_forall in H1, H2.
  intros [Hb|Hb]%elem_of_app; [specialize (H1 _ Hb)|specialize (H2 _ Hb)]; simpl in *; lia.
Qed.

Lemma map_delete_char (m : gmap Z Z) (I : gmap Z xom_page_info) l1 l2 g i a :
  (forall g' i', m !! g' = Some i' <->
     exists b, b ∈ l1 ++ a :: l2 /\ I !! b = Some (XomPageInfo g' i')) ->
  (forall b, b ∈ l1 ++ l2 -> key_in I b <> key_in I a) -> I !! a = Some (XomPageInfo g i) ->
  forall g' i', delete g m !! g' = Some i' <->
    exists b, b ∈ l1 ++ l2 /\ I !! b = Some (XomPageInfo g' i').
Proof.
  intros Hm Hne Ha g' i'. rewrite (key_in_Some _ _ _ Ha) in Hne. simpl in Hne.
  destruct (decide (g' = g)) as [->|Hg].
  - rewrite lookup_delete_eq. split; [done|]. intros (b & Hb & He).
    destruct (Hne b Hb). by rewrite (key_in_Some _ _ _ He).
  - rewrite lookup_delete_ne, Hm by done.
    split; intros (b & Hb & He); exists b; (split; [|done]);
      rewrite elem_of_app, ?elem_of_cons in *; [|tauto].
    destruct Hb as [?|[->|?]]; [auto|congruence|auto].
Qed.

Lemma rm_page_info_entry_spec s ts m sel g c l a r k :
  PI_trees s [] ts m -> locate (key_in (pi_infos s)) g (ts sel) [] = (T c l a r, k) ->
  wp (rm_page_info_entry sel a) (fun _ s' => PI s' (upd m sel (delete g (m sel)))) s.
Proof.
  intros HPI Hl. pose proof (pi_reps _ _ _ _ HPI sel) as Htr.
  destruct (locate_spec _ _ _ _ _ _ _ _ Hl) as (Ha & Hk & Ht).
  destruct (tr_infos _ _ _ _ Htr a Ha) as [[g' i] He].
  rewrite (key_in_Some _ _ _ He) in Hk. simpl in Hk. subst g'.
  assert (exists l1 l2, inorder (ts sel) = l1 ++ a :: l2 /\
            ctx_before k ++ inorder l ++ inorder r ++ ctx_after k = l1 ++ l2)
    as (l1 & l2 & Hio & Hio').
  { exists (ctx_before k ++ inorder l), (inorder r ++ ctx_after k). rewrite Ht, inorder_zip.
    simpl. rewrite <-!app_assoc. done. }
  pose proof (tr_sorted _ _ _ _ Htr) as Hs. rewrite Hio in Hs.
  assert (a ∉ l1 ++ l2) as Hnin by (intros Hin; by apply (sorted_key_neq _ _ _ _ _ Hs) in Hin).
  assert (forall b, b ∈ inorder (ts sel) <-> b = a \/ b ∈ l1 ++ l2) as Hmem.
  { intros b. rewrite Hio, !elem_of_app, elem_of_cons. tauto. }
  unfold rm_page_info_entry. apply wp_bind, wp_on_tree.
  eapply wp_mono.
  { eapply (rb_erase_rep (pi_nodes s) c l a r k). rewrite <-Ht. apply Htr. }
  intros [] rs (t' & na & Hrep & Hin). rewrite Hio' in Hin.
  eapply wp_mono; [eapply (xfree_spec _ [] (upd ts sel t') (upd m sel (delete g (m sel))))|].
  - eapply (PI_replace s []); [done|by eapply rb_rep_self|..].
    + intros b. rewrite (is_Some_frame _ _ _ _ Hrep), is_Some_insert.
      * split; [|auto]. intros [->|?]; [|done]. apply (pi_dom_nodes _ _ _ _ HPI). eauto.
      * intros b'. rewrite Hin. intros Hb'. rewrite is_Some_insert. right.
        apply (pi_dom_nodes _ _ _ _ HPI). right. exists sel. apply Hmem. auto.
    + intros b sel' Hsel Hb. assert (b ∉ inorder (ts sel)) as Hb'.
      { intros Hb'. by apply Hsel, (pi_disj _ _ _ _ HPI _ _ b). }
      rewrite Hmem in Hb'.
      rewrite (st_frame _ _ _ _ (rep_st _ _ _ Hrep)) by (rewrite nodes_fst, Hin; tauto).
      rewrite lookup_insert_ne; [done|]. intros ->. tauto.
    + intros b. rewrite Hmem, Hin, list_elem_of_singleton. pose proof (not_elem_of_nil b). tauto.
    + intros b ->%list_elem_of_singleton. by rewrite Hin.
    + rewrite Hin. by eapply sorted_delete.
    + rewrite Hin. eapply map_delete_char; [|by intros b; apply sorted_key_neq|done].
      rewrite <-Hio. apply Htr.
  - apply not_elem_of_nil.
  - intros [] s' [HPI' _]. by eexists.
Qed.

Lemma PI_ext s m m' : (forall sel, m sel = m' sel) -> PI s m -> PI s m'.
Proof.
  intros Heq [ts []]. exists ts. split; auto. intros sel. rewrite <-Heq. auto.
Qed.

Lemma drop_page_info_spec s m sel g :
  PI s m -> wp (drop_page_info sel g) (fun _ s' => PI s' (upd m sel (delete g (m sel)))) s.
Proof.
  intros [ts HPI]. unfold drop_page_info. apply wp_bind.
  eapply wp_mono; [by eapply get_page_info_entry_spec|]. intros p s' [-> Hp].
  destruct (locate _ _ _ _) as [[|c l a r] k] eqn:Hl.
  - destruct Hp as [-> Hm]. simpl. apply wp_ret. eapply PI_ext; [|by exists ts].
    intros sel'. destruct (decide (sel' = sel)) as [->|].
    + by rewrite upd_eq, delete_id.
    + by rewrite upd_ne.
  - destruct Hp as (-> & Hnz & _). rewrite (eqb_neq_false a NULL) by done. simpl.
    by eapply rm_page_info_entry_spec.
Qed.

(** What a client learns from a look-up. *)
Definition entry_at (s : pi_state) (sel : root_sel) (m : root_sel -> gmap Z Z) (g p : Z) : Prop :=
  match m sel !! g with
  | Some i => p <> NULL /\ pi_infos s !! p = Some (XomPageInfo g i) /\
      exists ts, PI_trees s [] ts m /\ p ∈ inorder (ts sel)
  | None => p = NULL
  end.

Lemma get_page_info_entry_at s m sel g :
  PI s m -> wp (get_page_info_entry sel g) (fun p s' => s' = s /\ entry_at s sel m g p) s.
Proof.
  intros [ts HPI]. eapply wp_mono; [by eapply get_page_info_entry_spec|].
  intros p s' [-> Hp]. split; [done|]. unfold entry_at.
  destruct (locate _ _ _ _) as [[|c l a r] k] eqn:Hl.
  - by destruct Hp as [-> ->].
  - destruct Hp as (-> & Hnz & i & He & ->). split_and!; [done..|].
    exists ts. split; [done|]. by eapply locate_spec.
Qed.

Lemma map_set_char (m : gmap Z Z) (I : gmap Z xom_page_info) l g i i' a :
  (forall g1 i1, m !! g1 = Some i1 <-> exists b, b ∈ l /\ I !! b = Some (XomPageInfo g1 i1)) ->
  StronglySorted Z.lt (key_in I <$> l) -> a ∈ l -> I !! a = Some (XomPageInfo g i) ->
  forall g1 i1, <[g := i']> m !! g1 = Some i1 <->
    exists b, b ∈ l /\ <[a := XomPageInfo g i']> I !! b = Some (XomPageInfo g1 i1).
Proof.
  intros Hm Hs Ha He g1 i1. apply list_elem_of_split in Ha as (l1 & l2 & ->).
  assert (forall b, b ∈ l1 ++ a :: l2 -> b <> a -> key_in I b <> g) as Hne.
  { intros b Hb Hba. pose proof (key_in_Some _ _ _ He) as Hk. simpl in Hk. rewrite <-Hk.
    eapply (sorted_key_neq _ _ _ _ _ Hs). rewrite elem_of_app, elem_of_cons in *. tauto. }
  destruct (decide (g1 = g)) as [->|Hg].
  - rewrite lookup_insert_eq. split.
    + intros [= <-]. exists a. rewrite lookup_insert_eq. split; [|done].
      rewrite elem_of_app, elem_of_cons. auto.
    + intros (b & Hb & He'). destruct (decide (b = a)) as [->|Hba].
      * rewrite lookup_insert_eq in He'. congruence.
      * rewrite lookup_insert_ne in He' by done. destruct (Hne b Hb Hba).
        by rewrite (key_in_Some _ _ _ He').
  - rewrite lookup_insert_ne, Hm by done.
    split; intros (b & Hb & He'); exists b; (split; [done|]).
    + rewrite lookup_insert_ne; [done|]. intros ->. congruence.
    + destruct (decide (b = a)) as [->|]; [rewrite lookup_insert_eq in He'; congruence|].
      by rewrite lookup_insert_ne in He' by done.
Qed.

Lemma key_in_set I a g i i' :
  I !! a = Some (XomPageInfo g i) ->
  forall b, key_in (<[a := XomPageInfo g i']> I) b = key_in I b.
Proof.
  intros He b. unfold key_in. destruct (decide (b = a)) as [->|].
  - by rewrite lookup_insert_eq, He.
  - by rewrite lookup_insert_ne.
Qed.

(** Writing the info word of an entry. *)
Lemma set_info_spec s m sel g i i' p :
  m sel !! g = Some i -> entry_at s sel m g p ->
  wp (set_info p i')
     (fun _ s' => PI s' (upd m sel (<[g := i']> (m sel))) /\
                  entry_at s' sel (upd m sel (<[g := i']> (m sel))) g p) s.
Proof.
  unfold entry_at. intros Hm. rewrite Hm. intros (Hnz & He & ts & HPI & Hp).
  unfold set_info. eexists tt, _. rewrite He. split; [done|]. cbn [xpi_gfn].
  match goal with |- PI ?s' _ /\ _ => set (s1 := s') end.
  assert (forall b, is_Some (pi_infos s1 !! b) <-> is_Some (pi_infos s !! b)) as Hdom.
  { intros b. simpl. rewrite is_Some_insert. split; [|auto]. intros [->|]; eauto. }
  assert (PI_trees s1 [] ts (upd m sel (<[g := i']> (m sel)))) as HPI'.
  { split.
    - intros sel'. destruct (decide (sel' = sel)) as [->|Hne].
      + rewrite upd_eq. destruct (pi_reps _ _ _ _ HPI sel) as [Hrep Hs Hi Hmap]. split.
        * by destruct sel.
        * erewrite list_fmap_ext; [exact Hs|]. intros j b _. by eapply key_in_set.
        * intros b Hb. apply Hdom. auto.
        * by eapply map_set_char.
      + rewrite upd_ne by done. eapply tree_rep_frame; [by apply (pi_reps _ _ _ _ HPI)|by destruct sel'|].
        intros b Hb. split; [done|]. simpl. rewrite lookup_insert_ne; [done|]. intros ->.
        by apply Hne, (pi_disj _ _ _ _ HPI _ _ b).
    - apply (pi_disj _ _ _ _ HPI).
    - intros sel' b Hb. by apply not_elem_of_nil in Hb.
    - apply (pi_dom_nodes _ _ _ _ HPI).
    - intros b. rewrite Hdom. apply (pi_dom_infos _ _ _ _ HPI). }
  split; [by exists ts|]. rewrite upd_eq, lookup_insert_eq. simpl. rewrite lookup_insert_eq. eauto 6.
Qed.

(** ** Releasing a whole tree *)

(** [l] was removed from the heap, the rest is as before. *)
Record freed (l : list Z) (s s' : pi_state) : Prop := {
  fr_nodes : forall a, pi_nodes s' !! a = if decide (a ∈ l) then None else pi_nodes s !! a;
  fr_infos : forall a, pi_infos s' !! a = if decide (a ∈ l) then None else pi_infos s !! a;
  fr_roots : forall sel, pi_root s' sel = pi_root s sel
}.

Lemma freed_trans l1 l2 s1 s2 s3 : freed l1 s1 s2 -> freed l2 s2 s3 -> freed (l1 ++ l2) s1 s3.
Proof.
  intros [Hn1 Hi1 Hr1] [Hn2 Hi2 Hr2]. split.
  - intros a. rewrite Hn2, Hn1. by repeat case_decide; set_solver.
  - intros a. rewrite Hi2, Hi1. by repeat case_decide; set_solver.
  - intros sel. by rewrite Hr2, Hr1.
Qed.

Lemma freed_perm l l' s s' : (forall a, a ∈ l <-> a ∈ l') -> freed l s s' -> freed l' s s'.
Proof.
  intros Hl [Hn Hi Hr]. split; [..|done].
  - intros a. rewrite Hn. by rewrite (decide_ext _ _ _ _ (Hl a)).
  - intros a. rewrite Hi. by rewrite (decide_ext _ _ _ _ (Hl a)).
Qed.

(** The nodes of the subtree [t] are in the heap. *)
Definition subtree_in (q : Z) (t : tree) (s : pi_state) : Prop :=
  forall a n, (a, n) ∈ nodes q t ->
    ok_addr a /\ pi_nodes s !! a = Some n /\ is_Some (pi_infos s !! a).

Lemma nodes_inorder q t a n : (a, n) ∈ nodes q t -> a ∈ inorder t.
Proof. intros Ha. rewrite <-(nodes_fst q). apply list_elem_of_fmap. by exists (a, n). Qed.

Lemma subtree_in_freed q t s l s' :
  freed l s s' -> (forall a, a ∈ inorder t -> a ∉ l) -> subtree_in q t s -> subtree_in q t s'.
Proof.
  intros [Hn Hi _] Hdis Ht a n Ha. rewrite Hn, Hi.
  rewrite !decide_False by eauto using nodes_inorder. auto.
Qed.

Lemma xfree_freed a s :
  is_Some (pi_infos s !! a) -> wp (xfree a) (fun _ s' => freed [a] s s') s.
Proof.
  intros [e He].
  eexists tt, _. unfold xfree. rewrite He. split; [done|]. split; simpl; [..|by intros []].
  - intros b. case_decide as Hb; rewrite list_elem_of_singleton in Hb; [subst; apply lookup_delete_eq|].
    by apply lookup_delete_ne.
  - intros b. case_decide as Hb; rewrite list_elem_of_singleton in Hb; [subst; apply lookup_delete_eq|].
    by apply lookup_delete_ne.
Qed.

Lemma freed_nil s : freed [] s s.
Proof. split; [..|done]; intros a; by rewrite decide_False by apply not_elem_of_nil. Qed.

Lemma wp_child_left sel s a pc rt lf (Q : Z -> pi_state -> Prop) :
  pi_nodes s !! a = Some (RbNode pc rt lf) -> Q lf s -> wp (on_tree sel (get_left a)) Q s.
Proof.
  intros Ha HQ. apply wp_on_tree_read. exists lf, (pi_rb s sel). split; [|done].
  unfold get_left, bind, load. simpl. by rewrite Ha.
Qed.

Lemma wp_child_right sel s a pc rt lf (Q : Z -> pi_state -> Prop) :
  pi_nodes s !! a = Some (RbNode pc rt lf) -> Q rt s -> wp (on_tree sel (get_right a)) Q s.
Proof.
  intros Ha HQ. apply wp_on_tree_read. exists rt, (pi_rb s sel). split; [|done].
  unfold get_right, bind, load. simpl. by rewrite Ha.
Qed.

Lemma subtree_in_sub q c l a r s :
  subtree_in q (T c l a r) s -> subtree_in a l s /\ subtree_in a r s.
Proof.
  intros Ht. split; intros b n Hb; apply Ht; simpl; right; apply elem_of_app; auto.
Qed.

Lemma subtree_root q t s :
  subtree_in q t s -> (root_of t =? NULL) = match t with E => true | _ => false end.
Proof.
  intros Ht. destruct t as [|c l a r]; [done|]. apply eqb_neq_false.
  destruct (Ht a _ ltac:(by left)) as (Hok & _). apply Hok.
Qed.

Lemma free_xom_info_node_spec t fuel sel q s :
  subtree_in q t s -> NoDup (inorder t) -> (length (inorder t) < fuel)%nat ->
  wp (free_xom_info_node fuel sel (root_of t)) (fun _ s' => freed (inorder t) s s') s.
Proof.
  revert fuel q s; induction t as [|c l IHl a r IHr]; intros [|fuel] q s Ht Hnd Hf; try (simpl in Hf; lia).
  { apply wp_ret, freed_nil. }
  assert (forall u s', (u = l \/ u = r) -> subtree_in a u s' ->
    wp (if negb (root_of u =? NULL) then free_xom_info_node fuel sel (root_of u) else ret tt)
       (fun _ s'' => freed (inorder u) s' s'') s') as IH.
  { simpl in Hf, Hnd. rewrite length_app in Hf. simpl in Hf. apply NoDup_app in Hnd as (Hl & _ & Hr).
    apply NoDup_cons in Hr as [_ Hr]. intros u s' Hu Hsu.
    destruct (root_of u =? NULL) eqn:Hz; simpl.
    { rewrite (subtree_root _ _ _ Hsu) in Hz. destruct u; [|done]. apply wp_ret, freed_nil. }
    destruct Hu as [-> | ->]; [eapply (IHl fuel)|eapply (IHr fuel)]; eauto; simpl in *; lia. }
  cbn [free_xom_info_node root_of]. pose proof (subtree_root _ _ _ Ht) as Hnz. simpl in Hnz. rewrite Hnz.
  destruct (Ht a _ ltac:(by left)) as (_ & Ha & _).
  simpl in Hnd. apply NoDup_app in Hnd as (_ & Hdis & [Hna _]%NoDup_cons).
  assert (a ∉ inorder l) as Hnl by (intros Hin; apply (Hdis a Hin); by left).
  destruct (subtree_in_sub _ _ _ _ _ _ Ht) as [Htl Htr].
  apply wp_bind. eapply wp_child_left; [done|].
  apply wp_bind. eapply wp_mono; [by apply IH; [left|]|]. intros [] s1 Hf1. cbv beta in Hf1.
  apply wp_bind. eapply wp_child_right; [rewrite (fr_nodes _ _ _ Hf1), decide_False by done; exact Ha|].
  apply wp_bind. eapply wp_mono.
  { apply IH; [by right|]. eapply subtree_in_freed; [done| |done]. intros b Hb Hb'.
    eapply Hdis; [done|by right]. }
  intros [] s2 Hf2. cbv beta in Hf2. pose proof (freed_trans _ _ _ _ _ Hf1 Hf2) as Hf12.
  eapply wp_mono.
  { apply xfree_freed. rewrite (fr_infos _ _ _ Hf12), decide_False; [by apply (Ht a _ ltac:(by left))|].
    rewrite elem_of_app. tauto. }
  intros [] s3 Hf3. eapply freed_perm; [|by eapply freed_trans].
  intros b. simpl. rewrite !elem_of_app, !elem_of_cons. pose proof (not_elem_of_nil b). tauto.
Qed.

Lemma rb_rep_E H : rb_rep H E (RbState H NULL).
Proof.
  split; [|by exists 0%nat; constructor]. split; [done|constructor|constructor| |done].
  intros a n Ha. by apply not_elem_of_nil in Ha.
Qed.

Lemma free_PI s s1 ts m sel :
  PI_trees s [] ts m -> freed (inorder (ts sel)) s s1 ->
  PI_trees (pi_set_rb s1 sel (RbState (pi_nodes s1) NULL)) [] (upd ts sel E) (upd m sel ∅).
Proof.
  intros HPI [Hn Hi Hr].
  destruct (pi_set_rb_simpl s1 sel (RbState (pi_nodes s1) NULL)) as (Hn' & Hi' & Hrb & Hroot).
  assert (forall b, (b ∈ [] \/ exists sel', b ∈ inorder (ts sel')) /\ b ∉ inorder (ts sel) <->
                    b ∈ [] \/ exists sel', b ∈ inorder (upd ts sel E sel')) as Hdom.
  { intros b. split.
    - intros [[Hb|[sel' Hb]] Hnb]; [auto|]. right. exists sel'.
      rewrite upd_ne; [done|]. by intros ->.
    - intros [Hb|[sel' Hb]]; [by apply not_elem_of_nil in Hb|].
      destruct (decide (sel' = sel)) as [->|Hne]; [rewrite upd_eq in Hb; by apply not_elem_of_nil in Hb|].
      rewrite upd_ne in Hb by done. split; [eauto|]. intros Hb'.
      by apply Hne, (pi_disj _ _ _ _ HPI _ _ b). }
  split.
  - intros sel'. destruct (decide (sel' = sel)) as [->|Hne].
    + rewrite !upd_eq. split; rewrite ?Hrb, ?Hn'; [apply rb_rep_E|constructor|..].
      * intros b Hb. by apply not_elem_of_nil in Hb.
      * intros g i. rewrite lookup_empty. split; [done|]. intros (b & Hb & _).
        by apply not_elem_of_nil in Hb.
    + rewrite !upd_ne by done. eapply tree_rep_frame; [by apply (pi_reps _ _ _ _ HPI)|by rewrite Hroot|].
      intros b Hb. rewrite Hn', Hi'. simpl. rewrite Hn, Hi. rewrite !decide_False; [done|..];
        intros Hb'; by apply Hne, (pi_disj _ _ _ _ HPI _ _ b).
  - intros s1' s2' b. unfold upd. repeat case_decide; simplify_eq; [done|..];
      try (intros Hb Hb'; by apply not_elem_of_nil in Hb || by apply not_elem_of_nil in Hb').
    apply (pi_disj _ _ _ _ HPI).
  - intros sel' b Hb. by apply not_elem_of_nil in Hb.
  - intros b. rewrite <-Hdom, <-(pi_dom_nodes _ _ _ _ HPI), Hn'. simpl. rewrite Hn.
    case_decide; [split; [by intros []|tauto]|tauto].
  - intros b. rewrite <-Hdom, <-(pi_dom_infos _ _ _ _ HPI), Hi', Hi.
    case_decide; [split; [by intros []|tauto]|tauto].
Qed.

Lemma free_xom_info_spec s m sel :
  PI s m -> wp (free_xom_info sel) (fun _ s' => PI s' (upd m sel ∅)) s.
Proof.
  intros [ts HPI]. pose proof (pi_reps _ _ _ _ HPI sel) as Htr.
  pose proof (rep_st _ _ _ (tr_rep _ _ _ _ Htr)) as Hst.
  assert (subtree_in 0 (ts sel) s) as Hsub.
  { intros a n Ha. split; [by eapply st_nonnull|]. split; [by apply (st_look _ _ _ _ Hst)|].
    apply Htr. by eapply nodes_inorder. }
  unfold free_xom_info. apply wp_bind, wp_get.
  rewrite (st_root _ _ _ _ Hst : pi_root s sel = _). apply wp_bind.
  eapply (wp_mono _ (fun _ s' => freed (inorder (ts sel)) s s')).
  { rewrite (subtree_root _ _ _ Hsub). destruct (ts sel) as [|c l a r] eqn:Ht; [apply wp_ret, freed_nil|].
    rewrite <-Ht in *. cbn [negb]. eapply free_xom_info_node_spec; [done|..].
    - rewrite <-nodes_fst. apply Hst.
    - rewrite <-(nodes_fst 0), length_fmap. by eapply tree_rep_size. }
  intros [] s1 Hfr. apply wp_on_tree, wp_modify. exists (upd ts sel E).
  by eapply free_PI.
Qed.

(** ** The beginning and the end of the trees *)

Lemma PI_fresh n : PI (PiState ∅ ∅ NULL NULL n) (fun _ => ∅).
Proof.
  exists (fun _ => E). split.
  - intros sel. split; [destruct sel; apply rb_rep_E|constructor|..].
    + intros a Ha. by apply not_elem_of_nil in Ha.
    + intros g i. rewrite lookup_empty. split; [done|].
      intros (a & Ha & _). by apply not_elem_of_nil in Ha.
  - intros s1 s2 a Ha. by apply not_elem_of_nil in Ha.
  - intros s a Ha. by apply not_elem_of_nil in Ha.
  - intros a. cbn. rewrite lookup_empty. split; [by intros []|].
    intros [Ha|[s Ha]]; by apply not_elem_of_nil in Ha.
  - intros a. cbn. rewrite lookup_empty. split; [by intros []|].
    intros [Ha|[s Ha]]; by apply not_elem_of_nil in Ha.
Qed.

Lemma PI_empty_heap s :
  PI s (fun _ => ∅) -> pi_nodes s = ∅ /\ pi_infos s = ∅ /\ forall sel, pi_root s sel = NULL.
Proof.
  intros [ts HPI]. assert (forall sel a, a ∉ inorder (ts sel)) as Hnone.
  { intros sel a Ha. pose proof (pi_reps _ _ _ _ HPI sel) as Htr.
    destruct (tr_infos _ _ _ _ Htr a Ha) as [[g i] Hi].
    assert ((∅ : gmap Z Z) !! g = Some i) as Hc by (apply (tr_map _ _ _ _ Htr); by exists a).
    by rewrite lookup_empty in Hc. }
  split; [|split; [|intros sel]].
  3: { rewrite (st_root _ _ _ _ (rep_st _ _ _ (tr_rep _ _ _ _ (pi_reps _ _ _ _ HPI sel)))
         : pi_root s sel = _).
       destruct (ts sel) as [|c l a r] eqn:Ht; [done|]. destruct (Hnone sel a). rewrite Ht.
       cbn [inorder]. rewrite elem_of_app. right. by left. }
  all: apply map_empty; intros a; apply eq_None_not_Some; intros Ha;
    first [apply (pi_dom_nodes _ _ _ _ HPI) in Ha|apply (pi_dom_infos _ _ _ _ HPI) in Ha];
    (destruct Ha as [Ha|[sel Ha]]; [by apply not_elem_of_nil in Ha|by eapply Hnone]).
Qed.

Lemma teardown_spec s m :
  PI s m ->
  wp (do! free_xom_info XomSubpages in free_xom_info XomRegClear)
     (fun _ s' => pi_nodes s' = ∅ /\ pi_infos s' = ∅ /\
        xom_subpages s' = NULL /\ xom_reg_clear_pages s' = NULL) s.
Proof.
  intros HPI. apply wp_bind. eapply wp_mono; [by apply free_xom_info_spec|]. intros [] s1 H1.
  eapply wp_mono; [by apply free_xom_info_spec|]. intros [] s2 H2.
  assert (PI s2 (fun _ => ∅)) as H3 by (eapply PI_ext; [|exact H2]; by intros []).
  destruct (PI_empty_heap _ H3) as (Hn & Hi & Hr).
  split_and!; [done|done|exact (Hr XomSubpages)|exact (Hr XomRegClear)].
Qed.
