(* ===== verification/XomDomain.v ===== *)
(** * The domain state behind the XOM hypercall

    The parts of [struct domain], [struct p2m_domain] and [struct page_info]
    that [xom_seal.c] reads and writes, the primitives it calls on them, and
    the code that its x86 and Arm versions share line by line. *)

From S2P Require Import Prelude RbTree RbSpec RbHeap PageInfo.

(** ** Constants *)

Definition PAGE_SIZE : Z := 4096.
(** [PAGE_SIZE / (sizeof(uint32_t) << 3)] *)
Definition SUBPAGE_SIZE : Z := PAGE_SIZE / Z.shiftl 4 3.
(** [sizeof(xom_subpage_write_info)]: the target byte and the data *)
Definition sizeof_write_info : Z := 1 + SUBPAGE_SIZE.
Definition MAX_SUBPAGES_PER_CMD : Z := (PAGE_SIZE - 1) / sizeof_write_info.

Definition p2m_access_n : Z := 0.
Definition p2m_access_x : Z := 4.
Definition p2m_access_rwx : Z := 7.

Definition REG_CLEAR_TYPE_NONE : Z := 0.
Definition REG_CLEAR_TYPE_VECTOR : Z := 1.
Definition REG_CLEAR_TYPE_FULL : Z := 2.

Definition MMUEXT_MARK_XOM : Z := 21.
Definition MMUEXT_UNMARK_XOM : Z := 22.
Definition MMUEXT_CREATE_XOM_SPAGES : Z := 23.
Definition MMUEXT_WRITE_XOM_SPAGES : Z := 24.
Definition MMUEXT_MARK_REG_CLEAR : Z := 26.

Definition INVALID_GFN : Z := 2 ^ 64 - 1.
Definition INVALID_MFN : Z := 2 ^ 64 - 1.

(** ** The p2m table

    [get_entry] and [set_entry] are function pointers of [struct p2m_domain]
    (EPT or stage-2 code): looking an entry up gives its machine frame, type
    and access right; setting an entry may fail, before the entry is written
    or, when the IOMMU refuses the change, after it.  [get_page_at] is the frame [get_page_from_gfn] finds for a guest frame. *)
Class P2mOps (P : Type) := {
  get_entry : P -> Z -> Z * Z * Z;
  set_entry : P -> Z -> Z -> Z -> Z -> Z * P;
  max_mapped_pfn : P -> Z;
  get_page_at : P -> Z -> option Z
}.

(** Changing the access right of a frame that is not mapped leaves it as it
    is, and such a frame is never execute-only. *)
Class P2mLaws (P : Type) `{P2mOps P} := {
  set_entry_ok : forall p g mfn t a0 a p', get_entry p g = (mfn, t, a0) -> set_entry p g mfn t a = (0, p') ->
    get_entry p' g = (if mfn =? INVALID_MFN then (mfn, t, a0) else (mfn, t, a)) /\
    (forall g', g' <> g -> get_entry p' g' = get_entry p g');
  set_entry_err : forall p g mfn t a0 a rc p', get_entry p g = (mfn, t, a0) -> set_entry p g mfn t a = (rc, p') ->
    rc <> 0 -> rc < 0 /\
    ((forall g', get_entry p' g' = get_entry p g') \/
     (get_entry p' g = (if mfn =? INVALID_MFN then (mfn, t, a0) else (mfn, t, a)) /\
      forall g', g' <> g -> get_entry p' g' = get_entry p g'));
  get_entry_hole : forall p g t a, get_entry p g = (INVALID_MFN, t, a) -> a <> p2m_access_x;
  get_page_at_ok : forall p g mfn, get_page_at p g = Some mfn ->
    mfn <> INVALID_MFN /\ exists t a, get_entry p g = (mfn, t, a)
}.

(** An update that fails changes no entry: it fails before the entry is
    written, and the IOMMU refuses nothing. *)
Class P2mAtomic (P : Type) `{P2mOps P} : Prop :=
  set_entry_atomic : forall p g mfn t a0 a rc p', get_entry p g = (mfn, t, a0) ->
    set_entry p g mfn t a = (rc, p') -> rc <> 0 -> forall g', get_entry p' g' = get_entry p g'.

(** ** State *)

(** [struct page_info] and the contents of its frame: general references,
    type references, whether the current type is [PGT_writable_page]. *)
Record page := Page { pg_data : list Z; pg_count : Z; pg_tcount : Z; pg_writable : bool }.

Record domain (P : Type) := Domain {
  d_is_hvm : bool;
  d_hap_enabled : bool;
  d_p2m : P;
  d_p2m_lock : Z;             (* nesting depth of the p2m lock *)
  d_stale : gset Z;           (* guest frames changed since the last TLB flush *)
  d_pages : gmap Z page;      (* machine frames the domain owns *)
  d_pi : pi_state;            (* xom_subpages and xom_reg_clear_pages *)
  d_xom_page_lock : bool
}.
Arguments Domain {P}.
Arguments d_is_hvm {P}.
Arguments d_hap_enabled {P}.
Arguments d_p2m {P}.
Arguments d_p2m_lock {P}.
Arguments d_stale {P}.
Arguments d_pages {P}.
Arguments d_pi {P}.
Arguments d_xom_page_lock {P}.

Section setters.
Context {P : Type}.

Definition set_p2m (p : P) (stale : gset Z) (d : domain P) : domain P :=
  Domain (d_is_hvm d) (d_hap_enabled d) p (d_p2m_lock d) stale (d_pages d) (d_pi d)
    (d_xom_page_lock d).
Definition set_p2m_lock (n : Z) (d : domain P) : domain P :=
  Domain (d_is_hvm d) (d_hap_enabled d) (d_p2m d) n (d_stale d) (d_pages d) (d_pi d)
    (d_xom_page_lock d).
Definition set_pages (pg : gmap Z page) (d : domain P) : domain P :=
  Domain (d_is_hvm d) (d_hap_enabled d) (d_p2m d) (d_p2m_lock d) (d_stale d) pg (d_pi d)
    (d_xom_page_lock d).
Definition set_pi (s : pi_state) (d : domain P) : domain P :=
  Domain (d_is_hvm d) (d_hap_enabled d) (d_p2m d) (d_p2m_lock d) (d_stale d) (d_pages d) s
    (d_xom_page_lock d).
Definition set_xom_lock (b : bool) (d : domain P) : domain P :=
  Domain (d_is_hvm d) (d_hap_enabled d) (d_p2m d) (d_p2m_lock d) (d_stale d) (d_pages d) (d_pi d) b.
End setters.

(** ** Primitives *)

Section prims.
Context {P : Type} `{P2mOps P}.
Implicit Types d : domain P.

Definition on_pi {A} (m : M pi_state A) : M (domain P) A :=
  fun d => match m (d_pi d) with Some (a, s) => Some (a, set_pi s d) | None => None end.

(** [gfn_lock]/[p2m_write_lock]: the p2m lock nests. *)
Definition p2m_lock : M (domain P) unit := modify (fun d => set_p2m_lock (d_p2m_lock d + 1) d).
Definition p2m_unlock : M (domain P) unit :=
  fun d => if 0 <? d_p2m_lock d then Some (tt, set_p2m_lock (d_p2m_lock d - 1) d) else None.

(** [p2m->tlb_flush(p2m)] / [p2m_tlb_flush_sync(p2m)] *)
Definition tlb_flush : M (domain P) unit := modify (fun d => set_p2m (d_p2m d) ∅ d).

(** [spin_lock]: taking a lock that is held never returns. *)
Definition xom_lock : M (domain P) unit :=
  fun d => if d_xom_page_lock d then None else Some (tt, set_xom_lock true d).
Definition xom_unlock : M (domain P) unit :=
  fun d => if d_xom_page_lock d then Some (tt, set_xom_lock false d) else None.

(** The page of a frame; using a frame the domain does not own is undefined. *)
Definition with_page (mfn : Z) (f : page -> option page) : M (domain P) unit :=
  fun d => match d_pages d !! mfn with
           | Some pg => match f pg with
                        | Some pg' => Some (tt, set_pages (<[mfn := pg']> (d_pages d)) d)
                        | None => None
                        end
           | None => None
           end.

Definition add_ref (pg : page) : option page :=
  Some (Page (pg_data pg) (pg_count pg + 1) (pg_tcount pg) (pg_writable pg)).
Definition drop_ref (pg : page) : option page :=
  if 0 <? pg_count pg
  then Some (Page (pg_data pg) (pg_count pg - 1) (pg_tcount pg) (pg_writable pg)) else None.

(** [get_page_from_gfn(d, gfn, NULL, P2M_ALLOC)]: the frame with a reference
    taken, or [NULL]. *)
Definition get_page_from_gfn (gfn : Z) : M (domain P) (option Z) :=
  let! d := get in
  match get_page_at (d_p2m d) gfn with
  | Some mfn =>
      match d_pages d !! mfn with
      | Some _ => do! with_page mfn add_ref in ret (Some mfn)
      | None => ret None
      end
  | None => ret None
  end.

Definition put_page (mfn : Z) : M (domain P) unit := with_page mfn drop_ref.

(** Reading and writing the frame through [map_domain_page]. *)
Definition read_page (mfn : Z) : M (domain P) (list Z) :=
  fun d => match d_pages d !! mfn with Some pg => Some (pg_data pg, d) | None => None end.
Definition write_page (mfn : Z) (f : list Z -> list Z) : M (domain P) unit :=
  with_page mfn (fun pg => Some (Page (f (pg_data pg)) (pg_count pg) (pg_tcount pg) (pg_writable pg))).
End prims.

(** ** Architecture-specific primitives

    [get_page_type]/[put_page_and_type] for [PGT_writable_page] (Arm does not
    count types), [p2m_set_mem_access_single] for the host p2m, and the value
    of the variable [atype] after the look-up of a frame's entry, given its
    value before: the Arm look-up does not assign it for a frame that is not
    mapped. *)
Class Arch (P : Type) := {
  entry_access : P -> Z -> Z -> Z;
  get_page_type : Z -> M (domain P) bool;
  put_page_and_type : Z -> M (domain P) unit;
  p2m_set_mem_access_single : Z -> Z -> M (domain P) Z
}.

(** ** Sub-page write commands *)

Record xom_subpage_write_info := WriteInfo { target_subpage : Z; data : list Z }.
Record xom_subpage_write_command := WriteCommand {
  num_subpages : Z;
  write_info : list xom_subpage_write_info
}.

(** [memcpy(&command, xom_page, sizeof(command))]: the packed structure at the
    start of the page. *)
Definition info_at (bytes : list Z) (i : nat) : xom_subpage_write_info :=
  let off := (1 + Z.to_nat sizeof_write_info * i)%nat in
  WriteInfo (nth off bytes 0) (take (Z.to_nat SUBPAGE_SIZE) (drop (S off) bytes)).

Definition read_command (bytes : list Z) : xom_subpage_write_command :=
  WriteCommand (nth 0 bytes 0) (map (info_at bytes) (seq 0 (Z.to_nat MAX_SUBPAGES_PER_CMD))).

Definition command_infos (c : xom_subpage_write_command) : list xom_subpage_write_info :=
  take (Z.to_nat (num_subpages c)) (write_info c).

(** [1 << target_subpage] as a [uint32_t] *)
Definition subpage_bit (t : Z) : Z := u32 (Z.shiftl 1 t).

(** The validation loop: [false] is [return -EINVAL]. *)
Definition validate_infos (lock_status : Z) (l : list xom_subpage_write_info) : bool :=
  forallb (fun w => (target_subpage w <? PAGE_SIZE / SUBPAGE_SIZE) &&
                    (Z.land lock_status (subpage_bit (target_subpage w)) =? 0)) l.

(** [memcpy(dst + off, src, length src)] inside a page *)
Definition splice (off : nat) (src dst : list Z) : list Z :=
  take off dst ++ src ++ drop (off + length src) dst.

Lemma splice_length off src dst :
  (off + length src <= length dst)%nat -> length (splice off src dst) = length dst.
Proof. intros. unfold splice. rewrite !length_app, length_take, length_drop. lia. Qed.

(** [memset(xom_page, 0x90, PAGE_SIZE)] *)
Definition nop_page : list Z := repeat 0x90 (Z.to_nat PAGE_SIZE).

Section shared.
Context {P : Type} `{P2mOps P} `{!Arch P}.

(** The execution loop of [write_into_subpage]. *)
Fixpoint execute_infos (mfn subpage_info : Z) (l : list xom_subpage_write_info)
    : M (domain P) unit :=
  match l with
  | [] => ret tt
  | w :: l =>
      do! write_page mfn (splice (Z.to_nat (target_subpage w * SUBPAGE_SIZE)) (data w)) in
      let! e := on_pi (entry subpage_info) in
      do! on_pi (set_info subpage_info
                   (u32 (Z.lor (xpi_info e) (subpage_bit (target_subpage w))))) in
      execute_infos mfn subpage_info l
  end.

(** One iteration of [clear_xom_seal] under the p2m lock, once the entry was
    looked up. *)
Inductive clear_step := ClearSkip | ClearExit (rc : Z) | ClearDone (rc : Z).

Definition clear_page (atype c_gfn : Z) : M (domain P) clear_step :=
  if negb (atype =? p2m_access_x) then ret ClearSkip
  else
    let! page := get_page_from_gfn c_gfn in
    match page with
    | None => ret (ClearExit (- EINVAL))
    | Some mfn =>
        let! typed := get_page_type mfn in
        if negb typed then do! put_page mfn in ret (ClearExit (- EPERM))
        else
          do! write_page mfn (fun _ => nop_page) in
          do! put_page_and_type mfn in
          let! rc := p2m_set_mem_access_single p2m_access_rwx c_gfn in
          ret (ClearDone rc)
    end.

(** The removal of a page's entries from both trees in [clear_xom_seal]. *)
Definition drop_page_infos (c_gfn : Z) : M (domain P) unit :=
  do! on_pi (drop_page_info XomSubpages c_gfn) in
  on_pi (drop_page_info XomRegClear c_gfn).

(** The part of [write_into_subpage] that reads the command of [gfn_src]; the
    caller gives the reference to the page back. *)
Definition fetch_command (gfn_src : Z) : M (domain P) (option (Z * xom_subpage_write_command)) :=
  let! page := get_page_from_gfn gfn_src in
  match page with
  | None => ret None
  | Some mfn =>
      let! bytes := read_page mfn in
      ret (Some (mfn, read_command bytes))
  end.

(** The part of [write_into_subpage] that carries out a validated command. *)
Definition execute_command (gfn_dest subpage_info : Z) (l : list xom_subpage_write_info)
    : M (domain P) Z :=
  let! page := get_page_from_gfn gfn_dest in
  match page with
  | None => ret (- EINVAL)
  | Some mfn =>
      let! typed := get_page_type mfn in
      if negb typed then do! put_page mfn in ret (- EPERM)
      else
        do! execute_infos mfn subpage_info l in
        do! put_page_and_type mfn in
        ret 0
  end.

(** [mark_reg_clear_page], the same on both architectures; the p2m lock is
    taken for reading on Arm.  [atype] is the value of the variable before it
    is assigned. *)
Context `{Xmalloc}.

Definition mark_reg_clear_page (atype gfn reg_clear_type : Z) : M (domain P) Z :=
  if (reg_clear_type =? 0) || (REG_CLEAR_TYPE_FULL <? reg_clear_type) then ret (- EINVAL)
  else
    let! page_info := on_pi (get_page_info_entry XomRegClear gfn) in
    if negb (page_info =? NULL) then ret (- EINVAL)
    else
      do! p2m_lock in
      let! p2m := gets d_p2m in
      let atype := entry_access p2m gfn atype in
      do! p2m_unlock in
      if negb (atype =? p2m_access_x) then ret (- EINVAL)
      else
        let! page_info := on_pi (add_page_info_entry XomRegClear gfn (u8 reg_clear_type)) in
        if page_info =? NULL then ret (- ENOMEM) else ret 0.
End shared.

(** ** What the hypercall reads from the guest *)

(** [struct mmuext_op]: the unions are 64-bit words, [nr_ents] is the low half
    of [arg2]. *)
Record mmuext_op := MmuextOp { cmd : Z; arg1 : Z; arg2 : Z }.
Definition nr_ents (op : mmuext_op) : Z := u32 (arg2 op).

(** [copy_from_guest d i] is the [i]-th element of [uops] as the guest's memory
    holds it in state [d]; [preempt_check i] the answer of
    [hypercall_preempt_check] before the [i]-th operation; [stack_junk i] what
    the memory of the uninitialised variable [atype] holds during it. *)
Record guest (P : Type) := Guest {
  copy_from_guest : domain P -> nat -> option mmuext_op;
  preempt_check : nat -> bool;
  old_guest_table : bool;
  pdone_is_null : bool;
  stack_junk : nat -> Z
}.
Arguments Guest {P}.
Arguments copy_from_guest {P}.
Arguments preempt_check {P}.
Arguments old_guest_table {P}.
Arguments pdone_is_null {P}.
Arguments stack_junk {P}.
