(* ===== verification/XomSpec.v ===== *)
(** * Specifications shared by the x86 and Arm hypercalls

    Views of the domain state, the invariant of a domain, the laws of the
    architecture-specific primitives, and the specifications of the code the
    two versions share. *)

From S2P Require Import Prelude RbTree RbSpec RbHeap PageInfo PageInfoSpec XomDomain.

(** ** Views *)

Lemma length_nop_page : length nop_page = Z.to_nat PAGE_SIZE.
Proof. apply repeat_length. Qed.

Section views.
Context {P : Type} `{P2mOps P}.
Implicit Types d : domain P.

Definition access_of d (g : Z) : Z := (get_entry (d_p2m d) g).2.
Definition frame_of d (g : Z) : Z := (get_entry (d_p2m d) g).1.1.

(** A machine frame is behind the guest frame. *)
Definition mapped d (g : Z) : Prop := frame_of d g <> INVALID_MFN.

(** The guest may execute the frame but neither read nor write it. *)
Definition sealed d (g : Z) : Prop := access_of d g = p2m_access_x.

(** The frame's contents were overwritten with [nop] instructions. *)
Definition wiped d (g : Z) : Prop :=
  exists pg, d_pages d !! frame_of d g = Some pg /\ pg_data pg = nop_page.

Definition data_at d (mfn : Z) : option (list Z) := pg_data <$> d_pages d !! mfn.

Definition bytes_wf (l : list Z) : Prop :=
  length l = Z.to_nat PAGE_SIZE /\ Forall (fun b => 0 <= b < 256) l.

Definition page_wf (pg : page) : Prop :=
  bytes_wf (pg_data pg) /\ 0 <= pg_count pg /\ 0 <= pg_tcount pg.

(** The invariant of a domain between two critical sections; [m] are the
    finite maps its two trees represent. *)
Record dom_inv d (m : root_sel -> gmap Z Z) : Prop := {
  di_pi : PI (d_pi d) m;
  di_pages : forall mfn pg, d_pages d !! mfn = Some pg -> page_wf pg;
  di_lock : 0 <= d_p2m_lock d;
  di_invalid : d_pages d !! INVALID_MFN = None;
  di_words : forall g w, m XomSubpages !! g = Some w -> 0 <= w < 2 ^ 32;
  di_marks : forall g t, m XomRegClear !! g = Some t ->
    t = REG_CLEAR_TYPE_VECTOR \/ t = REG_CLEAR_TYPE_FULL
}.

(** Both states have the same frames with the same references; [R] relates
    the contents. *)
Definition pages_rel (R : list Z -> list Z -> Prop) d d' : Prop :=
  forall mfn, match d_pages d !! mfn, d_pages d' !! mfn with
              | Some pg, Some pg' => pg_count pg' = pg_count pg /\ pg_tcount pg' = pg_tcount pg /\
                                     R (pg_data pg) (pg_data pg')
              | None, None => True
              | _, _ => False
              end.

(** What no operation changes: flags, locks, the frame and type of a guest
    frame. *)
Record same_frame d d' : Prop := {
  sf_hvm : d_is_hvm d' = d_is_hvm d;
  sf_hap : d_hap_enabled d' = d_hap_enabled d;
  sf_lock : d_p2m_lock d' = d_p2m_lock d;
  sf_xom : d_xom_page_lock d' = d_xom_page_lock d;
  sf_map : forall g, (get_entry (d_p2m d') g).1 = (get_entry (d_p2m d) g).1
}.

#[export] Instance same_frame_preorder : PreOrder same_frame.
Proof.
  split; [by split|]. intros d1 d2 d3 [] []. split; intros; etrans; eauto.
Qed.

Lemma same_frame_of d d' g : same_frame d d' -> frame_of d' g = frame_of d g.
Proof. intros Hs. unfold frame_of. by rewrite (sf_map _ _ Hs). Qed.

Lemma same_frame_mapped d d' g : same_frame d d' -> mapped d' g <-> mapped d g.
Proof. intros Hs. unfold mapped. by rewrite (same_frame_of _ _ _ Hs). Qed.

Lemma pages_rel_refl (R : list Z -> list Z -> Prop) d :
  (forall l, R l l) -> pages_rel R d d.
Proof. intros HR mfn. by destruct (d_pages d !! mfn). Qed.

Lemma pages_rel_same (R : list Z -> list Z -> Prop) d d' :
  (forall l, R l l) -> d_pages d' = d_pages d -> pages_rel R d d'.
Proof. intros HR Heq mfn. rewrite Heq. by destruct (d_pages d !! mfn). Qed.

Lemma pages_rel_trans (R : list Z -> list Z -> Prop) d1 d2 d3 :
  (forall l1 l2 l3, R l1 l2 -> R l2 l3 -> R l1 l3) ->
  pages_rel R d1 d2 -> pages_rel R d2 d3 -> pages_rel R d1 d3.
Proof.
  intros HR H1 H2 mfn. specialize (H1 mfn). specialize (H2 mfn).
  destruct (d_pages d1 !! mfn), (d_pages d2 !! mfn), (d_pages d3 !! mfn); try done.
  destruct H1 as (? & ? & ?), H2 as (? & ? & ?). split_and!; [congruence..|eauto].
Qed.

Lemma pages_rel_None (R : list Z -> list Z -> Prop) d d' mfn :
  pages_rel R d d' -> d_pages d !! mfn = None -> d_pages d' !! mfn = None.
Proof. intros Hp Hn. specialize (Hp mfn). rewrite Hn in Hp. by destruct (d_pages d' !! mfn). Qed.

Lemma pages_rel_wf (R : list Z -> list Z -> Prop) d d' :
  pages_rel R d d' -> (forall l l', R l l' -> bytes_wf l -> bytes_wf l') ->
  (forall mfn pg, d_pages d !! mfn = Some pg -> page_wf pg) ->
  forall mfn pg, d_pages d' !! mfn = Some pg -> page_wf pg.
Proof.
  intros Hp HR Hwf mfn pg' Hpg'. specialize (Hp mfn). rewrite Hpg' in Hp.
  destruct (d_pages d !! mfn) as [pg|] eqn:Hpg; [|done].
  destruct (Hwf _ _ Hpg) as (Hl & Hc & Ht), Hp as (Hc' & Ht' & Hr).
  split_and!; [eauto|lia|lia].
Qed.

(** ** Clearing *)

(** Contents either stay or are wiped. *)
Definition kept_or_wiped (l l' : list Z) : Prop := l' = l \/ l' = nop_page.

(** What [clear_xom_seal] may do: a frame loses its seal only if its contents
    are wiped. *)
Record clear_rel d d' : Prop := {
  cr_frame : same_frame d d';
  cr_pages : pages_rel kept_or_wiped d d';
  cr_access : forall g, access_of d' g = access_of d g \/
    (sealed d g /\ access_of d' g = p2m_access_rwx /\ wiped d' g)
}.

Lemma wiped_mono d d' g :
  same_frame d d' -> pages_rel kept_or_wiped d d' -> wiped d g -> wiped d' g.
Proof.
  intros Hs Hp (pg & Hpg & Hd). unfold wiped. rewrite (same_frame_of _ _ _ Hs).
  specialize (Hp (frame_of d g)). rewrite Hpg in Hp.
  destruct (d_pages d' !! frame_of d g) as [pg'|]; [|done].
  exists pg'. split; [done|]. destruct Hp as (_ & _ & [->| ->]); [by rewrite Hd|done].
Qed.

Lemma kept_or_wiped_trans l1 l2 l3 :
  kept_or_wiped l1 l2 -> kept_or_wiped l2 l3 -> kept_or_wiped l1 l3.
Proof. unfold kept_or_wiped. intros [->| ->] [->| ->]; auto. Qed.

#[export] Instance clear_rel_preorder : PreOrder clear_rel.
Proof.
  split.
  - intros d. split; [done|apply pages_rel_refl; by left|by left].
  - intros d1 d2 d3 [F1 P1 A1] [F2 P2 A2]. split; [by etrans| |].
    + eapply pages_rel_trans; eauto using kept_or_wiped_trans.
    + intros g. destruct (A2 g) as [->|(Hs & Hx & Hw)].
      * destruct (A1 g) as [->|(Hs & Hx & Hw)]; [by left|]. right. eauto using wiped_mono.
      * unfold sealed in *. destruct (A1 g) as [Heq|(Hs1 & Hx1 & _)]; [right; rewrite <-Heq; auto|].
        by rewrite Hx1 in Hs.
Qed.
End views.

(** ** The promises of the architecture-specific primitives *)

(** The p2m table after an attempt to give the frame [g] the access right [a]:
    the frame has the new right or its old one, and the new one on success; a
    failing attempt may have come after the change. *)
Definition access_set {P} `{P2mOps P} (d : domain P) (g a rc : Z) (p' : P) : Prop :=
  rc <= 0 /\ (forall g', g' <> g -> get_entry p' g' = get_entry (d_p2m d) g') /\
  (get_entry p' g = ((get_entry (d_p2m d) g).1, a) \/
   (get_entry p' g = get_entry (d_p2m d) g /\ (rc = 0 -> ~ mapped d g))) /\
  (P2mAtomic P -> rc <> 0 -> get_entry p' g = get_entry (d_p2m d) g).

Lemma set_entry_access_set {P} `{P2mOps P, !P2mLaws P} (d : domain P) g mfn t a0 a rc p' :
  get_entry (d_p2m d) g = (mfn, t, a0) -> set_entry (d_p2m d) g mfn t a = (rc, p') ->
  access_set d g a rc p'.
Proof.
  intros He Hs. unfold access_set, mapped, frame_of. rewrite He. cbn.
  assert (forall q : P, get_entry q g = (if mfn =? INVALID_MFN then (mfn, t, a0) else (mfn, t, a)) ->
    get_entry q g = (mfn, t, a) \/ (get_entry q g = (mfn, t, a0) /\ (rc = 0 -> ~ mfn <> INVALID_MFN))) as Hif.
  { intros q. destruct (Z.eqb_spec mfn INVALID_MFN); [right|by left]. split; [done|]. tauto. }
  destruct (decide (rc = 0)) as [->|Hne].
  - destruct (set_entry_ok _ _ _ _ _ _ _ He Hs) as [H1 H2]. split_and!; [done|done|auto|done].
  - destruct (set_entry_err _ _ _ _ _ _ _ _ He Hs Hne) as [H1 H2]. split_and!; [lia|..].
    + destruct H2 as [H2|[_ H2]]; auto.
    + destruct H2 as [H2|[H2 _]]; [right; split; [by rewrite H2, He|by intros ->]|auto].
    + intros Hat _. rewrite (Hat _ _ _ _ _ _ _ _ He Hs Hne). done.
Qed.

Class ArchLaws (P : Type) `{P2mOps P} `{!Arch P} := {
  type_refs : Z;
  type_refs_nonneg : 0 <= type_refs;
  get_page_type_ok : forall (d : domain P) mfn pg,
    d_pages d !! mfn = Some pg -> page_wf pg ->
    wp (get_page_type mfn)
       (fun b d' => if b : bool
          then exists w, d' = set_pages (<[mfn := Page (pg_data pg) (pg_count pg)
                                            (pg_tcount pg + type_refs) w]> (d_pages d)) d
          else d' = d) d;
  put_page_and_type_ok : forall (d : domain P) mfn l c t w,
    d_pages d !! mfn = Some (Page l c (t + type_refs) w) -> 0 < c -> 0 <= t ->
    wp (put_page_and_type mfn)
       (fun _ d' => d' = set_pages (<[mfn := Page l (c - 1) t w]> (d_pages d)) d) d;
  set_mem_access_ok : forall (d : domain P) a g,
    0 < d_p2m_lock d ->
    wp (p2m_set_mem_access_single a g)
       (fun rc d' => exists p' stale, d' = set_p2m p' stale d /\ access_set d g a rc p') d;
  entry_access_ok : forall (d : domain P) g a, mapped d g -> entry_access (d_p2m d) g a = access_of d g
}.

Section rules.
Context {P : Type} `{P2mOps P}.
Implicit Types d : domain P.

Lemma wp_on_pi {A} (m : M pi_state A) (Q : A -> domain P -> Prop) d :
  wp m (fun a s => Q a (set_pi s d)) (d_pi d) -> wp (on_pi m) Q d.
Proof.
  intros (a & s & Hm & HQ). exists a, (set_pi s d). split; [|done]. unfold on_pi. by rewrite Hm.
Qed.

Lemma set_pi_id d : set_pi (d_pi d) d = d.
Proof. by destruct d. Qed.

Lemma d_pages_set ps d : d_pages (set_pages ps d) = ps.
Proof. done. Qed.

Lemma set_pages_set ps ps' d : set_pages ps (set_pages ps' d) = set_pages ps d.
Proof. done. Qed.

Lemma set_pages_id d mfn pg : d_pages d !! mfn = Some pg -> set_pages (<[mfn := pg]> (d_pages d)) d = d.
Proof. intros Hpg. rewrite insert_id by done. by destruct d. Qed.

Lemma wp_with_page mfn f d pg pg' (Q : unit -> domain P -> Prop) :
  d_pages d !! mfn = Some pg -> f pg = Some pg' ->
  Q tt (set_pages (<[mfn := pg']> (d_pages d)) d) -> wp (with_page mfn f) Q d.
Proof.
  intros Hpg Hf HQ. eexists tt, _. split; [|exact HQ]. unfold with_page. by rewrite Hpg, Hf.
Qed.

(** A page with one more general reference. *)
Definition ref1 (pg : page) : page :=
  Page (pg_data pg) (pg_count pg + 1) (pg_tcount pg) (pg_writable pg).

Lemma wp_get_page_from_gfn `{!P2mLaws P} g d (Q : option Z -> domain P -> Prop) :
  Q None d ->
  (forall pg, mapped d g -> d_pages d !! frame_of d g = Some pg ->
     Q (Some (frame_of d g)) (set_pages (<[frame_of d g := ref1 pg]> (d_pages d)) d)) ->
  wp (get_page_from_gfn g) Q d.
Proof.
  intros HN HS. unfold get_page_from_gfn. apply wp_bind, wp_get.
  destruct (get_page_at (d_p2m d) g) as [mfn|] eqn:Hm; [|by apply wp_ret].
  destruct (d_pages d !! mfn) as [pg|] eqn:Hpg; [|by apply wp_ret].
  apply get_page_at_ok in Hm as (Hv & t & a & He).
  assert (frame_of d g = mfn) as Hf by (unfold frame_of; by rewrite He). unfold mapped in HS. rewrite Hf in HS.
  apply wp_bind. eapply wp_with_page; [done|done|]. apply wp_ret. by apply HS.
Qed.

Lemma wp_put_page d mfn pg (Q : unit -> domain P -> Prop) :
  d_pages d !! mfn = Some pg -> page_wf pg -> Q tt d ->
  wp (put_page mfn) Q (set_pages (<[mfn := ref1 pg]> (d_pages d)) d).
Proof.
  intros Hpg (_ & Hc & _) HQ.
  eapply wp_with_page; [simpl; apply lookup_insert_eq| |].
  - unfold drop_ref. simpl. destruct (0 <? pg_count pg + 1) eqn:?; [done|lia].
  - match goal with |- Q tt ?x => replace x with d; [done|] end.
    etrans; [symmetry; by apply (set_pages_id d mfn pg)|]. cbn. rewrite insert_insert_eq.
    unfold set_pages at 2. cbn. unfold set_pages. do 2 f_equal.
    destruct pg; simpl; f_equal; lia.
Qed.

Lemma wp_p2m_lock d (Q : unit -> domain P -> Prop) :
  Q tt (set_p2m_lock (d_p2m_lock d + 1) d) -> wp p2m_lock Q d.
Proof. intros HQ. unfold p2m_lock. by apply wp_modify. Qed.

Lemma wp_p2m_unlock d (Q : unit -> domain P -> Prop) :
  0 < d_p2m_lock d -> Q tt (set_p2m_lock (d_p2m_lock d - 1) d) -> wp p2m_unlock Q d.
Proof.
  intros Hl HQ. eexists tt, _. split; [|exact HQ]. unfold p2m_unlock.
  destruct (0 <? d_p2m_lock d) eqn:?; [done|lia].
Qed.

Lemma wp_tlb_flush d (Q : unit -> domain P -> Prop) :
  Q tt (set_p2m (d_p2m d) ∅ d) -> wp tlb_flush Q d.
Proof. intros HQ. unfold tlb_flush. by apply wp_modify. Qed.
End rules.

Lemma pages_rel_insert {P : Type} `{P2mOps P} (R : list Z -> list Z -> Prop) (d : domain P) mfn pg pg' :
  (forall l, R l l) -> d_pages d !! mfn = Some pg ->
  pg_count pg' = pg_count pg -> pg_tcount pg' = pg_tcount pg -> R (pg_data pg) (pg_data pg') ->
  pages_rel R d (set_pages (<[mfn := pg']> (d_pages d)) d).
Proof.
  intros HR Hpg Hc Ht Hd m. rewrite d_pages_set. destruct (decide (m = mfn)) as [->|].
  - by rewrite Hpg, lookup_insert_eq.
  - rewrite lookup_insert_ne by done. by destruct (d_pages d !! m).
Qed.

Section clear.
Context {P : Type} `{P2mOps P, !P2mLaws P} `{!Arch P, !ArchLaws P}.
Implicit Types d : domain P.

(** Access rights and contents after the body of [clear_xom_seal]'s loop. *)
Definition clear_post d (g : Z) (r : clear_step) d' : Prop :=
  d_pi d' = d_pi d /\ clear_rel d d' /\
  (forall g', g' <> g -> access_of d' g' = access_of d g') /\
  (forall mfn, mfn <> frame_of d g -> data_at d' mfn = data_at d mfn) /\
  match r with
  | ClearSkip => ~ sealed d g /\ data_at d' (frame_of d g) = data_at d (frame_of d g)
  | ClearExit rc => rc < 0 /\ data_at d' (frame_of d g) = data_at d (frame_of d g) /\
      d_p2m d' = d_p2m d
  | ClearDone rc => sealed d g /\ wiped d' g /\ rc <= 0 /\
      (access_of d' g = p2m_access_rwx \/ (rc < 0 /\ sealed d' g)) /\
      (P2mAtomic P -> rc < 0 -> sealed d' g)
  end.

Lemma sealed_mapped d g : sealed d g -> mapped d g.
Proof.
  unfold sealed, access_of, mapped, frame_of. destruct (get_entry _ _) as [[mfn t] a] eqn:He. cbn.
  intros -> ->. by apply get_entry_hole in He.
Qed.

Lemma access_set_frame d g a rc p' stale :
  access_set d g a rc p' -> same_frame d (set_p2m p' stale d).
Proof.
  intros (_ & Ho & Hg & _). split; try done. intros g'. cbn.
  destruct (decide (g' = g)) as [->|Hne]; [|by rewrite Ho]. destruct Hg as [->|[-> _]]; done.
Qed.

(** The page was wiped, and its access right was to be opened. *)
Lemma clear_done d g pg c w rc p' stale :
  sealed d g -> d_pages d !! frame_of d g = Some pg -> c = pg_count pg ->
  let d3 := set_pages (<[frame_of d g := Page nop_page c (pg_tcount pg) w]> (d_pages d)) d in
  access_set d3 g p2m_access_rwx rc p' -> clear_post d g (ClearDone rc) (set_p2m p' stale d3).
Proof.
  intros Hsg Hpg -> d3 Hset. pose proof (access_set_frame _ _ _ _ _ stale Hset) as Hsf.
  destruct Hset as (Hle & Hoth & Hrc & Hat). unfold clear_post.
  assert (pages_rel kept_or_wiped d (set_p2m p' stale d3)) as Hp.
  { eapply pages_rel_trans; [apply kept_or_wiped_trans| |apply pages_rel_same; [by left|done]].
    eapply pages_rel_insert; [by left|done|done|done|by right]. }
  assert (wiped (set_p2m p' stale d3) g) as Hw.
  { unfold wiped. rewrite (same_frame_of _ _ _ Hsf). eexists. cbn. by rewrite lookup_insert_eq. }
  assert (access_of (set_p2m p' stale d3) g = p2m_access_rwx \/ (rc < 0 /\ sealed (set_p2m p' stale d3) g)) as Hacc.
  { unfold sealed, access_of in *. cbn in *. destruct Hrc as [->|[-> Hu]]; [by left|right]. split; [|done].
    destruct (decide (rc = 0)) as [Hz|]; [|lia]. by destruct (Hu Hz (sealed_mapped d g Hsg)). }
  split_and!; [done| |..|done|done|done|done|].
  - split; [by etrans; [|exact Hsf]; split|exact Hp|]. intros g'. destruct (decide (g' = g)) as [->|Hne].
    + destruct Hacc as [?|[_ Hs]]; [by right|left]. unfold sealed in *. congruence.
    + left. unfold access_of. cbn. by rewrite Hoth.
  - intros g' Hne. unfold access_of. cbn. by rewrite Hoth.
  - intros mfn Hne. unfold data_at. cbn. by rewrite lookup_insert_ne.
  - intros Ha Hneg. unfold sealed, access_of. cbn. rewrite Hat; [exact Hsg|done|lia].
Qed.

(** The look-up of [atype] is exact where memory is behind the frame. *)
Lemma clear_page_spec d g a :
  (forall mfn pg, d_pages d !! mfn = Some pg -> page_wf pg) -> 0 < d_p2m_lock d ->
  (mapped d g -> a = access_of d g) -> wp (clear_page a g) (clear_post d g) d.
Proof.
  intros Hwf Hlock Ha. unfold clear_page.
  destruct (Z.eqb_spec a p2m_access_x) as [->|Hx]; simpl.
  2: { apply wp_ret. split_and!; [done|done|done|done| |done]. intros Hs. apply Hx. unfold sealed in Hs.
       rewrite <-Hs. apply Ha. by eapply sealed_mapped. }
  apply wp_bind, wp_get_page_from_gfn.
  { apply wp_ret. split_and!; [done|done|done|done| |done|done]. unfold EINVAL. lia. }
  intros pg Hmap Hpg. assert (sealed d g) as Hsg by (symmetry; by apply Ha).
  destruct (Hwf _ _ Hpg) as (? & ? & ?). set (d1 := set_pages _ d).
  apply wp_bind. eapply wp_mono.
  { apply (get_page_type_ok d1 (frame_of d g) (ref1 pg)); [apply lookup_insert_eq|].
    split_and!; simpl; [done|lia|done]. }
  intros [] d2; simpl.
  2: { intros ->. apply wp_bind, wp_put_page; [done|eauto|]. apply wp_ret.
       split_and!; [done|done|done|done| |done|done]. unfold EPERM. lia. }
  intros [w ->]. unfold d1. clear d1.
  apply wp_bind. eapply wp_with_page; [apply lookup_insert_eq|done|].
  rewrite !d_pages_set, !set_pages_set, insert_insert_eq. cbn [pg_count pg_tcount pg_writable pg_data].
  apply wp_bind. eapply wp_mono.
  { eapply put_page_and_type_ok; [apply lookup_insert_eq|simpl; lia|simpl; done]. }
  intros [] d3 ->. rewrite ?d_pages_set, ?set_pages_set, ?insert_insert_eq.
  apply wp_bind. eapply wp_mono; [apply set_mem_access_ok; done|].
  intros rc d4 (p' & stale & -> & Hset). apply wp_ret. eapply clear_done; [done..|lia|done].
Qed.

Lemma drop_page_infos_spec d m g :
  PI (d_pi d) m ->
  wp (drop_page_infos g)
     (fun _ d' => exists s', d' = set_pi s' d /\ PI s' (fun sel => delete g (m sel))) d.
Proof.
  intros HPI. unfold drop_page_infos. apply wp_bind, wp_on_pi.
  eapply wp_mono; [by eapply drop_page_info_spec|]. intros [] s1 H1. apply wp_on_pi.
  eapply wp_mono; [by eapply drop_page_info_spec|]. intros [] s2 H2. exists s2. split; [done|].
  eapply PI_ext; [|exact H2]. by intros [].
Qed.
End clear.

(** ** Sub-page writes *)

(** The page and the lock word after a list of writes. *)
Definition apply_infos (l : list xom_subpage_write_info) (page : list Z) : list Z :=
  fold_left (fun page w => splice (Z.to_nat (target_subpage w * SUBPAGE_SIZE)) (data w) page) l page.
Definition lock_infos (l : list xom_subpage_write_info) (lock : Z) : Z :=
  fold_left (fun lock w => u32 (Z.lor lock (subpage_bit (target_subpage w)))) l lock.

(** Sub-page [j] of a page. *)
Definition subpage (j : Z) (page : list Z) : list Z :=
  take (Z.to_nat SUBPAGE_SIZE) (drop (Z.to_nat (j * SUBPAGE_SIZE)) page).

Definition info_wf (w : xom_subpage_write_info) : Prop :=
  0 <= target_subpage w < PAGE_SIZE / SUBPAGE_SIZE /\ length (data w) = Z.to_nat SUBPAGE_SIZE.

Lemma subpage_bounds j : 0 <= j < PAGE_SIZE / SUBPAGE_SIZE ->
  (Z.to_nat (j * SUBPAGE_SIZE) + Z.to_nat SUBPAGE_SIZE <= Z.to_nat PAGE_SIZE)%nat.
Proof. change (PAGE_SIZE / SUBPAGE_SIZE) with 32. change SUBPAGE_SIZE with 128. change PAGE_SIZE with 4096. lia. Qed.

Lemma subpage_splice_eq j src page :
  0 <= j < PAGE_SIZE / SUBPAGE_SIZE -> length src = Z.to_nat SUBPAGE_SIZE ->
  length page = Z.to_nat PAGE_SIZE ->
  subpage j (splice (Z.to_nat (j * SUBPAGE_SIZE)) src page) = src.
Proof.
  intros Hj Hs Hp. pose proof (subpage_bounds j Hj). unfold subpage, splice.
  rewrite drop_app_length' by (rewrite length_take; lia).
  by rewrite take_app_length'.
Qed.

Lemma subpage_splice_ne j j' src page :
  0 <= j < PAGE_SIZE / SUBPAGE_SIZE -> 0 <= j' < PAGE_SIZE / SUBPAGE_SIZE -> j <> j' ->
  length src = Z.to_nat SUBPAGE_SIZE -> length page = Z.to_nat PAGE_SIZE ->
  subpage j (splice (Z.to_nat (j' * SUBPAGE_SIZE)) src page) = subpage j page.
Proof.
  intros Hj Hj' Hne Hs Hp. apply list_eq. intros i. unfold subpage, splice.
  change (PAGE_SIZE / SUBPAGE_SIZE) with 32 in *. change SUBPAGE_SIZE with 128 in *.
  change PAGE_SIZE with 4096 in *.
  destruct (decide (i < Z.to_nat 128)%nat); [|rewrite !lookup_take_ge by lia; done].
  rewrite !lookup_take_lt, !lookup_drop by lia.
  destruct (decide (j < j')).
  - rewrite lookup_app_l by (rewrite length_take; lia). by rewrite lookup_take_lt by lia.
  - rewrite lookup_app_r by (rewrite length_take; lia).
    rewrite lookup_app_r by (rewrite length_take, Hs; lia).
    rewrite lookup_drop, length_take, Hs. f_equal. lia.
Qed.

Lemma apply_infos_length l page :
  Forall info_wf l -> length page = Z.to_nat PAGE_SIZE ->
  length (apply_infos l page) = Z.to_nat PAGE_SIZE.
Proof.
  intros Hl. revert page. induction Hl as [|w l [Ht Hd] Hl IH]; intros page Hp; [done|].
  simpl. apply IH. rewrite splice_length; [done|]. pose proof (subpage_bounds _ Ht). lia.
Qed.

(** A sub-page that is not a target keeps its contents. *)
Lemma apply_infos_other l page j :
  Forall info_wf l -> length page = Z.to_nat PAGE_SIZE -> 0 <= j < PAGE_SIZE / SUBPAGE_SIZE ->
  Forall (fun w => target_subpage w <> j) l ->
  subpage j (apply_infos l page) = subpage j page.
Proof.
  intros Hl Hp Hj. revert page Hp. induction Hl as [|w l [Ht Hd] Hl IH]; intros page Hp Hne; [done|].
  apply Forall_cons in Hne as [Hne Hnes]. simpl. rewrite IH; [|..|done].
  - apply subpage_splice_ne; auto.
  - rewrite splice_length; [done|]. pose proof (subpage_bounds _ Ht). lia.
Qed.

(** The last write to a sub-page determines its contents. *)
Lemma apply_infos_target l1 w l2 page :
  Forall info_wf (l1 ++ w :: l2) -> length page = Z.to_nat PAGE_SIZE ->
  Forall (fun w' => target_subpage w' <> target_subpage w) l2 ->
  subpage (target_subpage w) (apply_infos (l1 ++ w :: l2) page) = data w.
Proof.
  intros [Hl1 [[Ht Hd] Hl2]%Forall_cons]%Forall_app Hp Hne.
  unfold apply_infos. rewrite fold_left_app. simpl. fold (apply_infos l1 page).
  pose proof (apply_infos_length _ _ Hl1 Hp) as Hlen.
  rewrite (apply_infos_other l2); [by apply subpage_splice_eq|done| |done|done].
  rewrite splice_length; [done|]. pose proof (subpage_bounds _ Ht). lia.
Qed.

(** *** Lock bits *)

Lemma subpage_bit_pow t : 0 <= t < 32 -> subpage_bit t = 2 ^ t.
Proof.
  intros Ht. unfold subpage_bit, u32. rewrite Z.shiftl_1_l, Z.mod_small; [done|].
  split; [lia|]. apply Z.pow_lt_mono_r; lia.
Qed.

Lemma subpage_bit_testbit t j : 0 <= t < 32 -> 0 <= j -> Z.testbit (subpage_bit t) j = (t =? j).
Proof.
  intros Ht Hj. rewrite subpage_bit_pow by done.
  destruct (Z.eqb_spec t j) as [->|Hne]; [apply Z.pow2_bits_true; lia|apply Z.pow2_bits_false; lia].
Qed.

Lemma land_subpage_bit lock t :
  0 <= t < 32 -> (Z.land lock (subpage_bit t) =? 0) = negb (Z.testbit lock t).
Proof.
  intros Ht. rewrite subpage_bit_pow by done.
  rewrite <-Z.shiftl_1_l. destruct (Z.testbit lock t) eqn:Hb; simpl.
  - apply Z.eqb_neq. intros H0. apply (f_equal (fun z => Z.testbit z t)) in H0. cbv beta in H0.
    rewrite Z.land_spec, Hb, Z.shiftl_1_l, Z.pow2_bits_true, Z.bits_0 in H0 by lia. done.
  - apply Z.eqb_eq, Z.bits_inj'. intros i Hi. rewrite Z.land_spec, Z.bits_0, Z.shiftl_1_l.
    destruct (Z.eqb_spec t i) as [->|]; [by rewrite Hb|]. by rewrite Z.pow2_bits_false, andb_false_r by lia.
Qed.

Lemma bits_lt_pow2 x n : 0 <= x -> 0 <= n -> (forall j, n <= j -> Z.testbit x j = false) -> x < 2 ^ n.
Proof.
  intros Hx Hn Hb. destruct (decide (x = 0)) as [->|]; [lia|]. apply Z.log2_lt_pow2; [lia|].
  destruct (Z.le_gt_cases n (Z.log2 x)) as [Hle|]; [|done].
  pose proof (Hb _ Hle) as H0. rewrite Z.bit_log2 in H0 by lia. done.
Qed.

Lemma pow2_bits_lt x n j : 0 <= x < 2 ^ n -> 0 <= n <= j -> Z.testbit x j = false.
Proof.
  intros Hx Hn. destruct (decide (x = 0)) as [->|]; [apply Z.bits_0|].
  apply Z.bits_above_log2; [lia|]. apply Z.log2_lt_pow2; [lia|].
  eapply Z.lt_le_trans; [apply Hx|]. apply Z.pow_le_mono_r; lia.
Qed.

Lemma lor_u32 x y : 0 <= x < 2 ^ 32 -> 0 <= y < 2 ^ 32 -> u32 (Z.lor x y) = Z.lor x y.
Proof.
  intros Hx Hy. apply Z.mod_small. split; [apply Z.lor_nonneg; lia|].
  apply bits_lt_pow2; [apply Z.lor_nonneg; lia|lia|]. intros j Hj.
  rewrite Z.lor_spec, !(pow2_bits_lt _ 32) by lia. done.
Qed.

Lemma subpage_bit_range t : 0 <= subpage_bit t < 2 ^ 32.
Proof. apply Z.mod_pos_bound. lia. Qed.

Lemma lock_infos_range l lock : 0 <= lock < 2 ^ 32 -> 0 <= lock_infos l lock < 2 ^ 32.
Proof.
  revert lock. induction l as [|w l IH]; intros lock Hr; [done|].
  simpl. apply IH. apply Z.mod_pos_bound. lia.
Qed.

(** A sub-page is locked afterwards if it was before or was written. *)
Lemma lock_infos_spec l lock j :
  Forall info_wf l -> 0 <= lock < 2 ^ 32 -> 0 <= j ->
  Z.testbit (lock_infos l lock) j = Z.testbit lock j || existsb (fun w => target_subpage w =? j) l.
Proof.
  intros Hl Hr Hj. revert lock Hr. induction Hl as [|w l [Ht Hd] Hl IH]; intros lock Hr; simpl.
  { by rewrite orb_false_r. }
  change (PAGE_SIZE / SUBPAGE_SIZE) with 32 in Ht.
  rewrite IH by (apply Z.mod_pos_bound; lia).
  rewrite lor_u32 by (done || apply subpage_bit_range).
  rewrite Z.lor_spec, subpage_bit_testbit by lia. by rewrite orb_assoc.
Qed.

Lemma validate_infos_spec lock l :
  validate_infos lock l = true -> Forall (fun w => 0 <= target_subpage w) l ->
  Forall (fun w => target_subpage w < PAGE_SIZE / SUBPAGE_SIZE /\
                   Z.testbit lock (target_subpage w) = false) l.
Proof.
  unfold validate_infos. intros Hv Hnn. rewrite forallb_forall in Hv.
  apply Forall_forall. intros w Hw. rewrite Forall_forall in Hnn. specialize (Hnn _ Hw).
  apply list_elem_of_In in Hw. apply Hv, andb_prop in Hw as [Ht Hb].
  assert (target_subpage w < PAGE_SIZE / SUBPAGE_SIZE) as Hlt by lia. split; [done|].
  change (PAGE_SIZE / SUBPAGE_SIZE) with 32 in Hlt.
  rewrite land_subpage_bit in Hb by lia. by destruct (Z.testbit lock (target_subpage w)).
Qed.

(** *** Commands *)

Lemma nth_byte bytes i : Forall (fun b => 0 <= b < 256) bytes -> 0 <= nth i bytes 0 < 256.
Proof.
  intros Hb. destruct (nth_in_or_default i bytes 0) as [Hin| ->]; [|lia].
  rewrite Forall_forall in Hb. apply list_elem_of_In in Hin. by apply Hb.
Qed.

Lemma read_command_wf bytes :
  bytes_wf bytes -> num_subpages (read_command bytes) <= MAX_SUBPAGES_PER_CMD ->
  Forall (fun w => 0 <= target_subpage w < 256 /\ length (data w) = Z.to_nat SUBPAGE_SIZE /\
                   Forall (fun b => 0 <= b < 256) (data w)) (command_infos (read_command bytes)).
Proof.
  intros [Hlen Hb] _. apply Forall_take, Forall_forall. intros w Hw.
  apply list_elem_of_In, in_map_iff in Hw as (i & <- & Hi%in_seq). simpl.
  change (Z.to_nat MAX_SUBPAGES_PER_CMD) with 31%nat in Hi.
  change (Z.to_nat sizeof_write_info) with 129%nat. change (Z.to_nat SUBPAGE_SIZE) with 128%nat.
  change (Z.to_nat PAGE_SIZE) with 4096%nat in Hlen. split_and!.
  - by apply nth_byte.
  - by apply nth_byte.
  - rewrite length_take, length_drop. lia.
  - by apply Forall_take, Forall_drop.
Qed.

Lemma splice_bytes off src dst :
  Forall (fun b => 0 <= b < 256) src -> Forall (fun b => 0 <= b < 256) dst ->
  Forall (fun b => 0 <= b < 256) (splice off src dst).
Proof. intros. unfold splice. rewrite !Forall_app. auto using Forall_take, Forall_drop. Qed.

Lemma apply_infos_bytes l page :
  Forall info_wf l -> Forall (fun w => Forall (fun b => 0 <= b < 256) (data w)) l ->
  bytes_wf page -> bytes_wf (apply_infos l page).
Proof.
  intros Hl Hd [Hp Hb]. split; [by apply apply_infos_length|].
  clear Hl Hp. revert page Hb. induction Hd as [|w l Hw Hd IH]; intros page Hb; [done|].
  simpl. apply IH. by apply splice_bytes.
Qed.

Section write.
Context {P : Type} `{P2mOps P, !P2mLaws P} `{!Arch P, !ArchLaws P}.
Implicit Types d : domain P.

Lemma execute_infos_spec l d m g i p mfn pg :
  m XomSubpages !! g = Some i -> entry_at (d_pi d) XomSubpages m g p ->
  d_pages d !! mfn = Some pg ->
  wp (execute_infos mfn p l)
     (fun _ d' => exists s', PI s' (upd m XomSubpages (<[g := lock_infos l i]> (m XomSubpages))) /\
        d' = set_pages (<[mfn := Page (apply_infos l (pg_data pg)) (pg_count pg) (pg_tcount pg)
                                      (pg_writable pg)]> (d_pages d)) (set_pi s' d)) d.
Proof.
  revert d m i pg. induction l as [|w l IH]; intros d m i pg Hm He Hpg.
  - apply wp_ret. exists (d_pi d). split.
    + unfold entry_at in He. rewrite Hm in He. destruct He as (_ & _ & ts & HPI & _).
      eapply PI_ext; [|by exists ts]. intros sel. simpl.
      destruct (decide (sel = XomSubpages)) as [->|]; [by rewrite upd_eq, insert_id|by rewrite upd_ne].
    + simpl. rewrite set_pi_id. symmetry. apply set_pages_id. by destruct pg.
  - simpl. apply wp_bind. eapply wp_with_page; [done|done|].
    set (d1 := set_pages _ d).
    pose proof He as He0. unfold entry_at in He0. rewrite Hm in He0. destruct He0 as (_ & Hi & _).
    apply wp_bind, wp_on_pi. eapply wp_entry; [exact Hi|]. rewrite set_pi_id. cbn [xpi_info].
    apply wp_bind, wp_on_pi. eapply wp_mono; [by eapply set_info_spec|].
    intros [] s1 [HPI1 He1]. cbv beta.
    eapply wp_mono.
    { eapply (IH (set_pi s1 d1)); [|exact He1|].
      - by rewrite upd_eq, lookup_insert_eq.
      - unfold d1. apply lookup_insert_eq. }
    intros [] d2 (s2 & HPI2 & ->). exists s2. split.
    + eapply PI_ext; [|exact HPI2]. intros []; simpl; [|done].
      rewrite !upd_eq. by rewrite insert_insert_eq.
    + unfold d1. cbn. by rewrite insert_insert_eq.
Qed.

Lemma fetch_command_spec d g :
  (forall mfn pg, d_pages d !! mfn = Some pg -> page_wf pg) ->
  wp (fetch_command g)
     (fun r d' => match r with
        | None => d' = d
        | Some (mfn, c) => exists pg, mfn = frame_of d g /\ d_pages d !! mfn = Some pg /\
            c = read_command (pg_data pg) /\ d' = set_pages (<[mfn := ref1 pg]> (d_pages d)) d
        end) d.
Proof.
  intros Hwf. unfold fetch_command. apply wp_bind, wp_get_page_from_gfn; [by apply wp_ret|].
  intros pg _ Hpg. apply wp_bind. eexists _, _. split.
  { unfold read_page. rewrite d_pages_set, lookup_insert_eq. done. }
  apply wp_ret. eauto.
Qed.

Lemma execute_command_spec d m g i p l :
  (forall mfn pg, d_pages d !! mfn = Some pg -> page_wf pg) ->
  m XomSubpages !! g = Some i -> entry_at (d_pi d) XomSubpages m g p ->
  wp (execute_command g p l)
     (fun rc d' => (rc < 0 /\ d' = d) \/
        (rc = 0 /\ exists pg w s', d_pages d !! frame_of d g = Some pg /\
           PI s' (upd m XomSubpages (<[g := lock_infos l i]> (m XomSubpages))) /\
           d' = set_pages (<[frame_of d g := Page (apply_infos l (pg_data pg)) (pg_count pg)
                                                  (pg_tcount pg) w]> (d_pages d)) (set_pi s' d))) d.
Proof.
  intros Hwf Hm He. unfold execute_command.
  apply wp_bind, wp_get_page_from_gfn; [apply wp_ret; left; split; [unfold EINVAL; lia|done]|].
  intros pg _ Hpg. set (mfn := frame_of d g) in *. destruct (Hwf _ _ Hpg) as (Hb & Hc & Ht).
  apply wp_bind. eapply wp_mono.
  { apply (get_page_type_ok _ mfn (ref1 pg)); [apply lookup_insert_eq|]. split_and!; simpl; [apply Hb..|lia|done]. }
  intros [] d2; simpl.
  2: { intros ->. apply wp_bind, wp_put_page; [done|eauto|]. apply wp_ret. left.
       split; [unfold EPERM; lia|done]. }
  intros [w ->]. rewrite ?d_pages_set, ?set_pages_set, ?insert_insert_eq.
  apply wp_bind. eapply wp_mono.
  { eapply execute_infos_spec; [done|exact He|]. apply lookup_insert_eq. }
  intros [] d3 (s' & HPI & ->). rewrite ?d_pages_set, ?insert_insert_eq.
  cbn [pg_data pg_count pg_tcount pg_writable].
  apply wp_bind. eapply wp_mono.
  { eapply put_page_and_type_ok; [apply lookup_insert_eq|lia|done]. }
  intros [] d4 ->. apply wp_ret. right. split; [done|]. exists pg, w, s'. split_and!; [done..|].
  rewrite ?d_pages_set, ?set_pages_set, ?insert_insert_eq.
  replace (pg_count pg + 1 - 1) with (pg_count pg) by lia. done.
Qed.
End write.

(** ** Sealing *)

(** The frames an operation on [n] pages from [g] walks over. *)
Fixpoint gfns (n : nat) (g : Z) : list Z :=
  match n with O => [] | S n => g :: gfns n (u64 (g + 1)) end.

Section seal.
Context {P : Type} `{P2mOps P}.
Implicit Types d : domain P.

(** Only access rights change, only towards execute-only, only inside [R]. *)
Record seal_rel (R : list Z) d d' : Prop := {
  sr_frame : same_frame d d';
  sr_pages : d_pages d' = d_pages d;
  sr_access : forall g, access_of d' g = access_of d g \/ (g ∈ R /\ sealed d' g)
}.

Lemma seal_rel_refl R d : seal_rel R d d.
Proof. split; [done|done|by left]. Qed.

Lemma seal_rel_trans R1 R2 R d1 d2 d3 :
  seal_rel R1 d1 d2 -> seal_rel R2 d2 d3 -> R1 ⊆ R -> R2 ⊆ R -> seal_rel R d1 d3.
Proof.
  intros [F1 P1 A1] [F2 P2 A2] H1 H2. split; [by etrans|congruence|].
  intros g. destruct (A2 g) as [Heq|[Hin Hs]]; [|right; split; auto].
  destruct (A1 g) as [Heq'|[Hin Hs]]; [left; congruence|].
  right. split; [auto|]. unfold sealed in *. congruence.
Qed.

Lemma sealed_mono R d d' g : seal_rel R d d' -> sealed d g -> sealed d' g.
Proof.
  intros [_ _ A] Hs. destruct (A g) as [Heq|[_ ?]]; [|done]. unfold sealed in *. congruence.
Qed.

(** The same relations across a critical section of the p2m lock. *)
Lemma seal_rel_locked R d d' :
  seal_rel R (set_p2m_lock (d_p2m_lock d + 1) d) d' ->
  seal_rel R d (set_p2m_lock (d_p2m_lock d' - 1) d').
Proof.
  intros [[] Hp Ha]. cbn in *. split; [split; cbn; try done; lia|done|exact Ha].
Qed.

Lemma clear_rel_locked d d' :
  clear_rel (set_p2m_lock (d_p2m_lock d + 1) d) d' ->
  clear_rel d (set_p2m_lock (d_p2m_lock d' - 1) d').
Proof.
  intros [[] Hp Ha]. cbn in *. split; [split; cbn; try done; lia|exact Hp|exact Ha].
Qed.

Context `{!P2mLaws P} `{!Arch P, !ArchLaws P}.

Lemma seal_page_spec d c :
  0 < d_p2m_lock d ->
  wp (p2m_set_mem_access_single p2m_access_x c)
     (fun rc d' => seal_rel [c] d d' /\ d_pi d' = d_pi d /\ rc <= 0 /\ (rc = 0 -> mapped d c -> sealed d' c)) d.
Proof.
  intros Hl. eapply wp_mono; [by apply set_mem_access_ok|].
  intros rc d' (p' & stale & -> & Hset). pose proof (access_set_frame _ _ _ _ _ stale Hset) as Hsf.
  destruct Hset as (Hle & Hother & Hrc & _). split_and!; [|done|done|].
  - split; [done|done|]. intros g. unfold sealed, access_of. cbn.
    destruct (decide (g = c)) as [->|Hne]; [|left; by rewrite Hother].
    destruct Hrc as [Hrc|[Hrc _]]; rewrite Hrc; [right|by left]. split; [by left|done].
  - intros -> Hm. destruct Hrc as [Hrc|[_ Hu]]; [|by destruct (Hu eq_refl)]. unfold sealed, access_of. cbn. by rewrite Hrc.
Qed.
End seal.

(** ** What an operation may do to a domain *)

Section op.
Context {P : Type} `{P2mOps P}.
Implicit Types d : domain P.

Lemma clear_rel_pi d d' s : clear_rel d d' -> clear_rel d (set_pi s d').
Proof. intros [[] Hp Ha]. by repeat split. Qed.

Lemma kept_or_wiped_wf l l' : kept_or_wiped l l' -> bytes_wf l -> bytes_wf l'.
Proof.
  intros [->| ->]; [done|]. intros _. split; [apply length_nop_page|].
  apply Forall_forall. intros b Hb. apply list_elem_of_In, repeat_spec in Hb. lia.
Qed.

Lemma dom_inv_clear d d' m : dom_inv d m -> clear_rel d d' -> d_pi d' = d_pi d -> dom_inv d' m.
Proof.
  intros [Hpi Hpg Hl Hi Hw Hmk] [[] Hp _] Heq. split; [by rewrite Heq| |lia| |done|done].
  - eapply pages_rel_wf; [exact Hp|apply kept_or_wiped_wf|done].
  - by eapply pages_rel_None.
Qed.

(** The two maps only lose entries, of frames in [R] that were wiped. *)
Definition infos_cleared (R : list Z) d' (m m' : root_sel -> gmap Z Z) : Prop :=
  forall sel g, m' sel !! g = m sel !! g \/ (g ∈ R /\ wiped d' g /\ m' sel !! g = None).

(** Contents only change by being wiped. *)
Definition data_cleared d d' : Prop :=
  forall mfn, data_at d' mfn = data_at d mfn \/ exists c, frame_of d c = mfn /\ wiped d' c.

Lemma dom_inv_seal R d d' m : dom_inv d m -> seal_rel R d d' -> d_pi d' = d_pi d -> dom_inv d' m.
Proof. intros [Hpi Hpg Hl Hi Hw Hmk] [[] Hp _] Heq. split; [by rewrite Heq|by rewrite Hp|lia|by rewrite Hp|done|done]. Qed.

Lemma seal_rel_pi R d d' s : seal_rel R d d' -> seal_rel R d (set_pi s d').
Proof. intros [[] Hp Ha]. by repeat split. Qed.

(** The sub-page map gains unlocked entries for frames of [R] that were not
    sealed. *)
Definition infos_created (R : list Z) d (m m' : root_sel -> gmap Z Z) : Prop :=
  m' XomRegClear = m XomRegClear /\
  forall g, m' XomSubpages !! g = m XomSubpages !! g \/
    (g ∈ R /\ ~ sealed d g /\ m XomSubpages !! g = None /\ m' XomSubpages !! g = Some 0).

Lemma infos_created_refl R d m : infos_created R d m m.
Proof. split; [done|by left]. Qed.

(** A frame that lost its seal lost its entries in both maps. *)
Definition seals_cleared d d' (m' : root_sel -> gmap Z Z) : Prop :=
  forall g, sealed d g -> sealed d' g \/ forall sel, m' sel !! g = None.

(** Every registered frame with memory behind it is sealed. *)
Definition reg_sealed d (m : root_sel -> gmap Z Z) : Prop :=
  forall sel g, is_Some (m sel !! g) -> mapped d g -> sealed d g.

(** No machine frame of the domain appears at two guest frames. *)
Definition frame_inj d : Prop :=
  forall g1 g2, is_Some (d_pages d !! frame_of d g1) -> frame_of d g1 = frame_of d g2 -> g1 = g2.

(** Sub-page [j] of guest frame [g] has been written and locked. *)
Definition locked (m : root_sel -> gmap Z Z) (g j : Z) : Prop :=
  exists w, m XomSubpages !! g = Some w /\ Z.testbit w j = true.

(** What every operation of the hypercall guarantees. *)
Record op_rel d (m : root_sel -> gmap Z Z) d' (m' : root_sel -> gmap Z Z) : Prop := {
  or_frame : same_frame d d';
  or_inv : dom_inv d' m';
  (* references to pages are given back *)
  or_pages : pages_rel (fun _ _ => True) d d';
  (* a seal is only lifted from a wiped page *)
  or_access : forall g, access_of d' g = access_of d g \/ sealed d' g \/
    (sealed d g /\ access_of d' g = p2m_access_rwx /\ wiped d' g);
  (* contents change by wiping a page or writing sub-pages of a registered one *)
  or_data : forall mfn, data_at d' mfn = data_at d mfn \/ data_at d' mfn = Some nop_page \/
    exists g, frame_of d g = mfn /\ is_Some (m XomSubpages !! g);
  (* a locked sub-page is never written again, only wiped with its page *)
  or_locked : forall g j pg, frame_inj d -> 0 <= j < PAGE_SIZE / SUBPAGE_SIZE -> locked m g j ->
    d_pages d !! frame_of d g = Some pg ->
    (forall w', m' XomSubpages !! g = Some w' -> Z.testbit w' j = true) /\
    (wiped d' g \/
     (locked m' g j /\ exists pg', d_pages d' !! frame_of d g = Some pg' /\
        subpage j (pg_data pg') = subpage j (pg_data pg)));
  (* a sealed frame is not registered for sub-page writes *)
  or_new : forall g, sealed d g -> m XomSubpages !! g = None -> m' XomSubpages !! g = None;
  (* a register-clear mark lasts until the page is wiped *)
  or_marks : forall g t, m XomRegClear !! g = Some t ->
    m' XomRegClear !! g = Some t \/ (wiped d' g /\ m' XomRegClear !! g = None);
  (* no stale translation is left *)
  or_stale : d_stale d = ∅ -> d_stale d' = ∅
}.

Lemma locked_kept m g j w : locked m g j -> m XomSubpages !! g = Some w -> Z.testbit w j = true.
Proof. intros (w' & Hw & ?) Hw'. congruence. Qed.

Lemma op_rel_refl d m : dom_inv d m -> op_rel d m d m.
Proof.
  intros Hinv. split; try done; [by apply pages_rel_refl|by left|by left| |by left].
  intros g j pg _ _ Hl Hpg. split; [intros w'; by apply locked_kept|right; eauto].
Qed.

Lemma seal_op_rel R d d' m m' :
  seal_rel R d d' -> dom_inv d' m' -> infos_created R d m m' -> (d_stale d = ∅ -> d_stale d' = ∅) ->
  op_rel d m d' m'.
Proof.
  intros [Hf Hp Ha] Hinv [Hreg Hsub] Hst. split; try done.
  - by apply pages_rel_same.
  - intros g. destruct (Ha g) as [?|[_ ?]]; auto.
  - intros mfn. left. unfold data_at. by rewrite Hp.
  - intros g j pg _ _ Hl Hpg. assert (m' XomSubpages !! g = m XomSubpages !! g) as Hg.
    { destruct (Hsub g) as [->|(_ & _ & Hn & _)]; [done|]. destruct Hl as (? & ? & _). congruence. }
    unfold locked. rewrite Hg. split; [intros w'; by apply locked_kept|right; split; [done|rewrite Hp; eauto]].
  - intros g Hs Hn. destruct (Hsub g) as [->|(_ & ? & _)]; done.
  - intros g t Ht. left. by rewrite Hreg.
Qed.

Lemma clear_op_rel R d d' m m' :
  clear_rel d d' -> dom_inv d' m' -> infos_cleared R d' m m' -> data_cleared d d' ->
  (d_stale d = ∅ -> d_stale d' = ∅) -> op_rel d m d' m'.
Proof.
  intros [Hf Hp Ha] Hinv Hm Hdc Hst. split; try done.
  - intros mfn. specialize (Hp mfn). repeat case_match; naive_solver.
  - intros g. destruct (Ha g) as [?|?]; auto.
  - intros mfn. destruct (Hdc mfn) as [?|(c & <- & pg & Hpg & Hn)]; [by left|right; left].
    unfold data_at. rewrite (same_frame_of _ _ _ Hf) in Hpg. rewrite Hpg. simpl. by rewrite Hn.
  - intros g j pg Hinj Hj Hl Hpg. split.
    { intros w'. destruct (Hm XomSubpages g) as [->|(_ & _ & ->)]; [by apply locked_kept|done]. }
    destruct (Hdc (frame_of d g)) as [Hd|(c & Hc & Hwc)].
    + destruct (Hm XomSubpages g) as [Heq|(_ & ? & ?)]; [|by left]. right.
      split; [unfold locked; by rewrite Heq|]. unfold data_at in Hd. rewrite Hpg in Hd. simpl in Hd.
      apply fmap_Some in Hd as (pg' & Hpg' & Hdd). exists pg'. by rewrite <-Hdd.
    + left. assert (g = c) as -> by (eapply Hinj; eauto). auto.
  - intros g _ Hn. destruct (Hm XomSubpages g) as [->|(_ & _ & ?)]; done.
  - intros g t Ht. destruct (Hm XomRegClear g) as [->|(_ & ? & ?)]; auto.
Qed.

(** The state after a successful sub-page write of [l] to guest frame [g]. *)
Definition written d (g : Z) (l : list xom_subpage_write_info) (pg : page) (typ : bool) (s' : pi_state)
    : domain P :=
  set_pages (<[frame_of d g := Page (apply_infos l (pg_data pg)) (pg_count pg) (pg_tcount pg) typ]>
               (d_pages d)) (set_pi s' d).

Lemma write_op_rel d m g w l pg typ s' :
  dom_inv d m -> m XomSubpages !! g = Some w -> d_pages d !! frame_of d g = Some pg ->
  Forall info_wf l -> Forall (fun i => Forall (fun b => 0 <= b < 256) (data i)) l ->
  Forall (fun i => Z.testbit w (target_subpage i) = false) l ->
  PI s' (upd m XomSubpages (<[g := lock_infos l w]> (m XomSubpages))) ->
  op_rel d m (written d g l pg typ s') (upd m XomSubpages (<[g := lock_infos l w]> (m XomSubpages))).
Proof.
  intros [Hpi Hpages Hlk Hiv Hwords Hmk] Hw Hpg Hl Hb Hu HPI.
  destruct (Hpages _ _ Hpg) as (Hwf & Hc & Ht).
  assert (pages_rel (fun _ _ => True) d (written d g l pg typ s')) as Hpr
    by (apply (pages_rel_insert (fun _ _ => True) d _ pg); done).
  assert (forall g' j, 0 <= j < PAGE_SIZE / SUBPAGE_SIZE -> locked m g' j ->
            locked (upd m XomSubpages (<[g := lock_infos l w]> (m XomSubpages))) g' j) as Hlock.
  { intros g' j Hj (w' & Hw' & Hbit). unfold locked. rewrite upd_eq.
    destruct (decide (g' = g)) as [->|Hne]; [|exists w'; by rewrite lookup_insert_ne].
    simplify_eq. eexists. rewrite lookup_insert_eq. split; [done|].
    rewrite lock_infos_spec by (done || lia || eauto). by rewrite Hbit. }
  split; [done| |exact Hpr|by left| | | |by left|done].
  2: { intros mfn. unfold data_at. cbn. destruct (decide (mfn = frame_of d g)) as [->|Hne]; [|left].
       - right. right. exists g. rewrite Hw. eauto.
       - by rewrite lookup_insert_ne. }
  - split; [done| |done|by eapply pages_rel_None| |done].
    + intros mfn pg'. cbn. intros [[<- <-]|[_ ?]]%lookup_insert_Some; [|eauto].
      split_and!; [by apply apply_infos_bytes..|done|done].
    + intros c w'. rewrite upd_eq. intros [[<- <-]|[_ ?]]%lookup_insert_Some; [|eauto].
      apply lock_infos_range. eauto.
  - intros g' j pg' Hinj Hj Hl' Hpg'. pose proof (Hlock _ _ Hj Hl') as Hk.
    split; [intros w'; by apply locked_kept|right; split; [done|]].
    destruct (decide (g' = g)) as [->|Hne]; cbn.
    + destruct Hl' as (w' & Hw' & Hbit). simplify_eq. eexists. rewrite lookup_insert_eq. split; [done|]. cbn.
      apply apply_infos_other; [done|apply Hwf|done|].
      eapply Forall_impl; [exact Hu|]. cbn. intros i Hi Heq. congruence.
    + exists pg'. rewrite lookup_insert_ne; [done|]. intros Heq. apply Hne. symmetry.
      eapply Hinj; [|done]. rewrite Hpg. eauto.
  - intros g' _ Hn. rewrite upd_eq, lookup_insert_ne; [done|congruence].
Qed.

(** What a successful [write_into_subpage] did. *)
Definition write_post d (m : root_sel -> gmap Z Z) (gfn_dest gfn_src : Z) d' (m' : root_sel -> gmap Z Z)
    : Prop :=
  exists w src pg typ s', let l := command_infos (read_command (pg_data src)) in
    m XomSubpages !! gfn_dest = Some w /\
    d_pages d !! frame_of d gfn_src = Some src /\ d_pages d !! frame_of d gfn_dest = Some pg /\
    num_subpages (read_command (pg_data src)) <= MAX_SUBPAGES_PER_CMD /\
    Forall info_wf l /\ Forall (fun i => Z.testbit w (target_subpage i) = false) l /\
    d' = written d gfn_dest l pg typ s' /\
    m' = upd m XomSubpages (<[gfn_dest := lock_infos l w]> (m XomSubpages)).

(** A validated command is well formed. *)
Lemma validated_wf bytes w :
  bytes_wf bytes -> num_subpages (read_command bytes) <= MAX_SUBPAGES_PER_CMD ->
  validate_infos w (command_infos (read_command bytes)) = true ->
  let l := command_infos (read_command bytes) in
  Forall info_wf l /\ Forall (fun i => Forall (fun b => 0 <= b < 256) (data i)) l /\
  Forall (fun i => Z.testbit w (target_subpage i) = false) l.
Proof.
  intros Hb Hn Hv l. pose proof (read_command_wf _ Hb Hn) as Hwf. fold l in Hwf.
  assert (Forall (fun i => 0 <= target_subpage i) l) as Hnn
    by (eapply Forall_impl; [exact Hwf|]; cbn; lia).
  pose proof (validate_infos_spec _ _ Hv Hnn) as Hval. rewrite !Forall_forall in *. split_and!.
  - intros i Hi. destruct (Hwf i Hi) as (? & ? & _), (Hval i Hi) as (? & _). by repeat split; try lia.
  - intros i Hi. apply (Hwf i Hi).
  - intros i Hi. apply (Hval i Hi).
Qed.

Lemma pi_op_rel d m s' m' :
  dom_inv d m -> PI s' m' -> m' XomSubpages = m XomSubpages ->
  (forall g t, m XomRegClear !! g = Some t -> m' XomRegClear !! g = Some t) ->
  (forall g t, m' XomRegClear !! g = Some t -> t = REG_CLEAR_TYPE_VECTOR \/ t = REG_CLEAR_TYPE_FULL) ->
  op_rel d m (set_pi s' d) m'.
Proof.
  intros [Hpi Hpg Hlk Hiv Hw Hmk] HPI Hsub Hreg Hmk'.
  split; [done| |by apply pages_rel_same|by left|by left| |by intros; rewrite Hsub|by left; auto|done].
  - split; [done|done|done|done| |done]. intros g w. rewrite Hsub. apply Hw.
  - intros g j pg _ _ Hl Hp. unfold locked. rewrite Hsub.
    split; [intros w; by apply locked_kept|right; split; [done|eauto]].
Qed.

(** The xom lock brackets an operation. *)
Lemma op_rel_locked d m d' m' :
  op_rel (set_xom_lock true d) m d' m' -> d_xom_page_lock d = false ->
  op_rel d m (set_xom_lock false d') m'.
Proof.
  intros [[] Hinv Hp Ha Hd Hl Hn Hm Hs] Hlk. cbn in *.
  split; [split; cbn; congruence|by destruct Hinv|exact Hp|exact Ha|exact Hd|exact Hl|exact Hn|exact Hm|exact Hs].
Qed.

Lemma reg_sealed_seal R d d' m : seal_rel R d d' -> reg_sealed d m -> reg_sealed d' m.
Proof.
  intros Hs Hr sel g Hg Hm. eapply sealed_mono, Hr; eauto.
  by apply (same_frame_mapped d d' g (sr_frame _ _ _ Hs)).
Qed.

Lemma reg_sealed_clear R d d' m m' :
  same_frame d d' -> seals_cleared d d' m' -> infos_cleared R d' m m' -> reg_sealed d m -> reg_sealed d' m'.
Proof.
  intros Hf Hs Hm Hr sel g [w Hg] Hmap. destruct (Hm sel g) as [Heq|(_ & _ & Hn)]; [|congruence].
  apply (same_frame_mapped _ _ _ Hf) in Hmap.
  assert (sealed d g) as Hsg by (apply (Hr sel); [rewrite <-Heq; eauto|done]).
  destruct (Hs g Hsg) as [?|Hn]; [done|]. by rewrite Hn in Hg.
Qed.

(** A frame with a page of the domain behind it is mapped. *)
Lemma op_rel_mapped d m d' m' g pg :
  op_rel d m d' m' -> d_pages d !! frame_of d g = Some pg -> mapped d g.
Proof.
  intros Hr Hpg Hm. rewrite Hm in Hpg. pose proof (or_pages _ _ _ _ Hr INVALID_MFN) as Hp.
  by rewrite Hpg, (di_invalid _ _ (or_inv _ _ _ _ Hr)) in Hp.
Qed.

(** Contents that are wiped and not sealed stay wiped. *)
Lemma wiped_step d m d' m' g :
  op_rel d m d' m' -> reg_sealed d m -> frame_inj d -> ~ sealed d g -> wiped d g -> wiped d' g.
Proof.
  intros Hr Hreg Hinj Hns (pg & Hpg & Hd).
  assert (frame_of d' g = frame_of d g) as Hf by apply same_frame_of, Hr.
  assert (data_at d' (frame_of d g) = Some nop_page) as Hn.
  { destruct (or_data _ _ _ _ Hr (frame_of d g)) as [->|[?|(c & Hc & Hw)]]; [|done|].
    - unfold data_at. rewrite Hpg. simpl. by rewrite Hd.
    - destruct Hns. assert (g = c) as -> by (eapply Hinj; eauto). apply (Hreg XomSubpages); [done|].
      by eapply op_rel_mapped. }
  unfold wiped. rewrite Hf. unfold data_at in Hn. by apply fmap_Some in Hn as (pg' & ? & ?); eauto.
Qed.

Lemma frame_inj_step d m d' m' : op_rel d m d' m' -> frame_inj d -> frame_inj d'.
Proof.
  intros Hr Hinj g1 g2. rewrite !(same_frame_of d d') by apply Hr. intros Hs. apply Hinj.
  pose proof (or_pages _ _ _ _ Hr (frame_of d g1)) as Hp.
  destruct Hs as [pg' Hpg']. rewrite Hpg' in Hp. destruct (d_pages d !! frame_of d g1); [eauto|done].
Qed.

Lemma reg_sealed_p2m d d' (m m' : root_sel -> gmap Z Z) :
  d_p2m d' = d_p2m d ->
  (forall sel g, is_Some (m' sel !! g) -> is_Some (m sel !! g) \/ (mapped d g -> sealed d g)) ->
  reg_sealed d m -> reg_sealed d' m'.
Proof.
  intros Hp Hm Hr sel g Hg Hmap.
  assert (mapped d g) as Hmd by (unfold mapped, frame_of in *; by rewrite Hp in Hmap).
  assert (sealed d g) as Hs by (destruct (Hm sel g Hg); [by apply (Hr sel)|auto]).
  unfold sealed, access_of in *. by rewrite Hp.
Qed.

Lemma marks_sealed d (m : root_sel -> gmap Z Z) sel0 g0 t :
  (mapped d g0 -> sealed d g0) -> forall sel g, is_Some (upd m sel0 (<[g0 := t]> (m sel0)) sel !! g) ->
    is_Some (m sel !! g) \/ (mapped d g -> sealed d g).
Proof.
  intros Hs sel g. unfold upd. case_decide as Hsel; [subst|by left].
  intros [? [[<- _]|[_ ?]]%lookup_insert_Some]; [by right|left; eauto].
Qed.

Lemma reg_sealed_write d m g1 g2 d' m' :
  write_post d m g1 g2 d' m' -> reg_sealed d m -> reg_sealed d' m'.
Proof.
  intros (w & src & pg & typ & s' & Hw & _ & _ & _ & _ & _ & -> & ->).
  apply reg_sealed_p2m; [done|]. intros sel g. unfold upd. case_decide as Hsel; [subst|by left].
  intros [? [[<- _]|[_ ?]]%lookup_insert_Some]; left; eauto.
Qed.

(** *** Registering one more frame *)

Lemma dom_inv_add d m g s' :
  dom_inv d m -> PI s' (upd m XomSubpages (<[g := 0]> (m XomSubpages))) ->
  dom_inv (set_pi s' d) (upd m XomSubpages (<[g := 0]> (m XomSubpages))).
Proof.
  intros Hinv HPI. split; [done|apply Hinv|apply Hinv|apply Hinv| |apply Hinv]. intros c w. rewrite upd_eq.
  intros [[<- <-]|[_ Hcw]]%lookup_insert_Some; [lia|by eapply Hinv].
Qed.

Lemma infos_created_cons R0 R d d2 m g m' :
  ~ sealed d g -> seal_rel R0 d d2 -> m XomSubpages !! g = None ->
  infos_created R d2 (upd m XomSubpages (<[g := 0]> (m XomSubpages))) m' ->
  infos_created (g :: R) d m m' /\ m' XomSubpages !! g = Some 0.
Proof.
  intros Hns Hs Hnone [Hreg Hm].
  assert (m' XomSubpages !! g = Some 0) as Hg.
  { destruct (Hm g) as [->|(_ & _ & Hn & _)]; rewrite upd_eq, lookup_insert_eq in *; done. }
  split; [|done]. split; [exact Hreg|]. intros c.
  destruct (decide (c = g)) as [->|Hne]; [right; split_and!; [by left|done..]|].
  destruct (Hm c) as [->|(Hin & Hnc & Hn & ?)]; rewrite upd_eq, lookup_insert_ne in * by done.
  - by left.
  - right. split_and!; [by right| |done|done]. intros Hsc. apply Hnc. by apply (sealed_mono _ _ _ _ Hs) in Hsc.
Qed.

Lemma reg_sealed_add R d d' m g s' :
  seal_rel R d d' -> (mapped d g -> sealed d' g) -> reg_sealed d m ->
  reg_sealed (set_pi s' d') (upd m XomSubpages (<[g := 0]> (m XomSubpages))).
Proof.
  intros Hs Hg Hr sel c Hc Hm. change (mapped d' c) in Hm. change (sealed d' c).
  destruct (decide (c = g)) as [->|Hne].
  { by apply Hg, (same_frame_mapped d d' g (sr_frame _ _ _ Hs)). }
  apply (reg_sealed_seal _ _ _ _ Hs Hr sel); [|done]. revert Hc. unfold upd. case_decide as Hsel; [subst|done].
  by rewrite lookup_insert_ne.
Qed.

(** *** A run of clearing steps *)

Record clear_all (R : list Z) d (m : root_sel -> gmap Z Z) d' (m' : root_sel -> gmap Z Z) : Prop := {
  ca_rel : clear_rel d d';
  ca_inv : dom_inv d' m';
  ca_infos : infos_cleared R d' m m';
  ca_data : data_cleared d d';
  ca_seals : seals_cleared d d' m'
}.

Lemma clear_all_refl R d m : dom_inv d m -> clear_all R d m d m.
Proof. intros Hinv. by split; [|..|left|left|left]. Qed.

Lemma clear_post_locked d g r d1 :
  clear_post (set_p2m_lock (d_p2m_lock d + 1) d) g r d1 ->
  clear_post d g r (set_p2m_lock (d_p2m_lock d1 - 1) d1).
Proof.
  intros (Hpi & Hcr & Hoth & Hdat & Hr). split; [exact Hpi|]. split; [by apply clear_rel_locked|].
  split; [exact Hoth|]. split; [exact Hdat|]. destruct r; exact Hr.
Qed.

Section step.
Context (d d2 : domain P) (g : Z) (r : clear_step) (m : root_sel -> gmap Z Z).
Context (Hinv : dom_inv d m) (Hpost : clear_post d g r d2).

Lemma step_inv : dom_inv d2 m.
Proof. destruct Hpost as (Hpi & Hcr & _). by eapply dom_inv_clear. Qed.

Lemma step_keep c : c <> g -> sealed d c -> sealed d2 c.
Proof. destruct Hpost as (_ & _ & Hoth & _). unfold sealed. intros Hne <-. by apply Hoth. Qed.

Lemma step_frame c : frame_of d2 c = frame_of d c.
Proof. destruct Hpost as (_ & Hcr & _). apply same_frame_of, Hcr. Qed.

(** The page was not sealed: nothing happened to it. *)
Lemma clear_all_skip R d' m' :
  r = ClearSkip -> clear_all R d2 m d' m' -> clear_all (g :: R) d m d' m'.
Proof.
  pose proof step_keep as Hkeep. pose proof step_frame as Hfr. intros ->.
  destruct Hpost as (_ & Hcr & _ & Hdat & Hns & Hdat0). intros [Hrel Hinv' Hm Hdc Hsc].
  split; [by etrans|done|..].
  - intros sel c. destruct (Hm sel c) as [?|(? & ? & ?)]; [by left|right; split_and!; [by right|done|done]].
  - intros mfn. assert (data_at d2 mfn = data_at d mfn) as <-.
    { destruct (decide (mfn = frame_of d g)) as [->|Hne]; auto. }
    destruct (Hdc mfn) as [?|(c & <- & ?)]; [by left|right]. eauto.
  - intros c Hc. destruct (decide (c = g)) as [->|Hne]; [done|auto].
Qed.

(** The step gave up, or the new access right was refused. *)
Lemma clear_all_stop R :
  match r with ClearSkip => False | ClearExit _ => True | ClearDone rc => sealed d2 g end ->
  clear_all (g :: R) d m d2 m.
Proof.
  intros Hr. pose proof step_keep as Hkeep. pose proof step_inv as Hinv2.
  split; [apply Hpost|done|by left|..].
  - destruct Hpost as (_ & _ & _ & Hdat & Hcase). intros mfn.
    destruct (decide (mfn = frame_of d g)) as [->|Hne]; [|by left; apply Hdat].
    destruct r as [|rc|rc]; [done|left; apply Hcase|right; exists g; split; [done|apply Hcase]].
  - intros c Hc. left. destruct (decide (c = g)) as [->|Hne]; [|auto].
    destruct Hpost as (_ & _ & _ & _ & Hcase). destruct r as [|rc|rc]; [done|..].
    + destruct Hcase as (_ & _ & Hp). unfold sealed, access_of in *. by rewrite Hp.
    + done.
Qed.

(** The page was wiped and its entries were dropped. *)
Lemma clear_all_done R s' d' m' rc :
  r = ClearDone rc -> clear_all R (set_pi s' d2) (fun sel => delete g (m sel)) d' m' ->
  clear_all (g :: R) d m d' m' /\ wiped d' g /\ forall sel, m' sel !! g = None.
Proof.
  pose proof step_keep as Hkeep. pose proof step_frame as Hfr. intros ->.
  destruct Hpost as (_ & Hcr & _ & Hdat & _ & Hw & _ & _). intros [Hrel Hinv' Hm Hdc Hsc].
  assert (wiped d' g) as Hwg by (eapply wiped_mono; [apply Hrel..|exact Hw]).
  assert (forall sel, m' sel !! g = None) as Hmg.
  { intros sel. destruct (Hm sel g) as [->|(_ & _ & ?)]; [apply lookup_delete_eq|done]. }
  split; [|done]. split; [etrans; [by apply clear_rel_pi|exact Hrel]|done|..].
  - intros sel c. destruct (decide (c = g)) as [->|Hne]; [right; split_and!; [by left|done|done]|].
    destruct (Hm sel c) as [->|(? & ? & ?)];
      [left; by apply lookup_delete_ne|right; split_and!; [by right|done|done]].
  - intros mfn. destruct (decide (mfn = frame_of d g)) as [->|Hne]; [right; eauto|].
    destruct (Hdc mfn) as [->|(c & <- & ?)]; [left; exact (Hdat _ Hne)|right].
    exists c. split; [|done]. symmetry. exact (Hfr c).
  - intros c Hc. destruct (decide (c = g)) as [->|Hne]; [by right|]. apply Hsc. exact (Hkeep c Hne Hc).
Qed.
End step.

Lemma dom_inv_drop d m g s' :
  dom_inv d m -> PI s' (fun sel => delete g (m sel)) ->
  dom_inv (set_pi s' d) (fun sel => delete g (m sel)).
Proof.
  intros Hinv HPI. split; [done|apply Hinv|apply Hinv|apply Hinv|..];
    intros c w [_ Hcw]%lookup_delete_Some; by eapply Hinv.
Qed.

(** *** Flushing and the lock nesting *)

Lemma seal_rel_flush R d d' : seal_rel R d d' -> seal_rel R d (set_p2m (d_p2m d') ∅ d').
Proof. intros [[] Hp Ha]. by repeat split. Qed.

Lemma clear_rel_flush d d' : clear_rel d d' -> clear_rel d (set_p2m (d_p2m d') ∅ d').
Proof. intros [[] Hp Ha]. by repeat split. Qed.

Lemma dom_inv_flush d m : dom_inv d m -> dom_inv (set_p2m (d_p2m d) ∅ d) m.
Proof. by intros []. Qed.

Lemma neg_rc rc : rc = - EINVAL \/ rc = - EOVERFLOW \/ rc = - ENOMEM \/ rc = - EPERM -> rc < 0.
Proof. unfold EINVAL, EOVERFLOW, ENOMEM, EPERM. lia. Qed.

(** The reference to the source page is given back after the p2m lock. *)
Lemma fetched_unlock d mfn pg :
  set_p2m_lock (d_p2m_lock d + 1 - 1)
    (set_pages (<[mfn := ref1 pg]> (d_pages d)) (set_p2m_lock (d_p2m_lock d + 1) d)) =
  set_pages (<[mfn := ref1 pg]> (d_pages d)) d.
Proof. destruct d. unfold set_p2m_lock, set_pages. cbn. f_equal. lia. Qed.

Lemma unlock_lock d : set_p2m_lock (d_p2m_lock d + 1 - 1) (set_p2m_lock (d_p2m_lock d + 1) d) = d.
Proof. destruct d. unfold set_p2m_lock. cbn. f_equal. lia. Qed.

Lemma written_unlock d g l pg typ s' :
  set_p2m_lock (d_p2m_lock d + 1 - 1) (written (set_p2m_lock (d_p2m_lock d + 1) d) g l pg typ s') =
  written d g l pg typ s'.
Proof. destruct d. unfold written, set_p2m_lock, set_pages, set_pi. cbn. f_equal. lia. Qed.

(** Arm holds the p2m lock around the loop and the flush. *)
Lemma unlock_flush_seal R d d' :
  seal_rel R (set_p2m_lock (d_p2m_lock d + 1) d) d' ->
  seal_rel R d (set_p2m_lock (d_p2m_lock d' - 1) (set_p2m (d_p2m d') ∅ d')).
Proof. intros Hs. exact (seal_rel_locked R d _ (seal_rel_flush _ _ _ Hs)). Qed.

Lemma unlock_flush_clear d d' :
  clear_rel (set_p2m_lock (d_p2m_lock d + 1) d) d' ->
  clear_rel d (set_p2m_lock (d_p2m_lock d' - 1) (set_p2m (d_p2m d') ∅ d')).
Proof. intros Hs. exact (clear_rel_locked d _ (clear_rel_flush _ _ Hs)). Qed.

Lemma dom_inv_lock d m n : dom_inv d m -> 0 <= n -> dom_inv (set_p2m_lock n d) m.
Proof. by intros []. Qed.

(** The contents and lock bits of the destination after a write. *)
Lemma write_post_contents d m g1 g2 d' m' :
  dom_inv d m -> write_post d m g1 g2 d' m' ->
  exists w src pg pg', let l := command_infos (read_command (pg_data src)) in
    m XomSubpages !! g1 = Some w /\ d_pages d !! frame_of d g2 = Some src /\
    d_pages d !! frame_of d g1 = Some pg /\ d_pages d' !! frame_of d g1 = Some pg' /\
    (forall i, i ∈ l -> Z.testbit w (target_subpage i) = false) /\
    (forall l1 i l2, l = l1 ++ i :: l2 -> Forall (fun i' => target_subpage i' <> target_subpage i) l2 ->
       subpage (target_subpage i) (pg_data pg') = data i) /\
    (forall j, 0 <= j < PAGE_SIZE / SUBPAGE_SIZE -> Forall (fun i => target_subpage i <> j) l ->
       subpage j (pg_data pg') = subpage j (pg_data pg)) /\
    exists w', m' XomSubpages !! g1 = Some w' /\
      forall j, 0 <= j -> Z.testbit w' j = Z.testbit w j || existsb (fun i => target_subpage i =? j) l.
Proof.
  intros Hinv (w & src & pg & typ & s' & Hw & Hsrc & Hpg & _ & Hwf & Hun & -> & ->).
  destruct (di_pages _ _ Hinv _ _ Hpg) as [Hb _].
  exists w, src, pg. eexists. split_and!; [done..| | | | |].
  - cbn. apply lookup_insert_eq.
  - intros i Hi. rewrite Forall_forall in Hun. by apply Hun.
  - intros l1 i l2 Hl Hne. cbn [pg_data]. rewrite Hl. apply apply_infos_target; [by rewrite <-Hl|apply Hb|done].
  - intros j Hj Hne. cbn [pg_data]. apply apply_infos_other; [done|apply Hb|done|done].
  - eexists. rewrite upd_eq, lookup_insert_eq. split; [done|]. intros j Hj.
    apply lock_infos_spec; [done|by eapply Hinv|done].
Qed.

(** *** Register-clear marks *)

Context `{!P2mLaws P} `{!Arch P} `{Xmalloc}.

Lemma mark_reg_clear_page_spec a g t d m :
  dom_inv d m -> 0 <= t ->
  wp (mark_reg_clear_page a g t)
     (fun rc d' => d_p2m d' = d_p2m d /\ d_pages d' = d_pages d /\ ((rc < 0 /\ op_rel d m d' m) \/
        (rc = 0 /\ entry_access (d_p2m d) g a = p2m_access_x /\ m XomRegClear !! g = None /\
         (t = REG_CLEAR_TYPE_VECTOR \/ t = REG_CLEAR_TYPE_FULL) /\
         op_rel d m d' (upd m XomRegClear (<[g := t]> (m XomRegClear)))))) d.
Proof.
  intros Hinv Ht. pose proof (di_lock _ _ Hinv) as Hl0. unfold mark_reg_clear_page.
  destruct (_ || _) eqn:Htype.
  { apply wp_ret. split_and!; [done|done|]. left. split; [apply neg_rc|apply op_rel_refl]; auto. }
  apply orb_false_elim in Htype as [Ht0 Ht2]. unfold REG_CLEAR_TYPE_FULL in Ht2.
  apply wp_bind, wp_on_pi. eapply wp_mono; [apply get_page_info_entry_at, Hinv|].
  intros p s [-> He]. rewrite set_pi_id.
  destruct (m XomRegClear !! g) as [w|] eqn:Hm; unfold entry_at in He; rewrite Hm in He.
  { destruct He as (Hp & _). rewrite (eqb_neq_false p NULL) by done. simpl.
    apply wp_ret. split_and!; [done|done|]. left. split; [apply neg_rc|apply op_rel_refl]; auto. }
  subst p. simpl. apply wp_bind, wp_p2m_lock, wp_bind, wp_gets.
  apply wp_bind, wp_p2m_unlock; [cbn; lia|].
  change (d_p2m_lock (set_p2m_lock (d_p2m_lock d + 1) d)) with (d_p2m_lock d + 1).
  rewrite unlock_lock. change (d_p2m (set_p2m_lock (d_p2m_lock d + 1) d)) with (d_p2m d).
  destruct (Z.eqb_spec (entry_access (d_p2m d) g a) p2m_access_x) as [Ha|Hnx]; simpl.
  2: { apply wp_ret. split_and!; [done|done|]. left. split; [apply neg_rc|apply op_rel_refl]; auto. }
  assert (u8 t = t) as -> by (apply Z.mod_small; lia).
  apply wp_bind, wp_on_pi. eapply wp_mono; [apply add_page_info_entry_spec, Hinv|].
  intros p s' [(-> & HPI & _)|(Hp & _ & HPI)].
  - apply wp_ret. split_and!; [done|done|]. left. split; [apply neg_rc; auto|].
    apply pi_op_rel; [done..|apply Hinv].
  - rewrite (eqb_neq_false p NULL) by done. apply wp_ret. split_and!; [done|done|]. right.
    split_and!; [done|done|done|unfold REG_CLEAR_TYPE_VECTOR, REG_CLEAR_TYPE_FULL; lia|].
    apply pi_op_rel; [done|done|done|..]; intros c t'; rewrite upd_eq.
    + intros Hc. rewrite lookup_insert_ne; [done|]. intros <-. congruence.
    + intros [[_ <-]|[_ ?]]%lookup_insert_Some; [|by eapply Hinv].
      unfold REG_CLEAR_TYPE_VECTOR, REG_CLEAR_TYPE_FULL. lia.
Qed.

(** *** Looking a mark up *)

Lemma reg_clear_lookup_spec d m g :
  dom_inv d m -> d_xom_page_lock d = false ->
  wp (do! xom_lock in
      let! info := on_pi (get_page_info_entry XomRegClear g) in
      let! r := (if negb (info =? NULL)
                 then let! e := on_pi (entry info) in ret (u8 (xpi_info e))
                 else ret REG_CLEAR_TYPE_NONE) in
      do! xom_unlock in ret r)
     (fun r d' => d' = d /\ r = default REG_CLEAR_TYPE_NONE (m XomRegClear !! g)) d.
Proof.
  intros Hinv Hlk. apply wp_bind. eexists tt, _. split; [unfold xom_lock; by rewrite Hlk|].
  apply wp_bind, wp_on_pi. eapply wp_mono; [apply get_page_info_entry_at, Hinv|].
  intros p s [-> He]. unfold entry_at in He.
  assert (set_xom_lock false (set_pi (d_pi d) (set_xom_lock true d)) = d) as Hid.
  { destruct d. cbn in *. by subst. }
  destruct (m XomRegClear !! g) as [t|] eqn:Hm.
  - destruct He as (Hp & Hi & _). rewrite (eqb_neq_false p NULL) by done. cbn [negb].
    apply wp_bind, wp_bind, wp_on_pi. eapply wp_entry; [exact Hi|]. apply wp_ret.
    apply wp_bind. eexists tt, _. split; [reflexivity|]. apply wp_ret. split; [exact Hid|].
    cbn. destruct (di_marks _ _ Hinv _ _ Hm) as [->| ->]; done.
  - subst p. cbn. apply wp_bind, wp_ret, wp_bind. eexists tt, _. split; [reflexivity|].
    apply wp_ret. by split.
Qed.
End op.

(** ** Batches of operations *)

Section batch.
Context {P : Type} `{P2mOps P}.
Implicit Types x y : domain P * (root_sel -> gmap Z Z).

(** One operation; [A] is the assumption under which registered frames stay
    sealed. *)
Definition op_step (A : Prop) x y : Prop :=
  op_rel x.1 x.2 y.1 y.2 /\ (A -> reg_sealed x.1 x.2 -> reg_sealed y.1 y.2).

Lemma batch_inv A x y : rtc (op_step A) x y -> dom_inv x.1 x.2 -> dom_inv y.1 y.2.
Proof. induction 1 as [|x y z [Hr _] _ IH]; [done|]. intros _. apply IH, Hr. Qed.

Lemma batch_frame A x y : rtc (op_step A) x y -> same_frame x.1 y.1.
Proof. induction 1 as [|x y z [Hr _] _ IH]; [done|]. etrans; [apply Hr|done]. Qed.

Lemma batch_pages A x y : rtc (op_step A) x y -> pages_rel (fun _ _ => True) x.1 y.1.
Proof.
  induction 1 as [|x y z [Hr _] _ IH]; [by apply pages_rel_refl|].
  eapply pages_rel_trans; [done|apply Hr|done].
Qed.

Lemma batch_stale A x y : rtc (op_step A) x y -> d_stale x.1 = ∅ -> d_stale y.1 = ∅.
Proof. induction 1 as [|x y z [Hr _] _ IH]; [done|]. intros Hs. apply IH, Hr, Hs. Qed.

(** Frames sealed in [x] are sealed or wiped in [y]. *)
Definition secure (d d' : domain P) : Prop := forall g, sealed d g -> sealed d' g \/ wiped d' g.

#[export] Instance sealed_dec (d : domain P) g : Decision (sealed d g).
Proof. unfold sealed. apply _. Defined.

Lemma secure_step (d0 d d' : domain P) m m' :
  op_rel d m d' m' -> reg_sealed d m -> frame_inj d -> secure d0 d -> secure d0 d'.
Proof.
  intros Hr Hreg Hinj Hs g Hg. destruct (sealed_dec d g) as [Hsg|Hns].
  - destruct (or_access _ _ _ _ Hr g) as [Heq|[?|(_ & _ & ?)]]; auto. left. unfold sealed in *. congruence.
  - destruct (Hs g Hg) as [?|Hw]; [done|]. right. by eapply wiped_step.
Qed.

Lemma batch_reg_sealed A x y :
  A -> rtc (op_step A) x y -> reg_sealed x.1 x.2 -> reg_sealed y.1 y.2.
Proof. intros HA. induction 1 as [|x y z [_ Hrs] _ IH]; [done|]. auto. Qed.

Lemma batch_secure A x y :
  A -> rtc (op_step A) x y -> reg_sealed x.1 x.2 -> frame_inj x.1 -> secure x.1 y.1.
Proof.
  intros HA Hrtc Hreg Hinj. assert (secure x.1 x.1) as Hs by (by left).
  revert Hs. generalize x.1 at 1 3 as d0. revert Hreg Hinj.
  induction Hrtc as [|x y z [Hr Hrs] _ IH]; intros Hreg Hinj d0 Hs; [done|].
  apply IH; [auto|by eapply frame_inj_step|by eapply secure_step].
Qed.

(** ** What a batch does to a sealed frame *)

Definition subpage_at (d : domain P) (g j : Z) : option (list Z) := subpage j <$> data_at d (frame_of d g).

(** The frame [g] of [x] is still sealed in [y]; its locked sub-pages are still
    locked and hold the same bytes; if it is not registered for sub-page
    writes, it holds the same bytes altogether. *)
Definition guarded x y (g : Z) : Prop :=
  sealed y.1 g /\ frame_of y.1 g = frame_of x.1 g /\ is_Some (data_at y.1 (frame_of y.1 g)) /\
  (forall j, 0 <= j < PAGE_SIZE / SUBPAGE_SIZE -> locked x.2 g j ->
     locked y.2 g j /\ subpage_at y.1 g j = subpage_at x.1 g j) /\
  (x.2 XomSubpages !! g = None ->
     y.2 XomSubpages !! g = None /\ data_at y.1 (frame_of y.1 g) = data_at x.1 (frame_of x.1 g)).

Lemma guarded_refl x g : sealed x.1 g -> is_Some (data_at x.1 (frame_of x.1 g)) -> guarded x x g.
Proof. intros ? ?. by split_and!. Qed.

Lemma data_at_wiped (d d' : domain P) g :
  frame_of d' g = frame_of d g -> data_at d' (frame_of d g) = Some nop_page -> wiped d' g.
Proof.
  intros Hf Hd. unfold wiped. rewrite Hf. unfold data_at in Hd.
  by apply fmap_Some in Hd as (pg & -> & ->); eauto.
Qed.

Lemma guarded_step x y z g :
  frame_inj y.1 -> op_rel y.1 y.2 z.1 z.2 -> guarded x y g -> guarded x z g \/ wiped z.1 g.
Proof.
  intros Hinj Hr (Hs & Hf & [l Hl] & Hlk & Hun).
  assert (frame_of z.1 g = frame_of y.1 g) as Hfz by apply same_frame_of, Hr.
  pose proof Hl as Hl0. unfold data_at in Hl0. apply fmap_Some in Hl0 as (pg & Hpg & ->).
  destruct (decide (data_at z.1 (frame_of y.1 g) = Some nop_page)) as [Hn|Hn]; [right; by eapply data_at_wiped|left].
  assert (~ wiped z.1 g) as Hw.
  { intros (pg' & Hpg' & Hd'). apply Hn. unfold data_at. rewrite <-Hfz, Hpg'. simpl. by rewrite Hd'. }
  pose proof (or_pages _ _ _ _ Hr (frame_of y.1 g)) as Hp. rewrite Hpg in Hp.
  destruct (d_pages z.1 !! frame_of y.1 g) as [pg'|] eqn:Hpg'; [|done]. split_and!.
  - destruct (or_access _ _ _ _ Hr g) as [Heq|[?|(_ & _ & ?)]]; [unfold sealed in *; congruence|done..].
  - congruence.
  - rewrite Hfz. unfold data_at. rewrite Hpg'. by eexists.
  - intros j Hj Hx. destruct (Hlk j Hj Hx) as [Hly Hby].
    destruct (or_locked _ _ _ _ Hr g j pg Hinj Hj Hly Hpg) as [_ [?|(Hlz & pg2 & Hpg2 & Hb)]]; [done|].
    split; [done|]. rewrite <-Hby. unfold subpage_at, data_at. rewrite Hfz, Hpg2, Hpg. simpl. by rewrite Hb.
  - intros Hx. destruct (Hun Hx) as [Hny Hdy]. split; [by apply (or_new _ _ _ _ Hr)|]. rewrite Hfz, <-Hdy.
    destruct (or_data _ _ _ _ Hr (frame_of y.1 g)) as [?|[?|(c & Hc & Hreg)]]; [done|done|].
    assert (g = c) as <- by (eapply Hinj; eauto). rewrite Hny in Hreg. by destruct Hreg.
Qed.
End batch.

(** The states a run passes through; the steps are numbered from [i]. *)
Inductive trace {X : Type} (R : nat -> X -> X -> Prop) : nat -> X -> list X -> X -> Prop :=
| trace_end i x : trace R i x [x] x
| trace_step i x y tr z : R i x y -> trace R (S i) y tr z -> trace R i x (x :: tr) z.

Lemma trace_mono {X} (R R' : nat -> X -> X -> Prop) i x tr y :
  (forall i x y, R i x y -> R' i x y) -> trace R i x tr y -> trace R' i x tr y.
Proof. intros HR. induction 1; econstructor; eauto. Qed.

Lemma trace_rtc {X} (R : nat -> X -> X -> Prop) (S : X -> X -> Prop) i x tr y :
  (forall i x y, R i x y -> S x y) -> trace R i x tr y -> rtc S x y.
Proof. intros HR. induction 1; econstructor; eauto. Qed.

(** A property of the first state that every step keeps or ends. *)
Lemma trace_until {X} (R : nat -> X -> X -> Prop) (I K W : X -> Prop) i x tr z :
  (forall i x y, R i x y -> I x -> I y) -> (forall i x y, R i x y -> I x -> K x -> K y \/ W y) ->
  trace R i x tr z -> I x -> K x \/ W x -> forall n y, tr !! n = Some y -> K y \/ exists k w, (k <= n)%nat /\ tr !! k = Some w /\ W w.
Proof.
  intros HI HK. induction 1 as [i x|i x y tr z HR Htr IH]; intros Hx Hkx n w.
  - destruct n as [|n]; [intros [= ->]|done]. destruct Hkx as [?|?]; [by left|right]. by exists 0%nat, w.
  - destruct Hkx as [Hkx|Hwx]; [|intros _; right; exists 0%nat, x; split_and!; [lia|done|done]].
    destruct n as [|n]; [intros [= ->]; by left|]. cbn. intros Hn.
    destruct (IH (HI _ _ _ HR Hx) (HK _ _ _ HR Hx Hkx) n w Hn) as [?|(k & v & Hk & Hv & Hw)]; [by left|right].
    exists (S k), v. split_and!; [lia|done|done].
Qed.
