(* ===== verification/XomSeal.v ===== *)
(** * The XOM hypercall on x86

    [arch/x86/xom_seal.c]: the five operations behind [handle_xom_seal], the
    batch loop, and the look-up of a page's register-clear type. *)

From S2P Require Import Prelude RbTree RbSpec RbHeap PageInfo XomDomain.

Section x86_ops.
Context {P : Type} `{P2mOps P}.

(** ** x86 primitives *)

(** [get_page_type(page, PGT_writable_page)]: refused while the page is in use
    under another type. *)
Definition x86_get_page_type (mfn : Z) : M (domain P) bool :=
  let! d := get in
  match d_pages d !! mfn with
  | None => ub
  | Some pg =>
      if (pg_tcount pg =? 0) || pg_writable pg
      then do! with_page mfn (fun pg => Some (Page (pg_data pg) (pg_count pg) (pg_tcount pg + 1) true))
           in ret true
      else ret false
  end.

Definition x86_put_page_and_type (mfn : Z) : M (domain P) unit :=
  do! with_page mfn (fun pg => if 0 <? pg_tcount pg
        then Some (Page (pg_data pg) (pg_count pg) (pg_tcount pg - 1) (pg_writable pg)) else None) in
  put_page mfn.

(** [p2m_set_mem_access_single(d, p2m, NULL, a, gfn)], that is [set_mem_access]
    without an alternate p2m. *)
Definition set_mem_access (a gfn : Z) : M (domain P) Z :=
  let! d := get in
  let '(mfn, t, _) := get_entry (d_p2m d) gfn in
  let '(rc, p') := set_entry (d_p2m d) gfn mfn t a in
  do! modify (set_p2m p' ({[gfn]} ∪ d_stale d)) in
  ret rc.

#[export] Instance x86_arch : Arch P := {|
  entry_access := fun p gfn _ => (get_entry p gfn).2;
  get_page_type := x86_get_page_type;
  put_page_and_type := x86_put_page_and_type;
  p2m_set_mem_access_single := set_mem_access
|}.

Context `{Xmalloc}.

(** ** The operations *)

(** [gfn_x(gfn) + nr_pages > p2m->max_mapped_pfn] *)
Definition range_overflow (p2m : P) (gfn nr_pages : Z) : bool :=
  max_mapped_pfn p2m <? u64 (gfn + nr_pages).

Fixpoint set_xom_loop (n : nat) (c_gfn rc : Z) : M (domain P) Z :=
  match n with
  | O => ret rc
  | S n =>
      do! p2m_lock in
      let! rc := p2m_set_mem_access_single p2m_access_x c_gfn in
      do! p2m_unlock in
      if rc <? 0 then ret rc else set_xom_loop n (u64 (c_gfn + 1)) rc
  end.

Definition set_xom_seal (gfn nr_pages : Z) : M (domain P) Z :=
  let! p2m := gets d_p2m in
  if nr_pages =? 0 then ret (- EINVAL)
  else if range_overflow p2m gfn nr_pages then ret (- EOVERFLOW)
  else
    let! rc := set_xom_loop (Z.to_nat nr_pages) gfn 0 in
    do! tlb_flush in
    ret rc.

Fixpoint clear_xom_loop (n : nat) (c_gfn rc : Z) : M (domain P) Z :=
  match n with
  | O => ret rc
  | S n =>
      do! p2m_lock in
      let! p2m := gets d_p2m in
      let '(_, _, atype) := get_entry p2m c_gfn in
      let! r := clear_page atype c_gfn in
      do! p2m_unlock in
      match r with
      | ClearSkip => clear_xom_loop n (u64 (c_gfn + 1)) rc
      | ClearExit rc => ret rc
      | ClearDone rc =>
          do! drop_page_infos c_gfn in
          clear_xom_loop n (u64 (c_gfn + 1)) rc
      end
  end.

Definition clear_xom_seal (gfn nr_pages : Z) : M (domain P) Z :=
  let! p2m := gets d_p2m in
  if nr_pages =? 0 then ret (- EINVAL)
  else if range_overflow p2m gfn nr_pages then ret (- EOVERFLOW)
  else
    let! rc := clear_xom_loop (Z.to_nat nr_pages) gfn 0 in
    do! tlb_flush in
    ret rc.

Fixpoint create_loop (n : nat) (c_gfn rc : Z) : M (domain P) Z :=
  match n with
  | O => ret rc
  | S n =>
      do! p2m_lock in
      let! p2m := gets d_p2m in
      let '(_, _, atype) := get_entry p2m c_gfn in
      if atype =? p2m_access_x then do! p2m_unlock in ret (- EINVAL)
      else
        let! rc := p2m_set_mem_access_single p2m_access_x c_gfn in
        do! p2m_unlock in
        let! subpage_info := on_pi (add_page_info_entry XomSubpages c_gfn 0) in
        if subpage_info =? NULL then ret (- ENOMEM)
        else create_loop n (u64 (c_gfn + 1)) rc
  end.

Definition create_xom_subpages (gfn nr_pages : Z) : M (domain P) Z :=
  let! p2m := gets d_p2m in
  if nr_pages =? 0 then ret (- EINVAL)
  else if range_overflow p2m gfn nr_pages then ret (- EOVERFLOW)
  else
    let! rc := create_loop (Z.to_nat nr_pages) gfn 0 in
    do! tlb_flush in
    ret rc.

Definition write_into_subpage (gfn_dest gfn_src : Z) : M (domain P) Z :=
  let! subpage_info := on_pi (get_page_info_entry XomSubpages gfn_dest) in
  if subpage_info =? NULL then ret (- EINVAL)
  else
    let! p2m := gets d_p2m in
    if max_mapped_pfn p2m <? gfn_src then ret (- EOVERFLOW)
    else
      do! p2m_lock in
      let! fetched := fetch_command gfn_src in
      do! p2m_unlock in
      match fetched with
      | None => ret (- EINVAL)
      | Some (page, command) =>
          do! put_page page in
          if MAX_SUBPAGES_PER_CMD <? num_subpages command then ret (- EINVAL)
          else
            let! e := on_pi (entry subpage_info) in
            if negb (validate_infos (xpi_info e) (command_infos command)) then ret (- EINVAL)
            else
              do! p2m_lock in
              let! rc := execute_command gfn_dest subpage_info (command_infos command) in
              do! p2m_unlock in
              ret rc
      end.

(** ** The hypercall *)

(** The [switch] of [handle_xom_seal] under [xom_page_lock].  On x86 the value
    of [atype] before its look-up plays no part. *)
Definition xom_dispatch (op : mmuext_op) : M (domain P) Z :=
  if cmd op =? MMUEXT_MARK_XOM then set_xom_seal (arg1 op) (nr_ents op)
  else if cmd op =? MMUEXT_UNMARK_XOM then clear_xom_seal (arg1 op) (nr_ents op)
  else if cmd op =? MMUEXT_CREATE_XOM_SPAGES then create_xom_subpages (arg1 op) (nr_ents op)
  else if cmd op =? MMUEXT_WRITE_XOM_SPAGES then write_into_subpage (arg1 op) (arg2 op)
  else if cmd op =? MMUEXT_MARK_REG_CLEAR then mark_reg_clear_page p2m_access_n (arg1 op) (nr_ents op)
  else ret (- EOPNOTSUPP).

Definition xom_op (op : mmuext_op) : M (domain P) Z :=
  do! xom_lock in
  let! rc := xom_dispatch op in
  do! xom_unlock in
  ret rc.

(** The loop over the [count] operations the guest passed; [i] counts them. *)
Fixpoint handle_loop (g : guest P) (n : nat) (i : nat) : M (domain P) (Z * option Z) :=
  match n with
  | O => ret (0, if pdone_is_null g then None else Some (Z.of_nat i))
  | S n =>
      if old_guest_table g || (negb (Nat.eqb i 0) && preempt_check g i) then ret (- ERESTART, None)
      else
        let! d := get in
        match copy_from_guest g d i with
        | None => ret (- EFAULT, None)
        | Some op =>
            let! rc := xom_op op in
            if rc <? 0 then ret (rc, None) else handle_loop g n (S i)
        end
  end.

(** [handle_xom_seal(curr, uops, count, pdone)]; the second component is what
    is written to [*pdone]. *)
Definition handle_xom_seal (g : guest P) (count : Z) : M (domain P) (Z * option Z) :=
  let! d := get in
  if negb (d_is_hvm d) || negb (d_hap_enabled d) then ret (- EOPNOTSUPP, None)
  else handle_loop g (Z.to_nat count) 0.

(** ** The register-clear type of the current instruction *)

(** [gfn_of_rip]: [vcpu_ok] says that [current] exists and is initialised;
    [gva_to_gfn] is the guest page walk [paging_gva_to_gfn]. *)
Definition gfn_of_rip (vcpu_ok : bool) (cs_base : Z) (gva_to_gfn : Z -> Z) (rip : Z) : Z :=
  if negb vcpu_ok then INVALID_GFN else gva_to_gfn (u64 (cs_base + rip)).

(** [regs] is [None] when the pointer is null or all ones. *)
Definition get_reg_clear_type (vcpu_ok : bool) (cs_base : Z) (gva_to_gfn : Z -> Z)
    (regs : option Z) : M (domain P) Z :=
  match regs with
  | None => ret REG_CLEAR_TYPE_NONE
  | Some rip =>
      let! d := get in
      if negb (d_is_hvm d) || negb (d_hap_enabled d) then ret REG_CLEAR_TYPE_NONE
      else
        let instr_gfn := gfn_of_rip vcpu_ok cs_base gva_to_gfn rip in
        if instr_gfn =? INVALID_GFN then ret REG_CLEAR_TYPE_NONE
        else
          do! xom_lock in
          let! info := on_pi (get_page_info_entry XomRegClear instr_gfn) in
          let! r := (if negb (info =? NULL)
                     then let! e := on_pi (entry info) in ret (u8 (xpi_info e))
                     else ret REG_CLEAR_TYPE_NONE) in
          do! xom_unlock in
          ret r
  end.
End x86_ops.
