(* ===== verification/XomSealArm.v ===== *)
(** * The XOM hypercall on Arm

    [arch/arm/xom_seal.c], the stage-2 version of the hypercall, and
    [arch/arm/mmuext.c].  The page-info helpers are the same text as on x86
    and are modelled by the definitions of [PageInfo]. *)

From S2P Require Import Prelude RbTree RbSpec RbHeap PageInfo XomDomain.

Definition p2m_invalid : Z := 0.

(** ** The page-info trees *)

Definition arm_insert_page_info_node : root_sel -> Z -> M pi_state Z := insert_page_info_node.
Definition arm_add_page_info_entry `{Xmalloc} : root_sel -> Z -> Z -> M pi_state Z :=
  add_page_info_entry.
Definition arm_rm_page_info_entry : root_sel -> Z -> M pi_state unit := rm_page_info_entry.
Definition arm_get_page_info_entry : root_sel -> Z -> M pi_state Z := get_page_info_entry.
Definition arm_free_xom_info_node : nat -> root_sel -> Z -> M pi_state unit := free_xom_info_node.
Definition arm_free_xom_info : root_sel -> M pi_state unit := free_xom_info.

Section arm_ops.
Context {P : Type} `{P2mOps P}.

(** ** Arm primitives *)

(** "We don't care about typecounts so we just do the minimum". *)
Definition arm_get_page_type (mfn : Z) : M (domain P) bool := ret true.
Definition arm_put_page_and_type (mfn : Z) : M (domain P) unit := put_page mfn.

(** [p2m_set_mem_access_single] of [arch/arm/mem_access.c] *)
Definition arm_set_mem_access (a gfn : Z) : M (domain P) Z :=
  let! d := get in
  if negb (0 <? d_p2m_lock d) then ub
  else
    let '(mfn, t, _) := get_entry (d_p2m d) gfn in
    if (mfn =? INVALID_MFN) || (t =? p2m_invalid) then ret (- ESRCH)
    else
      let '(rc, p') := set_entry (d_p2m d) gfn mfn t a in
      do! modify (set_p2m p' ({[gfn]} ∪ d_stale d)) in
      ret rc.

(** [p2m_get_entry(p2m, gfn, &ptype, &atype, NULL, NULL)]: [*a] is assigned
    only when the entry is valid. *)
Definition arm_entry_access (p2m : P) (gfn atype : Z) : Z :=
  let '(mfn, _, a) := get_entry p2m gfn in if mfn =? INVALID_MFN then atype else a.

#[export] Instance arm_arch : Arch P := {|
  entry_access := arm_entry_access;
  get_page_type := arm_get_page_type;
  put_page_and_type := arm_put_page_and_type;
  p2m_set_mem_access_single := arm_set_mem_access
|}.

Context `{Xmalloc}.

(** ** The operations *)

(** [gfn_x(gfn) + nr_pages > gfn_x(p2m->max_mapped_gfn) + 1] *)
Definition arm_range_overflow (p2m : P) (gfn nr_pages : Z) : bool :=
  u64 (max_mapped_pfn p2m + 1) <? u64 (gfn + nr_pages).

Fixpoint arm_set_loop (n : nat) (c_gfn rc : Z) : M (domain P) Z :=
  match n with
  | O => ret rc
  | S n =>
      let! rc := p2m_set_mem_access_single p2m_access_x c_gfn in
      if rc <? 0 then ret rc else arm_set_loop n (u64 (c_gfn + 1)) rc
  end.

Definition arm_set_xom_seal (gfn nr_pages : Z) : M (domain P) Z :=
  let! p2m := gets d_p2m in
  if nr_pages =? 0 then ret (- EINVAL)
  else if arm_range_overflow p2m gfn nr_pages then ret (- EOVERFLOW)
  else
    do! p2m_lock in
    let! rc := arm_set_loop (Z.to_nat nr_pages) gfn 0 in
    do! tlb_flush in
    do! p2m_unlock in
    ret rc.

(** [atype] keeps its value from one iteration to the next. *)
Fixpoint arm_clear_loop (atype : Z) (n : nat) (c_gfn rc : Z) : M (domain P) Z :=
  match n with
  | O => ret rc
  | S n =>
      let! p2m := gets d_p2m in
      let atype := entry_access p2m c_gfn atype in
      let! r := clear_page atype c_gfn in
      match r with
      | ClearSkip => arm_clear_loop atype n (u64 (c_gfn + 1)) rc
      | ClearExit rc => ret rc
      | ClearDone rc =>
          if rc <? 0 then ret rc
          else
            do! drop_page_infos c_gfn in
            arm_clear_loop atype n (u64 (c_gfn + 1)) rc
      end
  end.

Definition arm_clear_xom_seal (junk gfn nr_pages : Z) : M (domain P) Z :=
  let! p2m := gets d_p2m in
  if nr_pages =? 0 then ret (- EINVAL)
  else if arm_range_overflow p2m gfn nr_pages then ret (- EOVERFLOW)
  else
    do! p2m_lock in
    let! rc := arm_clear_loop junk (Z.to_nat nr_pages) gfn 0 in
    do! tlb_flush in
    do! p2m_unlock in
    ret rc.

Fixpoint arm_create_loop (atype : Z) (n : nat) (c_gfn rc : Z) : M (domain P) Z :=
  match n with
  | O => ret rc
  | S n =>
      let! p2m := gets d_p2m in
      let atype := entry_access p2m c_gfn atype in
      if atype =? p2m_access_x then ret (- EINVAL)
      else
        let! rc := p2m_set_mem_access_single p2m_access_x c_gfn in
        if rc <? 0 then ret rc
        else
          let! subpage_info := on_pi (arm_add_page_info_entry XomSubpages c_gfn 0) in
          if subpage_info =? NULL then ret (- ENOMEM)
          else arm_create_loop atype n (u64 (c_gfn + 1)) rc
  end.

Definition arm_create_xom_subpages (junk gfn nr_pages : Z) : M (domain P) Z :=
  let! p2m := gets d_p2m in
  if nr_pages =? 0 then ret (- EINVAL)
  else if arm_range_overflow p2m gfn nr_pages then ret (- EOVERFLOW)
  else
    do! p2m_lock in
    let! rc := arm_create_loop junk (Z.to_nat nr_pages) gfn 0 in
    do! tlb_flush in
    do! p2m_unlock in
    ret rc.

Definition arm_write_into_subpage (gfn_dest gfn_src : Z) : M (domain P) Z :=
  let! subpage_info := on_pi (arm_get_page_info_entry XomSubpages gfn_dest) in
  if subpage_info =? NULL then ret (- EINVAL)
  else
    let! p2m := gets d_p2m in
    if max_mapped_pfn p2m <? gfn_src then ret (- EOVERFLOW)
    else
      let! fetched := fetch_command gfn_src in
      match fetched with
      | None => ret (- EINVAL)
      | Some (page, command) =>
          do! put_page page in
          if MAX_SUBPAGES_PER_CMD <? num_subpages command then ret (- EINVAL)
          else
            let! e := on_pi (entry subpage_info) in
            if negb (validate_infos (xpi_info e) (command_infos command)) then ret (- EINVAL)
            else execute_command gfn_dest subpage_info (command_infos command)
      end.

Definition arm_mark_reg_clear_page : Z -> Z -> Z -> M (domain P) Z := mark_reg_clear_page.

(** ** The hypercall *)

(** [junk] is the value of the uninitialised variable of the operation. *)
Definition arm_xom_dispatch (junk : Z) (op : mmuext_op) : M (domain P) Z :=
  if cmd op =? MMUEXT_MARK_XOM then arm_set_xom_seal (arg1 op) (nr_ents op)
  else if cmd op =? MMUEXT_UNMARK_XOM then arm_clear_xom_seal junk (arg1 op) (nr_ents op)
  else if cmd op =? MMUEXT_CREATE_XOM_SPAGES then arm_create_xom_subpages junk (arg1 op) (nr_ents op)
  else if cmd op =? MMUEXT_WRITE_XOM_SPAGES then arm_write_into_subpage (arg1 op) (arg2 op)
  else if cmd op =? MMUEXT_MARK_REG_CLEAR then arm_mark_reg_clear_page junk (arg1 op) (nr_ents op)
  else ret (- EOPNOTSUPP).

Definition arm_xom_op (junk : Z) (op : mmuext_op) : M (domain P) Z :=
  do! xom_lock in
  let! rc := arm_xom_dispatch junk op in
  do! xom_unlock in
  ret rc.

Fixpoint arm_handle_loop (g : guest P) (n : nat) (i : nat) : M (domain P) (Z * option Z) :=
  match n with
  | O => ret (0, if pdone_is_null g then None else Some (Z.of_nat i))
  | S n =>
      if negb (Nat.eqb i 0) && preempt_check g i then ret (- ERESTART, None)
      else
        let! d := get in
        match copy_from_guest g d i with
        | None => ret (- EFAULT, None)
        | Some op =>
            let! rc := arm_xom_op (stack_junk g i) op in
            if rc <? 0 then ret (rc, None) else arm_handle_loop g n (S i)
        end
  end.

Definition arm_handle_xom_seal (g : guest P) (count : Z) : M (domain P) (Z * option Z) :=
  arm_handle_loop g (Z.to_nat count) 0.

(** [do_mmuext_op] of [arch/arm/mmuext.c]; [uops_ok] is
    [guest_handle_okay(uops, count)]. *)
Definition arm_do_mmuext_op (uops_ok : bool) (g : guest P) (count : Z)
    : M (domain P) (Z * option Z) :=
  if negb uops_ok then ret (- EFAULT, None) else arm_handle_xom_seal g count.

(** ** The register-clear type of the current instruction *)

(** [gfn_of_pc]: [walk] is [guest_walk_tables], the guest physical address of
    a virtual one; [vcpu_ok] that [current] has a domain and is initialised. *)
Definition gfn_of_pc (vcpu_ok : bool) (walk : Z -> option Z) (pc : Z) : Z :=
  if negb vcpu_ok then INVALID_GFN
  else match walk pc with None => INVALID_GFN | Some ipa => Z.shiftr ipa 12 end.

Definition arm_get_reg_clear_type (vcpu_ok : bool) (walk : Z -> option Z) (regs : option Z)
    : M (domain P) Z :=
  match regs with
  | None => ret REG_CLEAR_TYPE_NONE
  | Some pc =>
      let instr_gfn := gfn_of_pc vcpu_ok walk pc in
      if instr_gfn =? INVALID_GFN then ret REG_CLEAR_TYPE_NONE
      else
        do! xom_lock in
        let! info := on_pi (arm_get_page_info_entry XomRegClear instr_gfn) in
        let! r := (if negb (info =? NULL)
                   then let! e := on_pi (entry info) in ret (u8 (xpi_info e))
                   else ret REG_CLEAR_TYPE_NONE) in
        do! xom_unlock in
        ret r
  end.
End arm_ops.
