(* ===== verification/XomSealSpec.v ===== *)
(** * Correctness of the x86 hypercall

    The x86 primitives keep the promises of [ArchLaws]; the specifications of
    the five operations of [XomSeal]; and the properties of the hypercall as a
    whole. *)

From S2P Require Import Prelude RbTree RbSpec RbHeap PageInfo PageInfoSpec XomDomain XomSpec XomSeal.

Section laws.
Context {P : Type} `{P2mOps P, !P2mLaws P}.

Lemma x86_set_mem_access_ok (d : domain P) a g :
  wp (set_mem_access a g)
     (fun rc d' => exists p' stale, d' = set_p2m p' stale d /\ access_set d g a rc p') d.
Proof.
  unfold set_mem_access. apply wp_bind, wp_get.
  destruct (get_entry (d_p2m d) g) as [[mfn t] a0] eqn:He.
  destruct (set_entry (d_p2m d) g mfn t a) as [rc p'] eqn:Hs.
  apply wp_bind, wp_modify, wp_ret. eexists p', _. split; [done|]. by eapply set_entry_access_set.
Qed.

Lemma x86_get_page_type_ok (d : domain P) mfn pg :
  d_pages d !! mfn = Some pg ->
  wp (x86_get_page_type mfn)
     (fun b d' => if b : bool
        then exists w, d' = set_pages (<[mfn := Page (pg_data pg) (pg_count pg)
                                          (pg_tcount pg + 1) w]> (d_pages d)) d
        else d' = d) d.
Proof.
  intros Hpg. unfold x86_get_page_type. apply wp_bind, wp_get. rewrite Hpg.
  destruct (_ || _); [|by apply wp_ret].
  apply wp_bind. eapply wp_with_page; [done|done|]. apply wp_ret. eauto.
Qed.

Lemma x86_put_page_and_type_ok (d : domain P) mfn l c t w :
  d_pages d !! mfn = Some (Page l c (t + 1) w) -> 0 < c -> 0 <= t ->
  wp (x86_put_page_and_type mfn)
     (fun _ d' => d' = set_pages (<[mfn := Page l (c - 1) t w]> (d_pages d)) d) d.
Proof.
  intros Hpg Hc Ht. unfold x86_put_page_and_type. apply wp_bind.
  eapply wp_with_page; [done| |].
  { simpl. destruct (0 <? t + 1) eqn:?; [done|lia]. }
  eapply wp_with_page; [apply lookup_insert_eq| |].
  { unfold drop_ref. simpl. destruct (0 <? c) eqn:?; [done|lia]. }
  cbn [pg_data pg_count pg_tcount pg_writable].
  rewrite d_pages_set, set_pages_set, insert_insert_eq.
  by replace (t + 1 - 1) with t by lia.
Qed.

#[export] Program Instance x86_laws : ArchLaws P := {| type_refs := 1 |}.
Next Obligation. done. Qed.
Next Obligation. intros. by apply x86_get_page_type_ok. Qed.
Next Obligation. intros. by apply x86_put_page_and_type_ok. Qed.
Next Obligation. intros. apply x86_set_mem_access_ok. Qed.
Next Obligation. done. Qed.
End laws.

Section ops.
Context {P : Type} `{P2mOps P, !P2mLaws P} `{Xmalloc}.
Implicit Types d : domain P.

(** The p2m code accepts every update. *)
Definition p2m_total : Prop := forall (p : P) g mfn t a, (set_entry p g mfn t a).1 = 0.

Lemma set_mem_access_total d a g :
  p2m_total -> wp (set_mem_access a g) (fun rc _ => rc = 0) d.
Proof.
  intros Ht. unfold set_mem_access. apply wp_bind, wp_get.
  destruct (get_entry (d_p2m d) g) as [[mfn t] a0].
  specialize (Ht (d_p2m d) g mfn t a). destruct (set_entry _ _ _ _ _) as [rc p'].
  by apply wp_bind, wp_modify, wp_ret.
Qed.

(** ** set_xom_seal *)

Lemma set_xom_loop_spec n g d :
  0 <= d_p2m_lock d ->
  wp (set_xom_loop n g 0)
     (fun rc d' => seal_rel (gfns n g) d d' /\ d_pi d' = d_pi d /\ rc <= 0 /\
                   (rc = 0 -> forall c, c ∈ gfns n g -> mapped d c -> sealed d' c)) d.
Proof.
  revert g d. induction n as [|n IH]; intros g d Hl; cbn [set_xom_loop gfns].
  { apply wp_ret. split_and!; [apply seal_rel_refl|done|done|]. intros _ c Hc.
    by apply not_elem_of_nil in Hc. }
  apply wp_bind, wp_p2m_lock, wp_bind.
  eapply wp_mono; [apply seal_page_spec; cbn; lia|].
  intros rc d1 (Hs & Hpi & Hle & Hx). pose proof (sf_lock _ _ (sr_frame _ _ _ Hs)) as Hlk. cbn in Hlk.
  apply wp_bind, wp_p2m_unlock; [lia|].
  pose proof (seal_rel_locked _ _ _ Hs) as Hs1. set (d2 := set_p2m_lock _ d1) in *.
  destruct (Z.ltb_spec rc 0).
  { apply wp_ret. split_and!; [|done|lia|lia].
    eapply seal_rel_trans; [exact Hs1|apply (seal_rel_refl [])|..]; intros c; rewrite ?elem_of_cons, ?elem_of_nil; tauto. }
  assert (rc = 0) as -> by lia.
  eapply wp_mono; [apply (IH (u64 (g + 1)) d2); cbn; lia|].
  intros rc d' (Hs' & Hpi' & Hle' & Hx'). split_and!; [|etrans; [exact Hpi'|exact Hpi]|done|].
  - eapply seal_rel_trans; [exact Hs1|exact Hs'|..]; intros c; rewrite ?elem_of_cons, ?elem_of_nil; tauto.
  - intros -> c [->|Hc]%elem_of_cons Hm; [eapply sealed_mono; [exact Hs'|]; exact (Hx eq_refl Hm)|].
    apply Hx'; [done|done|]. by apply (same_frame_mapped d d2 c (sr_frame _ _ _ Hs1)).
Qed.

(** ** clear_xom_seal *)

Lemma clear_xom_loop_spec n g rc0 d m :
  dom_inv d m ->
  wp (clear_xom_loop n g rc0)
     (fun rc d' => exists m', clear_all (gfns n g) d m d' m' /\
        (0 <= rc -> forall c, c ∈ gfns n g -> sealed d c ->
           wiped d' c /\ forall sel, m' sel !! c = None)) d.
Proof.
  revert g rc0 d m. induction n as [|n IH]; intros g rc0 d m Hinv; cbn [clear_xom_loop gfns].
  { apply wp_ret. exists m. split; [by apply clear_all_refl|].
    intros _ c Hc. by apply not_elem_of_nil in Hc. }
  pose proof (di_lock _ _ Hinv) as Hl0.
  apply wp_bind, wp_p2m_lock, wp_bind, wp_gets. destruct (get_entry _ g) as [[mfn t] a] eqn:He.
  assert (access_of d g = a) as Ha by (unfold access_of; cbn in He; by rewrite He). apply wp_bind.
  eapply wp_mono; [apply clear_page_spec; [apply (di_pages _ _ Hinv)|cbn; lia|done]|].
  intros r d1 Hpost. assert (d_p2m_lock d1 = d_p2m_lock d + 1) as Hlk by apply Hpost.
  apply wp_bind, wp_p2m_unlock; [lia|].
  apply clear_post_locked in Hpost. set (d2 := set_p2m_lock _ d1) in *.
  pose proof (step_inv _ _ _ _ _ Hinv Hpost) as Hinv2.
  pose proof (step_keep _ _ _ _ Hpost) as Hkeep.
  destruct r as [|rc|rc].
  - eapply wp_mono; [by apply (IH (u64 (g + 1)) rc0 d2 m)|].
    intros rc d' (m' & Hca & Hall). exists m'. split; [by eapply clear_all_skip|].
    intros Hrc c Hc Hcs. destruct (decide (c = g)) as [->|Hne]; [by destruct Hpost as (_ & _ & _ & _ & ? & _)|].
    apply elem_of_cons in Hc as [?|Hc]; [done|]. auto.
  - apply wp_ret. exists m. split; [by eapply clear_all_stop|].
    destruct Hpost as (_ & _ & _ & _ & ? & _). lia.
  - apply wp_bind. eapply wp_mono; [by apply drop_page_infos_spec, Hinv2|].
    intros [] d3 (s' & -> & HPI').
    eapply wp_mono; [apply (IH (u64 (g + 1)) rc _ _ (dom_inv_drop _ _ _ _ Hinv2 HPI'))|].
    intros rc' d' (m' & Hca & Hall). exists m'.
    destruct (clear_all_done _ _ _ _ _ Hpost _ _ _ _ _ eq_refl Hca) as (Hca' & Hw & Hn).
    split; [done|]. intros Hrc c Hc Hcs. destruct (decide (c = g)) as [->|Hne]; [done|].
    apply elem_of_cons in Hc as [?|Hc]; [done|]. apply Hall; [done..|]. exact (Hkeep c Hne Hcs).
Qed.

(** ** create_xom_subpages *)

Lemma create_page_spec d c :
  0 < d_p2m_lock d ->
  wp (p2m_set_mem_access_single p2m_access_x c)
     (fun rc d' => seal_rel [c] d d' /\ d_pi d' = d_pi d /\ (p2m_total -> mapped d c -> sealed d' c)) d.
Proof.
  intros Hl. destruct (seal_page_spec d c Hl) as (rc & d' & Hrun & Hs & Hpi & _ & Hx).
  exists rc, d'. split_and!; [done..|]. intros Ht. apply Hx.
  exact (wp_run _ _ _ _ _ (set_mem_access_total d p2m_access_x c Ht) Hrun).
Qed.

Lemma create_loop_spec n g rc0 d m :
  dom_inv d m ->
  wp (create_loop n g rc0)
     (fun rc d' => seal_rel (gfns n g) d d' /\ exists m', dom_inv d' m' /\
        infos_created (gfns n g) d m m' /\ (p2m_total -> reg_sealed d m -> reg_sealed d' m') /\
        (0 <= rc -> forall c, c ∈ gfns n g -> ~ sealed d c /\ m' XomSubpages !! c = Some 0 /\
                                            (p2m_total -> mapped d c -> sealed d' c))) d.
Proof.
  revert g rc0 d m. induction n as [|n IH]; intros g rc0 d m Hinv; cbn [create_loop gfns].
  { apply wp_ret. split; [apply seal_rel_refl|]. exists m. split_and!; [done|apply infos_created_refl|done|].
    intros _ c Hc. by apply not_elem_of_nil in Hc. }
  apply wp_bind, wp_p2m_lock, wp_bind, wp_gets.
  pose proof (di_lock _ _ Hinv) as Hl0.
  destruct (get_entry _ g) as [[mfn t] a] eqn:He.
  assert (access_of d g = a) as Ha by (unfold access_of; cbn in He; by rewrite He).
  destruct (Z.eqb_spec a p2m_access_x) as [->|Hnx].
  { apply wp_bind, wp_p2m_unlock; [cbn; lia|]. apply wp_ret.
    split; [apply (seal_rel_locked _ d), seal_rel_refl|]. exists m.
    split_and!; [|apply infos_created_refl|done|unfold EINVAL; lia].
    eapply (dom_inv_seal []); [done|apply seal_rel_locked, seal_rel_refl|done]. }
  assert (~ sealed d g) as Hnsg by (unfold sealed; congruence).
  apply wp_bind. eapply wp_mono; [apply create_page_spec; cbn; lia|].
  intros rc d1 (Hs & Hpi & Hx). pose proof (sf_lock _ _ (sr_frame _ _ _ Hs)) as Hlk. cbn in Hlk.
  apply wp_bind, wp_p2m_unlock; [lia|].
  apply seal_rel_locked in Hs. set (d2 := set_p2m_lock _ d1) in *.
  assert (dom_inv d2 m) as Hinv2 by (by eapply dom_inv_seal).
  apply wp_bind, wp_on_pi. eapply wp_mono; [by apply add_page_info_entry_spec, Hinv2|].
  intros p s' [(-> & HPI' & _)|(Hp & Hnone & HPI')].
  { apply wp_ret. split; [apply seal_rel_pi; eapply seal_rel_trans; [exact Hs|apply (seal_rel_refl [])|..];
                          intros c; rewrite ?elem_of_cons, ?elem_of_nil; tauto|].
    exists m. split_and!; [|apply infos_created_refl|intros _; exact (reg_sealed_seal _ _ _ _ Hs)|unfold ENOMEM; lia]. split; [done|apply Hinv2..]. }
  rewrite (eqb_neq_false p NULL) by done.
  eapply wp_mono; [by apply (IH (u64 (g + 1)) rc _ _ (dom_inv_add _ _ _ _ Hinv2 HPI'))|].
  intros rc' d' (Hs' & m' & Hinv' & Hm' & Hrs & Hall).
  destruct (infos_created_cons _ _ _ _ _ _ _ Hnsg Hs Hnone Hm') as [Hm'' Hg].
  split; [|exists m'; split_and!; [done|done|..]].
  - eapply seal_rel_trans; [apply seal_rel_pi, Hs|exact Hs'|..];
      intros c; rewrite ?elem_of_cons, ?elem_of_nil; tauto.
  - intros Ht Hr. apply Hrs; [done|]. eapply reg_sealed_add; [exact Hs|exact (Hx Ht)|done].
  - intros Hrc c Hc. destruct (decide (c = g)) as [->|Hne].
    + split_and!; [done|done|]. intros Ht Hmg. eapply sealed_mono; [exact Hs'|].
      exact (Hx Ht Hmg).
    + apply elem_of_cons in Hc as [?|Hc]; [done|]. destruct (Hall Hrc c Hc) as (Hns & Hz & Hx').
      split_and!; [|done|intros Ht Hmc; apply Hx'; [done|]].
      * intros Hsc. apply Hns. by apply (sealed_mono _ _ _ _ Hs) in Hsc.
      * by apply (same_frame_mapped d d2 c (sr_frame _ _ _ Hs)).
Qed.

(** ** The operations *)

Lemma set_xom_seal_spec g n d m :
  dom_inv d m ->
  wp (set_xom_seal g n)
     (fun rc d' => op_rel d m d' m /\ seal_rel (gfns (Z.to_nat n) g) d d' /\ d_pi d' = d_pi d /\
        (rc = 0 -> forall c, c ∈ gfns (Z.to_nat n) g -> mapped d c -> sealed d' c)) d.
Proof.
  intros Hinv. unfold set_xom_seal. apply wp_bind, wp_gets.
  destruct (n =? 0); [|destruct (range_overflow _ _ _)].
  1, 2: apply wp_ret; split_and!; [by apply op_rel_refl|apply seal_rel_refl|done|by intros ?].
  apply wp_bind. eapply wp_mono; [apply set_xom_loop_spec, Hinv|].
  intros rc d' (Hs & Hpi & Hle & Hx). apply wp_bind, wp_tlb_flush, wp_ret.
  apply seal_rel_flush in Hs. split_and!; [|done|done|exact Hx].
  eapply seal_op_rel; [exact Hs| |apply infos_created_refl|done].
  by eapply dom_inv_seal.
Qed.

Lemma clear_xom_seal_spec g n d m :
  dom_inv d m ->
  wp (clear_xom_seal g n)
     (fun rc d' => clear_rel d d' /\ exists m', op_rel d m d' m' /\
        infos_cleared (gfns (Z.to_nat n) g) d' m m' /\ seals_cleared d d' m' /\
        (0 <= rc -> forall c, c ∈ gfns (Z.to_nat n) g -> sealed d c ->
           wiped d' c /\ forall sel, m' sel !! c = None)) d.
Proof.
  intros Hinv. unfold clear_xom_seal. apply wp_bind, wp_gets.
  destruct (n =? 0); [|destruct (range_overflow _ _ _)].
  1, 2: apply wp_ret; split; [done|]; exists m; split_and!; [by apply op_rel_refl|by left|by left|by intros ?].
  apply wp_bind. eapply wp_mono; [by apply clear_xom_loop_spec|].
  intros rc d' (m' & [Hc Hinv' Hm Hd Hsc] & Hall). apply wp_bind, wp_tlb_flush, wp_ret.
  apply clear_rel_flush in Hc. split; [done|]. exists m'. split_and!; [|exact Hm|exact Hsc|exact Hall].
  eapply clear_op_rel; [done|by apply dom_inv_flush|exact Hm|exact Hd|done].
Qed.

Lemma create_xom_subpages_spec g n d m :
  dom_inv d m ->
  wp (create_xom_subpages g n)
     (fun rc d' => seal_rel (gfns (Z.to_nat n) g) d d' /\ exists m', op_rel d m d' m' /\
        infos_created (gfns (Z.to_nat n) g) d m m' /\
        (p2m_total -> reg_sealed d m -> reg_sealed d' m') /\
        (0 <= rc -> forall c, c ∈ gfns (Z.to_nat n) g -> ~ sealed d c /\
           m' XomSubpages !! c = Some 0 /\ (p2m_total -> mapped d c -> sealed d' c))) d.
Proof.
  intros Hinv. unfold create_xom_subpages. apply wp_bind, wp_gets.
  destruct (n =? 0); [|destruct (range_overflow _ _ _)].
  1, 2: apply wp_ret; split; [apply seal_rel_refl|]; exists m;
    split_and!; [by apply op_rel_refl|apply infos_created_refl|done|by intros ?].
  apply wp_bind. eapply wp_mono; [by apply create_loop_spec|].
  intros rc d' (Hs & m' & Hinv' & Hm & Hrs & Hall). apply wp_bind, wp_tlb_flush, wp_ret.
  apply seal_rel_flush in Hs. split; [done|]. exists m'. split_and!; [|exact Hm|exact Hrs|exact Hall].
  eapply seal_op_rel; [done|by apply dom_inv_flush|done|done].
Qed.

Lemma write_into_subpage_spec gfn_dest gfn_src d m :
  dom_inv d m ->
  wp (write_into_subpage gfn_dest gfn_src)
     (fun rc d' => (rc < 0 /\ d' = d) \/
        (rc = 0 /\ exists m', op_rel d m d' m' /\ write_post d m gfn_dest gfn_src d' m')) d.
Proof.
  intros Hinv. pose proof (di_lock _ _ Hinv) as Hl0. unfold write_into_subpage.
  apply wp_bind, wp_on_pi. eapply wp_mono; [apply get_page_info_entry_at, Hinv|].
  intros p s [-> He]. rewrite set_pi_id.
  destruct (m XomSubpages !! gfn_dest) as [w|] eqn:Hm.
  2: { unfold entry_at in He. rewrite Hm in He. subst p. apply wp_ret. left.
       split; [apply neg_rc|]; auto. }
  pose proof He as He0. unfold entry_at in He0. rewrite Hm in He0. destruct He0 as (Hp & Hi & _).
  rewrite (eqb_neq_false p NULL) by done.
  apply wp_bind, wp_gets. destruct (max_mapped_pfn _ <? gfn_src).
  { apply wp_ret. left. split; [apply neg_rc|]; auto. }
  apply wp_bind, wp_p2m_lock, wp_bind. eapply wp_mono; [apply fetch_command_spec, Hinv|].
  intros [[mfn c]|] d1 Hc.
  2: { subst d1. apply wp_bind, wp_p2m_unlock; [cbn; lia|]. apply wp_ret. left. split; [apply neg_rc; auto|].
       apply unlock_lock. }
  destruct Hc as (src & -> & Hsrc & -> & ->). apply wp_bind, wp_p2m_unlock; [cbn; lia|].
  change (frame_of (set_p2m_lock (d_p2m_lock d + 1) d) gfn_src) with (frame_of d gfn_src) in *. cbn in Hsrc.
  cbn [d_p2m_lock set_pages set_p2m_lock d_pages]. rewrite fetched_unlock.
  apply wp_bind, wp_put_page; [done|by eapply (di_pages _ _ Hinv)|]. destruct (Z.ltb_spec MAX_SUBPAGES_PER_CMD (num_subpages (read_command (pg_data src)))).
  { apply wp_ret. left. split; [apply neg_rc|]; auto. }
  apply wp_bind, wp_on_pi. eapply wp_entry; [exact Hi|]. rewrite set_pi_id. cbn [xpi_info].
  destruct (validate_infos _ _) eqn:Hv; simpl; [|apply wp_ret; left; split; [apply neg_rc|]; auto].
  destruct (di_pages _ _ Hinv _ _ Hsrc) as (Hb & _).
  destruct (validated_wf _ _ Hb ltac:(lia) Hv) as (Hwf & Hbs & Hun).
  apply wp_bind, wp_p2m_lock, wp_bind. eapply wp_mono.
  { apply (execute_command_spec (set_p2m_lock (d_p2m_lock d + 1) d) m gfn_dest w p);
      [apply Hinv|done|exact He]. }
  intros rc d2 [[Hrc ->]|(-> & pg & typ & s' & Hpg & HPI & ->)];
    (apply wp_bind, wp_p2m_unlock; [cbn; lia|]); apply wp_ret.
  { left. split; [done|]. apply unlock_lock. }
  right. split; [done|].
  pose proof (written_unlock d gfn_dest (command_infos (read_command (pg_data src))) pg typ s') as Heq.
  unfold written at 1 in Heq. cbn in Heq |- *. rewrite Heq.
  eexists. split; [by eapply write_op_rel|]. eexists w, src, pg, typ, s'. by split_and!.
Qed.

(** ** The hypercall *)

Lemma xom_dispatch_spec op d m :
  dom_inv d m ->
  wp (xom_dispatch op)
     (fun _ d' => exists m', op_rel d m d' m' /\ (p2m_total -> reg_sealed d m -> reg_sealed d' m')) d.
Proof.
  intros Hinv. unfold xom_dispatch.
  destruct (_ =? _).
  { eapply wp_mono; [by apply set_xom_seal_spec|]. intros rc d' (Hr & Hs & _).
    exists m. split; [done|]. intros _. by apply reg_sealed_seal with (gfns (Z.to_nat (nr_ents op)) (arg1 op)). }
  destruct (_ =? _).
  { eapply wp_mono; [by apply clear_xom_seal_spec|]. intros rc d' (_ & m' & Hr & Hm & Hs & _).
    exists m'. split; [done|]. intros _. eapply reg_sealed_clear; [apply Hr|done..]. }
  destruct (_ =? _).
  { eapply wp_mono; [by apply create_xom_subpages_spec|]. intros rc d' (_ & m' & Hr & _ & Hs & _). eauto. }
  destruct (_ =? _).
  { eapply wp_mono; [by apply write_into_subpage_spec|].
    intros rc d' [[_ ->]|(_ & m' & Hr & Hw)]; [exists m; split; [by apply op_rel_refl|done]|].
    exists m'. split; [done|]. intros _ Hreg. by eapply reg_sealed_write. }
  destruct (_ =? _).
  { eapply wp_mono; [apply mark_reg_clear_page_spec; [done|apply Z.mod_pos_bound; lia]|].
    intros rc d' (Hp & _ & [[_ Hr]|(_ & Hsg & _ & _ & Hr)]); eexists; (split; [exact Hr|]); intros _;
      (apply reg_sealed_p2m; [done|]); [auto|by apply marks_sealed; intros _]. }
  apply wp_ret. exists m. split; [by apply op_rel_refl|done].
Qed.

Lemma xom_op_spec op d m :
  dom_inv d m -> d_xom_page_lock d = false ->
  wp (xom_op op)
     (fun _ d' => exists m', op_rel d m d' m' /\ (p2m_total -> reg_sealed d m -> reg_sealed d' m')) d.
Proof.
  intros Hinv Hlk. unfold xom_op. apply wp_bind. eexists tt, _. split.
  { unfold xom_lock. by rewrite Hlk. }
  apply wp_bind. eapply wp_mono; [apply (xom_dispatch_spec op _ m); by destruct Hinv|].
  intros rc d' (m' & Hr & Hreg). apply wp_bind. eexists tt, _. split.
  { unfold xom_unlock. rewrite (sf_xom _ _ (or_frame _ _ _ _ Hr)). done. }
  apply wp_ret. exists m'. split; [by apply op_rel_locked|exact Hreg].
Qed.

(** The [i]-th operation of a batch. *)
Definition batch_op (gs : guest P) (i : nat) (x y : domain P * (root_sel -> gmap Z Z)) : Prop :=
  exists op rc, copy_from_guest gs x.1 i = Some op /\ xom_op op x.1 = Some (rc, y.1).

Definition batch_step gs i x y : Prop := batch_op gs i x y /\ op_step p2m_total x y.

Lemma handle_loop_spec gs n i d m :
  dom_inv d m -> d_xom_page_lock d = false ->
  wp (handle_loop gs n i)
     (fun r d' => exists m' tr, trace (batch_step gs) i (d, m) tr (d', m') /\
        (r.1 = 0 -> r.2 = if pdone_is_null gs then None else Some (Z.of_nat (i + n)))) d.
Proof.
  revert i d m. induction n as [|n IH]; intros i d m Hinv Hlk; cbn [handle_loop].
  { apply wp_ret. exists m, [(d, m)]. split; [apply trace_end|]. by rewrite Nat.add_0_r. }
  destruct (_ || _); [apply wp_ret; exists m, [(d, m)]; split; [apply trace_end|by intros ?]|].
  apply wp_bind, wp_get.
  destruct (copy_from_guest gs d i) as [op|] eqn:Hop; [|apply wp_ret; exists m, [(d, m)]; split; [apply trace_end|by intros ?]].
  apply wp_bind. destruct (xom_op_spec op d m Hinv Hlk) as (rc & d' & Hrun & m' & Hr & Hreg).
  exists rc, d'. split; [done|].
  assert (batch_step gs i (d, m) (d', m')) as Hstep by (split; [by exists op, rc|done]).
  destruct (Z.ltb_spec rc 0).
  { apply wp_ret. eexists m', _. split; [eapply trace_step; [exact Hstep|apply trace_end]|simpl; lia]. }
  eapply wp_mono; [apply (IH (S i) d' m'); [apply Hr|]|].
  - rewrite (sf_xom _ _ (or_frame _ _ _ _ Hr)). done.
  - intros r d'' (m'' & tr & Htr & Hp). eexists m'', _. split; [by eapply trace_step|].
    intros Hr0. rewrite Hp by done. by rewrite Nat.add_succ_r.
Qed.

Lemma handle_xom_seal_spec gs count d m :
  dom_inv d m -> d_xom_page_lock d = false ->
  wp (handle_xom_seal gs count)
     (fun r d' => exists m' tr, trace (batch_step gs) 0 (d, m) tr (d', m') /\
        (r.1 = 0 -> r.2 = if pdone_is_null gs then None else Some (Z.of_nat (Z.to_nat count)))) d.
Proof.
  intros Hinv Hlk. unfold handle_xom_seal. apply wp_bind, wp_get.
  destruct (_ || _); [apply wp_ret; exists m, [(d, m)]; split; [apply trace_end|by intros ?]|].
  by apply handle_loop_spec.
Qed.

Lemma batch_trace_inv gs i x tr y :
  trace (batch_step gs) i x tr y -> dom_inv x.1 x.2 -> forall n y, tr !! n = Some y -> dom_inv y.1 y.2.
Proof.
  intros Htr Hinv n y' Hy. destruct (trace_until (batch_step gs) (fun _ => True) (fun x => dom_inv x.1 x.2)
    (fun _ => False) i x tr y) with (n := n) (y := y') as [?|(? & ? & _ & _ & [])]; try done; [|by left].
  intros ? ? ? [_ [Hr _]] _ _. left. apply Hr.
Qed.

Lemma batch_trace_guarded gs i x tr y :
  trace (batch_step gs) i x tr y -> frame_inj x.1 -> forall g, sealed x.1 g -> is_Some (d_pages x.1 !! frame_of x.1 g) ->
  forall n y, tr !! n = Some y -> guarded x y g \/ exists k z, (k <= n)%nat /\ tr !! k = Some z /\ wiped z.1 g.
Proof.
  intros Htr Hinj g Hs Hpg. eapply (trace_until _ (fun x => frame_inj x.1) (fun y => guarded x y g)
    (fun z => wiped z.1 g)); [..|exact Htr|done|].
  - intros ? ? ? [_ [Hr _]]. by eapply frame_inj_step.
  - intros ? ? ? [_ [Hr _]] Hi. by apply guarded_step.
  - left. apply guarded_refl; [done|]. by apply fmap_is_Some.
Qed.

Lemma batch_rtc gs i x tr y : trace (batch_step gs) i x tr y -> rtc (op_step p2m_total) x y.
Proof. apply trace_rtc. by intros ? ? ? [_ ?]. Qed.
End ops.
