(* ===== verification/XomSealArmSpec.v ===== *)
(** * Correctness of the Arm hypercall

    The same specifications as on x86.  Because the Arm code stops at the
    first p2m update that fails, a registered page that has memory behind it
    is sealed in every state, if an update that fails changes nothing. *)

From S2P Require Import Prelude RbTree RbSpec RbHeap PageInfo PageInfoSpec XomDomain XomSpec XomSealArm.

Section laws.
Context {P : Type} `{P2mOps P, !P2mLaws P}.

Lemma arm_set_mem_access_ok (d : domain P) a g :
  0 < d_p2m_lock d ->
  wp (arm_set_mem_access a g)
     (fun rc d' => exists p' stale, d' = set_p2m p' stale d /\ access_set d g a rc p' /\
        (rc = 0 -> get_entry p' g = ((get_entry (d_p2m d) g).1, a))) d.
Proof.
  intros Hl. unfold arm_set_mem_access. apply wp_bind, wp_get.
  destruct (0 <? d_p2m_lock d) eqn:Hl0; [|lia]. cbn [negb].
  destruct (get_entry (d_p2m d) g) as [[mfn t] a0] eqn:He.
  destruct (_ || _) eqn:Hsrch.
  { apply wp_ret. exists (d_p2m d), (d_stale d). split_and!; [by destruct d| |done].
    unfold access_set. split_and!; [done|done|by right|done]. }
  destruct (set_entry (d_p2m d) g mfn t a) as [rc p'] eqn:Hs.
  apply wp_bind, wp_modify, wp_ret. eexists p', _. split_and!; [done|by eapply set_entry_access_set|].
  intros ->. apply orb_false_elim in Hsrch as [Hv _]. destruct (set_entry_ok _ _ _ _ _ _ _ He Hs) as [H1 _].
  by rewrite Hv in H1.
Qed.

#[export] Program Instance arm_laws : ArchLaws P := {| type_refs := 0 |}.
Next Obligation. done. Qed.
Next Obligation.
  intros d mfn pg Hpg _. apply wp_ret. exists (pg_writable pg). symmetry.
  apply set_pages_id. rewrite Hpg. destruct pg; simpl. by rewrite Z.add_0_r.
Qed.
Next Obligation.
  intros d mfn l c t w Hpg Hc Ht. eapply wp_with_page; [exact Hpg| |].
  { unfold drop_ref. simpl. destruct (0 <? c) eqn:?; [done|lia]. }
  cbn. by rewrite Z.add_0_r.
Qed.
Next Obligation.
  intros d a g Hl. eapply wp_mono; [by apply arm_set_mem_access_ok|].
  intros rc d' (p' & stale & -> & Hset & _). by eexists p', stale.
Qed.
Next Obligation.
  intros d g a. unfold mapped, frame_of, access_of. cbn. unfold arm_entry_access.
  destruct (get_entry _ _) as [[mfn t] a']. cbn. by destruct (Z.eqb_spec mfn INVALID_MFN).
Qed.

(** Success means that the frame is sealed: unmapped frames are refused. *)
Lemma arm_seal_page_spec (d : domain P) c :
  0 < d_p2m_lock d ->
  wp (p2m_set_mem_access_single p2m_access_x c)
     (fun rc d' => seal_rel [c] d d' /\ d_pi d' = d_pi d /\ rc <= 0 /\ (rc = 0 -> sealed d' c)) d.
Proof.
  intros Hl. eapply wp_mono; [apply wp_and; [by apply seal_page_spec|by apply arm_set_mem_access_ok]|].
  intros rc d' [(Hs & Hpi & Hle & _) (p' & stale & -> & _ & Hrc)]. split_and!; [done..|].
  intros ->. unfold sealed, access_of. cbn. by rewrite Hrc.
Qed.
End laws.

Section ops.
Context {P : Type} `{P2mOps P, !P2mLaws P} `{Xmalloc}.
Implicit Types d : domain P.

(** ** The loops *)

Lemma arm_set_loop_spec n g d :
  0 < d_p2m_lock d ->
  wp (arm_set_loop n g 0)
     (fun rc d' => seal_rel (gfns n g) d d' /\ d_pi d' = d_pi d /\
                   (rc = 0 -> forall c, c ∈ gfns n g -> sealed d' c)) d.
Proof.
  revert g d. induction n as [|n IH]; intros g d Hl; cbn [arm_set_loop gfns].
  { apply wp_ret. split_and!; [apply seal_rel_refl|done|]. intros _ c Hc.
    by apply not_elem_of_nil in Hc. }
  apply wp_bind. eapply wp_mono; [by apply arm_seal_page_spec|].
  intros rc d1 (Hs & Hpi & Hle & Hx). pose proof (sf_lock _ _ (sr_frame _ _ _ Hs)) as Hlk.
  destruct (Z.ltb_spec rc 0).
  { apply wp_ret. split_and!; [|done|lia].
    eapply seal_rel_trans; [exact Hs|apply (seal_rel_refl [])|..];
      intros c; rewrite ?elem_of_cons, ?elem_of_nil; tauto. }
  assert (rc = 0) as -> by lia.
  eapply wp_mono; [apply (IH (u64 (g + 1)) d1); lia|].
  intros rc d' (Hs' & Hpi' & Hx'). split_and!; [|congruence|].
  - eapply seal_rel_trans; [exact Hs|exact Hs'|..]; intros c; rewrite ?elem_of_cons, ?elem_of_nil; tauto.
  - intros -> c [->|Hc]%elem_of_cons; [|auto]. eapply sealed_mono; [exact Hs'|]. exact (Hx eq_refl).
Qed.

Lemma arm_create_loop_spec junk n g d m :
  dom_inv d m -> 0 < d_p2m_lock d ->
  wp (arm_create_loop junk n g 0)
     (fun rc d' => seal_rel (gfns n g) d d' /\ exists m', dom_inv d' m' /\
        infos_created (gfns n g) d m m' /\ (reg_sealed d m -> reg_sealed d' m') /\
        (0 <= rc -> forall c, c ∈ gfns n g -> ~ sealed d c /\ m' XomSubpages !! c = Some 0 /\
                                            sealed d' c)) d.
Proof.
  revert junk g d m. induction n as [|n IH]; intros junk g d m Hinv Hl; cbn [arm_create_loop gfns].
  { apply wp_ret. split; [apply seal_rel_refl|]. exists m. split_and!; [done|apply infos_created_refl|done|].
    intros _ c Hc. by apply not_elem_of_nil in Hc. }
  apply wp_bind, wp_gets.
  cbv zeta. destruct (Z.eqb_spec (entry_access (d_p2m d) g junk) p2m_access_x) as [Hnx|Hnx].
  { apply wp_ret. split; [apply seal_rel_refl|]. exists m.
    split_and!; [done|apply infos_created_refl|done|unfold EINVAL; lia]. }
  assert (~ sealed d g) as Hnsg.
  { intros Hs. apply Hnx. rewrite entry_access_ok; [exact Hs|by eapply sealed_mapped]. }
  apply wp_bind. eapply wp_mono; [by apply arm_seal_page_spec|].
  intros rc d2 (Hs & Hpi & Hle & Hx). pose proof (sf_lock _ _ (sr_frame _ _ _ Hs)) as Hlk.
  assert (dom_inv d2 m) as Hinv2 by (by eapply dom_inv_seal).
  assert (seal_rel (g :: gfns n (u64 (g + 1))) d d2) as Hs0.
  { eapply seal_rel_trans; [exact Hs|apply (seal_rel_refl [])|..];
      intros c; rewrite ?elem_of_cons, ?elem_of_nil; tauto. }
  destruct (Z.ltb_spec rc 0).
  { apply wp_ret. split; [done|]. exists m.
    split_and!; [done|apply infos_created_refl|by apply (reg_sealed_seal _ _ _ _ Hs)|lia]. }
  assert (rc = 0) as -> by lia. specialize (Hx eq_refl).
  apply wp_bind, wp_on_pi. eapply wp_mono; [by apply add_page_info_entry_spec, Hinv2|].
  intros p s' [(-> & HPI' & _)|(Hp & Hnone & HPI')].
  { apply wp_ret. split; [by apply seal_rel_pi|]. exists m.
    split_and!; [|apply infos_created_refl|exact (reg_sealed_seal _ _ _ _ Hs)|unfold ENOMEM; lia].
    split; [done|apply Hinv2..]. }
  rewrite (eqb_neq_false p NULL) by done.
  eapply wp_mono; [by apply (IH _ (u64 (g + 1)) _ _ (dom_inv_add _ _ _ _ Hinv2 HPI') ltac:(cbn; lia))|].
  intros rc' d' (Hs' & m' & Hinv' & Hm' & Hrs & Hall).
  destruct (infos_created_cons _ _ _ _ _ _ _ Hnsg Hs Hnone Hm') as [Hm'' Hg].
  split; [|exists m'; split_and!; [done|done|..]].
  - eapply seal_rel_trans; [apply seal_rel_pi, Hs|exact Hs'|..];
      intros c; rewrite ?elem_of_cons, ?elem_of_nil; tauto.
  - intros Hr. apply Hrs. by eapply reg_sealed_add.
  - intros Hrc c Hc. destruct (decide (c = g)) as [->|Hne].
    + split_and!; [done|done|]. by eapply sealed_mono; [exact Hs'|].
    + apply elem_of_cons in Hc as [?|Hc]; [done|]. destruct (Hall Hrc c Hc) as (Hns & Hz & Hx').
      split_and!; [|done|done]. intros Hsc. apply Hns. by apply (sealed_mono _ _ _ _ Hs) in Hsc.
Qed.

Lemma arm_clear_loop_spec `{!P2mAtomic P} junk n g rc0 d m :
  dom_inv d m -> 0 < d_p2m_lock d ->
  wp (arm_clear_loop junk n g rc0)
     (fun rc d' => exists m', clear_all (gfns n g) d m d' m' /\
        (0 <= rc -> forall c, c ∈ gfns n g -> sealed d c ->
           wiped d' c /\ ~ sealed d' c /\ forall sel, m' sel !! c = None)) d.
Proof.
  revert junk g rc0 d m. induction n as [|n IH]; intros junk g rc0 d m Hinv Hl; cbn [arm_clear_loop gfns].
  { apply wp_ret. exists m. split; [by apply clear_all_refl|].
    intros _ c Hc. by apply not_elem_of_nil in Hc. }
  apply wp_bind, wp_gets. cbv zeta. apply wp_bind.
  eapply wp_mono; [apply clear_page_spec; [apply (di_pages _ _ Hinv)|done|apply entry_access_ok]|].
  intros r d2 Hpost. assert (d_p2m_lock d2 = d_p2m_lock d) as Hlk by apply Hpost.
  pose proof (step_inv _ _ _ _ _ Hinv Hpost) as Hinv2.
  pose proof (step_keep _ _ _ _ Hpost) as Hkeep.
  destruct r as [|rc|rc].
  - eapply wp_mono; [apply (IH _ (u64 (g + 1)) rc0 d2 m); [done|lia]|].
    intros rc d' (m' & Hca & Hall). exists m'. split; [by eapply clear_all_skip|].
    intros Hrc c Hc Hcs. destruct (decide (c = g)) as [->|Hne]; [by destruct Hpost as (_ & _ & _ & _ & ? & _)|].
    apply elem_of_cons in Hc as [?|Hc]; [done|]. auto.
  - apply wp_ret. exists m. split; [by eapply clear_all_stop|].
    destruct Hpost as (_ & _ & _ & _ & ? & _). lia.
  - destruct (Z.ltb_spec rc 0) as [Hneg|Hnn].
    { apply wp_ret. exists m. split; [|lia]. eapply clear_all_stop; [done..|].
      destruct Hpost as (_ & _ & _ & _ & _ & _ & _ & _ & Hat). auto. }
    assert (~ sealed d2 g) as Hns.
    { destruct Hpost as (_ & _ & _ & _ & _ & _ & _ & [Hx|[? _]] & _); [unfold sealed; by rewrite Hx|lia]. }
    apply wp_bind. eapply wp_mono; [by apply drop_page_infos_spec, Hinv2|].
    intros [] d3 (s' & -> & HPI').
    eapply wp_mono; [apply (IH _ (u64 (g + 1)) rc _ _ (dom_inv_drop _ _ _ _ Hinv2 HPI')); cbn; lia|].
    intros rc' d' (m' & Hca & Hall). exists m'.
    destruct (clear_all_done _ _ _ _ _ Hpost _ _ _ _ _ eq_refl Hca) as (Hca' & Hw & Hn).
    split; [done|]. intros Hrc' c Hc Hcs. destruct (decide (c = g)) as [->|Hne].
    + split_and!; [done| |done]. intros Hsg.
      destruct (cr_access _ _ (ca_rel _ _ _ _ _ Hca) g) as [Heq|(Hsg' & _)]; [|done].
      apply Hns. unfold sealed in *. by rewrite <-Hsg, Heq.
    + apply elem_of_cons in Hc as [?|Hc]; [done|]. apply Hall; [done..|]. exact (Hkeep c Hne Hcs).
Qed.

(** ** The operations *)

Lemma arm_set_xom_seal_spec g n d m :
  dom_inv d m ->
  wp (arm_set_xom_seal g n)
     (fun rc d' => op_rel d m d' m /\ seal_rel (gfns (Z.to_nat n) g) d d' /\
        (rc = 0 -> forall c, c ∈ gfns (Z.to_nat n) g -> sealed d' c)) d.
Proof.
  intros Hinv. pose proof (di_lock _ _ Hinv) as Hl0. unfold arm_set_xom_seal. apply wp_bind, wp_gets.
  destruct (n =? 0); [|destruct (arm_range_overflow _ _ _)].
  1, 2: apply wp_ret; split_and!; [by apply op_rel_refl|apply seal_rel_refl|by intros ?].
  apply wp_bind, wp_p2m_lock, wp_bind. eapply wp_mono; [apply arm_set_loop_spec; cbn; lia|].
  intros rc d' (Hs & Hpi & Hx). assert (d_p2m_lock d' = d_p2m_lock d + 1) as Hlk by apply Hs.
  apply wp_bind, wp_tlb_flush, wp_bind, wp_p2m_unlock; [cbn; lia|]. apply wp_ret.
  apply unlock_flush_seal in Hs. split_and!; [|done|exact Hx].
  eapply seal_op_rel; [exact Hs| |apply infos_created_refl|done]. by eapply dom_inv_seal.
Qed.

Lemma arm_clear_xom_seal_spec `{!P2mAtomic P} junk g n d m :
  dom_inv d m ->
  wp (arm_clear_xom_seal junk g n)
     (fun rc d' => clear_rel d d' /\ exists m', op_rel d m d' m' /\
        infos_cleared (gfns (Z.to_nat n) g) d' m m' /\ seals_cleared d d' m' /\
        (0 <= rc -> forall c, c ∈ gfns (Z.to_nat n) g -> sealed d c ->
           wiped d' c /\ ~ sealed d' c /\ forall sel, m' sel !! c = None)) d.
Proof.
  intros Hinv. pose proof (di_lock _ _ Hinv) as Hl0. unfold arm_clear_xom_seal. apply wp_bind, wp_gets.
  destruct (n =? 0); [|destruct (arm_range_overflow _ _ _)].
  1, 2: apply wp_ret; split; [done|]; exists m; split_and!; [by apply op_rel_refl|by left|by left|by intros ?].
  apply wp_bind, wp_p2m_lock, wp_bind.
  eapply wp_mono; [apply (arm_clear_loop_spec _ _ _ _ _ m); [apply dom_inv_lock; [done|lia]|cbn; lia]|].
  intros rc d' (m' & [Hc Hinv' Hm Hd Hsc] & Hall).
  assert (d_p2m_lock d' = d_p2m_lock d + 1) as Hlk by apply Hc.
  apply wp_bind, wp_tlb_flush, wp_bind, wp_p2m_unlock; [cbn; lia|]. apply wp_ret.
  apply unlock_flush_clear in Hc. split; [done|]. exists m'. split_and!; [|exact Hm|exact Hsc|exact Hall].
  eapply clear_op_rel; [done|apply dom_inv_lock; [by apply dom_inv_flush|cbn; lia]|exact Hm|exact Hd|done].
Qed.

Lemma arm_create_xom_subpages_spec junk g n d m :
  dom_inv d m ->
  wp (arm_create_xom_subpages junk g n)
     (fun rc d' => seal_rel (gfns (Z.to_nat n) g) d d' /\ exists m', op_rel d m d' m' /\
        infos_created (gfns (Z.to_nat n) g) d m m' /\ (reg_sealed d m -> reg_sealed d' m') /\
        (0 <= rc -> forall c, c ∈ gfns (Z.to_nat n) g -> ~ sealed d c /\
           m' XomSubpages !! c = Some 0 /\ sealed d' c)) d.
Proof.
  intros Hinv. pose proof (di_lock _ _ Hinv) as Hl0. unfold arm_create_xom_subpages. apply wp_bind, wp_gets.
  destruct (n =? 0); [|destruct (arm_range_overflow _ _ _)].
  1, 2: apply wp_ret; split; [apply seal_rel_refl|]; exists m;
    split_and!; [by apply op_rel_refl|apply infos_created_refl|done|by intros ?].
  apply wp_bind, wp_p2m_lock, wp_bind.
  eapply wp_mono; [apply (arm_create_loop_spec _ _ _ _ m); [apply dom_inv_lock; [done|lia]|cbn; lia]|].
  intros rc d' (Hs & m' & Hinv' & Hm & Hrs & Hall).
  assert (d_p2m_lock d' = d_p2m_lock d + 1) as Hlk by apply Hs.
  apply wp_bind, wp_tlb_flush, wp_bind, wp_p2m_unlock; [cbn; lia|]. apply wp_ret.
  apply unlock_flush_seal in Hs. split; [done|]. exists m'. split_and!; [|exact Hm|exact Hrs|exact Hall].
  eapply seal_op_rel; [done|apply dom_inv_lock; [by apply dom_inv_flush|cbn; lia]|done|done].
Qed.

Lemma arm_write_into_subpage_spec gfn_dest gfn_src d m :
  dom_inv d m ->
  wp (arm_write_into_subpage gfn_dest gfn_src)
     (fun rc d' => (rc < 0 /\ d' = d) \/
        (rc = 0 /\ exists m', op_rel d m d' m' /\ write_post d m gfn_dest gfn_src d' m')) d.
Proof.
  intros Hinv. unfold arm_write_into_subpage.
  apply wp_bind, wp_on_pi. eapply wp_mono; [apply get_page_info_entry_at, Hinv|].
  intros p s [-> He]. rewrite set_pi_id.
  destruct (m XomSubpages !! gfn_dest) as [w|] eqn:Hm.
  2: { unfold entry_at in He. rewrite Hm in He. subst p. apply wp_ret. left.
       split; [apply neg_rc|]; auto. }
  pose proof He as He0. unfold entry_at in He0. rewrite Hm in He0. destruct He0 as (Hp & Hi & _).
  rewrite (eqb_neq_false p NULL) by done.
  apply wp_bind, wp_gets. destruct (max_mapped_pfn _ <? gfn_src).
  { apply wp_ret. left. split; [apply neg_rc|]; auto. }
  apply wp_bind. eapply wp_mono; [apply fetch_command_spec, Hinv|].
  intros [[mfn c]|] d1 Hc; [|subst d1; apply wp_ret; left; split; [apply neg_rc|]; auto].
  destruct Hc as (src & -> & Hsrc & -> & ->).
  apply wp_bind, wp_put_page; [done|by eapply (di_pages _ _ Hinv)|]. destruct (Z.ltb_spec MAX_SUBPAGES_PER_CMD (num_subpages (read_command (pg_data src)))).
  { apply wp_ret. left. split; [apply neg_rc|]; auto. }
  apply wp_bind, wp_on_pi. eapply wp_entry; [exact Hi|]. rewrite set_pi_id. cbn [xpi_info].
  destruct (validate_infos _ _) eqn:Hv; simpl; [|apply wp_ret; left; split; [apply neg_rc|]; auto].
  destruct (di_pages _ _ Hinv _ _ Hsrc) as (Hb & _).
  destruct (validated_wf _ _ Hb ltac:(lia) Hv) as (Hwf & Hbs & Hun).
  eapply wp_mono; [apply (execute_command_spec d m gfn_dest w p); [apply Hinv|done|exact He]|].
  intros rc d2 [[Hrc ->]|(-> & pg & typ & s' & Hpg & HPI & ->)]; [by left|].
  right. split; [done|].
  eexists. split; [by eapply (write_op_rel d m gfn_dest w _ pg typ s')|].
  eexists w, src, pg, typ, s'. by split_and!.
Qed.

(** ** The hypercall *)

Context `{!P2mAtomic P}.

Lemma arm_xom_dispatch_spec junk op d m :
  dom_inv d m ->
  wp (arm_xom_dispatch junk op)
     (fun _ d' => exists m', op_rel d m d' m' /\ (reg_sealed d m -> reg_sealed d' m')) d.
Proof.
  intros Hinv. unfold arm_xom_dispatch.
  destruct (_ =? _).
  { eapply wp_mono; [by apply arm_set_xom_seal_spec|]. intros rc d' (Hr & Hs & _).
    exists m. split; [done|]. by apply reg_sealed_seal with (gfns (Z.to_nat (nr_ents op)) (arg1 op)). }
  destruct (_ =? _).
  { eapply wp_mono; [by apply arm_clear_xom_seal_spec|]. intros rc d' (_ & m' & Hr & Hm & Hs & _).
    exists m'. split; [done|]. eapply reg_sealed_clear; [apply Hr|done..]. }
  destruct (_ =? _).
  { eapply wp_mono; [by apply arm_create_xom_subpages_spec|]. intros rc d' (_ & m' & Hr & _ & Hs & _). eauto. }
  destruct (_ =? _).
  { eapply wp_mono; [by apply arm_write_into_subpage_spec|].
    intros rc d' [[_ ->]|(_ & m' & Hr & Hw)]; [exists m; split; [by apply op_rel_refl|done]|].
    exists m'. split; [done|]. by eapply reg_sealed_write. }
  destruct (_ =? _).
  { eapply wp_mono; [apply mark_reg_clear_page_spec; [done|apply Z.mod_pos_bound; lia]|].
    intros rc d' (Hp & _ & [[_ Hr]|(_ & Hsg & _ & _ & Hr)]); eexists; (split; [exact Hr|]);
      (apply reg_sealed_p2m; [done|]); [auto|].
    apply marks_sealed. intros Hm. by rewrite entry_access_ok in Hsg. }
  apply wp_ret. exists m. split; [by apply op_rel_refl|done].
Qed.

Lemma arm_xom_op_spec junk op d m :
  dom_inv d m -> d_xom_page_lock d = false ->
  wp (arm_xom_op junk op)
     (fun _ d' => exists m', op_rel d m d' m' /\ (reg_sealed d m -> reg_sealed d' m')) d.
Proof.
  intros Hinv Hlk. unfold arm_xom_op. apply wp_bind. eexists tt, _. split.
  { unfold xom_lock. by rewrite Hlk. }
  apply wp_bind. eapply wp_mono; [apply (arm_xom_dispatch_spec junk op _ m); by destruct Hinv|].
  intros rc d' (m' & Hr & Hreg). apply wp_bind. eexists tt, _. split.
  { unfold xom_unlock. rewrite (sf_xom _ _ (or_frame _ _ _ _ Hr)). done. }
  apply wp_ret. exists m'. split; [by apply op_rel_locked|exact Hreg].
Qed.

Lemma arm_handle_loop_spec gs n i d m :
  dom_inv d m -> d_xom_page_lock d = false ->
  wp (arm_handle_loop gs n i)
     (fun r d' => exists m', rtc (op_step True) (d, m) (d', m') /\
        (r.1 = 0 -> r.2 = if pdone_is_null gs then None else Some (Z.of_nat (i + n)))) d.
Proof.
  revert i d m. induction n as [|n IH]; intros i d m Hinv Hlk; cbn [arm_handle_loop].
  { apply wp_ret. exists m. split; [done|]. by rewrite Nat.add_0_r. }
  destruct (_ && _); [apply wp_ret; exists m; split; [done|by intros ?]|].
  apply wp_bind, wp_get. destruct (copy_from_guest gs d i) as [op|]; [|apply wp_ret; exists m; split; [done|by intros ?]].
  apply wp_bind. eapply wp_mono; [by apply arm_xom_op_spec|].
  intros rc d' (m' & Hr & Hreg). assert (op_step True (d, m) (d', m')) as Hstep by done.
  destruct (Z.ltb_spec rc 0).
  { apply wp_ret. exists m'. split; [by apply rtc_once|simpl; lia]. }
  eapply wp_mono; [apply (IH (S i) d' m'); [apply Hr|]|].
  - rewrite (sf_xom _ _ (or_frame _ _ _ _ Hr)). done.
  - intros r d'' (m'' & Hrtc & Hp). exists m''. split; [by eapply rtc_l|].
    intros Hr0. rewrite Hp by done. by rewrite Nat.add_succ_r.
Qed.
End ops.
