(* ===== verification/XomToy.v ===== *)
(** * A concrete machine

    Instances of the interfaces of the hypervisor model: a p2m table that is a
    finite map and accepts every update, one that refuses every update, and an
    allocator that returns the first free multiple of 16.  The examples of the
    theorems run on them. *)

From S2P Require Import Prelude RbTree RbSpec RbHeap PageInfo PageInfoSpec XomDomain XomSpec.

(** ** The allocator *)

Definition above (used : gset Z) : Z := set_fold (fun x acc => Z.max (Z.abs x) acc) 0 used.

Lemma above_ge used x : x ∈ used -> Z.abs x <= above used.
Proof.
  unfold above. revert x.
  apply (set_fold_ind_L (fun acc X => forall x, x ∈ X -> Z.abs x <= acc)
           (fun x acc => Z.max (Z.abs x) acc)); [intros x Hx; set_solver|].
  intros x X acc HxX IH y. rewrite elem_of_union, elem_of_singleton.
  intros [->|Hy]; [lia|]. specialize (IH y Hy). lia.
Qed.

Definition first_free (used : gset Z) : Z := 16 * (above used + 1).

Lemma above_nonneg used : 0 <= above used.
Proof.
  unfold above.
  apply (set_fold_ind_L (fun acc _ => 0 <= acc) (fun x acc => Z.max (Z.abs x) acc)); lia.
Qed.

Lemma first_free_ok used : ok_addr (first_free used) /\ first_free used ∉ used.
Proof.
  pose proof (above_nonneg used) as Hnn. unfold first_free. split; [split|].
  - lia.
  - change 3 with (Z.ones 2). rewrite Z.land_ones by lia.
    replace (16 * (above used + 1)) with ((4 * (above used + 1)) * 2 ^ 2) by (change (2 ^ 2) with 4; lia).
    apply Z.mod_mul. lia.
  - intros Hin. apply above_ge in Hin. lia.
Qed.

#[export] Program Instance toy_xmalloc : Xmalloc := {|
  xmalloc_addr := fun _ used => Some (first_free used)
|}.
Next Obligation. intros n used a [= <-]. apply first_free_ok. Qed.

(** ** The p2m tables *)

Record toy_p2m := ToyP2m { tp_map : gmap Z (Z * Z * Z); tp_max : Z }.

(** The frame found by the lookup of the memory operations. *)
Definition toy_page (p : toy_p2m) (g : Z) : option Z :=
  e ← tp_map p !! g; if (e.1.1 =? INVALID_MFN : bool) then None else Some e.1.1.

(** Frames that are not mapped have no access right. *)
Definition toy_get (p : toy_p2m) (g : Z) : Z * Z * Z :=
  let '(mfn, t, a) := default (INVALID_MFN, 0, 0) (tp_map p !! g) in
  if mfn =? INVALID_MFN then (mfn, t, p2m_access_n) else (mfn, t, a).

#[export] Instance toy_ops : P2mOps toy_p2m := {|
  get_entry := toy_get;
  set_entry := fun p g mfn t a =>
    (0, if mfn =? INVALID_MFN then p else ToyP2m (<[g := (mfn, t, a)]> (tp_map p)) (tp_max p));
  max_mapped_pfn := tp_max;
  get_page_at := toy_page
|}.

Lemma toy_page_ok p g mfn :
  toy_page p g = Some mfn -> mfn <> INVALID_MFN /\ exists t a, toy_get p g = (mfn, t, a).
Proof.
  unfold toy_page, toy_get. destruct (tp_map p !! g) as [[[m t] a]|]; [|done]. cbn.
  destruct (Z.eqb_spec m INVALID_MFN); [done|]. intros [= <-]. eauto.
Qed.

Lemma toy_hole p g t a : toy_get p g = (INVALID_MFN, t, a) -> a <> p2m_access_x.
Proof.
  unfold toy_get. destruct (default _ _) as [[mfn t'] a'].
  destruct (Z.eqb_spec mfn INVALID_MFN) as [->|Hm]; [by intros [= _ <-]|]. by intros [= ? _ _].
Qed.

#[export] Program Instance toy_laws : P2mLaws toy_p2m.
Next Obligation.
  intros p g mfn t a0 a p' He [= <-]. destruct (mfn =? INVALID_MFN) eqn:Hm; [done|].
  split; [cbn; unfold toy_get; cbn; rewrite lookup_insert_eq; cbn; by rewrite Hm|].
  intros g' Hne. cbn. unfold toy_get. cbn. by rewrite lookup_insert_ne.
Qed.
Next Obligation. intros p g mfn t a0 a rc p' _ [= <- _]. done. Qed.
Next Obligation. exact toy_hole. Qed.
Next Obligation. exact toy_page_ok. Qed.

#[export] Instance toy_atomic : P2mAtomic toy_p2m.
Proof. by intros p g mfn t a0 a rc p' _ [= <- _]. Qed.

(** A table that refuses every update with [-ENOMEM]. *)
Record stuck_p2m := StuckP2m { sp_map : toy_p2m }.

#[export] Instance stuck_ops : P2mOps stuck_p2m := {|
  get_entry := fun p => toy_get (sp_map p);
  set_entry := fun p _ _ _ _ => (- ENOMEM, p);
  max_mapped_pfn := fun p => tp_max (sp_map p);
  get_page_at := fun p => toy_page (sp_map p)
|}.

#[export] Program Instance stuck_laws : P2mLaws stuck_p2m.
Next Obligation. done. Qed.
Next Obligation. intros p g mfn t a0 a rc p' _ [= <- <-] _. split; [by unfold ENOMEM|by left]. Qed.
Next Obligation. intros p. apply toy_hole. Qed.
Next Obligation. intros p. apply toy_page_ok. Qed.

(** ** A domain *)

Definition empty_pi : pi_state := PiState ∅ ∅ NULL NULL 0.
Definition no_infos : root_sel -> gmap Z Z := fun _ => ∅.

Lemma empty_PI : PI empty_pi no_infos.
Proof. apply PI_fresh. Qed.

(** A page whose first bytes are [l]. *)
Definition page_with (l : list Z) : page :=
  Page (take (Z.to_nat PAGE_SIZE) (l ++ repeat 0 (Z.to_nat PAGE_SIZE))) 1 0 false.

Lemma page_with_wf l : Forall (fun b => 0 <= b < 256) l -> page_wf (page_with l).
Proof.
  intros Hl. split; [|cbn [page_with pg_count pg_tcount]; lia].
  unfold page_with, pg_data. split.
  - rewrite length_take, length_app, repeat_length. lia.
  - apply Forall_take, Forall_app. split; [done|]. apply Forall_forall.
    intros b Hb. apply list_elem_of_In, repeat_spec in Hb. lia.
Qed.

(** Frames 1 and 2 of 8: frame 1 has access right [a1], frame 2 is readable;
    their machine frames are 101 and 102. *)
Definition toy_table (a1 : Z) : toy_p2m :=
  ToyP2m (<[1 := (101, 1, a1)]> (<[2 := (102, 1, 7)]> ∅)) 8.
Definition toy_pages (l1 l2 : list Z) : gmap Z page :=
  <[101 := page_with l1]> (<[102 := page_with l2]> ∅).
Definition toy_domain (a1 : Z) (l1 l2 : list Z) : domain toy_p2m :=
  Domain true true (toy_table a1) 0 ∅ (toy_pages l1 l2) empty_pi false.
Definition stuck_domain (a1 : Z) (l1 l2 : list Z) : domain stuck_p2m :=
  Domain true true (StuckP2m (toy_table a1)) 0 ∅ (toy_pages l1 l2) empty_pi false.

Lemma toy_pages_wf l1 l2 :
  Forall (fun b => 0 <= b < 256) l1 -> Forall (fun b => 0 <= b < 256) l2 ->
  forall mfn pg, toy_pages l1 l2 !! mfn = Some pg -> page_wf pg.
Proof.
  intros H1 H2 mfn pg. unfold toy_pages.
  intros [[_ <-]|[_ [[_ <-]|[_ Hm]]%lookup_insert_Some]]%lookup_insert_Some; [by apply page_with_wf..|].
  by rewrite lookup_empty in Hm.
Qed.

Lemma toy_inv a1 l1 l2 :
  Forall (fun b => 0 <= b < 256) l1 -> Forall (fun b => 0 <= b < 256) l2 ->
  dom_inv (toy_domain a1 l1 l2) no_infos.
Proof. intros H1 H2. split; [apply empty_PI|by apply toy_pages_wf|done..]. Qed.

Lemma toy_inj a1 l1 l2 : frame_inj (toy_domain a1 l1 l2).
Proof.
  assert (forall g, (g = 1 /\ frame_of (toy_domain a1 l1 l2) g = 101) \/
                    (g = 2 /\ frame_of (toy_domain a1 l1 l2) g = 102) \/
                    frame_of (toy_domain a1 l1 l2) g = 2 ^ 64 - 1) as Hf.
  { intros g. unfold frame_of. cbn [d_p2m toy_domain get_entry toy_ops]. unfold toy_get, toy_table. cbn [tp_map].
    destruct (decide (g = 1)) as [->|]; [left; by rewrite lookup_insert_eq|].
    destruct (decide (g = 2)) as [->|].
    - right. left. by rewrite lookup_insert_ne, lookup_insert_eq.
    - right. right. by rewrite !lookup_insert_ne, lookup_empty by done. }
  intros g1 g2 [pg Hpg] Heq.
  destruct (Hf g1) as [[-> H1]|[[-> H1]|H1]], (Hf g2) as [[-> H2]|[[-> H2]|H2]]; try done;
    rewrite H1 in *; try (by rewrite H2 in Heq).
Qed.

(** Frame 1 with an entry in one of the trees. *)
Definition one_entry (sel : root_sel) (info : Z) : pi_state :=
  match add_page_info_entry sel 1 info empty_pi with Some (_, s) => s | None => empty_pi end.
Definition reg_domain (sel : root_sel) (info a1 : Z) (l1 l2 : list Z) : domain toy_p2m :=
  set_pi (one_entry sel info) (toy_domain a1 l1 l2).
Definition reg_infos (sel : root_sel) (info : Z) : root_sel -> gmap Z Z :=
  upd no_infos sel (<[1 := info]> ∅).

Lemma one_entry_PI sel info : PI (one_entry sel info) (reg_infos sel info).
Proof.
  pose proof (add_page_info_entry_spec empty_pi no_infos sel 1 info empty_PI) as (p & s & Hrun & Hp).
  unfold one_entry. rewrite Hrun. destruct Hp as [(_ & _ & [Hn|[? Hn]])|(_ & _ & HPI)]; [done|done|exact HPI].
Qed.

Lemma reg_inv sel info a1 l1 l2 :
  Forall (fun b => 0 <= b < 256) l1 -> Forall (fun b => 0 <= b < 256) l2 ->
  match sel with XomSubpages => 0 <= info < 2 ^ 32
  | XomRegClear => info = REG_CLEAR_TYPE_VECTOR \/ info = REG_CLEAR_TYPE_FULL end ->
  dom_inv (reg_domain sel info a1 l1 l2) (reg_infos sel info).
Proof.
  intros H1 H2 Hi. split; [apply one_entry_PI|by apply toy_pages_wf|done|done|..];
    intros g w; unfold reg_infos, upd; case_decide as Heq; subst;
    try (intros [[<- <-]|[_ Hn]]%lookup_insert_Some; [exact Hi|by rewrite lookup_empty in Hn]);
    by unfold no_infos; rewrite lookup_empty.
Qed.

Lemma reg_inj sel info a1 l1 l2 : frame_inj (reg_domain sel info a1 l1 l2).
Proof. exact (toy_inj a1 l1 l2). Qed.

Lemma reg_domain_sealed sel info l1 l2 : reg_sealed (reg_domain sel info 4 l1 l2) (reg_infos sel info).
Proof.
  intros sel' g. unfold reg_infos, upd. case_decide; [|unfold no_infos; rewrite lookup_empty; by intros []].
  intros [w [[<- _]|[_ Hn]]%lookup_insert_Some] _; [done|by rewrite lookup_empty in Hn].
Qed.

(** A guest that passes the same operation over and over; the uninitialised
    variable of the Arm code holds the execute-only right. *)
Definition guest_of {P} (op : mmuext_op) : guest P :=
  Guest (fun _ _ => Some op) (fun _ => false) false true (fun _ => p2m_access_x).

Lemma toy_total : forall (p : toy_p2m) g mfn t a, (set_entry p g mfn t a).1 = 0.
Proof. done. Qed.
