(* ===== verification/PageInfoTheorems.v ===== *)
(** * The page-info trees as a data structure

    Any sequence of the helpers of [xom_seal.c] behaves like the same sequence
    on two finite maps, and tearing a domain down gives all memory back. *)

From S2P Require Import Prelude RbTree RbSpec RbHeap PageInfo PageInfoSpec XomDomain XomSpec XomToy.

(** ** Sequences of operations *)

Inductive pi_cmd :=
| CAdd (sel : root_sel) (gfn info : Z)
| CGet (sel : root_sel) (gfn : Z)
| CSet (sel : root_sel) (gfn info : Z)
| CDrop (sel : root_sel) (gfn : Z)
| CFree (sel : root_sel).

Section run.
Context `{Xmalloc}.

(** What a caller sees: for [CAdd] whether an entry was returned, for [CGet]
    the info word. *)
Definition run_cmd (c : pi_cmd) : M pi_state (option Z) :=
  match c with
  | CAdd sel g i =>
      let! p := add_page_info_entry sel g i in ret (if p =? NULL then None else Some i)
  | CGet sel g =>
      let! p := get_page_info_entry sel g in
      if p =? NULL then ret None else let! e := entry p in ret (Some (xpi_info e))
  | CSet sel g i =>
      let! p := get_page_info_entry sel g in
      if p =? NULL then ret None else do! set_info p i in ret (Some i)
  | CDrop sel g => do! drop_page_info sel g in ret None
  | CFree sel => do! free_xom_info sel in ret None
  end.

Fixpoint run_cmds (l : list pi_cmd) : M pi_state (list (option Z)) :=
  match l with
  | [] => ret []
  | c :: l => let! r := run_cmd c in let! rs := run_cmds l in ret (r :: rs)
  end.

(** The same on two maps; adding may fail on a new key only if the allocator
    can fail. *)
Definition xmalloc_total : Prop := forall n used, is_Some (xmalloc_addr n used).

Inductive map_step (m : root_sel -> gmap Z Z) : pi_cmd -> option Z -> (root_sel -> gmap Z Z) -> Prop :=
| ms_add sel g i : m sel !! g = None ->
    map_step m (CAdd sel g i) (Some i) (upd m sel (<[g := i]> (m sel)))
| ms_add_fail sel g i : is_Some (m sel !! g) \/ ~ xmalloc_total ->
    map_step m (CAdd sel g i) None m
| ms_get sel g : map_step m (CGet sel g) (m sel !! g) m
| ms_set sel g i : is_Some (m sel !! g) ->
    map_step m (CSet sel g i) (Some i) (upd m sel (<[g := i]> (m sel)))
| ms_set_none sel g i : m sel !! g = None -> map_step m (CSet sel g i) None m
| ms_drop sel g : map_step m (CDrop sel g) None (upd m sel (delete g (m sel)))
| ms_free sel : map_step m (CFree sel) None (upd m sel ∅).

Inductive map_steps (m : root_sel -> gmap Z Z)
    : list pi_cmd -> list (option Z) -> (root_sel -> gmap Z Z) -> Prop :=
| mss_nil : map_steps m [] [] m
| mss_cons c r m1 l rs m2 : map_step m c r m1 -> map_steps m1 l rs m2 ->
    map_steps m (c :: l) (r :: rs) m2.

Lemma run_cmd_sim c s m :
  PI s m -> wp (run_cmd c) (fun r s' => exists m', PI s' m' /\ map_step m c r m') s.
Proof.
  intros HPI. destruct c as [sel g i|sel g|sel g i|sel g|sel]; cbn [run_cmd]; apply wp_bind.
  - eapply wp_mono; [by apply add_page_info_entry_spec|]. intros p s'.
    intros [(-> & HPI' & Hf)|(Hp & Hn & HPI')]; apply wp_ret.
    + exists m. split; [done|]. apply ms_add_fail. destruct Hf as [Hf|?]; [right|by left].
      intros Ht. destruct (Ht (pi_clock s) (pi_used s)) as [a Ha]. congruence.
    + rewrite (eqb_neq_false p NULL) by done. eexists. split; [exact HPI'|by apply ms_add].
  - eapply wp_mono; [by apply get_page_info_entry_at|]. intros p s' [-> He]. unfold entry_at in He.
    destruct (m sel !! g) as [i|] eqn:Hm.
    + destruct He as (Hp & Hi & _). rewrite (eqb_neq_false p NULL) by done.
      apply wp_bind. eapply wp_entry; [exact Hi|]. apply wp_ret. exists m. split; [done|].
      cbn. rewrite <-Hm. apply ms_get.
    + subst p. cbn. apply wp_ret. exists m. split; [done|]. rewrite <-Hm. apply ms_get.
  - eapply wp_mono; [by apply get_page_info_entry_at|]. intros p s' [-> He].
    destruct (m sel !! g) as [w|] eqn:Hm.
    + assert (p <> NULL) as Hp by (unfold entry_at in He; rewrite Hm in He; apply He).
      rewrite (eqb_neq_false p NULL) by done. apply wp_bind.
      eapply wp_mono; [by eapply set_info_spec|]. intros [] s' HPI'. apply wp_ret.
      eexists. split; [apply HPI'|by apply ms_set].
    + unfold entry_at in He. rewrite Hm in He. subst p. cbn. apply wp_ret. exists m. split; [done|by apply ms_set_none].
  - eapply wp_mono; [by apply drop_page_info_spec|]. intros [] s' HPI'. apply wp_ret.
    eexists. split; [exact HPI'|apply ms_drop].
  - eapply wp_mono; [by apply free_xom_info_spec|]. intros [] s' HPI'. apply wp_ret.
    eexists. split; [exact HPI'|apply ms_free].
Qed.

(** C18: the page-info trees implement two finite maps: every sequence of
    additions, look-ups, updates, removals and tear-downs returns, and its
    results are those of the same sequence on the maps. *)
Theorem page_info_refines_maps l s m :
  PI s m -> wp (run_cmds l) (fun rs s' => exists m', PI s' m' /\ map_steps m l rs m') s.
Proof.
  revert s m; induction l as [|c l IH]; intros s m HPI; cbn [run_cmds].
  - apply wp_ret. exists m. split; [done|constructor].
  - apply wp_bind. eapply wp_mono; [by apply run_cmd_sim|]. intros r s1 (m1 & HPI1 & Hs).
    apply wp_bind. eapply wp_mono; [by apply IH|]. intros rs s2 (m2 & HPI2 & Hss).
    apply wp_ret. exists m2. split; [done|by econstructor].
Qed.

(** Tearing both trees down, as domain destruction does, frees every
    entry exactly once: nothing of the heap is left and both roots are null. *)
Theorem free_xom_info_frees_all s m :
  PI s m ->
  wp (do! free_xom_info XomSubpages in free_xom_info XomRegClear)
     (fun _ s' => pi_nodes s' = ∅ /\ pi_infos s' = ∅ /\
        xom_subpages s' = NULL /\ xom_reg_clear_pages s' = NULL) s.
Proof. apply teardown_spec. Qed.
End run.

(** ** Examples *)

Lemma page_info_refines_maps_ex :
  wp (run_cmds [CAdd XomSubpages 7 0; CAdd XomSubpages 7 1; CSet XomSubpages 7 5; CGet XomSubpages 7;
                CDrop XomSubpages 7; CGet XomSubpages 7])
     (fun rs s' => exists m', PI s' m' /\ map_steps no_infos
        [CAdd XomSubpages 7 0; CAdd XomSubpages 7 1; CSet XomSubpages 7 5; CGet XomSubpages 7;
         CDrop XomSubpages 7; CGet XomSubpages 7] rs m') empty_pi.
Proof. apply page_info_refines_maps, empty_PI. Defined.

Lemma free_xom_info_frees_all_ex :
  wp (do! free_xom_info XomSubpages in free_xom_info XomRegClear)
     (fun _ s' => pi_nodes s' = ∅ /\ pi_infos s' = ∅ /\
        xom_subpages s' = NULL /\ xom_reg_clear_pages s' = NULL) (one_entry XomSubpages 3).
Proof. apply (free_xom_info_frees_all _ (reg_infos XomSubpages 3)), one_entry_PI. Defined.
