(* ===== verification/Rangeset.v ===== *)
(** * Sets of ranges

    [common/rangeset.c]: sets of unsigned 64-bit numbers as an ordered list of
    ranges, which Xen uses for read-only device memory and for the frames whose
    accesses are logged.  A set owns its list of ranges (the addresses, in the
    order of the list, and the ranges at these addresses); using the address
    of a range that was freed is undefined behaviour, and so is taking a lock
    twice.  The names of sets, which are only printed, are left out. *)

From S2P Require Import Prelude RbTree RbSpec RbHeap PageInfo.

Definition ULONG_MAX : Z := 2 ^ 64 - 1.

Record range := Range { r_s : Z; r_e : Z }.

Record rangeset := Rangeset {
  range_list : list Z;          (* the ranges in ascending order *)
  ranges : gmap Z range;
  nr_ranges : Z;                (* the number of ranges that can be allocated *)
  rs_lock : bool;
  rs_domain : option Z;
  rs_flags : Z;
  rs_clock : nat                (* calls of the allocator *)
}.

Definition set_list l (r : rangeset) : rangeset :=
  Rangeset l (ranges r) (nr_ranges r) (rs_lock r) (rs_domain r) (rs_flags r) (rs_clock r).
Definition set_ranges m (r : rangeset) : rangeset :=
  Rangeset (range_list r) m (nr_ranges r) (rs_lock r) (rs_domain r) (rs_flags r) (rs_clock r).
Definition set_nr n (r : rangeset) : rangeset :=
  Rangeset (range_list r) (ranges r) n (rs_lock r) (rs_domain r) (rs_flags r) (rs_clock r).
Definition set_lock b (r : rangeset) : rangeset :=
  Rangeset (range_list r) (ranges r) (nr_ranges r) b (rs_domain r) (rs_flags r) (rs_clock r).
Definition set_domain d (r : rangeset) : rangeset :=
  Rangeset (range_list r) (ranges r) (nr_ranges r) (rs_lock r) d (rs_flags r) (rs_clock r).
Definition set_clock n (r : rangeset) : rangeset :=
  Rangeset (range_list r) (ranges r) (nr_ranges r) (rs_lock r) (rs_domain r) (rs_flags r) n.

(** ** Ranges *)

Definition read_range (p : Z) : M rangeset range :=
  fun r => match ranges r !! p with Some x => Some (x, r) | None => None end.
Definition write_range (p : Z) (x : range) : M rangeset unit :=
  do! read_range p in modify (fun r => set_ranges (<[p := x]> (ranges r)) r).

(** [x->s = s] and [x->e = e] *)
Definition write_s (p s : Z) : M rangeset unit := let! x := read_range p in write_range p (Range s (r_e x)).
Definition write_e (p e : Z) : M rangeset unit := let! x := read_range p in write_range p (Range (r_s x) e).

Definition lock_set : M rangeset unit :=
  let! b := gets rs_lock in if b : bool then ub else modify (set_lock true).
Definition unlock_set : M rangeset unit :=
  let! b := gets rs_lock in if b : bool then modify (set_lock false) else ub.

(** The highest range lower than or containing [s] among the rest [l] of the
    list, after the range [x]. *)
Fixpoint find_from (l : list Z) (s : Z) (x : option Z) : M rangeset (option Z) :=
  match l with
  | [] => ret x
  | y :: l =>
      let! ry := read_range y in
      if s <? r_s ry then ret x else find_from l s (Some y)
  end.
Definition find_range (s : Z) : M rangeset (option Z) :=
  let! l := gets range_list in find_from l s None.

Definition first_range : M rangeset (option Z) := gets (fun r => head (range_list r)).

(** The element after [p]. *)
Fixpoint after (p : Z) (l : list Z) : option (option Z) :=
  match l with
  | [] => None
  | q :: l => if q =? p then Some (head l) else after p l
  end.
Definition next_range (p : Z) : M rangeset (option Z) :=
  fun r => match after p (range_list r) with Some q => Some (q, r) | None => None end.

Fixpoint insert_after (p q : Z) (l : list Z) : list Z :=
  match l with
  | [] => []
  | x :: l => if x =? p then x :: q :: l else x :: insert_after p q l
  end.
Definition insert_range (x : option Z) (y : Z) : M rangeset unit :=
  modify (fun r => set_list (match x with None => y :: range_list r | Some p => insert_after p y (range_list r) end) r).

Fixpoint list_del (p : Z) (l : list Z) : list Z :=
  match l with
  | [] => []
  | x :: l => if x =? p then l else x :: list_del p l
  end.
Definition destroy_range (p : Z) : M rangeset unit :=
  do! modify (fun r => set_nr (nr_ranges r + 1) r) in
  do! read_range p in
  do! modify (fun r => set_list (list_del p (range_list r)) r) in
  modify (fun r => set_ranges (delete p (ranges r)) r).

(** Pointers to ranges are compared by address. *)
Definition same_range (x y : option Z) : bool :=
  match x, y with
  | None, None => true
  | Some p, Some q => p =? q
  | _, _ => false
  end.

(** A dereference of a pointer that must not be [NULL]. *)
Definition deref (x : option Z) : M rangeset Z := match x with Some p => ret p | None => ub end.

Section ops.
Context `{Xmalloc}.

Definition alloc_range : M rangeset (option Z) :=
  let! r := get in
  if nr_ranges r =? 0 then ret None
  else
    do! modify (set_clock (S (rs_clock r))) in
    match xmalloc_addr (rs_clock r) (dom (ranges r)) with
    | None => ret None
    | Some p =>
        do! modify (fun r => set_nr (nr_ranges r - 1) (set_ranges (<[p := Range 0 0]> (ranges r)) r)) in
        ret (Some p)
    end.

(** ** Adding *)

(** Both ends fall behind the same range [x] (or before the first): the range
    that holds them, if there is memory for it. *)
Definition add_inside (x : option Z) (s e : Z) : M rangeset (option Z) :=
  let! apart := match x with
                | None => ret true
                | Some p => let! rx := read_range p in ret ((r_e rx <? s) && negb (u64 (r_e rx + 1) =? s))
                end in
  if apart then
    let! q := alloc_range in
    match q with
    | None => ret None
    | Some q =>
        do! write_range q (Range s e) in
        do! insert_range x q in
        ret (Some q)
    end
  else
    let! p := deref x in
    let! rx := read_range p in
    do! (if r_e rx <? e then write_e p e else ret tt) in
    ret (Some p).

(** The ranges behind [p] that end before it does. *)
Fixpoint absorb (fuel : nat) (p : Z) : M rangeset unit :=
  match fuel with
  | O => ub
  | S fuel =>
      let! y := next_range p in
      match y with
      | None => ret tt
      | Some q =>
          let! rq := read_range q in
          let! rp := read_range p in
          if r_e rp <? r_e rq then ret tt
          else do! destroy_range q in absorb fuel p
      end
  end.

(** The range [p] is extended to the end of [y] or to [e]. *)
Definition swallow (p : Z) (y : option Z) (e : Z) : M rangeset Z :=
  let! q := deref y in
  let! rq := read_range q in
  do! write_e p (if e <? r_e rq then r_e rq else e) in
  let! l := gets range_list in
  do! absorb (S (length l)) p in
  ret p.

(** The ends fall behind different ranges. *)
Definition add_across (x y : option Z) (s e : Z) : M rangeset Z :=
  let! p := match x with
            | None =>
                let! f := first_range in
                let! p := deref f in
                do! write_s p s in ret p
            | Some p =>
                let! rx := read_range p in
                if (r_e rx <? s) && negb (u64 (r_e rx + 1) =? s) then
                  let! n := next_range p in
                  let! p := deref n in
                  do! write_s p s in ret p
                else ret p
            end in
  swallow p y e.

(** The range [p] and the next one become one if nothing is between them. *)
Definition join_next (p : Z) : M rangeset unit :=
  let! y := next_range p in
  match y with
  | None => ret tt
  | Some q =>
      let! rp := read_range p in
      let! rq := read_range q in
      if u64 (r_e rp + 1) =? r_s rq then
        do! write_e p (r_e rq) in
        destroy_range q
      else ret tt
  end.

Definition rangeset_add_range (s e : Z) : M rangeset Z :=
  do! assert (s <=? e) in
  do! lock_set in
  let! x := find_range s in
  let! y := find_range e in
  let! p := (if same_range x y then add_inside x s e else let! p := add_across x y s e in ret (Some p)) in
  match p with
  | None => do! unlock_set in ret (- ENOMEM)
  | Some p => do! join_next p in do! unlock_set in ret 0
  end.

(** ** Removing *)

Definition remove_inside (x : option Z) (s e : Z) : M rangeset Z :=
  match x with
  | None => ret 0
  | Some p =>
      let! rx := read_range p in
      if r_e rx <? s then ret 0
      else if (r_s rx <? s) && (e <? r_e rx) then
        let! y := alloc_range in
        match y with
        | None => ret (- ENOMEM)
        | Some q =>
            do! write_range q (Range (u64 (e + 1)) (r_e rx)) in
            do! write_e p (u64 (s - 1)) in
            do! insert_range (Some p) q in
            ret 0
        end
      else if (r_s rx =? s) && (r_e rx <=? e) then do! destroy_range p in ret 0
      else if r_s rx =? s then do! write_s p (u64 (e + 1)) in ret 0
      else if r_e rx <=? e then do! write_e p (u64 (s - 1)) in ret 0
      else ret 0
  end.

(** The ranges from [x] up to [q] are destroyed. *)
Fixpoint destroy_until (fuel : nat) (x : option Z) (q : Z) : M rangeset unit :=
  if same_range x (Some q) then ret tt
  else match fuel with
       | O => ub
       | S fuel =>
           let! p := deref x in
           let! x' := next_range p in
           do! destroy_range p in
           destroy_until fuel x' q
       end.

(** The ranges from [x] up to [y] and the numbers of [y] up to [e] go. *)
Definition trim (x y : option Z) (e : Z) : M rangeset unit :=
  let! q := deref y in
  let! l := gets range_list in
  do! destroy_until (length l) x q in
  do! write_s q (u64 (e + 1)) in
  let! rq := read_range q in
  if r_e rq <? r_s rq then destroy_range q else ret tt.

Definition remove_across (x y : option Z) (s e : Z) : M rangeset unit :=
  let! x := match x with None => first_range | Some _ => ret x end in
  let! p := deref x in
  let! rp := read_range p in
  let! x := (if r_s rp <? s then do! write_e p (u64 (s - 1)) in next_range p else ret x) in
  trim x y e.

Definition rangeset_remove_range (s e : Z) : M rangeset Z :=
  do! assert (s <=? e) in
  do! lock_set in
  let! x := find_range s in
  let! y := find_range e in
  let! rc := (if same_range x y then remove_inside x s e else do! remove_across x y s e in ret 0) in
  do! unlock_set in
  ret rc.

(** ** Asking *)

Definition rangeset_contains_range (s e : Z) : M rangeset bool :=
  do! assert (s <=? e) in
  do! lock_set in
  let! x := find_range s in
  let! contains := match x with None => ret false | Some p => let! rx := read_range p in ret (e <=? r_e rx) end in
  do! unlock_set in
  ret contains.

Definition rangeset_overlaps_range (s e : Z) : M rangeset bool :=
  do! assert (s <=? e) in
  do! lock_set in
  let! x := find_range e in
  let! overlaps := match x with None => ret false | Some p => let! rx := read_range p in ret (s <=? r_e rx) end in
  do! unlock_set in
  ret overlaps.

Definition rangeset_is_empty : M rangeset bool := gets (fun r => match range_list r with [] => true | _ => false end).

Definition rangeset_add_singleton (s : Z) : M rangeset Z := rangeset_add_range s s.
Definition rangeset_remove_singleton (s : Z) : M rangeset Z := rangeset_remove_range s s.
Definition rangeset_contains_singleton (s : Z) : M rangeset bool := rangeset_contains_range s s.

Definition rangeset_limit (limit : Z) : M rangeset unit := modify (set_nr limit).

(** ** Claiming *)

(** The search for [size] numbers that are free, from the range [next] on: the
    start of the gap and the range before it; nothing if there is no gap. *)
Fixpoint find_gap (l : list Z) (size start : Z) (prev : option Z) : M rangeset (option (Z * option Z)) :=
  match l with
  | [] => ret (if size <=? u64 (u64 (ULONG_MAX - start) + 1) then Some (start, prev) else None)
  | next :: l =>
      let! rn := read_range next in
      if size <=? u64 (r_s rn - start) then ret (Some (start, prev))
      else if r_e rn =? ULONG_MAX then ret None
      else find_gap l size (u64 (r_e rn + 1)) (Some next)
  end.

(** The status and the start of the claimed range. *)
Definition rangeset_claim_range (size : Z) : M rangeset (Z * option Z) :=
  do! lock_set in
  let! l := gets range_list in
  let! gap := find_gap l size 0 None in
  match gap with
  | None => do! unlock_set in ret (- ENOSPC, None)
  | Some (start, None) =>
      let! q := alloc_range in
      match q with
      | None => do! unlock_set in ret (- ENOMEM, None)
      | Some q =>
          do! write_range q (Range start (u64 (u64 (start + size) - 1))) in
          do! insert_range None q in
          do! unlock_set in
          ret (0, Some start)
      end
  | Some (start, Some p) =>
      let! rp := read_range p in
      do! write_e p (u64 (r_e rp + size)) in
      do! unlock_set in
      ret (0, Some start)
  end.

(** ** Consuming *)

(** [cb] returns the status and how much of the range it consumed; [T] is the
    state of the callback. *)
Fixpoint consume_loop {T} (fuel : nat) (cb : Z -> Z -> T -> Z * Z * T) (t : T) : M rangeset (Z * T) :=
  let! f := first_range in
  match f with
  | None => ret (0, t)
  | Some p =>
      match fuel with
      | O => ub
      | S fuel =>
          let! x := read_range p in
          let '(rc, consumed, t) := cb (r_s x) (r_e x) t in
          do! assert (consumed <=? u64 (r_e x - r_s x + 1)) in
          do! write_s p (u64 (r_s x + consumed)) in
          let! x := read_range p in
          do! (if r_e x <? r_s x then destroy_range p else ret tt) in
          if negb (rc =? 0) then ret (rc, t) else consume_loop fuel cb t
      end
  end.

Definition rangeset_consume_ranges {T} (fuel : nat) (cb : Z -> Z -> T -> Z * Z * T) (t : T) : M rangeset (Z * T) :=
  do! lock_set in
  let! res := consume_loop fuel cb t in
  do! unlock_set in
  ret res.

(** ** The sets of a domain *)

(** [d->rangesets] and its lock, once they are initialised. *)
Record dom_sets := DomSets { ds_list : list Z; ds_lock : bool }.

Record rs_world := RsWorld { w_sets : gmap Z rangeset; w_doms : gmap Z dom_sets; w_clock : nat }.

Definition set_w_sets m (w : rs_world) : rs_world := RsWorld m (w_doms w) (w_clock w).
Definition set_w_doms m (w : rs_world) : rs_world := RsWorld (w_sets w) m (w_clock w).

Definition on_set {A} (r : Z) (m : M rangeset A) : M rs_world A :=
  fun w => match w_sets w !! r with
           | None => None
           | Some rs => match m rs with
                        | Some (a, rs') => Some (a, set_w_sets (<[r := rs']> (w_sets w)) w)
                        | None => None
                        end
           end.

(** The list of a domain, changed between taking and releasing its lock. *)
Definition with_dom (d : Z) (f : list Z -> list Z) : M rs_world unit :=
  fun w => match w_doms w !! d with
           | Some (DomSets l false) => Some (tt, set_w_doms (<[d := DomSets (f l) false]> (w_doms w)) w)
           | _ => None
           end.

Definition RANGESETF_prettyprint_hex : Z := 1.

Definition rangeset_new (d : option Z) (flags : Z) : M rs_world (option Z) :=
  let! w := get in
  do! modify (fun w => RsWorld (w_sets w) (w_doms w) (S (w_clock w))) in
  match xmalloc_addr (w_clock w) (dom (w_sets w)) with
  | None => ret None
  | Some r =>
      do! assert (Z.land flags (Z.lnot RANGESETF_prettyprint_hex) =? 0) in
      do! modify (fun w => set_w_sets (<[r := Rangeset [] ∅ (-1) false d flags 0]> (w_sets w)) w) in
      do! match d with None => ret tt | Some d => with_dom d (cons r) end in
      ret (Some r)
  end.

(** [while ((x = first_range(r)) != NULL) destroy_range(r, x);] *)
Fixpoint destroy_all (fuel : nat) : M rangeset unit :=
  let! x := first_range in
  match x, fuel with
  | None, _ => ret tt
  | Some _, O => ub
  | Some p, S fuel => do! destroy_range p in destroy_all fuel
  end.

Definition rangeset_destroy (r : option Z) : M rs_world unit :=
  match r with
  | None => ret tt
  | Some r =>
      let! d := on_set r (gets rs_domain) in
      do! match d with None => ret tt | Some d => with_dom d (list_del r) end in
      do! on_set r (let! l := gets range_list in destroy_all (length l)) in
      modify (fun w => set_w_sets (delete r (w_sets w)) w)
  end.

Definition rangeset_domain_initialise (d : Z) : M rs_world unit :=
  modify (fun w => set_w_doms (<[d := DomSets [] false]> (w_doms w)) w).

Fixpoint domain_destroy_loop (fuel : nat) (d : Z) : M rs_world unit :=
  let! w := get in
  match w_doms w !! d, fuel with
  | None, _ => ub
  | Some (DomSets [] _), _ => ret tt
  | Some (DomSets (_ :: _) _), O => ub
  | Some (DomSets (r :: l) b), S fuel =>
      let! owner := on_set r (gets rs_domain) in
      do! assert (same_range owner (Some d)) in
      do! on_set r (modify (set_domain None)) in
      do! modify (fun w => set_w_doms (<[d := DomSets l b]> (w_doms w)) w) in
      do! rangeset_destroy (Some r) in
      domain_destroy_loop fuel d
  end.

Definition rangeset_domain_destroy (d : Z) : M rs_world unit :=
  let! w := get in
  match w_doms w !! d with
  | None => ret tt
  | Some ds => domain_destroy_loop (length (ds_list ds)) d
  end.

(** The lists of the two sets are exchanged. *)
Definition rangeset_swap (a b : Z) : M rs_world unit :=
  do! on_set (Z.min a b) lock_set in
  do! on_set (Z.max a b) lock_set in
  let! la := on_set a get in
  let! lb := on_set b get in
  do! on_set a (modify (fun r => set_list (range_list lb) (set_ranges (ranges lb) r))) in
  do! on_set b (modify (fun r => set_list (range_list la) (set_ranges (ranges la) r))) in
  do! on_set a unlock_set in
  on_set b unlock_set.

(** [cb] may change other sets. *)
Fixpoint report_loop (fuel : nat) (r : Z) (x : option Z) (s e : Z) (cb : Z -> Z -> M rs_world Z) (rc : Z) : M rs_world Z :=
  match x with
  | None => ret rc
  | Some p =>
      let! rx := on_set r (read_range p) in
      if (r_s rx <=? e) && (rc =? 0) then
        match fuel with
        | O => ub
        | S fuel =>
            let! rc := (if s <=? r_e rx then cb (Z.max (r_s rx) s) (Z.min (r_e rx) e) else ret rc) in
            let! n := on_set r (next_range p) in
            report_loop fuel r n s e cb rc
        end
      else ret rc
  end.

Definition rangeset_report_ranges (r s e : Z) (cb : Z -> Z -> M rs_world Z) : M rs_world Z :=
  do! on_set r lock_set in
  let! l := on_set r (gets range_list) in
  let! x := on_set r first_range in
  let! rc := report_loop (length l) r x s e cb 0 in
  do! on_set r unlock_set in
  ret rc.

Definition merge (r1 s e : Z) : M rs_world Z := on_set r1 (rangeset_add_range s e).

Definition rangeset_merge (r1 r2 : Z) : M rs_world Z := rangeset_report_ranges r2 0 ULONG_MAX (merge r1).

(** Asking a set that may be missing. *)
Definition contains_range (r : option Z) (s e : Z) : M rs_world bool :=
  match r with
  | None => do! assert (s <=? e) in ret false
  | Some r => on_set r (rangeset_contains_range s e)
  end.
Definition overlaps_range (r : option Z) (s e : Z) : M rs_world bool :=
  match r with
  | None => do! assert (s <=? e) in ret false
  | Some r => on_set r (rangeset_overlaps_range s e)
  end.
End ops.
