(* ===== verification/RangesetSpec.v ===== *)
(** * What the operations on sets of ranges do

    The list in memory as a sequence of pairs of an address and a range
    ([rs_rep]), the order of the ranges ([canon]), the numbers they stand for
    ([covers]), and the effect of each operation on them. *)

From S2P Require Import Prelude RbTree RbSpec RbHeap PageInfo Rangeset.

Abbreviation cell := (Z * range)%type.

(** ** Numbers *)

Definition inside (x : range) (n : Z) : Prop := r_s x <= n <= r_e x.

Definition covers (l : list range) (n : Z) : Prop := Exists (fun x => inside x n) l.

(** Ascending ranges from [lo] on that leave a number between each other and
    below [hi] - 1. *)
Fixpoint canon (lo : Z) (l : list range) (hi : Z) : Prop :=
  match l with
  | [] => lo <= hi
  | x :: l => lo <= r_s x <= r_e x /\ canon (r_e x + 2) l hi
  end.

(** The ranges of a set. *)
Definition TOP : Z := 2 ^ 64 + 1.

Lemma covers_nil n : covers [] n <-> False.
Proof. apply Exists_nil. Qed.
Lemma covers_cons x l n : covers (x :: l) n <-> inside x n \/ covers l n.
Proof. apply Exists_cons. Qed.
Lemma covers_app l1 l2 n : covers (l1 ++ l2) n <-> covers l1 n \/ covers l2 n.
Proof. apply Exists_app. Qed.

Lemma canon_le l : forall lo hi, canon lo l hi -> lo <= hi.
Proof. induction l as [|x l IH]; intros lo hi; cbn; [done|]. intros [Hx Hl%IH]. lia. Qed.

Lemma canon_app l1 : forall lo l2 hi, canon lo (l1 ++ l2) hi <-> exists mid, canon lo l1 mid /\ canon mid l2 hi.
Proof.
  induction l1 as [|x l1 IH]; intros lo l2 hi; cbn.
  - split; [intros Hl; exists lo; split; [lia|done]|]. intros (mid & Hlo & Hl). destruct l2 as [|y l2]; cbn in *; [lia|].
    destruct Hl. split; [lia|done].
  - rewrite IH. split; [intros (Hx & mid & ? & ?); eauto|intros (mid & [? ?] & ?); eauto].
Qed.

Lemma canon_weaken l : forall lo lo' hi hi', canon lo l hi -> lo' <= lo -> hi <= hi' -> canon lo' l hi'.
Proof. induction l as [|x l IH]; intros lo lo' hi hi'; cbn; [lia|]. intros [Hx Hl] ? ?. split; [lia|]. by eapply IH. Qed.

(** The numbers of ranges between two bounds. *)
Lemma canon_covers l : forall lo hi n, canon lo l hi -> covers l n -> lo <= n < hi - 1.
Proof.
  induction l as [|x l IH]; intros lo hi n; cbn; [by rewrite covers_nil|]. intros [Hx Hl] [Hn|Hn]%covers_cons.
  - unfold inside in Hn. apply canon_le in Hl. lia.
  - destruct (IH _ _ _ Hl Hn). lia.
Qed.

Lemma canon_fits lo l hi x : canon lo l hi -> x ∈ l -> lo <= r_s x <= r_e x /\ r_e x + 2 <= hi.
Proof.
  intros Hl Hx. apply list_elem_of_split in Hx as (l1 & l2 & ->). apply canon_app in Hl as (mid & H1 & Hx & H2).
  apply canon_le in H1, H2. lia.
Qed.

(** ** Memory *)

(** The set [r] has the ranges [L] in this order, and [X] besides them that are
    not in the list yet; [c] ranges could be allocated if it were empty, or any
    number of them if [c] is negative. *)
Record rs_rep (L X : list cell) (c : Z) (b : bool) (d : option Z) (r : rangeset) : Prop := {
  rp_list : range_list r = L.*1;
  rp_nodup : NoDup (L ++ X).*1;
  rp_ranges : ranges r = list_to_map (L ++ X);
  rp_nr : nr_ranges r + Z.of_nat (length (L ++ X)) = c;
  rp_lock : rs_lock r = b;
  rp_domain : rs_domain r = d;
  rp_bound : 0 <= c -> Z.of_nat (length (L ++ X)) <= c
}.

Lemma map_focus (M : list cell) p x M' : NoDup (M' ++ (p, x) :: M).*1 ->
  (list_to_map (M' ++ (p, x) :: M) : gmap Z range) = <[p := x]> (list_to_map (M' ++ M)) /\
  (list_to_map (M' ++ M) : gmap Z range) !! p = None /\ NoDup (M' ++ M).*1 /\ (p ∉ M'.*1) /\ (p ∉ M.*1).
Proof.
  intros Hn. assert ((M' ++ (p, x) :: M) ≡ₚ ((p, x) :: M' ++ M)) as Hp by (by rewrite Permutation_middle).
  pose proof Hn as Hn'. rewrite Hp in Hn'. cbn in Hn'. apply NoDup_cons in Hn' as [Hnp Hn'].
  split_and!; [by rewrite (list_to_map_proper _ _ Hn Hp)|by apply not_elem_of_list_to_map_1|done|..];
    intros Hin; apply Hnp; rewrite fmap_app, elem_of_app; auto.
Qed.

Section rep.
Context (c : Z) (b : bool) (d : option Z).

Lemma rs_rep_assoc L1 p x L2 X r : rs_rep (L1 ++ (p, x) :: L2) X c b d r ->
  NoDup (L1 ++ (p, x) :: L2 ++ X).*1 /\ ranges r = list_to_map (L1 ++ (p, x) :: L2 ++ X).
Proof. intros [_ Hn Hr _ _ _ _]. rewrite <- app_assoc in Hn, Hr. by split. Qed.

Lemma wp_read_range L1 p x L2 X r (Q : range -> rangeset -> Prop) : rs_rep (L1 ++ (p, x) :: L2) X c b d r ->
  Q x r -> wp (read_range p) Q r.
Proof.
  intros Hr HQ. destruct (rs_rep_assoc _ _ _ _ _ _ Hr) as [Hn Hm]. exists x, r. split; [|done]. unfold read_range.
  rewrite Hm, (proj1 (map_focus _ _ _ _ Hn)). by rewrite lookup_insert_eq.
Qed.

Lemma wp_write_range L1 p x x' L2 X r (Q : unit -> rangeset -> Prop) : rs_rep (L1 ++ (p, x) :: L2) X c b d r ->
  (forall r', rs_rep (L1 ++ (p, x') :: L2) X c b d r' -> Q tt r') -> wp (write_range p x') Q r.
Proof.
  intros Hr HQ. apply wp_bind. eapply wp_read_range; [exact Hr|]. apply wp_modify, HQ.
  destruct (rs_rep_assoc _ _ _ _ _ _ Hr) as [Hn Hm]. destruct (map_focus _ _ _ _ Hn) as (Hf & Hnone & _).
  assert ((L1 ++ (p, x') :: L2 ++ X).*1 = (L1 ++ (p, x) :: L2 ++ X).*1) as Hfst by (rewrite !fmap_app; done).
  assert (NoDup (L1 ++ (p, x') :: L2 ++ X).*1) as Hn' by (by rewrite Hfst). destruct Hr as [Hl _ _ Hnr Hk Hd Hb].
  split; cbn; [|by rewrite <- app_assoc| | |done|done|].
  - rewrite Hl, !fmap_app. done.
  - rewrite Hm, Hf, insert_insert_eq, <- app_assoc. symmetry. apply (map_focus _ _ _ _ Hn').
  - rewrite <- Hnr, !length_app. done.
  - rewrite !length_app in *. done.
Qed.

Lemma wp_write_s L1 p x s L2 X r (Q : unit -> rangeset -> Prop) : rs_rep (L1 ++ (p, x) :: L2) X c b d r ->
  (forall r', rs_rep (L1 ++ (p, Range s (r_e x)) :: L2) X c b d r' -> Q tt r') -> wp (write_s p s) Q r.
Proof. intros Hr HQ. apply wp_bind. eapply wp_read_range; [exact Hr|]. by eapply wp_write_range. Qed.

Lemma wp_write_e L1 p x e L2 X r (Q : unit -> rangeset -> Prop) : rs_rep (L1 ++ (p, x) :: L2) X c b d r ->
  (forall r', rs_rep (L1 ++ (p, Range (r_s x) e) :: L2) X c b d r' -> Q tt r') -> wp (write_e p e) Q r.
Proof. intros Hr HQ. apply wp_bind. eapply wp_read_range; [exact Hr|]. by eapply wp_write_range. Qed.

Lemma after_app p l1 l2 : p ∉ l1 -> after p (l1 ++ p :: l2) = Some (head l2).
Proof.
  induction l1 as [|q l1 IH]; cbn; [by rewrite Z.eqb_refl|]. intros [Hne Hp]%not_elem_of_cons.
  by rewrite (eqb_neq_false q p) by done; apply IH.
Qed.

Lemma list_del_app p l1 l2 : p ∉ l1 -> list_del p (l1 ++ p :: l2) = l1 ++ l2.
Proof.
  induction l1 as [|q l1 IH]; cbn; [by rewrite Z.eqb_refl|]. intros [Hne Hp]%not_elem_of_cons.
  rewrite (eqb_neq_false q p) by done. by rewrite IH.
Qed.

Lemma insert_after_app p q l1 l2 : p ∉ l1 -> insert_after p q (l1 ++ p :: l2) = l1 ++ p :: q :: l2.
Proof.
  induction l1 as [|q' l1 IH]; cbn; [by rewrite Z.eqb_refl|]. intros [Hne Hp]%not_elem_of_cons.
  rewrite (eqb_neq_false q' p) by done. by rewrite IH.
Qed.

Lemma rs_rep_fresh L1 p x L2 X r : rs_rep (L1 ++ (p, x) :: L2) X c b d r -> p ∉ L1.*1.
Proof. intros Hr. destruct (rs_rep_assoc _ _ _ _ _ _ Hr) as [Hn _]. apply (map_focus _ _ _ _ Hn). Qed.

Lemma wp_next_range L1 p x L2 X r (Q : option Z -> rangeset -> Prop) : rs_rep (L1 ++ (p, x) :: L2) X c b d r ->
  Q (head L2.*1) r -> wp (next_range p) Q r.
Proof.
  intros Hr HQ. exists (head L2.*1), r. split; [|done]. unfold next_range. rewrite (rp_list _ _ _ _ _ _ Hr), fmap_app. cbn [fmap list_fmap fst].
  by rewrite after_app by (by eapply rs_rep_fresh).
Qed.

Lemma wp_destroy_range L1 p x L2 r (Q : unit -> rangeset -> Prop) : rs_rep (L1 ++ (p, x) :: L2) [] c b d r ->
  (forall r', rs_rep (L1 ++ L2) [] c b d r' -> Q tt r') -> wp (destroy_range p) Q r.
Proof.
  intros Hr HQ. destruct (rs_rep_assoc _ _ _ _ _ _ Hr) as [Hn Hm]. destruct (map_focus _ _ _ _ Hn) as (Hf & Hnone & Hn' & Hp & _).
  rewrite !app_nil_r in *. apply wp_bind, wp_modify, wp_bind. unfold read_range. exists x. eexists. split; [cbn|].
  { by rewrite Hm, Hf, lookup_insert_eq. }
  apply wp_bind, wp_modify, wp_modify, HQ. destruct Hr as [Hl _ _ Hnr Hk Hd Hb]. split; cbn; [|by rewrite app_nil_r| | |done|done|].
  - rewrite Hl, !fmap_app. cbn. by apply list_del_app.
  - rewrite Hm, Hf, app_nil_r. by apply delete_insert_id.
  - rewrite <- Hnr, !length_app. cbn. lia.
  - rewrite !length_app in *. cbn in *. lia.
Qed.
End rep.

(** ** Locks and allocation *)

Lemma wp_lock_set L X c d r (Q : unit -> rangeset -> Prop) : rs_rep L X c false d r ->
  (forall r', rs_rep L X c true d r' -> Q tt r') -> wp lock_set Q r.
Proof. intros [? ? ? ? Hk ? ?] HQ. apply wp_bind, wp_gets. rewrite Hk. apply wp_modify, HQ. by split. Qed.

Lemma wp_unlock_set L X c d r (Q : unit -> rangeset -> Prop) : rs_rep L X c true d r ->
  (forall r', rs_rep L X c false d r' -> Q tt r') -> wp unlock_set Q r.
Proof. intros [? ? ? ? Hk ? ?] HQ. apply wp_bind, wp_gets. rewrite Hk. apply wp_modify, HQ. by split. Qed.

Lemma wp_first_range L X c b d r (Q : option Z -> rangeset -> Prop) : rs_rep L X c b d r -> Q (head L.*1) r -> wp first_range Q r.
Proof. intros Hr HQ. apply wp_gets. by rewrite (rp_list _ _ _ _ _ _ Hr). Qed.

(** A new range, which is not in the list yet. *)
Lemma wp_alloc_range `{Xmalloc} L c b d r (Q : option Z -> rangeset -> Prop) : rs_rep L [] c b d r ->
  (forall r', rs_rep L [] c b d r' -> Q None r') ->
  (forall p r', nr_ranges r <> 0 -> rs_rep L [(p, Range 0 0)] c b d r' -> Q (Some p) r') -> wp alloc_range Q r.
Proof.
  intros [Hl Hn Hm Hnr Hk Hd Hb] HN HS. apply wp_bind, wp_get. destruct (Z.eqb_spec (nr_ranges r) 0) as [|Hne]; [by apply wp_ret, HN|].
  apply wp_bind, wp_modify. destruct (xmalloc_addr _ _) as [p|] eqn:Ha; [|by apply wp_ret, HN].
  apply xmalloc_ok in Ha as [_ Hp]. apply wp_bind, wp_modify, wp_ret, HS; [done|]. rewrite app_nil_r in *.
  assert (p ∉ L.*1) as Hp'. { intros Hin. apply Hp. by rewrite Hm, dom_list_to_map_L, elem_of_list_to_set. }
  assert (NoDup (L ++ [(p, Range 0 0)]).*1) as Hn'.
  { rewrite fmap_app. apply NoDup_app. split_and!; [done| |apply NoDup_singleton]. by intros q Hq ->%list_elem_of_singleton. }
  split; cbn; [done|done| | |done|done|].
  - rewrite Hm. pose proof (proj1 (map_focus [] p (Range 0 0) L Hn')) as Hf. by rewrite app_nil_r in Hf.
  - rewrite <- Hnr, length_app. cbn. lia.
  - rewrite length_app. cbn. lia.
Qed.

Lemma wp_write_new L q y y' c b d r (Q : unit -> rangeset -> Prop) : rs_rep L [(q, y)] c b d r ->
  (forall r', rs_rep L [(q, y')] c b d r' -> Q tt r') -> wp (write_range q y') Q r.
Proof.
  intros [Hl Hn Hm Hnr Hk Hd Hb] HQ. destruct (map_focus _ _ _ _ Hn) as (Hf & _). apply wp_bind. exists y, r. split.
  { unfold read_range. by rewrite Hm, Hf, lookup_insert_eq. }
  assert ((L ++ [(q, y')]).*1 = (L ++ [(q, y)]).*1) as Hfst by (rewrite !fmap_app; done).
  assert (NoDup (L ++ [(q, y')]).*1) as Hn' by (by rewrite Hfst).
  apply wp_modify, HQ. split; cbn; [done|done| | |done|done|].
  - rewrite Hm, Hf, insert_insert_eq. symmetry. apply (map_focus _ _ _ _ Hn').
  - rewrite <- Hnr, !length_app. done.
  - rewrite !length_app in *. done.
Qed.

(** The new range gets its place behind the ranges [L1]. *)
Lemma wp_insert_range L1 L2 q y c b d r (Q : unit -> rangeset -> Prop) : rs_rep (L1 ++ L2) [(q, y)] c b d r ->
  (forall r', rs_rep (L1 ++ (q, y) :: L2) [] c b d r' -> Q tt r') -> wp (insert_range (last L1.*1) q) Q r.
Proof.
  intros [Hl Hn Hm Hnr Hk Hd Hb] HQ. apply wp_modify, HQ.
  assert (((L1 ++ (q, y) :: L2) ++ []) ≡ₚ ((L1 ++ L2) ++ [(q, y)])) as Hp.
  { rewrite app_nil_r, <- Permutation_middle. by rewrite (Permutation_app_comm (L1 ++ L2) [(q, y)]). }
  assert (NoDup ((L1 ++ (q, y) :: L2) ++ []).*1) as Hn' by (by rewrite Hp). split; cbn; [|done| | |done|done|].
  - rewrite Hl, !fmap_app. cbn. destruct L1 as [|[p x] L1 _] using rev_ind; [done|]. rewrite fmap_app. cbn [fmap list_fmap fst]. rewrite last_snoc. cbn.
    rewrite <- !app_assoc. cbn. apply insert_after_app. rewrite <- !app_assoc in Hn. cbn in Hn.
    apply (map_focus _ _ _ _ Hn).
  - rewrite Hm. symmetry. by apply list_to_map_proper.
  - rewrite <- Hnr. by rewrite Hp.
  - by rewrite Hp.
Qed.

(** ** Finding *)

(** The ranges that start up to [s], and those that start later. *)
Definition split_at (s : Z) (A C : list cell) : Prop :=
  Forall (fun x => r_s x.2 <= s) A /\ match C with [] => True | x :: _ => s < r_s x.2 end.

Lemma split_exists s L : exists A C, L = A ++ C /\ split_at s A C.
Proof.
  induction L as [|x L (A & C & -> & HA & HC)]; [by exists [], []|]. destruct (decide (r_s x.2 <= s)) as [Hx|Hx].
  - exists (x :: A), C. split; [done|]. split; [by constructor|done].
  - exists [], (x :: A ++ C). split; [done|]. split; [constructor|lia].
Qed.

Lemma wp_find_range s A C X c b d r (Q : option Z -> rangeset -> Prop) : rs_rep (A ++ C) X c b d r -> split_at s A C ->
  Q (last A.*1) r -> wp (find_range s) Q r.
Proof.
  intros Hr [HA HC] HQ. apply wp_bind, wp_gets. rewrite (rp_list _ _ _ _ _ _ Hr).
  assert (forall D x, rs_rep (D ++ A ++ C) X c b d r -> x = last D.*1 -> Q (last (D ++ A).*1) r ->
    wp (find_from (A ++ C).*1 s x) Q r) as Hgen; [|by apply (Hgen [])].
  clear Hr HQ. induction HA as [|[p x] A Hx HA IH]; intros D y Hr -> HQ; cbn.
  - rewrite app_nil_r in HQ. destruct C as [|[q z] C]; [by apply wp_ret|]. cbn. apply wp_bind.
    eapply wp_read_range; [exact Hr|]. cbn in HC. by rewrite (proj2 (Z.ltb_lt _ _) HC); apply wp_ret.
  - apply wp_bind. eapply wp_read_range; [exact Hr|]. cbn in Hx. rewrite (proj2 (Z.ltb_ge _ _) Hx).
    apply (IH (D ++ [(p, x)])); [by rewrite <- app_assoc| |by rewrite <- app_assoc]. rewrite fmap_app. cbn [fmap list_fmap fst]. by rewrite last_snoc.
Qed.

(** ** Adding *)

Lemma canon_raise lo lo' l hi : canon lo l hi -> lo' <= hi -> match l with [] => True | x :: _ => lo' <= r_s x end -> canon lo' l hi.
Proof. destruct l as [|x l]; cbn; [done|]. intros [? ?] ? ?. split; [lia|done]. Qed.

(** The ranges around [s, e]: those that start up to [s], up to [e], and
    later. *)
Lemma split_three s e L : s <= e -> exists A B C, L = A ++ B ++ C /\ split_at s A (B ++ C) /\ split_at e (A ++ B) C.
Proof.
  intros Hse. destruct (split_exists s L) as (A & D & -> & HA). destruct (split_exists e D) as (B & C & -> & HB & HC).
  exists A, B, C. split_and!; [done|done|]. split; [|done]. apply Forall_app. split; [|done].
  eapply Forall_impl; [apply HA|]. cbn. lia.
Qed.

Lemma same_range_split (A B : list cell) : NoDup (A ++ B).*1 ->
  same_range (last A.*1) (last (A ++ B).*1) = match B with [] => true | _ => false end.
Proof.
  intros Hn. destruct B as [|[q y] B _] using rev_ind.
  - rewrite app_nil_r. destruct (last A.*1); [apply Z.eqb_refl|done].
  - rewrite app_assoc, fmap_app. cbn [fmap list_fmap fst]. rewrite last_snoc.
    assert (match B ++ [(q, y)] with [] => true | _ => false end = false) as -> by (by destruct B).
    destruct A as [|[p x] A _] using rev_ind; [done|]. rewrite fmap_app. cbn [fmap list_fmap fst]. rewrite last_snoc. cbn.
    apply eqb_neq_false. intros ->. rewrite app_assoc in Hn. destruct (map_focus [] q y _ Hn) as (_ & _ & _ & Hq & _).
    apply Hq. rewrite !fmap_app, !elem_of_app. left. right. by apply list_elem_of_singleton.
Qed.

(** The range [x] between the ranges [A] and [C]; [C] may follow immediately. *)
Definition placed (A : list cell) (x : range) (C : list cell) : Prop :=
  canon 0 A.*2 (r_s x) /\ r_s x <= r_e x < 2 ^ 64 /\ canon (r_e x + 1) C.*2 TOP.

Lemma cons_next {T} (A : list T) x y C : A ++ x :: y :: C = (A ++ [x]) ++ y :: C.
Proof. by rewrite <- app_assoc. Qed.

Section add.
Context (c : Z) (d : option Z).

Lemma join_next_spec A p x C r : rs_rep (A ++ (p, x) :: C) [] c true d r -> placed A x C ->
  wp (join_next p) (fun _ r' => exists L, rs_rep L [] c true d r' /\ canon 0 L.*2 TOP /\
    forall n, covers L.*2 n <-> covers A.*2 n \/ inside x n \/ covers C.*2 n) r.
Proof.
  intros Hr (HA & Hx & HC). apply wp_bind. eapply wp_next_range; [exact Hr|]. destruct C as [|[q y] C]; cbn [fmap list_fmap head fst].
  { apply wp_ret. exists (A ++ [(p, x)]). split_and!; [done|..].
    - rewrite fmap_app. apply canon_app. exists (r_s x). split; [done|]. cbn. unfold TOP. lia.
    - intros n. rewrite fmap_app, covers_app. cbn. by rewrite covers_cons. }
  apply wp_bind. eapply wp_read_range; [exact Hr|]. apply wp_bind. pose proof Hr as Hr'. rewrite cons_next in Hr'.
  eapply wp_read_range; [exact Hr'|]. cbn in HC. destruct HC as [Hy HC]. pose proof (canon_le _ _ _ HC) as Hle. unfold TOP in Hle. apply canon_le in HA as Hx0.
  assert (u64 (r_e x + 1) = r_e x + 1) as -> by (apply Z.mod_small; lia).
  destruct (Z.eqb_spec (r_e x + 1) (r_s y)) as [Heq|Hne].
  - apply wp_bind. eapply wp_write_e; [exact Hr|]. intros r1 Hr1. rewrite cons_next in Hr1.
    eapply wp_destroy_range; [exact Hr1|]. intros r2 Hr2. rewrite <- app_assoc in Hr2. eexists. split; [exact Hr2|]. split.
    + rewrite fmap_app. apply canon_app. exists (r_s x). split; [done|]. cbn. split; [lia|done].
    + intros n. rewrite fmap_app, covers_app. cbn. rewrite !covers_cons. unfold inside. cbn. intuition lia.
  - apply wp_ret. eexists. split; [exact Hr|]. split.
    + rewrite fmap_app. apply canon_app. exists (r_s x). split; [done|]. cbn. split_and!; [lia..|done].
    + intros n. rewrite fmap_app, covers_app. cbn. by rewrite !covers_cons.
Qed.

Lemma absorb_spec fuel : forall A p x D C r, rs_rep (A ++ (p, x) :: D ++ C) [] c true d r -> (length D < fuel)%nat ->
  Forall (fun y => r_e y.2 <= r_e x) D -> match C with [] => True | y :: _ => r_e x < r_e y.2 end ->
  wp (absorb fuel p) (fun _ r' => rs_rep (A ++ (p, x) :: C) [] c true d r') r.
Proof.
  induction fuel as [|fuel IH]; intros A p x D C r Hr Hf HD HC; cbn [absorb]; [lia|]. apply wp_bind.
  eapply wp_next_range; [exact Hr|].
  destruct D as [|[q y] D]; cbn [app].
  - destruct C as [|[q y] C]; cbn [fmap list_fmap head fst]; [by apply wp_ret|]. apply wp_bind.
    pose proof Hr as Hr'. cbn [app] in Hr'. rewrite cons_next in Hr'.
    eapply wp_read_range; [exact Hr'|]. apply wp_bind. eapply wp_read_range; [exact Hr|]. cbn in HC.
    rewrite (proj2 (Z.ltb_lt _ _) HC). by apply wp_ret.
  - cbn [fmap list_fmap head fst]. apply wp_bind. apply Forall_cons in HD as [Hy HD]. cbn in Hy, Hf.
    pose proof Hr as Hr'. cbn [app] in Hr'. rewrite cons_next in Hr'.
    eapply wp_read_range; [exact Hr'|]. apply wp_bind. eapply wp_read_range; [exact Hr|]. rewrite (proj2 (Z.ltb_ge _ _) Hy).
    apply wp_bind. eapply wp_destroy_range; [exact Hr'|]. intros r1 Hr1. rewrite <- app_assoc in Hr1. eapply IH; [exact Hr1|lia|done|done].
Qed.

(** The set [L] with the numbers from [s] to [e], all of the latter in the
    range at [p]. *)
Definition added (L : list cell) (s e p : Z) (r : rangeset) : Prop :=
  exists A x C, rs_rep (A ++ (p, x) :: C) [] c true d r /\ placed A x C /\
    forall n, covers A.*2 n \/ inside x n \/ covers C.*2 n <-> covers L.*2 n \/ s <= n <= e.

(** The bounds of the last range of [A], and of what follows. *)
Lemma canon_snoc A (p : Z) a C : canon 0 ((A ++ [(p, a)]) ++ C).*2 TOP ->
  exists m, canon 0 A.*2 m /\ m <= r_s a <= r_e a /\ canon (r_e a + 2) C.*2 TOP.
Proof.
  rewrite <- app_assoc, fmap_app. intros (m & HA & Ha)%canon_app. cbn in Ha. exists m. by destruct Ha.
Qed.

Lemma covers_snoc A (p : Z) a C n : covers ((A ++ [(p, a)]) ++ C).*2 n <-> covers A.*2 n \/ inside a n \/ covers C.*2 n.
Proof. by rewrite <- app_assoc, fmap_app, covers_app; cbn; rewrite covers_cons. Qed.

Lemma add_inside_spec `{Xmalloc} A C s e r : rs_rep (A ++ C) [] c true d r -> canon 0 (A ++ C).*2 TOP -> split_at s A C -> split_at e A C ->
  0 <= s <= e -> e < 2 ^ 64 ->
  wp (add_inside (last A.*1) s e) (fun q r' => match q with
    | None => rs_rep (A ++ C) [] c true d r'
    | Some p => added (A ++ C) s e p r'
    end) r.
Proof.
  intros Hr Hc [HA _] [_ HC] Hs He. assert (forall lo, canon lo C.*2 TOP -> canon (e + 1) C.*2 TOP) as Hlater.
  { intros lo Hl. eapply canon_raise; [exact Hl|unfold TOP; lia|]. destruct C as [|[q y] C]; [done|]. cbn in HC |- *. lia. }
  assert (canon 0 A.*2 s -> wp (let! q := alloc_range in match q with None => ret None | Some q =>
      do! write_range q (Range s e) in do! insert_range (last A.*1) q in ret (Some q) end)
    (fun q r' => match q with None => rs_rep (A ++ C) [] c true d r' | Some p => added (A ++ C) s e p r' end) r) as Hnew.
  { intros Hfit. apply wp_bind. eapply wp_alloc_range; [exact Hr| |]; [intros r1 Hr1; by apply wp_ret|]. intros q r1 _ Hr1. apply wp_bind.
    eapply wp_write_new; [exact Hr1|]. intros r2 Hr2. apply wp_bind. eapply wp_insert_range; [exact Hr2|]. intros r3 Hr3.
    apply wp_ret. exists A, (Range s e), C. split_and!; [done| |].
    - rewrite fmap_app in Hc. apply canon_app in Hc as (m & _ & HCm). split_and!; [done|cbn; lia|cbn; lia|by eapply Hlater].
    - intros n. rewrite fmap_app, covers_app. unfold inside. cbn. tauto. }
  unfold add_inside. destruct A as [|[p a] A _] using rev_ind; [apply wp_bind, wp_ret, Hnew; cbn; lia|].
  destruct (canon_snoc _ _ _ _ Hc) as (m & HA0 & Ha & HC0). rewrite fmap_app in Hnew |- *. cbn [fmap list_fmap fst] in Hnew |- *. rewrite last_snoc in Hnew |- *.
  apply Forall_app in HA as [_ Has%Forall_inv]. cbn in Has.
  pose proof Hr as Hr0. rewrite <- app_assoc in Hr0. apply wp_bind, wp_bind. eapply wp_read_range; [exact Hr0|]. apply wp_ret.
  assert (r_e a < s -> u64 (r_e a + 1) = r_e a + 1) as Hu by (intros; apply Z.mod_small; apply canon_le in HA0; lia).
  destruct ((r_e a <? s) && negb (u64 (r_e a + 1) =? s)) eqn:Hap.
  - apply Hnew. rewrite fmap_app. apply canon_app. exists m. split; [done|]. cbn. lia.
  - assert (s <= r_e a + 1) as Ht by lia. cbn [deref]. apply wp_bind, wp_ret, wp_bind. eapply wp_read_range; [exact Hr0|].
    assert (forall r', rs_rep (A ++ (p, Range (r_s a) (Z.max (r_e a) e)) :: C) [] c true d r' -> added ((A ++ [(p, a)]) ++ C) s e p r') as Hdone.
    { intros r' Hr'. exists A, (Range (r_s a) (Z.max (r_e a) e)), C. split_and!; [done| |].
      - pose proof (canon_le _ _ _ HC0) as Hle. unfold TOP in Hle. split_and!; cbn; [eapply canon_weaken; [exact HA0|lia|lia]|lia|lia|].
        destruct (Z.max_spec (r_e a) e) as [[_ ->]|[_ ->]]; [by eapply Hlater|]. by eapply canon_weaken; [exact HC0|lia|lia].
      - intros n. rewrite covers_snoc. assert (inside (Range (r_s a) (Z.max (r_e a) e)) n <-> inside a n \/ s <= n <= e) as ->
          by (unfold inside; cbn; lia). tauto. }
    apply wp_bind. destruct (Z.ltb_spec (r_e a) e) as [Hlt|Hge].
    + eapply wp_write_e; [exact Hr0|]. intros r1 Hr1. apply wp_ret, Hdone. by rewrite Z.max_r by lia.
    + apply wp_ret, wp_ret, Hdone. rewrite Z.max_l by lia. by destruct a.
Qed.

(** Ranges in order that start between [s] and [e], the last of them [z]. *)
Lemma canon_last lo B (q : Z) z hi : canon lo (B ++ [(q, z)]).*2 hi -> Forall (fun y => r_e y.2 <= r_e z) B.
Proof.
  intros Hc. apply Forall_forall. intros y Hy. rewrite fmap_app in Hc. apply canon_app in Hc as (m & HB & Hz). cbn in Hz.
  destruct (canon_fits _ _ _ y.2 HB) as [_ ?]; [by apply list_elem_of_fmap_2|]. lia.
Qed.

Lemma covers_between lo B (q : Z) z hi s e n : canon lo (B ++ [(q, z)]).*2 hi -> Forall (fun y => s <= r_s y.2 <= e) (B ++ [(q, z)]) -> s <= e ->
  s <= n <= Z.max (r_e z) e <-> covers (B ++ [(q, z)]).*2 n \/ s <= n <= e.
Proof.
  intros Hc HF Hse. pose proof (canon_last _ _ _ _ _ Hc) as Hlast. pose proof (proj1 (Forall_app _ _ _) HF) as [HB Hz%Forall_inv].
  cbn in Hz. split.
  - intros Hn. destruct (decide (n <= e)) as [|Hgt]; [right; lia|left]. rewrite fmap_app, covers_app. right. cbn. rewrite covers_cons. left.
    unfold inside. lia.
  - intros [Hn|Hn]; [|lia]. apply Exists_exists in Hn as (x & Hx & Hn). apply list_elem_of_fmap in Hx as ([p' x'] & -> & Hx).
    unfold inside in Hn. cbn in Hn. apply elem_of_app in Hx as [Hx|[= -> ->]%list_elem_of_singleton].
    + pose proof (proj1 (Forall_forall _ _) Hlast _ Hx) as He. pose proof (proj1 (Forall_forall _ _) HB _ Hx). cbn in *. lia.
    + cbn in *. lia.
Qed.

(** The range at [p] swallows the ranges [D]. *)
Lemma swallow_spec A p x D C e y r : rs_rep (A ++ (p, x) :: D ++ C) [] c true d r -> last ((p, x) :: D) = Some y ->
  Forall (fun z => r_e z.2 <= r_e y.2) D -> match C with [] => True | z :: _ => Z.max (r_e y.2) e < r_e z.2 end ->
  wp (swallow p (Some y.1) e) (fun p' r' => p' = p /\ rs_rep (A ++ (p, Range (r_s x) (Z.max (r_e y.2) e)) :: C) [] c true d r') r.
Proof.
  intros Hr Hy HD HC. apply wp_bind, wp_ret, wp_bind. assert (wp (read_range y.1) (fun rq r' => rq = y.2 /\ r' = r) r) as Hrd.
  { destruct D as [|y' D _] using rev_ind; [injection Hy as <-; by eapply wp_read_range|].
    rewrite app_comm_cons, last_snoc in Hy. injection Hy as <-. destruct y' as [q y]. rewrite <- app_assoc, app_comm_cons, app_assoc in Hr.
    by eapply wp_read_range. }
  eapply wp_mono; [exact Hrd|]. intros rq r' [-> ->]. apply wp_bind. eapply wp_write_e; [exact Hr|]. intros r1 Hr1.
  replace (if e <? r_e y.2 then r_e y.2 else e) with (Z.max (r_e y.2) e) in * by (destruct (Z.ltb_spec e (r_e y.2)); lia).
  apply wp_bind, wp_gets, wp_bind. eapply wp_mono; [eapply absorb_spec; [exact Hr1| | |done]|].
  - rewrite (rp_list _ _ _ _ _ _ Hr1), length_fmap, length_app. cbn. rewrite length_app. lia.
  - eapply Forall_impl; [exact HD|]. cbn. lia.
  - intros ? r2 Hr2. by apply wp_ret.
Qed.

Lemma starts_between lo (B C : list cell) hi s e : canon lo B.*2 hi -> match B ++ C with [] => True | x :: _ => s < r_s x.2 end ->
  Forall (fun y => r_s y.2 <= e) B -> Forall (fun y => s < r_s y.2 <= e) B.
Proof.
  intros Hc Hs He. apply Forall_forall. intros y Hy. pose proof (proj1 (Forall_forall _ _) He _ Hy). cbn in *.
  destruct B as [|[q1 b1] B1]; [by apply not_elem_of_nil in Hy|]. cbn in Hs, Hc. apply elem_of_cons in Hy as [->|Hy]; [cbn in *; lia|].
  destruct (canon_fits _ _ _ y.2 (proj2 Hc)) as [? _]; [by apply list_elem_of_fmap_2|]. lia.
Qed.

(** The last of the ranges that start between [s] and [e] is at [q] and ends
    at [r_e z]; a range from [r_s x] on takes their place. *)
Lemma across_swallow A B q z C s e lo hi : canon lo (B ++ [(q, z)]).*2 hi -> hi <= TOP -> canon hi C.*2 TOP ->
  Forall (fun y => s <= r_s y.2 <= e) (B ++ [(q, z)]) -> match C with [] => True | w :: _ => e < r_s w.2 end -> 0 <= s <= e -> e < 2 ^ 64 ->
  forall A' p x D y r, rs_rep (A' ++ (p, x) :: D ++ C) [] c true d r -> last ((p, x) :: D) = Some y -> y.1 = q -> r_e y.2 = r_e z ->
    Forall (fun y => r_e y.2 <= r_e z) D -> canon 0 A'.*2 (r_s x) -> r_s x <= s ->
    (forall n, covers A'.*2 n \/ r_s x <= n <= Z.max (r_e z) e <-> covers A.*2 n \/ s <= n <= Z.max (r_e z) e) ->
    wp (swallow p (Some q) e) (added (A ++ (B ++ [(q, z)]) ++ C) s e) r.
Proof.
  intros HBm Hhi HCm HBs HC Hs He A' p x D y r Hr Hy <- Hye HD HA' Hxs Hcov. set (e1 := Z.max (r_e z) e) in *.
  assert (r_s z <= r_e z /\ r_e z + 2 <= hi) as Hz.
  { destruct (canon_fits _ _ _ z HBm) as [? ?]; [rewrite fmap_app, elem_of_app; right; by apply list_elem_of_singleton|]. lia. }
  assert (canon (e1 + 1) C.*2 TOP) as HClater.
  { eapply canon_raise; [exact HCm|unfold TOP, e1 in *; lia|]. unfold e1. destruct C as [|[? w] C]; [done|]. cbn in *. lia. }
  assert (match C with [] => True | w :: _ => Z.max (r_e y.2) e < r_e w.2 end) as HCe.
  { destruct C as [|[? w] C]; [done|]. cbn in *. lia. }
  rewrite <- Hye in HD. eapply wp_mono; [by eapply swallow_spec|]. intros p' r1 [-> Hr1]. rewrite Hye in Hr1. fold e1 in Hr1.
  exists A', (Range (r_s x) e1), C. split_and!; [done| |].
  - unfold TOP in *. split_and!; cbn; [done|unfold e1; lia..|done].
  - intros n. specialize (Hcov n). unfold inside. cbn [r_s r_e].
    pose proof (covers_between _ B y.1 z _ s e n HBm HBs ltac:(lia)) as Hb. fold e1 in Hb. rewrite !fmap_app, !covers_app in *. tauto.
Qed.

Lemma add_across_spec A B C s e r : rs_rep (A ++ B ++ C) [] c true d r -> canon 0 (A ++ B ++ C).*2 TOP -> split_at s A (B ++ C) ->
  split_at e (A ++ B) C -> 0 <= s <= e -> e < 2 ^ 64 -> B <> [] ->
  wp (add_across (last A.*1) (last (A ++ B).*1) s e) (added (A ++ B ++ C) s e) r.
Proof.
  intros Hr Hc [HA HBC] [HAB HC] Hs He HB. destruct B as [|[q z] B _] using rev_ind; [done|]. clear HB. set (BB := B ++ [(q, z)]) in *.
  assert (last (A ++ BB).*1 = Some q) as -> by (unfold BB; rewrite !fmap_app; cbn; by rewrite app_assoc, last_snoc).
  pose proof Hc as Hc0. rewrite fmap_app in Hc. apply canon_app in Hc as (m & HAm & HBCm). rewrite fmap_app in HBCm.
  apply canon_app in HBCm as (m2 & HBm & HCm).
  assert (Forall (fun y => s < r_s y.2 <= e) BB) as HBs by (apply Forall_app in HAB as [_ HBe]; by eapply starts_between).
  pose proof (across_swallow A B q z C s e m m2 HBm (canon_le _ _ _ HCm) HCm ltac:(eapply Forall_impl; [exact HBs|cbn; lia]) HC Hs He) as Hgo.
  fold BB in Hgo. assert (exists q1 b1 B1, BB = (q1, b1) :: B1) as (q1 & b1 & B1 & EBB) by (destruct BB as [|[q1 b1] B1] eqn:EBB; [by destruct B|eauto]).
  assert (Forall (fun y => r_e y.2 <= r_e z) BB) as Hlast by (apply Forall_app; split; [by eapply canon_last|by constructor]).
  assert (forall r', rs_rep (A ++ (q1, Range s (r_e b1)) :: B1 ++ C) [] c true d r' -> canon 0 A.*2 s ->
    wp (swallow q1 (Some q) e) (added (A ++ BB ++ C) s e) r') as Hnew.
  { intros r' Hr' HAs. pose proof Hlast as HB1. rewrite EBB in HB1. apply Forall_cons in HB1 as [_ HB1].
    assert (last ((q1, b1) :: B1) = Some (q, z)) as Hl by (rewrite <- EBB; apply last_snoc).
    assert (exists y, last ((q1, Range s (r_e b1)) :: B1) = Some y /\ y.1 = q /\ r_e y.2 = r_e z) as (y1 & Hy1 & Hq1 & He1)
      by (destruct B1; cbn in Hl |- *; [injection Hl as -> ->; eexists; by split_and!|eauto]).
    by eapply Hgo. }
  rewrite EBB in Hr. apply wp_bind. destruct A as [|[p a] A _] using rev_ind.
  { apply wp_bind. eapply wp_first_range; [exact Hr|]. apply wp_bind, wp_ret, wp_bind. eapply wp_write_s; [exact Hr|]. intros r1 Hr1.
    apply wp_ret, Hnew; [done|cbn; lia]. }
  rewrite fmap_app. cbn [fmap list_fmap fst]. rewrite last_snoc. pose proof Hr as Hr0. rewrite <- app_assoc in Hr0. cbn [app] in Hr0.
  destruct (canon_snoc _ _ _ _ Hc0) as (k & HA0 & Ha & HC0). rewrite EBB in HC0. cbn in HC0. rewrite EBB in HBs. apply Forall_inv in HBs as Hb1. cbn in Hb1.
  apply Forall_app in HA as [_ Has%Forall_inv]. cbn in Has. apply canon_le in HA0 as Hk.
  apply wp_bind. eapply wp_read_range; [exact Hr0|]. assert (u64 (r_e a + 1) = r_e a + 1) as -> by (apply Z.mod_small; lia).
  destruct ((r_e a <? s) && negb (r_e a + 1 =? s)) eqn:Hap.
  - apply wp_bind. eapply wp_next_range; [exact Hr0|]. apply wp_bind, wp_ret, wp_bind. eapply wp_write_s; [exact Hr|]. intros r1 Hr1.
    apply wp_ret, Hnew; [done|]. rewrite fmap_app. apply canon_app. exists k. split; [done|]. cbn. lia.
  - apply wp_ret. eapply (Hgo A p a BB (q, z)); [by rewrite EBB|unfold BB; by rewrite app_comm_cons, last_snoc|done|done|done| |lia|].
    + by eapply canon_weaken; [exact HA0|lia|lia].
    + intros n. rewrite fmap_app, covers_app. cbn. rewrite covers_cons, covers_nil. unfold inside. intuition lia.
Qed.
End add.

(** ** Sets *)

(** The set [r] stands for the numbers [P]; it may have [c] ranges. *)
Definition rs_set (P : Z -> Prop) (c : Z) (d : option Z) (r : rangeset) : Prop :=
  exists L, rs_rep L [] c false d r /\ canon 0 L.*2 TOP /\ forall n, covers L.*2 n <-> P n.

Lemma rs_set_iff P Q c d r : rs_set P c d r -> (forall n, P n <-> Q n) -> rs_set Q c d r.
Proof. intros (L & Hr & Hc & HP) HPQ. exists L. split_and!; [done..|]. intros n. by rewrite HP. Qed.

(** The set gives its lock back. *)
Lemma wp_unlock_with {T} (P : Z -> Prop) L c d r (a : T) (Q : T -> rangeset -> Prop) : rs_rep L [] c true d r -> canon 0 L.*2 TOP ->
  (forall n, covers L.*2 n <-> P n) -> (forall r', rs_set P c d r' -> Q a r') -> wp (do! unlock_set in ret a) Q r.
Proof. intros Hr Hc HP HQ. apply wp_bind. eapply wp_unlock_set; [exact Hr|]. intros r1 Hr1. apply wp_ret, HQ. by exists L. Qed.

Lemma rangeset_add_range_spec `{Xmalloc} P c d s e r : rs_set P c d r -> 0 <= s <= e -> e < 2 ^ 64 ->
  wp (rangeset_add_range s e) (fun rc r' =>
    rc = 0 /\ rs_set (fun n => P n \/ s <= n <= e) c d r' \/ rc = - ENOMEM /\ rs_set P c d r') r.
Proof.
  intros (L & Hr & Hc & HP) Hs He. apply wp_bind, wp_assert; [lia|]. apply wp_bind. eapply wp_lock_set; [exact Hr|]. clear r Hr. intros r Hr.
  destruct (split_three s e L ltac:(lia)) as (A & B & C & -> & HA & HB). apply wp_bind. eapply wp_find_range; [exact Hr|exact HA|].
  rewrite app_assoc in Hr. apply wp_bind. eapply wp_find_range; [exact Hr|exact HB|]. rewrite <- app_assoc in Hr. apply wp_bind.
  assert (NoDup (A ++ B).*1) as Hn.
  { pose proof (rp_nodup _ _ _ _ _ _ Hr) as Hn. rewrite app_nil_r, app_assoc, fmap_app in Hn. by apply NoDup_app in Hn as [? _]. }
  rewrite same_range_split by done.
  assert (forall p r', added c d (A ++ B ++ C) s e p r' -> wp (do! join_next p in do! unlock_set in ret 0) (fun rc r' =>
    rc = 0 /\ rs_set (fun n => P n \/ s <= n <= e) c d r' \/ rc = - ENOMEM /\ rs_set P c d r') r') as Hfin.
  { intros p r' (A' & x & C' & Hr' & Hpl & Hcov). apply wp_bind. eapply wp_mono; [by eapply join_next_spec|].
    intros ? r1 (L & Hr1 & Hc1 & Hcov1). eapply (wp_unlock_with (fun n => P n \/ s <= n <= e) L); [exact Hr1|done|intros n; by rewrite Hcov1, Hcov, HP|]. by left. }
  destruct B as [|b B].
  - cbn [app] in *. rewrite app_nil_r in *. eapply wp_mono; [eapply add_inside_spec; [exact Hr|..]; done|]. intros [p|] r1 Hr1; [by apply Hfin|].
    eapply wp_unlock_with; [exact Hr1|done|exact HP|]. by right.
  - apply wp_bind. eapply wp_mono; [eapply add_across_spec; [exact Hr|..]; done|]. intros p r1 Hr1. by apply wp_ret, Hfin.
Qed.

(** ** Asking *)

(** The range [a] is the last one that starts up to [s]: the numbers from its
    start up to the next range. *)
Lemma last_before A (p : Z) a C s n : canon 0 ((A ++ [(p, a)]) ++ C).*2 TOP -> split_at s (A ++ [(p, a)]) C -> r_s a <= n ->
  n <= s \/ n = r_e a + 1 \/ n <= r_e a -> covers ((A ++ [(p, a)]) ++ C).*2 n <-> n <= r_e a.
Proof.
  intros Hc [_ HC] Hn Hle. destruct (canon_snoc _ _ _ _ Hc) as (m & HA & Ha & HC0). rewrite covers_snoc. split; [|intros; right; left; unfold inside; lia].
  intros [H|[H|H]]; [destruct (canon_covers _ _ _ _ HA H); lia|unfold inside in H; lia|].
  destruct (canon_covers _ _ _ _ HC0 H). destruct C as [|[q y] C]; [by apply covers_nil in H|]. cbn in HC, HC0. destruct HC0 as [Hy HC0].
  apply covers_cons in H as [H|H]; [unfold inside in H; cbn in H; lia|]. destruct (canon_covers _ _ _ _ HC0 H). lia.
Qed.

Lemma none_before (C : list cell) s n : canon 0 C.*2 TOP -> split_at s [] C -> n <= s -> ~ covers C.*2 n.
Proof.
  intros Hc [_ HC] Hn H. destruct C as [|[q y] C]; [by apply covers_nil in H|]. cbn in HC, Hc. destruct Hc as [Hy Hc].
  apply covers_cons in H as [H|H]; [unfold inside in H; cbn in H; lia|]. destruct (canon_covers _ _ _ _ Hc H). lia.
Qed.

Lemma rangeset_contains_range_spec P c d s e r : rs_set P c d r -> 0 <= s <= e ->
  wp (rangeset_contains_range s e) (fun b r' => rs_set P c d r' /\ (b = true <-> forall n, s <= n <= e -> P n)) r.
Proof.
  intros (L & Hr & Hc & HP) Hs. apply wp_bind, wp_assert; [lia|]. apply wp_bind. eapply wp_lock_set; [exact Hr|]. clear r Hr. intros r Hr.
  destruct (split_exists s L) as (A & C & -> & HA). apply wp_bind. eapply wp_find_range; [exact Hr|exact HA|]. apply wp_bind.
  destruct A as [|[p a] A _] using rev_ind.
  { apply wp_ret. eapply wp_unlock_with; [exact Hr|done|exact HP|]. intros r' Hr'. split; [done|]. split; [done|]. intros Hall.
    destruct (none_before _ _ s Hc HA ltac:(lia)). apply HP, Hall. lia. }
  rewrite fmap_app. cbn [fmap list_fmap fst]. rewrite last_snoc. apply wp_bind. pose proof Hr as Hr0. rewrite <- app_assoc in Hr0. eapply wp_read_range; [exact Hr0|].
  apply wp_ret. eapply wp_unlock_with; [exact Hr|done|exact HP|]. intros r' Hr'. split; [done|].
  pose proof (proj1 HA) as Has. apply Forall_app in Has as [_ Has%Forall_inv]. cbn in Has. rewrite Z.leb_le. split.
  - intros Hle n Hn. apply HP. rewrite last_before; [lia|done|done|lia|lia].
  - intros Hall. destruct (Z.le_gt_cases e (r_e a)) as [|Hgt]; [done|]. exfalso.
    assert (s <= r_e a) by (rewrite <- (last_before A p a C s s) by (done || lia); apply HP, Hall; lia).
    assert (r_e a + 1 <= r_e a); [|lia]. rewrite <- (last_before A p a C s (r_e a + 1)) by (done || lia). apply HP, Hall. lia.
Qed.

Lemma rangeset_overlaps_range_spec P c d s e r : rs_set P c d r -> 0 <= s <= e ->
  wp (rangeset_overlaps_range s e) (fun b r' => rs_set P c d r' /\ (b = true <-> exists n, s <= n <= e /\ P n)) r.
Proof.
  intros (L & Hr & Hc & HP) Hs. apply wp_bind, wp_assert; [lia|]. apply wp_bind. eapply wp_lock_set; [exact Hr|]. clear r Hr. intros r Hr.
  destruct (split_exists e L) as (A & C & -> & HA). apply wp_bind. eapply wp_find_range; [exact Hr|exact HA|]. apply wp_bind.
  destruct A as [|[p a] A _] using rev_ind.
  { apply wp_ret. eapply wp_unlock_with; [exact Hr|done|exact HP|]. intros r' Hr'. split; [done|]. split; [done|]. intros (n & Hn & Hp).
    destruct (none_before _ _ n Hc HA ltac:(lia)). by apply HP. }
  rewrite fmap_app. cbn [fmap list_fmap fst]. rewrite last_snoc. apply wp_bind. pose proof Hr as Hr0. rewrite <- app_assoc in Hr0. eapply wp_read_range; [exact Hr0|].
  apply wp_ret. eapply wp_unlock_with; [exact Hr|done|exact HP|]. intros r' Hr'. split; [done|].
  pose proof (proj1 HA) as Has. apply Forall_app in Has as [_ Has%Forall_inv]. cbn in Has. rewrite Z.leb_le.
  destruct (canon_snoc _ _ _ _ Hc) as (m & HA0 & Ha & _). split.
  - intros Hle. exists (Z.max s (r_s a)). split; [lia|]. apply HP. rewrite last_before; [lia|done|done|lia|lia].
  - intros (n & Hn & Hp). apply HP in Hp. destruct (Z.le_gt_cases (r_s a) n); [|lia].
    apply (last_before A p a C e n) in Hp; [lia|done|done|lia|lia].
Qed.

(** ** Removing *)

(** A range of the set starts above [s], up to [e]. *)
Definition starts_in (P : Z -> Prop) (s e : Z) : Prop := exists n, s < n <= e /\ P n /\ ~ P (n - 1).

(** The numbers between the last member below [s], if [s] is no member, and
    [s]. *)
Definition gap_below (P : Z -> Prop) (s n : Z) : Prop := n < s /\ exists m, m < n /\ P m /\ forall k, m < k <= s -> ~ P k.

(** What a removal leaves. *)
Definition removed (P : Z -> Prop) (s e n : Z) : Prop := P n /\ ~ (s <= n <= e) \/ starts_in P s e /\ gap_below P s n.

Section remove.
Context (c : Z) (d : option Z).

Lemma destroy_until_spec D : forall fuel A q z C r, rs_rep (A ++ D ++ (q, z) :: C) [] c true d r -> (length D <= fuel)%nat ->
  wp (destroy_until fuel (head (D ++ [(q, z)]).*1) q) (fun _ r' => rs_rep (A ++ (q, z) :: C) [] c true d r') r.
Proof.
  induction D as [|[p x] D IH]; intros fuel A q z C r Hr Hf; cbn [app fmap list_fmap head fst].
  - destruct fuel; cbn [destroy_until same_range]; rewrite Z.eqb_refl; by apply wp_ret.
  - cbn in Hf. destruct fuel as [|fuel]; [lia|]. cbn [destroy_until same_range]. assert ((p =? q) = false) as ->.
    { apply eqb_neq_false. intros ->. pose proof (rs_rep_fresh c true d (A ++ (q, x) :: D) q z C [] r) as Hq. rewrite <- app_assoc in Hq.
      apply (Hq Hr). rewrite fmap_app, elem_of_app. right. cbn. by apply list_elem_of_here. }
    apply wp_bind, wp_ret, wp_bind. cbn [app] in Hr. eapply wp_next_range; [exact Hr|]. apply wp_bind. eapply wp_destroy_range; [exact Hr|].
    intros r1 Hr1. assert (head (D ++ (q, z) :: C).*1 = head (D ++ [(q, z)]).*1) as -> by (by destruct D). apply IH; [done|lia].
Qed.

Lemma trim_spec A D q z C s e r : rs_rep (A ++ D ++ (q, z) :: C) [] c true d r -> canon 0 A.*2 (s + 1) -> 0 <= s <= e -> e < ULONG_MAX ->
  r_s z <= r_e z -> r_s z <= e -> canon (r_e z + 2) C.*2 TOP -> match C with [] => True | w :: _ => e < r_s w.2 end ->
  wp (trim (head (D ++ [(q, z)]).*1) (Some q) e) (fun _ r' => exists L, rs_rep L [] c true d r' /\ canon 0 L.*2 TOP /\
    forall n, covers L.*2 n <-> covers A.*2 n \/ e < n <= r_e z \/ covers C.*2 n) r.
Proof.
  intros Hr HA Hs He Hz Hze HCm HC. unfold ULONG_MAX in He. apply wp_bind, wp_ret, wp_bind, wp_gets, wp_bind.
  eapply wp_mono; [eapply destroy_until_spec; [exact Hr|]|].
  { rewrite (rp_list _ _ _ _ _ _ Hr), length_fmap, !length_app. lia. }
  intros ? r1 Hr1. assert (u64 (e + 1) = e + 1) as -> by (apply Z.mod_small; lia). apply wp_bind. eapply wp_write_s; [exact Hr1|]. intros r2 Hr2.
  apply wp_bind. eapply wp_read_range; [exact Hr2|]. cbn [r_s r_e]. destruct (Z.ltb_spec (r_e z) (e + 1)) as [Hlt|Hge].
  - eapply wp_destroy_range; [exact Hr2|]. intros r3 Hr3. eexists. split; [exact Hr3|]. split.
    + rewrite fmap_app. apply canon_app. exists (s + 1). split; [done|]. eapply canon_raise; [exact HCm|unfold TOP; lia|].
      destruct C as [|[? w] C]; [done|]. cbn in *. lia.
    + intros n. rewrite fmap_app, covers_app. intuition lia.
  - apply wp_ret. eexists. split; [exact Hr2|]. split.
    + rewrite fmap_app. apply canon_app. exists (s + 1). split; [done|]. cbn. split; [lia|done].
    + intros n. rewrite fmap_app, covers_app. cbn. rewrite covers_cons. unfold inside. cbn. intuition lia.
Qed.
(** The same of a set whose lock is held. *)
Definition rs_locked (P : Z -> Prop) (r : rangeset) : Prop :=
  exists L, rs_rep L [] c true d r /\ canon 0 L.*2 TOP /\ forall n, covers L.*2 n <-> P n.

(** The ranges [M] take the place of [a]. *)
Lemma inside_locked A p a M C s e r : rs_rep (A ++ M ++ C) [] c true d r -> canon 0 ((A ++ [(p, a)]) ++ C).*2 TOP ->
  r_s a <= s -> match C with [] => True | w :: _ => e < r_s w.2 end ->
  canon (r_s a) M.*2 (r_e a + 2) -> (forall n, covers M.*2 n <-> inside a n /\ ~ (s <= n <= e)) ->
  rs_locked (fun n => covers ((A ++ [(p, a)]) ++ C).*2 n /\ ~ (s <= n <= e)) r.
Proof.
  intros Hr Hc Has HC HM Hcov. destruct (canon_snoc _ _ _ _ Hc) as (m & HA & Ha & HC0). exists (A ++ M ++ C). split_and!; [done|..].
  - rewrite !fmap_app. apply canon_app. exists m. split; [done|]. apply canon_app. exists (r_e a + 2).
    split; [eapply canon_weaken; [exact HM|lia|lia]|done].
  - intros n. rewrite covers_snoc, !fmap_app, !covers_app, Hcov.
    assert (covers A.*2 n -> ~ (s <= n <= e)) as HAn by (intros H; destruct (canon_covers _ _ _ _ HA H); lia).
    assert (covers C.*2 n -> ~ (s <= n <= e)) as HCn; [|tauto]. intros H. destruct C as [|[q y] C]; [by apply covers_nil in H|].
    cbn in HC, HC0. destruct HC0 as [Hy HC0]. apply covers_cons in H as [H|H]; [unfold inside in H; cbn in H; lia|].
    destruct (canon_covers _ _ _ _ HC0 H). lia.
Qed.

Lemma remove_inside_spec `{Xmalloc} A C s e r : rs_rep (A ++ C) [] c true d r -> canon 0 (A ++ C).*2 TOP -> split_at s A C -> split_at e A C ->
  0 <= s <= e -> e < 2 ^ 64 ->
  wp (remove_inside (last A.*1) s e) (fun rc r' =>
    rc = 0 /\ rs_locked (fun n => covers (A ++ C).*2 n /\ ~ (s <= n <= e)) r' \/
    rc = - ENOMEM /\ rs_locked (covers (A ++ C).*2) r') r.
Proof.
  intros Hr Hc HA HC Hs He. destruct A as [|[p a] A _] using rev_ind.
  { apply wp_ret. left. split; [done|]. exists C. split_and!; [done..|]. intros n. split; [|tauto]. intros Hn. split; [done|].
    intros Hse. by apply (none_before C e n Hc HC); [lia|]. }
  pose proof (proj1 HA) as Has. apply Forall_app in Has as [_ Has%Forall_inv]. cbn in Has. rewrite fmap_app. cbn [fmap list_fmap fst]. rewrite last_snoc.
  destruct (canon_snoc _ _ _ _ Hc) as (m & HA0 & Ha & HC0). apply canon_le in HA0 as Hm. apply canon_le in HC0 as HaT. unfold TOP in HaT.
  pose proof Hr as Hr0. rewrite <- app_assoc in Hr0. cbn [app] in Hr0.
  assert (u64 (s - 1) = s - 1 \/ s = 0) as Hu by (destruct (decide (s = 0)); [by right|left; apply Z.mod_small; lia]).
  assert (forall M r', rs_rep (A ++ M ++ C) [] c true d r' -> canon (r_s a) M.*2 (r_e a + 2) -> (forall n, covers M.*2 n <-> inside a n /\ ~ (s <= n <= e)) ->
    0 = 0 /\ rs_locked (fun n => covers ((A ++ [(p, a)]) ++ C).*2 n /\ ~ (s <= n <= e)) r' \/
    0 = - ENOMEM /\ rs_locked (covers ((A ++ [(p, a)]) ++ C).*2) r') as Hdone.
  { intros M r' Hr' HM Hcov. left. split; [done|]. eapply inside_locked; [exact Hr'|done|lia|apply HC|done|done]. }
  unfold remove_inside. apply wp_bind. eapply wp_read_range; [exact Hr0|]. destruct (Z.ltb_spec (r_e a) s) as [Hlt|Hge].
  { apply wp_ret, (Hdone [(p, a)]); [done|cbn; lia|]. intros n. cbn. rewrite covers_cons, covers_nil. unfold inside. lia. }
  destruct ((r_s a <? s) && (e <? r_e a)) eqn:E1.
  { destruct Hu as [Hu|Hu]; [|lia]. assert (u64 (e + 1) = e + 1) as -> by (apply Z.mod_small; lia). rewrite Hu.
    apply wp_bind. eapply wp_alloc_range; [exact Hr0|intros r1 Hr1; apply wp_ret; right; split; [done|]|].
    { exists ((A ++ [(p, a)]) ++ C). split_and!; [by rewrite <- app_assoc|done|done]. }
    intros q r1 _ Hr1. apply wp_bind. eapply wp_write_new; [exact Hr1|]. intros r2 Hr2. apply wp_bind. eapply wp_write_e; [exact Hr2|].
    intros r3 Hr3. apply wp_bind. assert (Some p = last (A ++ [(p, Range (r_s a) (s - 1))]).*1) as -> by (rewrite fmap_app; cbn [fmap list_fmap fst]; by rewrite last_snoc).
    eapply (wp_insert_range (A ++ [(p, Range (r_s a) (s - 1))]) C); [by rewrite <- app_assoc|]. intros r4 Hr4. rewrite <- app_assoc in Hr4. apply wp_ret.
    apply (Hdone [(p, Range (r_s a) (s - 1)); (q, Range (e + 1) (r_e a))]); [done|cbn; lia|].
    intros n. cbn. rewrite !covers_cons, covers_nil. unfold inside. cbn. lia. }
  destruct ((r_s a =? s) && (r_e a <=? e)) eqn:E2.
  { apply wp_bind. eapply wp_destroy_range; [exact Hr0|]. intros r1 Hr1. apply wp_ret, (Hdone []); [done|cbn; lia|].
    intros n. cbn. rewrite covers_nil. unfold inside. lia. }
  destruct (Z.eqb_spec (r_s a) s) as [Heq|Hne].
  { assert (u64 (e + 1) = e + 1) as -> by (apply Z.mod_small; lia). apply wp_bind. eapply wp_write_s; [exact Hr0|]. intros r1 Hr1.
    apply wp_ret, (Hdone [(p, Range (e + 1) (r_e a))]); [done|cbn; lia|]. intros n. cbn. rewrite covers_cons, covers_nil. unfold inside. cbn. lia. }
  destruct (Z.leb_spec (r_e a) e) as [Hle|Hgt]; [|lia]. destruct Hu as [Hu|Hu]; [|lia]. rewrite Hu. apply wp_bind.
  eapply wp_write_e; [exact Hr0|]. intros r1 Hr1. apply wp_ret, (Hdone [(p, Range (r_s a) (s - 1))]); [done|cbn; lia|].
  intros n. cbn. rewrite covers_cons, covers_nil. unfold inside. cbn. lia.
Qed.
Lemma starts_in_last A (q : Z) z C s e : canon 0 ((A ++ [(q, z)]) ++ C).*2 TOP -> s < r_s z <= e -> starts_in (covers ((A ++ [(q, z)]) ++ C).*2) s e.
Proof.
  intros Hc Hs. destruct (canon_snoc _ _ _ _ Hc) as (m & HA & Hz & HC). exists (r_s z). split; [done|]. rewrite !covers_snoc. unfold inside.
  split; [right; left; lia|]. intros [H|[H|H]]; [destruct (canon_covers _ _ _ _ HA H); lia|lia|destruct (canon_covers _ _ _ _ HC H); lia].
Qed.

Lemma gap_below_last A (p : Z) a C s n : canon 0 ((A ++ [(p, a)]) ++ C).*2 TOP -> split_at s (A ++ [(p, a)]) C ->
  gap_below (covers ((A ++ [(p, a)]) ++ C).*2) s n <-> r_e a < n < s.
Proof.
  intros Hc HA. pose proof (proj1 HA) as Has. apply Forall_app in Has as [_ Has%Forall_inv]. cbn in Has.
  pose proof (fun k => last_before A p a C s k Hc HA) as Hk. destruct (canon_snoc _ _ _ _ Hc) as (m & _ & Ha & _). split.
  - intros (Hn & m' & Hm & _ & Hgap). split; [|done]. destruct (Z.le_gt_cases n (r_e a)); [|lia]. exfalso.
    apply (Hgap (Z.max n (r_s a)) ltac:(lia)), Hk; lia.
  - intros Hn. split; [lia|]. exists (r_e a). split_and!; [lia|apply Hk; lia|]. intros k Hlt. rewrite Hk by lia. lia.
Qed.

(** The numbers of the ranges between, and behind them. *)
Lemma removed_across A B (q : Z) z C s e (A' : list range) : canon 0 (A ++ (B ++ [(q, z)]) ++ C).*2 TOP -> Forall (fun y => s < r_s y.2 <= e) (B ++ [(q, z)]) ->
  match C with [] => True | w :: _ => e < r_s w.2 end -> s <= e ->
  (forall n, covers A' n <-> covers A.*2 n /\ ~ (s <= n <= e) \/ gap_below (covers (A ++ (B ++ [(q, z)]) ++ C).*2) s n) ->
  forall n, covers A' n \/ e < n <= r_e z \/ covers C.*2 n <-> removed (covers (A ++ (B ++ [(q, z)]) ++ C).*2) s e n.
Proof.
  intros Hc HBs HC Hse HA' n. unfold removed.
  assert (starts_in (covers (A ++ (B ++ [(q, z)]) ++ C).*2) s e) as Hst.
  { rewrite (app_assoc A), (app_assoc A) in *. apply starts_in_last; [done|]. apply Forall_app in HBs as [_ Hz%Forall_inv]. done. }
  specialize (HA' n). set (G := gap_below _ s n) in *. set (T := starts_in _ s e) in *. rewrite fmap_app in Hc. apply canon_app in Hc as (m & HA & HBC). rewrite fmap_app in HBC.
  apply canon_app in HBC as (m2 & HB & HCm). pose proof (covers_between _ _ _ _ _ s e n HB ltac:(eapply Forall_impl; [exact HBs|cbn; lia]) ltac:(lia)) as Hb.
  assert (covers C.*2 n -> ~ (s <= n <= e)) as HCn.
  { intros H. destruct C as [|[q' y] C]; [by apply covers_nil in H|]. cbn in HC, HCm. destruct HCm as [Hy HCm].
    apply covers_cons in H as [H|H]; [unfold inside in H; cbn in H; lia|]. destruct (canon_covers _ _ _ _ HCm H). lia. }
  rewrite (fmap_app _ A), (fmap_app _ _ C), !covers_app. set (K := covers (B ++ [(q, z)]).*2 n) in *.
  assert (K /\ ~ (s <= n <= e) <-> e < n <= r_e z) as HK; [|tauto]. split.
  - intros [HKn Hn]. assert (s <= n <= Z.max (r_e z) e) by (apply Hb; by left). lia.
  - intros Hn. assert (K \/ s <= n <= e) as [?|?] by (apply Hb; lia); [split; [done|lia]|lia].
Qed.

Lemma remove_across_spec A B C s e r : rs_rep (A ++ B ++ C) [] c true d r -> canon 0 (A ++ B ++ C).*2 TOP -> split_at s A (B ++ C) ->
  split_at e (A ++ B) C -> 0 <= s <= e -> e < ULONG_MAX -> B <> [] ->
  wp (remove_across (last A.*1) (last (A ++ B).*1) s e) (fun _ r' => rs_locked (removed (covers (A ++ B ++ C).*2) s e) r') r.
Proof.
  intros Hr Hc HAs [HAB HC] Hs He HB. destruct B as [|[q z] B _] using rev_ind; [done|]. clear HB.
  assert (last (A ++ B ++ [(q, z)]).*1 = Some q) as -> by (rewrite !fmap_app; cbn; by rewrite app_assoc, last_snoc).
  pose proof Hc as Hc0. rewrite (app_assoc A), (app_assoc A) in Hc0. destruct (canon_snoc _ _ _ _ Hc0) as (m & HABm & Hz & HCm). clear Hc0.
  assert (Forall (fun y => s < r_s y.2 <= e) (B ++ [(q, z)])) as HBs.
  { pose proof Hc as Hc1. rewrite fmap_app in Hc1. apply canon_app in Hc1 as (m1 & _ & Hc1). rewrite fmap_app in Hc1. apply canon_app in Hc1 as (m2 & Hc1 & _).
    apply Forall_app in HAB as [_ HBe]. eapply starts_between; [exact Hc1|apply HAs|done]. }
  assert (r_s z <= e) as Hze by (apply Forall_app in HBs as [_ Hz'%Forall_inv]; cbn in Hz'; lia).
  assert (forall A' D r', rs_rep (A' ++ D ++ (q, z) :: C) [] c true d r' -> canon 0 A'.*2 (s + 1) ->
    (forall n, covers A'.*2 n <-> covers A.*2 n /\ ~ (s <= n <= e) \/ gap_below (covers (A ++ (B ++ [(q, z)]) ++ C).*2) s n) ->
    wp (trim (head (D ++ [(q, z)]).*1) (Some q) e) (fun _ r' => rs_locked (removed (covers (A ++ (B ++ [(q, z)]) ++ C).*2) s e) r') r') as Hgo.
  { intros A' D r' Hr' HA' Hcov. eapply wp_mono; [eapply trim_spec; [exact Hr'|exact HA'|lia|done|lia|done|done|done]|].
    intros ? r1 (L & Hr1 & Hc1 & Hcov1). exists L. split_and!; [done..|]. intros n. rewrite Hcov1. apply removed_across; [done|done|done|lia|done]. }
  rewrite <- (app_assoc B) in Hr. cbn [app] in Hr. destruct A as [|[p a] A _] using rev_ind.
  { apply wp_bind. eapply wp_first_range; [exact Hr|]. cbn [app] in *.
    assert (head (B ++ (q, z) :: C).*1 = head (B ++ [(q, z)]).*1) as -> by (by destruct B).
    assert (exists q1 b1 B1, B ++ [(q, z)] = (q1, b1) :: B1) as (q1 & b1 & B1 & EB) by (destruct (B ++ [(q, z)]) as [|[] ] eqn:EB; [by destruct B|eauto]).
    assert (rs_rep ([] ++ (q1, b1) :: B1 ++ C) [] c true d r) as Hr1 by (cbn; by rewrite app_comm_cons, <- EB, <- app_assoc).
    rewrite EB in HBs. apply Forall_inv in HBs as Hb1. cbn in Hb1. apply wp_bind. rewrite EB at 1. apply wp_ret, wp_bind. eapply wp_read_range; [exact Hr1|].
    rewrite (proj2 (Z.ltb_ge _ _)) by lia. apply wp_bind, wp_ret. apply (Hgo [] B); [done|cbn; lia|]. intros n. rewrite covers_nil. split; [done|].
    intros [[[] _]|(Hn & k & Hk & HP & _)]. destruct (none_before _ s k Hc HAs); [lia|done]. }
  rewrite fmap_app. cbn [fmap list_fmap fst]. rewrite last_snoc. pose proof Hr as Hr0. rewrite <- app_assoc in Hr0. cbn [app] in Hr0.
  destruct (canon_snoc _ _ _ _ Hc) as (k & HA0 & Ha & Hnext). pose proof (proj1 HAs) as Has. apply Forall_app in Has as [_ Has%Forall_inv]. cbn in Has.
  assert (r_e a + 2 <= e) as Hae.
  { rewrite fmap_app in Hnext. apply canon_app in Hnext as (k2 & Hnext & _). destruct (canon_fits _ _ _ z Hnext) as [? _]; [|lia].
    rewrite fmap_app, elem_of_app. right. by apply list_elem_of_singleton. }
  apply wp_bind, wp_ret, wp_bind, wp_ret, wp_bind. eapply wp_read_range; [exact Hr0|]. apply canon_le in HA0 as Hk. apply wp_bind.
  destruct (Z.ltb_spec (r_s a) s) as [Hlt|Hge].
  - assert (u64 (s - 1) = s - 1) as -> by (unfold ULONG_MAX in He; apply Z.mod_small; lia). apply wp_bind. eapply wp_write_e; [exact Hr0|]. intros r1 Hr1.
    eapply wp_next_range; [exact Hr1|]. assert (head (B ++ (q, z) :: C).*1 = head (B ++ [(q, z)]).*1) as -> by (by destruct B).
    apply (Hgo (A ++ [(p, Range (r_s a) (s - 1))]) B); [by rewrite <- app_assoc|..].
    + rewrite fmap_app. apply canon_app. exists k. split; [done|]. cbn. lia.
    + intros n. rewrite gap_below_last by done. rewrite !fmap_app, !covers_app. cbn. rewrite !covers_cons, covers_nil. unfold inside. cbn.
      assert (covers A.*2 n -> n < s) as HAn by (intros H; destruct (canon_covers _ _ _ _ HA0 H); lia). intuition lia.
  - apply wp_ret. apply (Hgo A ((p, a) :: B)); [done|eapply canon_weaken; [exact HA0|lia|lia]|].
    intros n. rewrite gap_below_last by done. rewrite !fmap_app, !covers_app. cbn. rewrite !covers_cons, covers_nil. unfold inside.
    assert (covers A.*2 n -> n < s) as HAn by (intros H; destruct (canon_covers _ _ _ _ HA0 H); lia). intuition lia.
Qed.
End remove.

Lemma starts_in_iff P Q s e : (forall n, P n <-> Q n) -> starts_in P s e <-> starts_in Q s e.
Proof. intros HPQ. unfold starts_in. by setoid_rewrite HPQ. Qed.

Lemma removed_iff P Q s e n : (forall n, P n <-> Q n) -> removed P s e n <-> removed Q s e n.
Proof.
  intros HPQ. unfold removed, starts_in, gap_below. rewrite HPQ. repeat setoid_rewrite HPQ. done.
Qed.

(** No range starts between [s] and [e] if both fall behind the same range. *)
Lemma inside_starts (A C : list cell) s e : canon 0 (A ++ C).*2 TOP -> split_at s A C -> split_at e A C -> ~ starts_in (covers (A ++ C).*2) s e.
Proof.
  intros Hc HA HC (n & Hn & HP & HN). destruct A as [|[p a] A _] using rev_ind; [by apply (none_before C e n Hc HC ltac:(lia))|].
  pose proof (proj1 HA) as Has. apply Forall_app in Has as [_ Has%Forall_inv]. cbn in Has.
  apply (last_before A p a C e n Hc HC) in HP; [|lia|lia]. apply HN, (last_before A p a C e _ Hc HC); lia.
Qed.

Lemma across_starts (A B C : list cell) s e : canon 0 (A ++ B ++ C).*2 TOP -> split_at s A (B ++ C) -> split_at e (A ++ B) C -> B <> [] ->
  starts_in (covers (A ++ B ++ C).*2) s e.
Proof.
  intros Hc [_ HA] [HB _] HBne. destruct B as [|[q z] B _] using rev_ind; [done|]. rewrite (app_assoc A), (app_assoc A). apply starts_in_last.
  { by rewrite <- (app_assoc A), <- (app_assoc A). }
  rewrite fmap_app in Hc. apply canon_app in Hc as (m & _ & Hc). rewrite fmap_app in Hc. apply canon_app in Hc as (m2 & Hc & _).
  apply Forall_app in HB as [_ HB]. pose proof (starts_between _ _ _ _ s e Hc HA HB) as Hs. by apply Forall_app in Hs as [_ Hs%Forall_inv].
Qed.

Lemma rangeset_remove_range_spec `{Xmalloc} P c d s e r : rs_set P c d r -> 0 <= s <= e -> e < 2 ^ 64 -> e < ULONG_MAX \/ ~ starts_in P s e ->
  wp (rangeset_remove_range s e) (fun rc r' =>
    rc = 0 /\ rs_set (removed P s e) c d r' \/ rc = - ENOMEM /\ ~ starts_in P s e /\ rs_set P c d r') r.
Proof.
  intros (L & Hr & Hc & HP) Hs He Hok. apply wp_bind, wp_assert; [lia|]. apply wp_bind. eapply wp_lock_set; [exact Hr|]. clear r Hr. intros r Hr.
  destruct (split_three s e L ltac:(lia)) as (A & B & C & -> & HA & HB). apply wp_bind. eapply wp_find_range; [exact Hr|exact HA|].
  rewrite app_assoc in Hr. apply wp_bind. eapply wp_find_range; [exact Hr|exact HB|]. rewrite <- app_assoc in Hr. apply wp_bind.
  assert (NoDup (A ++ B).*1) as Hn.
  { pose proof (rp_nodup _ _ _ _ _ _ Hr) as Hn. rewrite app_nil_r, app_assoc, fmap_app in Hn. by apply NoDup_app in Hn as [? _]. }
  rewrite same_range_split by done. pose proof (fun n => removed_iff _ _ s e n HP) as Hrem. pose proof (starts_in_iff _ _ s e HP) as Hsi. destruct B as [|b B].
  - cbn [app] in *. rewrite app_nil_r in *. pose proof (inside_starts A C s e Hc HA HB) as Hst.
    eapply wp_mono; [eapply remove_inside_spec; [exact Hr|..]; done|]. intros rc r1 [[-> (L & Hr1 & Hc1 & Hcov)]|[-> (L & Hr1 & Hc1 & Hcov)]].
    + eapply (wp_unlock_with (removed P s e)); [exact Hr1|done| |by left]. intros n. rewrite Hcov, <- Hrem. unfold removed. tauto.
    + eapply (wp_unlock_with P); [exact Hr1|done| |right; by rewrite <- Hsi]. intros n. by rewrite Hcov.
  - assert (e < ULONG_MAX) as Hlt.
    { destruct Hok as [|Hno]; [done|]. destruct Hno. by apply Hsi, across_starts. }
    apply wp_bind. eapply wp_mono; [eapply remove_across_spec; [exact Hr|..]; done|]. intros ? r1 (L & Hr1 & Hc1 & Hcov). apply wp_ret.
    eapply (wp_unlock_with (removed P s e)); [exact Hr1|done| |by left]. intros n. by rewrite Hcov, Hrem.
Qed.
