(* ===== verification/RangesetOps.v ===== *)
(** * Claiming, consuming and merging ranges

    The search of [rangeset_claim_range] for free numbers, the loop of
    [rangeset_consume_ranges], and the operations on several sets: exchanging
    and merging two of them and the end of a domain. *)

From S2P Require Import Prelude RbTree RbSpec RbHeap PageInfo Rangeset RangesetSpec.

(** ** Claiming *)

(** Ascending ranges; one may follow another immediately. *)
Fixpoint ascending (lo : Z) (l : list range) (hi : Z) : Prop :=
  match l with
  | [] => lo <= hi
  | x :: l => lo <= r_s x <= r_e x /\ ascending (r_e x + 1) l hi
  end.

Lemma ascending_le l : forall lo hi, ascending lo l hi -> lo <= hi.
Proof. induction l as [|x l IH]; intros lo hi; cbn; [done|]. intros [Hx Hl%IH]. lia. Qed.

Lemma ascending_app l1 : forall lo l2 hi, ascending lo (l1 ++ l2) hi <-> exists mid, ascending lo l1 mid /\ ascending mid l2 hi.
Proof.
  induction l1 as [|x l1 IH]; intros lo l2 hi; cbn.
  - split; [intros Hl; exists lo; split; [lia|done]|]. intros (mid & Hlo & Hl). destruct l2 as [|y l2]; cbn in *; [lia|].
    destruct Hl. split; [lia|done].
  - rewrite IH. split; [intros (Hx & mid & ? & ?); eauto|intros (mid & [? ?] & ?); eauto].
Qed.

Lemma ascending_covers l : forall lo hi n, ascending lo l hi -> covers l n -> lo <= n < hi.
Proof.
  induction l as [|x l IH]; intros lo hi n; cbn; [by rewrite covers_nil|]. intros [Hx Hl] [Hn|Hn]%covers_cons.
  - unfold inside in Hn. apply ascending_le in Hl. lia.
  - destruct (IH _ _ _ Hl Hn). lia.
Qed.

Lemma ascending_raise lo lo' l hi : ascending lo l hi -> lo' <= hi -> match l with [] => True | x :: _ => lo' <= r_s x end -> ascending lo' l hi.
Proof. destruct l as [|x l]; cbn; [done|]. intros [? ?] ? ?. split; [lia|done]. Qed.

Lemma canon_ascending l : forall lo hi, canon lo l hi -> ascending (lo - 1) l (hi - 1).
Proof. induction l as [|x l IH]; intros lo hi; cbn; [lia|]. intros [Hx Hl%IH]. split; [lia|]. by replace (r_e x + 1) with (r_e x + 2 - 1) by lia. Qed.

(** A set whose ranges ascend. *)
Definition rs_asc (P : Z -> Prop) (c : Z) (d : option Z) (r : rangeset) : Prop :=
  exists L, rs_rep L [] c false d r /\ ascending 0 L.*2 (2 ^ 64) /\ forall n, covers L.*2 n <-> P n.

Lemma rs_set_asc P c d r : rs_set P c d r -> rs_asc P c d r.
Proof.
  intros (L & Hr & Hc & HP). exists L. split_and!; [done| |done]. apply canon_ascending in Hc as Ha. eapply ascending_raise; [exact Ha|lia|].
  destruct L.*2; cbn in Hc; [done|lia].
Qed.

(** The [size] numbers from [k] on are not in the set. *)
Definition free_at (P : Z -> Prop) (size k : Z) : Prop := 0 <= k /\ k + size <= 2 ^ 64 /\ forall n, k <= n < k + size -> ~ P n.

(** The number behind the ranges [A]. *)
Definition behind (A : list cell) : Z := match last A with None => 0 | Some x => r_e x.2 + 1 end.

Section claim.
Context (c : Z) (d : option Z) (size : Z).
Hypothesis size_ok : 0 < size < 2 ^ 64.

Lemma find_gap_spec C : forall A r, rs_rep (A ++ C) [] c true d r -> A ++ C <> [] -> ascending 0 A.*2 (behind A) -> ascending (behind A) C.*2 (2 ^ 64) ->
  behind A < 2 ^ 64 -> (forall k, k < behind A -> ~ free_at (covers (A ++ C).*2) size k) ->
  wp (find_gap C.*1 size (behind A) (last A.*1)) (fun g r' => r' = r /\ match g with
    | None => forall k, ~ free_at (covers (A ++ C).*2) size k
    | Some (k, pv) => free_at (covers (A ++ C).*2) size k /\ (forall k', k' < k -> ~ free_at (covers (A ++ C).*2) size k') /\
        exists A' C', A ++ C = A' ++ C' /\ pv = last A'.*1 /\ k = behind A' /\ ascending 0 A'.*2 k /\ ascending (k + size) C'.*2 (2 ^ 64)
    end) r.
Proof.
  induction C as [|[q y] C IH]; intros A r Hr Hne HA HC Hlt Hno; cbn [fmap list_fmap fst find_gap].
  - apply wp_ret. split; [done|]. rewrite app_nil_r in *. assert (0 < behind A) as Hpos.
    { destruct A as [|[p a] A _] using rev_ind; [done|]. apply ascending_le in HA as H0. unfold behind in *. rewrite last_snoc in *. cbn in *.
      rewrite fmap_app in HA. apply ascending_app in HA as (m & HA & Ha). apply ascending_le in HA. cbn in Ha. lia. }
    assert (u64 (u64 (ULONG_MAX - behind A) + 1) = 2 ^ 64 - behind A) as ->.
    { unfold ULONG_MAX, u64. rewrite (Z.mod_small (2 ^ 64 - 1 - behind A)) by lia. rewrite Z.mod_small by lia. lia. }
    destruct (Z.leb_spec size (2 ^ 64 - behind A)) as [Hfit|Hfit].
    + split_and!; [|done|].
      * split_and!; [lia|lia|]. intros n Hn H. destruct (ascending_covers _ _ _ _ HA H). lia.
      * exists A, []. rewrite app_nil_r. split_and!; [done..|cbn; lia].
    + intros k [H0 [Hk Hf]]. apply (Hno k); [lia|]. split_and!; done.
  - apply wp_bind. eapply wp_read_range; [exact Hr|]. cbn in HC. destruct HC as [Hy HC]. apply ascending_le in HA as H0.
    apply ascending_le in HC as Hy2. assert (u64 (r_s y - behind A) = r_s y - behind A) as -> by (apply Z.mod_small; lia).
    destruct (Z.leb_spec size (r_s y - behind A)) as [Hfit|Hfit].
    { apply wp_ret. split; [done|]. split_and!; [|done|].
      - split_and!; [lia|lia|]. intros n Hn. rewrite fmap_app, covers_app. cbn. rewrite covers_cons. intros [H|[H|H]].
        + destruct (ascending_covers _ _ _ _ HA H). lia.
        + unfold inside in H. lia.
        + destruct (ascending_covers _ _ _ _ HC H). lia.
      - exists A, ((q, y) :: C). split_and!; [done..|]. cbn. split; [lia|done]. }
    assert (forall k, k < r_e y + 1 -> ~ free_at (covers (A ++ (q, y) :: C).*2) size k) as Hno'.
    { intros k Hk Hf. destruct (Z.lt_ge_cases k (behind A)); [by apply (Hno k)|]. destruct Hf as (_ & _ & Hf).
      apply (Hf (Z.max k (r_s y)) ltac:(lia)). rewrite fmap_app, covers_app. cbn. rewrite covers_cons. unfold inside. lia. }
    destruct (Z.eqb_spec (r_e y) ULONG_MAX) as [Hmax|Hmax].
    { apply wp_ret. split; [done|]. intros k Hf. apply (Hno' k); [|done]. destruct Hf as (_ & Hf & _). unfold ULONG_MAX in Hmax. lia. }
    unfold ULONG_MAX in Hmax. assert (u64 (r_e y + 1) = r_e y + 1) as -> by (apply Z.mod_small; lia).
    assert (behind (A ++ [(q, y)]) = r_e y + 1) as Hb by (unfold behind; by rewrite last_snoc).
    assert (last (A ++ [(q, y)]).*1 = Some q) as Hl by (rewrite fmap_app; cbn [fmap list_fmap fst]; apply last_snoc).
    specialize (IH (A ++ [(q, y)]) r). rewrite Hb, Hl, <- app_assoc in IH. apply IH; [done|done| |done|lia|done].
    rewrite fmap_app. apply ascending_app. exists (behind A). split; [done|]. cbn. lia.
Qed.
(** The numbers [P] with the [size] ones from [k] on. *)
Definition claimed (P : Z -> Prop) (k n : Z) : Prop := P n \/ k <= n < k + size.

(** What claiming does to a set that has a member: the lowest place that has
    room, or an error that tells that there is none, or no memory. *)
Definition claim_post (P : Z -> Prop) (res : Z * option Z) (r : rangeset) : Prop :=
  (exists k, res = (0, Some k) /\ free_at P size k /\ (forall k', k' < k -> ~ free_at P size k') /\ rs_asc (claimed P k) c d r) \/
  (res = (- ENOSPC, None) /\ (forall k, ~ free_at P size k) /\ rs_asc P c d r) \/
  (res = (- ENOMEM, None) /\ rs_asc P c d r).

Lemma wp_unlock_asc {T} (P : Z -> Prop) L r (a : T) (Q : T -> rangeset -> Prop) : rs_rep L [] c true d r -> ascending 0 L.*2 (2 ^ 64) ->
  (forall n, covers L.*2 n <-> P n) -> (forall r', rs_asc P c d r' -> Q a r') -> wp (do! unlock_set in ret a) Q r.
Proof. intros Hr Hc HP HQ. apply wp_bind. eapply wp_unlock_set; [exact Hr|]. intros r1 Hr1. apply wp_ret, HQ. by exists L. Qed.

Lemma free_at_iff P Q k : (forall n, P n <-> Q n) -> free_at P size k <-> free_at Q size k.
Proof. intros HPQ. unfold free_at. by setoid_rewrite HPQ. Qed.

Lemma claim_range_list `{Xmalloc} L r : rs_rep L [] c false d r -> ascending 0 L.*2 (2 ^ 64) -> L <> [] ->
  wp (rangeset_claim_range size) (claim_post (covers L.*2)) r.
Proof.
  intros Hr HL Hne. apply wp_bind. eapply wp_lock_set; [exact Hr|]. clear r Hr. intros r Hr. apply wp_bind, wp_gets. rewrite (rp_list _ _ _ _ _ _ Hr). apply wp_bind.
  eapply wp_mono; [apply (find_gap_spec L [] r); [done|done|cbn; lia|done|cbn; lia|intros k Hk [? _]; cbn in Hk; lia]|].
  cbn [app]. intros g ? [-> Hg]. destruct g as [[k pv]|]; [|eapply wp_unlock_asc; [exact Hr|done|done|]; intros r' Hr'; right; left; by split_and!].
  destruct Hg as (Hfree & Hmin & A & C & -> & -> & Hk & HA & HC). destruct A as [|[p a] A _] using rev_ind; cbn [last app fmap list_fmap].
  - cbn in Hk. subst k. cbn [app] in *. apply wp_bind. eapply wp_alloc_range; [exact Hr| |].
    { intros r1 Hr1. eapply wp_unlock_asc; [exact Hr1|done|done|]. intros r' Hr'. right; right. by split. }
    intros q r1 _ Hr1. apply wp_bind. eapply wp_write_new; [exact Hr1|]. intros r2 Hr2. apply wp_bind.
    eapply (wp_insert_range [] C); [exact Hr2|]. intros r3 Hr3. unfold u64 in Hr3. rewrite !(Z.mod_small) in Hr3 by (rewrite ?Z.mod_small by lia; lia).
    eapply (wp_unlock_asc (claimed (covers C.*2) 0)); [exact Hr3| | |intros r' Hr'; left; by exists 0].
    + cbn. split; [lia|]. by replace (0 + size - 1 + 1) with (0 + size) by lia.
    + intros n. cbn. rewrite covers_cons. unfold claimed, inside. cbn. intuition lia.
  - rewrite fmap_app. cbn [fmap list_fmap fst]. rewrite last_snoc. unfold behind in Hk. rewrite last_snoc in Hk. cbn in Hk.
    rewrite fmap_app in HA. apply ascending_app in HA as (m & HA & Ha). cbn in Ha. apply ascending_le in HA as H0. destruct Hfree as (Hf1 & Hf2 & Hf3).
    pose proof Hr as Hr0. rewrite <- app_assoc in Hr0. apply wp_bind. eapply wp_read_range; [exact Hr0|]. apply wp_bind. eapply wp_write_e; [exact Hr0|].
    intros r1 Hr1. assert (u64 (r_e a + size) = r_e a + size) as Hu by (apply Z.mod_small; lia). rewrite Hu in Hr1.
    eapply (wp_unlock_asc (claimed (covers ((A ++ [(p, a)]) ++ C).*2) k)); [exact Hr1| | |intros r' Hr'; left; by exists k].
    + rewrite fmap_app. apply ascending_app. exists m. split; [done|]. cbn. split; [lia|]. by replace (r_e a + size + 1) with (k + size) by lia.
    + intros n. unfold claimed. rewrite covers_snoc, fmap_app, covers_app. cbn. rewrite covers_cons. unfold inside. cbn. intuition lia.
Qed.

Lemma rs_asc_iff P Q r : rs_asc P c d r -> (forall n, P n <-> Q n) -> rs_asc Q c d r.
Proof. intros (L & Hr & Hc & HP) HPQ. exists L. split_and!; [done..|]. intros n. by rewrite HP. Qed.

Lemma claim_post_iff P Q res r : (forall n, P n <-> Q n) -> claim_post P res r -> claim_post Q res r.
Proof.
  intros HPQ [(k & -> & Hf & Hm & Hr)|[(-> & Hf & Hr)|(-> & Hr)]].
  - left. exists k. split_and!; [done|by apply (free_at_iff P)|intros k' Hk Hf'; apply (Hm k' Hk); by apply (free_at_iff P Q)|].
    eapply rs_asc_iff; [exact Hr|]. intros n. unfold claimed. by rewrite HPQ.
  - right; left. split_and!; [done|intros k Hf'; apply (Hf k); by apply (free_at_iff P Q)|by eapply rs_asc_iff].
  - right; right. split; [done|by eapply rs_asc_iff].
Qed.

Lemma rangeset_claim_range_spec `{Xmalloc} P r : rs_asc P c d r -> (exists n, P n) -> wp (rangeset_claim_range size) (claim_post P) r.
Proof.
  intros (L & Hr & HL & HP) [n Hn]. eapply wp_mono; [apply (claim_range_list L); [done|done|]|].
  { intros ->. by apply HP, covers_nil in Hn. }
  intros res r2. by apply claim_post_iff.
Qed.

(** A set without a member has no room: the size of the last gap wraps. *)
Lemma claim_range_empty_spec `{Xmalloc} r : rs_asc (fun _ => False) c d r ->
  wp (rangeset_claim_range size) (fun res r' => res = (- ENOSPC, None) /\ rs_asc (fun _ => False) c d r') r.
Proof.
  intros (L & Hr & HL & HP). apply wp_bind. eapply wp_lock_set; [exact Hr|]. intros r1 Hr1. apply wp_bind, wp_gets. rewrite (rp_list _ _ _ _ _ _ Hr1).
  destruct L as [|[p x] L]; [|by exfalso; eapply HP; cbn; rewrite covers_cons; left; unfold inside; split; [reflexivity|cbn in HL; lia]].
  cbn [fmap list_fmap find_gap]. apply wp_bind, wp_ret. assert ((size <=? u64 (u64 (ULONG_MAX - 0) + 1)) = false) as -> by (apply Z.leb_gt; change (0 < size); lia).
  by eapply wp_unlock_asc; [exact Hr1|exact HL|exact HP|].
Qed.
End claim.

(** ** Consuming *)

(** The number of members. *)
Fixpoint volume (l : list range) : Z := match l with [] => 0 | x :: l => r_e x - r_s x + 1 + volume l end.

Lemma volume_pos l : forall lo hi, ascending lo l hi -> 0 <= volume l.
Proof. induction l as [|x l IH]; intros lo hi; cbn; [done|]. intros [Hx Hl%IH]. lia. Qed.

(** A callback that consumes part of the range, or reports an error. *)
Definition progresses {T} (cb : Z -> Z -> T -> Z * Z * T) : Prop :=
  forall s e t, s <= e -> let '(rc, k, _) := cb s e t in 0 <= k <= e - s + 1 /\ (rc <> 0 \/ 0 < k).

Section consume.
Context {T : Type} (cb : Z -> Z -> T -> Z * Z * T) (c : Z) (d : option Z).
Hypothesis cb_ok : progresses cb.

Lemma consume_loop_spec fuel : forall L t r, rs_rep L [] c true d r -> ascending 0 L.*2 ULONG_MAX -> (Z.to_nat (volume L.*2) <= fuel)%nat ->
  wp (consume_loop fuel cb t) (fun res r' => exists L' k, rs_rep L' [] c true d r' /\ ascending 0 L'.*2 ULONG_MAX /\
    (forall n, covers L'.*2 n <-> covers L.*2 n /\ k <= n) /\ (res.1 = 0 -> L' = [])) r.
Proof.
  induction fuel as [|fuel IH]; intros L t r Hr HL Hf; (destruct L as [|[p x] L];
    [apply wp_bind; eapply wp_first_range; [exact Hr|]; apply wp_ret; exists [], 0; split_and!; [done..| |done]; intros n; rewrite covers_nil; tauto|]);
    cbn in HL, Hf; destruct HL as [Hx HL]; pose proof (volume_pos _ _ _ HL); [lia|].
  apply wp_bind. eapply wp_first_range; [exact Hr|]. cbn [fmap list_fmap head fst]. apply wp_bind.
  eapply (wp_read_range _ _ _ []); [exact Hr|]. pose proof (cb_ok (r_s x) (r_e x) t ltac:(lia)) as Hcb. destruct (cb (r_s x) (r_e x) t) as [[rc k] t'].
  destruct Hcb as [Hk Hp]. apply ascending_le in HL as Hmax. unfold ULONG_MAX in Hmax.
  assert (u64 (r_e x - r_s x + 1) = r_e x - r_s x + 1) as -> by (apply Z.mod_small; lia). apply wp_bind, wp_assert; [lia|]. apply wp_bind.
  assert (u64 (r_s x + k) = r_s x + k) as -> by (apply Z.mod_small; lia). eapply (wp_write_s _ _ _ []); [exact Hr|]. intros r1 Hr1. apply wp_bind.
  eapply (wp_read_range _ _ _ []); [exact Hr1|]. apply wp_bind. cbn [r_s r_e].
  assert (forall L1 r2, rs_rep L1 [] c true d r2 -> ascending 0 L1.*2 ULONG_MAX -> (forall n, covers L1.*2 n <-> covers (x :: L.*2) n /\ r_s x + k <= n) ->
    (0 < k -> volume L1.*2 <= r_e x - r_s x + volume L.*2) ->
    wp (if negb (rc =? 0) then ret (rc, t') else consume_loop fuel cb t') (fun res r' => exists L' k, rs_rep L' [] c true d r' /\ ascending 0 L'.*2 ULONG_MAX /\
      (forall n, covers L'.*2 n <-> covers (x :: L.*2) n /\ k <= n) /\ (res.1 = 0 -> L' = [])) r2) as Hgo.
  { intros L1 r2 Hr2 HL1 Hcov Hv. destruct (Z.eqb_spec rc 0) as [->|Hrc]; cbn [negb].
    - eapply wp_mono; [apply (IH L1); [done|done|lia]|]. intros res r3 (L' & k' & Hr3 & Ha & Hcov' & He). exists L', (Z.max k' (r_s x + k)).
      split_and!; [done..| |done]. intros n. rewrite Hcov', Hcov. intuition lia.
    - apply wp_ret. exists L1, (r_s x + k). by split_and!. }
  assert (forall n, covers L.*2 n -> r_e x < n) as HLn by (intros n Hn; destruct (ascending_covers _ _ _ _ HL Hn); lia).
  destruct (Z.ltb_spec (r_e x) (r_s x + k)) as [Hall|Hpart].
  - eapply (wp_destroy_range _ _ _ []); [exact Hr1|]. intros r2 Hr2. apply (Hgo L); [done| | |lia].
    + eapply ascending_raise; [exact HL|unfold ULONG_MAX; lia|]. destruct L.*2; cbn in HL; [done|lia].
    + intros n. rewrite covers_cons. unfold inside. specialize (HLn n). intuition lia.
  - apply wp_ret, (Hgo ((p, Range (r_s x + k) (r_e x)) :: L)); [done|cbn; split; [lia|done]| |cbn; lia].
    intros n. cbn. rewrite !covers_cons. unfold inside. cbn. specialize (HLn n). intuition lia.
Qed.

Lemma rangeset_consume_ranges_spec P t r : rs_set P c d r -> ~ P ULONG_MAX -> exists fuel, forall fuel', (fuel <= fuel')%nat ->
  wp (rangeset_consume_ranges fuel' cb t) (fun res r' => exists k, rs_asc (fun n => P n /\ k <= n) c d r' /\ (res.1 = 0 -> rs_asc (fun _ => False) c d r')) r.
Proof.
  intros Hs Hmax. apply rs_set_asc in Hs as (L & Hr & HL & HP). exists (Z.to_nat (volume L.*2)). intros fuel Hf. apply wp_bind.
  eapply wp_lock_set; [exact Hr|]. intros r1 Hr1. apply wp_bind. eapply wp_mono; [apply (consume_loop_spec fuel L); [done| |done]|].
  { destruct L as [|[p x] L _] using rev_ind; [cbn; unfold ULONG_MAX; lia|]. rewrite fmap_app in *. apply ascending_app in HL as (m & HL & Hx).
    apply ascending_app. exists m. split; [done|]. cbn in *. unfold ULONG_MAX in *. destruct (decide (r_e x = 2 ^ 64 - 1)); [|lia]. exfalso.
    apply Hmax, HP. rewrite covers_app, covers_cons. right; left. unfold inside. lia. }
  intros res r2 (L' & k & Hr2 & Ha & Hcov & He). apply wp_bind. eapply wp_unlock_set; [exact Hr2|]. intros r3 Hr3. apply wp_ret. exists k.
  assert (ascending 0 L'.*2 (2 ^ 64)) as Ha'.
  { clear -Ha. revert Ha. generalize 0. induction L'.*2 as [|x l IH]; intros lo; cbn; [unfold ULONG_MAX; lia|]. intros [? ?%IH]. by split. }
  split; [exists L'; split_and!; [done..|]; intros n; by rewrite Hcov, HP|]. intros ->%He. exists []. split_and!; [done..|]. intros n. by rewrite covers_nil.
Qed.
End consume.

(** ** Several sets *)

Lemma wp_on_set {A} r (m : M rangeset A) w rs (Q : A -> rs_world -> Prop) : w_sets w !! r = Some rs ->
  wp m (fun a rs' => Q a (set_w_sets (<[r := rs']> (w_sets w)) w)) rs -> wp (on_set r m) Q w.
Proof.
  intros Hr (a & rs' & Hm & HQ). exists a, (set_w_sets (<[r := rs']> (w_sets w)) w). split; [|done]. unfold on_set. by rewrite Hr, Hm.
Qed.

(** An operation that only looks at the set. *)
Lemma wp_on_set_same {A} r (m : M rangeset A) w rs (Q : A -> rs_world -> Prop) : w_sets w !! r = Some rs ->
  wp m (fun a rs' => rs' = rs /\ Q a w) rs -> wp (on_set r m) Q w.
Proof.
  intros Hr Hm. eapply wp_on_set; [exact Hr|]. eapply wp_mono; [exact Hm|]. intros a ? [-> HQ]. unfold set_w_sets. rewrite insert_id by done. by destruct w.
Qed.

Section merge.
Context `{Xmalloc} (r1 r2 : Z) (P1 : Z -> Prop) (c1 c2 : Z) (d1 d2 : option Z).
Hypothesis distinct : r1 <> r2.

(** The set [r1] has the numbers [P], and the ranges of [r2], which is locked,
    are [L]; the other sets are those of [w0]. *)
Definition merging (w0 : rs_world) (L : list cell) (P : Z -> Prop) (w : rs_world) : Prop :=
  exists a b, rs_set P c1 d1 a /\ rs_rep L [] c2 true d2 b /\ w = set_w_sets (<[r1 := a]> (<[r2 := b]> (w_sets w0))) w0.

Lemma merge_loop_spec w0 C : forall A fuel w, merging w0 (A ++ C) (fun n => P1 n \/ covers A.*2 n) w -> canon 0 (A ++ C).*2 TOP -> (length C <= fuel)%nat ->
  wp (report_loop fuel r2 (head C.*1) 0 ULONG_MAX (merge r1) 0) (fun rc w' =>
    rc = 0 /\ merging w0 (A ++ C) (fun n => P1 n \/ covers (A ++ C).*2 n) w' \/
    rc = - ENOMEM /\ exists A' C', A ++ C = A' ++ C' /\ merging w0 (A ++ C) (fun n => P1 n \/ covers A'.*2 n) w') w.
Proof.
  induction C as [|[p x] C IH]; intros A fuel w Hw Hc Hf; cbn [fmap list_fmap head fst].
  { destruct fuel; apply wp_ret; left; rewrite app_nil_r in *; done. }
  cbn in Hf. destruct fuel as [|fuel]; [lia|]. cbn [report_loop]. destruct Hw as (a & b & Ha & Hb & ->).
  assert (forall w, w_sets w !! r2 = Some b -> forall Q, Q x w -> wp (on_set r2 (read_range p)) Q w) as Hread.
  { intros w Hw Q HQ. eapply wp_on_set_same; [exact Hw|]. by eapply wp_read_range. }
  assert (0 <= r_s x <= r_e x /\ r_e x + 2 <= TOP) as Hx by (apply (canon_fits _ _ _ x Hc); apply list_elem_of_fmap; exists (p, x); split; [done|set_solver]).
  unfold TOP in Hx. apply wp_bind, Hread; [cbn; by rewrite lookup_insert_ne, lookup_insert_eq by done|].
  assert ((r_s x <=? ULONG_MAX) && (0 =? 0) = true) as -> by (unfold ULONG_MAX; lia). rewrite (proj2 (Z.leb_le 0 (r_e x))) by lia.
  rewrite Z.max_l by lia. rewrite Z.min_l by (unfold ULONG_MAX; lia). apply wp_bind. eapply wp_on_set; [cbn; apply lookup_insert_eq|].
  eapply wp_mono; [apply (rangeset_add_range_spec _ _ _ _ _ _ Ha); lia|]. intros rc a' Hrc. unfold set_w_sets. cbn [w_sets w_doms w_clock]. rewrite insert_insert_eq.
  fold (set_w_sets (<[r1:=a']> (<[r2:=b]> (w_sets w0))) w0). set (w1 := set_w_sets _ _).
  apply wp_bind. eapply wp_on_set_same; [cbn; rewrite lookup_insert_ne by done; apply lookup_insert_eq|]. eapply wp_next_range; [exact Hb|]. split; [done|].
  destruct Hrc as [[-> Ha']|[-> Ha']].
  - specialize (IH (A ++ [(p, x)]) fuel). rewrite <- app_assoc in IH. apply IH; [|done|lia]. exists a', b. split_and!; [|done|done].
    eapply rs_set_iff; [exact Ha'|]. intros n. rewrite fmap_app, covers_app. cbn. rewrite covers_cons, covers_nil. unfold inside. tauto.
  - assert (merging w0 (A ++ (p, x) :: C) (fun n => P1 n \/ covers A.*2 n) w1) as Hm by (by exists a', b).
    destruct C as [|[q y] C]; cbn [fmap list_fmap head fst].
    + destruct fuel; apply wp_ret; right; (split; [done|by exists A, [(p, x)]]).
    + assert (wp (on_set r2 (read_range q)) (fun _ w' => w' = w1) w1) as Hq.
      { eapply wp_on_set_same; [cbn; rewrite lookup_insert_ne by done; apply lookup_insert_eq|]. rewrite cons_next in Hb. by eapply wp_read_range. }
      destruct fuel; cbn [report_loop]; apply wp_bind; (eapply wp_mono; [exact Hq|]); intros rx ? ->; rewrite andb_false_r; apply wp_ret; right;
        (split; [done|by exists A, ((p, x) :: (q, y) :: C)]).
Qed.

Lemma rangeset_merge_spec P2 a b w : w_sets w !! r1 = Some a -> w_sets w !! r2 = Some b -> rs_set P1 c1 d1 a -> rs_set P2 c2 d2 b ->
  wp (rangeset_merge r1 r2) (fun rc w' => exists a' b', w' = set_w_sets (<[r1 := a']> (<[r2 := b']> (w_sets w))) w /\ rs_set P2 c2 d2 b' /\
    (rc = 0 /\ rs_set (fun n => P1 n \/ P2 n) c1 d1 a' \/ rc = - ENOMEM /\ exists k, rs_set (fun n => P1 n \/ P2 n /\ n < k) c1 d1 a')) w.
Proof.
  intros Ha Hb HP1 (L & Hr & Hc & HP2). apply wp_bind. eapply wp_on_set; [exact Hb|]. eapply wp_lock_set; [exact Hr|]. intros b1 Hb1.
  apply wp_bind. eapply wp_on_set_same; [cbn; apply lookup_insert_eq|]. apply wp_gets. split; [done|].
  apply wp_bind. eapply wp_on_set_same; [cbn; apply lookup_insert_eq|]. eapply wp_first_range; [exact Hb1|]. split; [done|]. apply wp_bind.
  eapply wp_mono; [apply (merge_loop_spec w L []); [|done|]|].
  { exists a, b1. split_and!; [|done|]. { eapply rs_set_iff; [exact HP1|]. intros n. rewrite covers_nil. tauto. }
    unfold set_w_sets. cbn. by rewrite (insert_id _ r1 a) by (by rewrite lookup_insert_ne by done). }
  { by rewrite (rp_list _ _ _ _ _ _ Hb1), length_fmap. }
  assert (forall P w1, merging w L P w1 -> forall rc (Q : Z -> rs_world -> Prop), (forall a' b', rs_set P c1 d1 a' -> rs_set P2 c2 d2 b' ->
    Q rc (set_w_sets (<[r1 := a']> (<[r2 := b']> (w_sets w))) w)) -> wp (do! on_set r2 unlock_set in ret rc) Q w1) as Hend.
  { intros P w1 (a' & b' & Ha' & Hb' & ->) rc Q HQ. apply wp_bind. eapply wp_on_set; [cbn; rewrite lookup_insert_ne by done; apply lookup_insert_eq|].
    eapply wp_unlock_set; [exact Hb'|]. intros b2 Hb2. apply wp_ret. unfold set_w_sets. cbn. rewrite insert_insert_ne, insert_insert_eq by done.
    apply HQ; [done|]. by exists L. }
  cbn [app]. intros rc w1 [[-> Hm]|[-> (A & C & -> & Hm)]]; eapply Hend; [exact Hm| |exact Hm|]; intros a' b' Ha' Hb'; exists a', b'; split_and!; [done..|left|done|done|right].
  - split; [done|]. eapply rs_set_iff; [exact Ha'|]. intros n. cbn beta. by rewrite HP2.
  - split; [done|]. rewrite fmap_app in Hc. apply canon_app in Hc as (k & HA & HC). exists k. eapply rs_set_iff; [exact Ha'|]. intros n. cbn beta.
    rewrite <- HP2, fmap_app, covers_app. assert (covers A.*2 n -> n < k) by (intros Hn; destruct (canon_covers _ _ _ _ HA Hn); lia).
    assert (covers C.*2 n -> k <= n) by (intros Hn; destruct (canon_covers _ _ _ _ HC Hn); lia). intuition lia.
Qed.
End merge.

(** ** The end of a domain *)

Lemma destroy_all_spec L : forall fuel c b d r, rs_rep L [] c b d r -> (length L <= fuel)%nat ->
  wp (destroy_all fuel) (fun _ r' => rs_rep [] [] c b d r') r.
Proof.
  induction L as [|[p x] L IH]; intros fuel c b d r Hr Hf.
  { destruct fuel; cbn [destroy_all]; apply wp_bind; (eapply wp_first_range; [exact Hr|]); by apply wp_ret. }
  cbn in Hf. destruct fuel as [|fuel]; [lia|]. cbn [destroy_all]. apply wp_bind. eapply wp_first_range; [exact Hr|]. apply wp_bind.
  eapply (wp_destroy_range _ _ _ []); [exact Hr|]. intros r1 Hr1. apply IH; [done|lia].
Qed.

(** A set that does not belong to a domain is freed. *)
Lemma rangeset_destroy_spec r rs L c b w (Q : unit -> rs_world -> Prop) : w_sets w !! r = Some rs -> rs_rep L [] c b None rs ->
  Q tt (set_w_sets (delete r (w_sets w)) w) -> wp (rangeset_destroy (Some r)) Q w.
Proof.
  intros Hw Hr HQ. apply wp_bind. eapply wp_on_set_same; [exact Hw|]. apply wp_gets. split; [done|]. rewrite (rp_domain _ _ _ _ _ _ Hr).
  apply wp_bind, wp_ret, wp_bind. eapply wp_on_set; [exact Hw|]. apply wp_bind, wp_gets. rewrite (rp_list _ _ _ _ _ _ Hr), length_fmap.
  eapply wp_mono; [by apply (destroy_all_spec L)|]. intros ? rs' _. apply wp_modify. unfold set_w_sets in *. cbn. by rewrite delete_insert_eq.
Qed.

(** The sets [l] belong to the domain [d]. *)
Definition owned (d : Z) (l : list Z) (w : rs_world) : Prop :=
  NoDup l /\ forall r, r ∈ l -> exists rs L c b, w_sets w !! r = Some rs /\ rs_rep L [] c b (Some d) rs.

Lemma rs_rep_domain L X c b d d' r : rs_rep L X c b d r -> rs_rep L X c b d' (set_domain d' r).
Proof. intros []. by split. Qed.

Lemma domain_destroy_loop_spec d l : forall fuel w, w_doms w !! d = Some (DomSets l false) -> owned d l w -> (length l <= fuel)%nat ->
  wp (domain_destroy_loop fuel d) (fun _ w' => w_doms w' = <[d := DomSets [] false]> (w_doms w) /\
    forall r, w_sets w' !! r = if decide (r ∈ l) then None else w_sets w !! r) w.
Proof.
  induction l as [|r l IH]; intros fuel w Hd [Hn Ho] Hf.
  { destruct fuel; cbn [domain_destroy_loop]; apply wp_bind, wp_get; rewrite Hd; apply wp_ret; (split; [by rewrite insert_id|]); intros r;
      rewrite decide_False by (apply not_elem_of_nil); done. }
  cbn in Hf. destruct fuel as [|fuel]; [lia|]. cbn [domain_destroy_loop]. apply wp_bind, wp_get. rewrite Hd. apply NoDup_cons in Hn as [Hr Hn].
  destruct (Ho r ltac:(by apply list_elem_of_here)) as (rs & L & c & b & Hw & Hrs). apply wp_bind. eapply wp_on_set_same; [exact Hw|]. apply wp_gets. split; [done|].
  rewrite (rp_domain _ _ _ _ _ _ Hrs). apply wp_bind, wp_assert; [cbn; apply Z.eqb_refl|]. apply wp_bind. eapply wp_on_set; [exact Hw|]. apply wp_modify.
  apply wp_bind, wp_modify. apply wp_bind. eapply rangeset_destroy_spec; [cbn; apply lookup_insert_eq|by eapply rs_rep_domain|].
  unfold set_w_sets, set_w_doms. cbn [w_sets w_doms w_clock]. rewrite delete_insert_eq.
  eapply wp_mono; [apply IH; cbn; [apply lookup_insert_eq| |lia]|].
  - split; [done|]. intros r' Hr'. destruct (Ho r' ltac:(by apply list_elem_of_further)) as (rs' & L' & c' & b' & Hw' & Hrs').
    exists rs', L', c', b'. cbn. by rewrite lookup_delete_ne by (intros ->; done).
  - cbn. intros ? w' [Hd' Hs']. split; [by rewrite Hd', insert_insert_eq|]. intros r'. rewrite Hs'. destruct (decide (r' = r)) as [->|Hne].
    + rewrite decide_False by done. rewrite lookup_delete_eq. by rewrite decide_True by (apply list_elem_of_here).
    + rewrite lookup_delete_ne by done. destruct (decide (r' ∈ l)); [by rewrite decide_True by (by apply list_elem_of_further)|].
      rewrite decide_False; [done|]. by intros [|]%elem_of_cons.
Qed.

Lemma rangeset_domain_destroy_spec d l w : w_doms w !! d = Some (DomSets l false) -> owned d l w ->
  wp (rangeset_domain_destroy d) (fun _ w' => w_doms w' = <[d := DomSets [] false]> (w_doms w) /\
    forall r, w_sets w' !! r = if decide (r ∈ l) then None else w_sets w !! r) w.
Proof. intros Hd Ho. apply wp_bind, wp_get. rewrite Hd. by apply domain_destroy_loop_spec. Qed.

(** ** New sets *)

Lemma rs_set_empty l d f k : rs_set (fun _ => False) l d (Rangeset [] ∅ l false d f k).
Proof. exists []. split_and!; [|done|intros n; by rewrite covers_nil]. split; cbn; try done; [constructor|lia]. Qed.

Lemma rangeset_limit_spec P c d l r : rs_set P c d r -> (forall n, ~ P n) ->
  wp (rangeset_limit l) (fun _ r' => rs_set P l d r') r.
Proof.
  intros (L & Hr & Hc & HP) Hn. destruct L as [|[p x] L].
  - apply wp_modify. exists []. split_and!; [|done|done]. destruct Hr as [Hl _ Hm _ Hk Hd _]. split; cbn; try done; [by apply NoDup_nil_2|lia].
  - destruct (Hn (r_s x)). apply HP. cbn. rewrite covers_cons. left. unfold inside. cbn in Hc. lia.
Qed.

(** The ranges of a set, read from memory. *)
Lemma rs_rep_ranges L c b d r : rs_rep L [] c b d r -> omap (fun p => ranges r !! p) (range_list r) = L.*2.
Proof.
  intros [Hl Hn Hm _ _ _ _]. rewrite app_nil_r in *. rewrite Hl, Hm. clear -Hn. assert (forall M : gmap Z range, (forall p x, (p, x) ∈ L -> M !! p = Some x) ->
    omap (fun p => M !! p) L.*1 = L.*2) as Hgen.
  { intros M HM. induction L as [|[p x] L IH]; [done|]. cbn. rewrite (HM p x) by (by apply list_elem_of_here).
    f_equal. apply IH; [by apply NoDup_cons in Hn as [_ ?]|]. intros q y Hq. apply HM. by apply list_elem_of_further. }
  apply Hgen. intros p x Hp. by apply elem_of_list_to_map_1.
Qed.
