(* ===== verification/RangesetTheorems.v ===== *)
(** * Sets of ranges implement sets of numbers

    The operations of [common/rangeset.c] against sets of numbers
    ([rangeset_refines]), the limit on the number of ranges, claiming,
    consuming and merging, and what the code does where it does not implement
    them. *)

From S2P Require Import Prelude RbTree RbSpec RbHeap PageInfo XomToy Rangeset RangesetSpec RangesetOps.

(** ** Sets of numbers *)

Inductive rs_op := OpAdd (s e : Z) | OpRemove (s e : Z) | OpContains (s e : Z) | OpOverlaps (s e : Z).

(** What an operation does to a set of numbers, and its result. *)
Definition set_step (P : Z -> Prop) (op : rs_op) (out : Z) (P' : Z -> Prop) : Prop :=
  match op with
  | OpAdd s e => out = 0 /\ P' = (fun n => P n \/ s <= n <= e) \/ out = - ENOMEM /\ P' = P
  | OpRemove s e => out = 0 /\ P' = (fun n => P n /\ ~ (s <= n <= e)) \/ out = - ENOMEM /\ P' = P
  | OpContains s e => P' = P /\ (out = 1 /\ (forall n, s <= n <= e -> P n) \/ out = 0 /\ exists n, s <= n <= e /\ ~ P n)
  | OpOverlaps s e => P' = P /\ (out = 1 /\ (exists n, s <= n <= e /\ P n) \/ out = 0 /\ forall n, s <= n <= e -> ~ P n)
  end.

(** Removing takes away numbers, and only these, if no range starts between
    the first and the last of them, or if one ends just below or at the first,
    or there is none below, and the last one is not the largest number. *)
Definition remove_ok (P : Z -> Prop) (s e : Z) : Prop :=
  ~ starts_in P s e \/ e < ULONG_MAX /\ (P (s - 1) \/ P s \/ forall n, n < s -> ~ P n).

Definition allowed_op (P : Z -> Prop) (op : rs_op) : Prop :=
  match op with
  | OpAdd s e | OpContains s e | OpOverlaps s e => 0 <= s <= e /\ e < 2 ^ 64
  | OpRemove s e => 0 <= s <= e /\ e < 2 ^ 64 /\ remove_ok P s e
  end.

(** Each operation is allowed when its turn comes. *)
Fixpoint allowed (P : Z -> Prop) (ops : list rs_op) : Prop :=
  match ops with
  | [] => True
  | op :: ops => allowed_op P op /\ forall out P', set_step P op out P' -> allowed P' ops
  end.

Fixpoint set_run (P : Z -> Prop) (ops : list rs_op) (outs : list Z) (P' : Z -> Prop) : Prop :=
  match ops, outs with
  | [], [] => P' = P
  | op :: ops, out :: outs => exists P1, set_step P op out P1 /\ set_run P1 ops outs P'
  | _, _ => False
  end.

Section run.
Context `{Xmalloc}.

Definition rs_do (op : rs_op) : M rangeset Z :=
  match op with
  | OpAdd s e => rangeset_add_range s e
  | OpRemove s e => rangeset_remove_range s e
  | OpContains s e => let! b := rangeset_contains_range s e in ret (Z.b2z b)
  | OpOverlaps s e => let! b := rangeset_overlaps_range s e in ret (Z.b2z b)
  end.

Fixpoint rs_run (ops : list rs_op) : M rangeset (list Z) :=
  match ops with
  | [] => ret []
  | op :: ops => let! out := rs_do op in let! outs := rs_run ops in ret (out :: outs)
  end.

(** Under [remove_ok] the numbers below are not disturbed. *)
Lemma removed_ok P s e n : remove_ok P s e -> removed P s e n <-> P n /\ ~ (s <= n <= e).
Proof.
  intros Hok. unfold removed. split; [|tauto]. intros [|[Hst (Hn & m & Hm & HP & Hgap)]]; [done|]. exfalso.
  destruct Hok as [|(_ & [Hp|[Hp|Hp]])]; [done|apply (Hgap (s - 1)); [lia|done]|apply (Hgap s); [lia|done]|apply (Hp m); [lia|done]].
Qed.

(** A set decides membership in it. *)
Lemma rs_set_dec P c d r n : rs_set P c d r -> P n \/ ~ P n.
Proof.
  intros (L & _ & _ & HP). rewrite <- HP. destruct (decide (Exists (fun x => r_s x <= n <= r_e x) L.*2)); [by left|by right].
Qed.

Lemma rs_set_missing P c d r s e : rs_set P c d r -> ~ (forall n, s <= n <= e -> P n) -> exists n, s <= n <= e /\ ~ P n.
Proof.
  intros Hr Hno. destruct (Z.le_gt_cases s e) as [Hse|]; [|destruct Hno; lia]. revert Hno.
  replace e with (s + Z.of_nat (Z.to_nat (e - s))) by lia. generalize (Z.to_nat (e - s)). intros k.
  induction k as [|k IH]; intros Hno.
  - exists s. split; [lia|]. intros Hs. apply Hno. intros n Hn. by replace n with s by lia.
  - destruct (rs_set_dec _ _ _ _ (s + Z.of_nat (S k)) Hr) as [Hp|Hp]; [|exists (s + Z.of_nat (S k)); split; [lia|done]].
    destruct IH as (n & Hn & Hnp); [|exists n; split; [lia|done]]. intros Hall. apply Hno. intros n Hn.
    destruct (decide (n = s + Z.of_nat (S k))) as [->|]; [done|]. apply Hall. lia.
Qed.

Lemma rs_do_spec P c d op r : rs_set P c d r -> allowed_op P op ->
  wp (rs_do op) (fun out r' => exists P', set_step P op out P' /\ rs_set P' c d r') r.
Proof.
  intros Hr Hop. destruct op as [s e|s e|s e|s e]; cbn in Hop |- *.
  - eapply wp_mono; [apply (rangeset_add_range_spec _ _ _ _ _ _ Hr); lia|]. intros rc r' [[-> Hr']|[-> Hr']]; eexists; (split; [|exact Hr']); auto.
  - destruct Hop as (Hs & He & Hok). eapply wp_mono; [apply (rangeset_remove_range_spec _ _ _ _ _ _ Hr); [lia|lia|destruct Hok as [|[? _]]; auto]|].
    intros rc r' [[-> Hr']|(-> & _ & Hr')]; [|by exists P; auto]. exists (fun n => P n /\ ~ (s <= n <= e)). split; [auto|].
    eapply rs_set_iff; [exact Hr'|]. intros n. by apply removed_ok.
  - apply wp_bind. eapply wp_mono; [apply (rangeset_contains_range_spec _ _ _ _ _ _ Hr); lia|]. intros b r' [Hr' Hb]. apply wp_ret. exists P.
    split; [|done]. split; [done|]. destruct b; [left; split; [done|by apply Hb]|right; split; [done|]].
    eapply rs_set_missing; [exact Hr|]. intros Hall. by apply Hb in Hall.
  - apply wp_bind. eapply wp_mono; [apply (rangeset_overlaps_range_spec _ _ _ _ _ _ Hr); lia|]. intros b r' [Hr' Hb]. apply wp_ret. exists P.
    split; [|done]. split; [done|]. destruct b; [left; split; [done|by apply Hb]|right; split; [done|]]. intros n Hn Hp.
    assert (false = true) by (apply Hb; eauto). done.
Qed.

Lemma rs_run_spec P c d ops r : rs_set P c d r -> allowed P ops ->
  wp (rs_run ops) (fun outs r' => exists P', set_run P ops outs P' /\ rs_set P' c d r') r.
Proof.
  revert P r. induction ops as [|op ops IH]; intros P r Hr Ha; cbn in *; [apply wp_ret; by exists P|]. destruct Ha as [Hop Hrest]. apply wp_bind.
  eapply wp_mono; [by apply rs_do_spec|]. intros out r1 (P1 & Hs & Hr1). apply wp_bind. eapply wp_mono; [apply (IH P1); [done|by eapply Hrest]|].
  intros outs r2 (P2 & Hrun & Hr2). apply wp_ret. exists P2. split; [by exists P1|done].
Qed.

(** A new set, for a domain or for none, and operations on it. *)
Definition new_and_run (d : option Z) (flags : Z) (ops : list rs_op) : M rs_world (option (list Z)) :=
  let! r := rangeset_new d flags in
  match r with
  | None => ret None
  | Some r => let! outs := on_set r (rs_run ops) in ret (Some outs)
  end.

Definition ready (d : option Z) (w : rs_world) : Prop :=
  match d with None => True | Some d => exists l, w_doms w !! d = Some (DomSets l false) end.

Lemma rangeset_new_spec d flags w (Q : option Z -> rs_world -> Prop) : Z.land flags (Z.lnot RANGESETF_prettyprint_hex) = 0 -> ready d w ->
  (forall w', w_sets w' = w_sets w -> w_doms w' = w_doms w -> Q None w') ->
  (forall r rs w', w_sets w !! r = None -> w_sets w' = <[r := rs]> (w_sets w) -> rs_set (fun _ => False) (-1) d rs -> Q (Some r) w') ->
  wp (rangeset_new d flags) Q w.
Proof.
  intros Hf Hd HN HS. apply wp_bind, wp_get, wp_bind, wp_modify. destruct (xmalloc_addr _ _) as [r|] eqn:Ha; [|by apply wp_ret, HN].
  apply xmalloc_ok in Ha as [_ Hr]. apply wp_bind, wp_assert; [lia|]. apply wp_bind, wp_modify, wp_bind. apply not_elem_of_dom in Hr.
  set (w1 := set_w_sets _ _).
  assert (wp (match d with None => ret tt | Some d => with_dom d (cons r) end) (fun _ w' => w_sets w' = w_sets w1) w1) as Hdom.
  { destruct d as [d|]; [|by apply wp_ret]. destruct Hd as [l Hl]. unfold with_dom. eexists tt, _. split; [unfold w1; cbn; by rewrite Hl|done]. }
  eapply wp_mono; [exact Hdom|]. intros ? w' Hw'. apply wp_ret. eapply HS; [done|exact Hw'|apply rs_set_empty].
Qed.

(** C15: Any sequence of additions, removals and questions on a new set of
    ranges gives the results it gives on a set of numbers, which is empty
    first, errors for lack of memory included, as long as the removals respect
    [remove_ok]; no other set is changed. *)
Theorem rangeset_refines d flags ops w : Z.land flags (Z.lnot RANGESETF_prettyprint_hex) = 0 -> ready d w -> allowed (fun _ => False) ops ->
  wp (new_and_run d flags ops) (fun res w' => match res with
    | None => w_sets w' = w_sets w
    | Some outs => exists P' r rs, set_run (fun _ => False) ops outs P' /\ w_sets w !! r = None /\ w_sets w' = <[r := rs]> (w_sets w) /\
        forall n, P' n <-> covers (omap (fun p => ranges rs !! p) (range_list rs)) n
    end) w.
Proof.
  intros Hf Hd Ha. apply wp_bind. apply rangeset_new_spec; [done|done|intros w' Hw _; by apply wp_ret|]. intros r rs w' Hr Hw Hrs. apply wp_bind.
  eapply wp_on_set; [rewrite Hw; apply lookup_insert_eq|]. eapply wp_mono; [by eapply rs_run_spec|]. intros outs rs' (P' & Hrun & Hrs').
  apply wp_ret. exists P', r, rs'. split_and!; [done|done|cbn; by rewrite Hw, insert_insert_eq|]. intros n. destruct Hrs' as (L & HL & _ & HP).
  by rewrite <- HP, (rs_rep_ranges _ _ _ _ _ HL).
Qed.
(** C36: an empty set that is given a limit has, after any additions, removals
    that respect [remove_ok], and questions, no more ranges than the limit; the
    ranges it may still allocate are those that are missing, and the bounds of
    every range are 64-bit numbers in order.  [rangeset_swap] is not covered: it
    exchanges the ranges of two sets and not their limits. *)
Theorem rangeset_within_limit limit ops c d r : rs_set (fun _ => False) c d r -> 0 <= limit -> allowed (fun _ => False) ops ->
  wp (do! rangeset_limit limit in rs_run ops) (fun _ r' => nr_ranges r' = limit - Z.of_nat (length (range_list r')) /\ 0 <= nr_ranges r' /\
    forall p, p ∈ range_list r' -> exists x, ranges r' !! p = Some x /\ 0 <= r_s x <= r_e x /\ r_e x <= ULONG_MAX) r.
Proof.
  intros Hr Hl Ha. apply wp_bind. eapply wp_mono; [eapply rangeset_limit_spec; [exact Hr|tauto]|]. intros ? r1 Hr1.
  eapply wp_mono; [eapply rs_run_spec; [exact Hr1|exact Ha]|]. intros outs r2 (P & _ & L & [HL Hn Hm Hnr _ _ Hb] & Hc & _). rewrite app_nil_r in *.
  rewrite HL, length_fmap. split_and!; [lia|lia|]. intros p Hp. apply list_elem_of_fmap in Hp as ([p' x] & -> & Hp). exists x. cbn. split.
  - rewrite Hm. by apply elem_of_list_to_map_1.
  - destruct (canon_fits _ _ _ x Hc) as [? ?]; [by apply (list_elem_of_fmap_2 snd _ (p', x))|]. unfold TOP, ULONG_MAX in *. lia.
Qed.

(** Claiming [size] numbers from a set with a member takes the lowest place
    that has room for them; it reports that there is no such place only if there
    is none, and leaves the set as it is then or without memory. *)
Theorem rangeset_claim_first_fit P c d size r : rs_asc P c d r -> 0 < size < 2 ^ 64 -> (exists n, P n) ->
  wp (rangeset_claim_range size) (fun res r' =>
    (exists k, res = (0, Some k) /\ free_at P size k /\ (forall k', k' < k -> ~ free_at P size k') /\ rs_asc (fun n => P n \/ k <= n < k + size) c d r') \/
    (res = (- ENOSPC, None) /\ (forall k, ~ free_at P size k) /\ rs_asc P c d r') \/
    (res = (- ENOMEM, None) /\ rs_asc P c d r')) r.
Proof. intros Hr Hs Hn. by apply rangeset_claim_range_spec. Qed.

(** From an empty set nothing can be claimed: the size of the gap behind the
    last range wraps around to 0, and the error is that there is no room. *)
Theorem rangeset_claim_empty c d size r : rs_asc (fun _ => False) c d r -> 0 < size < 2 ^ 64 ->
  wp (rangeset_claim_range size) (fun res r' => res = (- ENOSPC, None) /\ rs_asc (fun _ => False) c d r') r /\ free_at (fun _ => False) size 0.
Proof. intros Hr Hs. split; [by apply claim_range_empty_spec|]. split_and!; [lia|lia|tauto]. Qed.

(** C35: Consuming ends, with a callback that consumes something or reports an
    error, if the largest number is not a member: the numbers below some bound
    are gone, and all of them if no error was reported. *)
Theorem rangeset_consume_terminates {T} (cb : Z -> Z -> T -> Z * Z * T) P c d t r : progresses cb -> rs_set P c d r -> ~ P ULONG_MAX ->
  exists fuel, forall fuel', (fuel <= fuel')%nat -> wp (rangeset_consume_ranges fuel' cb t) (fun res r' =>
    exists k, rs_asc (fun n => P n /\ k <= n) c d r' /\ (res.1 = 0 -> rs_asc (fun _ => False) c d r')) r.
Proof. intros Hcb Hr Hmax. by apply rangeset_consume_ranges_spec. Qed.

(** Merging adds the numbers of the second set to the first, or, without
    memory, those below some bound; the second set and all others keep theirs. *)
Theorem rangeset_merge_union r1 r2 P1 P2 c1 c2 d1 d2 a b w : r1 <> r2 -> w_sets w !! r1 = Some a -> w_sets w !! r2 = Some b ->
  rs_set P1 c1 d1 a -> rs_set P2 c2 d2 b ->
  wp (rangeset_merge r1 r2) (fun rc w' => exists a' b', w' = set_w_sets (<[r1 := a']> (<[r2 := b']> (w_sets w))) w /\ rs_set P2 c2 d2 b' /\
    (rc = 0 /\ rs_set (fun n => P1 n \/ P2 n) c1 d1 a' \/ rc = - ENOMEM /\ exists k, rs_set (fun n => P1 n \/ P2 n /\ n < k) c1 d1 a')) w.
Proof. intros Hne Ha Hb HP1 HP2. by eapply rangeset_merge_spec. Qed.

(** The end of a domain frees its sets, each once, and no other set. *)
Theorem rangeset_domain_destroy_frees d l w : w_doms w !! d = Some (DomSets l false) -> owned d l w ->
  wp (rangeset_domain_destroy d) (fun _ w' => w_doms w' = <[d := DomSets [] false]> (w_doms w) /\
    forall r, w_sets w' !! r = if decide (r ∈ l) then None else w_sets w !! r) w.
Proof. apply rangeset_domain_destroy_spec. Qed.

(** C40: A removal whose numbers begin behind the end of a range, and in which
    another range starts, adds the numbers between that end and the first one
    removed: the code sets the end of the range below to the number before the
    removed ones without asking whether it was lower. *)
Theorem rangeset_remove_fills_gap P c d s e m r : rs_set P c d r -> 0 <= s <= e -> e < ULONG_MAX -> starts_in P s e ->
  P m -> m < s - 1 -> (forall k, m < k <= s -> ~ P k) ->
  wp (rangeset_remove_range s e) (fun rc r' => rc = 0 /\ rs_set (fun n => P n /\ ~ (s <= n <= e) \/ m < n < s) c d r') r.
Proof.
  intros Hr Hs He Hst Hm Hlt Hgap. eapply wp_mono; [apply (rangeset_remove_range_spec _ _ _ _ _ _ Hr); [lia|unfold ULONG_MAX in He; lia|by left]|].
  intros rc r' [[-> Hr']|(_ & Hno & _)]; [|done]. split; [done|]. eapply rs_set_iff; [exact Hr'|]. intros n. unfold removed, gap_below. split.
  - intros [|(_ & Hn & m' & Hm' & HP' & Hgap')]; [by left|]. right. destruct (Z.lt_trichotomy m m') as [|[->|]]; [|lia|].
    + destruct (Hgap m'); [lia|done].
    + split; [|lia]. destruct (Z.le_gt_cases n m); [|lia]. destruct (Hgap' m); [lia|done].
  - intros [|Hn]; [by left|right]. split; [done|]. split; [lia|]. exists m. split_and!; [lia|done|done].
Qed.
End run.

(** ** Examples *)

Definition new_set : rangeset := Rangeset [] ∅ (-1) false None 0 0.
Definition one_range (lo hi : Z) : rangeset := Rangeset [4096] {[4096 := Range lo hi]} (-2) false None 0 0.
Definition two_ranges : rangeset := Rangeset [4096; 8192] {[4096 := Range 1 2; 8192 := Range 10 20]} (-3) false None 0 0.

Lemma one_range_set lo hi : 0 <= lo <= hi -> hi < 2 ^ 64 -> rs_set (fun n => lo <= n <= hi) (-1) None (one_range lo hi).
Proof.
  intros Hlo Hhi. exists [(4096, Range lo hi)]. split_and!; [|cbn; unfold TOP; lia|].
  - split; try done. by apply NoDup_singleton.
  - intros n. cbn. rewrite covers_cons, covers_nil. unfold inside. cbn. tauto.
Qed.

Lemma two_ranges_set : rs_set (fun n => 1 <= n <= 2 \/ 10 <= n <= 20) (-1) None two_ranges.
Proof.
  exists [(4096, Range 1 2); (8192, Range 10 20)]. split_and!; [|cbn; unfold TOP; lia|].
  - split; try done. cbn. apply NoDup_cons. split; [by intros ?%list_elem_of_singleton|by apply NoDup_singleton].
  - intros n. cbn. rewrite !covers_cons, covers_nil. unfold inside. cbn. tauto.
Qed.

Definition demo_ops : list rs_op := [OpAdd 5 9; OpAdd 20 29; OpAdd 10 19; OpContains 6 28; OpRemove 12 14; OpContains 6 28; OpOverlaps 11 12].

Lemma demo_allowed : allowed (fun _ => False) demo_ops.
Proof.
  cbn. repeat match goal with
  | |- _ /\ _ => split
  | |- True => exact I
  | |- forall _, _ => intros ?
  | H : _ /\ _ |- _ => destruct H
  | H : _ \/ _ |- _ => destruct H
  | H : _ = _ :> (Z -> Prop) |- _ => subst
  end; try lia.
  all: left; intros (n & Hn & Hp & Hnp); cbn in *; lia.
Qed.

Lemma rangeset_refines_ex :
  wp (new_and_run None 1 demo_ops) (fun res _ => res = Some [0; 0; 0; 1; 0; 0; 1]) (RsWorld ∅ ∅ 0) /\
  wp (new_and_run None 1 demo_ops) (fun res w' => match res with
    | None => w_sets w' = ∅
    | Some outs => exists P' r rs, set_run (fun _ => False) demo_ops outs P' /\ (∅ : gmap Z rangeset) !! r = None /\ w_sets w' = <[r := rs]> ∅ /\
        forall n, P' n <-> covers (omap (fun p => ranges rs !! p) (range_list rs)) n
    end) (RsWorld ∅ ∅ 0).
Proof. split; [eexists _, _; split; vm_compute; reflexivity|apply (rangeset_refines None 1 demo_ops (RsWorld ∅ ∅ 0) eq_refl I demo_allowed)]. Defined.

(** With room for one range only, the second one is refused. *)
Lemma rangeset_within_limit_ex :
  wp (do! rangeset_limit 1 in rs_run demo_ops) (fun outs _ => outs = [0; - ENOMEM; 0; 0; - ENOMEM; 0; 1]) new_set /\
  wp (do! rangeset_limit 1 in rs_run demo_ops) (fun _ r' => nr_ranges r' = 1 - Z.of_nat (length (range_list r')) /\ 0 <= nr_ranges r' /\
    forall p, p ∈ range_list r' -> exists x, ranges r' !! p = Some x /\ 0 <= r_s x <= r_e x /\ r_e x <= ULONG_MAX) new_set.
Proof.
  split; [eexists _, _; split; vm_compute; reflexivity|].
  apply (rangeset_within_limit 1 demo_ops (-1) None new_set (rs_set_empty _ _ _ _) ltac:(lia) demo_allowed).
Defined.

Lemma rangeset_claim_first_fit_ex :
  wp (rangeset_claim_range 7) (fun res _ => res = (0, Some 3)) two_ranges /\
  wp (rangeset_claim_range 7) (fun res r' =>
    (exists k, res = (0, Some k) /\ free_at (fun n => 1 <= n <= 2 \/ 10 <= n <= 20) 7 k /\
      (forall k', k' < k -> ~ free_at (fun n => 1 <= n <= 2 \/ 10 <= n <= 20) 7 k') /\ rs_asc (fun n => (1 <= n <= 2 \/ 10 <= n <= 20) \/ k <= n < k + 7) (-1) None r') \/
    (res = (- ENOSPC, None) /\ (forall k, ~ free_at (fun n => 1 <= n <= 2 \/ 10 <= n <= 20) 7 k) /\ rs_asc (fun n => 1 <= n <= 2 \/ 10 <= n <= 20) (-1) None r') \/
    (res = (- ENOMEM, None) /\ rs_asc (fun n => 1 <= n <= 2 \/ 10 <= n <= 20) (-1) None r')) two_ranges.
Proof.
  split; [eexists _, _; split; vm_compute; reflexivity|].
  apply (rangeset_claim_first_fit _ (-1) None 7 two_ranges (rs_set_asc _ _ _ _ two_ranges_set) ltac:(lia)). exists 1. lia.
Defined.

Lemma rangeset_claim_empty_ex :
  wp (rangeset_claim_range 1) (fun res r' => res = (- ENOSPC, None) /\ rs_asc (fun _ => False) (-1) None r') new_set /\ free_at (fun _ => False) 1 0.
Proof. apply (rangeset_claim_empty (-1) None 1 new_set (rs_set_asc _ _ _ _ (rs_set_empty _ _ _ _)) ltac:(lia)). Defined.

(** A callback that consumes at most four numbers at a time, counts its calls
    and gives up at the eighth. *)
Definition demo_cb (s e t : Z) : Z * Z * Z := if 8 <=? t then (- EBUSY, 0, t) else (0, Z.min 4 (e - s + 1), t + 1).

Lemma demo_cb_progresses : progresses demo_cb.
Proof. intros s e t Hse. unfold demo_cb. destruct (8 <=? t); [split; [lia|left; unfold EBUSY; lia]|split; lia]. Qed.

Lemma rangeset_consume_terminates_ex :
  wp (rangeset_consume_ranges 10 demo_cb 0) (fun res r' => res = (0, 4) /\ range_list r' = []) two_ranges /\
  exists fuel, forall fuel', (fuel <= fuel')%nat -> wp (rangeset_consume_ranges fuel' demo_cb 0) (fun res r' =>
    exists k, rs_asc (fun n => (1 <= n <= 2 \/ 10 <= n <= 20) /\ k <= n) (-1) None r' /\ (res.1 = 0 -> rs_asc (fun _ => False) (-1) None r')) two_ranges.
Proof.
  split; [eexists _, _; split; vm_compute; [reflexivity|by split]|].
  apply (rangeset_consume_terminates demo_cb _ (-1) None 0 two_ranges demo_cb_progresses two_ranges_set). unfold ULONG_MAX. lia.
Defined.

Definition demo_world : rs_world := RsWorld {[1 := one_range 3 9; 2 := two_ranges]} ∅ 0.

Lemma rangeset_merge_union_ex :
  wp (rangeset_merge 1 2) (fun rc w' => rc = 0 /\ (fun r => omap (fun p => ranges r !! p) (range_list r)) <$> w_sets w' !! 1 = Some [Range 1 20]) demo_world /\
  wp (rangeset_merge 1 2) (fun rc w' => exists a' b', w' = set_w_sets (<[1 := a']> (<[2 := b']> (w_sets demo_world))) demo_world /\
    rs_set (fun n => 1 <= n <= 2 \/ 10 <= n <= 20) (-1) None b' /\
    (rc = 0 /\ rs_set (fun n => 3 <= n <= 9 \/ 1 <= n <= 2 \/ 10 <= n <= 20) (-1) None a' \/
     rc = - ENOMEM /\ exists k, rs_set (fun n => 3 <= n <= 9 \/ (1 <= n <= 2 \/ 10 <= n <= 20) /\ n < k) (-1) None a')) demo_world.
Proof.
  split; [eexists _, _; split; vm_compute; [reflexivity|by split]|].
  apply (rangeset_merge_union 1 2 (fun n => 3 <= n <= 9) _ (-1) (-1) None None (one_range 3 9) two_ranges demo_world); [done|done|done| |exact two_ranges_set].
  by apply one_range_set.
Defined.

Definition demo_domain : rs_world := RsWorld {[1 := set_domain (Some 7) (one_range 3 9); 2 := two_ranges]} {[7 := DomSets [1] false]} 0.

Lemma demo_owned : owned 7 [1] demo_domain.
Proof.
  split; [by apply NoDup_singleton|]. intros r ->%list_elem_of_singleton. destruct (one_range_set 3 9) as (L & HL & _); [lia|lia|].
  exists (set_domain (Some 7) (one_range 3 9)), L, (-1), false. split; [done|]. by eapply rs_rep_domain.
Qed.

Lemma rangeset_domain_destroy_frees_ex :
  wp (rangeset_domain_destroy 7) (fun _ w' => w_doms w' = <[7 := DomSets [] false]> (w_doms demo_domain) /\
    forall r, w_sets w' !! r = if decide (r ∈ [1]) then None else w_sets demo_domain !! r) demo_domain.
Proof. apply (rangeset_domain_destroy_frees 7 [1] demo_domain); [reflexivity|exact demo_owned]. Defined.

(** Removing 5 to 15 from 1, 2 and 10 to 20 adds 3 and 4. *)
Lemma rangeset_remove_fills_gap_ex :
  wp (do! rangeset_remove_range 5 15 in rangeset_contains_range 3 4) (fun b _ => b = true) two_ranges /\
  wp (rangeset_remove_range 5 15) (fun rc r' => rc = 0 /\ rs_set (fun n => (1 <= n <= 2 \/ 10 <= n <= 20) /\ ~ (5 <= n <= 15) \/ 2 < n < 5) (-1) None r') two_ranges.
Proof.
  split; [eexists _, _; split; vm_compute; reflexivity|].
  apply (rangeset_remove_fills_gap _ (-1) None 5 15 2 two_ranges two_ranges_set); [lia|unfold ULONG_MAX; lia| |lia|lia|lia].
  exists 10. lia.
Defined.

(** ** At the edges *)

(** Removing everything from 2 on keeps 10 to 20, and adds 5: the start of the
    last range wraps around. *)
Example remove_to_top_wraps :
  wp (let! rc := rangeset_remove_range 2 ULONG_MAX in let! b := rangeset_contains_range 5 20 in ret (rc, b)) (fun res _ => res = (0, true)) two_ranges.
Proof. eexists _, _. split; vm_compute; reflexivity. Qed.

(** The start of a range that is consumed up to the largest number wraps
    around, too: the set has all numbers afterwards. *)
Example consume_to_top_wraps :
  wp (let! res := rangeset_consume_ranges 1 (fun s e t => (1, e - s + 1, t)) tt in let! b := rangeset_contains_range 0 ULONG_MAX in ret b)
    (fun b _ => b = true) (one_range 100 ULONG_MAX).
Proof. eexists _, _. split; vm_compute; reflexivity. Qed.

(** A claim that fills a gap leaves two ranges that touch: the set denies that
    it contains the numbers of both. *)
Example claim_not_joined :
  wp (let! res := rangeset_claim_range 7 in let! b := rangeset_contains_range 1 20 in
      let! b1 := rangeset_contains_range 1 9 in let! b2 := rangeset_contains_range 10 20 in ret (res, b, b1, b2))
    (fun res _ => res = ((0, Some 3), false, true, true)) two_ranges.
Proof. eexists _, _. split; vm_compute; reflexivity. Qed.

(** Claiming nothing from an empty set takes every number. *)
Example claim_nothing_takes_all :
  wp (let! res := rangeset_claim_range 0 in let! b := rangeset_contains_range 0 ULONG_MAX in ret (res, b))
    (fun res _ => res = ((0, Some 0), true)) new_set.
Proof. eexists _, _. split; vm_compute; reflexivity. Qed.

(** Exchanging two sets does not exchange the numbers of ranges they may
    allocate: an unlimited set that was exchanged with a set of one range
    refuses additions when that range is gone. *)
Example swap_leaves_limits :
  wp (do! rangeset_swap 1 2 in let! rc := on_set 1 (rangeset_remove_range 3 9) in let! rc' := on_set 1 (rangeset_add_range 3 9) in ret (rc, rc'))
    (fun res _ => res = (0, - ENOMEM)) (RsWorld {[1 := new_set; 2 := one_range 3 9]} ∅ 0).
Proof. eexists _, _. split; vm_compute; reflexivity. Qed.
