(* ===== verification/XomTheorems.v ===== *)
(** * What the hypervisor guarantees

    The properties of the XOM hypercall, for x86 and Arm, each with an
    example on the concrete machine of [XomToy]. *)

From S2P Require Import Prelude RbTree RbSpec RbHeap PageInfo PageInfoSpec XomDomain XomSpec XomSeal XomSealSpec XomSealArm XomSealArmSpec XomToy.

Section x86.
Context {P : Type} `{P2mOps P, !P2mLaws P} `{Xmalloc}.
Implicit Types d : domain P.

(** C2: the operations of a batch never expose what an execute-only frame
    holds.  Whatever the guest passes to [handle_xom_seal], and whether the p2m
    code accepts the updates or not, the call returns, and the domain passes
    through the states that its operations, [xom_op] on the elements copied from
    the guest, produce one after another; in each of them every frame that was
    execute-only at the start and is memory of the domain is still execute-only
    with every locked sub-page locked and unchanged, and with all its bytes
    unchanged if it is not registered for sub-page writes, unless the frame was
    all [0x90] in that or in an earlier one of the states.  If the p2m code
    accepts every update and the registered frames were execute-only, each frame
    that was execute-only at the start is execute-only or all [0x90] at the end.
    The frames of the domain appear at one guest frame each; the value stored to
    [*pdone] after the operations is not part of the statement. *)
Theorem handle_xom_seal_confidential gs count d m :
  dom_inv d m -> d_xom_page_lock d = false -> frame_inj d ->
  wp (handle_xom_seal gs count)
     (fun _ d' => exists m' tr, trace (batch_op gs) 0 (d, m) tr (d', m') /\
        (forall n y, tr !! n = Some y -> dom_inv y.1 y.2) /\
        (forall g, sealed d g -> is_Some (d_pages d !! frame_of d g) ->
           forall n y, tr !! n = Some y ->
             guarded (d, m) y g \/ exists k z, (k <= n)%nat /\ tr !! k = Some z /\ wiped z.1 g) /\
        (p2m_total (P := P) -> reg_sealed d m -> forall g, sealed d g -> sealed d' g \/ wiped d' g)) d.
Proof.
  intros Hinv Hlk Hinj. eapply wp_mono; [by apply handle_xom_seal_spec|].
  intros r d' (m' & tr & Htr & _). exists m', tr. split_and!.
  - eapply trace_mono; [|exact Htr]. by intros ? ? ? [? _].
  - by apply (batch_trace_inv _ _ _ _ _ Htr).
  - intros g Hs Hpg. by apply (batch_trace_guarded _ _ _ _ _ Htr).
  - intros Ht Hreg. exact (batch_secure _ _ _ Ht (batch_rtc _ _ _ _ _ Htr) Hreg Hinj).
Qed.

(** C7: the hypercall is safe: it returns, without an access to memory that is
    not allocated, a double free or a lock taken twice; the trees, pages and
    lock words stay well formed; both locks are released, every reference to a
    page is given back, and the TLB holds no stale translation. *)
Theorem handle_xom_seal_safe gs count d m :
  dom_inv d m -> d_xom_page_lock d = false -> d_stale d = ∅ ->
  wp (handle_xom_seal gs count)
     (fun r d' => (exists m', dom_inv d' m') /\ same_frame d d' /\
        pages_rel (fun _ _ => True) d d' /\ d_stale d' = ∅ /\
        (r.1 = 0 -> r.2 = if pdone_is_null gs then None else Some (Z.of_nat (Z.to_nat count)))) d.
Proof.
  intros Hinv Hlk Hst. eapply wp_mono; [by apply handle_xom_seal_spec|].
  intros r d' (m' & tr & Hb%batch_rtc & Hp). split_and!; [|exact (batch_frame _ _ _ Hb)|exact (batch_pages _ _ _ Hb)|
    exact (batch_stale _ _ _ Hb Hst)|done].
  exists m'. exact (batch_inv _ _ _ Hb Hinv).
Qed.

(** C8: sub-pages are write-once.  In a domain whose frames appear at one guest
    frame each, an operation leaves a sub-page whose lock bit is set unchanged
    with the bit set, unless it wipes the whole page; and whatever it does, the
    bit is still set afterwards if the frame is still registered for sub-page
    writes. *)
Theorem xom_op_write_once op d m g j pg :
  dom_inv d m -> d_xom_page_lock d = false -> frame_inj d ->
  0 <= j < PAGE_SIZE / SUBPAGE_SIZE -> locked m g j -> d_pages d !! frame_of d g = Some pg ->
  wp (xom_op op)
     (fun _ d' => exists m', dom_inv d' m' /\
        (forall w, m' XomSubpages !! g = Some w -> Z.testbit w j = true) /\
        (wiped d' g \/ (locked m' g j /\ exists pg', d_pages d' !! frame_of d g = Some pg' /\
                          subpage j (pg_data pg') = subpage j (pg_data pg)))) d.
Proof.
  intros Hinv Hlk Hinj Hj Hl Hpg. eapply wp_mono; [by apply xom_op_spec|].
  intros rc d' (m' & Hr & _). exists m'. split; [apply Hr|]. by apply (or_locked _ _ _ _ Hr).
Qed.

(** C25: [set_xom_seal] returning 0 leaves every frame of the range that has
    memory behind it execute-only, frames without are left as they are; in every
    case no access right outside the range, no tree and no page changes. *)
Theorem set_xom_seal_correct gfn nr d m :
  dom_inv d m ->
  wp (set_xom_seal gfn nr)
     (fun rc d' => d_pages d' = d_pages d /\ d_pi d' = d_pi d /\
        (forall g, g ∉ gfns (Z.to_nat nr) gfn -> access_of d' g = access_of d g) /\
        (rc = 0 -> forall g, g ∈ gfns (Z.to_nat nr) gfn -> mapped d g -> sealed d' g)) d.
Proof.
  intros Hinv. eapply wp_mono; [by apply set_xom_seal_spec|].
  intros rc d' (_ & Hs & Hpi & Hx). split_and!; [apply Hs|done| |done].
  intros g Hg. by destruct (sr_access _ _ _ Hs g) as [?|[? _]].
Qed.


(** C27: on every return code [create_xom_subpages] only registers frames of the
    range that were not execute-only and not registered, with no sub-page
    locked, drops no registration and no mark, and touches no contents; when it
    returns a non-negative code the whole range is registered, and its mapped
    frames are execute-only if the p2m code accepts updates. *)
Theorem create_xom_subpages_correct gfn nr d m :
  dom_inv d m ->
  wp (create_xom_subpages gfn nr)
     (fun rc d' => d_pages d' = d_pages d /\ exists m', dom_inv d' m' /\
        infos_created (gfns (Z.to_nat nr) gfn) d m m' /\
        (0 <= rc -> forall g, g ∈ gfns (Z.to_nat nr) gfn -> ~ sealed d g /\
           m' XomSubpages !! g = Some 0 /\ (p2m_total (P := P) -> mapped d g -> sealed d' g))) d.
Proof.
  intros Hinv. eapply wp_mono; [by apply create_xom_subpages_spec|].
  intros rc d' (Hs & m' & Hr & Hm & _ & Hall). split; [apply Hs|]. exists m'. split_and!; [apply Hr|done..].
Qed.

(** [write_into_subpage] either fails and changes nothing, or carries out
    the command found in the source page: its targets were unlocked, each
    target then holds the data of the last write to it, every other sub-page
    is unchanged, and exactly the targets were added to the lock bits. *)
Theorem write_into_subpage_correct gfn_dest gfn_src d m :
  dom_inv d m ->
  wp (write_into_subpage gfn_dest gfn_src)
     (fun rc d' => (rc < 0 /\ d' = d) \/
        (rc = 0 /\ exists m' w src pg pg', let l := command_infos (read_command (pg_data src)) in
           dom_inv d' m' /\ m XomSubpages !! gfn_dest = Some w /\
           d_pages d !! frame_of d gfn_src = Some src /\ d_pages d !! frame_of d gfn_dest = Some pg /\
           d_pages d' !! frame_of d gfn_dest = Some pg' /\
           (forall i, i ∈ l -> Z.testbit w (target_subpage i) = false) /\
           (forall l1 i l2, l = l1 ++ i :: l2 ->
              Forall (fun i' => target_subpage i' <> target_subpage i) l2 ->
              subpage (target_subpage i) (pg_data pg') = data i) /\
           (forall j, 0 <= j < PAGE_SIZE / SUBPAGE_SIZE -> Forall (fun i => target_subpage i <> j) l ->
              subpage j (pg_data pg') = subpage j (pg_data pg)) /\
           exists w', m' XomSubpages !! gfn_dest = Some w' /\ forall j, 0 <= j ->
             Z.testbit w' j = Z.testbit w j || existsb (fun i => target_subpage i =? j) l)) d.
Proof.
  intros Hinv. eapply wp_mono; [by apply write_into_subpage_spec|].
  intros rc d' [?|(-> & m' & Hr & Hw)]; [by left|right]. split; [done|]. exists m'.
  destruct (write_post_contents _ _ _ _ _ _ Hinv Hw) as (w & src & pg & pg' & Hall).
  exists w, src, pg, pg'. split; [apply Hr|done].
Qed.

(** A register-clear mark is only ever put on an execute-only frame that
    has none, with one of the two types, and nothing else changes. *)
Theorem mark_reg_clear_page_correct g t d m :
  dom_inv d m -> 0 <= t ->
  wp (mark_reg_clear_page (Arch0 := x86_arch) p2m_access_n g t)
     (fun rc d' => d_p2m d' = d_p2m d /\ d_pages d' = d_pages d /\ exists m', dom_inv d' m' /\
        (if rc =? 0
         then sealed d g /\ m XomRegClear !! g = None /\
              (t = REG_CLEAR_TYPE_VECTOR \/ t = REG_CLEAR_TYPE_FULL) /\
              m' = upd m XomRegClear (<[g := t]> (m XomRegClear))
         else rc < 0 /\ m' = m)) d.
Proof.
  intros Hinv Ht. eapply wp_mono; [by apply mark_reg_clear_page_spec|].
  intros rc d' (Hp & Hpg & [[Hrc Hr]|(-> & Hs & Hn & Hty & Hr)]);
    (split_and!; [done|done|]); eexists; (split; [apply Hr|]).
  - destruct (Z.eqb_spec rc 0); [lia|done].
  - done.
Qed.

(** The type [get_reg_clear_type] returns for an instruction is the mark
    of the frame the instruction lies in, and none when the registers or the
    address are not available or the frame has no mark; no state changes. *)
Theorem get_reg_clear_type_correct vcpu_ok cs_base walk rip d m :
  dom_inv d m -> d_xom_page_lock d = false -> d_is_hvm d = true -> d_hap_enabled d = true ->
  wp (get_reg_clear_type vcpu_ok cs_base walk (Some rip))
     (fun r d' => d' = d /\
        r = let g := gfn_of_rip vcpu_ok cs_base walk rip in
            if g =? INVALID_GFN then REG_CLEAR_TYPE_NONE
            else default REG_CLEAR_TYPE_NONE (m XomRegClear !! g)) d.
Proof.
  intros Hinv Hlk Hh Ha. unfold get_reg_clear_type. apply wp_bind, wp_get. rewrite Hh, Ha. cbn [negb orb].
  destruct (_ =? INVALID_GFN); [by apply wp_ret|]. by apply reg_clear_lookup_spec.
Qed.

(** On x86 the range check refuses the highest mapped frame: sealing,
    clearing or creating sub-pages on [max_mapped_pfn] alone fails with
    [-EOVERFLOW] (the Arm code compares with [max_mapped_gfn + 1]). *)
Theorem x86_last_frame_refused d :
  0 <= max_mapped_pfn (d_p2m d) < 2 ^ 64 - 1 ->
  let g := max_mapped_pfn (d_p2m d) in
  set_xom_seal g 1 d = Some (- EOVERFLOW, d) /\
  clear_xom_seal g 1 d = Some (- EOVERFLOW, d) /\
  create_xom_subpages g 1 d = Some (- EOVERFLOW, d) /\
  arm_range_overflow (d_p2m d) g 1 = false.
Proof.
  intros Hm g. assert (range_overflow (d_p2m d) g 1 = true) as Hr.
  { unfold range_overflow, u64. rewrite Z.mod_small by (unfold g; lia). unfold g. lia. }
  split_and!.
  1, 2, 3: unfold set_xom_seal, clear_xom_seal, create_xom_subpages, bind, gets; by rewrite Hr.
  unfold arm_range_overflow, u64. unfold g. rewrite !Z.mod_small by lia. lia.
Qed.
End x86.

Section arm.
Context {P : Type} `{P2mOps P, !P2mLaws P, !P2mAtomic P} `{Xmalloc}.
Implicit Types d : domain P.

(** C4: on Arm a batch of XOM operations never exposes the contents of an
    execute-only frame, also when p2m updates fail, as long as an update that
    fails changes nothing: it is execute-only afterwards or all [0x90]. *)
Theorem arm_handle_xom_seal_confidential gs count d m :
  dom_inv d m -> d_xom_page_lock d = false -> reg_sealed d m -> frame_inj d ->
  wp (arm_handle_xom_seal gs count)
     (fun _ d' => forall g, sealed d g -> sealed d' g \/ wiped d' g) d.
Proof.
  intros Hinv Hlk Hreg Hinj. eapply wp_mono; [by apply arm_handle_loop_spec|].
  intros r d' (m' & Hb & _). exact (batch_secure _ _ _ I Hb Hreg Hinj).
Qed.

(** C28: on Arm a frame registered for sub-pages or register clearing that has
    memory behind it is execute-only after every batch, if it was so before and
    an update of the p2m that fails changes nothing. *)
Theorem arm_registered_sealed gs count d m :
  dom_inv d m -> d_xom_page_lock d = false -> reg_sealed d m ->
  wp (arm_do_mmuext_op true gs count)
     (fun _ d' => exists m', dom_inv d' m' /\ reg_sealed d' m') d.
Proof.
  intros Hinv Hlk Hreg. eapply wp_mono; [by apply arm_handle_loop_spec|].
  intros r d' (m' & Hb & _). exists m'. split; [exact (batch_inv _ _ _ Hb Hinv)|].
  exact (batch_reg_sealed _ _ _ I Hb Hreg).
Qed.

(** On Arm [clear_xom_seal] returning a non-negative code has wiped,
    unsealed and unregistered every execute-only frame of the range. *)
Theorem arm_clear_xom_seal_correct junk gfn nr d m :
  dom_inv d m ->
  wp (arm_clear_xom_seal junk gfn nr)
     (fun rc d' => (forall g, sealed d g -> ~ sealed d' g -> wiped d' g) /\
        exists m', dom_inv d' m' /\
          (0 <= rc -> forall g, g ∈ gfns (Z.to_nat nr) gfn -> sealed d g ->
             wiped d' g /\ ~ sealed d' g /\ forall sel, m' sel !! g = None)) d.
Proof.
  intros Hinv. eapply wp_mono; [by apply arm_clear_xom_seal_spec|].
  intros rc d' (Hc & m' & Hr & _ & _ & Hall). split; [|exists m'; split; [apply Hr|done]].
  intros g Hg Hn. destruct (cr_access _ _ Hc g) as [Heq|(_ & _ & ?)]; [|done].
  destruct Hn. unfold sealed in *. congruence.
Qed.
End arm.

(** ** A frame that is registered but not sealed *)

(** On x86 [create_xom_subpages] does not look at the result of
    [p2m_set_mem_access_single]: when the p2m code refuses the update, the
    frame is registered for sub-page writes although it stays readable. *)
Theorem x86_create_registers_unsealed :
  wp (create_xom_subpages 1 1)
     (fun rc d' => rc = - ENOMEM /\ ~ sealed d' 1 /\
        exists p s, get_page_info_entry XomSubpages 1 (d_pi d') = Some (p, s) /\ p <> NULL)
     (stuck_domain 7 [] []).
Proof. eexists _, _. split; [vm_compute; reflexivity|]. split_and!; [done|by vm_compute|].
  eexists _, _. split; [vm_compute; reflexivity|done]. Qed.

(** On Arm the variable [atype] is not assigned for a frame that is not mapped:
    [mark_reg_clear_page] then marks frame 5, which has no memory, when the
    memory of the variable holds the execute-only right, and refuses it
    otherwise; and [clear_xom_seal] fails on it after an execute-only frame. *)
Theorem arm_unmapped_access_unassigned :
  let d := toy_domain 4 [] [] in
  ~ mapped d 5 /\
  wp (arm_mark_reg_clear_page p2m_access_x 5 2)
     (fun rc d' => rc = 0 /\ exists p s, get_page_info_entry XomRegClear 5 (d_pi d') = Some (p, s) /\ p <> NULL) d /\
  wp (arm_mark_reg_clear_page p2m_access_n 5 2) (fun rc d' => rc = - EINVAL /\ d_pi d' = d_pi d) d /\
  wp (arm_clear_xom_seal p2m_access_x 5 1) (fun rc _ => rc = - EINVAL) d /\
  wp (arm_clear_xom_seal p2m_access_n 5 1) (fun rc _ => rc = 0) d.
Proof.
  split_and!; [intros Hm; by apply Hm|..]; eexists _, _; (split; [vm_compute; reflexivity|]); split_and?; try done.
  eexists _, _. split; [vm_compute; reflexivity|done].
Qed.

(** ** Examples on the concrete machine *)

(** Write the sub-page [t] of a frame with 128 times the byte [b]. *)
Definition toy_command (t b : Z) : list Z := 1 :: t :: repeat b 128.

Ltac toy_bytes :=
  repeat first [apply Forall_nil; exact I | apply Forall_cons; split; [lia|]
               | apply Forall_forall; intros ? ?%list_elem_of_In%repeat_spec; lia].

Lemma handle_xom_seal_confidential_ex :
  let d := reg_domain XomSubpages 1 4 [1; 2; 3] [] in
  let gs := guest_of (MmuextOp MMUEXT_UNMARK_XOM 1 1) in
  sealed d 1 /\
  wp (handle_xom_seal gs 1)
     (fun _ d' => exists m' tr, trace (batch_op gs) 0 (d, reg_infos XomSubpages 1) tr (d', m') /\
        (forall n y, tr !! n = Some y -> dom_inv y.1 y.2) /\
        (forall g, sealed d g -> is_Some (d_pages d !! frame_of d g) ->
           forall n y, tr !! n = Some y ->
             guarded (d, reg_infos XomSubpages 1) y g \/
             exists k z, (k <= n)%nat /\ tr !! k = Some z /\ wiped z.1 g) /\
        (p2m_total (P := toy_p2m) -> reg_sealed d (reg_infos XomSubpages 1) ->
           forall g, sealed d g -> sealed d' g \/ wiped d' g)) d.
Proof.
  split; [done|]. apply (handle_xom_seal_confidential _ _ _ (reg_infos XomSubpages 1));
    [apply reg_inv; toy_bytes; lia|done|apply reg_inj].
Defined.

Lemma arm_handle_xom_seal_confidential_ex :
  let d := reg_domain XomSubpages 1 4 [1; 2; 3] [] in
  wp (arm_handle_xom_seal (guest_of (MmuextOp MMUEXT_UNMARK_XOM 1 1)) 1)
     (fun _ d' => forall g, sealed d g -> sealed d' g \/ wiped d' g) d.
Proof.
  apply (arm_handle_xom_seal_confidential _ _ _ (reg_infos XomSubpages 1));
    [apply reg_inv; toy_bytes; lia|done|apply reg_domain_sealed|apply reg_inj].
Defined.

Lemma handle_xom_seal_safe_ex :
  let d := reg_domain XomSubpages 1 4 [] (toy_command 3 170) in
  let gs := guest_of (MmuextOp MMUEXT_WRITE_XOM_SPAGES 1 2) in
  wp (handle_xom_seal gs 2)
     (fun r d' => (exists m', dom_inv d' m') /\ same_frame d d' /\
        pages_rel (fun _ _ => True) d d' /\ d_stale d' = ∅ /\
        (r.1 = 0 -> r.2 = if pdone_is_null gs then None else Some (Z.of_nat (Z.to_nat 2)))) d.
Proof.
  apply (handle_xom_seal_safe _ _ _ (reg_infos XomSubpages 1));
    [apply reg_inv; toy_bytes; lia|done|done].
Defined.

Lemma xom_op_write_once_ex :
  let d := reg_domain XomSubpages 1 4 [5; 6; 7] (toy_command 0 170) in
  wp (xom_op (MmuextOp MMUEXT_WRITE_XOM_SPAGES 1 2))
     (fun _ d' => exists m', dom_inv d' m' /\
        (forall w, m' XomSubpages !! 1 = Some w -> Z.testbit w 0 = true) /\
        (wiped d' 1 \/ (locked m' 1 0 /\ exists pg', d_pages d' !! frame_of d 1 = Some pg' /\
                          subpage 0 (pg_data pg') = subpage 0 (pg_data (page_with [5; 6; 7]))))) d.
Proof.
  apply (xom_op_write_once _ _ (reg_infos XomSubpages 1));
    [apply reg_inv; toy_bytes; lia|done|apply reg_inj|by vm_compute|by exists 1; vm_compute|done].
Defined.

Lemma set_xom_seal_correct_ex :
  let d := toy_domain 7 [1; 2; 3] [] in
  wp (set_xom_seal 1 2)
     (fun rc d' => d_pages d' = d_pages d /\ d_pi d' = d_pi d /\
        (forall g, g ∉ gfns (Z.to_nat 2) 1 -> access_of d' g = access_of d g) /\
        (rc = 0 -> forall g, g ∈ gfns (Z.to_nat 2) 1 -> mapped d g -> sealed d' g)) d.
Proof. apply (set_xom_seal_correct _ _ _ no_infos), toy_inv; toy_bytes. Defined.


Lemma arm_clear_xom_seal_correct_ex :
  let d := reg_domain XomSubpages 1 4 [1; 2; 3] [] in
  wp (arm_clear_xom_seal 4 1 2)
     (fun rc d' => (forall g, sealed d g -> ~ sealed d' g -> wiped d' g) /\
        exists m', dom_inv d' m' /\
          (0 <= rc -> forall g, g ∈ gfns (Z.to_nat 2) 1 -> sealed d g ->
             wiped d' g /\ ~ sealed d' g /\ forall sel, m' sel !! g = None)) d.
Proof. apply (arm_clear_xom_seal_correct _ _ _ _ (reg_infos XomSubpages 1)), reg_inv; toy_bytes; lia. Defined.

Lemma create_xom_subpages_correct_ex :
  let d := toy_domain 7 [1; 2; 3] [] in
  wp (create_xom_subpages 1 2)
     (fun rc d' => d_pages d' = d_pages d /\ exists m', dom_inv d' m' /\
        infos_created (gfns (Z.to_nat 2) 1) d no_infos m' /\
        (0 <= rc -> forall g, g ∈ gfns (Z.to_nat 2) 1 -> ~ sealed d g /\
           m' XomSubpages !! g = Some 0 /\ (p2m_total (P := toy_p2m) -> mapped d g -> sealed d' g))) d.
Proof. apply (create_xom_subpages_correct _ _ _ no_infos), toy_inv; toy_bytes. Defined.

Lemma write_into_subpage_correct_ex :
  wp (write_into_subpage 1 2)
     (fun rc d' => rc < 0 \/ exists pg', d_pages d' !! 101 = Some pg' /\
        subpage 3 (pg_data pg') = repeat 170 128)
     (reg_domain XomSubpages 1 4 [] (toy_command 3 170)).
Proof.
  eapply wp_mono.
  { apply (write_into_subpage_correct 1 2 _ (reg_infos XomSubpages 1)), reg_inv; toy_bytes; lia. }
  cbv beta zeta. intros rc d' [[? _]|(_ & m' & w & src & pg & pg' & _ & _ & Hs & _ & Hp & _ & Hd & _)]; [by left|right].
  exists pg'. split; [exact Hp|]. injection Hs as <-.
  eapply (Hd [] (WriteInfo 3 (repeat 170 128)) []); [by vm_compute|constructor].
Defined.

Lemma mark_reg_clear_page_correct_ex :
  let d := toy_domain 4 [1; 2; 3] [] in
  wp (mark_reg_clear_page (Arch0 := x86_arch) p2m_access_n 1 2)
     (fun rc d' => d_p2m d' = d_p2m d /\ d_pages d' = d_pages d /\ exists m', dom_inv d' m' /\
        (if rc =? 0
         then sealed d 1 /\ no_infos XomRegClear !! 1 = None /\
              (2 = REG_CLEAR_TYPE_VECTOR \/ 2 = REG_CLEAR_TYPE_FULL) /\
              m' = upd no_infos XomRegClear (<[1 := 2]> (no_infos XomRegClear))
         else rc < 0 /\ m' = no_infos)) d.
Proof. apply (mark_reg_clear_page_correct 1 2 _ no_infos); [apply toy_inv; toy_bytes|lia]. Defined.

Lemma get_reg_clear_type_correct_ex :
  let d := reg_domain XomRegClear 2 4 [1; 2; 3] [] in
  wp (get_reg_clear_type true 0 (fun va => va / 4096) (Some 4100)) (fun r d' => d' = d /\ r = 2) d.
Proof.
  eapply wp_mono; [apply (get_reg_clear_type_correct _ _ _ _ _ (reg_infos XomRegClear 2));
    [apply reg_inv; toy_bytes; by right|done..]|].
  intros r d' [-> ->]. split; [done|by vm_compute].
Defined.

Lemma x86_last_frame_refused_ex :
  set_xom_seal 8 1 (toy_domain 7 [] []) = Some (- EOVERFLOW, toy_domain 7 [] []).
Proof. refine (proj1 (x86_last_frame_refused (toy_domain 7 [] []) _)). cbn. lia. Defined.

Lemma arm_registered_sealed_ex :
  wp (arm_do_mmuext_op true (guest_of (MmuextOp MMUEXT_UNMARK_XOM 1 1)) 1)
     (fun _ d' => exists m', dom_inv d' m' /\ reg_sealed d' m')
     (reg_domain XomSubpages 1 4 [1; 2; 3] []).
Proof.
  apply (arm_registered_sealed _ _ _ (reg_infos XomSubpages 1));
    [apply reg_inv; toy_bytes; lia|done|apply reg_domain_sealed].
Defined.
