(* ===== verification/P2mTypes.v ===== *)
(** * The types of guest frames on x86

    The enumeration [p2m_type_t] and the groups of types of
    [arch/x86/include/asm/p2m.h]. *)

From S2P Require Import Prelude.

Definition p2m_ram_rw : Z := 0.
Definition p2m_invalid : Z := 1.
Definition p2m_ram_logdirty : Z := 2.
Definition p2m_ram_ro : Z := 3.
Definition p2m_mmio_dm : Z := 4.
Definition p2m_mmio_direct : Z := 5.
Definition p2m_populate_on_demand : Z := 6.
Definition p2m_grant_map_rw : Z := 7.
Definition p2m_grant_map_ro : Z := 8.
Definition p2m_ram_paging_out : Z := 9.
Definition p2m_ram_paged : Z := 10.
Definition p2m_ram_paging_in : Z := 11.
Definition p2m_ram_shared : Z := 12.
Definition p2m_ram_broken : Z := 13.
Definition p2m_map_foreign : Z := 14.
Definition p2m_ioreq_server : Z := 15.

(** A group of types is a mask with a bit for each. *)
Definition p2m_in (types : list Z) (t : Z) : bool := existsb (fun t' => t' =? t) types.

Definition P2M_RAM_TYPES : list Z :=
  [p2m_ram_rw; p2m_ram_logdirty; p2m_ram_ro; p2m_ram_paging_out; p2m_ram_paged; p2m_ram_paging_in;
   p2m_ram_shared; p2m_ioreq_server].
Definition P2M_GRANT_TYPES : list Z := [p2m_grant_map_rw; p2m_grant_map_ro].
Definition P2M_HOLE_TYPES : list Z := [p2m_mmio_dm; p2m_invalid; p2m_ram_paging_in; p2m_ram_paged].
Definition P2M_CHANGEABLE_TYPES : list Z := [p2m_ram_rw; p2m_ram_logdirty; p2m_ioreq_server].
(** empty without [CONFIG_MEM_PAGING], which is off by default *)
Definition P2M_PAGING_TYPES : list Z := [].
Definition P2M_INVALID_MFN_TYPES : list Z := p2m_populate_on_demand :: p2m_mmio_direct :: P2M_PAGING_TYPES.
Definition P2M_DISCARD_WRITE_TYPES : list Z := [p2m_ram_ro; p2m_grant_map_ro].

Definition p2m_is_ram : Z -> bool := p2m_in P2M_RAM_TYPES.
Definition p2m_is_any_ram : Z -> bool := p2m_in (P2M_RAM_TYPES ++ P2M_GRANT_TYPES ++ [p2m_map_foreign]).
Definition p2m_is_hole : Z -> bool := p2m_in P2M_HOLE_TYPES.
Definition p2m_is_grant : Z -> bool := p2m_in P2M_GRANT_TYPES.
Definition p2m_is_paging : Z -> bool := p2m_in P2M_PAGING_TYPES.
Definition p2m_is_changeable : Z -> bool := p2m_in P2M_CHANGEABLE_TYPES.
Definition p2m_is_pod : Z -> bool := p2m_in [p2m_populate_on_demand].
Definition p2m_is_shared : Z -> bool := p2m_in [p2m_ram_shared].
Definition p2m_is_broken : Z -> bool := p2m_in [p2m_ram_broken].
Definition p2m_is_foreign : Z -> bool := p2m_in [p2m_map_foreign].
Definition p2m_allows_invalid_mfn : Z -> bool := p2m_in P2M_INVALID_MFN_TYPES.
Definition p2m_is_discard_write : Z -> bool := p2m_in P2M_DISCARD_WRITE_TYPES.
