(* ===== verification/GuestCopy.v ===== *)
(** * Copies between the hypervisor and the memory of a guest

    [__hvm_copy] of [arch/x86/hvm/hvm.c] with the translation it uses, and the
    two routines through which a hypercall reads its arguments from the guest
    and stores its results there.  None of them looks at the access right of a
    frame.  The guest is a 64-bit one; no monitor watches its accesses, and no
    instruction is being emulated, so that there is no cache of earlier reads.
    The bitmap of dirty frames and the request to page a frame in are not part
    of the state. *)

From S2P Require Import Prelude RbTree RbSpec RbHeap PageInfo XomDomain P2mTypes.

Definition PFEC_page_present : Z := 1.
Definition PFEC_write_access : Z := 2.
Definition PFEC_page_paged : Z := 2 ^ 16.
Definition PFEC_page_shared : Z := 2 ^ 17.

Inductive hvm_translation_result :=
| HVMTRANS_okay
| HVMTRANS_bad_linear_to_gfn
| HVMTRANS_bad_gfn_to_mfn
| HVMTRANS_unhandleable
| HVMTRANS_gfn_paged_out
| HVMTRANS_gfn_shared
| HVMTRANS_need_retry.

(** The walk over the guest's own page tables gives the frame of an address and
    the updated error code; some physical addresses are devices that the
    hypervisor emulates. *)
Record copy_env := CopyEnv {
  paging_gva_to_gfn : Z -> Z -> Z * Z;
  hvm_mmio_internal : Z -> bool
}.

Section copy.
Context {P : Type} `{P2mOps P}.
Implicit Types env : copy_env.

(** The frame with a reference taken, its guest frame and its type. *)
Definition hvm_translate_get_page env (addr pfec : Z)
    : M (domain P) (hvm_translation_result + Z * Z * Z) :=
  let '(gfn, pfec) := paging_gva_to_gfn env pfec addr in
  if gfn =? INVALID_GFN
  then ret (inl (if negb (Z.land pfec PFEC_page_paged =? 0) then HVMTRANS_gfn_paged_out
                 else if negb (Z.land pfec PFEC_page_shared =? 0) then HVMTRANS_gfn_shared
                 else HVMTRANS_bad_linear_to_gfn))
  else if hvm_mmio_internal env (u64 (Z.shiftl gfn 12)) then ret (inl HVMTRANS_bad_gfn_to_mfn)
  else
    let! page := get_page_from_gfn gfn in
    match page with
    | None => ret (inl HVMTRANS_bad_gfn_to_mfn)
    | Some mfn =>
        let! p2m := gets d_p2m in
        let '(_, p2mt, _) := get_entry p2m gfn in
        if p2m_is_paging p2mt then do! put_page mfn in ret (inl HVMTRANS_gfn_paged_out)
        else if p2m_is_shared p2mt then do! put_page mfn in ret (inl HVMTRANS_gfn_shared)
        else if p2m_is_grant p2mt then do! put_page mfn in ret (inl HVMTRANS_unhandleable)
        else ret (inr (mfn, gfn, p2mt))
    end.

(** One round of the loop of [__hvm_copy]: [count] bytes inside the page at
    [addr]; [off] bytes of the buffer are done. *)
Definition hvm_copy_page env (to_guest : bool) (pfec addr : Z) (count off : nat) (buf : list Z)
    : M (domain P) (hvm_translation_result * list Z) :=
  let pgoff := Z.to_nat (Z.land addr (PAGE_SIZE - 1)) in
  let! res := hvm_translate_get_page env addr pfec in
  match res with
  | inl res => ret (res, buf)
  | inr (mfn, gfn, p2mt) =>
      if to_guest && (p2mt =? p2m_ioreq_server)
      then do! put_page mfn in ret (HVMTRANS_bad_gfn_to_mfn, buf)
      else
        let! buf :=
          (if negb to_guest
           then let! p := read_page mfn in ret (splice off (take count (drop pgoff p)) buf)
           else if negb (p2m_is_discard_write p2mt)
           then do! write_page mfn (splice pgoff (take count (drop off buf))) in ret buf
           else ret buf) in
        do! put_page mfn in
        ret (HVMTRANS_okay, buf)
  end.

(** [min(PAGE_SIZE - pgoff, size)] *)
Definition chunk (addr : Z) (size : nat) : nat :=
  Nat.min (Z.to_nat (PAGE_SIZE - Z.land addr (PAGE_SIZE - 1))) size.

(** Each round copies at least one byte. *)
Fixpoint hvm_copy_loop (fuel : nat) env (to_guest : bool) (pfec addr : Z) (off : nat) (buf : list Z)
    : M (domain P) (hvm_translation_result * list Z) :=
  if (length buf <=? off)%nat then ret (HVMTRANS_okay, buf)
  else
    match fuel with
    | O => ub
    | S fuel =>
        let count := chunk addr (length buf - off) in
        let! '(res, buf) := hvm_copy_page env to_guest pfec addr count off buf in
        match res with
        | HVMTRANS_okay => hvm_copy_loop fuel env to_guest pfec (u64 (addr + Z.of_nat count)) (off + count) buf
        | _ => ret (res, buf)
        end
    end.

Definition hvm_copy env (to_guest : bool) (pfec addr : Z) (buf : list Z) : M (domain P) (hvm_translation_result * list Z) :=
  hvm_copy_loop (length buf) env to_guest pfec addr 0 buf.

Definition hvm_copy_to_guest_linear env (addr : Z) (buf : list Z) : M (domain P) hvm_translation_result :=
  let! '(rc, _) := hvm_copy env true (Z.lor PFEC_page_present PFEC_write_access) addr buf in ret rc.

Definition hvm_copy_from_guest_linear env (addr : Z) (buf : list Z) : M (domain P) (hvm_translation_result * list Z) :=
  hvm_copy env false PFEC_page_present addr buf.

(** [rc ? len : 0] *)
Definition left_over (rc : hvm_translation_result) (len : nat) : Z :=
  match rc with HVMTRANS_okay => 0 | _ => Z.of_nat len end.

Definition copy_to_user_hvm env (to : Z) (from : list Z) : M (domain P) Z :=
  let! rc := hvm_copy_to_guest_linear env to from in
  ret (left_over rc (length from)).

(** The number of bytes that were not copied, and the buffer. *)
Definition copy_from_user_hvm env (buf : list Z) (from : Z) : M (domain P) (Z * list Z) :=
  let! '(rc, buf) := hvm_copy_from_guest_linear env from buf in
  ret (left_over rc (length buf), buf).

(** ** The arguments of the hypercall *)

(** [sizeof(struct mmuext_op)]; the two unions are aligned to eight bytes. *)
Definition sizeof_mmuext_op : nat := 24.

Definition op_of_bytes (l : list Z) : mmuext_op :=
  MmuextOp (le_bytes (take 4 l)) (le_bytes (take 8 (drop 8 l))) (le_bytes (take 8 (drop 16 l))).

(** [__copy_from_guest(&op, uops, 1)] after [i] times
    [guest_handle_add_offset(uops, 1)] *)
Definition copy_op env (uops : Z) (i : nat) : M (domain P) (option mmuext_op) :=
  let! '(rest, buf) := copy_from_user_hvm env (repeat 0 sizeof_mmuext_op)
                         (u64 (uops + Z.of_nat (sizeof_mmuext_op * i))) in
  ret (if rest =? 0 then Some (op_of_bytes buf) else None).

(** [copy_to_guest(pdone, &i, 1)]; its result is not used. *)
Definition store_pdone env (pdone : Z) (i : Z) : M (domain P) unit :=
  let! _ := copy_to_user_hvm env pdone (le_encode 4 i) in ret tt.
End copy.
