(* ===== verification/XomGuest.v ===== *)
(** * The guest and the hypervisor

    What a guest can do with its pages: the hypercall, which enters at
    [do_mmuext_op] of [mm.c]; accesses, which the processor and
    [hvm_hap_nested_page_fault] of [hvm.c] check against the p2m table; VM
    exits, after which [handle_register_clear] of [vmx.c] clears the registers;
    and the places of [domain.c] where the trees of a domain begin and end. *)

From S2P Require Import Prelude RbTree RbSpec RbHeap PageInfo XomDomain XomSeal P2mTypes GuestCopy.

(** ** Nested page faults *)

Definition p2m_access_r : Z := 1.
Definition p2m_access_w : Z := 2.
Definition p2m_access_rw : Z := Z.lor p2m_access_r p2m_access_w.
Definition p2m_access_rx : Z := Z.lor p2m_access_r p2m_access_x.
Definition p2m_access_wx : Z := Z.lor p2m_access_w p2m_access_x.
Definition p2m_access_rx2rw : Z := 8.
Definition p2m_access_n2rwx : Z := 9.

(** The kind of access that faulted. *)
Record npfec := Npfec { read_access : bool; write_access : bool; insn_fetch : bool }.

(** The [switch] on the access rights of the page. *)
Definition access_violation (p2ma : Z) (f : npfec) : bool :=
  if p2ma =? p2m_access_r then write_access f || insn_fetch f
  else if p2ma =? p2m_access_w then read_access f || insn_fetch f
  else if p2ma =? p2m_access_x then read_access f || write_access f
  else if (p2ma =? p2m_access_rx) || (p2ma =? p2m_access_rx2rw) then write_access f
  else if p2ma =? p2m_access_wx then read_access f
  else if p2ma =? p2m_access_rw then insn_fetch f
  else if p2ma =? p2m_access_rwx then false
  else read_access f || write_access f || insn_fetch f.

(** Execute-only pages answer a violation with a general protection fault of
    the guest; every other violation takes the path it takes without XOM. *)
Inductive fault := FaultGP | FaultOther.

Definition violation_fault (p2ma : Z) : fault := if p2ma =? p2m_access_x then FaultGP else FaultOther.

(** What the guest observes: the bytes that were read, that a store or a fetch
    was permitted, the result of a hypercall, a fault, or that there is no
    memory. *)
Inductive outcome := Read (bytes : list Z) | Stored | Fetched | Returned (rc : Z) | Faulted (f : fault) | NoPage.

Section guest.
Context {P : Type} `{P2mOps P}.

(** An access to guest frame [g], which the processor carries out if the p2m
    entry permits it; the hypervisor handles the fault otherwise. *)
Definition guest_access (f : npfec) (g : Z) (k : Z -> M (domain P) outcome) : M (domain P) outcome :=
  let! d := get in
  let '(mfn, _, p2ma) := get_entry (d_p2m d) g in
  if access_violation p2ma f then ret (Faulted (violation_fault p2ma))
  else match d_pages d !! mfn with
       | None => ret NoPage
       | Some _ => k mfn
       end.

Definition guest_read (g : Z) : M (domain P) outcome :=
  guest_access (Npfec true false false) g (fun mfn => let! l := read_page mfn in ret (Read l)).

(** A store of bytes inside a page. *)
Definition guest_write (g : Z) (off : nat) (bytes : list Z) : M (domain P) outcome :=
  guest_access (Npfec false true false) g (fun mfn =>
    if bool_decide (off + length bytes <= Z.to_nat PAGE_SIZE)%nat
    then do! write_page mfn (splice off (map u8 bytes)) in ret Stored else ret NoPage).

(** An instruction fetch: whether it is permitted.  What the instructions then
    compute and reveal is up to the code in the page, and no part of the
    model. *)
Definition guest_fetch (g : Z) : M (domain P) outcome :=
  guest_access (Npfec false false true) g (fun mfn => ret Fetched).

(** ** Clearing registers *)

(** [struct cpu_user_regs] without its padding *)
Record cpu_user_regs := Regs {
  r15 : Z; r14 : Z; r13 : Z; r12 : Z; rbp : Z; rbx : Z; r11 : Z; r10 : Z; r9 : Z; r8 : Z; rax : Z; rcx : Z; rdx : Z;
  rsi : Z; rdi : Z; error_code : Z; entry_vector : Z; rip : Z; cs : Z; saved_upcall_mask : Z; rflags : Z; rsp : Z;
  ss : Z; es : Z; ds : Z; fs : Z; gs : Z }.

(** [memset(regs, 0, sizeof( *regs))] *)
Definition zero_regs : cpu_user_regs := Regs 0 0 0 0 0 0 0 0 0 0 0 0 0 0 0 0 0 0 0 0 0 0 0 0 0 0 0.

Definition set_r15_r14 (x y : Z) (r : cpu_user_regs) : cpu_user_regs :=
  Regs x y (r13 r) (r12 r) (rbp r) (rbx r) (r11 r) (r10 r) (r9 r) (r8 r) (rax r) (rcx r) (rdx r) (rsi r) (rdi r)
    (error_code r) (entry_vector r) (rip r) (cs r) (saved_upcall_mask r) (rflags r) (rsp r) (ss r) (es r) (ds r) (fs r) (gs r).

Definition set_sp_bp_r15 (sp bp x : Z) (r : cpu_user_regs) : cpu_user_regs :=
  Regs x (r14 r) (r13 r) (r12 r) bp (rbx r) (r11 r) (r10 r) (r9 r) (r8 r) (rax r) (rcx r) (rdx r) (rsi r) (rdi r)
    (error_code r) (entry_vector r) (rip r) (cs r) (saved_upcall_mask r) (rflags r) sp (ss r) (es r) (ds r) (fs r) (gs r).
End guest.

(** The vector registers: which extensions the processor has, and the routines
    that [hvm.h] declares. *)
Class VectorUnit (X : Type) := {
  cpu_has_avx512f : bool;
  cpu_has_avx : bool;
  cpu_has_sse3 : bool;
  clear_avx512_regs : X -> X;
  clear_avx_regs : X -> X;
  clear_sse_regs : X -> X
}.

Definition MMU_UPDATE_PREEMPTED : Z := 2 ^ 31.
Definition DOMID_SELF : Z := 0x7FF0.

(** The other domains: the number of this one, which other numbers belong to a
    domain and whether it is a paravirtualised one, and what operations on the
    pages of such a domain return.  They do not concern the pages of this one. *)
Class Domains := {
  domain_id : Z;
  foreign_is_pv : Z -> option bool;
  mmuext_pv : Z -> Z -> Z * option Z
}.

Section exits.
Context {P X : Type} `{P2mOps P} `{VectorUnit X} `{Xmalloc} `{Domains}.

Definition clear_vectors (x : X) : X :=
  if cpu_has_avx512f then clear_avx512_regs x
  else if cpu_has_avx then clear_avx_regs x
  else if cpu_has_sse3 then clear_sse_regs x
  else x.

(** [cpl] is [hvm_get_cpl(current)]; the other arguments are those of
    [get_reg_clear_type]. *)
Definition handle_register_clear (cpl : Z) (vcpu_ok : bool) (cs_base : Z) (gva_to_gfn : Z -> Z) (regs : cpu_user_regs) (x : X)
    : M (domain P) (cpu_user_regs * X) :=
  if Z.land cpl 2 =? 0 then ret (regs, x)
  else
    let! reg_clear_type := get_reg_clear_type vcpu_ok cs_base gva_to_gfn (Some (rip regs)) in
    if reg_clear_type =? REG_CLEAR_TYPE_NONE then ret (regs, x)
    else
      let x := clear_vectors x in
      if reg_clear_type =? REG_CLEAR_TYPE_VECTOR
      then ret (set_r15_r14 0xbabababababababa 0xbabababababababa regs, x)
      else ret (set_sp_bp_r15 (rsp regs) (rbp regs) 0xdadadadadadadada zero_regs, x).

(** ** The life of a domain *)

(** [domain_create]: the lock and the two roots. *)
Definition xom_domain_init (d : domain P) : domain P :=
  set_xom_lock false (set_pi (PiState (pi_nodes (d_pi d)) (pi_infos (d_pi d)) NULL NULL (pi_clock (d_pi d))) d).

(** [complete_domain_destroy] *)
Definition xom_domain_destroy : M (domain P) unit :=
  do! on_pi (free_xom_info XomSubpages) in
  on_pi (free_xom_info XomRegClear).

(** ** The hypercall *)

(** [get_pg_owner]: whether the owner of the pages exists and is a
    paravirtualised domain. *)
Definition get_pg_owner (domid : Z) : M (domain P) (option bool) :=
  if domid =? domain_id then ret None
  else if domid =? DOMID_SELF then gets (fun d => Some (negb (d_is_hvm d)))
  else ret (foreign_is_pv domid).

(** [do_mmuext_op], up to the operations on pages of paravirtualised domains;
    the second component of the result is what is written to [*pdone].  The
    handle [uops] is [uops_null] or not, and [uops_ok] is
    [guest_handle_okay(uops, count)].  A vcpu of another kind of domain has no
    old page table to put. *)
Definition do_mmuext_op (uops_null uops_ok : bool) (g : guest P) (count foreigndom : Z) : M (domain P) (Z * option Z) :=
  do! assert (negb (old_guest_table g)) in
  if (count =? MMU_UPDATE_PREEMPTED) && uops_null then ret (s32 foreigndom, None)
  else
    let count := Z.land count (Z.lnot MMU_UPDATE_PREEMPTED) in
    if negb uops_ok then ret (- EFAULT, None)
    else
      let! pg_owner := get_pg_owner (foreigndom mod 2 ^ 16) in
      match pg_owner with
      | None => ret (- ESRCH, None)
      | Some pv => if negb pv then handle_xom_seal g count else ret (mmuext_pv foreigndom count)
      end.

(** The arguments of a hypercall: the two pointers into the guest's memory, the
    number of operations and the domain; with the translation of the guest's
    addresses while it runs, and the answers of [hypercall_preempt_check]. *)
Record hypercall_args := Hypercall {
  hc_env : copy_env;
  hc_uops : Z;
  hc_count : Z;
  hc_pdone : Z;
  hc_foreigndom : Z;
  hc_preempt : nat -> bool
}.

(** What a guest does: accesses and hypercalls. *)
Inductive event :=
| EvRead (g : Z)
| EvWrite (g : Z) (off : nat) (bytes : list Z)
| EvFetch (g : Z)
| EvHypercall (h : hypercall_args).

(** What [handle_xom_seal] finds: the operations are copied from the memory of
    the guest, one before each is carried out. *)
Definition batch_of (h : hypercall_args) : guest P :=
  Guest (fun d i => match copy_op (hc_env h) (hc_uops h) i d with Some (op, _) => op | None => None end)
    (hc_preempt h) false (hc_pdone h =? NULL) (fun _ => p2m_access_n).

(** The hypercall with the store to [*pdone]; [guest_handle_okay] always holds
    for a domain with external paging. *)
Definition run_hypercall (h : hypercall_args) : M (domain P) outcome :=
  let! '(rc, pdone) := do_mmuext_op (hc_uops h =? NULL) true (batch_of h) (hc_count h) (hc_foreigndom h) in
  do! match pdone with
      | Some i => store_pdone (hc_env h) (hc_pdone h) i
      | None => ret tt
      end in
  ret (Returned rc).

Definition run_event (e : event) : M (domain P) outcome :=
  match e with
  | EvRead g => guest_read g
  | EvWrite g off bytes => guest_write g off bytes
  | EvFetch g => guest_fetch g
  | EvHypercall h => run_hypercall h
  end.

(** A guest chooses its next event by what it has observed. *)
Fixpoint run_guest (n : nat) (strategy : list outcome -> event) (seen : list outcome) : M (domain P) (list outcome) :=
  match n with
  | O => ret seen
  | S n =>
      let! o := run_event (strategy seen) in
      run_guest n strategy (seen ++ [o])
  end.
End exits.
