(* ===== verification/XomRel.v ===== *)
(** * A relational logic for domains

    Two domains that differ in the contents of execute-only pages only are
    indistinguishable: an operation that does the same to both returns the same
    result and leaves two such domains again.  The proofs are in a relational
    logic for the monad: [rel R m Q] runs [m] from two states related by
    [R]. *)

From S2P Require Import Prelude RbTree RbSpec RbHeap PageInfo XomDomain XomSpec.

(** ** The logic *)

Section rel.
Context {S : Type}.
Implicit Types (R : S -> S -> Prop).

Definition sim {A} (o1 o2 : option (A * S)) (Q : A -> S -> S -> Prop) : Prop :=
  match o1, o2 with
  | Some (a1, s1), Some (a2, s2) => a1 = a2 /\ Q a1 s1 s2
  | None, None => True
  | _, _ => False
  end.

Definition rel {A} R (m : M S A) (Q : A -> S -> S -> Prop) : Prop := forall s1 s2, R s1 s2 -> sim (m s1) (m s2) Q.

Lemma sim_ret {A} (a : A) s1 s2 (Q : A -> S -> S -> Prop) : Q a s1 s2 -> sim (ret a s1) (ret a s2) Q.
Proof. by split. Qed.

Lemma rel_ret {A} (a : A) R (Q : A -> S -> S -> Prop) : (forall s1 s2, R s1 s2 -> Q a s1 s2) -> rel R (ret a) Q.
Proof. intros HQ s1 s2 HR. by split; [|apply HQ]. Qed.

Lemma rel_bind {A B} (m : M S A) (k : A -> M S B) R Q T : rel R m Q -> (forall a, rel (Q a) (k a) T) -> rel R (bind m k) T.
Proof.
  intros Hm Hk s1 s2 HR. specialize (Hm s1 s2 HR). unfold bind, sim in *.
  destruct (m s1) as [[a1 t1]|], (m s2) as [[a2 t2]|]; try done. destruct Hm as [<- HQ]. by apply Hk.
Qed.

Lemma rel_mono {A} (m : M S A) R R' (Q Q' : A -> S -> S -> Prop) :
  rel R' m Q' -> (forall s1 s2, R s1 s2 -> R' s1 s2) -> (forall a s1 s2, Q' a s1 s2 -> Q a s1 s2) -> rel R m Q.
Proof.
  intros Hm HR HQ s1 s2 H. specialize (Hm s1 s2 (HR _ _ H)). unfold sim in *.
  destruct (m s1) as [[a1 t1]|], (m s2) as [[a2 t2]|]; try done. destruct Hm as [<- H']. split; auto.
Qed.

Lemma rel_post {A} (m : M S A) R (Q Q' : A -> S -> S -> Prop) :
  rel R m Q' -> (forall a s1 s2, Q' a s1 s2 -> Q a s1 s2) -> rel R m Q.
Proof. intros Hm HQ. by eapply rel_mono. Qed.

Lemma rel_pre {A} (m : M S A) R R' (Q : A -> S -> S -> Prop) :
  rel R' m Q -> (forall s1 s2, R s1 s2 -> R' s1 s2) -> rel R m Q.
Proof. intros Hm HR. by eapply rel_mono. Qed.

(** A pure fact about the states. *)
Lemma rel_pure {A} (m : M S A) R (X : Prop) Q : (forall s1 s2, R s1 s2 -> X) -> (X -> rel R m Q) -> rel R m Q.
Proof. intros HX Hm s1 s2 HR. by apply Hm; [eapply HX|]. Qed.

(** A ghost that the relation hides. *)
Lemma rel_ex {A B} (m : M S A) (R : B -> S -> S -> Prop) Q :
  (forall b, rel (R b) m Q) -> rel (fun s1 s2 => exists b, R b s1 s2) m Q.
Proof. intros Hm s1 s2 [b HR]. by eapply Hm. Qed.

(** An invariant of single runs can be added. *)
Lemma rel_inv {A} (m : M S A) R Q (I : S -> Prop) :
  rel R m Q -> (forall s, I s -> wp m (fun _ s' => I s') s) ->
  rel (fun s1 s2 => R s1 s2 /\ I s1) m (fun a s1 s2 => Q a s1 s2 /\ I s1).
Proof.
  intros Hm HI s1 s2 [HR H1]. specialize (Hm s1 s2 HR). destruct (HI s1 H1) as (a & t & Hrun & Ht).
  unfold sim in *. rewrite Hrun in *. destruct (m s2) as [[a2 t2]|]; [|done]. destruct Hm. auto.
Qed.
End rel.

Lemma option_Forall2_mono {A B} (R R' : A -> B -> Prop) x y :
  (forall a b, R a b -> R' a b) -> option_Forall2 R x y -> option_Forall2 R' x y.
Proof. intros HR []; constructor. auto. Qed.

(** ** Domains that differ in hidden pages *)

Definition page_eq (D : Prop) (p1 p2 : page) : Prop :=
  pg_count p1 = pg_count p2 /\ pg_tcount p1 = pg_tcount p2 /\ pg_writable p1 = pg_writable p2 /\
  (~ D -> pg_data p1 = pg_data p2).

Section low.
Context {P : Type} `{P2mOps P, !P2mLaws P}.
Implicit Types (d : domain P) (p : P) (D : Z -> Prop).

(** [d2] is [d1] but for the contents of the frames in [D]. *)
Definition differ D d1 d2 : Prop :=
  exists ps, d2 = set_pages ps d1 /\ forall mfn, option_Forall2 (page_eq (D mfn)) (d_pages d1 !! mfn) (ps !! mfn).

(** The frames behind execute-only pages. *)
Definition hidden p (mfn : Z) : Prop := exists g, (get_entry p g).2 = p2m_access_x /\ (get_entry p g).1.1 = mfn.

Definition low p D d1 d2 : Prop := d_p2m d1 = p /\ differ D d1 d2.

(** What the guest cannot tell apart. *)
Definition low_eq d1 d2 : Prop := differ (hidden (d_p2m d1)) d1 d2.

Lemma page_eq_mono (D D' : Prop) q1 q2 : (D -> D') -> page_eq D q1 q2 -> page_eq D' q1 q2.
Proof. intros HD (? & ? & ? & Hd). split_and!; [done..|]. intros Hn. apply Hd. tauto. Qed.

Lemma low_mono p D D' d1 d2 : (forall mfn, D mfn -> D' mfn) -> low p D d1 d2 -> low p D' d1 d2.
Proof.
  intros HD (Hp & ps & -> & Hps). split; [done|]. exists ps. split; [done|]. intros mfn.
  eapply option_Forall2_mono, Hps. intros q1 q2. by apply page_eq_mono, HD.
Qed.

Lemma low_eq_low p d1 d2 : low p (hidden p) d1 d2 -> low_eq d1 d2.
Proof. intros [<- Hd]. done. Qed.

Lemma rel_low_eq {A} (m : M (domain P) A) Q : (forall p, rel (low p (hidden p)) m Q) -> rel low_eq m Q.
Proof. intros Hm d1 d2 Hd. by apply (Hm (d_p2m d1)). Qed.

(** *** Computations that do not look at pages *)

Definition silent {A} (m : M (domain P) A) : Prop := forall d,
  match m d with
  | Some (a, d') => d_p2m d' = d_p2m d /\ d_pages d' = d_pages d /\
                    forall ps, m (set_pages ps d) = Some (a, set_pages ps d')
  | None => forall ps, m (set_pages ps d) = None
  end.

(** [Y] is a fact about the pages that such a computation keeps. *)
Lemma rel_silent_with {A} (m : M (domain P) A) p D (Y : gmap Z page -> Prop) : silent m ->
  rel (fun d1 d2 => low p D d1 d2 /\ Y (d_pages d1)) m (fun _ d1 d2 => low p D d1 d2 /\ Y (d_pages d1)).
Proof.
  intros Hs d1 d2 [(Hp & ps & -> & Hps) HY]. specialize (Hs d1). unfold sim. destruct (m d1) as [[a d']|].
  - destruct Hs as (Hp' & Hpg & Hs). rewrite Hs. split; [done|]. split; [|by rewrite Hpg].
    split; [congruence|]. exists ps. by rewrite Hpg.
  - by rewrite Hs.
Qed.

Lemma rel_silent {A} (m : M (domain P) A) p D : silent m -> rel (low p D) m (fun _ => low p D).
Proof. intros Hs. eapply rel_mono; [by apply (rel_silent_with _ p D (fun _ => True))|done|by intros ? ? ? [? _]]. Qed.

Lemma silent_low_eq {A} (m : M (domain P) A) : silent m -> rel low_eq m (fun _ => low_eq).
Proof. intros Hs. apply rel_low_eq. intros p. eapply rel_post; [by apply rel_silent|]. intros ? d1 d2. apply low_eq_low. Qed.

Lemma silent_p2m_lock : silent p2m_lock.
Proof. by intros []. Qed.
Lemma silent_p2m_unlock : silent p2m_unlock.
Proof. intros []. unfold p2m_unlock. cbn. by destruct (0 <? d_p2m_lock). Qed.
Lemma silent_tlb_flush : silent tlb_flush.
Proof. by intros []. Qed.
Lemma silent_xom_lock : silent xom_lock.
Proof. intros []. unfold xom_lock. cbn. by destruct d_xom_page_lock. Qed.
Lemma silent_xom_unlock : silent xom_unlock.
Proof. intros []. unfold xom_unlock. cbn. by destruct d_xom_page_lock. Qed.
Lemma silent_on_pi {A} (m : M pi_state A) : silent (on_pi m).
Proof. intros []. unfold on_pi. cbn. by destruct (m d_pi) as [[a s]|]. Qed.
End low.

Create HintDb silent.
#[export] Hint Resolve silent_p2m_lock silent_p2m_unlock silent_tlb_flush silent_xom_lock silent_xom_unlock silent_on_pi : silent.

(** ** Pages *)

Section pages.
Context {P : Type} `{P2mOps P, !P2mLaws P}.
Implicit Types (d : domain P) (p : P) (D : Z -> Prop).

Lemma differ_insert D D' d ps mfn q1 q2 :
  (forall i, option_Forall2 (page_eq (D i)) (d_pages d !! i) (ps !! i)) -> (forall i, i <> mfn -> D i -> D' i) ->
  page_eq (D' mfn) q1 q2 ->
  differ D' (set_pages (<[mfn := q1]> (d_pages d)) d) (set_pages (<[mfn := q2]> ps) (set_pages ps d)).
Proof.
  intros Hps HD Hq. exists (<[mfn := q2]> ps). split; [done|]. intros i. rewrite d_pages_set.
  destruct (decide (i = mfn)) as [->|Hi]; [rewrite !lookup_insert_eq; by constructor|].
  rewrite !lookup_insert_ne by done. eapply option_Forall2_mono, Hps. intros x y. by apply page_eq_mono, HD.
Qed.

(** An update of a page that treats pages with the same visible parts alike. *)
Lemma rel_with_page p D D' mfn f : (forall i, i <> mfn -> D i -> D' i) ->
  (forall q1 q2, page_eq (D mfn) q1 q2 -> option_Forall2 (page_eq (D' mfn)) (f q1) (f q2)) ->
  rel (low p D) (with_page mfn f) (fun _ => low p D').
Proof.
  intros HD Hf d1 d2 (Hp & ps & -> & Hps). unfold with_page, sim. rewrite d_pages_set.
  destruct (Hps mfn) as [q1 q2 Hq|]; [|done]. destruct (Hf q1 q2 Hq) as [q1' q2' Hq'|]; [|done].
  split; [done|]. split; [done|]. by eapply differ_insert.
Qed.

Lemma rel_put_page p D mfn : rel (low p D) (put_page mfn) (fun _ => low p D).
Proof.
  apply rel_with_page; [done|]. intros q1 q2 (Hc & Ht & Hw & Hd). unfold drop_ref. rewrite Hc.
  destruct (0 <? pg_count q2); constructor. by split_and!; cbn; rewrite ?Hc.
Qed.

Lemma rel_write_page p D mfn f : rel (low p D) (write_page mfn f) (fun _ => low p D).
Proof.
  apply rel_with_page; [done|]. intros q1 q2 (Hc & Ht & Hw & Hd). constructor. split_and!; [done..|].
  intros Hn. cbn. by rewrite Hd.
Qed.

(** Overwriting a page leaves nothing to hide in it. *)
Lemma rel_wipe_page p D mfn l : rel (low p D) (write_page mfn (fun _ => l)) (fun _ => low p (fun i => D i /\ i <> mfn)).
Proof.
  apply rel_with_page; [by split|]. intros q1 q2 (Hc & Ht & Hw & Hd). constructor. by split_and!.
Qed.

Lemma rel_read_page p D mfn : ~ D mfn -> rel (low p D) (read_page mfn) (fun _ => low p D).
Proof.
  intros Hn d1 d2 (Hp & ps & -> & Hps). unfold read_page, sim. rewrite d_pages_set.
  destruct (Hps mfn) as [q1 q2 (_ & _ & _ & Hd)|]; [|done]. split; [by apply Hd|]. split; [done|]. by exists ps.
Qed.

(** The page that was found is the one behind the guest frame. *)
Lemma rel_get_page_from_gfn p D g : rel (low p D) (get_page_from_gfn g) (fun r d1 d2 =>
  low p D d1 d2 /\ match r with Some mfn => mfn = (get_entry p g).1.1 /\ is_Some (d_pages d1 !! mfn) | None => True end).
Proof.
  intros d1 d2 (Hp & ps & -> & Hps). unfold get_page_from_gfn, bind, get, sim.
  change (d_p2m (set_pages ps d1)) with (d_p2m d1). rewrite Hp.
  assert (Hl : low p D d1 (set_pages ps d1)) by (split; [done|]; by exists ps).
  destruct (get_page_at p g) as [mfn|] eqn:Hg; [|done]. rewrite d_pages_set.
  destruct (get_page_at_ok _ _ _ Hg) as (_ & t & a & He). pose proof (Hps mfn) as Hq.
  destruct (d_pages d1 !! mfn) as [q1|] eqn:E1, (ps !! mfn) as [q2|] eqn:E2; inversion Hq as [? ? (Hc & Ht & Hw & Hd)|]; [subst|done].
  unfold with_page. rewrite d_pages_set, E1, E2. cbn [add_ref ret]. split; [done|]. split.
  - split; [done|]. eapply differ_insert; [done|done|]. by split_and!; cbn; rewrite ?Hc.
  - rewrite He, d_pages_set, lookup_insert_eq. by eauto.
Qed.
End pages.

(** ** The architecture *)

Section access.
Context {P : Type} `{P2mOps P, !P2mLaws P}.
Implicit Types p : P.

(** The access right of one frame was changed, or nothing was. *)
Definition access_step p p' (g a : Z) : Prop :=
  (forall g', get_entry p' g' = get_entry p g') \/
  (get_entry p' g = ((get_entry p g).1, a) /\ forall g', g' <> g -> get_entry p' g' = get_entry p g').

Lemma set_entry_step p g mfn t a0 a rc p' :
  get_entry p g = (mfn, t, a0) -> set_entry p g mfn t a = (rc, p') -> access_step p p' g a.
Proof.
  intros Hg Hs.
  assert (Hnew : get_entry p' g = (if mfn =? INVALID_MFN then (mfn, t, a0) else (mfn, t, a)) ->
    (forall g', g' <> g -> get_entry p' g' = get_entry p g') -> access_step p p' g a).
  { intros He Ho. destruct (mfn =? INVALID_MFN); [left|right; by rewrite He, Hg].
    intros g'. destruct (decide (g' = g)) as [->|]; [by rewrite He|auto]. }
  destruct (decide (rc = 0)) as [->|Hrc]; [destruct (set_entry_ok _ _ _ _ _ _ _ Hg Hs); auto|].
  destruct (set_entry_err _ _ _ _ _ _ _ _ Hg Hs Hrc) as [_ [?|[? ?]]]; [by left|auto].
Qed.

Lemma hidden_seal p p' g mfn : access_step p p' g p2m_access_x -> hidden p mfn -> hidden p' mfn.
Proof.
  intros Hs (c & Hx & Hm). exists c. destruct Hs as [Hs|[Hg Hs]]; [by rewrite Hs|].
  destruct (decide (c = g)) as [->|Hc]; [|by rewrite Hs]. by rewrite Hg.
Qed.

Lemma hidden_open p p' g a mfn : access_step p p' g a -> hidden p mfn -> mfn <> (get_entry p g).1.1 -> hidden p' mfn.
Proof.
  intros Hs (c & Hx & Hm) Hne. exists c. destruct Hs as [Hs|[Hg Hs]]; [by rewrite Hs|].
  destruct (decide (c = g)) as [->|Hc]; [congruence|by rewrite Hs].
Qed.
End access.

(** What noninterference needs of the architecture. *)
Class ArchRel (P : Type) `{P2mOps P} `{!Arch P} := {
  rel_get_page_type : forall (p : P) D mfn, rel (low p D) (get_page_type mfn) (fun _ => low p D);
  rel_put_page_and_type : forall (p : P) D mfn, rel (low p D) (put_page_and_type mfn) (fun _ => low p D);
  rel_set_access : forall (p : P) D a g, rel (low p D) (p2m_set_mem_access_single a g)
    (fun _ d1 d2 => exists p', access_step p p' g a /\ low p' D d1 d2)
}.

(** ** The code that both architectures share *)

(** The guest cannot tell apart what [m] returns and leaves. *)
Abbreviation keeps m := (rel low_eq m (fun _ => low_eq)).

Ltac keeps_silent := apply silent_low_eq; auto with silent.

Section shared.
Context {P : Type} `{P2mOps P, !P2mLaws P} `{!Arch P, !ArchRel P}.
Implicit Types p : P.

Lemma rel_gets_p2m_with p D (Y : gmap Z page -> Prop) :
  rel (fun d1 d2 => low p D d1 d2 /\ Y (d_pages d1)) (gets d_p2m)
    (fun q d1 d2 => q = p /\ low p D d1 d2 /\ Y (d_pages d1)).
Proof. intros d1 d2 [(Hp & ps & -> & Hps) HY]. split; [done|]. split; [done|]. split; [|done]. split; [done|]. by exists ps. Qed.

Lemma rel_gets_p2m p D : rel (low p D) (gets d_p2m) (fun q d1 d2 => q = p /\ low p D d1 d2).
Proof. eapply rel_mono; [apply (rel_gets_p2m_with p D (fun _ => True))|done|]. by intros q d1 d2 (? & ? & _). Qed.

Lemma keeps_bind {A B} (m : M (domain P) A) (k : A -> M (domain P) B) : keeps m -> (forall a, keeps (k a)) -> keeps (bind m k).
Proof. intros Hm Hk. by eapply rel_bind. Qed.

Lemma keeps_ret {A} (a : A) : keeps (ret a).
Proof. by apply rel_ret. Qed.

(** Code that depends on the p2m table. *)
Lemma keeps_p2m {A} (k : P -> M (domain P) A) : (forall p, rel (low p (hidden p)) (k p) (fun _ => low_eq)) -> keeps (let! p := gets d_p2m in k p).
Proof.
  intros Hk. apply rel_low_eq. intros p. eapply rel_bind; [apply rel_gets_p2m|]. intros q.
  apply (rel_pure _ _ (q = p)); [by intros ? ? [? _]|]. intros ->. eapply rel_mono; [apply Hk|by intros ? ? [_ ?]|done].
Qed.

Lemma keeps_low {A} (m : M (domain P) A) p : keeps m -> rel (low p (hidden p)) m (fun _ => low_eq).
Proof. intros Hm. eapply rel_mono; [exact Hm|apply low_eq_low|done]. Qed.

Lemma keeps_seal g : keeps (p2m_set_mem_access_single p2m_access_x g).
Proof.
  apply rel_low_eq. intros p. eapply rel_post; [apply rel_set_access|]. intros _ d1 d2 (p' & Hs & Hl).
  eapply low_eq_low, low_mono, Hl. intros mfn. by eapply hidden_seal.
Qed.

(** A page that was wiped may be opened. *)
Lemma rel_open p g : rel (low p (fun i => hidden p i /\ i <> (get_entry p g).1.1))
  (p2m_set_mem_access_single p2m_access_rwx g) (fun _ => low_eq).
Proof.
  eapply rel_post; [apply rel_set_access|]. intros _ d1 d2 (p' & Hs & Hl).
  eapply low_eq_low, low_mono, Hl. intros mfn [Hh Hne]. by eapply hidden_open.
Qed.

Lemma keeps_clear_page a g : keeps (clear_page a g).
Proof.
  unfold clear_page. destruct (negb _); [apply keeps_ret|]. apply rel_low_eq. intros p.
  destruct (get_entry p g) as [[mfn t] a'] eqn:Hg. eapply rel_bind; [apply rel_get_page_from_gfn|]. intros [mfn'|]; cbn beta iota.
  2:{ apply rel_ret. intros d1 d2 [Hl _]. by eapply low_eq_low. }
  apply (rel_pure _ _ (mfn' = mfn)); [intros ? ? (_ & Hm & _); by rewrite Hg in Hm|]. intros ->.
  apply (rel_pre _ _ (low p (hidden p))); [|by intros ? ? [? _]].
  eapply rel_bind; [apply rel_get_page_type|]. intros []; cbn [negb].
  2:{ eapply rel_bind; [apply rel_put_page|]. intros []. apply rel_ret. apply low_eq_low. }
  eapply rel_bind; [apply rel_wipe_page|]. intros [].
  eapply rel_bind; [apply rel_put_page_and_type|]. intros [].
  eapply (rel_bind _ _ _ (fun _ => low_eq)); [|intros rc; apply keeps_ret].
  pose proof (rel_open p g) as Ho. by rewrite Hg in Ho.
Qed.

Lemma keeps_drop_page_infos g : keeps (drop_page_infos g).
Proof. apply keeps_bind; [|intros []]; keeps_silent. Qed.

Lemma keeps_write_page mfn f : keeps (write_page mfn f).
Proof. apply rel_low_eq. intros p. eapply rel_post; [apply rel_write_page|]. intros ?. apply low_eq_low. Qed.

Lemma keeps_put_page mfn : keeps (put_page mfn).
Proof. apply rel_low_eq. intros p. eapply rel_post; [apply rel_put_page|]. intros ?. apply low_eq_low. Qed.

Lemma keeps_execute_infos mfn i l : keeps (execute_infos mfn i l).
Proof.
  induction l as [|w l IH]; cbn [execute_infos]; [apply keeps_ret|]. apply keeps_bind; [apply keeps_write_page|]. intros [].
  apply keeps_bind; [keeps_silent|]. intros e.
  apply keeps_bind; [keeps_silent|]. by intros [].
Qed.

Lemma keeps_execute_command g i l : keeps (execute_command g i l).
Proof.
  apply rel_low_eq. intros p. eapply rel_bind; [apply rel_get_page_from_gfn|]. intros [mfn|]; cbn beta iota.
  2:{ apply rel_ret. intros d1 d2 [Hl _]. by eapply low_eq_low. }
  apply (rel_pre _ _ (low p (hidden p))); [|by intros ? ? [? _]].
  eapply rel_bind; [apply rel_get_page_type|]. intros []; cbn [negb].
  - apply keeps_low, keeps_bind; [apply keeps_execute_infos|]. intros []. apply keeps_bind; [|intros []; apply keeps_ret].
    apply rel_low_eq. intros q. eapply rel_post; [apply rel_put_page_and_type|]. intros []. apply low_eq_low.
  - eapply rel_bind; [apply rel_put_page|]. intros []. apply rel_ret, low_eq_low.
Qed.

(** The command must not come from a hidden page. *)
Lemma rel_fetch_visible p g : ~ hidden p (get_entry p g).1.1 ->
  rel (low p (hidden p)) (fetch_command g) (fun _ => low p (hidden p)).
Proof.
  intros Hn. eapply rel_bind; [apply rel_get_page_from_gfn|]. intros [mfn|]; cbn beta iota.
  2:{ apply rel_ret. by intros d1 d2 [Hl _]. }
  apply (rel_pure _ _ (mfn = (get_entry p g).1.1)); [by intros ? ? (_ & Hm & _)|]. intros ->.
  apply (rel_pre _ _ (low p (hidden p))); [|by intros ? ? [? _]].
  eapply rel_bind; [by apply rel_read_page|]. intros l. by apply rel_ret.
Qed.

(** The frame behind [g], if there is one, is not hidden. *)
Definition visible p (g : Z) (ps : gmap Z page) : Prop :=
  is_Some (ps !! (get_entry p g).1.1) -> ~ hidden p (get_entry p g).1.1.

Lemma rel_fetch_command p g :
  rel (fun d1 d2 => low p (hidden p) d1 d2 /\ visible p g (d_pages d1)) (fetch_command g) (fun _ => low p (hidden p)).
Proof.
  intros d1 d2 [Hl Hv]. unfold visible in Hv. destruct (d_pages d1 !! _) as [q|] eqn:E; [apply rel_fetch_visible; [by apply Hv; eexists|done]|].
  destruct Hl as (Hp & ps & -> & Hps). unfold fetch_command, get_page_from_gfn, bind, get, sim.
  change (d_p2m (set_pages ps d1)) with (d_p2m d1). rewrite d_pages_set, Hp.
  assert (Hl : low p (hidden p) d1 (set_pages ps d1)) by (split; [done|]; by exists ps).
  destruct (get_page_at p g) as [mfn|] eqn:Hg; [|done]. destruct (get_page_at_ok _ _ _ Hg) as (_ & t & a & He).
  rewrite He in E. cbn in E. specialize (Hps mfn). rewrite E in *. by inversion Hps.
Qed.

Lemma keeps_mark_reg_clear_page `{Xmalloc} a g t : keeps (mark_reg_clear_page a g t).
Proof.
  unfold mark_reg_clear_page. destruct (_ || _); [apply keeps_ret|].
  apply keeps_bind; [keeps_silent|]. intros i. destruct (negb _); [apply keeps_ret|].
  apply keeps_bind; [keeps_silent|]. intros []. apply keeps_p2m. intros p.
  apply keeps_low, keeps_bind; [keeps_silent|]. intros [].
  destruct (negb _); [apply keeps_ret|]. apply keeps_bind; [keeps_silent|]. intros e.
  destruct (_ =? NULL); apply keeps_ret.
Qed.
End shared.
