(* ===== verification/XomNoninterference.v ===== *)
(** * Noninterference of the hypercall

    On both architectures an operation does the same to two domains that
    differ in the contents of execute-only pages only, as long as it does not
    read its command from an execute-only page. *)

From S2P Require Import Prelude RbTree RbSpec RbHeap PageInfo XomDomain XomSpec XomRel XomSeal XomSealArm XomGuest.

(** ** The architectures *)

Section instances.
Context {P : Type} `{P2mOps P, !P2mLaws P}.

Lemma low_set_p2m (p : P) D p' (s1 s2 : gset Z) d1 d2 : low p D d1 d2 -> s1 = s2 -> low p' D (set_p2m p' s1 d1) (set_p2m p' s2 d2).
Proof. intros (Hp & ps & -> & Hps) ->. split; [done|]. by exists ps. Qed.

Lemma rel_update_access (p : P) D a g mfn t a0 : get_entry p g = (mfn, t, a0) ->
  rel (low p D) (let! d := get in
                 let '(rc, p') := set_entry (d_p2m d) g mfn t a in
                 do! modify (set_p2m p' ({[g]} ∪ d_stale d)) in ret rc)
    (fun _ d1 d2 => exists p', access_step p p' g a /\ low p' D d1 d2).
Proof.
  intros Hg d1 d2 Hl. unfold bind, get. destruct Hl as (Hp & ps & -> & Hps) eqn:E.
  change (d_p2m (set_pages ps d1)) with (d_p2m d1). rewrite Hp. destruct (set_entry p g mfn t a) as [rc p'] eqn:Hs.
  split; [done|]. exists p'. split; [by eapply set_entry_step|]. eapply low_set_p2m; [exact Hl|done].
Qed.

Lemma x86_rel_get_page_type (p : P) D mfn : rel (low p D) (x86_get_page_type mfn) (fun _ => low p D).
Proof.
  intros d1 d2 (Hp & ps & -> & Hps). unfold x86_get_page_type, bind, get. rewrite d_pages_set. pose proof (Hps mfn) as Hq.
  destruct (d_pages d1 !! mfn) as [q1|] eqn:E1, (ps !! mfn) as [q2|] eqn:E2; inversion Hq as [? ? (Hc & Ht & Hw & Hd)|]; [subst|done].
  rewrite Ht, Hw. destruct (_ || _).
  - unfold with_page. rewrite d_pages_set, E1, E2. split; [done|]. split; [done|].
    eapply differ_insert; [done|done|]. by split_and!; cbn; rewrite ?Ht.
  - split; [done|]. split; [done|]. by exists ps.
Qed.

Lemma x86_rel_put_page_and_type (p : P) D mfn : rel (low p D) (x86_put_page_and_type mfn) (fun _ => low p D).
Proof.
  apply (rel_bind _ _ _ (fun _ => low p D)); [|intros []; apply rel_put_page]. apply rel_with_page; [done|].
  intros q1 q2 (Hc & Ht & Hw & Hd). rewrite Ht. destruct (0 <? pg_tcount q2); constructor. by split_and!; cbn; rewrite ?Ht.
Qed.

Lemma x86_rel_set_access (p : P) D a g : rel (low p D) (set_mem_access a g)
  (fun _ d1 d2 => exists p', access_step p p' g a /\ low p' D d1 d2).
Proof.
  destruct (get_entry p g) as [[mfn t] a0] eqn:Hg. intros d1 d2 Hl.
  pose proof (rel_update_access p D a g mfn t a0 Hg d1 d2 Hl) as Hr. destruct Hl as (Hp & ps & -> & Hps).
  unfold set_mem_access, bind, get in *. change (d_p2m (set_pages ps d1)) with (d_p2m d1) in *. by rewrite Hp, Hg in *.
Qed.

#[export] Instance x86_rel : @ArchRel P _ x86_arch.
Proof. split; [apply x86_rel_get_page_type|apply x86_rel_put_page_and_type|apply x86_rel_set_access]. Qed.

Lemma arm_rel_set_access (p : P) D a g : rel (low p D) (arm_set_mem_access a g)
  (fun _ d1 d2 => exists p', access_step p p' g a /\ low p' D d1 d2).
Proof.
  destruct (get_entry p g) as [[mfn t] a0] eqn:Hg. intros d1 d2 Hl.
  pose proof (rel_update_access p D a g mfn t a0 Hg d1 d2 Hl) as Hr. pose proof Hl as (Hp & ps & -> & Hps).
  unfold arm_set_mem_access, bind, get in *. change (d_p2m (set_pages ps d1)) with (d_p2m d1) in *.
  change (d_p2m_lock (set_pages ps d1)) with (d_p2m_lock d1). rewrite Hp in *. rewrite Hg.
  destruct (negb _); [done|]. destruct (_ || _); [|done]. split; [done|]. exists p. by split; [left|].
Qed.

#[export] Instance arm_rel : @ArchRel P _ arm_arch.
Proof. split; [|intros p D mfn; apply rel_put_page|apply arm_rel_set_access]. intros p D mfn. by apply rel_ret. Qed.
End instances.

(** ** Operations under the lock *)

Section locked_op.
Context {P : Type} `{P2mOps P, !P2mLaws P}.
Implicit Types d : domain P.

(** The source of a write command is not execute-only. *)
Definition source_visible d (op : mmuext_op) : Prop := cmd op = MMUEXT_WRITE_XOM_SPAGES -> ~ sealed d (arg2 op).

Lemma unsealed_visible d g : frame_inj d -> ~ sealed d g -> visible (d_p2m d) g (d_pages d).
Proof.
  intros Hinj Hn Hpg (c & Hx & Hm). apply Hn. assert (g = c) as -> by (by apply (Hinj g c)). exact Hx.
Qed.

Definition op_low p (op : mmuext_op) d1 d2 : Prop :=
  low p (hidden p) d1 d2 /\ (cmd op = MMUEXT_WRITE_XOM_SPAGES -> visible p (arg2 op) (d_pages d1)).

Lemma keeps_op_low {A} p op (m : M (domain P) A) : keeps m -> rel (op_low p op) m (fun _ => low_eq).
Proof. intros Hm. eapply rel_pre; [exact Hm|]. intros d1 d2 [Hl _]. by eapply low_eq_low. Qed.

Lemma rel_locked_op op (m : M (domain P) Z) : (forall p, rel (op_low p op) m (fun _ => low_eq)) ->
  rel (fun d1 d2 => low_eq d1 d2 /\ frame_inj d1 /\ source_visible d1 op)
    (do! xom_lock in let! rc := m in do! xom_unlock in ret rc) (fun _ => low_eq).
Proof.
  intros Hm d1 d2 (Hl & Hinj & Hv). set (p := d_p2m d1). eapply (rel_bind _ _ (op_low p op)).
  - apply (rel_silent_with xom_lock p _ (fun ps => _ -> visible p (arg2 op) ps)); auto with silent.
  - intros []. eapply rel_bind; [apply Hm|]. intros rc. apply keeps_bind; [keeps_silent|]. intros []. apply keeps_ret.
  - split; [done|]. intros Hw. by apply unsealed_visible, Hv.
Qed.
End locked_op.

(** ** The operations on x86 *)

Section x86.
Context {P : Type} `{P2mOps P, !P2mLaws P} `{Xmalloc}.
Implicit Types d : domain P.

Lemma keeps_set_xom_loop n : forall g rc, keeps (set_xom_loop (P := P) n g rc).
Proof.
  induction n as [|n IH]; intros g rc; cbn [set_xom_loop]; [apply keeps_ret|].
  apply keeps_bind; [keeps_silent|]. intros []. apply keeps_bind; [apply keeps_seal|]. intros rc'.
  apply keeps_bind; [keeps_silent|]. intros []. destruct (rc' <? 0); [apply keeps_ret|apply IH].
Qed.

Lemma keeps_clear_xom_loop n : forall g rc, keeps (clear_xom_loop (P := P) n g rc).
Proof.
  induction n as [|n IH]; intros g rc; cbn [clear_xom_loop]; [apply keeps_ret|].
  apply keeps_bind; [keeps_silent|]. intros []. apply keeps_p2m. intros p. apply keeps_low.
  destruct (get_entry p g) as [[mfn t] a]. apply keeps_bind; [apply keeps_clear_page|]. intros r.
  apply keeps_bind; [keeps_silent|]. intros []. destruct r as [|rc'|rc']; [apply IH|apply keeps_ret|].
  apply keeps_bind; [apply keeps_drop_page_infos|]. intros []. apply IH.
Qed.

Lemma keeps_create_loop n : forall g rc, keeps (create_loop (P := P) n g rc).
Proof.
  induction n as [|n IH]; intros g rc; cbn [create_loop]; [apply keeps_ret|].
  apply keeps_bind; [keeps_silent|]. intros []. apply keeps_p2m. intros p. apply keeps_low.
  destruct (get_entry p g) as [[mfn t] a]. destruct (a =? p2m_access_x).
  { apply keeps_bind; [keeps_silent|]. intros []. apply keeps_ret. }
  apply keeps_bind; [apply keeps_seal|]. intros rc'. apply keeps_bind; [keeps_silent|]. intros [].
  apply keeps_bind; [keeps_silent|]. intros i. destruct (i =? NULL); [apply keeps_ret|apply IH].
Qed.

(** The frame of the three operations on a range. *)
Lemma keeps_range (loop : M (domain P) Z) (b : P -> bool) (c : bool) e1 e2 : keeps loop ->
  keeps (let! p := gets d_p2m in
         if c then ret e1 else if b p then ret e2 else let! rc := loop in do! tlb_flush in ret rc).
Proof.
  intros Hl. apply keeps_p2m. intros p. apply keeps_low. destruct c; [apply keeps_ret|]. destruct (b p); [apply keeps_ret|].
  apply keeps_bind; [done|]. intros rc. apply keeps_bind; [keeps_silent|]. intros []. apply keeps_ret.
Qed.

Lemma rel_write_into_subpage p g src :
  rel (fun d1 d2 => low p (hidden p) d1 d2 /\ visible p src (d_pages d1)) (write_into_subpage g src) (fun _ => low_eq).
Proof.
  unfold write_into_subpage. eapply rel_bind; [apply rel_silent_with; auto with silent|]. intros i.
  destruct (i =? NULL); [apply rel_ret; intros ? ? [? _]; by eapply low_eq_low|].
  eapply rel_bind; [apply rel_gets_p2m_with|]. intros q. apply (rel_pure _ _ (q = p)); [by intros ? ? [? _]|]. intros ->.
  apply (rel_pre _ _ (fun d1 d2 => low p (hidden p) d1 d2 /\ visible p src (d_pages d1))); [|by intros ? ? [_ ?]].
  destruct (_ <? src); [apply rel_ret; intros ? ? [? _]; by eapply low_eq_low|].
  eapply rel_bind; [apply rel_silent_with; auto with silent|]. intros [].
  eapply rel_bind; [apply rel_fetch_command|]. intros c. apply keeps_low.
  apply keeps_bind; [keeps_silent|]. intros []. destruct c as [[mfn c]|]; [|apply keeps_ret].
  apply keeps_bind; [apply keeps_put_page|]. intros []. destruct (_ <? num_subpages c); [apply keeps_ret|]. apply keeps_bind; [keeps_silent|]. intros e.
  destruct (negb _); [apply keeps_ret|]. apply keeps_bind; [keeps_silent|]. intros [].
  apply keeps_bind; [apply keeps_execute_command|]. intros rc. apply keeps_bind; [keeps_silent|]. intros []. apply keeps_ret.
Qed.

Lemma rel_xom_dispatch p op :
  rel (op_low p op) (xom_dispatch op) (fun _ => low_eq).
Proof.
  unfold xom_dispatch.
  destruct (_ =? MMUEXT_MARK_XOM); [apply keeps_op_low, keeps_range, keeps_set_xom_loop|].
  destruct (_ =? MMUEXT_UNMARK_XOM); [apply keeps_op_low, keeps_range, keeps_clear_xom_loop|].
  destruct (_ =? MMUEXT_CREATE_XOM_SPAGES); [apply keeps_op_low, keeps_range, keeps_create_loop|].
  destruct (Z.eqb_spec (cmd op) MMUEXT_WRITE_XOM_SPAGES) as [Hw|].
  { eapply rel_pre; [apply rel_write_into_subpage|]. intros d1 d2 [Hl Hv]. split; [done|by apply Hv]. }
  destruct (_ =? MMUEXT_MARK_REG_CLEAR); apply keeps_op_low; [apply keeps_mark_reg_clear_page|apply keeps_ret].
Qed.

Lemma rel_xom_op op :
  rel (fun d1 d2 => low_eq d1 d2 /\ frame_inj d1 /\ source_visible d1 op) (xom_op op) (fun _ => low_eq).
Proof. apply rel_locked_op. intros p. apply rel_xom_dispatch. Qed.
End x86.

(** ** The operations on Arm *)

Section arm.
Context {P : Type} `{P2mOps P, !P2mLaws P} `{Xmalloc}.
Implicit Types d : domain P.

Lemma keeps_arm_set_loop n : forall g rc, keeps (arm_set_loop (P := P) n g rc).
Proof.
  induction n as [|n IH]; intros g rc; cbn [arm_set_loop]; [apply keeps_ret|].
  apply keeps_bind; [apply keeps_seal|]. intros rc'. destruct (rc' <? 0); [apply keeps_ret|apply IH].
Qed.

Lemma keeps_arm_clear_loop n : forall a g rc, keeps (arm_clear_loop (P := P) a n g rc).
Proof.
  induction n as [|n IH]; intros a g rc; cbn [arm_clear_loop]; [apply keeps_ret|].
  apply keeps_p2m. intros p. apply keeps_low, keeps_bind; [apply keeps_clear_page|]. intros [|rc'|rc']; [apply IH|apply keeps_ret|].
  destruct (rc' <? 0); [apply keeps_ret|]. apply keeps_bind; [apply keeps_drop_page_infos|]. intros []. apply IH.
Qed.

Lemma keeps_arm_create_loop n : forall a g rc, keeps (arm_create_loop (P := P) a n g rc).
Proof.
  induction n as [|n IH]; intros a g rc; cbn [arm_create_loop]; [apply keeps_ret|].
  apply keeps_p2m. intros p. apply keeps_low. destruct (_ =? p2m_access_x); [apply keeps_ret|]. apply keeps_bind; [apply keeps_seal|]. intros rc'.
  destruct (rc' <? 0); [apply keeps_ret|]. apply keeps_bind; [keeps_silent|]. intros i.
  destruct (i =? NULL); [apply keeps_ret|apply IH].
Qed.

Lemma keeps_arm_range (loop : M (domain P) Z) (b : P -> bool) (c : bool) e1 e2 : keeps loop ->
  keeps (let! p := gets d_p2m in
         if c then ret e1 else if b p then ret e2
         else do! p2m_lock in let! rc := loop in do! tlb_flush in do! p2m_unlock in ret rc).
Proof.
  intros Hl. apply keeps_p2m. intros p. apply keeps_low. destruct c; [apply keeps_ret|]. destruct (b p); [apply keeps_ret|].
  apply keeps_bind; [keeps_silent|]. intros []. apply keeps_bind; [done|]. intros rc.
  apply keeps_bind; [keeps_silent|]. intros []. apply keeps_bind; [keeps_silent|]. intros []. apply keeps_ret.
Qed.

Lemma rel_arm_write_into_subpage p g src :
  rel (fun d1 d2 => low p (hidden p) d1 d2 /\ visible p src (d_pages d1)) (arm_write_into_subpage g src) (fun _ => low_eq).
Proof.
  unfold arm_write_into_subpage. eapply rel_bind; [apply rel_silent_with; auto with silent|]. intros i.
  destruct (i =? NULL); [apply rel_ret; intros ? ? [? _]; by eapply low_eq_low|].
  eapply rel_bind; [apply rel_gets_p2m_with|]. intros q. apply (rel_pure _ _ (q = p)); [by intros ? ? [? _]|]. intros ->.
  apply (rel_pre _ _ (fun d1 d2 => low p (hidden p) d1 d2 /\ visible p src (d_pages d1))); [|by intros ? ? [_ ?]].
  destruct (_ <? src); [apply rel_ret; intros ? ? [? _]; by eapply low_eq_low|].
  eapply rel_bind; [apply rel_fetch_command|]. intros [[mfn c]|]; apply keeps_low; [|apply keeps_ret].
  apply keeps_bind; [apply keeps_put_page|]. intros []. destruct (_ <? num_subpages c); [apply keeps_ret|]. apply keeps_bind; [keeps_silent|]. intros e.
  destruct (negb _); [apply keeps_ret|]. apply keeps_execute_command.
Qed.

Lemma rel_arm_xom_dispatch p junk op :
  rel (op_low p op) (arm_xom_dispatch junk op) (fun _ => low_eq).
Proof.
  unfold arm_xom_dispatch.
  destruct (_ =? MMUEXT_MARK_XOM); [apply keeps_op_low, keeps_arm_range, keeps_arm_set_loop|].
  destruct (_ =? MMUEXT_UNMARK_XOM); [apply keeps_op_low, keeps_arm_range, keeps_arm_clear_loop|].
  destruct (_ =? MMUEXT_CREATE_XOM_SPAGES); [apply keeps_op_low, keeps_arm_range, keeps_arm_create_loop|].
  destruct (Z.eqb_spec (cmd op) MMUEXT_WRITE_XOM_SPAGES) as [Hw|].
  { eapply rel_pre; [apply rel_arm_write_into_subpage|]. intros d1 d2 [Hl Hv]. split; [done|by apply Hv]. }
  destruct (_ =? MMUEXT_MARK_REG_CLEAR); apply keeps_op_low; [apply keeps_mark_reg_clear_page|apply keeps_ret].
Qed.

Lemma rel_arm_xom_op junk op :
  rel (fun d1 d2 => low_eq d1 d2 /\ frame_inj d1 /\ source_visible d1 op) (arm_xom_op junk op) (fun _ => low_eq).
Proof. apply rel_locked_op. intros p. apply rel_arm_xom_dispatch. Qed.
End arm.
