(* ===== verification/GuestCopySpec.v ===== *)
(** * What the copies do

    A copy from the guest leaves the domain as it is; a copy to the guest keeps
    its invariant.  Two domains that differ in execute-only pages give the same
    copy if none of the bytes is in such a page, and a copy to the guest does
    the same to both wherever it goes. *)

From S2P Require Import Prelude RbTree RbSpec RbHeap PageInfo PageInfoSpec XomDomain XomSpec XomRel XomSeal XomSealArm P2mTypes GuestCopy XomGuest XomNoninterference.

Section spec.
Context {P : Type} `{P2mOps P, !P2mLaws P}.
Implicit Types (d : domain P) (env : copy_env).

(** ** The invariant of a running guest *)

Definition guest_inv d : Prop := (exists m, dom_inv d m) /\ d_xom_page_lock d = false /\ frame_inj d.

Lemma guest_inv_wf d mfn pg : guest_inv d -> d_pages d !! mfn = Some pg -> page_wf pg.
Proof. intros ([m Hm] & _). apply Hm. Qed.

(** Replacing a page keeps the invariant. *)
Lemma guest_inv_page d mfn pg pg' :
  guest_inv d -> d_pages d !! mfn = Some pg -> page_wf pg' -> guest_inv (set_pages (<[mfn := pg']> (d_pages d)) d).
Proof.
  intros ([m Hm] & Hlk & Hinj) Hpg Hwf. split_and!; [exists m|done|].
  - destruct Hm as [Hpi Hpages Hlock Hiv Hwords Hmarks]. split; try done.
    + intros i q. cbn. intros [[<- <-]|[Hne Hq]]%lookup_insert_Some; [done|by eapply Hpages].
    + cbn. rewrite lookup_insert_ne; [done|congruence].
  - intros g1 g2. cbn. change (frame_of (set_pages _ d)) with (frame_of d). intros Hs. apply Hinj.
    destruct (decide (frame_of d g1 = mfn)) as [->|Hne]; [by eexists|]. by rewrite lookup_insert_ne in Hs.
Qed.

Lemma write_page_inv mfn f d pg : guest_inv d -> d_pages d !! mfn = Some pg -> (forall l, bytes_wf l -> bytes_wf (f l)) ->
  wp (write_page mfn f) (fun _ d' => guest_inv d') d.
Proof.
  intros Hg Hpg Hf. eapply wp_with_page; [done|done|]. eapply guest_inv_page; [done..|].
  destruct (guest_inv_wf _ _ _ Hg Hpg) as (Hb & Hc & Ht). split_and!; [by apply Hf|done|done].
Qed.

Lemma splice_wf off bytes l :
  (off + length bytes <= Z.to_nat PAGE_SIZE)%nat -> Forall (fun b => 0 <= b < 256) bytes -> bytes_wf l ->
  bytes_wf (splice off bytes l).
Proof. intros Hlen Hx [Hl Hb]. split; [rewrite splice_length; lia|by apply splice_bytes]. Qed.

(** ** One page *)

Lemma hvm_translate_spec env addr pfec d :
  guest_inv d ->
  wp (hvm_translate_get_page env addr pfec)
     (fun r d' => match r with
        | inl _ => d' = d
        | inr (mfn, gfn, _) => exists pg, gfn = (paging_gva_to_gfn env pfec addr).1 /\ mfn = frame_of d gfn /\
            d_pages d !! mfn = Some pg /\ d' = set_pages (<[mfn := ref1 pg]> (d_pages d)) d
        end) d.
Proof.
  intros Hg. unfold hvm_translate_get_page. destruct (paging_gva_to_gfn env pfec addr) as [gfn pf].
  destruct (_ =? _); [by apply wp_ret|]. destruct (hvm_mmio_internal _ _); [by apply wp_ret|].
  apply wp_bind, wp_get_page_from_gfn; [by apply wp_ret|]. intros pg _ Hpg.
  apply wp_bind, wp_gets. cbn [d_p2m set_pages]. destruct (get_entry (d_p2m d) gfn) as [[mfn t] a] eqn:He.
  assert (wp (put_page (frame_of d gfn)) (fun _ d' => d' = d) (set_pages (<[frame_of d gfn := ref1 pg]> (d_pages d)) d)) as Hput
    by (apply wp_put_page; [done|by eapply guest_inv_wf|done]).
  destruct (p2m_is_paging t); [|destruct (p2m_is_shared t); [|destruct (p2m_is_grant t)]].
  1, 2, 3: apply wp_bind; (eapply wp_mono; [exact Hput|]); intros [] ? ->; by apply wp_ret.
  apply wp_ret. eauto.
Qed.

Lemma copy_page_from_spec env pfec addr count off buf d :
  guest_inv d -> (off + count <= length buf)%nat ->
  wp (hvm_copy_page env false pfec addr count off buf) (fun r d' => d' = d /\ length r.2 = length buf) d.
Proof.
  intros Hg Hlen. unfold hvm_copy_page. apply wp_bind. eapply wp_mono; [by apply hvm_translate_spec|].
  intros [res|[[mfn gfn] t]] d'; [intros ->; by apply wp_ret|]. intros (pg & _ & -> & Hpg & ->). cbn [andb negb].
  apply wp_bind, wp_bind. eexists _, _. split.
  { unfold read_page. rewrite d_pages_set, lookup_insert_eq. done. }
  apply wp_ret, wp_bind, wp_put_page; [done|by eapply guest_inv_wf|]. apply wp_ret. split; [done|]. cbn.
  apply splice_length. rewrite length_take. lia.
Qed.

Lemma chunk_bounds addr size : (0 < size)%nat -> (0 < chunk addr size <= size)%nat.
Proof.
  unfold chunk. change (PAGE_SIZE - 1) with (Z.ones 12). rewrite Z.land_ones by lia.
  pose proof (Z.mod_pos_bound addr (2 ^ 12) ltac:(lia)). change PAGE_SIZE with 4096. lia.
Qed.

Lemma chunk_page addr size :
  (Z.to_nat (Z.land addr (PAGE_SIZE - 1)) + chunk addr size <= Z.to_nat PAGE_SIZE)%nat.
Proof.
  unfold chunk. change (PAGE_SIZE - 1) with (Z.ones 12). rewrite Z.land_ones by lia.
  pose proof (Z.mod_pos_bound addr (2 ^ 12) ltac:(lia)). change PAGE_SIZE with 4096. lia.
Qed.

Lemma copy_page_to_spec env pfec addr size off buf d :
  guest_inv d -> Forall (fun b => 0 <= b < 256) buf ->
  wp (hvm_copy_page env true pfec addr (chunk addr size) off buf) (fun r d' => guest_inv d' /\ r.2 = buf) d.
Proof.
  intros Hg Hbuf. unfold hvm_copy_page. apply wp_bind. eapply wp_mono; [by apply hvm_translate_spec|].
  intros [res|[[mfn gfn] t]] d'; [intros ->; by apply wp_ret|]. intros (pg & _ & -> & Hpg & ->). cbn [andb negb].
  assert (page_wf pg) as Hwf by (by eapply guest_inv_wf). destruct Hwf as (Hb & Hc & Ht).
  destruct (t =? p2m_ioreq_server).
  { apply wp_bind, wp_put_page; [done|done|]. by apply wp_ret. }
  apply wp_bind. destruct (p2m_is_discard_write t); cbn [negb].
  { apply wp_ret, wp_bind, wp_put_page; [done|done|]. by apply wp_ret. }
  apply wp_bind. eapply wp_with_page; [apply lookup_insert_eq|done|]. apply wp_ret, wp_bind.
  rewrite d_pages_set, set_pages_set, insert_insert_eq.
  eapply wp_with_page; [rewrite d_pages_set; apply lookup_insert_eq| |].
  { unfold drop_ref. cbn. destruct (0 <? pg_count pg + 1) eqn:?; [done|lia]. }
  rewrite d_pages_set, set_pages_set, insert_insert_eq. apply wp_ret. split; [|done].
  eapply guest_inv_page; [done..|]. split_and!; [|cbn; lia|done]. cbn [pg_data ref1].
  apply splice_wf; [|by apply Forall_take, Forall_drop|done].
  rewrite length_take. pose proof (chunk_page addr size). lia.
Qed.

(** ** The whole copy *)

Lemma copy_from_spec fuel env pfec addr off buf d :
  guest_inv d -> (length buf - off <= fuel)%nat ->
  wp (hvm_copy_loop fuel env false pfec addr off buf) (fun _ d' => d' = d) d.
Proof.
  intros Hg. revert addr off buf. induction fuel as [|fuel IH]; intros addr off buf Hf; cbn [hvm_copy_loop];
    (destruct (Nat.leb_spec (length buf) off); [by apply wp_ret|]); [lia|].
  pose proof (chunk_bounds addr (length buf - off) ltac:(lia)).
  apply wp_bind. eapply wp_mono; [apply copy_page_from_spec; [done|lia]|]. intros [res buf'] d' [-> Hl]. cbn in Hl.
  destruct res; try by apply wp_ret. apply IH. lia.
Qed.

Lemma copy_to_spec fuel env pfec addr off buf d :
  guest_inv d -> Forall (fun b => 0 <= b < 256) buf -> (length buf - off <= fuel)%nat ->
  wp (hvm_copy_loop fuel env true pfec addr off buf) (fun _ d' => guest_inv d') d.
Proof.
  intros Hg Hb. revert addr off d Hg. induction fuel as [|fuel IH]; intros addr off d Hg Hf; cbn [hvm_copy_loop];
    (destruct (Nat.leb_spec (length buf) off); [by apply wp_ret|]); [lia|].
  pose proof (chunk_bounds addr (length buf - off) ltac:(lia)).
  apply wp_bind. eapply wp_mono; [by apply copy_page_to_spec|]. intros [res buf'] d' [Hg' Hl]. cbn in Hl. subst buf'.
  destruct res; try by apply wp_ret. apply IH; [done|lia].
Qed.

Lemma copy_op_spec env uops i d : guest_inv d -> wp (copy_op env uops i) (fun _ d' => d' = d) d.
Proof.
  intros Hg. unfold copy_op, copy_from_user_hvm, hvm_copy_from_guest_linear, hvm_copy.
  apply wp_bind, wp_bind. eapply wp_mono; [apply copy_from_spec; [done|lia]|].
  intros [rc buf] d' ->. by apply wp_ret, wp_ret.
Qed.

Lemma store_pdone_spec env pdone i d : guest_inv d -> wp (store_pdone env pdone i) (fun _ d' => guest_inv d') d.
Proof.
  intros Hg. unfold store_pdone, copy_to_user_hvm, hvm_copy_to_guest_linear, hvm_copy.
  do 3 apply wp_bind. eapply wp_mono; [apply copy_to_spec; [done|apply le_encode_bytes|lia]|].
  intros [rc buf] d' Hg'. by apply wp_ret, wp_ret, wp_ret.
Qed.

(** ** Two domains *)

(** The page that was found is the one behind the address. *)
Definition translated env (addr pfec : Z) (p : P) (r : hvm_translation_result + Z * Z * Z) d : Prop :=
  match r with
  | inl _ => True
  | inr (mfn, gfn, _) => gfn = (paging_gva_to_gfn env pfec addr).1 /\ mfn = (get_entry p gfn).1.1 /\ is_Some (d_pages d !! mfn)
  end.

Lemma rel_translate env addr pfec (p : P) D :
  rel (low p D) (hvm_translate_get_page env addr pfec)
    (fun r d1 d2 => low p D d1 d2 /\ translated env addr pfec p r d1).
Proof.
  unfold hvm_translate_get_page, translated. destruct (paging_gva_to_gfn env pfec addr) as [gfn pf].
  destruct (_ =? _); [by apply rel_ret|]. destruct (hvm_mmio_internal _ _); [by apply rel_ret|].
  eapply rel_bind; [apply rel_get_page_from_gfn|]. intros [mfn|]; cbn beta iota; [|by apply rel_ret].
  eapply rel_bind.
  { apply (rel_gets_p2m_with p D (fun ps => mfn = (get_entry p gfn).1.1 /\ is_Some (ps !! mfn))). }
  intros q. apply (rel_pure _ _ (q = p)); [by intros ? ? [? _]|]. intros ->.
  destruct (get_entry p gfn) as [[mfn' t] a] eqn:He.
  destruct (p2m_is_paging t); [|destruct (p2m_is_shared t); [|destruct (p2m_is_grant t)]].
  1, 2, 3: eapply rel_bind; [eapply rel_pre; [apply rel_put_page|by intros ? ? (_ & ? & _)]|]; intros []; by apply rel_ret.
  apply rel_ret. intros d1 d2 (_ & Hl & -> & Hs). cbn. rewrite He. by split_and!.
Qed.

(** A copy to the guest does the same to both. *)
Lemma keeps_copy_page_to env pfec addr count off buf :
  rel (low_eq (P := P)) (hvm_copy_page env true pfec addr count off buf) (fun _ => low_eq).
Proof.
  apply rel_low_eq. intros p. eapply rel_bind; [apply rel_translate|].
  intros [res|[[mfn gfn] t]]; cbn beta iota; [apply rel_ret; intros ? ? [? _]; by eapply low_eq_low|].
  apply (rel_pre _ _ low_eq); [|intros ? ? [? _]; by eapply low_eq_low]. cbn [andb negb].
  destruct (t =? p2m_ioreq_server); [apply keeps_bind; [apply keeps_put_page|intros []; apply keeps_ret]|].
  apply keeps_bind; [|intros ?; apply keeps_bind; [apply keeps_put_page|intros []; apply keeps_ret]].
  destruct (negb _); [|apply keeps_ret]. apply keeps_bind; [apply keeps_write_page|intros []; apply keeps_ret].
Qed.

Lemma keeps_copy_to fuel : forall env pfec addr off buf,
  rel (low_eq (P := P)) (hvm_copy_loop fuel env true pfec addr off buf) (fun _ => low_eq).
Proof.
  induction fuel as [|fuel IH]; intros env pfec addr off buf; cbn [hvm_copy_loop];
    (destruct (_ <=? _)%nat; [apply keeps_ret|]); [done|].
  apply keeps_bind; [apply keeps_copy_page_to|]. intros [res buf']. destruct res; try apply keeps_ret. apply IH.
Qed.

Lemma keeps_store_pdone env pdone i : rel (low_eq (P := P)) (store_pdone env pdone i) (fun _ => low_eq).
Proof.
  apply keeps_bind; [|intros ?; apply keeps_ret]. apply keeps_bind; [|intros ?; apply keeps_ret].
  apply keeps_bind; [apply keeps_copy_to|]. intros [rc buf]. apply keeps_ret.
Qed.

(** The frame that a read at the address goes to is not execute-only. *)
Definition addr_visible env d (addr : Z) : Prop := ~ sealed d (paging_gva_to_gfn env PFEC_page_present addr).1.

Lemma rel_copy_page_from env addr count off buf d1 d2 :
  guest_inv d1 -> low_eq d1 d2 -> addr_visible env d1 addr ->
  sim (hvm_copy_page env false PFEC_page_present addr count off buf d1)
    (hvm_copy_page env false PFEC_page_present addr count off buf d2) (fun _ => low_eq).
Proof.
  intros Hg Hl Hv. set (p := d_p2m d1). set (gfn := (paging_gva_to_gfn env PFEC_page_present addr).1) in *.
  apply (rel_bind _ _ (fun s1 s2 => s1 = d1 /\ s2 = d2) (fun r s1 s2 => low p (hidden p) s1 s2 /\
    match r with inl _ => True | inr (mfn, _, _) => ~ hidden p mfn end)); [| |done].
  - intros s1 s2 [-> ->]. pose proof (rel_translate env addr PFEC_page_present p (hidden p) d1 d2 ltac:(by split)) as Ht.
    destruct (hvm_translate_spec env addr PFEC_page_present d1 Hg) as (r & d1a & Hrun & Hr). unfold sim in *. rewrite Hrun in *.
    destruct (hvm_translate_get_page env addr PFEC_page_present d2) as [[r2 d2a]|]; [|done]. destruct Ht as [<- [Hla Hm]].
    split_and!; [done|done|]. destruct r as [res|[[mfn gfn'] t]]; [done|]. destruct Hr as (pg & -> & -> & Hpg & _).
    apply (unsealed_visible d1 gfn); [apply Hg|done|]. by exists pg.
  - intros [res|[[mfn gfn'] t]]; cbn beta iota; [apply rel_ret; intros ? ? [? _]; by eapply low_eq_low|].
    apply (rel_pure _ _ (~ hidden p mfn)); [by intros ? ? [_ ?]|]. intros Hn. cbn [andb negb].
    apply (rel_bind _ _ _ (fun _ => low p (hidden p))).
    + eapply rel_bind; [eapply rel_pre; [by apply rel_read_page|by intros ? ? [? _]]|]. intros l. by apply rel_ret.
    + intros l. eapply rel_bind; [apply rel_put_page|]. intros []. apply rel_ret. apply low_eq_low.
Qed.

Lemma rel_copy_from fuel env : forall addr off buf d1 d2,
  guest_inv d1 -> low_eq d1 d2 -> 0 <= addr < 2 ^ 64 ->
  (forall k, 0 <= k < Z.of_nat (length buf - off) -> addr_visible env d1 (u64 (addr + k))) ->
  sim (hvm_copy_loop fuel env false PFEC_page_present addr off buf d1)
    (hvm_copy_loop fuel env false PFEC_page_present addr off buf d2) (fun _ => low_eq).
Proof.
  induction fuel as [|fuel IH]; intros addr off buf d1 d2 Hg Hl Ha Hv; cbn [hvm_copy_loop];
    (destruct (Nat.leb_spec (length buf) off); [by apply sim_ret|]); [done|].
  pose proof (chunk_bounds addr (length buf - off) ltac:(lia)) as Hc.
  assert (addr_visible env d1 addr) as Hv0.
  { specialize (Hv 0 ltac:(lia)). rewrite Z.add_0_r in Hv. unfold u64 in Hv. by rewrite Z.mod_small in Hv. }
  pose proof (rel_copy_page_from env addr (chunk addr (length buf - off)) off buf d1 d2 Hg Hl Hv0) as Hs.
  destruct (copy_page_from_spec env PFEC_page_present addr (chunk addr (length buf - off)) off buf d1 Hg ltac:(lia))
    as ([res buf'] & d1a & Hrun & -> & Hlen).
  unfold bind. rewrite Hrun in *. cbn in Hlen.
  destruct (hvm_copy_page _ _ _ _ _ _ _ d2) as [[[res2 buf2] d2a]|]; [|done]. destruct Hs as [[= <- <-] Hl'].
  destruct res; try by apply sim_ret. apply IH; [done|done|apply Z.mod_pos_bound; lia|].
  intros k Hk. specialize (Hv (Z.of_nat (chunk addr (length buf - off)) + k) ltac:(lia)).
  unfold u64 in *. by rewrite Zplus_mod_idemp_l, <-Z.add_assoc.
Qed.

(** Every byte of the [i]-th operation is in a page that is not execute-only. *)
Definition op_visible env (uops : Z) d (i : nat) : Prop :=
  forall k, 0 <= k < Z.of_nat sizeof_mmuext_op ->
    addr_visible env d (u64 (uops + Z.of_nat (sizeof_mmuext_op * i) + k)).

Lemma copy_op_same env uops i d1 d2 :
  guest_inv d1 -> low_eq d1 d2 -> op_visible env uops d1 i ->
  exists r d2', copy_op env uops i d1 = Some (r, d1) /\ copy_op env uops i d2 = Some (r, d2').
Proof.
  intros Hg Hl Hv. destruct (copy_op_spec env uops i d1 Hg) as (r & d1' & Hrun & ->). exists r. rewrite Hrun.
  assert (sim (copy_op env uops i d1) (copy_op env uops i d2) (fun _ _ _ => True)) as Hs.
  { apply (rel_bind _ _ (fun s1 s2 => s1 = d1 /\ s2 = d2) (fun _ => low_eq)); [|intros [rest buf]; by apply rel_ret|done].
    apply (rel_bind _ _ _ (fun _ => low_eq)); [|intros [rc buf]; by apply rel_ret]. intros ? ? [-> ->].
    apply rel_copy_from; [done|done|apply Z.mod_pos_bound; lia|]. intros j Hj. unfold u64.
    rewrite Zplus_mod_idemp_l. apply Hv. rewrite repeat_length in Hj. lia. }
  rewrite Hrun in Hs. destruct (copy_op env uops i d2) as [[r2 d2']|]; [|done]. destruct Hs as [<- _]. by exists d2'.
Qed.
End spec.
