(* ===== verification/XomGuestTheorems.v ===== *)
(** * What a guest learns, and what its registers and trees end with

    A guest that reads, writes, executes and calls the hypervisor learns
    nothing about execute-only pages; an interrupted program's registers are
    cleared; destroying a domain frees what its life allocated. *)

From S2P Require Import Prelude RbTree RbSpec RbHeap PageInfo PageInfoSpec XomDomain XomSeal XomSpec XomSealSpec XomRel P2mTypes GuestCopy XomGuest XomNoninterference GuestCopySpec XomToy.

Section guest_theorems.
Context {P : Type} `{P2mOps P, !P2mLaws P} `{Xmalloc} `{Domains}.
Implicit Types d : domain P.

(** ** The invariant of a running guest *)

Lemma op_guest_inv d m d' m' : op_rel d m d' m' -> guest_inv d -> guest_inv d'.
Proof.
  intros Hr (_ & Hlk & Hinj). split_and!; [exists m'; apply Hr| |by eapply frame_inj_step].
  by rewrite (sf_xom _ _ (or_frame _ _ _ _ Hr)).
Qed.

Lemma xom_op_inv op d : guest_inv d -> wp (xom_op op) (fun _ d' => guest_inv d') d.
Proof.
  intros Hg. pose proof Hg as ([m Hm] & Hlk & _). eapply wp_mono; [by apply xom_op_spec|].
  intros rc d' (m' & Hr & _). by eapply op_guest_inv.
Qed.

Lemma handle_loop_inv gs n : forall i d, guest_inv d -> wp (handle_loop gs n i) (fun _ d' => guest_inv d') d.
Proof.
  induction n as [|n IH]; intros i d Hg; cbn [handle_loop]; [by apply wp_ret|].
  destruct (_ || _); [by apply wp_ret|]. apply wp_bind, wp_get. destruct (copy_from_guest gs d i) as [op|]; [|by apply wp_ret].
  apply wp_bind. eapply wp_mono; [by apply xom_op_inv|]. intros rc d' Hg'. destruct (rc <? 0); [by apply wp_ret|by apply IH].
Qed.

Lemma handle_xom_seal_inv gs count d : guest_inv d -> wp (handle_xom_seal gs count) (fun _ d' => guest_inv d') d.
Proof.
  intros Hg. apply wp_bind, wp_get. destruct (_ || _); [by apply wp_ret|]. by apply handle_loop_inv.
Qed.

Lemma do_mmuext_op_inv null ok gs count foreigndom d : old_guest_table gs = false -> guest_inv d ->
  wp (do_mmuext_op null ok gs count foreigndom) (fun _ d' => guest_inv d') d.
Proof.
  intros Hold Hg. apply wp_bind, wp_assert; [by rewrite Hold|]. destruct (_ && null); [by apply wp_ret|]. destruct (negb ok); [by apply wp_ret|].
  assert (exists owner, get_pg_owner (foreigndom mod 2 ^ 16) d = Some (owner, d)) as [owner Ho].
  { unfold get_pg_owner. destruct (_ =? domain_id); [by eexists|]. destruct (_ =? DOMID_SELF); by eexists. }
  apply wp_bind. exists owner, d. split; [done|]. destruct owner as [[]|]; [by apply wp_ret|by apply handle_xom_seal_inv|by apply wp_ret].
Qed.

Lemma guest_access_inv f g k d : guest_inv d ->
  (forall mfn pg, d_pages d !! mfn = Some pg -> wp (k mfn) (fun _ d' => guest_inv d') d) ->
  wp (guest_access f g k) (fun _ d' => guest_inv d') d.
Proof.
  intros Hg Hk. apply wp_bind, wp_get. destruct (get_entry (d_p2m d) g) as [[mfn t] a].
  destruct (access_violation a f); [by apply wp_ret|]. destruct (d_pages d !! mfn) as [pg|] eqn:Hpg; [by eapply Hk|by apply wp_ret].
Qed.

Lemma run_hypercall_inv h d : guest_inv d -> wp (run_hypercall h) (fun _ d' => guest_inv d') d.
Proof.
  intros Hg. apply wp_bind. eapply wp_mono; [by apply do_mmuext_op_inv|]. intros [rc o] d' Hd'.
  apply wp_bind. destruct o as [i|]; [|by apply wp_ret, wp_ret].
  eapply wp_mono; [by apply store_pdone_spec|]. intros [] d'' Hd''. by apply wp_ret.
Qed.

Lemma run_event_inv e d : guest_inv d -> wp (run_event e) (fun _ d' => guest_inv d') d.
Proof.
  intros Hg. destruct e as [g|g off bytes|g|h]; cbn [run_event]; [..|by apply run_hypercall_inv].
  - apply guest_access_inv; [done|]. intros mfn pg Hpg. apply wp_bind. exists (pg_data pg), d. unfold read_page. rewrite Hpg.
    split; [done|]. by apply wp_ret.
  - apply guest_access_inv; [done|]. intros mfn pg Hpg. case_bool_decide as Hb; [|by apply wp_ret].
    apply wp_bind. eapply wp_mono; [eapply write_page_inv; [done|done|]|intros [] d' Hd'; by apply wp_ret].
    intros l. apply splice_wf; [by rewrite length_map|]. apply Forall_map, Forall_forall. intros x _. apply Z.mod_pos_bound. lia.
  - apply guest_access_inv; [done|]. intros mfn pg Hpg. by apply wp_ret.
Qed.

(** ** Execute-only pages answer with a fault *)

(** An execute-only page can be executed; every other access gives the guest a
    general protection fault and changes nothing. *)
Theorem sealed_access_faults d g off bytes pg : sealed d g -> d_pages d !! frame_of d g = Some pg ->
  run_event (EvRead g) d = Some (Faulted FaultGP, d) /\ run_event (EvWrite g off bytes) d = Some (Faulted FaultGP, d) /\
  run_event (EvFetch g) d = Some (Fetched, d).
Proof.
  intros Hs Hpg. unfold sealed, access_of, frame_of in *. cbn [run_event].
  unfold guest_read, guest_write, guest_fetch, guest_access, bind, get.
  destruct (get_entry (d_p2m d) g) as [[mfn t] a]. cbn in Hs, Hpg. subst a. cbn. by rewrite Hpg.
Qed.

(** ** Noninterference *)

(** Every operation of a batch of [n], from the [i]-th, is read from pages that
    the guest can read when its turn comes, and so is the command of a sub-page
    write. *)
Fixpoint batch_visible (h : hypercall_args) (n i : nat) d : Prop :=
  match n with
  | O => True
  | S n =>
      op_visible (hc_env h) (hc_uops h) d i /\
      forall op, copy_from_guest (batch_of h) d i = Some op -> source_visible d op /\
        forall rc d', xom_op op d = Some (rc, d') -> 0 <= rc -> batch_visible h n (S i) d'
  end.

(** Both domains give the same operation. *)
Lemma batch_op_same h i d1 d2 : guest_inv d1 -> low_eq d1 d2 -> op_visible (hc_env h) (hc_uops h) d1 i ->
  copy_from_guest (batch_of h) d2 i = copy_from_guest (batch_of h) d1 i.
Proof.
  intros Hg Hl Hv. cbn [batch_of copy_from_guest].
  destruct (copy_op_same (hc_env h) (hc_uops h) i d1 d2 Hg Hl Hv) as (r & d2' & -> & ->). done.
Qed.

Lemma rel_handle_loop h n : forall i d1 d2, guest_inv d1 -> low_eq d1 d2 -> batch_visible h n i d1 ->
  sim (handle_loop (batch_of h) n i d1) (handle_loop (batch_of h) n i d2) (fun _ => low_eq).
Proof.
  induction n as [|n IH]; intros i d1 d2 Hg Hl Hv; cbn [handle_loop]; [by apply sim_ret|].
  destruct (_ || _); [by apply sim_ret|]. destruct Hv as [Hop Hv]. unfold bind, get.
  rewrite (batch_op_same h i d1 d2) by done. destruct (copy_from_guest (batch_of h) d1 i) as [op|] eqn:Heq; [|by apply sim_ret].
  destruct (Hv op eq_refl) as [Hsrc Hvs]. destruct (xom_op_inv op d1 Hg) as (rc & d1' & Hrun & Hg').
  pose proof (rel_xom_op op d1 d2 (conj Hl (conj (proj2 (proj2 Hg)) Hsrc))) as Hs. rewrite Hrun in *.
  destruct (xom_op op d2) as [[rc2 d2']|]; [|done]. destruct Hs as [<- Hl'].
  destruct (Z.ltb_spec rc 0); [by apply sim_ret|]. apply IH; [done|done|]. by eapply Hvs.
Qed.

Lemma low_eq_fields d1 d2 : low_eq d1 d2 -> d_p2m d2 = d_p2m d1 /\ d_is_hvm d2 = d_is_hvm d1 /\ d_hap_enabled d2 = d_hap_enabled d1.
Proof. by intros (ps & -> & _). Qed.

(** The number of operations that a hypercall asks for. *)
Definition hc_number (h : hypercall_args) : nat := Z.to_nat (Z.land (hc_count h) (Z.lnot MMU_UPDATE_PREEMPTED)).

Lemma rel_do_mmuext_op h null d1 d2 : guest_inv d1 -> low_eq d1 d2 -> batch_visible h (hc_number h) 0 d1 ->
  sim (do_mmuext_op null true (batch_of h) (hc_count h) (hc_foreigndom h) d1)
    (do_mmuext_op null true (batch_of h) (hc_count h) (hc_foreigndom h) d2) (fun _ => low_eq).
Proof.
  intros Hg Hl Hv. unfold do_mmuext_op, assert, bind at 1. cbn [batch_of old_guest_table negb ret]. unfold bind at 2. cbn [ret].
  destruct (_ && null); [by apply sim_ret|]. unfold bind, get_pg_owner, gets. destruct (low_eq_fields _ _ Hl) as (_ & Hhvm & Hhap).
  assert (sim (handle_xom_seal (batch_of h) (Z.land (hc_count h) (Z.lnot MMU_UPDATE_PREEMPTED)) d1)
    (handle_xom_seal (batch_of h) (Z.land (hc_count h) (Z.lnot MMU_UPDATE_PREEMPTED)) d2) (fun _ => low_eq)) as Hs.
  { unfold handle_xom_seal, bind, get. rewrite Hhvm, Hhap. destruct (_ || _); [by apply sim_ret|]. by apply rel_handle_loop. }
  unfold batch_of in Hs. destruct (_ =? domain_id); [by apply sim_ret|]. destruct (_ =? DOMID_SELF).
  - rewrite Hhvm. destruct (negb (d_is_hvm d1)); [by apply sim_ret|done].
  - destruct (foreign_is_pv _) as [[]|]; [by apply sim_ret|done|by apply sim_ret].
Qed.

Lemma rel_run_hypercall h d1 d2 : guest_inv d1 -> low_eq d1 d2 -> batch_visible h (hc_number h) 0 d1 ->
  sim (run_hypercall h d1) (run_hypercall h d2) (fun _ => low_eq).
Proof.
  intros Hg Hl Hv. apply (rel_bind _ _ (fun s1 s2 => s1 = d1 /\ s2 = d2) (fun _ => low_eq)); [| |done].
  - intros ? ? [-> ->]. by apply rel_do_mmuext_op.
  - intros [rc o]. apply keeps_bind; [|intros []; apply keeps_ret]. destruct o; [apply keeps_store_pdone|apply keeps_ret].
Qed.

(** An access does the same in both domains, if what it does to the page does. *)
Lemma rel_guest_access f g k d1 d2 : low_eq d1 d2 ->
  (forall mfn t a pg, get_entry (d_p2m d1) g = (mfn, t, a) -> access_violation a f = false -> d_pages d1 !! mfn = Some pg ->
     sim (k mfn d1) (k mfn d2) (fun _ => low_eq)) ->
  sim (guest_access f g k d1) (guest_access f g k d2) (fun _ => low_eq).
Proof.
  intros Hl Hk. unfold guest_access, bind, get. destruct (low_eq_fields _ _ Hl) as (-> & _ & _).
  destruct (get_entry (d_p2m d1) g) as [[mfn t] a] eqn:He. destruct (access_violation a f) eqn:Hv; [by apply sim_ret|].
  pose proof Hl as (ps & -> & Hps). rewrite d_pages_set. pose proof (Hps mfn) as Hq.
  destruct (d_pages d1 !! mfn) as [q1|] eqn:E1, (ps !! mfn) as [q2|] eqn:E2; inversion Hq; [by eapply Hk|by apply sim_ret].
Qed.

Definition event_visible (e : event) d : Prop :=
  match e with EvHypercall h => batch_visible h (hc_number h) 0 d | _ => True end.

Lemma rel_run_event e d1 d2 : guest_inv d1 -> low_eq d1 d2 -> event_visible e d1 ->
  sim (run_event e d1) (run_event e d2) (fun _ => low_eq).
Proof.
  intros Hg Hl Hv. destruct e as [g|g off bytes|g|h]; cbn [run_event]; [..|by apply rel_run_hypercall].
  - apply rel_guest_access; [done|]. intros mfn t a pg He Ha Hpg.
    assert (Hn : ~ hidden (d_p2m d1) mfn).
    { intros Hh. apply (unsealed_visible d1 g); [apply Hg| |by rewrite He; eexists|by rewrite He].
      unfold sealed, access_of. rewrite He. cbn. intros ->. done. }
    eapply (rel_bind _ _ (low (d_p2m d1) (hidden (d_p2m d1)))); [by apply rel_read_page| |by split].
    intros l. apply rel_ret. apply low_eq_low.
  - apply rel_guest_access; [done|]. intros mfn t a pg He Ha Hpg. case_bool_decide; [|by apply sim_ret].
    eapply (rel_bind _ _ low_eq); [apply keeps_write_page| |done]. intros []. apply keeps_ret.
  - apply rel_guest_access; [done|]. intros mfn t a pg He Ha Hpg. by apply sim_ret.
Qed.

(** In no state that it gets to does the guest pass a hypercall operations, or
    the command of a sub-page write, that lie in an execute-only page. *)
Fixpoint respects (n : nat) (strategy : list outcome -> event) (seen : list outcome) d : Prop :=
  match n with
  | O => True
  | S n => event_visible (strategy seen) d /\
           forall o d', run_event (strategy seen) d = Some (o, d') -> respects n strategy (seen ++ [o]) d'
  end.

(** C1: a guest learns nothing about the contents of execute-only pages: with
    reads, stores and fetches of its memory and with hypercalls, whose
    operations are copied from its memory and whose count is stored there, each
    step chosen by what it has seen so far, it sees the same in two domains
    that differ in the contents of execute-only pages only, and they still
    differ in nothing else afterwards.  Opening such a page wipes it.  The
    guest must not pass operations, or the command of a sub-page write, that
    lie in an execute-only page: neither copy checks access rights.  The
    translation of its addresses is part of its choice, so its page tables are
    not in execute-only pages.  Of a fetch only the permission is observed: what
    the code in the page computes or reveals is not covered. *)
Theorem guest_noninterference n strategy seen d1 d2 :
  guest_inv d1 -> low_eq d1 d2 -> respects n strategy seen d1 ->
  exists seen' d1' d2', run_guest n strategy seen d1 = Some (seen', d1') /\
    run_guest n strategy seen d2 = Some (seen', d2') /\ low_eq d1' d2'.
Proof.
  revert seen d1 d2. induction n as [|n IH]; intros seen d1 d2 Hg Hl Hr; cbn [run_guest]; [by exists seen, d1, d2|].
  destruct Hr as [Hv Hr]. pose proof (rel_run_event _ _ _ Hg Hl Hv) as Hs.
  destruct (run_event_inv (strategy seen) d1 Hg) as (o & d1' & Hrun & Hg'). unfold bind. rewrite Hrun in *.
  destruct (run_event (strategy seen) d2) as [[o2 d2']|]; [|done]. destruct Hs as [<- Hl'].
  apply IH; [done|done|by apply Hr].
Qed.

(** ** The life of a domain *)

Lemma run_guest_inv n strategy : forall seen d, guest_inv d -> wp (run_guest n strategy seen) (fun _ d' => guest_inv d') d.
Proof.
  induction n as [|n IH]; intros seen d Hg; cbn [run_guest]; [by apply wp_ret|].
  apply wp_bind. eapply wp_mono; [by apply run_event_inv|]. intros o d' Hg'. by apply IH.
Qed.

(** A domain before [domain_create] reaches the code of the trees. *)
Record new_domain d : Prop := {
  nd_nodes : pi_nodes (d_pi d) = ∅;
  nd_infos : pi_infos (d_pi d) = ∅;
  nd_pages : forall mfn pg, d_pages d !! mfn = Some pg -> page_wf pg;
  nd_lock : 0 <= d_p2m_lock d;
  nd_inj : frame_inj d;
  nd_invalid : d_pages d !! INVALID_MFN = None
}.

Lemma init_inv d : new_domain d -> guest_inv (xom_domain_init d).
Proof.
  intros [Hn Hi Hpg Hlk Hinj Hiv]. split_and!; [exists (fun _ => ∅)|done|exact Hinj].
  unfold xom_domain_init. rewrite Hn, Hi. split; cbn; try done; [apply PI_fresh|..]; intros g w Hw; by rewrite lookup_empty in Hw.
Qed.

(** C30: the memory of a domain's trees is given back: from its creation,
    through whatever its guest does, to its destruction, nothing is undefined,
    and when the domain is destroyed no entry of either tree is left. *)
Theorem domain_life n strategy d : new_domain d ->
  wp (let! seen := run_guest n strategy [] in do! xom_domain_destroy in ret seen)
    (fun _ d' => pi_nodes (d_pi d') = ∅ /\ pi_infos (d_pi d') = ∅ /\
       xom_subpages (d_pi d') = NULL /\ xom_reg_clear_pages (d_pi d') = NULL) (xom_domain_init d).
Proof.
  intros Hd. apply wp_bind. eapply wp_mono; [by apply run_guest_inv, init_inv|]. intros seen d1 ([m Hm] & _).
  destruct (teardown_spec (d_pi d1) m (di_pi _ _ Hm)) as ([] & s & Hrun & Hs). apply wp_bind. exists tt, (set_pi s d1).
  split; [|by apply wp_ret]. apply bind_inv in Hrun as ([] & s1 & Hrun1 & Hrun2).
  unfold xom_domain_destroy, bind, on_pi. rewrite Hrun1. cbn [d_pi set_pi]. by rewrite Hrun2.
Qed.
End guest_theorems.

(** ** Registers *)

(** What the declared routines do on the processors they are for; every
    processor with VMX has SSE3. *)
Class VectorLaws (X : Type) `{VectorUnit X} := {
  zero_vectors : X;
  has_sse3 : cpu_has_sse3 = true;
  clear_avx512_spec : cpu_has_avx512f = true -> forall x, clear_avx512_regs x = zero_vectors;
  clear_avx_spec : cpu_has_avx512f = false -> cpu_has_avx = true -> forall x, clear_avx_regs x = zero_vectors;
  clear_sse_spec : cpu_has_avx512f = false -> cpu_has_avx = false -> forall x, clear_sse_regs x = zero_vectors
}.

Section registers.
Context {P X : Type} `{P2mOps P, !P2mLaws P} `{VectorLaws X} `{Xmalloc}.
Implicit Types d : domain P.

Lemma clear_vectors_zero x : clear_vectors x = zero_vectors.
Proof.
  unfold clear_vectors. rewrite has_sse3. destruct cpu_has_avx512f eqn:E1; [by apply clear_avx512_spec|].
  destruct cpu_has_avx eqn:E2; [by apply clear_avx_spec|by apply clear_sse_spec].
Qed.

(** What the two kinds of clearing leave to the interrupted program. *)
Definition same_kept (t : Z) (regs1 regs2 : cpu_user_regs) : Prop :=
  if t =? REG_CLEAR_TYPE_VECTOR then set_r15_r14 0 0 regs1 = set_r15_r14 0 0 regs2
  else rsp regs1 = rsp regs2 /\ rbp regs1 = rbp regs2.

Lemma reg_clear_type_run vcpu_ok cs_base walk r d m t :
  dom_inv d m -> d_xom_page_lock d = false -> d_is_hvm d = true -> d_hap_enabled d = true ->
  gfn_of_rip vcpu_ok cs_base walk r <> INVALID_GFN -> m XomRegClear !! gfn_of_rip vcpu_ok cs_base walk r = Some t ->
  get_reg_clear_type vcpu_ok cs_base walk (Some r) d = Some (t, d).
Proof.
  intros Hm Hlk Hh Ha Hg Ht. unfold get_reg_clear_type. unfold bind at 1, get. rewrite Hh, Ha. cbn [negb orb].
  rewrite (proj2 (Z.eqb_neq _ _)) by done.
  destruct (reg_clear_lookup_spec d m (gfn_of_rip vcpu_ok cs_base walk r) Hm Hlk) as (r' & d' & Hrun & -> & ->). by rewrite Hrun, Ht.
Qed.

(** C29: of the registers of an interrupted program the guest finds what the
    kind of clearing keeps, and nothing else: when a user program of an HVM
    domain with nested paging is interrupted in a page that is marked, two
    programs that agree in the kept registers leave the same general registers
    and zero vector registers.  A full clear keeps the stack and the frame
    pointer and lets the program resume at address 0; a vector clear keeps all
    general registers but [r14] and [r15], so that what a program computed in
    those does reach the guest. *)
Theorem interrupted_registers_hidden cpl vcpu_ok cs_base walk regs1 regs2 (x1 x2 : X) d m t :
  let g r := gfn_of_rip vcpu_ok cs_base walk (rip r) in
  dom_inv d m -> d_xom_page_lock d = false -> d_is_hvm d = true -> d_hap_enabled d = true -> Z.land cpl 2 <> 0 ->
  g regs1 <> INVALID_GFN -> m XomRegClear !! g regs1 = Some t ->
  g regs2 <> INVALID_GFN -> m XomRegClear !! g regs2 = Some t -> same_kept t regs1 regs2 ->
  exists regs', (forall regs x, regs = regs1 /\ x = x1 \/ regs = regs2 /\ x = x2 ->
      handle_register_clear cpl vcpu_ok cs_base walk regs x d = Some (regs', zero_vectors, d)) /\
    (t = REG_CLEAR_TYPE_FULL -> rip regs' = 0).
Proof.
  intros g Hm Hlk Hh Ha Hc Hg1 Ht1 Hg2 Ht2 Hk.
  assert (Hrun : forall r x, g r <> INVALID_GFN -> m XomRegClear !! g r = Some t ->
    handle_register_clear cpl vcpu_ok cs_base walk r x d =
      Some (if t =? REG_CLEAR_TYPE_VECTOR then set_r15_r14 0xbabababababababa 0xbabababababababa r
            else set_sp_bp_r15 (rsp r) (rbp r) 0xdadadadadadadada zero_regs, zero_vectors, d)).
  { intros r x Hg Ht. unfold handle_register_clear, bind. rewrite (proj2 (Z.eqb_neq _ _)) by done.
    rewrite (reg_clear_type_run _ _ _ _ _ m t), clear_vectors_zero by done.
    destruct (di_marks _ _ Hm _ _ Ht) as [->| ->]; done. }
  eexists. split; [intros r x [[-> ->]|[-> ->]]; [by apply Hrun|]; rewrite Hrun by done; do 3 f_equal|].
  - unfold same_kept in Hk. destruct (t =? REG_CLEAR_TYPE_VECTOR); [|by destruct Hk as [-> ->]].
    apply (f_equal (set_r15_r14 0xbabababababababa 0xbabababababababa)) in Hk. by destruct regs1, regs2.
  - by intros ->.
Qed.
End registers.

(** ** The source of a write command *)

(** Frame 1 has sub-pages and frame 3, with the given contents, is
    execute-only. *)
Definition leak_domain (secret : list Z) : domain toy_p2m :=
  Domain true true (ToyP2m (<[3 := (103, 1, p2m_access_x)]> (tp_map (toy_table p2m_access_x))) 8) 0 ∅
    (<[103 := page_with secret]> (toy_pages [] [])) (one_entry XomSubpages 0) false.

Lemma leak_low_eq s1 s2 : low_eq (leak_domain s1) (leak_domain s2).
Proof.
  exists (d_pages (leak_domain s2)). split; [done|]. intros mfn. cbn [d_pages leak_domain].
  destruct (decide (mfn = 103)) as [->|Hne].
  - rewrite !lookup_insert_eq. constructor. split_and!; [done..|]. intros Hn. destruct Hn. by exists 3.
  - rewrite !lookup_insert_ne by done. destruct (toy_pages [] [] !! mfn); constructor. by split_and!.
Qed.

(** C39: a write command may be read from an execute-only page, and its result
    then depends on the contents of that page: two domains that differ in
    these contents only give different results.  [write_into_subpage] does
    not check the access rights of its source. *)
Theorem sealed_source_leaks :
  let op := MmuextOp MMUEXT_WRITE_XOM_SPAGES 1 3 in
  low_eq (leak_domain [1]) (leak_domain [0x55]) /\
  (exists d, xom_op op (leak_domain [1]) = Some (0, d)) /\ (exists d, xom_op op (leak_domain [0x55]) = Some (- EINVAL, d)).
Proof.
  split_and!; [apply leak_low_eq|eexists; vm_compute; reflexivity|eexists; vm_compute; reflexivity].
Qed.

(** ** Examples *)

Ltac byte_lists :=
  repeat first [apply Forall_nil; exact I | apply Forall_cons; split; [lia|]].

(** Domain 1, with a paravirtualised domain 0 and no others. *)
#[export] Instance toy_domains : Domains := {| domain_id := 1; foreign_is_pv := fun domid => if domid =? 0 then Some true else None; mmuext_pv := fun _ _ => (- EPERM, None) |}.

(** The events of a list, one after the other. *)
Definition script (l : list event) (seen : list outcome) : event := nth (length seen) l (EvFetch 1).

(** Addresses are those of the frames; page 2 holds the operations. *)
Definition demo_env : copy_env := CopyEnv (fun pfec addr => (addr / 4096, pfec)) (fun _ => false).
Definition demo_call (count : Z) : hypercall_args := Hypercall demo_env 0x2000 count 0x2800 DOMID_SELF (fun _ => false).

Definition op_bytes (op : mmuext_op) : list Z :=
  le_encode 4 (cmd op) ++ [0; 0; 0; 0] ++ le_encode 8 (arg1 op) ++ le_encode 8 (arg2 op).

Definition demo_ops : list Z :=
  op_bytes (MmuextOp MMUEXT_MARK_REG_CLEAR 1 2) ++ op_bytes (MmuextOp MMUEXT_UNMARK_XOM 1 1).

Definition demo_events : list event :=
  [EvHypercall (demo_call 2); EvRead 1; EvRead 2; EvWrite 1 5 [7]; EvFetch 1].

Definition demo_domain (secret : list Z) : domain toy_p2m := reg_domain XomSubpages 1 4 secret demo_ops.

Lemma demo_low_eq : low_eq (demo_domain [1; 2; 3]) (demo_domain [9]).
Proof.
  exists (toy_pages [9] demo_ops). split; [done|]. intros mfn. cbn [d_pages demo_domain reg_domain set_pi toy_domain].
  unfold toy_pages. destruct (decide (mfn = 101)) as [->|Hne].
  - rewrite !lookup_insert_eq. constructor. split_and!; [done..|]. intros Hn. destruct Hn. by exists 1.
  - rewrite !(lookup_insert_ne _ 101) by done. destruct (_ !! mfn); constructor. by split_and!.
Qed.

Lemma op_bytes_range op : Forall (fun b => 0 <= b < 256) (op_bytes op).
Proof. unfold op_bytes. rewrite !Forall_app. split_and!; try apply le_encode_bytes. byte_lists. Qed.

Lemma demo_ops_bytes : Forall (fun b => 0 <= b < 256) demo_ops.
Proof. apply Forall_app. split; apply op_bytes_range. Qed.

Lemma demo_inv secret : Forall (fun b => 0 <= b < 256) secret -> guest_inv (demo_domain secret).
Proof.
  intros Hs. split_and!; [exists (reg_infos XomSubpages 1)|reflexivity|apply reg_inj].
  apply (reg_inv XomSubpages 1 4 secret demo_ops); [exact Hs|apply demo_ops_bytes|lia].
Qed.

(** The operations of a hypercall may be read from an execute-only page too:
    two domains that differ in the contents of that page only give different
    results. *)
Theorem sealed_operations_leak :
  let h := Hypercall demo_env 0x3000 1 NULL DOMID_SELF (fun _ => false) in
  let s1 := op_bytes (MmuextOp MMUEXT_MARK_REG_CLEAR 1 2) in
  low_eq (leak_domain s1) (leak_domain []) /\
  (exists d, run_event (EvHypercall h) (leak_domain s1) = Some (Returned 0, d)) /\
  (exists d, run_event (EvHypercall h) (leak_domain []) = Some (Returned (- EOPNOTSUPP), d)).
Proof. split_and!; [apply leak_low_eq|eexists; vm_compute; reflexivity|eexists; vm_compute; reflexivity]. Qed.

(** The store to [*pdone] checks no access right either: a guest that passes an
    address in an execute-only page makes the hypervisor overwrite four bytes
    of it, here of a sub-page that is locked. *)
Theorem pdone_overwrites_sealed :
  let h := Hypercall demo_env 0x2000 1 0x1000 DOMID_SELF (fun _ => false) in
  let d := demo_domain [1; 2; 3; 4] in
  dom_inv d (reg_infos XomSubpages 1) /\ sealed d 1 /\ locked (reg_infos XomSubpages 1) 1 0 /\
  take 5 <$> data_at d (frame_of d 1) = Some [1; 2; 3; 4; 0] /\
  exists d', run_event (EvHypercall h) d = Some (Returned 0, d') /\ sealed d' 1 /\
    take 5 <$> data_at d' (frame_of d' 1) = Some [1; 0; 0; 0; 0].
Proof.
  split_and!; [apply (reg_inv XomSubpages 1 4 [1; 2; 3; 4] demo_ops); [byte_lists|apply demo_ops_bytes|lia]|by vm_compute|by exists 1; vm_compute|by vm_compute|].
  eexists. split; [vm_compute; reflexivity|]. split; by vm_compute.
Qed.

(** The operations are in page 2, which is not execute-only. *)
Lemma demo_op_visible i d : (i < 100)%nat -> ~ sealed d 2 -> op_visible (P := toy_p2m) demo_env 0x2000 d i.
Proof.
  intros Hi Hs k Hk. unfold addr_visible. cbn [demo_env paging_gva_to_gfn fst]. unfold sizeof_mmuext_op, u64 in *.
  rewrite Z.mod_small by lia. by replace (_ / 4096) with 2 by zdiv.
Qed.

Lemma demo_visible : batch_visible (demo_call 2) 2 0 (demo_domain [1; 2; 3]).
Proof.
  split; [apply demo_op_visible; [lia|by vm_compute]|]. intros op Hop.
  assert (op = MmuextOp MMUEXT_MARK_REG_CLEAR 1 2) as -> by (vm_compute in Hop; injection Hop as <-; reflexivity). split; [done|].
  intros rc d' Hrun _. injection Hrun as _ <-. split; [apply demo_op_visible; [lia|]|].
  - by vm_compute.
  - intros op Hop'. assert (op = MmuextOp MMUEXT_UNMARK_XOM 1 1) as -> by (vm_compute in Hop'; injection Hop' as <-; reflexivity).
    split; [intros Hw; by vm_compute in Hw|intros; exact I].
Qed.

Lemma guest_noninterference_ex :
  exists seen' d1' d2', run_guest 5 (script demo_events) [] (demo_domain [1; 2; 3]) = Some (seen', d1') /\
    run_guest 5 (script demo_events) [] (demo_domain [9]) = Some (seen', d2') /\ low_eq d1' d2'.
Proof.
  apply (guest_noninterference 5 (script demo_events) []); [apply demo_inv; byte_lists|apply demo_low_eq|].
  split; [exact demo_visible|]. intros ? ? _. by repeat (split; [done|intros ? ? _]).
Defined.

Lemma domain_life_ex :
  wp (let! seen := run_guest 5 (script demo_events) [] in do! xom_domain_destroy in ret seen)
    (fun _ d' => pi_nodes (d_pi d') = ∅ /\ pi_infos (d_pi d') = ∅ /\
       xom_subpages (d_pi d') = NULL /\ xom_reg_clear_pages (d_pi d') = NULL)
    (xom_domain_init (toy_domain 4 [1; 2; 3] [])).
Proof.
  apply (domain_life 5 (script demo_events)). split; [done|done|by apply toy_pages_wf; byte_lists|done|apply toy_inj|done].
Defined.

(** A processor with AVX, whose vector registers are a list of bytes. *)
#[export] Instance toy_vectors : VectorUnit (list Z) := {|
  cpu_has_avx512f := false; cpu_has_avx := true; cpu_has_sse3 := true;
  clear_avx512_regs := fun x => x; clear_avx_regs := fun _ => []; clear_sse_regs := fun x => x
|}.
#[export] Program Instance toy_vector_laws : VectorLaws (list Z) := {| zero_vectors := [] |}.
Solve All Obligations with done.

Definition demo_regs (secret : Z) : cpu_user_regs :=
  Regs secret secret secret 0 0x7000 secret secret 0 0 0 secret 0 secret 0 0 0 0 0x1004 0 0 0 0x6ff0 0 0 0 0 0.

Lemma interrupted_registers_hidden_ex :
  let d := reg_domain XomRegClear 2 4 [1; 2; 3] [] in
  exists regs', (forall regs (x : list Z), regs = demo_regs 3 /\ x = [1] \/ regs = demo_regs 99 /\ x = [2] ->
      handle_register_clear 3 true 0 (fun va => va / 4096) regs x d = Some (regs', zero_vectors, d)) /\
    (REG_CLEAR_TYPE_FULL = REG_CLEAR_TYPE_FULL -> rip regs' = 0).
Proof.
  apply (interrupted_registers_hidden 3 true 0 (fun va => va / 4096) (demo_regs 3) (demo_regs 99) [1] [2] _ (reg_infos XomRegClear 2) 2);
    try done. apply reg_inv; [byte_lists|byte_lists|by right].
Defined.
