(* ===== verification/MemType.v ===== *)
(** * Memory types

    The memory type range registers and the pinned cache attributes of
    [arch/x86/hvm/mtrr.c], which decide the memory type of an EPT entry. *)

From S2P Require Import Prelude.

Definition X86_MT_UC : Z := 0.
Definition X86_MT_WC : Z := 1.
Definition X86_MT_WT : Z := 4.
Definition X86_MT_WP : Z := 5.
Definition X86_MT_WB : Z := 6.
Definition X86_MT_UCM : Z := 7.

(** ** Memory type range registers *)

Definition MTRR_PHYSBASE_TYPE_MASK : Z := 255.
Definition MTRR_PHYSMASK_VALID : Z := 2 ^ 11.
Definition PAGE_SHIFT : Z := 12.

(** The variable ranges are pairs of base and mask. *)
Record mtrr_state := MtrrState {
  mtrr_enabled : bool;
  fixed_enabled : bool;
  overlapped : bool;
  def_type : Z;
  fixed_ranges : list Z;
  var_ranges : list (Z * Z)
}.

Definition fixed_range (m : mtrr_state) (i : Z) : Z := nth (Z.to_nat i) (fixed_ranges m) X86_MT_UC.

(** The loop over the variable ranges: the type it returns with, or the set of
    matching types and the last of them. *)
Fixpoint match_ranges (rs : list (Z * Z)) (pa mask order : Z) (overlap : bool) (types last : Z) : Z + Z * Z :=
  match rs with
  | [] => inr (types, last)
  | (phys_base, phys_mask) :: rs =>
      if negb (Z.land phys_mask MTRR_PHYSMASK_VALID =? 0) &&
         (Z.land pa (Z.land phys_mask mask) =? Z.land phys_base (Z.land phys_mask mask))
      then
        let t := Z.land phys_base MTRR_PHYSBASE_TYPE_MASK in
        if overlap || negb (order =? 0)
        then match_ranges rs pa mask order overlap (Z.lor types (u8 (Z.shiftl 1 t))) t
        else inl t
      else match_ranges rs pa mask order overlap types last
  end.

Definition mtrr_get_type (m : mtrr_state) (pa order : Z) : Z :=
  if negb (mtrr_enabled m) then X86_MT_UC
  else
    let mask := u64 (- Z.shiftl 4096 order) in
    let pa := Z.land pa mask in
    if (pa <? 0x100000) && fixed_enabled m then
      if pa <? 0x80000 then
        if 4 <? order then -1 else fixed_range m (Z.shiftr pa 16)
      else if pa <? 0xc0000 then
        if 2 <? order then -1
        else let seg := Z.shiftr (pa - 0x80000) 14 in fixed_range m ((Z.shiftr seg 3 + 1) * 8 + Z.land seg 7)
      else
        if negb (order =? 0) then -1
        else let seg := Z.shiftr (pa - 0xc0000) 12 in fixed_range m ((Z.shiftr seg 3 + 3) * 8 + Z.land seg 7)
    else
      match match_ranges (var_ranges m) pa mask order (overlapped m) 0 0 with
      | inl t => t
      | inr (types, last) =>
          if types =? 0 then def_type m
          else if types =? Z.shiftl 1 last then last
          else if negb (order =? 0) then -1
          else if negb (Z.land types (Z.shiftl 1 X86_MT_UC) =? 0) then X86_MT_UC
          else if types =? Z.lor (Z.shiftl 1 X86_MT_WT) (Z.shiftl 1 X86_MT_WB) then X86_MT_WT
          else last
      end.

(** ** Pinned cache attributes *)

Definition ENXIO : Z := 6.
Definition EADDRNOTAVAIL : Z := 99.

Record pinned_range := PinnedRange { pin_start : Z; pin_end : Z; pin_type : Z }.

Fixpoint hvm_get_mem_pinned_cacheattr (ranges : list pinned_range) (gfn order : Z) : Z :=
  match ranges with
  | [] => - ENXIO
  | r :: ranges =>
      let mask := u64 (Z.shiftl (-1) order) in
      let first := Z.land gfn mask in
      let last := Z.lor gfn (u64 (Z.lnot mask)) in
      if (pin_start r <=? first) && (last <=? pin_end r) then pin_type r
      else if (first <=? pin_end r) && (pin_start r <=? last) then - EADDRNOTAVAIL
      else hvm_get_mem_pinned_cacheattr ranges gfn order
  end.

(** ** The types that come out *)

Definition mem_type (t : Z) : Prop := t = X86_MT_UC \/ t = X86_MT_WC \/ t = X86_MT_WT \/ t = X86_MT_WP \/ t = X86_MT_WB.

Lemma mem_type_range t : mem_type t -> 0 <= t < 7 /\ t <> 2 /\ t <> 3.
Proof. unfold mem_type, X86_MT_UC, X86_MT_WC, X86_MT_WT, X86_MT_WP, X86_MT_WB. lia. Qed.

(** What the writes to the registers check. *)
Record mtrr_wf (m : mtrr_state) : Prop := {
  mw_def : mem_type (def_type m);
  mw_fixed : Forall mem_type (fixed_ranges m);
  mw_var : Forall (fun r => mem_type (Z.land r.1 MTRR_PHYSBASE_TYPE_MASK)) (var_ranges m)
}.

Lemma fixed_range_type m i : mtrr_wf m -> mem_type (fixed_range m i).
Proof.
  intros Hm. unfold fixed_range. destruct (nth_in_or_default (Z.to_nat i) (fixed_ranges m) X86_MT_UC) as [Hin| ->]; [|by left].
  apply (proj1 (Forall_forall _ _) (mw_fixed _ Hm)). by apply list_elem_of_In.
Qed.

Lemma match_ranges_type rs pa mask order overlap : Forall (fun r => mem_type (Z.land r.1 MTRR_PHYSBASE_TYPE_MASK)) rs ->
  forall types last, (types = 0 \/ mem_type last) ->
  match match_ranges rs pa mask order overlap types last with
  | inl t => mem_type t
  | inr (types, last) => types = 0 \/ mem_type last
  end.
Proof.
  induction 1 as [|[b k] rs Hb _ IH]; intros types last Hl; cbn [match_ranges]; [done|].
  destruct (_ && _); [|by apply IH]. destruct (_ || _); [|done]. apply IH. by right.
Qed.

Lemma mtrr_get_type_range m pa order : mtrr_wf m ->
  mem_type (mtrr_get_type m pa order) \/ (mtrr_get_type m pa order = -1 /\ order <> 0).
Proof.
  intros Hm. unfold mtrr_get_type. pose proof (fixed_range_type m) as Hf.
  destruct (negb (mtrr_enabled m)); [by left; left|]. destruct (_ && fixed_enabled m).
  { destruct (_ <? 0x80000); [destruct (Z.ltb_spec 4 order); [right; lia|left; by apply Hf]|].
    destruct (_ <? 0xc0000); [destruct (Z.ltb_spec 2 order); [right; lia|left; by apply Hf]|].
    destruct (Z.eqb_spec order 0); [left; by apply Hf|by right]. }
  pose proof (match_ranges_type _ (Z.land pa (u64 (- Z.shiftl 4096 order))) (u64 (- Z.shiftl 4096 order)) order
    (overlapped m) (mw_var _ Hm) 0 0 (or_introl eq_refl)) as Hr.
  destruct (match_ranges _ _ _ _ _ _ _) as [t|[types last]]; [by left|].
  destruct (Z.eqb_spec types 0); [left; apply Hm|]. destruct Hr as [?|Hr]; [done|].
  destruct (types =? _); [by left|]. destruct (Z.eqb_spec order 0); cbn [negb]; [left|by right].
  destruct (negb _); [by left|]. destruct (types =? _); [by right; right; left|done].
Qed.

Definition pinned_wf (ranges : list pinned_range) : Prop :=
  Forall (fun r => mem_type (pin_type r) \/ pin_type r = X86_MT_UCM) ranges.

Lemma pinned_type ranges gfn order : pinned_wf ranges ->
  let t := hvm_get_mem_pinned_cacheattr ranges gfn order in
  t = - ENXIO \/ t = - EADDRNOTAVAIL \/ mem_type t \/ t = X86_MT_UCM.
Proof.
  induction 1 as [|r ranges Hr _ IH]; cbn [hvm_get_mem_pinned_cacheattr]; [by left|].
  destruct (_ && _); [by right; right|]. destruct (_ && _); [by right; left|done].
Qed.

(** A single page is in a pinned range or outside. *)
Lemma pinned_4k ranges gfn : 0 <= gfn < 2 ^ 64 -> pinned_wf ranges ->
  let t := hvm_get_mem_pinned_cacheattr ranges gfn 0 in t = - ENXIO \/ mem_type t \/ t = X86_MT_UCM.
Proof.
  intros Hg. induction 1 as [|r ranges Hr _ IH]; cbn [hvm_get_mem_pinned_cacheattr]; [by left|].
  change (u64 (Z.shiftl (-1) 0)) with (2 ^ 64 - 1). change (u64 (Z.lnot (2 ^ 64 - 1))) with 0.
  rewrite Z.lor_0_r. change (2 ^ 64 - 1) with (Z.ones 64). rewrite Z.land_ones, Z.mod_small by lia.
  destruct (Z.leb_spec (pin_start r) gfn), (Z.leb_spec gfn (pin_end r)); cbn [andb]; auto.
Qed.
