(* ===== verification/Ept.v ===== *)
(** * The extended page tables of x86

    [arch/x86/mm/p2m-ept.c] behind the [get_entry] and [set_entry] pointers of
    the p2m: the entries and their flags, the walk over the tables, splitting
    superpages, resolving deferred changes and freeing tables.  The tables are
    pages of memory that hold 512 entries each; reading or writing a page that
    is not a table is undefined behaviour, and so is a failing [ASSERT]. *)

From S2P Require Import Prelude RbTree RbSpec RbHeap PageInfo XomDomain XomSeal P2mTypes XomGuest MemType.

(** ** Entries *)

Definition EPT_TABLE_ORDER : Z := 9.
Definition EPT_PAGETABLE_ENTRIES : nat := 512.
(** The memory type that marks an entry with a deferred change. *)
Definition MTRR_NUM_TYPES : Z := 7.

Record ept_entry := EptEntry {
  e_r : bool; e_w : bool; e_x : bool;
  e_emt : Z; e_ipat : bool; e_sp : bool; e_a : bool; e_d : bool; e_recalc : bool; e_snp : bool;
  e_mfn : Z; e_sa_p2mt : Z; e_access : Z; e_rsvd : bool; e_suppress_ve : bool
}.

(** The 64-bit word, from bit 0 up. *)
Definition epte (e : ept_entry) : Z :=
  Z.b2z (e_r e) + 2 * (Z.b2z (e_w e) + 2 * (Z.b2z (e_x e) + 2 * (e_emt e + 8 * (Z.b2z (e_ipat e) +
  2 * (Z.b2z (e_sp e) + 2 * (Z.b2z (e_a e) + 2 * (Z.b2z (e_d e) + 2 * (Z.b2z (e_recalc e) +
  2 * (Z.b2z (e_snp e) + 2 * (e_mfn e + 2 ^ 40 * (e_sa_p2mt e + 2 ^ 6 * (e_access e +
  2 ^ 4 * (Z.b2z (e_rsvd e) + 2 * Z.b2z (e_suppress_ve e)))))))))))))).

(** The members of the word [w]. *)
Definition bits (w lo n : Z) : Z := Z.shiftr w lo mod 2 ^ n.
Definition entry_of (w : Z) : ept_entry :=
  EptEntry (Z.testbit w 0) (Z.testbit w 1) (Z.testbit w 2) (bits w 3 3) (Z.testbit w 6) (Z.testbit w 7)
    (Z.testbit w 8) (Z.testbit w 9) (Z.testbit w 10) (Z.testbit w 11) (bits w 12 40) (bits w 52 6) (bits w 58 4)
    (Z.testbit w 62) (Z.testbit w 63).

Definition empty_entry : ept_entry := entry_of 0.

(** Assignments to members; the wide ones are truncated. *)
Definition set_rwx r w x e :=
  EptEntry r w x (e_emt e) (e_ipat e) (e_sp e) (e_a e) (e_d e) (e_recalc e) (e_snp e) (e_mfn e) (e_sa_p2mt e)
    (e_access e) (e_rsvd e) (e_suppress_ve e).
Definition set_ad a d e :=
  EptEntry (e_r e) (e_w e) (e_x e) (e_emt e) (e_ipat e) (e_sp e) a d (e_recalc e) (e_snp e) (e_mfn e)
    (e_sa_p2mt e) (e_access e) (e_rsvd e) (e_suppress_ve e).
Definition set_emt emt e :=
  EptEntry (e_r e) (e_w e) (e_x e) (emt mod 2 ^ 3) (e_ipat e) (e_sp e) (e_a e) (e_d e) (e_recalc e) (e_snp e)
    (e_mfn e) (e_sa_p2mt e) (e_access e) (e_rsvd e) (e_suppress_ve e).
Definition set_ipat ipat e :=
  EptEntry (e_r e) (e_w e) (e_x e) (e_emt e) ipat (e_sp e) (e_a e) (e_d e) (e_recalc e) (e_snp e) (e_mfn e)
    (e_sa_p2mt e) (e_access e) (e_rsvd e) (e_suppress_ve e).
Definition set_sp sp e :=
  EptEntry (e_r e) (e_w e) (e_x e) (e_emt e) (e_ipat e) sp (e_a e) (e_d e) (e_recalc e) (e_snp e) (e_mfn e)
    (e_sa_p2mt e) (e_access e) (e_rsvd e) (e_suppress_ve e).
Definition set_recalc recalc e :=
  EptEntry (e_r e) (e_w e) (e_x e) (e_emt e) (e_ipat e) (e_sp e) (e_a e) (e_d e) recalc (e_snp e) (e_mfn e)
    (e_sa_p2mt e) (e_access e) (e_rsvd e) (e_suppress_ve e).
Definition set_snp snp e :=
  EptEntry (e_r e) (e_w e) (e_x e) (e_emt e) (e_ipat e) (e_sp e) (e_a e) (e_d e) (e_recalc e) snp (e_mfn e)
    (e_sa_p2mt e) (e_access e) (e_rsvd e) (e_suppress_ve e).
Definition set_mfn mfn e :=
  EptEntry (e_r e) (e_w e) (e_x e) (e_emt e) (e_ipat e) (e_sp e) (e_a e) (e_d e) (e_recalc e) (e_snp e)
    (mfn mod 2 ^ 40) (e_sa_p2mt e) (e_access e) (e_rsvd e) (e_suppress_ve e).
Definition set_p2mt t e :=
  EptEntry (e_r e) (e_w e) (e_x e) (e_emt e) (e_ipat e) (e_sp e) (e_a e) (e_d e) (e_recalc e) (e_snp e) (e_mfn e)
    (t mod 2 ^ 6) (e_access e) (e_rsvd e) (e_suppress_ve e).
Definition set_access a e :=
  EptEntry (e_r e) (e_w e) (e_x e) (e_emt e) (e_ipat e) (e_sp e) (e_a e) (e_d e) (e_recalc e) (e_snp e) (e_mfn e)
    (e_sa_p2mt e) (a mod 2 ^ 4) (e_rsvd e) (e_suppress_ve e).
Definition set_sve sve e :=
  EptEntry (e_r e) (e_w e) (e_x e) (e_emt e) (e_ipat e) (e_sp e) (e_a e) (e_d e) (e_recalc e) (e_snp e) (e_mfn e)
    (e_sa_p2mt e) (e_access e) (e_rsvd e) sve.

Definition is_epte_present (e : ept_entry) : bool := negb (Z.land (epte e) 7 =? 0).
Definition is_epte_superpage (e : ept_entry) : bool := e_sp e.
(** [suppress_ve] alone does not make an entry valid. *)
Definition is_epte_valid (e : ept_entry) : bool :=
  negb (Z.land (epte e) (Z.lnot (2 ^ 63)) =? 0) && negb (e_sa_p2mt e =? p2m_invalid).

(** ** The environment

    What the code asks other parts of Xen and the processor: the page pool,
    the frame table, range sets, the memory type registers, log-dirty mode,
    the IOMMU and the alternate p2m tables. *)

Class EptEnv := {
  hap_alloc_page : gset Z -> option Z;            (* [arch.paging.alloc_page], given the tables in use *)
  mfn_valid : Z -> bool;
  page_get_owner_and_reference : Z -> bool;
  mmio_ro : Z -> bool;                            (* [mmio_ro_ranges] contains the frame *)
  mmio_ro_overlaps : Z -> Z -> bool;              (* ... overlaps or contains the range of frames *)
  mmio_ro_contains : Z -> Z -> bool;
  is_special_page : Z -> bool;
  cache_flush_permitted : bool;
  pinned_cacheattr_ranges : list pinned_range;
  guest_mtrr : option mtrr_state;                 (* of the virtual processor, if there is one *)
  host_mtrr : mtrr_state;
  cpu_has_vmx_ept_ad : bool;
  hap_has_2mb : bool;
  hap_has_1gb : bool;
  vmx_domain_pml_enabled : bool;
  exec_sp : bool;                                 (* [arch.hvm.vmx.exec_sp] *)
  ioreq_write_access : bool;                      (* [ioreq.flags & XEN_DMOP_IOREQ_MEM_ACCESS_WRITE] *)
  ioreq_server_set : bool;                        (* [ioreq.server != NULL] *)
  default_access : Z;
  global_logdirty : bool;
  logdirty_contains : Z -> Z -> bool;
  logdirty_overlaps : Z -> Z -> bool;
  is_iommu_enabled : bool;
  iommu_snoop : bool;
  iommu_use_hap_pt : bool;
  iommu_dont_flush_iotlb : bool;
  need_iommu_pt_sync : bool;
  iommu_iotlb_flush : Z -> Z -> bool -> bool -> Z;  (* dfn, count, added, modified *)
  iommu_legacy_map : Z -> Z -> Z -> Z -> Z;
  iommu_legacy_unmap : Z -> Z -> Z;
  paging_mode_hap : bool;
  has_vcpus : bool;                               (* [d->vcpu && d->vcpu[0]] *)
  defer_flush : bool;
  p2m_altp2m_propagate_change : Z -> Z -> Z -> Z -> Z -> Z
}.

(** ** State *)

(** The part of [struct p2m_domain] the code changes: the pages that hold
    tables, [ept.mfn], [max_mapped_pfn], [ioreq.entry_count], the references
    to foreign pages, the [ept_spurious_misconfig] flag of the virtual
    processors, whether all processors are in the mask [ept.invalidate], so
    that they drop cached translations before they enter the guest, and
    [need_flush]. *)
Record ept_p2m := EptP2m {
  pt_tables : gmap Z (list ept_entry);
  ept_mfn : Z;
  pt_max : Z;
  pt_ioreq : Z;
  pt_foreign : gmap Z Z;
  pt_spurious : bool;
  pt_invalidate : bool;
  pt_need_flush : bool
}.

Definition set_tables ts (s : ept_p2m) : ept_p2m :=
  EptP2m ts (ept_mfn s) (pt_max s) (pt_ioreq s) (pt_foreign s) (pt_spurious s) (pt_invalidate s) (pt_need_flush s).
Definition set_max n (s : ept_p2m) : ept_p2m :=
  EptP2m (pt_tables s) (ept_mfn s) n (pt_ioreq s) (pt_foreign s) (pt_spurious s) (pt_invalidate s) (pt_need_flush s).
Definition set_ioreq n (s : ept_p2m) : ept_p2m :=
  EptP2m (pt_tables s) (ept_mfn s) (pt_max s) n (pt_foreign s) (pt_spurious s) (pt_invalidate s) (pt_need_flush s).
Definition set_foreign rs (s : ept_p2m) : ept_p2m :=
  EptP2m (pt_tables s) (ept_mfn s) (pt_max s) (pt_ioreq s) rs (pt_spurious s) (pt_invalidate s) (pt_need_flush s).
Definition set_spurious b (s : ept_p2m) : ept_p2m :=
  EptP2m (pt_tables s) (ept_mfn s) (pt_max s) (pt_ioreq s) (pt_foreign s) b (pt_invalidate s) (pt_need_flush s).
Definition set_flush invalidate need (s : ept_p2m) : ept_p2m :=
  EptP2m (pt_tables s) (ept_mfn s) (pt_max s) (pt_ioreq s) (pt_foreign s) (pt_spurious s) invalidate need.

(** [ept->wl], set by [ept_p2m_init] *)
Definition wl : nat := 3.

(** Entry [i] of the table in frame [m], and an assignment to it. *)
Definition tbl_read (m i : Z) : M ept_p2m ept_entry :=
  fun s => match pt_tables s !! m with
           | Some es => match es !! Z.to_nat i with
                        | Some e => if 0 <=? i then Some (e, s) else None
                        | None => None
                        end
           | None => None
           end.
Definition tbl_write (m i : Z) (e : ept_entry) : M ept_p2m unit :=
  do! tbl_read m i in
  modify (fun s => set_tables (alter (fun es => <[Z.to_nat i := e]> es) m (pt_tables s)) s).

(** A [for] loop over [i], [i + 1], ... that stops when the body breaks. *)
Fixpoint for_upto {S} (n : nat) (i : Z) (body : Z -> M S bool) : M S bool :=
  match n with
  | O => ret true
  | S n => let! go_on := body i in if go_on then for_upto n (i + 1) body else ret false
  end.

Section ept.
Context `{EptEnv}.

Definition iommu_snooping : bool := is_iommu_enabled && iommu_snoop.

(** ** The memory type of an entry *)

(** The number of special pages among the [n] frames from [mfn] on. *)
Fixpoint special_pages (n : nat) (mfn : Z) : Z :=
  match n with
  | O => 0
  | S n => (if is_special_page mfn then 1 else 0) + special_pages n (mfn + 1)
  end.

(** The guest's and the host's type combined. *)
Definition combine_types (g h : Z) : Z :=
  if g =? h then h
  else if (g =? X86_MT_UC) || (h =? X86_MT_UC) then X86_MT_UC
  else if g =? X86_MT_WB then h
  else if h =? X86_MT_WB then g
  else if (g =? X86_MT_WT) && (h =? X86_MT_WP) || (g =? X86_MT_WP) && (h =? X86_MT_WT) then X86_MT_WP
  else X86_MT_UC.

(** The memory type, negative if the range has none of its own, and whether
    the guest's page attributes are ignored. *)
Definition epte_get_entry_emt (gfn mfn order t : Z) : Z * bool :=
  let last := Z.lor mfn (Z.shiftl 1 order - 1) in
  if mmio_ro_overlaps mfn last then
    if (order =? 0) || mmio_ro_contains mfn last then (X86_MT_UC, true) else (-1, false)
  else if negb (mfn_valid mfn) then (X86_MT_UC, true)
  else if negb (t =? p2m_mmio_direct) && negb is_iommu_enabled && negb cache_flush_permitted then (X86_MT_WB, true)
  else
    let special := special_pages (Z.to_nat (Z.shiftl 1 order)) mfn in
    if negb (special =? 0) then
      if negb (special =? Z.shiftl 1 order) then (-1, false) else (X86_MT_WB, true)
    else if t =? p2m_mmio_direct then (X86_MT_UC, false)
    else if (t =? p2m_grant_map_ro) || (t =? p2m_grant_map_rw) || (t =? p2m_map_foreign) then (X86_MT_WB, true)
    else
      let pinned := hvm_get_mem_pinned_cacheattr pinned_cacheattr_ranges gfn order in
      if 0 <=? pinned then (if negb (pinned =? X86_MT_UCM) then pinned else X86_MT_UC, true)
      else if pinned =? - EADDRNOTAVAIL then (-1, false)
      else
        let g := match guest_mtrr with
                 | Some m => mtrr_get_type m (Z.shiftl gfn PAGE_SHIFT) order
                 | None => X86_MT_WB
                 end in
        let h := mtrr_get_type host_mtrr (Z.shiftl mfn PAGE_SHIFT) order in
        if (g <? 0) || (h <? 0) then (-1, false) else (combine_types g h, false).

(** ** Entries and types *)

Definition p2m_is_logdirty_range (first last : Z) : Z :=
  if global_logdirty || logdirty_contains first last then 1
  else if logdirty_overlaps first last then -1
  else 0.

Definition p2m_recalc_type_range (recalc : bool) (t first last : Z) : Z :=
  if negb recalc || negb (p2m_is_changeable t) then t
  else if (t =? p2m_ioreq_server) && ioreq_server_set then t
  else if negb (p2m_is_logdirty_range first last =? 0) then p2m_ram_logdirty
  else p2m_ram_rw.
Definition p2m_recalc_type (recalc : bool) (t gfn : Z) : Z := p2m_recalc_type_range recalc t gfn gfn.

(** The accounting of types when an entry changes. *)
Definition p2m_entry_modify (nt ot nfn ofn : Z) (level : nat) : M ept_p2m Z :=
  do! assert (negb (level =? 0)%nat) in
  do! assert (negb ((1 <? level)%nat && ((nt =? p2m_ioreq_server) || (nt =? p2m_map_foreign)))) in
  if negb (level =? 1)%nat || ((nt =? ot) && (nfn =? ofn)) then ret 0
  else
    let! rc :=
      (if nt =? p2m_ioreq_server then
         do! modify (fun s => set_ioreq (pt_ioreq s + 1) s) in ret 0
       else if nt =? p2m_map_foreign then
         do! assert (mfn_valid nfn) in
         if page_get_owner_and_reference nfn then
           do! modify (fun s => set_foreign (<[nfn := default 0 (pt_foreign s !! nfn) + 1]> (pt_foreign s)) s) in
           ret 0
         else ret (- EBUSY)
       else ret 0) in
    if negb (rc =? 0) then ret rc
    else if ot =? p2m_ioreq_server then
      let! n := gets pt_ioreq in
      do! assert (0 <? n) in
      do! modify (set_ioreq (n - 1)) in ret 0
    else if ot =? p2m_map_foreign then
      do! assert (mfn_valid ofn) in
      let! n := gets (fun s => default 0 (pt_foreign s !! ofn)) in
      do! assert (0 <? n) in
      do! modify (fun s => set_foreign (<[ofn := n - 1]> (pt_foreign s)) s) in ret 0
    else ret 0.

Definition atomic_write_ept_entry (m i : Z) (new : ept_entry) (level : nat) : M ept_p2m Z :=
  let! old := tbl_read m i in
  let! rc := p2m_entry_modify (e_sa_p2mt new) (e_sa_p2mt old) (e_mfn new) (e_mfn old) (level + 1) in
  if negb (rc =? 0) then ret rc
  else do! tbl_write m i new in ret 0.

(** Rights and accessed and dirty bits that the type gives. *)
Definition type_flags (e : ept_entry) : ept_entry :=
  let t := e_sa_p2mt e in
  let ad := cpu_has_vmx_ept_ad in
  if t =? p2m_ram_rw then set_ad ad ad (set_rwx true true true e)
  else if t =? p2m_ioreq_server then
    let w := negb ioreq_write_access in set_ad ad (w && ad) (set_rwx true w false e)
  else if t =? p2m_mmio_direct then
    let w := negb (mmio_ro (e_mfn e)) in set_ad ad (w && ad) (set_rwx true w true e)
  else if t =? p2m_ram_logdirty then
    set_ad ad false (set_rwx true (vmx_domain_pml_enabled && negb (is_epte_superpage e)) true e)
  else if (t =? p2m_ram_ro) || (t =? p2m_ram_shared) then set_ad ad false (set_rwx true false true e)
  else if (t =? p2m_grant_map_rw) || (t =? p2m_map_foreign) then set_ad ad ad (set_rwx true true false e)
  else if t =? p2m_grant_map_ro then set_ad ad false (set_rwx true false false e)
  else set_rwx false false false e.

(** ... restricted by the access right. *)
Definition access_flags (e : ept_entry) : ept_entry :=
  let a := e_access e in
  if (a =? p2m_access_n) || (a =? p2m_access_n2rwx) then set_rwx false false false e
  else if a =? p2m_access_r then set_rwx (e_r e) false false e
  else if a =? p2m_access_w then set_rwx false (e_w e) false e
  else if a =? p2m_access_x then set_rwx false false (e_x e) e
  else if (a =? p2m_access_rx) || (a =? p2m_access_rx2rw) then set_rwx (e_r e) false (e_x e) e
  else if a =? p2m_access_wx then set_rwx false (e_w e) (e_x e) e
  else if a =? p2m_access_rw then set_rwx (e_r e) (e_w e) false e
  else e.

(** ... and no executable superpages where they have to be shattered. *)
Definition superpage_flags (e : ept_entry) : ept_entry :=
  if negb exec_sp && is_epte_superpage e then set_rwx (e_r e) (e_w e) false e else e.

Definition ept_p2m_type_to_flags (e : ept_entry) : M ept_p2m ept_entry :=
  do! assert (negb (e_sa_p2mt e =? p2m_mmio_direct) || e_w (type_flags e) || negb (is_epte_superpage e)) in
  ret (superpage_flags (access_flags (type_flags e))).

(** ** Tables *)

Definition p2m_alloc_ptp : M ept_p2m Z :=
  let! s := get in
  match hap_alloc_page (dom (pt_tables s)) with
  | None => ret INVALID_MFN
  | Some mfn =>
      do! modify (fun s => set_tables (<[mfn := replicate EPT_PAGETABLE_ENTRIES empty_entry]> (pt_tables s)) s) in
      ret mfn
  end.

Definition p2m_free_ptp (m : Z) : M ept_p2m unit :=
  let! s := get in
  do! assert (bool_decide (is_Some (pt_tables s !! m))) in
  modify (fun s => set_tables (delete m (pt_tables s)) s).

(** A new table, and the entry that points to it. *)
Definition ept_set_middle_entry : M ept_p2m (option ept_entry) :=
  let! mfn := p2m_alloc_ptp in
  if mfn =? INVALID_MFN then ret None
  else
    do! modify (fun s => set_tables (alter (fmap (set_sve true)) mfn (pt_tables s)) s) in
    ret (Some (set_sve true (set_ad cpu_has_vmx_ept_ad false (set_rwx true true true
      (set_access default_access (set_mfn mfn empty_entry)))))).

(** Free the tables behind an entry. *)
Fixpoint ept_free_entry (level : nat) (e : ept_entry) : M ept_p2m unit :=
  match level with
  | O => ret tt
  | S l =>
      if negb (is_epte_present e) || is_epte_superpage e then ret tt
      else
        let! _ := (if (1 <? level)%nat
                   then for_upto EPT_PAGETABLE_ENTRIES 0 (fun i =>
                          let! c := tbl_read (e_mfn e) i in
                          do! ept_free_entry l c in ret true)
                   else ret true) in
        p2m_free_ptp (e_mfn e)
  end.

(** Replace a superpage entry by a table of smaller pages, down to the level
    [target]; the entry that results, and whether there was enough memory. *)
Fixpoint ept_split_super_page (level : nat) (e : ept_entry) (target : nat) : M ept_p2m (bool * ept_entry) :=
  match level with
  | O => ret (true, e)
  | S l =>
      if (level <=? target)%nat then ret (true, e)
      else
        do! assert (is_epte_superpage e) in
        let! mid := ept_set_middle_entry in
        match mid with
        | None => ret (false, e)
        | Some new_ept =>
            let trunk := Z.shiftl 1 (Z.of_nat l * EPT_TABLE_ORDER) in
            let! rv := for_upto EPT_PAGETABLE_ENTRIES 0 (fun i =>
              let! c := ept_p2m_type_to_flags
                          (set_snp iommu_snooping (set_mfn (e_mfn e + i * trunk) (set_sp (1 <? level)%nat e))) in
              do! tbl_write (e_mfn new_ept) i c in
              if (l =? target)%nat then ret true
              else
                do! assert (is_epte_superpage c) in
                let! '(ok, c') := ept_split_super_page l c target in
                do! tbl_write (e_mfn new_ept) i c' in
                ret ok) in
            ret (rv, new_ept)
        end
  end.

(** ** Walking *)

Definition GUEST_TABLE_MAP_FAILED : Z := 0.
Definition GUEST_TABLE_NORMAL_PAGE : Z := 1.
Definition GUEST_TABLE_SUPER_PAGE : Z := 2.
Definition GUEST_TABLE_POD_PAGE : Z := 3.

(** One step down from the table [m]: the result, the next table and the rest
    of the frame number. *)
Definition ept_next_level (read_only : bool) (m rem : Z) (level : nat) : M ept_p2m (Z * Z * Z) :=
  do! assert (negb (level =? 0)%nat) in
  let shift := Z.of_nat level * EPT_TABLE_ORDER in
  let index := Z.shiftr rem shift in
  do! assert (index <? Z.of_nat EPT_PAGETABLE_ENTRIES) in
  let rest := Z.land rem (Z.shiftl 1 shift - 1) in
  let! e := tbl_read m index in
  if negb (is_epte_present e) then
    if p2m_is_pod (e_sa_p2mt e) then ret (GUEST_TABLE_POD_PAGE, m, rem)
    else if read_only then ret (GUEST_TABLE_MAP_FAILED, m, rem)
    else
      let! mid := ept_set_middle_entry in
      match mid with
      | None => ret (GUEST_TABLE_MAP_FAILED, m, rem)
      | Some next =>
          let! rc := atomic_write_ept_entry m index next level in
          do! assert (rc =? 0) in
          ret (GUEST_TABLE_NORMAL_PAGE, e_mfn next, rest)
      end
  else if is_epte_superpage e then ret (GUEST_TABLE_SUPER_PAGE, m, rem)
  else ret (GUEST_TABLE_NORMAL_PAGE, e_mfn e, rest).

(** ** Deferred changes *)

(** Mark the present entries of a table for a new memory type: the [n]
    entries from [i] on. *)
Fixpoint invalidate_loop (n : nat) (m i : Z) (recalc : bool) (level : nat) (changed : bool) : M ept_p2m bool :=
  match n with
  | O => ret changed
  | S n =>
      let! e := tbl_read m i in
      if negb (is_epte_valid e) || negb (is_epte_present e) ||
         ((e_emt e =? MTRR_NUM_TYPES) && (e_recalc e || negb recalc))
      then invalidate_loop n m (i + 1) recalc level changed
      else
        let e := set_emt MTRR_NUM_TYPES e in
        let e := if recalc then set_recalc true e else e in
        let! rc := atomic_write_ept_entry m i e (level - 1) in
        do! assert (rc =? 0) in
        invalidate_loop n m (i + 1) recalc level true
  end.

Definition ept_invalidate_emt_subtree (m : Z) (recalc : bool) (level : nat) : M ept_p2m bool :=
  do! assert (negb (level =? 0)%nat) in
  invalidate_loop EPT_PAGETABLE_ENTRIES m 0 recalc level false.

(** Entry [i] of the last table, whose first entry maps [first]. *)
Definition resolve_leaf (m first i : Z) : M ept_p2m bool :=
  let! e := tbl_read m i in
  let e := if e_emt e =? MTRR_NUM_TYPES then set_emt 0 e else e in
  if negb (is_epte_valid e) || negb (is_epte_present e) then ret true
  else
    let '(emt, ipat) := epte_get_entry_emt (first + i) (e_mfn e) 0 (e_sa_p2mt e) in
    let e := set_ipat ipat (set_emt emt e) in
    let nt := p2m_recalc_type (e_recalc e) (e_sa_p2mt e) (first + i) in
    let! e := (if negb (nt =? e_sa_p2mt e) then ept_p2m_type_to_flags (set_p2mt nt e) else ret e) in
    let! wrc := atomic_write_ept_entry m i (set_recalc false e) 0 in
    do! assert (wrc =? 0) in ret true.

(** The walk of [resolve_misconfig] from the table [m] of [level] on. *)
Fixpoint resolve_loop (level : nat) (gfn m rc : Z) : M ept_p2m Z :=
  let shift := Z.of_nat level * EPT_TABLE_ORDER in
  let i := Z.land (Z.shiftr gfn shift) (Z.of_nat EPT_PAGETABLE_ENTRIES - 1) in
  let! e := tbl_read m i in
  match level with
  | O =>
      if negb (e_emt e =? MTRR_NUM_TYPES) then ret rc
      else let! _ := for_upto EPT_PAGETABLE_ENTRIES 0 (resolve_leaf m (gfn - i)) in ret 1
  | S l =>
      if is_epte_superpage e then
        if negb (e_emt e =? MTRR_NUM_TYPES) then ret rc
        else
          let '(emt, ipat) := epte_get_entry_emt gfn (e_mfn e) shift (e_sa_p2mt e) in
          let redo := e_recalc e && p2m_is_changeable (e_sa_p2mt e) in
          let mask := Z.shiftl (-1) shift in
          do! assert (negb redo || negb (e_sa_p2mt e =? p2m_ioreq_server)) in
          let dirty := p2m_is_logdirty_range (Z.land gfn mask) (Z.lor gfn (Z.lnot mask)) in
          let '(e1, emt) :=
            (if negb redo then (e, emt)
             else if dirty =? 0 then (set_recalc false (set_p2mt p2m_ram_rw e), emt)
             else if dirty =? 1 then (set_recalc false (set_p2mt p2m_ram_logdirty e), emt)
             else (e, -1)) in
          if emt <? 0 then
            let! '(ok, e2) := ept_split_super_page level e1 l in
            if ok : bool then
              let! wrc := atomic_write_ept_entry m i e2 level in
              do! assert (wrc =? 0) in
              resolve_loop l gfn (e_mfn e2) rc
            else do! ept_free_entry level e2 in ret (- ENOMEM)
          else
            let e2 := set_recalc false (set_ipat ipat (set_emt emt e1)) in
            let! e2 := (if e_recalc e && p2m_is_changeable (e_sa_p2mt e2) then ept_p2m_type_to_flags e2 else ret e2) in
            let! wrc := atomic_write_ept_entry m i e2 level in
            do! assert (wrc =? 0) in ret 1
      else if e_emt e =? MTRR_NUM_TYPES then
        do! assert (is_epte_present e) in
        let! _ := ept_invalidate_emt_subtree (e_mfn e) (e_recalc e) level in
        let! wrc := atomic_write_ept_entry m i (set_recalc false (set_emt 0 e)) level in
        do! assert (wrc =? 0) in
        resolve_loop l gfn (e_mfn e) 1
      else if is_epte_present e && (e_emt e =? 0) then resolve_loop l gfn (e_mfn e) rc
      else ret rc
  end.

Definition resolve_misconfig (gfn : Z) : M ept_p2m Z :=
  let! mfn := gets ept_mfn in
  if mfn =? 0 then ret 0
  else
    let! rc := resolve_loop wl gfn mfn 0 in
    do! (if negb (rc =? 0) then modify (set_spurious true) else ret tt) in
    ret rc.

(** The handler of the EPT misconfiguration exit, for the frame of [gpa]. *)
Definition ept_handle_misconfig (gpa : Z) : M ept_p2m bool :=
  let! spurious := gets pt_spurious in
  let! rc := resolve_misconfig (Z.shiftr gpa 12) in
  do! modify (set_spurious false) in
  ret (if spurious : bool then 0 <=? rc else 0 <? rc).

(** Cached translations are to be invalidated, now or when the caller has made
    all of its changes.  (The interrupt that makes the processors leave the
    guest has no effect on the state; nested guests are not part of the
    model.) *)
Definition ept_sync_domain : M ept_p2m unit :=
  modify (fun s =>
    if negb paging_mode_hap || negb has_vcpus then s
    else set_flush true (if defer_flush then true else pt_need_flush s) s).

Definition ept_memory_type_changed : M ept_p2m unit :=
  let! mfn := gets ept_mfn in
  if mfn =? 0 then ret tt
  else
    let! changed := ept_invalidate_emt_subtree mfn false wl in
    if changed : bool then ept_sync_domain else ret tt.

(** ** Changing an entry *)

Definition IOMMUF_readable : Z := 2 ^ 6.
Definition IOMMUF_writable : Z := 2 ^ 7.

Definition p2m_access_to_iommu_flags (a : Z) : Z :=
  if (a =? p2m_access_rw) || (a =? p2m_access_rwx) then Z.lor IOMMUF_readable IOMMUF_writable
  else if (a =? p2m_access_r) || (a =? p2m_access_rx) || (a =? p2m_access_rx2rw) then IOMMUF_readable
  else if (a =? p2m_access_w) || (a =? p2m_access_wx) then IOMMUF_writable
  else 0.

Definition p2m_get_iommu_flags (t a mfn : Z) : Z :=
  if p2m_in [p2m_ram_rw; p2m_grant_map_rw; p2m_ram_logdirty; p2m_map_foreign] t
  then Z.lor IOMMUF_readable IOMMUF_writable
  else if p2m_in [p2m_ram_ro; p2m_grant_map_ro] t then IOMMUF_readable
  else if t =? p2m_mmio_direct then
    let flags := p2m_access_to_iommu_flags a in
    if negb (Z.land flags IOMMUF_writable =? 0) && mmio_ro mfn then Z.land flags (Z.lnot IOMMUF_writable) else flags
  else 0.

(** The way down to [target]: the last result, level, table and rest. *)
Fixpoint set_walk (ret0 : Z) (i target : nat) (m rem : Z) : M ept_p2m (Z * nat * Z * Z) :=
  match i with
  | O => ret (ret0, i, m, rem)
  | S i' =>
      if (i <=? target)%nat then ret (ret0, i, m, rem)
      else
        let! '(r, m', rem') := ept_next_level false m rem i in
        if negb (r =? GUEST_TABLE_NORMAL_PAGE) then ret (r, i, m', rem')
        else set_walk r i' target m' rem'
  end.

(** The new entry: empty unless there is something to map. *)
Definition new_leaf (gfn mfn : Z) (i : nat) (t a : Z) : M ept_p2m ept_entry :=
  if mfn_valid mfn || p2m_allows_invalid_mfn t then
    let '(emt, ipat) := epte_get_entry_emt gfn mfn (Z.of_nat i * EPT_TABLE_ORDER) t in
    ept_p2m_type_to_flags
      (set_mfn mfn (set_snp iommu_snooping (set_access a (set_p2mt t (set_sp (negb (i =? 0)%nat) (set_ipat ipat
         (set_emt (if 0 <=? emt then emt else MTRR_NUM_TYPES) empty_entry)))))))
  else ret empty_entry.

(** The update of the IOMMU's tables (the host p2m). *)
Definition iommu_change (gfn mfn order flags : Z) (present : bool) : Z :=
  if iommu_use_hap_pt && negb iommu_dont_flush_iotlb
  then iommu_iotlb_flush gfn (Z.shiftl 1 order) (negb (flags =? 0)) present
  else if need_iommu_pt_sync then
    if negb (flags =? 0) then iommu_legacy_map gfn mfn (Z.shiftl 1 order) flags
    else iommu_legacy_unmap gfn (Z.shiftl 1 order)
  else 0.

(** Go to the entry of level [target], splitting a superpage on the way: its
    table and index, the old entry (none after a split), whether cached
    translations have to go, and whether an entry was present; nothing if there
    is no memory. *)
Definition set_place (gfn : Z) (target : nat) : M ept_p2m (option (Z * Z * ept_entry * bool * bool)) :=
  let! root := gets ept_mfn in
  let! '(r, i, m, rem) := set_walk GUEST_TABLE_MAP_FAILED wl target root gfn in
  if r =? GUEST_TABLE_MAP_FAILED then ret None
  else
    do! assert (negb (r =? GUEST_TABLE_POD_PAGE) || negb (i =? target)%nat) in
    let index := Z.shiftr rem (Z.of_nat i * EPT_TABLE_ORDER) in
    let! e := tbl_read m index in
    if (i =? target)%nat then ret (Some (m, index, e, is_epte_present e, is_epte_present e))
    else
      do! assert (is_epte_superpage e) in
      let! '(ok, e1) := ept_split_super_page i e target in
      if negb ok then do! ept_free_entry i e1 in ret None
      else
        let! wrc := atomic_write_ept_entry m index e1 i in
        do! assert (wrc =? 0) in
        let! '(_, i, m, rem) := set_walk GUEST_TABLE_NORMAL_PAGE i target m rem in
        do! assert (i =? target)%nat in
        ret (Some (m, Z.shiftr rem (Z.of_nat i * EPT_TABLE_ORDER), empty_entry, true, is_epte_present e)).

(** Write the new entry there and clean up. *)
Definition set_finish (gfn mfn order t a sve : Z) (target : nat) (place : Z * Z * ept_entry * bool * bool)
    : M ept_p2m Z :=
  let '(m, index, old, needs_sync, vtd_pte_present) := place in
  let iommu_flags := p2m_get_iommu_flags t a mfn in
  let! cur := tbl_read m index in
  let! new := new_leaf gfn mfn target t a in
  let need_modify := negb ((mfn_valid mfn || p2m_allows_invalid_mfn t) && (e_mfn cur =? e_mfn new) &&
    (p2m_get_iommu_flags (e_sa_p2mt cur) (e_access cur) (e_mfn cur) =? iommu_flags)) in
  let new := set_sve (if negb (sve =? -1) then negb (sve =? 0)
                      else if is_epte_valid old then e_suppress_ve old else true) new in
  let! rc := atomic_write_ept_entry m index new target in
  let written := rc =? 0 in
  let! max := gets pt_max in
  let last := gfn + Z.shiftl 1 order - 1 in
  do! (if written && negb (t =? p2m_invalid) && (max <? last) then modify (set_max last) else ret tt) in
  do! (if needs_sync : bool then ept_sync_domain else ret tt) in
  let rc := if (rc =? 0) && need_modify then iommu_change gfn mfn order iommu_flags vtd_pte_present else rc in
  do! (if written && is_epte_present old then ept_free_entry target old else ret tt) in
  if written then
    let rc' := p2m_altp2m_propagate_change gfn mfn order t a in
    ret (if rc =? 0 then rc' else rc)
  else ret rc.

Definition ept_set_entry (gfn mfn order t a sve : Z) : M ept_p2m Z :=
  let target := Z.to_nat (order / EPT_TABLE_ORDER) in
  let fn_mask := if negb (mfn =? INVALID_MFN) then Z.lor gfn mfn else gfn in
  if negb (Z.land fn_mask (Z.shiftl 1 order - 1) =? 0) ||
     negb (Z.shiftr gfn (Z.of_nat (wl + 1) * EPT_TABLE_ORDER) =? 0) ||
     negb (order mod EPT_TABLE_ORDER =? 0)
  then ret (- EINVAL)
  else
    let! rc := resolve_misconfig gfn in
    if rc <? 0 then ret rc
    else
      do! assert ((target =? 2)%nat && hap_has_1gb || (target =? 1)%nat && hap_has_2mb || (target =? 0)%nat) in
      do! assert (negb (p2m_is_foreign t) || (target =? 0)%nat) in
      let! place := set_place gfn target in
      match place with
      | None => do! ept_sync_domain in ret (- ENOMEM)
      | Some place => set_finish gfn mfn order t a sve target place
      end.

(** ** Looking a frame up *)

(** A frame above the highest one: the level of the hole. *)
Fixpoint hole_level (i : nat) (gfn max : Z) : nat :=
  match i with
  | O => O
  | S i' => if max <? Z.land gfn (Z.lnot (Z.shiftl 1 (Z.of_nat i * EPT_TABLE_ORDER) - 1)) then i
            else hole_level i' gfn max
  end.

(** The way down for a lookup: the table, rest and level of the leaf and
    whether a type change is pending; or the level where the walk ends.
    Populating memory on demand is not part of the model. *)
Fixpoint lookup_walk (i : nat) (m rem : Z) (recalc : bool) : M ept_p2m (nat + nat * Z * Z * bool) :=
  match i with
  | O => ret (inr (i, m, rem, recalc))
  | S i' =>
      let! e := tbl_read m (Z.shiftr rem (Z.of_nat i * EPT_TABLE_ORDER)) in
      let recalc := recalc || e_recalc e in
      let! '(r, m', rem') := ept_next_level true m rem i in
      if r =? GUEST_TABLE_MAP_FAILED then ret (inl i)
      else if r =? GUEST_TABLE_POD_PAGE then ub
      else if r =? GUEST_TABLE_SUPER_PAGE then ret (inr (i, m', rem', recalc))
      else lookup_walk i' m' rem' recalc
  end.

(** Frame, type, access right and order. *)
Definition ept_get_entry (gfn : Z) : M ept_p2m (Z * Z * Z * Z) :=
  let! s := get in
  if pt_max s <? gfn then
    ret (INVALID_MFN, p2m_mmio_dm, p2m_access_n, Z.of_nat (hole_level wl gfn (pt_max s)) * EPT_TABLE_ORDER)
  else
    let! w := lookup_walk wl (ept_mfn s) gfn false in
    match w with
    | inl i => ret (INVALID_MFN, p2m_mmio_dm, p2m_access_n, Z.of_nat i * EPT_TABLE_ORDER)
    | inr (i, m, rem, recalc) =>
        let order := Z.of_nat i * EPT_TABLE_ORDER in
        let! e := tbl_read m (Z.shiftr rem order) in
        do! assert (negb (p2m_is_pod (e_sa_p2mt e))) in
        if is_epte_valid e then
          ret (if (i =? 0)%nat then e_mfn e else e_mfn e + Z.land rem (Z.shiftl 1 order - 1),
               p2m_recalc_type (recalc || e_recalc e) (e_sa_p2mt e) gfn, e_access e, order)
        else ret (INVALID_MFN, p2m_mmio_dm, p2m_access_n, order)
    end.
End ept.
