(* ===== verification/EptSpec.v ===== *)
(** * Trees of extended page tables

    The tables as a tree: a node is a table with its frame, each of its
    entries is a leaf or points to a subtree.  [flat] lists the tables of a
    tree with their contents; [heap L s] says that the memory of [s] holds
    exactly the tables of [L].  [twf] is the invariant of the tree and [tview]
    what a lookup in it finds. *)

From S2P Require Import Prelude RbTree RbSpec RbHeap PageInfo XomDomain XomSeal P2mTypes XomGuest MemType Ept.

(** ** Entries *)

(** The wide members fit. *)
Record in_range (e : ept_entry) : Prop := {
  ir_emt : 0 <= e_emt e < 8;
  ir_mfn : 0 <= e_mfn e < 2 ^ 40;
  ir_type : 0 <= e_sa_p2mt e < 64;
  ir_access : 0 <= e_access e < 16
}.

Lemma b2z_range b : 0 <= Z.b2z b <= 1.
Proof. by destruct b. Qed.

(** Peeling one member off the word. *)
Lemma peel a k b : 0 < k -> 0 <= a < k -> (a + k * b) mod k = a /\ (a + k * b) / k = b.
Proof.
  intros Hk Ha. rewrite (Z.mul_comm k b). split.
  - rewrite Z.mod_add by lia. by apply Z.mod_small.
  - rewrite Z.div_add by lia. rewrite Z.div_small by done. lia.
Qed.

Lemma land_7 (r w x : bool) rest :
  Z.land (Z.b2z r + 2 * (Z.b2z w + 2 * (Z.b2z x + 2 * rest))) 7 = Z.b2z r + 2 * Z.b2z w + 4 * Z.b2z x.
Proof.
  change 7 with (Z.ones 3). rewrite Z.land_ones by lia.
  replace (Z.b2z r + 2 * (Z.b2z w + 2 * (Z.b2z x + 2 * rest)))
    with ((Z.b2z r + 2 * Z.b2z w + 4 * Z.b2z x) + rest * 2 ^ 3) by (change (2 ^ 3) with 8; lia).
  rewrite Z.mod_add by lia. apply Z.mod_small. pose proof (b2z_range r). pose proof (b2z_range w).
  pose proof (b2z_range x). lia.
Qed.

Lemma present_spec e : is_epte_present e = e_r e || e_w e || e_x e.
Proof.
  unfold is_epte_present, epte. rewrite land_7. by destruct (e_r e), (e_w e), (e_x e).
Qed.

Lemma ldiff_63 x : 0 <= x < 2 ^ 64 -> Z.land x (Z.lnot (2 ^ 63)) = x mod 2 ^ 63.
Proof.
  intros Hx. apply Z.bits_inj'. intros n Hn. rewrite Z.land_spec, Z.lnot_spec, Z.pow2_bits_eqb by lia.
  destruct (decide (n < 63)) as [Hlt|Hge].
  - rewrite Z.mod_pow2_bits_low by lia. destruct (Z.eqb_spec 63 n); [lia|]. by rewrite andb_true_r.
  - rewrite Z.mod_pow2_bits_high by lia. destruct (Z.eqb_spec 63 n) as [|Hne]; [by rewrite andb_false_r|].
    rewrite andb_true_r. apply Z.bits_above_log2; [lia|].
    destruct (decide (x = 0)) as [->|]; [cbn; lia|]. apply Z.log2_lt_pow2; [lia|].
    apply Z.lt_le_trans with (2 ^ 64); [lia|]. apply Z.pow_le_mono_r; lia.
Qed.

Lemma epte_sve e : epte e = epte (set_sve false e) + 2 ^ 63 * Z.b2z (e_suppress_ve e).
Proof. unfold epte, set_sve. cbn [e_r e_w e_x e_emt e_ipat e_sp e_a e_d e_recalc e_snp e_mfn e_sa_p2mt e_access e_rsvd e_suppress_ve]. change (Z.b2z false) with 0. lia. Qed.

Lemma epte_low e : in_range e -> 0 <= epte (set_sve false e) < 2 ^ 63.
Proof.
  intros [He Hm Ht Ha]. unfold epte, set_sve.
  cbn [e_r e_w e_x e_emt e_ipat e_sp e_a e_d e_recalc e_snp e_mfn e_sa_p2mt e_access e_rsvd e_suppress_ve].
  change (Z.b2z false) with 0.
  pose proof (b2z_range (e_r e)). pose proof (b2z_range (e_w e)). pose proof (b2z_range (e_x e)).
  pose proof (b2z_range (e_ipat e)). pose proof (b2z_range (e_sp e)). pose proof (b2z_range (e_a e)).
  pose proof (b2z_range (e_d e)). pose proof (b2z_range (e_recalc e)). pose proof (b2z_range (e_snp e)).
  pose proof (b2z_range (e_rsvd e)). lia.
Qed.

(** An entry is valid if something but [suppress_ve] is set. *)
Lemma valid_spec e : in_range e ->
  is_epte_valid e = negb (epte (set_sve false e) =? 0) && negb (e_sa_p2mt e =? p2m_invalid).
Proof.
  intros Hr. unfold is_epte_valid. do 3 f_equal. pose proof (epte_low e Hr) as Hl. pose proof (b2z_range (e_suppress_ve e)) as Hb.
  rewrite ldiff_63 by (rewrite epte_sve; lia). rewrite epte_sve, (Z.mul_comm (2 ^ 63)), Z.mod_add by lia.
  by apply Z.mod_small.
Qed.

Ltac epte_lia e :=
  unfold epte, set_sve in *;
  cbn [e_r e_w e_x e_emt e_ipat e_sp e_a e_d e_recalc e_snp e_mfn e_sa_p2mt e_access e_rsvd e_suppress_ve] in *;
  change (Z.b2z false) with 0 in *;
  pose proof (b2z_range (e_r e)); pose proof (b2z_range (e_w e)); pose proof (b2z_range (e_x e));
  pose proof (b2z_range (e_ipat e)); pose proof (b2z_range (e_sp e)); pose proof (b2z_range (e_a e));
  pose proof (b2z_range (e_d e)); pose proof (b2z_range (e_recalc e)); pose proof (b2z_range (e_snp e));
  pose proof (b2z_range (e_rsvd e)); lia.

Lemma in_range_sve b e : in_range e -> in_range (set_sve b e).
Proof. by intros []. Qed.

Lemma valid_sve b e : in_range e -> is_epte_valid (set_sve b e) = is_epte_valid e.
Proof. intros He. by rewrite !valid_spec by auto using in_range_sve. Qed.

Lemma valid_access e : in_range e -> e_access e <> 0 -> e_sa_p2mt e <> p2m_invalid -> is_epte_valid e = true.
Proof.
  intros He Ha Ht. rewrite valid_spec by done. apply andb_true_intro. split; [|lia].
  destruct He as [? ? ? ?]. apply negb_true_iff, Z.eqb_neq. epte_lia e.
Qed.

Lemma valid_present e : in_range e -> is_epte_present e = true -> e_sa_p2mt e <> p2m_invalid -> is_epte_valid e = true.
Proof.
  intros He Hp Ht. rewrite valid_spec by done. apply andb_true_intro. split; [|lia]. rewrite present_spec in Hp.
  assert (0 < Z.b2z (e_r e) + Z.b2z (e_w e) + Z.b2z (e_x e)) by (by destruct (e_r e), (e_w e), (e_x e)).
  destruct He as [? ? ? ?]. apply negb_true_iff, Z.eqb_neq. epte_lia e.
Qed.

(** ** Trees *)

#[local] Set Warnings "-register-all".
Inductive tree := Node (m : Z) (ks : list (ept_entry * option tree)).
Abbreviation slot := (ept_entry * option tree)%type.

Definition node_mfn (t : tree) : Z := let '(Node m _) := t in m.
Definition kids (t : tree) : list slot := let '(Node _ ks) := t in ks.

(** The tables of a tree, and of what an entry of level [l] points to. *)
Fixpoint flat (l : nat) (t : tree) : list (Z * list ept_entry) :=
  (node_mfn t, (kids t).*1) ::
  match l with
  | O => []
  | S l' => concat (map (fun k : slot => match k.2 with Some t' => flat l' t' | None => [] end) (kids t))
  end.

Definition flat_slot (l : nat) (k : slot) : list (Z * list ept_entry) :=
  match l, k.2 with S l', Some t => flat l' t | _, _ => [] end.

Lemma flat_eq l m ks : flat l (Node m ks) = (m, ks.*1) :: concat (map (flat_slot l) ks).
Proof.
  destruct l as [|l]; cbn; f_equal. induction ks as [|[e o] ks IH]; cbn; [done|]. by rewrite <- IH.
Qed.

(** The index of guest frame [g] in a table of level [l], and the number of
    frames an entry of that level maps. *)
Definition span (l : nat) : Z := 2 ^ (9 * Z.of_nat l).
Definition idx (l : nat) (g : Z) : nat := Z.to_nat ((g / span l) mod 512).

(** What is known of a frame: machine frame, type, access right, and whether
    the processor translates it. *)
Abbreviation view := (Z * Z * Z * bool)%type.

Definition hole : view := (INVALID_MFN, p2m_mmio_dm, p2m_access_n, false).

(** What a lookup finds in a leaf entry of level [l]. *)
Definition leaf_view (l : nat) (e : ept_entry) (g : Z) : view :=
  if negb (l =? 0)%nat && negb (is_epte_present e) then hole
  else if is_epte_valid e then (e_mfn e + g mod span l, e_sa_p2mt e, e_access e, is_epte_present e)
  else hole.

(** The leaf a guest frame leads to, with its level. *)
Fixpoint tleaf (l : nat) (t : tree) (g : Z) : nat * ept_entry :=
  match kids t !! idx l g with
  | Some (e, None) => (l, e)
  | Some (e, Some t') => match l with O => (O, empty_entry) | S l' => tleaf l' t' g end
  | None => (O, empty_entry)
  end.

Definition slot_leaf (l : nat) (k : slot) (g : Z) : nat * ept_entry :=
  match k.2 with
  | None => (l, k.1)
  | Some t' => match l with O => (O, empty_entry) | S l' => tleaf l' t' g end
  end.

Definition tview (l : nat) (t : tree) (g : Z) : view :=
  let '(i, e) := tleaf l t g in leaf_view i e g.
Definition slot_view (l : nat) (k : slot) (g : Z) : view :=
  let '(i, e) := slot_leaf l k g in leaf_view i e g.

Lemma tleaf_slot l t g k : kids t !! idx l g = Some k -> tleaf l t g = slot_leaf l k g.
Proof. intros Hk. destruct l; cbn; rewrite Hk; by destruct k as [e [t'|]]. Qed.

Lemma tview_slot l t g k : kids t !! idx l g = Some k -> tview l t g = slot_view l k g.
Proof. intros Hk. unfold tview, slot_view. by rewrite (tleaf_slot _ _ _ _ Hk). Qed.

Lemma span_S l : span (S l) = 512 * span l.
Proof. unfold span. rewrite Nat2Z.inj_succ, Z.mul_succ_r, Z.pow_add_r by lia. change (2 ^ 9) with 512. lia. Qed.

Lemma span_pos l : 0 < span l.
Proof. apply Z.pow_pos_nonneg; lia. Qed.

Lemma idx_lt l g : (idx l g < 512)%nat.
Proof. unfold idx. pose proof (Z.mod_pos_bound (g / span l) 512). lia. Qed.

Lemma idx_Z l g : Z.of_nat (idx l g) = (g / span l) mod 512.
Proof. unfold idx. pose proof (Z.mod_pos_bound (g / span l) 512). lia. Qed.

(** An offset in a superpage: the index one level down, and the rest. *)
Lemma mod_span_S l g : g mod span (S l) = Z.of_nat (idx l g) * span l + g mod span l.
Proof.
  rewrite idx_Z, span_S, (Z.mul_comm 512), Z.rem_mul_r by (pose proof (span_pos l); lia). lia.
Qed.

(** Frames in the same entry of level [l]. *)
Definition block (l : nat) (g g' : Z) : bool := g' / span l =? g / span l.

Lemma div_span i g : g / span i = 512 * (g / span (S i)) + Z.of_nat (idx i g).
Proof.
  rewrite idx_Z, span_S, (Z.mul_comm 512 (span i)), <- Z.div_div by (pose proof (span_pos i); lia).
  by apply Z.div_mod.
Qed.

Lemma span_ones i : span i - 1 = Z.ones (9 * Z.of_nat i).
Proof. rewrite Z.ones_equiv. unfold span. lia. Qed.

Lemma land_lnot_mask i x : Z.land x (Z.lnot (span i - 1)) = x - x mod span i.
Proof.
  rewrite span_ones, <- Z.ldiff_land, Z.ldiff_ones_r, Z.shiftl_mul_pow2, Z.shiftr_div_pow2 by lia. fold (span i).
  pose proof (Z.div_mod x (span i)). pose proof (span_pos i). lia.
Qed.

Lemma lor_mask i x : Z.lor x (span i - 1) = x - x mod span i + (span i - 1).
Proof.
  rewrite <- (land_lnot_mask i x), <- Z.ldiff_land.
  assert (Z.lor x (span i - 1) = Z.lor (Z.ldiff x (span i - 1)) (span i - 1)) as ->.
  { apply Z.bits_inj'. intros n Hn. rewrite !Z.lor_spec, Z.ldiff_spec. by destruct (Z.testbit x n), (Z.testbit (span i - 1) n). }
  symmetry. apply Z.add_nocarry_lor. apply Z.bits_inj'. intros n Hn. rewrite Z.land_spec, Z.ldiff_spec, Z.bits_0.
  by destruct (Z.testbit x n), (Z.testbit (span i - 1) n).
Qed.

(** ** The memory *)

Definition heap (L : list (Z * list ept_entry)) (s : ept_p2m) : Prop :=
  NoDup L.*1 /\ pt_tables s = list_to_map L.

(** Only the tables changed. *)
Definition only_tables (s s' : ept_p2m) : Prop := s' = set_tables (pt_tables s') s.

#[export] Instance only_tables_preorder : PreOrder only_tables.
Proof.
  split; [by intros []|]. intros s1 s2 s3 H1 H2. unfold only_tables in *. rewrite H2, H1. done.
Qed.

Lemma heap_perm L L' s : L ≡ₚ L' -> heap L s -> heap L' s.
Proof.
  intros HL [Hn Ht]. assert (NoDup L'.*1) as Hn' by (by rewrite <- HL).
  split; [done|]. rewrite Ht. by apply list_to_map_proper.
Qed.

(** Reading and writing a table. *)
Lemma wp_tbl_read m es L i e s (Q : ept_entry -> ept_p2m -> Prop) :
  heap ((m, es) :: L) s -> 0 <= i -> es !! Z.to_nat i = Some e -> Q e s -> wp (tbl_read m i) Q s.
Proof.
  intros [Hn Ht] Hi He HQ. exists e, s. split; [|done]. unfold tbl_read. rewrite Ht. cbn. rewrite lookup_insert_eq, He.
  destruct (0 <=? i) eqn:E; [done|lia].
Qed.

Lemma wp_tbl_write m es L i e s (Q : unit -> ept_p2m -> Prop) :
  heap ((m, es) :: L) s -> 0 <= i -> (Z.to_nat i < length es)%nat ->
  (forall s', only_tables s s' -> heap ((m, <[Z.to_nat i := e]> es) :: L) s' -> Q tt s') ->
  wp (tbl_write m i e) Q s.
Proof.
  intros Hh Hi Hl HQ. destruct (lookup_lt_is_Some_2 es _ Hl) as [e0 He0]. apply wp_bind.
  eapply wp_tbl_read; [done..|]. apply wp_modify, HQ; [done|]. destruct Hh as [Hn Ht]. split; [done|].
  cbn. rewrite Ht. cbn. by rewrite alter_insert_eq.
Qed.

(** A loop that does not break, or breaks with [false]. *)
Lemma wp_for_upto {S} (I : nat -> S -> Prop) (B : S -> Prop) body (Q : bool -> S -> Prop) n :
  forall k s, (forall j s, (k <= j < k + n)%nat -> I j s ->
      wp (body (Z.of_nat j)) (fun (go : bool) s' => if go then I (Datatypes.S j) s' else B s') s) ->
    I k s -> (forall s', I (k + n)%nat s' -> Q true s') -> (forall s', B s' -> Q false s') ->
    wp (for_upto n (Z.of_nat k) body) Q s.
Proof.
  induction n as [|n IH]; intros k s Hb HI HQ HB; cbn [for_upto].
  { apply wp_ret, HQ. by rewrite Nat.add_0_r. }
  apply wp_bind. eapply wp_mono; [apply Hb; [lia|done]|]. intros [] s' Hs'; [|by apply wp_ret, HB].
  replace (Z.of_nat k + 1) with (Z.of_nat (Datatypes.S k)) by lia. apply IH; [|done| |done].
  - intros j s1 Hj. apply Hb. lia.
  - intros s1 Hs1. apply HQ. by replace (k + Datatypes.S n)%nat with (Datatypes.S k + n)%nat by lia.
Qed.

(** *** One entry of a tree *)

Lemma concat_focus {A B} (f : A -> list B) ks i k :
  ks !! i = Some k -> concat (map f ks) ≡ₚ f k ++ concat (map f (delete i ks)).
Proof.
  revert i. induction ks as [|k0 ks IH]; intros [|i] Hk; cbn in *; [done..| |].
  - by simplify_eq.
  - rewrite (IH _ Hk). rewrite !app_assoc. by rewrite (Permutation_app_comm (f k0)).
Qed.

Lemma delete_insert_list {A} (ks : list A) i k : delete i (<[i := k]> ks) = delete i ks.
Proof. revert i. induction ks as [|k0 ks IH]; intros [|i]; cbn; [done..|]. by rewrite IH. Qed.

Lemma concat_focus_insert {A B} (f : A -> list B) ks i k' :
  (i < length ks)%nat -> concat (map f (<[i := k']> ks)) ≡ₚ f k' ++ concat (map f (delete i ks)).
Proof.
  intros Hi. rewrite (concat_focus f _ i k') by by apply list_lookup_insert_eq.
  by rewrite delete_insert_list.
Qed.

(** The other tables below a node. *)
Definition others (l : nat) (ks : list slot) (i : nat) : list (Z * list ept_entry) :=
  concat (map (flat_slot l) (delete i ks)).

Lemma flat_focus l m ks i k :
  ks !! i = Some k -> flat l (Node m ks) ≡ₚ (m, ks.*1) :: flat_slot l k ++ others l ks i.
Proof. intros Hk. rewrite flat_eq. by rewrite (concat_focus _ _ _ _ Hk). Qed.

Lemma flat_focus_insert l m ks i k' :
  (i < length ks)%nat ->
  flat l (Node m (<[i := k']> ks)) ≡ₚ (m, <[i := k'.1]> (ks.*1)) :: flat_slot l k' ++ others l ks i.
Proof. intros Hi. rewrite flat_eq, list_fmap_insert. by rewrite (concat_focus_insert _ _ _ _ Hi). Qed.

(** ** The invariant *)

(** What the environment promises: pages for tables are new and not frame 0,
    frame numbers fit, the IOMMU accepts a change or refuses it with a negative
    error, the domain has no alternate p2m to which changes go on, and the range
    registers and pinned ranges hold memory types. *)
Class EptLaws `{EptEnv} := {
  hap_alloc_fresh : forall used m, hap_alloc_page used = Some m -> (m ∉ used) /\ 0 < m < 2 ^ 40;
  mfn_valid_range : forall m, mfn_valid m = true -> 0 <= m < 2 ^ 40;
  iommu_result : forall gfn mfn order flags present, iommu_change gfn mfn order flags present <= 0;
  no_altp2m : forall gfn mfn order t a, p2m_altp2m_propagate_change gfn mfn order t a = 0;
  guest_mtrr_wf : match guest_mtrr with Some m => mtrr_wf m | None => True end;
  host_mtrr_wf : mtrr_wf host_mtrr;
  pinned_ranges_wf : pinned_wf pinned_cacheattr_ranges
}.

(** Whether entries may be marked for the recalculation of their type, which a
    change of the types of a range leaves to the next use.  Without such
    changes there are no marks. *)
Class Recalc := may_recalc : bool.
#[export] Instance settled : Recalc | 100 := false.

Section invariant.
Context `{EptEnv} {rc : Recalc}.

(** The entry with the flags of its type and access right. *)
Definition flagged (e : ept_entry) : ept_entry := superpage_flags (access_flags (type_flags e)).
Definition rights (e : ept_entry) : bool * bool * bool := (e_r (flagged e), e_w (flagged e), e_x (flagged e)).

(** Types without an account of their uses. *)
Definition plain (t : Z) : bool := negb (t =? p2m_ioreq_server) && negb (t =? p2m_map_foreign).

(** A memory type, or the mark of one that is still to be computed. *)
Definition emt_ok (emt : Z) : Prop := mem_type emt \/ emt = MTRR_NUM_TYPES.

(** A leaf of level [l]: its frames exist or its type needs none, its flags
    are those of its type and right, and superpages are present. *)
Record leaf_ok (l : nat) (e : ept_entry) : Prop := {
  lo_range : in_range e;
  lo_fits : e_mfn e + span l <= 2 ^ 40;
  lo_aligned : e_mfn e mod span l = 0;
  lo_recalc : e_recalc e = true -> may_recalc = true /\ is_epte_present e = true /\ e_emt e = MTRR_NUM_TYPES;
  lo_rights : (e_r e, e_w e, e_x e) = rights e;
  lo_backed : is_epte_valid e = true -> forall j, 0 <= j < span l ->
    mfn_valid (e_mfn e + j) || p2m_allows_invalid_mfn (e_sa_p2mt e) = true;
  lo_type : p2m_is_pod (e_sa_p2mt e) = false /\ p2m_is_broken (e_sa_p2mt e) = false;
  lo_super : e_sp e = negb (l =? 0)%nat && is_epte_present e;
  lo_level : e_sp e = true -> (l < wl)%nat;
  lo_emt : emt_ok (e_emt e);
  lo_pending : l <> O -> e_sp e = false -> e_emt e <> MTRR_NUM_TYPES;
  lo_plain : l <> O -> plain (e_sa_p2mt e) = true;
  lo_writable : l <> O -> e_sa_p2mt e = p2m_mmio_direct -> forall j, 0 <= j < span l -> mmio_ro (e_mfn e + j) = false
}.

(** An entry that points to a table. *)
Record middle_ok (e : ept_entry) : Prop := {
  mo_range : in_range e;
  mo_rwx : e_r e = true /\ e_w e = true /\ e_x e = true;
  mo_sp : e_sp e = false;
  mo_recalc : e_recalc e = true -> may_recalc = true /\ e_emt e = MTRR_NUM_TYPES;
  mo_ipat : e_ipat e = false;
  mo_type : e_sa_p2mt e = p2m_ram_rw;
  mo_emt : e_emt e = 0 \/ e_emt e = MTRR_NUM_TYPES
}.

Fixpoint twf (l : nat) (t : tree) : Prop :=
  length (kids t) = EPT_PAGETABLE_ENTRIES /\
  Forall (fun k : slot => match k.2 with
                          | None => leaf_ok l k.1
                          | Some t' => match l with
                                       | O => False
                                       | S l' => middle_ok k.1 /\ e_mfn k.1 = node_mfn t' /\ twf l' t'
                                       end
                          end) (kids t).

Definition slot_wf (l : nat) (k : slot) : Prop :=
  match k.2 with
  | None => leaf_ok l k.1
  | Some t' => match l with O => False | S l' => middle_ok k.1 /\ e_mfn k.1 = node_mfn t' /\ twf l' t' end
  end.

Lemma twf_eq l t : twf l t <-> length (kids t) = EPT_PAGETABLE_ENTRIES /\ Forall (slot_wf l) (kids t).
Proof. destruct l; done. Qed.

Lemma twf_slot l t g : twf l t -> exists k, kids t !! idx l g = Some k /\ slot_wf l k.
Proof.
  intros [Hl Hf]%twf_eq. destruct (lookup_lt_is_Some_2 (kids t) (idx l g)) as [k Hk].
  { rewrite Hl. apply idx_lt. }
  exists k. split; [done|]. by eapply Forall_lookup_1.
Qed.

Lemma twf_insert l m ks i k : twf l (Node m ks) -> slot_wf l k -> twf l (Node m (<[i := k]> ks)).
Proof.
  intros [Hl Hf]%twf_eq Hk. apply twf_eq. cbn in *. split; [by rewrite length_insert|]. by apply Forall_insert.
Qed.
End invariant.

Lemma twf_impl (E1 E2 : EptEnv) (m1 m2 : Recalc) : (forall l e, @leaf_ok E1 m1 l e -> @leaf_ok E2 m2 l e) -> (forall e, @middle_ok m1 e -> @middle_ok m2 e) ->
  forall l t, @twf E1 m1 l t -> @twf E2 m2 l t.
Proof.
  intros Hleaf Hmid. induction l as [|l IH]; intros t [Hlen Hall]%twf_eq; apply twf_eq; (split; [done|]); (eapply Forall_impl; [exact Hall|]);
    intros [e [t1|]] Hk; try done; try (by apply Hleaf). destruct Hk as (? & ? & ?). split_and!; [by apply Hmid|done|by apply IH].
Qed.

Lemma lo_settled `{EptEnv} l e : leaf_ok l e -> e_recalc e = false.
Proof. intros Hl. pose proof (lo_recalc _ _ Hl) as Hr. destruct (e_recalc e); [by destruct (Hr eq_refl)|done]. Qed.
Lemma mo_settled `{EptEnv} e : middle_ok e -> e_recalc e = false.
Proof. intros Hm. pose proof (mo_recalc _ Hm) as Hr. destruct (e_recalc e); [by destruct (Hr eq_refl)|done]. Qed.

(** *** Memory types *)

Section emt.
Context `{EptEnv, !EptLaws}.

Lemma combine_mem_type g h : mem_type g -> mem_type h -> mem_type (combine_types g h).
Proof.
  intros Hg Hh. unfold combine_types. repeat case_match; try done; [by left|by right; right; right; left|by left].
Qed.

(** [epte_get_entry_emt] gives a memory type, or fails on a superpage. *)
Lemma emt_type gfn mfn order t : 0 <= gfn < 2 ^ 64 ->
  let emt := (epte_get_entry_emt gfn mfn order t).1 in mem_type emt \/ (emt = -1 /\ order <> 0).
Proof.
  intros Hg. unfold epte_get_entry_emt.
  assert (mem_type X86_MT_UC /\ mem_type X86_MT_WB) as [Huc Hwb] by (split; [by left|by do 4 right]).
  destruct (mmio_ro_overlaps _ _).
  { destruct (Z.eqb_spec order 0); [by left|]. destruct (mmio_ro_contains _ _); [by left|by right]. }
  destruct (negb (mfn_valid mfn)); [by left|]. destruct (_ && _ && _); [by left|]. cbn zeta.
  remember (special_pages _ _) as special eqn:Hspe. destruct (Z.eqb_spec special 0) as [H0'|H0']; cbn [negb].
  2: { destruct (Z.eqb_spec special (Z.shiftl 1 order)) as [H1|H1]; [by left|right]. split; [done|]. intros ->.
    change (Z.to_nat (Z.shiftl 1 0)) with 1%nat in Hspe. cbn in Hspe, H1. by destruct (is_special_page mfn). }
  destruct (t =? p2m_mmio_direct); [by left|]. destruct (_ || _ || _); [by left|].
  pose proof (pinned_type _ gfn order pinned_ranges_wf) as Hp. pose proof (pinned_4k _ gfn Hg pinned_ranges_wf) as Hp0.
  cbn zeta in Hp, Hp0. destruct (Z.leb_spec 0 (hvm_get_mem_pinned_cacheattr pinned_cacheattr_ranges gfn order)) as [Hle|Hlt].
  { left. cbn [fst]. destruct Hp as [Hp|[Hp|[Hp|Hp]]]; [rewrite Hp in Hle; done..| |by rewrite Hp].
    by destruct (negb _). }
  destruct (Z.eqb_spec (hvm_get_mem_pinned_cacheattr pinned_cacheattr_ranges gfn order) (- EADDRNOTAVAIL)) as [Ha|Ha].
  { right. split; [done|]. intros ->. rewrite Ha in Hp0. clear - Hp0.
    unfold mem_type, ENXIO, EADDRNOTAVAIL, X86_MT_UC, X86_MT_WC, X86_MT_WT, X86_MT_WP, X86_MT_WB, X86_MT_UCM in Hp0. lia. }
  assert (forall m pa, mtrr_wf m -> mem_type (mtrr_get_type m pa order) \/ ((mtrr_get_type m pa order <? 0) = true /\ order <> 0)) as Hmt.
  { intros m pa Hm. destruct (mtrr_get_type_range m pa order Hm) as [?|[-> ?]]; auto. }
  set (g := match guest_mtrr with Some _ => _ | None => _ end). set (h := mtrr_get_type host_mtrr (Z.shiftl mfn PAGE_SHIFT) order).
  assert (mem_type g \/ ((g <? 0) = true /\ order <> 0)) as Hgt.
  { unfold g. pose proof guest_mtrr_wf as Hw. destruct guest_mtrr; [by apply Hmt|by left]. }
  destruct (Hmt host_mtrr (Z.shiftl mfn PAGE_SHIFT) host_mtrr_wf : mem_type h \/ ((h <? 0) = true /\ order <> 0)) as [Hht|[Hneg Ho]].
  - destruct Hgt as [Hgt|[-> Ho]]; [|by right]. left. pose proof (mem_type_range _ Hgt). pose proof (mem_type_range _ Hht).
    destruct (Z.ltb_spec g 0); [lia|]. destruct (Z.ltb_spec h 0); [lia|]. by apply combine_mem_type.
  - right. by rewrite Hneg, orb_true_r.
Qed.

Lemma emt_mod emt : emt_ok emt -> emt mod 8 = emt.
Proof. intros Hm. apply Z.mod_small. destruct Hm as [[? _]%mem_type_range| ->]; [lia|done]. Qed.
End emt.

(** ** Flags *)

Section flags.
Context `{EptEnv} {rc : Recalc}.

Definition rwx (e : ept_entry) : bool * bool * bool := (e_r e, e_w e, e_x e).

(** The three steps as functions of the members they read. *)
Definition type_rwx (t : Z) (sp ro : bool) : bool * bool * bool :=
  if t =? p2m_ram_rw then (true, true, true)
  else if t =? p2m_ioreq_server then (true, negb ioreq_write_access, false)
  else if t =? p2m_mmio_direct then (true, negb ro, true)
  else if t =? p2m_ram_logdirty then (true, vmx_domain_pml_enabled && negb sp, true)
  else if (t =? p2m_ram_ro) || (t =? p2m_ram_shared) then (true, false, true)
  else if (t =? p2m_grant_map_rw) || (t =? p2m_map_foreign) then (true, true, false)
  else if t =? p2m_grant_map_ro then (true, false, false)
  else (false, false, false).

Definition access_rwx (a : Z) (p : bool * bool * bool) : bool * bool * bool :=
  let '(r, w, x) := p in
  if (a =? p2m_access_n) || (a =? p2m_access_n2rwx) then (false, false, false)
  else if a =? p2m_access_r then (r, false, false)
  else if a =? p2m_access_w then (false, w, false)
  else if a =? p2m_access_x then (false, false, x)
  else if (a =? p2m_access_rx) || (a =? p2m_access_rx2rw) then (r, false, x)
  else if a =? p2m_access_wx then (false, w, x)
  else if a =? p2m_access_rw then (r, w, false)
  else (r, w, x).

Definition super_rwx (sp : bool) (p : bool * bool * bool) : bool * bool * bool :=
  let '(r, w, x) := p in (r, w, x && negb (negb exec_sp && sp)).

(** Nothing but the flags changed. *)
Definition reflagged (e e' : ept_entry) : Prop := exists r w x a d, e' = set_rwx r w x (set_ad a d e).

Lemma reflagged_trans e1 e2 e3 : reflagged e1 e2 -> reflagged e2 e3 -> reflagged e1 e3.
Proof. intros (? & ? & ? & ? & ? & ->) (? & ? & ? & ? & ? & ->). by do 5 eexists. Qed.

Lemma type_flags_spec e :
  reflagged e (type_flags e) /\ rwx (type_flags e) = type_rwx (e_sa_p2mt e) (e_sp e) (mmio_ro (e_mfn e)).
Proof.
  unfold type_flags, type_rwx, is_epte_superpage. destruct e. cbn.
  repeat case_match; (split; [by do 5 eexists|done]).
Qed.

Lemma access_flags_spec e :
  reflagged e (access_flags e) /\ rwx (access_flags e) = access_rwx (e_access e) (rwx e).
Proof.
  unfold access_flags, access_rwx. destruct e. cbn. repeat case_match; (split; [by do 5 eexists|done]).
Qed.

Lemma superpage_flags_spec e :
  reflagged e (superpage_flags e) /\ rwx (superpage_flags e) = super_rwx (e_sp e) (rwx e).
Proof.
  unfold superpage_flags, super_rwx, is_epte_superpage. destruct e as [r w x ? ? sp ? ? ? ? ? ? ? ? ?]. cbn.
  destruct exec_sp, sp, x; (split; [by do 5 eexists|done]).
Qed.

Lemma flagged_spec e :
  reflagged e (flagged e) /\
  rights e = super_rwx (e_sp e) (access_rwx (e_access e) (type_rwx (e_sa_p2mt e) (e_sp e) (mmio_ro (e_mfn e)))).
Proof.
  destruct (type_flags_spec e) as [H1 E1], (access_flags_spec (type_flags e)) as [H2 E2],
    (superpage_flags_spec (access_flags (type_flags e))) as [H3 E3].
  pose proof (reflagged_trans _ _ _ H1 H2) as H12. split; [by eapply reflagged_trans|].
  unfold rights, flagged. change (rwx (superpage_flags (access_flags (type_flags e))) = super_rwx (e_sp e)
    (access_rwx (e_access e) (type_rwx (e_sa_p2mt e) (e_sp e) (mmio_ro (e_mfn e))))).
  rewrite E3, E2, E1. destruct H12 as (? & ? & ? & ? & ? & ->), H1 as (? & ? & ? & ? & ? & ->). done.
Qed.

Lemma flagged_form e : exists r w x a d, flagged e = set_rwx r w x (set_ad a d e).
Proof. apply flagged_spec. Qed.

(** The rights only depend on type, access right, size and, for device memory,
    on whether the frame is read-only. *)
Lemma rights_ext e e' :
  e_sa_p2mt e' = e_sa_p2mt e -> e_access e' = e_access e -> e_sp e' = e_sp e ->
  (e_sa_p2mt e = p2m_mmio_direct -> mmio_ro (e_mfn e') = mmio_ro (e_mfn e)) -> rights e' = rights e.
Proof.
  intros Ht Ha Hs Hm. rewrite (proj2 (flagged_spec e)), (proj2 (flagged_spec e')), Ht, Ha, Hs. do 2 f_equal.
  unfold type_rwx. destruct (Z.eqb_spec (e_sa_p2mt e) p2m_mmio_direct) as [Hd|]; [by rewrite Hm|done].
Qed.

Lemma rights_flagged e : rights (flagged e) = rights e.
Proof.
  destruct (flagged_form e) as (r & w & x & a & d & ->). by apply rights_ext.
Qed.

Lemma rights_none e : e_access e = p2m_access_n \/ e_sa_p2mt e = p2m_invalid -> rights e = (false, false, false).
Proof.
  rewrite (proj2 (flagged_spec e)). intros [->| ->]; cbn.
  - by destruct (type_rwx _ _ _) as [[? ?] ?].
  - unfold access_rwx. repeat case_match; done.
Qed.

Lemma leaf_present l e : leaf_ok l e -> is_epte_present e = true ->
  e_access e <> p2m_access_n /\ e_sa_p2mt e <> p2m_invalid /\ is_epte_valid e = true.
Proof.
  intros Hl Hp. assert (e_access e <> p2m_access_n /\ e_sa_p2mt e <> p2m_invalid) as [Ha Ht].
  { split; intros Heq; pose proof (lo_rights _ _ Hl) as Hr; rewrite rights_none in Hr by auto;
      injection Hr as H1 H2 H3; by rewrite present_spec, H1, H2, H3 in Hp. }
  split_and!; [done..|]. apply valid_present; [apply Hl|done..].
Qed.

(** Some right is left. *)
Definition any (p : bool * bool * bool) : bool := let '(r, w, x) := p in r || w || x.

Lemma present_rwx e : is_epte_present e = any (rwx e).
Proof. apply present_spec. Qed.

(** A smaller page does not lose all rights. *)
Lemma any_super t a (sp ro : bool) : any (super_rwx true (access_rwx a (type_rwx t true ro))) = true ->
  any (super_rwx sp (access_rwx a (type_rwx t sp ro))) = any (super_rwx true (access_rwx a (type_rwx t true ro))).
Proof.
  intros Hany. rewrite Hany. destruct sp; [done|].
  assert (exists r w w' x, type_rwx t true ro = (r, w, x) /\ type_rwx t false ro = (r, w', x) /\ (w = true -> w' = true))
    as (r & w & w' & x & E1 & E2 & Hw).
  { unfold type_rwx. repeat case_match; do 4 eexists; (split_and!; [reflexivity..|]); try done. by rewrite andb_false_r. }
  rewrite E1 in Hany. rewrite E2. revert Hany. unfold access_rwx.
  repeat case_match; cbn; destruct exec_sp, r, w, w', x; cbn; intros; try done; by specialize (Hw eq_refl).
Qed.

Lemma present_rights e e' : (e_r e, e_w e, e_x e) = (e_r e', e_w e', e_x e') -> is_epte_present e = is_epte_present e'.
Proof. intros [= H1 H2 H3]. by rewrite !present_spec, H1, H2, H3. Qed.

Lemma wp_type_to_flags e (Q : ept_entry -> ept_p2m -> Prop) s :
  (e_sa_p2mt e = p2m_mmio_direct -> e_sp e = true -> mmio_ro (e_mfn e) = false) ->
  Q (flagged e) s -> wp (ept_p2m_type_to_flags e) Q s.
Proof.
  intros Hm HQ. apply wp_bind, wp_assert; [|by apply wp_ret].
  unfold type_flags, is_epte_superpage. destruct (Z.eqb_spec (e_sa_p2mt e) p2m_mmio_direct) as [Ht|]; [|done].
  rewrite Ht. cbn. destruct (e_sp e); [by rewrite Hm|by rewrite orb_true_r].
Qed.

(** ** The pages of a superpage *)

Definition small_page (l : nat) (e : ept_entry) (i : Z) : ept_entry :=
  flagged (set_snp iommu_snooping (set_mfn (e_mfn e + i * span l) (set_sp (negb (l =? 0)%nat) e))).

Lemma small_page_fields l e i : leaf_ok (S l) e -> 0 <= i < 512 ->
  let c := small_page l e i in
  e_emt c = e_emt e /\ e_recalc c = e_recalc e /\ e_mfn c = e_mfn e + i * span l /\
  e_sa_p2mt c = e_sa_p2mt e /\ e_access c = e_access e /\ e_sp c = negb (l =? 0)%nat.
Proof.
  intros Hl Hi c. unfold c, small_page. destruct (flagged_form (set_snp iommu_snooping
    (set_mfn (e_mfn e + i * span l) (set_sp (negb (l =? 0)%nat) e)))) as (r & w & x & a & d & ->). cbn.
  split_and!; try done. pose proof (lo_fits _ _ Hl) as Hf. rewrite span_S in Hf. pose proof (span_pos l).
  pose proof (ir_mfn _ (lo_range _ _ Hl)). apply Z.mod_small. nia.
Qed.

Lemma small_page_rights l e i :
  (e_r (small_page l e i), e_w (small_page l e i), e_x (small_page l e i)) = rights (small_page l e i).
Proof. unfold small_page. by rewrite rights_flagged. Qed.

Section small.
Context (l : nat) (e : ept_entry) (i : Z) (Hl : leaf_ok (S l) e) (Hsp : e_sp e = true) (Hi : 0 <= i < 512).

Lemma super_present : is_epte_present e = true.
Proof. pose proof (lo_super _ _ Hl) as Hs. rewrite Hsp in Hs. cbn in Hs. by symmetry. Qed.

(** A page of a superpage has at least the rights of the superpage. *)
Lemma small_page_present : is_epte_present (small_page l e i) = true.
Proof.
  destruct (small_page_fields l e i Hl Hi) as (_ & _ & Hm & Ht & Ha & Hs). pose proof (span_pos l). pose proof (span_S l).
  transitivity (is_epte_present e); [|apply super_present]. rewrite !present_rwx. unfold rwx. rewrite small_page_rights, (lo_rights _ _ Hl).
  rewrite !(proj2 (flagged_spec _)), Ht, Ha, Hs, Hsp.
  replace (type_rwx (e_sa_p2mt e) (negb (l =? 0)%nat) (mmio_ro (e_mfn (small_page l e i))))
    with (type_rwx (e_sa_p2mt e) (negb (l =? 0)%nat) (mmio_ro (e_mfn e))).
  2: { unfold type_rwx. destruct (Z.eqb_spec (e_sa_p2mt e) p2m_mmio_direct) as [Hd|]; [|done].
       rewrite Hm, (lo_writable _ _ Hl) by (done || nia).
       by rewrite <- (Z.add_0_r (e_mfn e)), (lo_writable _ _ Hl) by (done || nia). }
  apply any_super. pose proof super_present as Hp. rewrite present_rwx in Hp. unfold rwx in Hp.
  by rewrite (lo_rights _ _ Hl), (proj2 (flagged_spec e)), Hsp in Hp.
Qed.

Lemma small_page_ok : leaf_ok l (small_page l e i).
Proof.
  destruct (small_page_fields l e i Hl Hi) as (He & Hr & Hm & Ht & Ha & Hs).
  destruct (leaf_present _ _ Hl super_present) as (_ & _ & Hv). pose proof (span_pos l). pose proof (span_S l).
  pose proof (lo_fits _ _ Hl). destruct (lo_range _ _ Hl) as [? ? ? ?]. split.
  - split; rewrite ?He, ?Hm, ?Ht, ?Ha; try done. nia.
  - rewrite Hm. nia.
  - rewrite Hm, Z.mod_add by lia. pose proof (lo_aligned _ _ Hl) as Hal. rewrite span_S in Hal.
    apply Z.div_exact in Hal; [|lia]. rewrite Hal, (Z.mul_comm 512), <- Z.mul_assoc, (Z.mul_comm (span l)). apply Z.mod_mul. lia.
  - rewrite Hr, He, small_page_present. intros Hre. by destruct (lo_recalc _ _ Hl Hre) as (? & _ & ?).
  - apply small_page_rights.
  - intros _ j Hj. rewrite Hm, Ht, <- Z.add_assoc. apply (lo_backed _ _ Hl); [done|nia].
  - rewrite Ht. apply Hl.
  - by rewrite Hs, small_page_present, andb_true_r.
  - intros _. pose proof (lo_level _ _ Hl Hsp). lia.
  - rewrite He. apply Hl.
  - rewrite Hs. intros Hne Hf. by destruct (Nat.eqb_spec l 0).
  - rewrite Ht. intros _. by apply (lo_plain _ _ Hl).
  - rewrite Ht, Hm. intros _ Hd j Hj. rewrite <- Z.add_assoc. apply (lo_writable _ _ Hl); [done|done|nia].
Qed.
End small.

Lemma small_page_view l e g : leaf_ok (S l) e -> e_sp e = true ->
  leaf_view l (small_page l e (Z.of_nat (idx l g))) g = leaf_view (S l) e g.
Proof.
  intros Hl Hsp. pose proof (super_present _ _ Hl Hsp) as Hp. pose proof (idx_lt l g) as Hi.
  destruct (small_page_fields l e (Z.of_nat (idx l g)) Hl) as (_ & _ & Hm & Ht & Ha & _); [lia|].
  destruct (leaf_present _ _ Hl Hp) as (Hac & Hty & Hv).
  pose proof (small_page_ok l e (Z.of_nat (idx l g)) Hl Hsp ltac:(lia)) as Hc.
  assert (is_epte_valid (small_page l e (Z.of_nat (idx l g))) = true) as Hvc.
  { apply valid_access; [apply Hc|by rewrite Ha|by rewrite Ht]. }
  unfold leaf_view. rewrite Hvc, Hv, Hp, Hm, Ht, Ha. cbn [Nat.eqb negb andb].
  rewrite (small_page_present l e _ Hl Hsp) by lia. rewrite andb_false_r. do 3 f_equal. rewrite mod_span_S. lia.
Qed.
End flags.
