(* ===== verification/EptOps.v ===== *)
(** * Splitting, freeing and resolving on trees

    Each operation of [Ept] that changes tables, as a change of the tree the
    tables represent: none of them changes what a lookup finds. *)

From S2P Require Import Prelude RbTree RbSpec RbHeap PageInfo XomDomain XomSeal P2mTypes XomGuest MemType Ept EptSpec.

Section ops.
Context `{EptEnv, !EptLaws} {rc : Recalc}.

(** ** Writing an entry *)

Lemma flat_slot_leaf l e : flat_slot l (e, None) = [].
Proof. by destruct l. Qed.

Lemma heap_open l m ks i k L s :
  ks !! i = Some k -> heap (flat l (Node m ks) ++ L) s ->
  heap ((m, ks.*1) :: flat_slot l k ++ others l ks i ++ L) s.
Proof. intros Hk. apply heap_perm. rewrite (flat_focus _ _ _ _ _ Hk). cbn. by rewrite <- app_assoc. Qed.

Lemma heap_close l m ks i k L s :
  (i < length ks)%nat -> heap ((m, <[i := k.1]> (ks.*1)) :: flat_slot l k ++ others l ks i ++ L) s ->
  heap (flat l (Node m (<[i := k]> ks)) ++ L) s.
Proof. intros Hi. apply heap_perm. rewrite (flat_focus_insert _ _ _ _ _ Hi). cbn. by rewrite <- app_assoc. Qed.

(** Entry [i] of a node, whose subtree has already been replaced in memory,
    gets the value that goes with the new subtree. *)
Lemma wp_write_slot l m ks i k L s (Q : unit -> ept_p2m -> Prop) :
  (i < length ks)%nat -> heap ((m, ks.*1) :: flat_slot l k ++ others l ks i ++ L) s ->
  (forall s', only_tables s s' -> heap (flat l (Node m (<[i := k]> ks)) ++ L) s' -> Q tt s') ->
  wp (tbl_write m (Z.of_nat i) k.1) Q s.
Proof.
  intros Hi Hh HQ. eapply wp_tbl_write; [exact Hh|lia|by rewrite length_fmap, Nat2Z.id|].
  intros s' Hs'. rewrite Nat2Z.id. intros Hh'. apply HQ; [done|]. by apply heap_close.
Qed.

Lemma wp_read_slot l m ks i k L s (Q : ept_entry -> ept_p2m -> Prop) :
  ks !! i = Some k -> heap (flat l (Node m ks) ++ L) s -> Q k.1 s -> wp (tbl_read m (Z.of_nat i)) Q s.
Proof.
  intros Hk Hh HQ. eapply wp_tbl_read; [by eapply heap_open|lia| |exact HQ]. by rewrite Nat2Z.id, list_lookup_fmap, Hk.
Qed.

Lemma heap_kid_close l m ks i e t1 t1' L s : ks !! i = Some (e, Some t1) ->
  heap (flat l t1' ++ (m, ks.*1) :: others (S l) ks i ++ L) s -> heap (flat (S l) (Node m (<[i := (e, Some t1')]> ks)) ++ L) s.
Proof.
  intros Hk Hh. apply heap_close; [by eapply lookup_lt_Some|]. eapply heap_perm; [|exact Hh].
  rewrite list_insert_id; [|by rewrite list_lookup_fmap, Hk]. cbn [flat_slot snd]. by rewrite <- Permutation_middle.
Qed.

(** The accounting of types does nothing for plain types and for an entry that
    keeps frame and type. *)
Definition unaccounted (level : nat) (old new : ept_entry) : Prop :=
  (level <> O -> plain (e_sa_p2mt new) = true) /\
  (level = O -> (e_sa_p2mt new = e_sa_p2mt old /\ e_mfn new = e_mfn old) \/
                (plain (e_sa_p2mt new) = true /\ plain (e_sa_p2mt old) = true)).

Lemma wp_entry_modify level old new s (Q : Z -> ept_p2m -> Prop) :
  unaccounted level old new -> Q 0 s ->
  wp (p2m_entry_modify (e_sa_p2mt new) (e_sa_p2mt old) (e_mfn new) (e_mfn old) (level + 1)) Q s.
Proof.
  intros [H1 H2] HQ. unfold p2m_entry_modify. replace (level + 1)%nat with (S level) by lia.
  apply wp_bind, wp_assert; [done|]. unfold plain in *. apply wp_bind, wp_assert.
  { destruct level; [done|]. specialize (H1 ltac:(done)). cbn. destruct (_ =? p2m_ioreq_server), (_ =? p2m_map_foreign); done. }
  destruct level as [|level]; cbn [Nat.eqb negb orb]; [|by apply wp_ret].
  destruct (H2 eq_refl) as [[-> ->]|[Hn Ho]]; [rewrite !Z.eqb_refl; by apply wp_ret|].
  apply andb_prop in Hn as [Hn1%negb_true_iff Hn2%negb_true_iff], Ho as [Ho1%negb_true_iff Ho2%negb_true_iff].
  destruct ((e_sa_p2mt new =? e_sa_p2mt old) && _); [by apply wp_ret|]. rewrite Hn1, Hn2, Ho1, Ho2.
  apply wp_bind, wp_ret. by apply wp_ret.
Qed.

Lemma wp_atomic_write l m ks i k L s old level (Q : Z -> ept_p2m -> Prop) :
  ks.*1 !! i = Some old -> heap ((m, ks.*1) :: flat_slot l k ++ others l ks i ++ L) s ->
  unaccounted level old k.1 ->
  (forall s', only_tables s s' -> heap (flat l (Node m (<[i := k]> ks)) ++ L) s' -> Q 0 s') ->
  wp (atomic_write_ept_entry m (Z.of_nat i) k.1 level) Q s.
Proof.
  intros Hold Hh Hun HQ. apply wp_bind. eapply wp_tbl_read; [exact Hh|lia|by rewrite Nat2Z.id|].
  apply wp_bind, wp_entry_modify; [done|]. cbn. apply wp_bind.
  eapply wp_write_slot; [|exact Hh|]; [apply lookup_lt_Some in Hold; by rewrite length_fmap in Hold|].
  intros s' Ho Hh'. apply wp_ret. by apply HQ.
Qed.

(** ** New tables *)

Definition sve_entry : ept_entry := set_sve true empty_entry.

Lemma empty_ok l b : (l <= wl)%nat -> leaf_ok l (set_sve b empty_entry).
Proof.
  intros Hl. split; try done.
  - cbn. unfold span. apply Z.le_trans with (2 ^ (9 * Z.of_nat wl)); [|done]. apply Z.pow_le_mono_r; lia.
  - symmetry. apply rights_none. by left.
  - by destruct b.
  - cbn. by destruct l, b.
  - by left; left.
Qed.

Lemma wp_set_middle_entry L s (Q : option ept_entry -> ept_p2m -> Prop) :
  heap L s -> Q None s ->
  (forall e s', only_tables s s' -> middle_ok e -> e_emt e = 0 -> e_recalc e = false ->
     heap ((e_mfn e, replicate EPT_PAGETABLE_ENTRIES sve_entry) :: L) s' -> Q (Some e) s') ->
  wp ept_set_middle_entry Q s.
Proof.
  intros [Hn Ht] HN HS. apply wp_bind. unfold p2m_alloc_ptp. apply wp_bind, wp_get.
  destruct (hap_alloc_page _) as [m|] eqn:Ha; [|by apply wp_ret, wp_ret].
  apply hap_alloc_fresh in Ha as [Hf Hm]. apply wp_bind, wp_modify, wp_ret.
  rewrite (eqb_neq_false m INVALID_MFN) by (unfold INVALID_MFN; lia). apply wp_bind, wp_modify, wp_ret, HS; [done|..].
  - split; [split; cbn; try (by apply Z.mod_pos_bound); lia|done..|by left].
  - done.
  - done.
  - split; cbn.
    + constructor; [|done]. rewrite Z.mod_small by lia. intros Hin. apply Hf.
      by rewrite Ht, dom_list_to_map_L, elem_of_list_to_set.
    + rewrite Z.mod_small by lia. rewrite Ht, alter_insert_eq. done.
Qed.

(** ** Freeing *)

Lemma leaf_not_table l e : leaf_ok l e -> l <> O -> negb (is_epte_present e) || is_epte_superpage e = true.
Proof.
  intros Hl Hne. unfold is_epte_superpage. rewrite (lo_super _ _ Hl). destruct (Nat.eqb_spec l 0); [done|].
  by destruct (is_epte_present e).
Qed.

Lemma middle_present e : middle_ok e -> is_epte_present e = true.
Proof. intros Hm. rewrite present_spec. by destruct (mo_rwx _ Hm) as (-> & _). Qed.

Lemma middle_table e : middle_ok e -> negb (is_epte_present e) || is_epte_superpage e = false.
Proof. intros Hm. rewrite middle_present by done. apply Hm. Qed.

Lemma middle_valid e : middle_ok e -> is_epte_valid e = true.
Proof. intros Hm. apply valid_present; [apply Hm|by apply middle_present|by rewrite (mo_type _ Hm)]. Qed.

Lemma wp_free_ptp m es L s (Q : unit -> ept_p2m -> Prop) :
  heap ((m, es) :: L) s -> (forall s', only_tables s s' -> heap L s' -> Q tt s') -> wp (p2m_free_ptp m) Q s.
Proof.
  intros [Hn Ht] HQ. cbn in Hn. apply NoDup_cons in Hn as [Hm Hn]. apply wp_bind, wp_get, wp_bind, wp_assert.
  { apply bool_decide_eq_true. rewrite Ht. cbn. rewrite lookup_insert_eq. eauto. }
  apply wp_modify, HQ; [done|]. split; [done|]. cbn. rewrite Ht. cbn. rewrite delete_insert_id; [done|].
  by apply not_elem_of_list_to_map_1.
Qed.

(** The tables behind an entry are freed, and no others. *)
Lemma ept_free_entry_spec l : forall k L s, slot_wf l k -> heap (flat_slot l k ++ L) s ->
  wp (ept_free_entry l k.1) (fun _ s' => only_tables s s' /\ heap L s') s.
Proof.
  induction l as [|l IH]; intros [e [t|]] L s Hk Hh; cbn [ept_free_entry]; [done|by apply wp_ret| |].
  2: { rewrite (leaf_not_table _ _ Hk) by done. by apply wp_ret. }
  destruct Hk as (Hm & Hmfn & Ht). rewrite (middle_table _ Hm). cbn [fst] in *. rewrite Hmfn.
  destruct t as [m ks]. cbn [node_mfn] in *. unfold flat_slot in Hh. cbn [snd] in Hh. rewrite flat_eq in Hh.
  apply twf_eq in Ht as [Hlen Hall]. cbn [kids] in *. apply wp_bind.
  eapply wp_mono with (P := fun _ s' => only_tables s s' /\ heap ((m, ks.*1) :: L) s').
  2: { intros _ s1 [Ho Hh1]. eapply wp_free_ptp; [exact Hh1|]. intros s2 Ho2 Hh2. split; [by etrans|done]. }
  destruct l as [|l]; cbn [Nat.ltb Nat.leb].
  { apply wp_ret. split; [done|]. replace (concat (map (flat_slot 0) ks)) with (@nil (Z * list ept_entry)) in Hh; [done|].
    clear. by induction ks. }
  set (f := fun j => (m, ks.*1) :: concat (map (flat_slot (S l)) (drop j ks)) ++ L).
  eapply (wp_for_upto (fun j s' => only_tables s s' /\ heap (f j) s') (fun _ => False) _ _ _ 0); [|done| |done].
  - intros j s1 Hj [Ho Hh1]. destruct (lookup_lt_is_Some_2 ks j) as [k Hkj]; [rewrite Hlen; lia|].
    unfold f in Hh1. rewrite (drop_S _ _ _ Hkj) in Hh1. cbn [map concat] in Hh1. apply wp_bind.
    eapply wp_tbl_read; [exact Hh1|lia|by rewrite Nat2Z.id, list_lookup_fmap, Hkj|]. apply wp_bind. eapply wp_mono.
    + apply (IH k (f (S j))); [by eapply Forall_lookup_1|]. eapply heap_perm; [|exact Hh1]. unfold f.
      rewrite <- app_assoc. by rewrite Permutation_middle.
    + intros _ s2 [Ho2 Hh2]. apply wp_ret. split; [by etrans|done].
  - intros s1 [Ho Hh1]. split; [done|]. unfold f in Hh1. rewrite drop_ge in Hh1; [done|]. rewrite Hlen. lia.
Qed.

(** ** Pending memory types *)

(** An entry that makes the processor report a misconfiguration. *)
Definition pending_entry (e : ept_entry) : bool := is_epte_present e && (e_emt e =? MTRR_NUM_TYPES).

(** The walk for [g] meets an entry with [f]. *)
Fixpoint on_path (f : ept_entry -> bool) (l : nat) (t : tree) (g : Z) : bool :=
  match kids t !! idx l g with
  | None => false
  | Some (e, o) => f e || match l, o with S l', Some t' => on_path f l' t' g | _, _ => false end
  end.

Definition slot_path (f : ept_entry -> bool) (l : nat) (k : slot) (g : Z) : bool :=
  f k.1 || match l, k.2 with S l', Some t' => on_path f l' t' g | _, _ => false end.

Lemma on_path_slot f l t g k : kids t !! idx l g = Some k -> on_path f l t g = slot_path f l k g.
Proof. intros Hk. destruct l, k; cbn; by rewrite Hk. Qed.

Lemma slot_path_leaf f l e g : slot_path f l (e, None) g = f e.
Proof. destruct l; apply orb_false_r. Qed.

(** ... one that makes it stop, and one whose type is to be recalculated. *)
Definition pending : nat -> tree -> Z -> bool := on_path pending_entry.
Definition slot_pending : nat -> slot -> Z -> bool := slot_path pending_entry.
Definition recalcs : nat -> tree -> Z -> bool := on_path e_recalc.

Lemma pending_slot l t g e o : kids t !! idx l g = Some (e, o) ->
  pending l t g = pending_entry e || match l, o with S l', Some t' => pending l' t' g | _, _ => false end.
Proof. apply on_path_slot. Qed.

Lemma pending_leaf l t g e : kids t !! idx l g = Some (e, None) -> pending l t g = pending_entry e.
Proof. intros Hk. rewrite (pending_slot _ _ _ _ _ Hk). destruct l; apply orb_false_r. Qed.

Lemma not_pending e : e_emt e <> MTRR_NUM_TYPES -> pending_entry e = false.
Proof. intros He. unfold pending_entry. rewrite (eqb_neq_false _ _ He). apply andb_false_r. Qed.

(** ** Splitting *)

(** The pages behind [k] are marked as the entry [e] was. *)
Definition same_marks (l : nat) (k : slot) (g : Z) (e : ept_entry) : Prop :=
  slot_pending l k g = pending_entry e /\ slot_path e_recalc l k g = e_recalc e.

(** The slots of a table that is being filled with the pages of [e]: those
    below [j] are done, the others are empty. *)
Record filling (l target : nat) (e : ept_entry) (ks : list slot) (j : nat) : Prop := {
  fl_length : length ks = EPT_PAGETABLE_ENTRIES;
  fl_wf : Forall (slot_wf l) ks;
  fl_done : forall g k, (idx l g < j)%nat -> ks !! idx l g = Some k ->
    slot_view l k g = leaf_view (S l) e g /\ (slot_leaf l k g).1 = target /\ e_emt (slot_leaf l k g).2 = e_emt e /\
    same_marks l k g e;
  fl_rest : forall i, (j <= i < EPT_PAGETABLE_ENTRIES)%nat -> ks !! i = Some (sve_entry, None)
}.

Lemma filling_0 l target e : (l <= wl)%nat -> filling l target e (replicate EPT_PAGETABLE_ENTRIES (sve_entry, None)) 0.
Proof.
  intros Hl. split; [apply length_replicate| |lia|].
  - apply Forall_replicate. by apply empty_ok.
  - intros i Hi. apply lookup_replicate. split; [done|lia].
Qed.

Lemma filling_S l target e ks j k : filling l target e ks j -> (j < EPT_PAGETABLE_ENTRIES)%nat -> slot_wf l k ->
  (forall g, idx l g = j ->
     slot_view l k g = leaf_view (S l) e g /\ (slot_leaf l k g).1 = target /\ e_emt (slot_leaf l k g).2 = e_emt e /\
     same_marks l k g e) ->
  filling l target e (<[j := k]> ks) (S j).
Proof.
  intros [Hlen Hwf Hdone Hrest] Hj Hk Hg. split.
  - by rewrite length_insert.
  - by apply Forall_insert.
  - intros g k' Hi Hk'. destruct (decide (idx l g = j)) as [Heq|Hne].
    + rewrite Heq, list_lookup_insert_eq in Hk' by lia. simplify_eq. by apply Hg.
    + rewrite list_lookup_insert_ne in Hk' by done. apply Hdone; [lia|done].
  - intros i Hi. rewrite list_lookup_insert_ne by lia. apply Hrest. lia.
Qed.

(** What a split leaves: the same pages, at most [target] levels up if there
    was enough memory. *)
Definition split_post (level target : nat) (e : ept_entry) L s (r : bool * ept_entry) s' : Prop :=
  only_tables s s' /\ exists o, slot_wf level (r.2, o) /\ heap (flat_slot level (r.2, o) ++ L) s' /\
    (r.1 = true -> forall g, slot_view level (r.2, o) g = leaf_view level e g /\
                             ((target < level)%nat -> (slot_leaf level (r.2, o) g).1 = target /\
                                e_emt (slot_leaf level (r.2, o) g).2 = e_emt e /\ e_emt r.2 = 0 /\
                                same_marks level (r.2, o) g e)).

(** One more page of a superpage; [rec] splits it further. *)
Lemma split_step l target e L s m ks j (rec : ept_entry -> M ept_p2m (bool * ept_entry)) :
  leaf_ok (S l) e -> e_sp e = true -> (target <= l)%nat -> (l <= wl)%nat -> (j < EPT_PAGETABLE_ENTRIES)%nat ->
  filling l target e ks j -> heap (flat l (Node m ks) ++ L) s ->
  (forall c L s, leaf_ok l c -> e_sp c = true -> heap L s -> wp (rec c) (split_post l target c L s) s) ->
  wp (let! c := ept_p2m_type_to_flags
                  (set_snp iommu_snooping (set_mfn (e_mfn e + Z.of_nat j * span l) (set_sp (negb (l =? 0)%nat) e))) in
      do! tbl_write m (Z.of_nat j) c in
      if (l =? target)%nat then ret true
      else
        do! assert (is_epte_superpage c) in
        let! '(ok, c') := rec c in
        do! tbl_write m (Z.of_nat j) c' in
        ret ok)
     (fun ok s' => only_tables s s' /\ exists ks', heap (flat l (Node m ks') ++ L) s' /\
        if ok then filling l target e ks' (S j) else length ks' = EPT_PAGETABLE_ENTRIES /\ Forall (slot_wf l) ks') s.
Proof.
  intros He Hsp Htgt Hwl Hj Hf Hh Hrec. pose proof (fl_length _ _ _ _ _ Hf) as Hlen.
  assert (0 <= Z.of_nat j < 512) as Hj' by (unfold EPT_PAGETABLE_ENTRIES in Hj; lia).
  pose proof (small_page_ok l e _ He Hsp Hj') as Hc. pose proof (fl_rest _ _ _ _ _ Hf j ltac:(lia)) as Hkj.
  destruct (small_page_fields l e _ He Hj') as (Hce & Hcr & Hcm & _ & _ & Hcs). pose proof (span_pos l). pose proof (span_S l).
  apply wp_bind, wp_type_to_flags.
  { cbn. intros Hd Hs. rewrite Z.mod_small by (pose proof (lo_fits _ _ He); pose proof (ir_mfn _ (lo_range _ _ He)); nia).
    apply (lo_writable _ _ He); [done|done|nia]. }
  fold (small_page l e (Z.of_nat j)). set (c := small_page l e (Z.of_nat j)) in *.
  assert (pending_entry c = pending_entry e) as Hcp.
  { unfold pending_entry. pose proof (small_page_present l e _ He Hsp Hj') as Hpc. fold c in Hpc. by rewrite Hce, Hpc, (super_present _ _ He Hsp). }
  apply wp_bind. eapply (wp_write_slot l m ks j (c, None)); [lia|by eapply (heap_open _ _ _ _ _ _ _ Hkj)|].
  intros s1 Ho1 Hh1.
  assert (forall g, idx l g = j -> leaf_view l c g = leaf_view (S l) e g) as Hview.
  { intros g <-. by apply small_page_view. }
  destruct (Nat.eqb_spec l target) as [->|Hne].
  { apply wp_ret. split; [done|]. eexists. split; [exact Hh1|]. apply filling_S; [done|done|done|].
    intros g Hg. split_and!; [by apply Hview|done|done|]. split; unfold slot_pending; by rewrite slot_path_leaf. }
  assert (e_sp c = true) as Hcsp by (rewrite Hcs; destruct (Nat.eqb_spec l 0); [lia|done]).
  apply wp_bind, wp_assert; [exact Hcsp|]. apply wp_bind.
  set (ks1 := <[j := (c, None)]> ks) in *. assert (ks1 !! j = Some (c, None)) as Hk1 by (apply list_lookup_insert_eq; lia).
  eapply wp_mono; [eapply Hrec; [done|done|]|].
  { eapply heap_perm; [|exact (heap_open _ _ _ _ _ _ _ Hk1 Hh1)]. done. }
  intros [ok c'] s2 (Ho2 & o & Hwf & Hh2 & Hok). cbn [fst snd] in *. apply wp_bind.
  eapply (wp_write_slot l m ks1 j (c', o) L); [unfold ks1; rewrite length_insert; lia| |].
  { eapply heap_perm; [|exact Hh2]. rewrite flat_slot_leaf. by rewrite <- Permutation_middle. }
  intros s3 Ho3 Hh3. unfold ks1 in Hh3. rewrite list_insert_insert_eq in Hh3. apply wp_ret.
  split; [etrans; [done|by etrans]|]. eexists. split; [exact Hh3|]. destruct ok.
  - apply filling_S; [done|done|done|]. intros g Hg. destruct (Hok eq_refl g) as [Hv Hl].
    destruct Hl as (? & Hle & _ & Hp); [lia|]. destruct Hp as [Hp Hr]. rewrite Hce in Hle. rewrite Hcp in Hp. rewrite Hcr in Hr.
    split_and!; [by rewrite Hv, Hview|done|done|by split].
  - rewrite length_insert. split; [done|]. apply Forall_insert; [apply Hf|done].
Qed.

Lemma shiftl_span l : Z.shiftl 1 (Z.of_nat l * EPT_TABLE_ORDER) = span l.
Proof. unfold span, EPT_TABLE_ORDER. rewrite Z.shiftl_1_l. f_equal. lia. Qed.

Lemma ltb_1_S l : (1 <? S l)%nat = negb (l =? 0)%nat.
Proof. by destruct l. Qed.

(** Splitting a superpage changes no mapping; when memory runs out the caller
    gets the tables that were built, to be freed. *)
Lemma ept_split_super_page_spec level target : (level <= wl)%nat -> forall e L s,
  leaf_ok level e -> ((target < level)%nat -> e_sp e = true) -> heap L s ->
  wp (ept_split_super_page level e target) (split_post level target e L s) s.
Proof.
  induction level as [|l IH]; intros Hwl e L s He Hsp Hh; cbn [ept_split_super_page].
  { apply wp_ret. split; [done|]. exists None. split_and!; [done|done|]. intros _ g. split; [done|]. cbn. lia. }
  destruct (Nat.leb_spec (S l) target) as [Hle|Hlt].
  { apply wp_ret. split; [done|]. exists None. split_and!; [done|done|]. intros _ g. split; [done|]. cbn. lia. }
  specialize (Hsp Hlt). apply wp_bind, wp_assert; [done|]. apply wp_bind, (wp_set_middle_entry L); [done|..].
  { apply wp_ret. split; [done|]. exists None. by split_and!. }
  intros mid s1 Ho1 Hmid Hemt Hrec Hh1. rewrite shiftl_span, ltb_1_S. set (m := e_mfn mid) in *.
  assert (heap (flat l (Node m (replicate EPT_PAGETABLE_ENTRIES (sve_entry, None))) ++ L) s1) as Hh1'.
  { rewrite flat_eq, fmap_replicate. replace (concat _) with (@nil (Z * list ept_entry)); [done|].
    generalize EPT_PAGETABLE_ENTRIES. intros n. induction n as [|n IHn]; [done|]. cbn [replicate map concat].
    by rewrite flat_slot_leaf. }
  apply wp_bind. eapply (wp_for_upto
    (fun j s' => only_tables s s' /\ exists ks, heap (flat l (Node m ks) ++ L) s' /\ filling l target e ks j)
    (fun s' => only_tables s s' /\ exists ks, heap (flat l (Node m ks) ++ L) s' /\
                length ks = EPT_PAGETABLE_ENTRIES /\ Forall (slot_wf l) ks) _ _ _ 0).
  - intros j s2 Hj (Ho2 & ks & Hh2 & Hf). eapply wp_mono.
    { apply (split_step l target e L s2 m ks j (fun c => ept_split_super_page l c target)); try done; try lia.
      intros c L' s' Hc Hcs Hh'. apply IH; [lia|done|done|done]. }
    intros ok s3 (Ho3 & ks' & Hh3 & Hf3). assert (only_tables s s3) by (by etrans). destruct ok; eauto.
  - split; [done|]. eexists. split; [done|]. apply filling_0. lia.
  - intros s2 (Ho2 & ks & Hh2 & Hf). apply wp_ret. split; [done|]. exists (Some (Node m ks)).
    pose proof (fl_length _ _ _ _ _ Hf) as Hlen. split_and!; [|done|].
    + split_and!; [done|done|]. apply twf_eq. split; [done|apply Hf].
    + intros _ g. destruct (lookup_lt_is_Some_2 ks (idx l g)) as [k Hk]; [rewrite Hlen; apply idx_lt|].
      destruct (fl_done _ _ _ _ _ Hf g k) as (Hv & Hl & Hle & Hp); [apply idx_lt|done|].
      unfold slot_view, slot_leaf. cbn [snd fst]. rewrite (tleaf_slot l (Node m ks) g k Hk). split_and!; try done. intros _.
      split_and!; [done|done|done|]. unfold same_marks, slot_pending, slot_path. cbn [fst snd]. rewrite not_pending by (by rewrite Hemt).
      rewrite Hrec. cbn [orb]. rewrite !(on_path_slot _ l (Node m ks) g k Hk). exact Hp.
  - intros s2 (Ho2 & ks & Hh2 & Hlen & Hwf). apply wp_ret. split; [done|]. exists (Some (Node m ks)).
    split_and!; [|done|done]. split_and!; [done|done|]. by apply twf_eq.
Qed.

(** ** Changes that no lookup sees *)

Definition same_tree (l : nat) (t t' : tree) : Prop :=
  node_mfn t' = node_mfn t /\ twf l t' /\ forall g, tview l t' g = tview l t g.

Lemma same_tree_refl l t : twf l t -> same_tree l t t.
Proof. done. Qed.

Lemma same_tree_trans l t1 t2 t3 : same_tree l t1 t2 -> same_tree l t2 t3 -> same_tree l t1 t3.
Proof.
  intros (Hm1 & _ & Hv1) (Hm2 & Hw2 & Hv2). split_and!; [congruence|done|]. intros g. by rewrite Hv2.
Qed.

Lemma same_tree_insert l m ks i k k' : twf l (Node m ks) -> ks !! i = Some k -> slot_wf l k' ->
  (forall g, idx l g = i -> slot_view l k' g = slot_view l k g) ->
  same_tree l (Node m ks) (Node m (<[i := k']> ks)).
Proof.
  intros Ht Hk Hk' Hv. split_and!; [done|by apply twf_insert|]. intros g.
  destruct (decide (idx l g = i)) as [<-|Hne].
  - rewrite (tview_slot l (Node m ks) g k Hk). rewrite (tview_slot l _ g k'); [by apply Hv|].
    apply list_lookup_insert_eq. by eapply lookup_lt_Some.
  - destruct (twf_slot l _ g Ht) as (k0 & Hk0 & _). rewrite (tview_slot l _ g k0 Hk0).
    apply tview_slot. cbn. by rewrite list_lookup_insert_ne.
Qed.

Lemma slot_plain l k : slot_wf l k -> l <> O -> plain (e_sa_p2mt k.1) = true.
Proof.
  destruct k as [e [t|]]; cbn; [|intros Hl; apply Hl]. destruct l; [done|]. intros (Hm & _) _. by rewrite (mo_type _ Hm).
Qed.

(** Entry [i] is replaced by one with the same frame and type. *)
Lemma wp_atomic_same l m ks i e o e' o' L s level (Q : Z -> ept_p2m -> Prop) :
  twf l (Node m ks) -> ks !! i = Some (e, o) -> heap ((m, ks.*1) :: flat_slot l (e', o') ++ others l ks i ++ L) s ->
  slot_wf l (e', o') -> (forall g, idx l g = i -> slot_view l (e', o') g = slot_view l (e, o) g) ->
  (level = O -> l = O /\ e_sa_p2mt e' = e_sa_p2mt e /\ e_mfn e' = e_mfn e) -> (l = O -> level = O) ->
  (forall s' t', only_tables s s' -> same_tree l (Node m ks) t' -> t' = Node m (<[i := (e', o')]> ks) ->
     heap (flat l t' ++ L) s' -> Q 0 s') ->
  wp (atomic_write_ept_entry m (Z.of_nat i) e' level) Q s.
Proof.
  intros Ht Hk Hh Hk' Hv Hl0 Hl1 HQ.
  eapply (wp_atomic_write l m ks i (e', o')); [by rewrite list_lookup_fmap, Hk|exact Hh| |].
  - split; [|by intros Hl; left; apply Hl0]. intros Hne. apply (slot_plain l _ Hk'). intros Hl. by apply Hne, Hl1.
  - intros s' Ho Hh'. eapply HQ; [done|by eapply same_tree_insert|done|done].
Qed.

(** Every entry of the table that the processor uses has its type pending. *)
Definition marked (n : nat) (t : tree) : Prop :=
  forall i k, (i < n)%nat -> kids t !! i = Some k -> is_epte_present k.1 = true -> e_emt k.1 = MTRR_NUM_TYPES.

Lemma slot_present_valid l k : slot_wf l k -> is_epte_present k.1 = true -> is_epte_valid k.1 = true.
Proof.
  destruct k as [e [t|]]; [destruct l; [done|]; intros (Hm & _) _; by apply middle_valid|].
  intros Hl Hp. by apply (leaf_present l).
Qed.

Lemma marked_S i t : marked i t -> (forall k, kids t !! i = Some k -> is_epte_present k.1 = true -> e_emt k.1 = MTRR_NUM_TYPES) ->
  marked (S i) t.
Proof. intros Hm Hi j k Hj Hk. destruct (decide (j = i)) as [->|]; [by apply Hi|]. apply (Hm j); [lia|done]. Qed.

Lemma tleaf_le l t g : ((tleaf l t g).1 <= l)%nat.
Proof.
  revert t. induction l as [|l IH]; intros t; cbn.
  - by destruct (kids t !! _) as [[e [?|]]|].
  - destruct (kids t !! _) as [[e [t'|]]|]; cbn; [|lia|lia]. specialize (IH t'). lia.
Qed.

Lemma land_idx l g : Z.land (Z.shiftr g (Z.of_nat l * EPT_TABLE_ORDER)) (Z.of_nat EPT_PAGETABLE_ENTRIES - 1) = Z.of_nat (idx l g).
Proof.
  rewrite idx_Z. change (Z.of_nat EPT_PAGETABLE_ENTRIES - 1) with (Z.ones 9). rewrite Z.land_ones by lia.
  rewrite Z.shiftr_div_pow2 by (unfold EPT_TABLE_ORDER; lia). unfold span, EPT_TABLE_ORDER. by rewrite Z.mul_comm.
Qed.

(** The subtree behind an entry, with the rest as frame. *)
Lemma heap_kid l m ks i e t1 L s :
  ks !! i = Some (e, Some t1) -> heap (flat (S l) (Node m ks) ++ L) s ->
  heap (flat l t1 ++ (m, ks.*1) :: others (S l) ks i ++ L) s.
Proof.
  intros Hk Hh. eapply heap_perm; [|exact (heap_open _ _ _ _ _ _ _ Hk Hh)]. cbn [flat_slot snd].
  by rewrite <- Permutation_middle.
Qed.

End ops.
