(* ===== verification/EptResolve.v ===== *)
(** * Carrying out deferred changes

    A change of memory types or of the types of frames only marks entries; the
    walk of [resolve_misconfig] carries the change out on the way to a frame.
    It leaves what lookups report of every page: the types that are stored may
    change, to those that lookups calculate already.  Without types to be
    recalculated, it changes no mapping at all. *)

From S2P Require Import Prelude RbTree RbSpec RbHeap PageInfo XomDomain XomSeal P2mTypes XomGuest MemType Ept EptSpec EptOps.

(** ** Frames of the same entry *)

Lemma block_down l a g : block (S l) a g = true -> idx l g = idx l a -> block l a g = true.
Proof. unfold block. intros H%Z.eqb_eq Hi. apply Z.eqb_eq. rewrite (div_span l g), (div_span l a). congruence. Qed.

Lemma block_up l a g : block l a g = true -> block (S l) a g = true /\ idx l g = idx l a.
Proof.
  unfold block. intros H%Z.eqb_eq. split; [|unfold idx; by rewrite H]. apply Z.eqb_eq. pose proof (span_pos l).
  rewrite span_S, (Z.mul_comm 512), <- !Z.div_div by lia. by rewrite H.
Qed.

Lemma block_last a g : block 1 a g = true -> g = a - Z.of_nat (idx 0 a) + Z.of_nat (idx 0 g).
Proof.
  unfold block. intros H%Z.eqb_eq. pose proof (div_span 0 a) as Ha. pose proof (div_span 0 g) as Hg. change (span 0) with 1 in *.
  rewrite Z.div_1_r in *. lia.
Qed.

(** The entries of a last table. *)
Lemma last_table a i : (i < EPT_PAGETABLE_ENTRIES)%nat -> 0 <= a < 2 ^ 64 ->
  let g := a - Z.of_nat (idx 0 a) + Z.of_nat i in block 1 a g = true /\ idx 0 g = i /\ 0 <= g < 2 ^ 64.
Proof.
  intros Hi Ha g. pose proof (idx_Z 0 a) as Hia. change (span 0) with 1 in Hia. rewrite Z.div_1_r in Hia. unfold EPT_PAGETABLE_ENTRIES in Hi.
  pose proof (Z.div_mod a 512 ltac:(lia)) as Hd. pose proof (Z.div_pos a 512). assert (a / 512 < 2 ^ 55) by (apply Z.div_lt_upper_bound; lia).
  assert (g = 512 * (a / 512) + Z.of_nat i) as Hg by (unfold g; lia). split_and!; [| |lia|lia].
  - unfold block. change (span 1) with 512. apply Z.eqb_eq. rewrite Hg. symmetry. apply (Z.div_unique_pos _ _ _ (Z.of_nat i)); lia.
  - unfold idx. change (span 0) with 1. rewrite Z.div_1_r, Hg, <- (Z.mod_unique_pos (512 * (a / 512) + Z.of_nat i) 512 (a / 512) (Z.of_nat i)) by lia. apply Nat2Z.id.
Qed.

Section marks.
Context `{EptEnv, !EptLaws} {mode : Recalc}.

(** ** Marking *)

(** The mark of a change, of the type too if [b]. *)
Definition mark_as (b : bool) (e : ept_entry) : ept_entry :=
  if b then set_recalc true (set_emt MTRR_NUM_TYPES e) else set_emt MTRR_NUM_TYPES e.

Lemma mark_as_fields b e : is_epte_present (mark_as b e) = is_epte_present e /\ e_emt (mark_as b e) = MTRR_NUM_TYPES /\
  e_recalc (mark_as b e) = b || e_recalc e.
Proof. rewrite !present_spec. by destruct b. Qed.

Lemma mark_as_id b e : e_emt e = MTRR_NUM_TYPES -> (b = true -> e_recalc e = true) -> mark_as b e = e.
Proof. destruct e, b; cbn; intros -> Hr; [by rewrite Hr|done]. Qed.

Lemma mark_as_ok b l e : (b = true -> may_recalc = true) -> leaf_ok l e -> is_epte_present e = true -> leaf_ok l (mark_as b e).
Proof.
  intros Hb Hl Hp. destruct (leaf_present _ _ Hl Hp) as (_ & _ & Hv). destruct (mark_as_fields b e) as (Hmp & He & Hr). pose proof (lo_range _ _ Hl) as [? ? ? ?].
  assert (e_mfn (mark_as b e) = e_mfn e /\ e_sa_p2mt (mark_as b e) = e_sa_p2mt e /\ e_access (mark_as b e) = e_access e /\
    e_sp (mark_as b e) = e_sp e /\ rwx (mark_as b e) = rwx e) as (Hm & Ht & Ha & Hs & Hw) by (by destruct b).
  split; rewrite ?Hm, ?Ht, ?Hs, ?He, ?Hmp; try apply Hl; try done.
  - split; rewrite ?Hm, ?Ht, ?Ha, ?He; done.
  - rewrite Hr. intros [->|Hr']%orb_prop; [by split_and!; [apply Hb|..]|]. split_and!; [by apply (lo_recalc _ _ Hl)|done|done].
  - change (rwx (mark_as b e) = rights (mark_as b e)). rewrite Hw. unfold rwx. rewrite (lo_rights _ _ Hl). symmetry. by apply rights_ext; rewrite ?Hm.
  - intros _. by apply (lo_backed _ _ Hl).
  - by right.
  - intros Hne Hsp. pose proof (lo_super _ _ Hl) as Hsup. rewrite Hsp, Hp in Hsup. by destruct (Nat.eqb_spec l 0).
Qed.

Lemma mark_as_slot b l e o : (b = true -> may_recalc = true) -> slot_wf l (e, o) -> is_epte_present e = true ->
  slot_wf l (mark_as b e, o) /\ forall g, slot_view l (mark_as b e, o) g = slot_view l (e, o) g.
Proof.
  intros Hb Hk Hp. destruct o as [t|]; cbn in *.
  - destruct l as [|l]; [done|]. destruct Hk as (Hm & Hmfn & Ht). split; [|done]. destruct Hm as [[? ? ? ?] ? ? ? ? ? ?].
    split_and!; [|by destruct b|done]. destruct b; split; cbn; try done; try (by right); intuition.
  - pose proof (mark_as_ok b l e Hb Hk Hp) as Hl. split; [done|]. intros g. destruct (leaf_present _ _ Hk Hp) as (_ & Ht & Hv).
    destruct (mark_as_fields b e) as (Hmp & _). unfold slot_view, slot_leaf, leaf_view. cbn [fst snd].
    rewrite (valid_present (mark_as b e)); [|apply Hl|by rewrite Hmp|by destruct b]. rewrite Hmp, Hp, Hv, andb_false_r. by destruct b.
Qed.

(** The entries that are present are marked, those from [i] on. *)
Definition mark_from (b : bool) (i : nat) (ks ks' : list slot) : Prop :=
  forall j, ks' !! j = (fun k : slot => if (i <=? j)%nat && is_epte_present k.1 then (mark_as b k.1, k.2) else k) <$> ks !! j.

Lemma mark_from_done b ks : mark_from b (length ks) ks ks.
Proof.
  intros j. destruct (ks !! j) eqn:Hj; [|done]. apply lookup_lt_Some in Hj. cbn. by rewrite (proj2 (Nat.leb_gt _ _)).
Qed.

Lemma mark_from_step b i ks k ks' : ks !! i = Some k -> mark_from b (S i) (<[i := if is_epte_present k.1 then (mark_as b k.1, k.2) else k]> ks) ks' ->
  mark_from b i ks ks'.
Proof.
  intros Hk Hm j. rewrite Hm. destruct (decide (j = i)) as [->|Hne].
  - rewrite list_lookup_insert_eq by (by eapply lookup_lt_Some). rewrite Hk. cbn [fmap option_fmap option_map]. rewrite Nat.leb_refl, (proj2 (Nat.leb_gt (S i) i)) by lia. done.
  - rewrite list_lookup_insert_ne by done. destruct (ks !! j) as [k'|]; [|done]. cbn [fmap option_fmap option_map].
    destruct (Nat.leb_spec (S i) j), (Nat.leb_spec i j); (done || lia).
Qed.

(** Marking the entries of a table changes no lookup; the result says whether
    an entry changed. *)
Lemma invalidate_loop_spec b l level n : (b = true -> may_recalc = true) -> level <> O -> (level - 1 = O <-> l = O)%nat -> forall i m ks L s changed,
  (i + n = EPT_PAGETABLE_ENTRIES)%nat -> twf l (Node m ks) -> heap (flat l (Node m ks) ++ L) s ->
  wp (invalidate_loop n m (Z.of_nat i) b level changed) (fun r s' => only_tables s s' /\ (r = false -> changed = false /\ s' = s) /\
    exists ks', same_tree l (Node m ks) (Node m ks') /\ heap (flat l (Node m ks') ++ L) s' /\ mark_from b i ks ks') s.
Proof.
  intros Hb Hlv Hl. induction n as [|n IH]; intros i m ks L s changed Hi Ht Hh; cbn [invalidate_loop];
    destruct (proj1 (twf_eq _ _) Ht) as [Hlen Hall]; cbn [kids] in *.
  { apply wp_ret. split_and!; [done|done|]. exists ks. split_and!; [done|done|]. replace i with (length ks) by lia. apply mark_from_done. }
  destruct (lookup_lt_is_Some_2 ks i) as [[e o] Hk]; [lia|]. pose proof (Forall_lookup_1 _ _ _ _ Hall Hk) as Hwf.
  apply wp_bind. eapply wp_read_slot; [exact Hk|exact Hh|]. cbn [fst]. replace (Z.of_nat i + 1) with (Z.of_nat (S i)) by lia.
  pose proof (fun ks' => mark_from_step b i ks (e, o) ks' Hk) as Hstep. cbn [fst snd] in Hstep.
  destruct (negb (is_epte_valid e) || negb (is_epte_present e) || _) eqn:Hskip.
  - eapply wp_mono; [apply (IH (S i) m ks L); [lia|done|done]|]. intros r s' (Ho & Hr & ks' & Hs & Hh' & Hm). split_and!; [done|done|]. exists ks'.
    split_and!; [done|done|]. apply Hstep. rewrite list_insert_id; [done|]. destruct (is_epte_present e) eqn:Hp; [|done].
    pose proof (slot_present_valid _ _ Hwf Hp) as Hv. cbn [fst] in Hv. rewrite Hv in Hskip. cbn in Hskip. apply andb_prop in Hskip as [He%Z.eqb_eq Hrb].
    rewrite mark_as_id; [done|done|]. intros ->. by rewrite orb_false_r in Hrb.
  - apply orb_false_elim in Hskip as [[_ Hp%negb_false_iff]%orb_false_elim _]. rewrite Hp in Hstep.
    destruct (mark_as_slot b l e o Hb Hwf Hp) as [Hwf' Hview]. fold (mark_as b e). apply wp_bind.
    eapply (wp_atomic_same l m ks i e o (mark_as b e) o L); [done|done| |done|by intros; apply Hview|by intros Hz; apply Hl in Hz; destruct b|by intros Hz; apply Hl|].
    { pose proof (heap_open _ _ _ _ _ _ _ Hk Hh) as Hh'. by destruct l. }
    intros s1 t1 Ho1 Ht1 -> Hh1. apply wp_bind, wp_assert; [done|].
    eapply wp_mono; [eapply (IH (S i) m _ L); [lia|apply Ht1|exact Hh1]|]. intros r s2 (Ho2 & Hr & ks' & Hs2 & Hh2 & Hm2).
    split_and!; [by etrans|by intros [? _]%Hr|]. exists ks'. split_and!; [by eapply same_tree_trans|done|by apply Hstep].
Qed.

Lemma slot_view_present l k g : slot_wf l k -> (slot_view l k g).2 = true -> is_epte_present k.1 = true.
Proof.
  destruct k as [e [t|]]; [destruct l; [done|]; intros (Hm & _) _; by apply middle_present|]. intros _. unfold slot_view, slot_leaf, leaf_view. cbn.
  destruct (is_epte_present e); [done|]. destruct (_ && _); [done|]. by destruct (is_epte_valid e).
Qed.

(** The types of the pages below are to be recalculated, if [b]. *)
Lemma mark_recalcs b l m ks ks' g : twf l (Node m ks) -> mark_from b 0 ks ks' -> (tview l (Node m ks) g).2 = true ->
  recalcs l (Node m ks') g = b || recalcs l (Node m ks) g.
Proof.
  intros Ht Hm Hp. destruct (twf_slot _ _ g Ht) as ([e o] & Hk & Hwf). cbn [kids] in Hk. pose proof (Hm (idx l g)) as Hk'. rewrite Hk in Hk'. cbn in Hk'.
  rewrite (tview_slot _ (Node m ks) _ _ Hk) in Hp. apply (slot_view_present _ _ _ Hwf) in Hp. cbn in Hp. rewrite Hp in Hk'.
  unfold recalcs. rewrite (on_path_slot _ l (Node m ks') _ _ Hk'), (on_path_slot _ l (Node m ks) _ _ Hk). unfold slot_path. cbn [fst snd].
  destruct (mark_as_fields b e) as (_ & _ & ->). by rewrite orb_assoc.
Qed.

Lemma mark_marked b m ks ks' : mark_from b 0 ks ks' -> marked EPT_PAGETABLE_ENTRIES (Node m ks').
Proof.
  intros Hm i k _ Hk Hp. cbn in Hk. rewrite Hm in Hk. apply fmap_Some in Hk as ([e o] & _ & ->). cbn in *.
  destruct (is_epte_present e) eqn:He; [apply mark_as_fields|]. cbn in Hp. congruence.
Qed.

Lemma ept_invalidate_emt_subtree_spec b l level m ks L s : (b = true -> may_recalc = true) -> level <> O -> (level - 1 = O <-> l = O)%nat ->
  twf l (Node m ks) -> heap (flat l (Node m ks) ++ L) s ->
  wp (ept_invalidate_emt_subtree m b level) (fun r s' => only_tables s s' /\ (r = false -> s' = s) /\
    exists ks', same_tree l (Node m ks) (Node m ks') /\ heap (flat l (Node m ks') ++ L) s' /\ mark_from b 0 ks ks') s.
Proof.
  intros Hb Hlv Hl Ht Hh. apply wp_bind, wp_assert; [by destruct level|].
  eapply wp_mono; [by apply (invalidate_loop_spec b l level _ Hb Hlv Hl 0 m ks L s false)|]. intros r s' (Ho & Hr & Hks). split_and!; [done|by intros [_ ?]%Hr|done].
Qed.
End marks.

(** ** New types *)

Section types.
Context `{EptEnv, !EptLaws} {mode : Recalc}.

(** The types that a recalculation gives. *)
Definition ram (t : Z) : Prop := t = p2m_ram_rw \/ t = p2m_ram_logdirty.

Lemma ram_cases t : p2m_is_changeable t = true -> t <> p2m_ioreq_server -> ram t.
Proof.
  intros [x [Hx <-%Z.eqb_eq]]%existsb_exists Hio. destruct Hx as [<-|[<-|[<-|[]]]]; [by left|by right|done].
Qed.

Lemma ram_fields t : ram t -> p2m_is_changeable t = true /\ t <> p2m_ioreq_server /\ plain t = true /\ p2m_allows_invalid_mfn t = false /\
  (p2m_is_pod t = false /\ p2m_is_broken t = false) /\ t <> p2m_mmio_direct /\ t <> p2m_invalid /\ 0 <= t < 2 ^ 6.
Proof. intros [->| ->]; by split_and!. Qed.

Lemma recalc_ram t g : ram t -> ram (p2m_recalc_type true t g).
Proof.
  intros Ht. destruct (ram_fields t Ht) as (Hc & Hio & _). unfold p2m_recalc_type, p2m_recalc_type_range. rewrite Hc, (eqb_neq_false _ _ Hio). cbn [negb orb andb].
  destruct (negb _); [by right|by left].
Qed.

Lemma recalc_none t g : p2m_recalc_type false t g = t.
Proof. done. Qed.

(** With these, a page keeps some right if it may be read or only executed. *)
Lemma ram_present t nt a sp ro : ram t -> ram nt -> a <> p2m_access_w -> a <> p2m_access_wx ->
  any (super_rwx sp (access_rwx a (type_rwx t sp ro))) = true -> any (super_rwx sp (access_rwx a (type_rwx nt sp ro))) = true.
Proof.
  intros Ht Hnt Hw Hwx.
  assert (forall t, ram t -> exists w, type_rwx t sp ro = (true, w, true)) as Hram by (intros ? [->| ->]; by eexists).
  destruct (Hram t Ht) as [w ->], (Hram nt Hnt) as [w' ->]. unfold access_rwx. rewrite (eqb_neq_false _ _ Hw), (eqb_neq_false _ _ Hwx).
  unfold super_rwx. destruct w, w'; repeat case_match; by simplify_eq.
Qed.

(** The entry [e] with the memory type [emt] and the type [nt], and nothing to
    recalculate. *)
Record rewritten (e : ept_entry) (emt nt : Z) (e' : ept_entry) : Prop := {
  rw_mfn : e_mfn e' = e_mfn e;
  rw_access : e_access e' = e_access e;
  rw_sp : e_sp e' = e_sp e;
  rw_emt : e_emt e' = emt;
  rw_type : e_sa_p2mt e' = nt;
  rw_recalc : e_recalc e' = false;
  rw_rights : rwx e' = rights e'
}.

(** The type stays, or one of memory is replaced by another. *)
Definition new_type (e : ept_entry) (nt : Z) : Prop :=
  nt = e_sa_p2mt e \/ ram (e_sa_p2mt e) /\ ram nt /\ e_access e <> p2m_access_w /\ e_access e <> p2m_access_wx.

Section rewrite.
Context (l : nat) (e : ept_entry) (emt nt : Z) (e' : ept_entry).
Hypotheses (Hl : leaf_ok l e) (Hp : is_epte_present e = true) (Hemt : emt_ok emt) (Hnt : new_type e nt) (Hrw : rewritten e emt nt e').

Lemma rewritten_present : is_epte_present e' = true.
Proof.
  destruct Hrw as [Hm Ha Hs _ Ht _ Hr]. rewrite present_rwx, Hr, (proj2 (flagged_spec e')), Hm, Ha, Hs, Ht.
  rewrite present_rwx in Hp. unfold rwx in Hp. rewrite (lo_rights _ _ Hl), (proj2 (flagged_spec e)) in Hp.
  destruct Hnt as [->|(H1 & H2 & H3 & H4)]; [done|]. by apply (ram_present (e_sa_p2mt e)).
Qed.

Lemma rewritten_ok : leaf_ok l e'.
Proof.
  destruct Hrw as [Hm Ha Hs He Ht Hre Hr]. destruct (leaf_present _ _ Hl Hp) as (_ & _ & Hv). pose proof rewritten_present as Hp'.
  destruct (lo_range _ _ Hl) as [? ? ? ?].
  split; rewrite ?Hm, ?Hs, ?He, ?Hre, ?Hp'; try apply Hl; try done.
  - split; rewrite ?Hm, ?Ha, ?He, ?Ht; try done; [rewrite <- (emt_mod emt Hemt); by apply Z.mod_pos_bound|].
    destruct Hnt as [->|(_ & Hram & _)]; [done|apply (ram_fields _ Hram)].
  - intros _ j Hj. pose proof (lo_backed _ _ Hl Hv j Hj) as Hb. rewrite Ht. destruct Hnt as [->|(Hr0 & Hr1 & _)]; [done|].
    by rewrite (proj1 (proj2 (proj2 (proj2 (ram_fields _ Hr0))))), orb_false_r in Hb; rewrite Hb.
  - rewrite Ht. destruct Hnt as [->|(_ & Hram & _)]; [apply Hl|apply (ram_fields _ Hram)].
  - rewrite (lo_super _ _ Hl), Hp. done.
  - intros Hne Hsp. pose proof (lo_super _ _ Hl) as Hsup. rewrite Hsp, Hp in Hsup. by destruct (Nat.eqb_spec l 0).
  - rewrite Ht. destruct Hnt as [->|(_ & Hram & _)]; [apply Hl|intros _; apply (ram_fields _ Hram)].
  - rewrite Ht. intros Hne Hd. destruct Hnt as [Heq|(_ & Hram & _)]; [rewrite Heq in Hd; by apply (lo_writable _ _ Hl)|by destruct (ram_fields _ Hram) as (_ & _ & _ & _ & _ & ? & _)].
Qed.

Lemma rewritten_view g : leaf_view l e g = (e_mfn e + g mod span l, e_sa_p2mt e, e_access e, true) /\
  leaf_view l e' g = (e_mfn e + g mod span l, nt, e_access e, true).
Proof.
  pose proof rewritten_present as Hp'. pose proof rewritten_ok as Hl'. destruct (leaf_present _ _ Hl Hp) as (_ & _ & Hv), (leaf_present _ _ Hl' Hp') as (_ & _ & Hv').
  unfold leaf_view. rewrite Hp, Hp', Hv, Hv', (rw_mfn _ _ _ _ Hrw), (rw_access _ _ _ _ Hrw), (rw_type _ _ _ _ Hrw). by rewrite andb_false_r.
Qed.
End rewrite.
End types.

(** ** What resolving leaves *)

(** The answers to the questions about log-dirty frames are those of a set. *)
Definition logdirty_exact `{EptEnv} (P : Z -> Prop) : Prop := forall s e, 0 <= s <= e ->
  (logdirty_contains s e = true <-> forall n, s <= n <= e -> P n) /\ (logdirty_overlaps s e = true <-> exists n, s <= n <= e /\ P n).

Section relation.
Context `{EptEnv, !EptLaws} {mode : Recalc}.

(** What is known of frame [g] changed from [v] to [v'], and whether its type
    is to be recalculated from [b] to [b']: of a page only the type that is
    stored, not the one that is reported. *)
Definition recalculated (g : Z) (b b' : bool) (v v' : view) : Prop :=
  let '(m, t, a, p) := v in
  let '(m', t', a', p') := v' in
  m' = m /\ a' = a /\ p' = p /\ (if p : bool then p2m_recalc_type b' t' g = p2m_recalc_type b t g else t' = t) /\ (t' = t \/ ram t').

Lemma recalculated_same g b b' v : (v.2 = true -> b' = b) -> recalculated g b b' v v.
Proof. destruct v as [[[m t] a] p]. cbn. intros Hb. split_and!; [done..| |by left]. destruct p; [by rewrite Hb|done]. Qed.

Lemma recalculated_trans g b1 b2 b3 v1 v2 v3 : recalculated g b1 b2 v1 v2 -> recalculated g b2 b3 v2 v3 -> recalculated g b1 b3 v1 v3.
Proof.
  destruct v1 as [[[m t] a] p], v2 as [[[m2 t2] a2] p2], v3 as [[[m3 t3] a3] p3]. cbn.
  intros (-> & -> & -> & Ht & Hr) (-> & -> & -> & Ht2 & Hr2). split_and!; [done..| |].
  - destruct p; congruence.
  - destruct Hr2 as [->|?]; [done|by right].
Qed.

Definition rsame (l : nat) (gfn : Z) (t t' : tree) : Prop :=
  node_mfn t' = node_mfn t /\ twf l t' /\
  forall g, block (S l) gfn g = true -> recalculated g (recalcs l t g) (recalcs l t' g) (tview l t g) (tview l t' g).

Lemma rsame_refl l gfn t : twf l t -> rsame l gfn t t.
Proof. intros Ht. split_and!; [done|done|]. intros g _. by apply recalculated_same. Qed.

Lemma rsame_trans l gfn t1 t2 t3 : rsame l gfn t1 t2 -> rsame l gfn t2 t3 -> rsame l gfn t1 t3.
Proof.
  intros (Hm1 & _ & Hv1) (Hm2 & Hw2 & Hv2). split_and!; [congruence|done|]. intros g Hg. eapply recalculated_trans; [by apply Hv1|by apply Hv2].
Qed.

Lemma rsame_insert l gfn m ks i k k' : twf l (Node m ks) -> ks !! i = Some k -> slot_wf l k' ->
  (forall g, block (S l) gfn g = true -> idx l g = i ->
     recalculated g (slot_path e_recalc l k g) (slot_path e_recalc l k' g) (slot_view l k g) (slot_view l k' g)) ->
  rsame l gfn (Node m ks) (Node m (<[i := k']> ks)).
Proof.
  intros Ht Hk Hk' Hv. split_and!; [done|by apply twf_insert|]. intros g Hg. unfold recalcs. destruct (decide (idx l g = i)) as [<-|Hne].
  - assert (kids (Node m (<[idx l g := k']> ks)) !! idx l g = Some k') as Hk2 by (apply list_lookup_insert_eq; by eapply lookup_lt_Some).
    rewrite (tview_slot l (Node m ks) g k Hk), (tview_slot l _ g k' Hk2), (on_path_slot _ l (Node m ks) g k Hk), (on_path_slot _ l _ g k' Hk2). by apply Hv.
  - destruct (twf_slot l _ g Ht) as (k0 & Hk0 & _).
    assert (kids (Node m (<[i := k']> ks)) !! idx l g = Some k0) as Hk2 by (cbn; by rewrite list_lookup_insert_ne).
    rewrite (tview_slot l _ g k0 Hk0), (tview_slot l _ g k0 Hk2), (on_path_slot _ l _ g k0 Hk0), (on_path_slot _ l _ g k0 Hk2). by apply recalculated_same.
Qed.

(** Frames whose types can be recalculated: their entries are not counted, and
    they keep some right. *)
Definition recalculable (l : nat) (gfn : Z) (t : tree) : Prop := may_recalc = true -> forall g, block (S l) gfn g = true ->
  let '(_, ty, a, p) := tview l t g in p = true -> ty <> p2m_ioreq_server /\ a <> p2m_access_w /\ a <> p2m_access_wx.

Lemma rsame_recalculable l gfn t t' : rsame l gfn t t' -> recalculable l gfn t -> recalculable l gfn t'.
Proof.
  intros (_ & _ & Hs) Hr Hm g Hg. specialize (Hs g Hg). specialize (Hr Hm g Hg). unfold recalculated in Hs.
  destruct (tview l t g) as [[[m ty] a] p], (tview l t' g) as [[[m' ty'] a'] p']. destruct Hs as (_ & -> & -> & _ & Hty). intros Hp.
  destruct (Hr Hp) as (Hio & Hw). split; [|done]. destruct Hty as [->|Hram]; [done|]. by apply (ram_fields _ Hram).
Qed.

Lemma recalculable_kid l gfn m ks e t1 : ks !! idx (S l) gfn = Some (e, Some t1) -> recalculable (S l) gfn (Node m ks) -> recalculable l gfn t1.
Proof.
  intros Hk Hr Hm g Hg. destruct (block_up _ _ _ Hg) as [Hg' Hi]. specialize (Hr Hm g Hg'). rewrite <- Hi in Hk.
  by rewrite (tview_slot (S l) (Node m ks) g _ Hk) in Hr.
Qed.

Lemma recalculable_leaf l gfn g t e : recalculable l gfn t -> may_recalc = true -> block (S l) gfn g = true -> kids t !! idx l g = Some (e, None) -> leaf_ok l e ->
  is_epte_present e = true -> e_sa_p2mt e <> p2m_ioreq_server /\ e_access e <> p2m_access_w /\ e_access e <> p2m_access_wx.
Proof.
  intros Hr Hm Hg Hk Hl Hp. specialize (Hr Hm g Hg). rewrite (tview_slot l t g _ Hk) in Hr. unfold slot_view, slot_leaf, leaf_view in Hr. cbn in Hr.
  destruct (leaf_present _ _ Hl Hp) as (_ & _ & Hv). rewrite Hp, Hv, andb_false_r in Hr. by apply Hr.
Qed.

Lemma leaf_new_type l gfn g t e : recalculable l gfn t -> block (S l) gfn g = true -> kids t !! idx l g = Some (e, None) -> leaf_ok l e ->
  is_epte_present e = true -> new_type e (p2m_recalc_type (e_recalc e) (e_sa_p2mt e) g).
Proof.
  intros Hr Hg Hk Hl Hp. destruct (e_recalc e) eqn:Hre; [|by left]. destruct (p2m_is_changeable (e_sa_p2mt e)) eqn:Hc.
  - destruct (recalculable_leaf l gfn g t e Hr) as (Hio & Ha); [by apply (lo_recalc _ _ Hl)|done..|]. pose proof (ram_cases _ Hc Hio) as Hram.
    right. split_and!; [done|by apply recalc_ram|apply Ha..].
  - left. unfold p2m_recalc_type, p2m_recalc_type_range. by rewrite Hc.
Qed.

(** Only an entry that is pending is to be recalculated. *)
Lemma slot_recalc_pending l k : slot_wf l k -> e_recalc k.1 = true -> may_recalc = true /\ pending_entry k.1 = true.
Proof.
  unfold pending_entry. destruct k as [e [t|]]; cbn.
  - destruct l; [done|]. intros (Hm & _) Hr. destruct (mo_recalc _ Hm Hr) as [? ->]. split; [done|]. by rewrite middle_present.
  - intros Hl Hr. destruct (lo_recalc _ _ Hl Hr) as (? & -> & ->). done.
Qed.

Lemma not_pending_recalcs l : forall t g, twf l t -> pending l t g = false -> recalcs l t g = false.
Proof.
  induction l as [|l IH]; intros t g Ht; destruct (twf_slot _ _ g Ht) as ([e o] & Hk & Hwf); unfold pending, recalcs; rewrite !(on_path_slot _ _ _ _ _ Hk);
    unfold slot_path; cbn [fst snd]; intros [Hp Hpt]%orb_false_elim; pose proof (slot_recalc_pending _ _ Hwf) as Hr; cbn [fst] in Hr;
    (destruct (e_recalc e); [destruct (Hr eq_refl); congruence|]); [done|]. destruct o as [t1|]; [|done]. destruct Hwf as (_ & _ & Ht1). by apply IH.
Qed.

(** Entry [i] is replaced. *)
Lemma wp_atomic_recalc l gfn m ks i e o e' o' L s level (Q : Z -> ept_p2m -> Prop) :
  twf l (Node m ks) -> ks !! i = Some (e, o) -> heap ((m, ks.*1) :: flat_slot l (e', o') ++ others l ks i ++ L) s ->
  slot_wf l (e', o') -> (forall g, block (S l) gfn g = true -> idx l g = i ->
     recalculated g (slot_path e_recalc l (e, o) g) (slot_path e_recalc l (e', o') g) (slot_view l (e, o) g) (slot_view l (e', o') g)) ->
  (level = O <-> l = O) -> (l = O -> e_mfn e' = e_mfn e /\ (e_sa_p2mt e' = e_sa_p2mt e \/ ram (e_sa_p2mt e) /\ ram (e_sa_p2mt e'))) ->
  (forall s', only_tables s s' -> rsame l gfn (Node m ks) (Node m (<[i := (e', o')]> ks)) -> heap (flat l (Node m (<[i := (e', o')]> ks)) ++ L) s' -> Q 0 s') ->
  wp (atomic_write_ept_entry m (Z.of_nat i) e' level) Q s.
Proof.
  intros Ht Hk Hh Hk' Hv Hl0 Hl1 HQ. eapply (wp_atomic_write l m ks i (e', o')); [by rewrite list_lookup_fmap, Hk|exact Hh| |].
  - split; [intros Hne; apply (slot_plain l _ Hk'); intros ->; by apply Hne, Hl0|]. intros Hz. apply Hl0 in Hz. cbn [fst].
    destruct (Hl1 Hz) as [Hm [Hty|[H1 H2]]]; [by left|right]. split; by apply ram_fields.
  - intros s' Ho Hh'. eapply HQ; [done|by eapply rsame_insert|done].
Qed.
End relation.

(** ** The walk *)

Section resolve.
Context `{EptEnv, !EptLaws} {mode : Recalc} (P : Z -> Prop).
Hypothesis Hexact : may_recalc = true -> logdirty_exact P.

(** *** New entries *)

(** With the type that stays ... *)
Lemma rewritten_keep l e Y : leaf_ok l e -> e_mfn Y = e_mfn e -> e_access Y = e_access e -> e_sp Y = e_sp e -> e_sa_p2mt Y = e_sa_p2mt e ->
  rwx Y = rwx e -> rewritten e (e_emt Y) (e_sa_p2mt e) (set_recalc false Y).
Proof.
  intros Hl Hm Ha Hs Ht Hr. split; [done..|]. change (rwx Y = rights (set_recalc false Y)). rewrite Hr. unfold rwx. rewrite (lo_rights _ _ Hl).
  symmetry. apply rights_ext; cbn; [done..|]. by rewrite Hm.
Qed.

(** ... and with flags for a new one. *)
Lemma rewritten_flags e Y : e_mfn Y = e_mfn e -> e_access Y = e_access e -> e_sp Y = e_sp e ->
  rewritten e (e_emt Y) (e_sa_p2mt Y) (set_recalc false (flagged Y)).
Proof.
  intros Hm Ha Hs. assert (rwx (set_recalc false (flagged Y)) = rights (set_recalc false (flagged Y))) as Hr.
  { transitivity (rights (flagged Y)); [by rewrite rights_flagged|]. symmetry. by apply rights_ext. }
  revert Hr. destruct (flagged_form Y) as (r & w & x & a & d & ->). by split.
Qed.

(** What is known of a frame of a leaf that is rewritten. *)
Lemma rewritten_leaf l e emt nt e' g : leaf_ok l e -> is_epte_present e = true -> emt_ok emt -> new_type e nt -> rewritten e emt nt e' ->
  p2m_recalc_type (e_recalc e) (e_sa_p2mt e) g = nt ->
  recalculated g (e_recalc e) (e_recalc e') (leaf_view l e g) (leaf_view l e' g).
Proof.
  intros Hl Hp Hemt Hnt Hrw Hrec. rewrite (rw_recalc _ _ _ _ Hrw). destruct (rewritten_view l e emt nt e' Hl Hp Hemt Hnt Hrw g) as [V1 V2].
  rewrite V1, V2. split_and!; [done..|]. destruct Hnt as [->|(_ & ? & _)]; [by left|by right].
Qed.

Lemma type_not_pending emt e : mem_type emt -> e_emt e = emt -> pending_entry e = false.
Proof. intros Hm He. apply not_pending. rewrite He. apply mem_type_range in Hm as [? ?]. unfold MTRR_NUM_TYPES. lia. Qed.

Lemma resolve_leaf_spec gfn i t L s : (i < EPT_PAGETABLE_ENTRIES)%nat -> 0 <= gfn < 2 ^ 64 -> twf 0 t -> heap (flat 0 t ++ L) s -> recalculable 0 gfn t ->
  wp (resolve_leaf (node_mfn t) (gfn - Z.of_nat (idx 0 gfn)) (Z.of_nat i)) (fun b s' => b = true /\ only_tables s s' /\
    exists t', rsame 0 gfn t t' /\ heap (flat 0 t' ++ L) s' /\ (forall j, j <> i -> kids t' !! j = kids t !! j) /\
      (forall k, kids t' !! i = Some k -> pending_entry k.1 = false)) s.
Proof.
  destruct t as [m ks]. cbn [node_mfn]. intros Hi Hg Ht Hh Hrec. destruct (proj1 (twf_eq _ _) Ht) as [Hlen Hall]. cbn [kids] in *.
  destruct (lookup_lt_is_Some_2 ks i) as [[e o] Hk]; [lia|]. pose proof (Forall_lookup_1 _ _ _ _ Hall Hk) as Hwf.
  destruct o as [t'|]; [done|]. change (leaf_ok 0 e) in Hwf. set (g := gfn - Z.of_nat (idx 0 gfn) + Z.of_nat i).
  assert (block 1 gfn g = true /\ idx 0 g = i /\ 0 <= g < 2 ^ 64) as (Hb & Hgi & Hgr) by (by apply last_table).
  apply wp_bind. eapply wp_read_slot; [exact Hk|exact Hh|]. cbn [fst].
  set (e0 := if e_emt e =? MTRR_NUM_TYPES then set_emt 0 e else e).
  assert (e_recalc e0 = e_recalc e /\ e_sa_p2mt e0 = e_sa_p2mt e /\ e_mfn e0 = e_mfn e /\ e_access e0 = e_access e /\ e_sp e0 = e_sp e /\ rwx e0 = rwx e /\
          is_epte_present e0 = is_epte_present e /\ in_range e0) as (Hr0 & Ht0 & Hm0 & Ha0 & Hs0 & Hw0 & Hp0 & Hir).
  { pose proof (lo_range _ _ Hwf) as Hr. unfold e0. destruct (_ =? _); (split_and!; [done..|by rewrite !present_spec|by destruct Hr]). }
  destruct (_ || _) eqn:Hskip.
  { apply wp_ret. split_and!; [done..|]. exists (Node m ks). split_and!; [by apply rsame_refl|done|done|].
    intros k Hk'. cbn in Hk'. simplify_eq. unfold pending_entry. cbn [fst]. destruct (is_epte_present e) eqn:Hp; [|done].
    destruct (leaf_present _ _ Hwf Hp) as (_ & Hty & _). rewrite (valid_present e0), Hp0 in Hskip by (done || congruence). done. }
  apply orb_false_elim in Hskip as [_ Hp%negb_false_iff]. rewrite Hp0 in Hp. fold g.
  pose proof (emt_type g (e_mfn e0) 0 (e_sa_p2mt e0) Hgr) as Hemt. destruct (epte_get_entry_emt _ _ _ _) as [emt ipat]. cbn [fst] in Hemt.
  destruct Hemt as [Hemt|[_ ?]]; [|done]. assert (emt_ok emt) as Hok by (by left). set (e1 := set_ipat ipat (set_emt emt e0)).
  assert (e_emt e1 = emt) as He1 by (exact (emt_mod emt Hok)).
  change (e_recalc e1) with (e_recalc e0). change (e_sa_p2mt e1) with (e_sa_p2mt e0). rewrite Hr0, Ht0. set (nt := p2m_recalc_type (e_recalc e) (e_sa_p2mt e) g).
  assert (new_type e nt) as Hnt by (eapply (leaf_new_type 0 gfn g (Node m ks)); [done|done|cbn [kids]; by rewrite Hgi|done|done]).
  apply wp_bind. apply wp_mono with (P := fun e2 s' => s' = s /\ rewritten e emt nt (set_recalc false e2)).
  { destruct (Z.eqb_spec nt (e_sa_p2mt e)) as [Heq|Hne]; cbn [negb].
    - apply wp_ret. split; [done|]. rewrite Heq, <- He1. by apply (rewritten_keep 0).
    - destruct Hnt as [?|(_ & Hram & _)]; [done|]. destruct (ram_fields _ Hram) as (_ & _ & _ & _ & _ & Hd & _ & Hrng).
      assert (e_sa_p2mt (set_p2mt nt e1) = nt) as Hty by (by apply Z.mod_small). apply wp_type_to_flags; [by rewrite Hty|]. split; [done|].
      pose proof (rewritten_flags e (set_p2mt nt e1) Hm0 Ha0 Hs0) as Hf. by rewrite Hty, (He1 : e_emt (set_p2mt nt e1) = emt) in Hf. }
  intros e2 s1 [-> Hrw]. apply wp_bind. eapply (wp_atomic_recalc 0 gfn m ks i e None (set_recalc false e2) None L); [done|done|exact (heap_open _ _ _ _ _ _ _ Hk Hh)| | |done| |].
  - by apply (rewritten_ok 0 e emt nt).
  - intros g' Hg' Hi'. apply block_last in Hg' as Hg2. rewrite Hi' in Hg2. fold g in Hg2. subst g'. rewrite !slot_path_leaf. by apply (rewritten_leaf 0 e emt nt).
  - intros _. rewrite (rw_mfn _ _ _ _ Hrw), (rw_type _ _ _ _ Hrw). split; [done|]. destruct Hnt as [?|(? & ? & _)]; [by left|by right].
  - intros s1 Ho1 Hs1 Hh1. apply wp_bind, wp_assert; [done|]. apply wp_ret. split_and!; [done..|].
    eexists. split_and!; [exact Hs1|exact Hh1|by intros j Hj; apply list_lookup_insert_ne|].
    intros k Hk'. cbn [kids] in Hk'. rewrite list_lookup_insert_eq in Hk' by lia. simplify_eq. apply (type_not_pending emt); [done|apply Hrw].
Qed.

(** *** Superpages *)

(** The frames of a superpage. *)
Lemma super_frames l gfn g : block l gfn g = true ->
  Z.land gfn (Z.shiftl (-1) (Z.of_nat l * EPT_TABLE_ORDER)) <= g <= Z.lor gfn (Z.lnot (Z.shiftl (-1) (Z.of_nat l * EPT_TABLE_ORDER))).
Proof.
  intros Hb%Z.eqb_eq. pose proof (span_pos l).
  assert (Z.shiftl (-1) (Z.of_nat l * EPT_TABLE_ORDER) = Z.lnot (span l - 1)) as ->.
  { rewrite Z.shiftl_mul_pow2 by (unfold EPT_TABLE_ORDER; lia). unfold span, EPT_TABLE_ORDER, Z.lnot. rewrite (Z.mul_comm (Z.of_nat l)). lia. }
  rewrite Z.lnot_involutive, land_lnot_mask, lor_mask. pose proof (Z.div_mod g (span l)). pose proof (Z.div_mod gfn (span l)).
  pose proof (Z.mod_pos_bound g (span l)). lia.
Qed.

Lemma dirty_type l gfn t g : 0 <= gfn -> may_recalc = true -> ram t -> block l gfn g = true ->
  let d := p2m_is_logdirty_range (Z.land gfn (Z.shiftl (-1) (Z.of_nat l * EPT_TABLE_ORDER))) (Z.lor gfn (Z.lnot (Z.shiftl (-1) (Z.of_nat l * EPT_TABLE_ORDER)))) in
  (d = 0 -> p2m_recalc_type true t g = p2m_ram_rw) /\ (d = 1 -> p2m_recalc_type true t g = p2m_ram_logdirty).
Proof.
  intros Hg Hm Ht Hb. pose proof (super_frames _ _ _ Hb) as Hin. pose proof (super_frames l gfn gfn (Z.eqb_refl _)) as Hin0.
  set (first := Z.land _ _) in *. set (last := Z.lor _ _) in *. assert (0 <= first) as Hf by (apply Z.land_nonneg; by left).
  destruct (ram_fields t Ht) as (Hc & Hio & _). unfold p2m_recalc_type, p2m_recalc_type_range. rewrite Hc, (eqb_neq_false _ _ Hio). cbn [negb orb andb].
  destruct (Hexact Hm first last ltac:(lia)) as [C1 O1], (Hexact Hm g g ltac:(lia)) as [C2 O2]. unfold p2m_is_logdirty_range.
  destruct (@global_logdirty H); [done|]. cbn [orb]. destruct (logdirty_contains first last) eqn:Ec.
  - split; [done|]. intros _. assert (logdirty_contains g g = true) as ->; [|done]. apply C2. intros n Hn. apply C1; [done|lia].
  - destruct (logdirty_overlaps first last) eqn:Eo; [done|]. split; [|done]. intros _.
    assert (~ P g) as HP by (intros HP; assert (false = true) as [=]; apply O1; exists g; split; [lia|done]).
    destruct (logdirty_contains g g); [destruct HP; by apply C2; [|lia]|]. destruct (logdirty_overlaps g g); [|done].
    destruct HP. destruct (proj1 O2 eq_refl) as (n & Hn & HP). by replace g with n by lia.
Qed.

(** Loops that do the same. *)
Lemma for_upto_ext {St} (f f' : Z -> M St bool) n : (forall i s, f i s = f' i s) -> forall i s, for_upto n i f s = for_upto n i f' s.
Proof.
  intros Hf. induction n as [|n IH]; intros i s; [done|]. cbn [for_upto]. unfold bind. rewrite Hf. destruct (f' i s) as [[[] s']|]; [apply IH|done|done].
Qed.

Lemma type_to_flags_again e m sn b : ram (e_sa_p2mt e) ->
  ept_p2m_type_to_flags (set_snp sn (set_mfn m (set_sp b (flagged e)))) = ept_p2m_type_to_flags (set_snp sn (set_mfn m (set_sp b e))).
Proof.
  intros Hram. destruct (flagged_form e) as (r & w & x & a & d & ->). unfold ept_p2m_type_to_flags.
  set (X := set_snp sn (set_mfn m (set_sp b e))). set (Y := set_snp sn (set_mfn m (set_sp b (set_rwx r w x (set_ad a d e))))).
  assert (type_flags Y = type_flags X) as ->; [|done]. unfold type_flags. change (e_sa_p2mt X) with (e_sa_p2mt e). change (e_sa_p2mt Y) with (e_sa_p2mt e).
  by destruct Hram as [->| ->].
Qed.

(** The flags of a superpage do not matter when it is split. *)
Lemma split_flags l e s (Q : bool * ept_entry -> ept_p2m -> Prop) : ram (e_sa_p2mt e) ->
  wp (ept_split_super_page (S l) (flagged e) l) (fun r s' => if r.1 then Q r s' else Q r s' /\ (r.2 = flagged e -> Q (false, e) s')) s ->
  wp (ept_split_super_page (S l) e l) Q s.
Proof.
  intros Hram. cbn [ept_split_super_page]. destruct (_ <=? _)%nat eqn:Hle; [apply Nat.leb_le in Hle; lia|].
  assert (e_sp (flagged e) = e_sp e) as Hsp by (destruct (flagged_form e) as (? & ? & ? & ? & ? & ->); done). unfold is_epte_superpage at 1. rewrite Hsp.
  intros (r & s1 & Hrun & HQ). apply bind_inv in Hrun as (u & s2 & Ha & Hrun). apply wp_bind. exists u, s2. split; [done|].
  apply bind_inv in Hrun as (mid & s3 & Hmid & Hrun). apply wp_bind. exists mid, s3. split; [done|].
  destruct mid as [mid|]; [|injection Hrun as <- <-; apply wp_ret; by apply HQ].
  apply bind_inv in Hrun as (rv & s4 & Hfor & Hrun). apply wp_bind. exists rv, s4. split.
  - rewrite <- Hfor. apply for_upto_ext. intros i s'. rewrite type_to_flags_again by done.
    by replace (e_mfn (flagged e)) with (e_mfn e) by (destruct (flagged_form e) as (? & ? & ? & ? & ? & ->); done).
  - injection Hrun as <- <-. apply wp_ret. cbn [fst snd] in HQ. destruct rv; [done|apply HQ].
Qed.

(** *** Steps *)

Definition resolve_rc (rc rc' : Z) : Prop := rc' = - ENOMEM \/ rc' = rc \/ rc' = 1.

(** Afterwards nothing is pending on the way to [gfn], unless memory ran out. *)
Definition cleared (l : nat) (gfn : Z) (t t' : tree) (rc' : Z) : Prop :=
  rc' <> - ENOMEM ->
  pending l t' gfn = false /\ (pending l t gfn = true -> rc' = 1).

Definition resolve_post (l : nat) (gfn : Z) (t : tree) L s (rc rc' : Z) s' : Prop :=
  resolve_rc rc rc' /\ only_tables s s' /\ exists t', rsame l gfn t t' /\ heap (flat l t' ++ L) s' /\ cleared l gfn t t' rc'.

Lemma resolve_none l gfn t L s rc : twf l t -> heap (flat l t ++ L) s -> pending l t gfn = false ->
  resolve_post l gfn t L s rc rc s.
Proof.
  intros Ht Hh Hp. split; [by right; left|]. split; [done|]. exists t. split_and!; [by apply rsame_refl|done|]. intros _. by rewrite Hp.
Qed.

Lemma resolve_trans l gfn t t1 L s s1 s2 rc rc1 rc2 : only_tables s s1 -> rsame l gfn t t1 -> rc1 = rc \/ rc1 = 1 ->
  (pending l t gfn = true -> rc1 = 1 \/ pending l t1 gfn = true) ->
  resolve_post l gfn t1 L s1 rc1 rc2 s2 -> resolve_post l gfn t L s rc rc2 s2.
Proof.
  intros Ho Ht Hr Hp (Hrc & Ho2 & t2 & Ht2 & Hh & Hc). split_and!.
  - destruct Hr as [->| ->]; [done|]. destruct Hrc as [->|[->| ->]]; [by left|by right; right|by right; right].
  - by etrans.
  - exists t2. split_and!; [by eapply rsame_trans|done|]. intros Hne. destruct (Hc Hne) as [Hc1 Hc2].
    split; [done|]. intros Hp'. destruct (Hp Hp') as [->|Hp1]; [|by apply Hc2]. by destruct Hrc as [?|[?|?]].
Qed.

(** The entry at [gfn] is replaced by one that is not pending. *)
Lemma resolve_done l gfn m ks e' L s rc s' : rsame l gfn (Node m ks) (Node m (<[idx l gfn := (e', None)]> ks)) -> (idx l gfn < length ks)%nat ->
  heap (flat l (Node m (<[idx l gfn := (e', None)]> ks)) ++ L) s' -> only_tables s s' -> pending_entry e' = false -> resolve_post l gfn (Node m ks) L s rc 1 s'.
Proof.
  intros Hs Hi Hh Ho Hp. split; [by right; right|]. split; [done|]. eexists. split_and!; [exact Hs|exact Hh|]. intros _. split; [|done].
  rewrite (pending_leaf l _ gfn e'); [done|]. by apply list_lookup_insert_eq.
Qed.

(** The walk goes on in the next table. *)
Lemma resolve_kid l gfn m ks e t1 L s rc rc' s' : twf (S l) (Node m ks) -> ks !! idx (S l) gfn = Some (e, Some t1) ->
  e_emt e = 0 -> resolve_post l gfn t1 ((m, ks.*1) :: others (S l) ks (idx (S l) gfn) ++ L) s rc rc' s' ->
  resolve_post (S l) gfn (Node m ks) L s rc rc' s'.
Proof.
  intros Ht Hk He (Hrc & Ho & t1' & Hs1 & Hh & Hc). split_and!; [done|done|]. destruct (proj1 (twf_eq _ _) Ht) as [_ Hall].
  pose proof (Forall_lookup_1 _ _ _ _ Hall Hk) as (Hm & Hmfn & Ht1).
  exists (Node m (<[idx (S l) gfn := (e, Some t1')]> ks)). split_and!; [|by eapply heap_kid_close|].
  - eapply rsame_insert; [done|exact Hk|split_and!; [done|by rewrite (proj1 Hs1)|apply Hs1]|]. intros g Hg Hi.
    assert (e_recalc e = false) as Hr by (destruct (e_recalc e) eqn:Hre; [|done]; destruct (mo_recalc _ Hm Hre) as [_ Hx]; cbn in Hx; by rewrite He in Hx).
    unfold slot_path. cbn [fst snd]. rewrite Hr. apply Hs1. by apply block_down.
  - intros Hne. destruct (Hc Hne) as [Hc1 Hc2]. rewrite (pending_slot (S l) (Node m ks) gfn _ _ Hk), (pending_slot (S l) (Node m _) gfn e (Some t1')).
    + rewrite Hc1, (not_pending e) by (by rewrite He). done.
    + cbn [kids]. apply list_lookup_insert_eq. by eapply lookup_lt_Some.
Qed.

Section level.
Context (l : nat) (gfn : Z) (Hwl : (S l <= wl)%nat).
Context (IH : forall t L s rc, twf l t -> heap (flat l t ++ L) s -> recalculable l gfn t ->
  wp (resolve_loop l gfn (node_mfn t) rc) (resolve_post l gfn t L s rc) s).

Lemma resolve_descend m ks e t1 L s rc : twf (S l) (Node m ks) -> ks !! idx (S l) gfn = Some (e, Some t1) -> e_emt e = 0 ->
  heap (flat (S l) (Node m ks) ++ L) s -> recalculable (S l) gfn (Node m ks) ->
  wp (resolve_loop l gfn (node_mfn t1) rc) (resolve_post (S l) gfn (Node m ks) L s rc) s.
Proof.
  intros Ht Hk He Hh Hr. destruct (proj1 (twf_eq _ _) Ht) as [_ Hall].
  pose proof (Forall_lookup_1 _ _ _ _ Hall Hk) as (_ & _ & Ht1). eapply wp_mono.
  { apply IH; [exact Ht1|by eapply heap_kid|by eapply recalculable_kid]. }
  intros rc' s'. by eapply resolve_kid.
Qed.

(** A superpage that has to be split; [es] is the superpage that is split. *)
Lemma resolve_split m ks e es L s rc (split : M ept_p2m (bool * ept_entry)) : twf (S l) (Node m ks) -> ks !! idx (S l) gfn = Some (e, None) ->
  leaf_ok (S l) es -> e_sp es = true -> pending_entry es = true ->
  (forall g, block (S l) gfn g = true -> recalculated g (e_recalc e) (e_recalc es) (leaf_view (S l) e g) (leaf_view (S l) es g)) ->
  heap (flat (S l) (Node m ks) ++ L) s -> recalculable (S l) gfn (Node m ks) ->
  (forall Q, wp (ept_split_super_page (S l) es l) (fun r s' => if r.1 then Q r s' else Q r s' /\ (r.2 = es -> forall e2, e_sp e2 = true -> Q (false, e2) s')) s -> wp split Q s) ->
  wp (let! '(ok, e2) := split in
      if ok : bool then
        let! wrc := atomic_write_ept_entry m (Z.of_nat (idx (S l) gfn)) e2 (S l) in
        do! assert (wrc =? 0) in
        resolve_loop l gfn (e_mfn e2) rc
      else do! ept_free_entry (S l) e2 in ret (- ENOMEM)) (resolve_post (S l) gfn (Node m ks) L s rc) s.
Proof.
  intros Ht Hk He Hsp Hpe Hrec Hh Hr Hsplit. pose proof (heap_open _ _ _ _ _ _ _ Hk Hh) as Hh0. rewrite flat_slot_leaf in Hh0.
  assert (forall s1, only_tables s s1 -> heap ((m, ks.*1) :: others (S l) ks (idx (S l) gfn) ++ L) s1 -> resolve_post (S l) gfn (Node m ks) L s rc (- ENOMEM) s1) as Hfail.
  { intros s1 Ho1 Hh1. split; [by left|]. split; [done|]. exists (Node m ks). split_and!; [by apply rsame_refl| |done].
    eapply heap_perm; [|exact Hh1]. rewrite (flat_focus _ _ _ _ _ Hk). by rewrite flat_slot_leaf. }
  apply wp_bind, Hsplit. eapply wp_mono; [by eapply (ept_split_super_page_spec (S l) l Hwl); [| |exact Hh0]|].
  intros [ok e2] s1 (Ho1 & o & Hwf & Hh1 & Hok). cbn [fst snd app] in *. destruct ok.
  - specialize (Hok eq_refl). apply wp_bind. destruct (Hok gfn) as [Hview (Hlv & Hle & Hemt & Hmk & _)]; [lia|].
    destruct o as [t2|]; [|cbn in Hlv; lia]. pose proof Hwf as (Hm2 & Hmfn & Ht2).
    eapply (wp_atomic_recalc (S l) gfn m ks _ e None e2 (Some t2) L); [done|done| |done| |done|done|].
    { eapply heap_perm; [|exact Hh1]. by rewrite <- Permutation_middle. }
    { intros g Hg Hi. destruct (Hok g) as [-> Hm]. destruct Hm as (_ & _ & _ & _ & ->); [lia|]. rewrite slot_path_leaf. apply Hrec. by apply block_down. }
    intros s2 Ho2 Hs2 Hh2. apply wp_bind, wp_assert; [done|]. cbn [fst] in Hmfn. rewrite Hmfn.
    assert ((<[idx (S l) gfn := (e2, Some t2)]> ks) !! idx (S l) gfn = Some (e2, Some t2)) as Hk2
      by (apply list_lookup_insert_eq; by eapply lookup_lt_Some).
    eapply wp_mono; [eapply resolve_descend; [apply Hs2|exact Hk2|done|exact Hh2|by eapply rsame_recalculable]|].
    intros rc' s3. eapply resolve_trans; [by etrans|exact Hs2|by left|]. intros _. right. unfold pending.
    by rewrite (on_path_slot _ (S l) (Node m _) gfn _ Hk2), <- Hpe, <- Hmk.
  - split.
    + apply wp_bind. eapply wp_mono; [by apply (ept_free_entry_spec (S l) (e2, o) _ _ Hwf Hh1)|]. intros _ s2 [Ho2 Hh2]. apply wp_ret, Hfail; [by etrans|done].
    + intros -> e3 Hsp3. apply wp_bind. cbn [ept_free_entry]. unfold is_epte_superpage. rewrite Hsp3, orb_true_r. apply wp_ret, wp_ret, Hfail; [done|].
      destruct o as [t2|]; [|done]. destruct Hwf as (Hm2 & _). pose proof (mo_sp _ Hm2) as Hs2. cbn [fst] in Hs2. congruence.
Qed.

(** A superpage that gets its new types. *)
Lemma resolve_write m ks e emt nt e' L s rc : twf (S l) (Node m ks) -> ks !! idx (S l) gfn = Some (e, None) -> leaf_ok (S l) e -> is_epte_present e = true ->
  heap (flat (S l) (Node m ks) ++ L) s -> mem_type emt -> new_type e nt -> rewritten e emt nt e' ->
  (forall g, block (S l) gfn g = true -> p2m_recalc_type (e_recalc e) (e_sa_p2mt e) g = nt) ->
  wp (let! wrc := atomic_write_ept_entry m (Z.of_nat (idx (S l) gfn)) e' (S l) in
      do! assert (wrc =? 0) in ret 1) (resolve_post (S l) gfn (Node m ks) L s rc) s.
Proof.
  intros Ht Hk He Hp Hh Hemt Hnt Hrw Hrec. pose proof (heap_open _ _ _ _ _ _ _ Hk Hh) as Hh0. assert (emt_ok emt) as Hok by (by left). apply wp_bind.
  eapply (wp_atomic_recalc (S l) gfn m ks _ e None e' None L); [done|done|exact Hh0|by apply (rewritten_ok (S l) e emt nt)| |done|done|].
  - intros g Hg Hi. rewrite !slot_path_leaf. apply (rewritten_leaf (S l) e emt nt); [done..|]. apply Hrec. by apply block_down.
  - intros s1 Ho1 Hs1 Hh1. apply wp_bind, wp_assert; [done|]. apply wp_ret. eapply resolve_done; [exact Hs1|by eapply lookup_lt_Some|done|done|].
    apply (type_not_pending emt); [done|apply Hrw].
Qed.

(** A superpage whose type is not recalculated, or not for all of its frames. *)
Lemma resolve_super_keep m ks e L s rc : twf (S l) (Node m ks) -> ks !! idx (S l) gfn = Some (e, None) -> leaf_ok (S l) e -> e_sp e = true -> e_emt e = MTRR_NUM_TYPES ->
  heap (flat (S l) (Node m ks) ++ L) s -> recalculable (S l) gfn (Node m ks) ->
  wp (let! '(ok, e2) := ept_split_super_page (S l) e l in
      if ok : bool then
        let! wrc := atomic_write_ept_entry m (Z.of_nat (idx (S l) gfn)) e2 (S l) in
        do! assert (wrc =? 0) in
        resolve_loop l gfn (e_mfn e2) rc
      else do! ept_free_entry (S l) e2 in ret (- ENOMEM)) (resolve_post (S l) gfn (Node m ks) L s rc) s.
Proof.
  intros Ht Hk He Hsp Hemt Hh Hr. pose proof (super_present _ _ He Hsp) as Hp.
  apply (resolve_split m ks e e L s rc (ept_split_super_page (S l) e l)); try done.
  - unfold pending_entry. by rewrite Hp, Hemt.
  - intros g _. by apply recalculated_same.
  - intros Q HQ. eapply wp_mono; [exact HQ|]. intros [[] e2] s'; [done|]. by intros [? _].
Qed.

(** A superpage that becomes one of type [nt], with old flags still. *)
Lemma resolve_super_new m ks e nt emt ipat L s rc : twf (S l) (Node m ks) -> ks !! idx (S l) gfn = Some (e, None) -> leaf_ok (S l) e -> e_sp e = true -> e_emt e = MTRR_NUM_TYPES ->
  heap (flat (S l) (Node m ks) ++ L) s -> recalculable (S l) gfn (Node m ks) -> ram nt -> new_type e nt -> mem_type emt \/ emt < 0 ->
  (forall g, block (S l) gfn g = true -> p2m_recalc_type (e_recalc e) (e_sa_p2mt e) g = nt) ->
  let e1 := set_recalc false (set_p2mt nt e) in
  wp (if emt <? 0 then
        let! '(ok, e2) := ept_split_super_page (S l) e1 l in
        if ok : bool then
          let! wrc := atomic_write_ept_entry m (Z.of_nat (idx (S l) gfn)) e2 (S l) in
          do! assert (wrc =? 0) in
          resolve_loop l gfn (e_mfn e2) rc
        else do! ept_free_entry (S l) e2 in ret (- ENOMEM)
      else
        let! e2 := ept_p2m_type_to_flags (set_recalc false (set_ipat ipat (set_emt emt e1))) in
        let! wrc := atomic_write_ept_entry m (Z.of_nat (idx (S l) gfn)) e2 (S l) in
        do! assert (wrc =? 0) in ret 1) (resolve_post (S l) gfn (Node m ks) L s rc) s.
Proof.
  intros Ht Hk He Hsp Hemt Hh Hr Hram Hnt Hm Hrec e1. pose proof (super_present _ _ He Hsp) as Hp.
  destruct (ram_fields _ Hram) as (_ & _ & _ & _ & _ & Hd & _ & Hrng). assert (e_sa_p2mt e1 = nt) as Hty by (by apply Z.mod_small).
  assert (forall Y, e_recalc Y = false -> e_mfn Y = e_mfn e -> e_access Y = e_access e -> e_sp Y = e_sp e -> e_sa_p2mt Y = nt -> rewritten e (e_emt Y) nt (flagged Y)) as Hfl.
  { intros Y Hre H1 H2 H3 H4. pose proof (rewritten_flags e Y H1 H2 H3) as Hrw. rewrite H4 in Hrw. revert Hrw.
    destruct (flagged_form Y) as (r & w & x & a & d & ->). cbn [e_emt e_sa_p2mt]. replace (set_recalc false (set_rwx r w x (set_ad a d Y))) with (set_rwx r w x (set_ad a d Y)); [done|].
    destruct Y. cbn in Hre |- *. by rewrite Hre. }
  destruct (Z.ltb_spec emt 0) as [Hneg|Hpos].
  - assert (rewritten e MTRR_NUM_TYPES nt (flagged e1)) as Hrw by (rewrite <- Hemt; by apply (Hfl e1)). assert (emt_ok MTRR_NUM_TYPES) as Hok by (by right).
    apply (resolve_split m ks e (flagged e1) L s rc (ept_split_super_page (S l) e1 l)); try done.
    + by apply (rewritten_ok (S l) e MTRR_NUM_TYPES nt).
    + by rewrite (rw_sp _ _ _ _ Hrw).
    + unfold pending_entry. rewrite (rewritten_present (S l) e MTRR_NUM_TYPES nt _ He Hp Hnt Hrw), (rw_emt _ _ _ _ Hrw). done.
    + intros g Hg. apply (rewritten_leaf (S l) e MTRR_NUM_TYPES nt); [done..|by apply Hrec].
    + intros Q HQ. apply split_flags; [by rewrite Hty|]. eapply wp_mono; [exact HQ|]. intros [[] e2] s'; [done|]. intros [? Hq]. split; [done|]. intros Heq. by apply Hq.
  - destruct Hm as [Hm|?]; [|lia]. set (e2 := set_recalc false (set_ipat ipat (set_emt emt e1))).
    assert (e_emt e2 = emt) as He2 by (apply (emt_mod emt); by left). apply wp_bind, wp_type_to_flags; [by change (e_sa_p2mt e2) with (e_sa_p2mt e1); rewrite Hty|].
    apply (resolve_write m ks e emt nt); [done..| |done]. rewrite <- He2. by apply (Hfl e2).
Qed.

(** A table passes its mark on to its entries. *)
Lemma resolve_pass m ks e t1 L s rc : twf (S l) (Node m ks) -> ks !! idx (S l) gfn = Some (e, Some t1) -> heap (flat (S l) (Node m ks) ++ L) s ->
  recalculable (S l) gfn (Node m ks) ->
  wp (let! _ := ept_invalidate_emt_subtree (e_mfn e) (e_recalc e) (S l) in
      let! wrc := atomic_write_ept_entry m (Z.of_nat (idx (S l) gfn)) (set_recalc false (set_emt 0 e)) (S l) in
      do! assert (wrc =? 0) in
      resolve_loop l gfn (e_mfn e) 1) (resolve_post (S l) gfn (Node m ks) L s rc) s.
Proof.
  intros Ht Hk Hh Hr. destruct (proj1 (twf_eq _ _) Ht) as [_ Hall]. cbn [kids] in Hall.
  pose proof (Forall_lookup_1 _ _ _ _ Hall Hk) as (Hm & Hmfn & Ht1). cbn [fst] in Hm, Hmfn. rewrite Hmfn. destruct t1 as [m1 ks1]. cbn [node_mfn].
  apply wp_bind. eapply wp_mono; [apply (ept_invalidate_emt_subtree_spec (e_recalc e) l (S l) m1 ks1); [intros Hre; by apply (mo_recalc _ Hm)|done|lia|exact Ht1|by eapply heap_kid]|].
  intros ? s1 (Ho1 & _ & ks1' & Hs1 & Hh1 & Hmk). set (e' := set_recalc false (set_emt 0 e)).
  assert (slot_wf (S l) (e', Some (Node m1 ks1'))) as Hwf2.
  { split_and!; [|done|apply Hs1]. destruct Hm as [[? ? ? ?] ? ? ? ? ? ?]. split; cbn; try done; by left. }
  apply wp_bind. eapply (wp_atomic_recalc (S l) gfn m ks _ e (Some (Node m1 ks1)) e' (Some (Node m1 ks1')) L); [done|done| |done| |done|done|].
  { eapply heap_perm; [|exact Hh1]. cbn [flat_slot snd]. by rewrite <- Permutation_middle. }
  { intros g _ _. pose proof (proj2 (proj2 Hs1) g) as Hv. change (slot_view (S l) (e, Some (Node m1 ks1)) g) with (tview l (Node m1 ks1) g).
    change (slot_view (S l) (e', Some (Node m1 ks1')) g) with (tview l (Node m1 ks1') g). rewrite Hv. apply recalculated_same. intros Hp.
    exact (mark_recalcs _ _ _ _ _ _ Ht1 Hmk Hp). }
  intros s2 Ho2 Hs2 Hh2. apply wp_bind, wp_assert; [done|].
  eapply wp_mono; [eapply (resolve_descend m _ e' (Node m1 ks1')); [apply Hs2| |done|exact Hh2|by eapply rsame_recalculable]|].
  { apply list_lookup_insert_eq. by eapply lookup_lt_Some. }
  intros rc' s3. eapply (resolve_trans _ _ _ _ _ _ _ _ _ 1); [by etrans|exact Hs2|by right|by intros _; left].
Qed.
End level.

(** The last table. *)
Lemma resolve_table gfn m ks L s rc : 0 <= gfn < 2 ^ 64 -> twf 0 (Node m ks) -> heap (flat 0 (Node m ks) ++ L) s -> recalculable 0 gfn (Node m ks) ->
  wp (let! _ := for_upto EPT_PAGETABLE_ENTRIES 0 (resolve_leaf m (gfn - Z.of_nat (idx 0 gfn))) in ret 1)
     (resolve_post 0 gfn (Node m ks) L s rc) s.
Proof.
  intros Hg Ht Hh Hr. apply wp_bind.
  eapply (wp_for_upto (fun j s' => only_tables s s' /\ exists t', rsame 0 gfn (Node m ks) t' /\ heap (flat 0 t' ++ L) s' /\
    (forall i k, (i < j)%nat -> kids t' !! i = Some k -> pending_entry k.1 = false))
    (fun _ => False) _ _ _ 0); [| | |done].
  - intros j s1 Hj (Ho1 & t1 & Hs1 & Hh1 & Hp1). rewrite <- (proj1 Hs1 : node_mfn t1 = m) at 1.
    eapply wp_mono; [apply (resolve_leaf_spec gfn j t1 L); [lia|done|apply Hs1|done|by eapply rsame_recalculable]|].
    intros ? s2 (-> & Ho2 & t2 & Hs2 & Hh2 & Hsame & Hp2). split; [by etrans|]. exists t2.
    split_and!; [by eapply rsame_trans|done|]. intros i k Hij Hk2. destruct (decide (i = j)) as [->|Hne]; [by apply Hp2|].
    rewrite Hsame in Hk2 by done. eapply Hp1; [|done]. lia.
  - split; [done|]. exists (Node m ks). split_and!; [by apply rsame_refl|done|lia].
  - intros s1 (Ho1 & t1 & Hs1 & Hh1 & Hp1). apply wp_ret. split; [by right; right|]. split; [done|]. exists t1.
    split_and!; [done|done|]. intros _. split; [|done].
    destruct (twf_slot 0 t1 gfn) as ([e1 o1] & Hk1 & _); [apply Hs1|]. rewrite (pending_slot _ _ _ _ _ Hk1), orb_false_r.
    by apply (Hp1 _ _ (idx_lt 0 gfn) Hk1).
Qed.

(** A superpage with a pending change. *)
Lemma resolve_super gfn l m ks e L s rc : 0 <= gfn < 2 ^ 64 -> (S l <= wl)%nat -> (forall t L s rc, twf l t -> heap (flat l t ++ L) s -> recalculable l gfn t ->
    wp (resolve_loop l gfn (node_mfn t) rc) (resolve_post l gfn t L s rc) s) ->
  twf (S l) (Node m ks) -> ks !! idx (S l) gfn = Some (e, None) -> leaf_ok (S l) e -> e_sp e = true -> e_emt e = MTRR_NUM_TYPES ->
  heap (flat (S l) (Node m ks) ++ L) s -> recalculable (S l) gfn (Node m ks) ->
  wp (resolve_loop (S l) gfn m rc) (resolve_post (S l) gfn (Node m ks) L s rc) s.
Proof.
  intros Hg Hwl IH Ht Hk He Hsp Hemt Hh Hr. pose proof (super_present _ _ He Hsp) as Hp. cbn [resolve_loop]. rewrite land_idx. apply wp_bind.
  eapply wp_read_slot; [exact Hk|exact Hh|]. cbn [fst]. unfold is_epte_superpage. rewrite Hsp, Hemt. cbn [negb Z.eqb MTRR_NUM_TYPES].
  pose proof (emt_type gfn (e_mfn e) (Z.of_nat (S l) * EPT_TABLE_ORDER) (e_sa_p2mt e) Hg) as Hty. destruct (epte_get_entry_emt _ _ _ _) as [emt ipat]. cbn [fst] in Hty.
  destruct (e_recalc e && p2m_is_changeable (e_sa_p2mt e)) eqn:Hredo; cbn [negb orb].
  - apply andb_prop in Hredo as [Hre Hch]. destruct (lo_recalc _ _ He Hre) as (Hmode & _).
    destruct (recalculable_leaf (S l) gfn gfn (Node m ks) e Hr Hmode (Z.eqb_refl _) Hk He Hp) as (Hio & Ha & Hax). pose proof (ram_cases _ Hch Hio) as Hram.
    apply wp_bind, wp_assert; [by rewrite (eqb_neq_false _ _ Hio)|].
    pose proof (fun g => dirty_type (S l) gfn (e_sa_p2mt e) g ltac:(lia) Hmode Hram) as Hd. cbn zeta in Hd. set (d := p2m_is_logdirty_range _ _) in *.
    assert (mem_type emt \/ emt < 0) as Hm by (destruct Hty as [?|[-> _]]; [by left|right; lia]).
    assert (forall nt, ram nt -> new_type e nt) as Hnew by (intros nt Hnt; right; done).
    destruct (Z.eqb_spec d 0) as [Hd0|Hd0]; [|destruct (Z.eqb_spec d 1) as [Hd1|Hd1]].
    + rewrite Hre. change (p2m_is_changeable (e_sa_p2mt (set_recalc _ _))) with true. cbn [andb].
      apply (resolve_super_new l gfn Hwl IH m ks e p2m_ram_rw emt ipat); try done; [by left|by apply Hnew; left|]. rewrite Hre. intros g Hb. by apply Hd.
    + rewrite Hre. change (p2m_is_changeable (e_sa_p2mt (set_recalc _ _))) with true. cbn [andb].
      apply (resolve_super_new l gfn Hwl IH m ks e p2m_ram_logdirty emt ipat); try done; [by right|by apply Hnew; right|]. rewrite Hre. intros g Hb. by apply Hd.
    + by apply (resolve_super_keep l gfn Hwl IH).
  - apply wp_bind, wp_assert; [done|]. destruct (Z.ltb_spec emt 0); [by apply (resolve_super_keep l gfn Hwl IH)|].
    destruct Hty as [Hty|[? _]]; [|lia]. change (e_sa_p2mt (set_recalc false (set_ipat ipat (set_emt emt e)))) with (e_sa_p2mt e). rewrite Hredo.
    apply wp_bind, wp_ret. assert (e_emt (set_ipat ipat (set_emt emt e)) = emt) as He1 by (apply (emt_mod emt); by left).
    apply (resolve_write l gfn m ks e emt (e_sa_p2mt e)); try done; [by left| |].
    { pose proof (rewritten_keep (S l) e (set_ipat ipat (set_emt emt e)) He) as Hrw. rewrite He1 in Hrw. by apply Hrw. }
    intros g _. unfold p2m_recalc_type, p2m_recalc_type_range. destruct (e_recalc e); [|done]. cbn [andb] in Hredo. by rewrite Hredo.
Qed.

Lemma resolve_loop_recalc gfn l : 0 <= gfn < 2 ^ 64 -> (l <= wl)%nat -> forall t L s rc, twf l t -> heap (flat l t ++ L) s -> recalculable l gfn t ->
  wp (resolve_loop l gfn (node_mfn t) rc) (resolve_post l gfn t L s rc) s.
Proof.
  intros Hg. induction l as [|l IH]; intros Hwl [m ks] L s rc Ht Hh Hr; destruct (twf_slot _ _ gfn Ht) as ([e o] & Hk & Hwf); cbn [kids node_mfn] in *.
  - cbn [resolve_loop]. rewrite land_idx. apply wp_bind. eapply wp_read_slot; [exact Hk|exact Hh|]. cbn [fst].
    destruct (Z.eqb_spec (e_emt e) MTRR_NUM_TYPES) as [He|He]; cbn [negb]; [by apply resolve_table|].
    apply wp_ret, resolve_none; [done|done|]. by rewrite (pending_slot 0 (Node m ks) _ _ _ Hk), not_pending.
  - specialize (IH ltac:(lia)). destruct o as [t1|].
    + cbn [resolve_loop]. rewrite land_idx. apply wp_bind. eapply wp_read_slot; [exact Hk|exact Hh|]. cbn [fst].
      pose proof Hwf as (Hm & Hmfn & Ht1). cbn [fst] in Hm, Hmfn. unfold is_epte_superpage. rewrite (mo_sp _ Hm).
      destruct (Z.eqb_spec (e_emt e) MTRR_NUM_TYPES) as [He|He].
      * apply wp_bind, wp_assert; [by apply middle_present|]. by eapply resolve_pass.
      * rewrite middle_present by done. destruct (mo_emt _ Hm) as [He0|]; [|done]. rewrite He0. cbn [andb Z.eqb]. rewrite Hmfn.
        by eapply resolve_descend.
    + change (leaf_ok (S l) e) in Hwf. pose proof (pending_leaf (S l) (Node m ks) gfn _ Hk) as Hpl.
      destruct (e_sp e) eqn:Hsp, (Z.eqb_spec (e_emt e) MTRR_NUM_TYPES) as [He|He]; [by eapply resolve_super| |by destruct (lo_pending _ _ Hwf ltac:(done) Hsp)|];
        cbn [resolve_loop]; rewrite land_idx; apply wp_bind; (eapply wp_read_slot; [exact Hk|exact Hh|]); cbn [fst]; unfold is_epte_superpage; rewrite Hsp, (eqb_neq_false _ _ He).
      * apply wp_ret, resolve_none; [done|done|]. by rewrite Hpl, not_pending.
      * assert (is_epte_present e = false) as -> by (pose proof (lo_super _ _ Hwf) as Hs; rewrite Hsp in Hs; by destruct (is_epte_present e)).
        apply wp_ret, resolve_none; [done|done|]. by rewrite Hpl, not_pending.
Qed.
End resolve.

(** ** Without recalculation *)

Lemma mod_span_parts l g g' : g mod span (S l) = g' mod span (S l) -> idx l g = idx l g' /\ g mod span l = g' mod span l.
Proof.
  rewrite !mod_span_S. intros Heq. pose proof (Z.mod_pos_bound g (span l) (span_pos l)). pose proof (Z.mod_pos_bound g' (span l) (span_pos l)).
  assert (Z.of_nat (idx l g) = Z.of_nat (idx l g')) as Hi by nia. split; [lia|]. rewrite Hi in Heq. lia.
Qed.

(** A table does not know more of a frame than its number in the table. *)
Lemma tview_mod l : forall t g g', g mod span (S l) = g' mod span (S l) -> tview l t g = tview l t g'.
Proof.
  induction l as [|l IH]; intros t g g' Heq; destruct (mod_span_parts _ _ _ Heq) as [Hi Hm]; unfold tview; cbn [tleaf]; rewrite Hi;
    destruct (kids t !! _) as [[e [t1|]]|]; try done; try (unfold leaf_view; by rewrite Hm).
  apply IH. exact Hm.
Qed.

Section settled.
Context `{EptEnv, !EptLaws}.

Lemma slot_recalc l k : slot_wf l k -> e_recalc k.1 = false.
Proof. destruct k as [e [t|]]; [destruct l; [done|]; intros (Hm & _); by apply mo_settled|apply lo_settled]. Qed.

Lemma settled_recalcs l : forall t g, twf l t -> recalcs l t g = false.
Proof.
  induction l as [|l IH]; intros t g Ht; destruct (twf_slot _ _ g Ht) as ([e o] & Hk & Hwf); unfold recalcs; rewrite (on_path_slot _ _ _ _ _ Hk);
    unfold slot_path; rewrite (slot_recalc _ _ Hwf); cbn [fst snd orb]; [done|]. destruct o as [t1|]; [|done]. apply IH, Hwf.
Qed.

Lemma settled_same l gfn t t' : twf l t -> rsame l gfn t t' -> same_tree l t t'.
Proof.
  intros Ht (Hm & Ht' & Hv). split_and!; [done|done|]. intros g. pose proof (span_pos (S l)) as Hs.
  set (g' := gfn / span (S l) * span (S l) + g mod span (S l)). pose proof (Z.mod_pos_bound g (span (S l)) Hs).
  assert (g mod span (S l) = g' mod span (S l)) as Heq by (unfold g'; rewrite Z.add_comm, Z.mod_add, Z.mod_mod by lia; done).
  rewrite !(tview_mod l _ g g' Heq). assert (block (S l) gfn g' = true) as Hb.
  { apply Z.eqb_eq. unfold g'. rewrite Z.add_comm, Z.div_add, (Z.div_small (g mod _)) by lia. lia. }
  specialize (Hv g' Hb). rewrite !settled_recalcs in Hv by done. unfold recalculated in Hv.
  destruct (tview l t g') as [[[m1 t1] a1] p1], (tview l t' g') as [[[m2 t2] a2] p2]. destruct Hv as (-> & -> & -> & Hty & _).
  destruct p1; [by rewrite !recalc_none in Hty; rewrite Hty|by rewrite Hty].
Qed.
End settled.
