(* ===== verification/EptWalk.v ===== *)
(** * Walking down the tables

    The table a walk stands on, the tree around it and what replacing it
    means ([ctx]); the walks of [ept_get_entry] and [ept_set_entry]. *)

From S2P Require Import Prelude RbTree RbSpec RbHeap PageInfo XomDomain XomSeal P2mTypes XomGuest MemType Ept EptSpec EptOps EptResolve.

(** ** The table under the walk *)

(** Two guest frames take the same entries at the levels above [i]. *)
Definition agree (l i : nat) (g g' : Z) : bool := forallb (fun j => (idx j g' =? idx j g)%nat) (seq (S i) (l - i)).

Lemma agree_top l g g' : agree l l g g' = true.
Proof. unfold agree. by rewrite Nat.sub_diag. Qed.

Lemma agree_S l i g g' : (i < l)%nat -> agree l i g g' = (idx (S i) g' =? idx (S i) g)%nat && agree l (S i) g g'.
Proof. intros Hi. unfold agree. replace (l - i)%nat with (S (l - S i)) by lia. done. Qed.

Lemma agree_refl l i g : agree l i g g = true.
Proof. apply forallb_forall. intros j _. apply Nat.eqb_refl. Qed.

Section walk.
Context `{EptEnv, !EptLaws} {rc : Recalc}.

(** [sub] is the table of level [i] on the way of [g] in the tree [T], [R] are
    the other tables: the frames that agree with [g] are those of [sub], and
    [sub] can be replaced.  Something may be pending on the way to [sub]. *)
Record ctx (l : nat) (T : tree) (i : nat) (sub : tree) (g : Z) (R : list (Z * list ept_entry)) : Prop := {
  cx_le : (i <= l)%nat;
  cx_wf : twf l T;
  cx_sub : twf i sub;
  cx_flat : flat l T ≡ₚ flat i sub ++ R;
  cx_leaf : forall g', agree l i g g' = true -> tleaf l T g' = tleaf i sub g';
  cx_close : exists b : (ept_entry -> bool) -> bool,
    (forall f g', agree l i g g' = true -> on_path f l T g' = b f || on_path f i sub g') /\
    forall sub', twf i sub' -> node_mfn sub' = node_mfn sub ->
    exists T', twf l T' /\ node_mfn T' = node_mfn T /\ flat l T' ≡ₚ flat i sub' ++ R /\
      (forall g', tleaf l T' g' = if agree l i g g' then tleaf i sub' g' else tleaf l T g') /\
      forall f g', on_path f l T' g' = if agree l i g g' then b f || on_path f i sub' g' else on_path f l T g'
}.

(** A change that leaves nothing pending for [g]. *)
Definition calm (l : nat) (g : Z) (t t' : tree) : Prop := pending l t g = false -> pending l t' g = false.

Lemma calm_refl l g t : calm l g t t.
Proof. exact (fun Hp => Hp). Qed.

Lemma calm_trans l g t1 t2 t3 : calm l g t1 t2 -> calm l g t2 t3 -> calm l g t1 t3.
Proof. unfold calm. auto. Qed.

Lemma ctx_refl l T g : twf l T -> ctx l T l T g [].
Proof.
  intros HT. split; [done|done|done|by rewrite app_nil_r|done|]. exists (fun _ => false). split; [done|]. intros T' HT' Hm. exists T'.
  split_and!; [done|done|by rewrite app_nil_r|intros g'; by rewrite agree_top|intros f g'; by rewrite agree_top].
Qed.

(** [sub] is replaced; [b] tells of the entries above it. *)
Lemma ctx_replace l T i sub g R sub' : ctx l T i sub g R -> twf i sub' -> node_mfn sub' = node_mfn sub ->
  exists T' b, ctx l T' i sub' g R /\ node_mfn T' = node_mfn T /\
    (forall g', tleaf l T' g' = if agree l i g g' then tleaf i sub' g' else tleaf l T g') /\
    (forall f g', agree l i g g' = true -> on_path f l T g' = b f || on_path f i sub g') /\
    (forall f g', on_path f l T' g' = if agree l i g g' then b f || on_path f i sub' g' else on_path f l T g').
Proof.
  intros [Hle HT Hsub Hf Hl (b & Hb & Hc)] Hsub' Hm. destruct (Hc sub' Hsub' Hm) as (T' & HT' & HmT & Hf' & Hl' & Hp').
  exists T', b. split_and!; [|done|done|done|done].
  split; [done|done|done|done|by intros g' Ha; rewrite Hl', Ha|]. exists b. split; [intros f g' Ha; by rewrite Hp', Ha|].
  intros sub2 Hsub2 Hm2. destruct (Hc sub2 Hsub2) as (T2 & HT2 & HmT2 & Hf2 & Hl2 & Hp2); [congruence|].
  exists T2. split_and!; [done|congruence|done|intros g'; rewrite Hl2, Hl'; by destruct (agree l i g g')|].
  intros f g'. rewrite Hp2, Hp'. by destruct (agree l i g g').
Qed.

Lemma ctx_update l T i sub g R sub' : ctx l T i sub g R -> twf i sub' -> node_mfn sub' = node_mfn sub ->
  exists T', ctx l T' i sub' g R /\ node_mfn T' = node_mfn T /\
    (pending i sub' g = false -> calm l g T T') /\
    forall g', tleaf l T' g' = if agree l i g g' then tleaf i sub' g' else tleaf l T g'.
Proof.
  intros Hc Hsub' Hm. destruct (ctx_replace _ _ _ _ _ _ _ Hc Hsub' Hm) as (T' & b & Hc' & HmT & Hl & Hb & Hp). exists T'.
  split_and!; [done|done| |done]. unfold calm, pending. rewrite Hb, Hp, agree_refl by apply agree_refl. by intros -> [-> _]%orb_false_elim.
Qed.

(** One level down. *)
Lemma ctx_step l T i m ks g R e t1 : ctx l T (S i) (Node m ks) g R -> ks !! idx (S i) g = Some (e, Some t1) ->
  ctx l T i t1 g ((m, ks.*1) :: others (S i) ks (idx (S i) g) ++ R).
Proof.
  intros [Hle HT Hsub Hf Hl (b & Hb & Hc)] Hk. destruct (proj1 (twf_eq _ _) Hsub) as [Hlen Hall]. cbn [kids] in *.
  pose proof (Forall_lookup_1 _ _ _ _ Hall Hk) as (Hm & Hmfn & Ht1). cbn [fst] in *.
  assert (idx (S i) g < length ks)%nat as Hlt by (by eapply lookup_lt_Some). split; [lia|done|done|..].
  - rewrite Hf, (flat_focus _ _ _ _ _ Hk). cbn [flat_slot snd]. rewrite <- Permutation_middle. cbn. by rewrite <- app_assoc.
  - intros g' Ha. rewrite agree_S in Ha by lia. apply andb_prop in Ha as [Hi%Nat.eqb_eq Ha].
    rewrite (Hl _ Ha). apply tleaf_slot with (k := (e, Some t1)). cbn. by rewrite Hi.
  - exists (fun f => b f || f e). split.
    { intros f g' Ha. rewrite agree_S in Ha by lia. apply andb_prop in Ha as [Hi%Nat.eqb_eq Ha].
      rewrite (Hb _ _ Ha), (on_path_slot f (S i) (Node m ks) g' (e, Some t1)) by (cbn; by rewrite Hi). apply orb_assoc. }
    intros t1' Ht1' Hm1. set (k' := (e, Some t1') : slot). assert (slot_wf (S i) k') as Hk' by (split_and!; cbn; [done|congruence|done]).
    destruct (Hc (Node m (<[idx (S i) g := k']> ks))) as (T' & HT' & HmT & Hf' & Hl' & Hp'); [by apply twf_insert|done|].
    exists T'. split_and!; [done|done|..].
    + rewrite Hf', flat_focus_insert by done. rewrite list_insert_id by (by rewrite list_lookup_fmap, Hk).
      cbn [flat_slot snd k']. rewrite <- Permutation_middle. cbn. by rewrite <- app_assoc.
    + intros g'. rewrite Hl', (agree_S l i) by lia. destruct (agree l (S i) g g') eqn:Ha; [|by rewrite andb_false_r].
      rewrite andb_true_r, (Hl _ Ha). destruct (Nat.eqb_spec (idx (S i) g') (idx (S i) g)) as [Hi|Hi].
      * apply tleaf_slot with (k := k'). cbn. rewrite Hi. by apply list_lookup_insert_eq.
      * destruct (twf_slot _ _ g' Hsub) as (k0 & Hk0 & _). rewrite (tleaf_slot _ _ _ _ Hk0).
        apply tleaf_slot. cbn. by rewrite list_lookup_insert_ne.
    + intros f g'. rewrite Hp', (agree_S l i) by lia. destruct (agree l (S i) g g') eqn:Ha; [|by rewrite andb_false_r].
      rewrite andb_true_r, (Hb _ _ Ha). destruct (Nat.eqb_spec (idx (S i) g') (idx (S i) g)) as [Hi|Hi].
      * rewrite (on_path_slot f (S i) (Node m _) g' k') by (cbn; rewrite Hi; by apply list_lookup_insert_eq). apply orb_assoc.
      * destruct (twf_slot _ _ g' Hsub) as (k0 & Hk0 & _). rewrite (on_path_slot f _ _ _ _ Hk0).
        rewrite (on_path_slot f (S i) (Node m _) g' k0); [done|]. cbn. by rewrite list_lookup_insert_ne.
Qed.

Lemma ctx_heap l T i sub g R L s : ctx l T i sub g R -> heap (flat l T ++ L) s <-> heap (flat i sub ++ R ++ L) s.
Proof.
  intros Hc. split; apply heap_perm; rewrite (cx_flat _ _ _ _ _ _ Hc); by rewrite <- app_assoc.
Qed.

(** A change below the walk that no lookup sees. *)
Lemma ctx_same l T i sub g R sub' : ctx l T i sub g R -> same_tree i sub sub' ->
  exists T', ctx l T' i sub' g R /\ same_tree l T T' /\ (calm i g sub sub' -> calm l g T T').
Proof.
  intros Hc (Hm & Hw & Hv). destruct (ctx_update _ _ _ _ _ _ _ Hc Hw Hm) as (T' & Hc' & HmT & Hp & Hl).
  exists T'. split; [done|]. split.
  2: { intros Hcalm HT. destruct (cx_close _ _ _ _ _ _ Hc) as (b & Hb & _). pose proof HT as HT'. unfold pending in HT'.
       rewrite Hb in HT' by apply agree_refl. apply orb_false_elim in HT' as [_ Hsub]. apply Hp; [by apply Hcalm|done]. }
  split_and!; [done|apply Hc'|]. intros g'. unfold tview. rewrite Hl.
  destruct (agree l i g g') eqn:Ha; [|done]. rewrite (cx_leaf _ _ _ _ _ _ Hc g' Ha). apply Hv.
Qed.

(** ** Indices *)

Lemma rem_index i g : Z.shiftr (g mod span (S i)) (Z.of_nat i * EPT_TABLE_ORDER) = Z.of_nat (idx i g).
Proof.
  rewrite Z.shiftr_div_pow2 by (unfold EPT_TABLE_ORDER; lia).
  replace (2 ^ (Z.of_nat i * EPT_TABLE_ORDER)) with (span i) by (unfold span, EPT_TABLE_ORDER; f_equal; lia).
  pose proof (span_pos i). rewrite mod_span_S, Z.div_add_l by lia. rewrite Z.div_small; [lia|]. by apply Z.mod_pos_bound.
Qed.

Lemma land_span x i : Z.land x (Z.shiftl 1 (Z.of_nat i * EPT_TABLE_ORDER) - 1) = x mod span i.
Proof.
  rewrite Z.shiftl_1_l.
  replace (2 ^ (Z.of_nat i * EPT_TABLE_ORDER) - 1) with (Z.ones (Z.of_nat i * EPT_TABLE_ORDER)) by (rewrite Z.ones_equiv; lia).
  rewrite Z.land_ones by (unfold EPT_TABLE_ORDER; lia). unfold span, EPT_TABLE_ORDER. do 2 f_equal. lia.
Qed.

Lemma mod_mod_span g i : (g mod span (S i)) mod span i = g mod span i.
Proof. rewrite mod_span_S, Z.add_comm, Z.mod_add, Z.mod_mod; (done || pose proof (span_pos i); lia). Qed.

(** ** One step *)

Definition new_table (e : ept_entry) : tree := Node (e_mfn e) (replicate EPT_PAGETABLE_ENTRIES (sve_entry, None)).

Lemma flat_new_table l e : flat l (new_table e) = [(e_mfn e, replicate EPT_PAGETABLE_ENTRIES sve_entry)].
Proof.
  unfold new_table. rewrite flat_eq, fmap_replicate. f_equal. generalize EPT_PAGETABLE_ENTRIES. intros n.
  induction n as [|n IH]; [done|]. cbn [replicate map concat]. by rewrite flat_slot_leaf.
Qed.

Lemma new_table_wf l e : (l <= wl)%nat -> twf l (new_table e).
Proof. intros Hl. apply twf_eq. split; [apply length_replicate|]. apply Forall_replicate. by apply empty_ok. Qed.

Lemma leaf_view_empty l b g : leaf_view l (set_sve b empty_entry) g = hole.
Proof. unfold leaf_view. destruct (_ && _); [done|]. by destruct b. Qed.

Lemma new_table_view l e g : tview l (new_table e) g = hole.
Proof.
  rewrite (tview_slot l _ g (sve_entry, None)); [apply leaf_view_empty|]. apply lookup_replicate. split; [done|apply idx_lt].
Qed.

Lemma new_table_pending l e g : pending l (new_table e) g = false.
Proof. rewrite (pending_leaf l _ g sve_entry); [done|]. apply lookup_replicate. split; [done|apply idx_lt]. Qed.

Lemma leaf_super l e : leaf_ok (S l) e -> e_sp e = is_epte_present e.
Proof. intros Hl. apply (lo_super _ _ Hl). Qed.

Lemma wp_next_level (ro : bool) i m ks g L s k (Q : Z * Z * Z -> ept_p2m -> Prop) :
  (S i <= wl)%nat -> twf (S i) (Node m ks) -> ks !! idx (S i) g = Some k -> heap (flat (S i) (Node m ks) ++ L) s ->
  (forall t1, k.2 = Some t1 -> Q (GUEST_TABLE_NORMAL_PAGE, node_mfn t1, g mod span (S i)) s) ->
  (k.2 = None -> e_sp k.1 = true -> Q (GUEST_TABLE_SUPER_PAGE, m, g mod span (S (S i))) s) ->
  (k.2 = None -> e_sp k.1 = false -> Q (GUEST_TABLE_MAP_FAILED, m, g mod span (S (S i))) s) ->
  (ro = false -> k.2 = None -> e_sp k.1 = false -> forall e s', only_tables s s' -> middle_ok e ->
     let ks' := <[idx (S i) g := (e, Some (new_table e))]> ks in
     same_tree (S i) (Node m ks) (Node m ks') -> pending (S i) (Node m ks') g = false ->
     heap (flat (S i) (Node m ks') ++ L) s' ->
     Q (GUEST_TABLE_NORMAL_PAGE, e_mfn e, g mod span (S i)) s') ->
  wp (ept_next_level ro m (g mod span (S (S i))) (S i)) Q s.
Proof.
  intros Hwl Ht Hk Hh HN HS HF HA. pose proof (idx_lt (S i) g) as Hlt. unfold ept_next_level.
  rewrite rem_index, land_span, mod_mod_span. apply wp_bind, wp_assert; [done|].
  apply wp_bind, wp_assert; [change (Z.of_nat EPT_PAGETABLE_ENTRIES) with 512; lia|]. apply wp_bind. eapply wp_read_slot; [exact Hk|exact Hh|].
  destruct (proj1 (twf_eq _ _) Ht) as [Hlen Hall]. pose proof (Forall_lookup_1 _ _ _ _ Hall Hk) as Hwf.
  destruct k as [e [t1|]]; cbn [fst snd] in *.
  { destruct Hwf as (Hm & Hmfn & Ht1). cbn [fst] in *. rewrite (middle_present _ Hm). cbn [negb]. unfold is_epte_superpage.
    rewrite (mo_sp _ Hm), Hmfn. by apply wp_ret, HN. }
  change (leaf_ok (S i) e) in Hwf. rewrite <- (leaf_super _ _ Hwf). unfold is_epte_superpage.
  destruct (e_sp e) eqn:Hsp; cbn [negb]; [by apply wp_ret, HS|].
  rewrite (proj1 (lo_type _ _ Hwf)). destruct ro; [by apply wp_ret, HF|].
  pose proof (heap_open _ _ _ _ _ _ _ Hk Hh) as Hh0. rewrite flat_slot_leaf in Hh0. apply wp_bind.
  eapply wp_set_middle_entry; [exact Hh0|by apply wp_ret, HF|]. intros mid s1 Ho1 Hmid Hemt Hrec Hh1. apply wp_bind.
  eapply (wp_atomic_same (S i) m ks _ e None mid (Some (new_table mid)) L); [done|done| | | |done|done|].
  - cbn [flat_slot snd]. rewrite flat_new_table. eapply heap_perm; [|exact Hh1]. cbn. apply Permutation_swap.
  - split_and!; [done|done|apply new_table_wf; lia].
  - intros g' _. change (tview i (new_table mid) g' = leaf_view (S i) e g'). rewrite new_table_view. unfold leaf_view.
    rewrite <- (leaf_super _ _ Hwf), Hsp. done.
  - intros s2 t2 Ho2 Hs2 -> Hh2. apply wp_bind, wp_assert; [done|]. apply wp_ret, HA; try done; [by etrans|].
    rewrite (pending_slot _ (Node m _) g mid (Some (new_table mid))) by (apply list_lookup_insert_eq; by eapply lookup_lt_Some).
    by rewrite new_table_pending, not_pending by (by rewrite Hemt).
Qed.

(** ** The walk of a lookup *)

Lemma lookup_walk_spec g i : (i <= wl)%nat -> forall rec sub L s, twf i sub -> heap (flat i sub ++ L) s ->
  wp (lookup_walk i (node_mfn sub) (g mod span (S i)) rec) (fun r s' => s' = s /\
    match r with
    | inl _ => tview i sub g = hole
    | inr (j, m, rem, recalc) => rem = g mod span (S j) /\
        exists es L' e, heap ((m, es) :: L') s /\ es !! idx j g = Some e /\ leaf_ok j e /\
          (j <> O -> is_epte_present e = true) /\ tleaf i sub g = (j, e) /\ recalc || e_recalc e = rec || recalcs i sub g
    end) s.
Proof.
  induction i as [|i IH]; intros Hwl rec [m ks] L s Ht Hh; cbn [lookup_walk];
    destruct (twf_slot _ _ g Ht) as (k & Hk & Hwf); cbn [kids node_mfn] in *; pose proof (tview_slot _ (Node m ks) g k Hk) as Hv;
    pose proof (tleaf_slot _ (Node m ks) g k Hk) as Hl; unfold recalcs; rewrite (on_path_slot _ _ (Node m ks) _ _ Hk).
  - apply wp_ret. split_and!; [done..|]. pose proof (heap_open _ _ _ _ _ _ _ Hk Hh) as Hh'.
    destruct k as [e [?|]]; [done|]. eexists _, _, e. split_and!; [exact Hh'|by rewrite list_lookup_fmap, Hk|done..|by rewrite slot_path_leaf].
  - rewrite rem_index. apply wp_bind. eapply wp_read_slot; [exact Hk|exact Hh|].
    apply wp_bind. eapply wp_next_level; [done|done|exact Hk|exact Hh|..].
    + intros t1 Hk2. cbn. destruct k as [e o]. cbn in Hk2. subst o. destruct Hwf as (Hm & Hmfn & Ht1).
      eapply wp_mono; [eapply IH; [lia|exact Ht1|by eapply heap_kid]|]. intros r s' [-> Hr]. split; [done|].
      destruct r as [?|[[[? ?] ?] ?]]; [by rewrite Hv|].
      destruct Hr as (? & es & L' & e' & ? & ? & ? & ? & Hr & Hrec). split_and!; [done..|]. exists es, L', e'.
      split_and!; [done..|exact (eq_trans Hl Hr)|]. rewrite Hrec. symmetry. apply orb_assoc.
    + intros Hk2 Hsp. destruct k as [e o]. cbn in Hk2, Hsp. subst o. change (leaf_ok (S i) e) in Hwf. apply wp_ret.
      split_and!; [done..|]. eexists _, _, e. split_and!; [by eapply heap_open|by rewrite list_lookup_fmap, Hk|done| |done|].
      * intros _. by rewrite <- (leaf_super _ _ Hwf).
      * rewrite slot_path_leaf. cbn [fst]. rewrite <- orb_assoc. by destruct (e_recalc e).
    + intros Hk2 Hsp. destruct k as [e o]. cbn in Hk2, Hsp. subst o. change (leaf_ok (S i) e) in Hwf. apply wp_ret.
      split; [done|]. rewrite Hv. unfold slot_view, leaf_view. cbn. by rewrite <- (leaf_super _ _ Hwf), Hsp.
    + done.
Qed.

(** ** The walk of an update *)

(** Where the walk ends: at the target, at a superpage above it, or without
    memory for a table. *)
Definition walk_end (target : nat) (g : Z) (r : Z) (i : nat) (sub : tree) : Prop :=
  r = GUEST_TABLE_MAP_FAILED \/ (r = GUEST_TABLE_NORMAL_PAGE /\ i = target) \/
  (r = GUEST_TABLE_SUPER_PAGE /\ (target < i)%nat /\ exists e, kids sub !! idx i g = Some (e, None) /\ e_sp e = true).

(** The walk stands on table [sub] of the tree [T]. *)
Definition at_table (T : tree) (i : nat) (sub : tree) (g : Z) (m rem : Z) s : Prop :=
  exists R, ctx wl T i sub g R /\ heap (flat i sub ++ R) s /\ m = node_mfn sub /\ rem = g mod span (S i).

Lemma set_walk_spec g target i : forall r0 T sub R s, ctx wl T i sub g R -> (target <= i)%nat ->
  heap (flat i sub ++ R) s -> (i = target -> r0 = GUEST_TABLE_NORMAL_PAGE) ->
  wp (set_walk r0 i target (node_mfn sub) (g mod span (S i)))
     (fun '(r, j, m, rem) s' => only_tables s s' /\ exists T' sub', same_tree wl T T' /\
        calm wl g T T' /\ at_table T' j sub' g m rem s' /\ walk_end target g r j sub') s.
Proof.
  induction i as [|i IH]; intros r0 T sub R s Hc Htg Hh Hr0; cbn [set_walk].
  { apply wp_ret. split; [done|]. exists T, sub. split; [apply same_tree_refl, Hc|]. split; [apply calm_refl|]. split; [by exists R|].
    right. left. split; [apply Hr0|]; lia. }
  destruct (Nat.leb_spec (S i) target) as [Hle|Hlt].
  { apply wp_ret. split; [done|]. exists T, sub. split; [apply same_tree_refl, Hc|]. split; [apply calm_refl|]. split; [by exists R|].
    right. left. split; [apply Hr0|]; lia. }
  destruct sub as [m ks]. pose proof (cx_sub _ _ _ _ _ _ Hc) as Ht. destruct (twf_slot _ _ g Ht) as (k & Hk & Hwf).
  cbn [kids node_mfn] in *. apply wp_bind.
  eapply wp_next_level; [apply Hc|done|exact Hk|exact Hh|..].
  - intros t1 Hk2. cbn. destruct k as [e o]. cbn in Hk2. subst o.
    eapply (IH _ T t1); [by eapply ctx_step|lia| |done]. pose proof (heap_kid _ _ _ _ _ _ _ _ Hk Hh) as Hh'.
    exact Hh'.
  - intros Hk2 Hsp. apply wp_ret. split; [done|]. exists T, (Node m ks). split; [apply same_tree_refl, Hc|].
    split; [apply calm_refl|]. split; [by exists R|]. right. right. split_and!; [done|lia|]. destruct k as [e o]. cbn in *. subst o. eauto.
  - intros Hk2 Hsp. apply wp_ret. split; [done|]. exists T, (Node m ks). split; [apply same_tree_refl, Hc|].
    split; [apply calm_refl|]. split; [by exists R|]. by left.
  - intros _ Hk2 Hsp mid s1 Ho1 Hmid ks' Hs1 Hp1 Hh1. cbn. destruct (ctx_same _ _ _ _ _ _ _ Hc Hs1) as (T1 & Hc1 & HsT & Hcalm).
    assert (ks' !! idx (S i) g = Some (mid, Some (new_table mid))) as Hk'
      by (apply list_lookup_insert_eq; by eapply lookup_lt_Some).
    eapply wp_mono; [eapply (IH _ T1 (new_table mid)); [by eapply ctx_step|lia|by eapply heap_kid|done]|].
    intros [[[r j] m'] rem'] s2 (Ho2 & T2 & sub2 & HsT2 & Hcalm2 & Hat & Hend). split; [by etrans|].
    exists T2, sub2. split; [by eapply same_tree_trans|]. split; [|done]. eapply calm_trans; [apply Hcalm; intros _; exact Hp1|exact Hcalm2].
Qed.

(** Nothing changes when there are tables down to the target. *)
Lemma set_walk_deep g target i : forall T sub R s, ctx wl T i sub g R -> (target <= i)%nat ->
  heap (flat i sub ++ R) s -> (tleaf i sub g).1 = target ->
  wp (set_walk GUEST_TABLE_NORMAL_PAGE i target (node_mfn sub) (g mod span (S i)))
     (fun '(r, j, m, rem) s' => s' = s /\ j = target /\ exists sub', at_table T target sub' g m rem s /\
        exists e, kids sub' !! idx target g = Some (e, None)) s.
Proof.
  induction i as [|i IH]; intros T sub R s Hc Htg Hh Hdeep; cbn [set_walk];
    pose proof (cx_sub _ _ _ _ _ _ Hc) as Ht; destruct (twf_slot _ _ g Ht) as ([e o] & Hk & Hwf);
    rewrite (tleaf_slot _ _ _ _ Hk) in Hdeep.
  { apply wp_ret. assert (target = O) as -> by lia. split_and!; [done..|]. exists sub. split; [by exists R|].
    destruct o; [done|eauto]. }
  destruct (Nat.leb_spec (S i) target) as [Hle|Hlt].
  { apply wp_ret. assert (target = S i) as -> by lia. split_and!; [done..|]. exists sub. split; [by exists R|].
    destruct o as [t1|]; [|eauto]. cbn in Hdeep. pose proof (tleaf_le i t1 g). lia. }
  destruct o as [t1|]; [|cbn in Hdeep; lia]. destruct sub as [m ks]. cbn [kids node_mfn] in *. apply wp_bind.
  eapply wp_next_level; [apply Hc|done|exact Hk|exact Hh|..]; cbn [fst snd]; [|done..].
  intros t' [= <-]. cbn. eapply (IH T t1); [by eapply ctx_step|lia|by eapply heap_kid|done].
Qed.
End walk.
