(* ===== verification/EptEntry.v ===== *)
(** * Looking entries up and changing them

    [ept_get_entry] finds the view of the tree; [ept_set_entry] replaces the
    view of the frames it is given, and of no others. *)

From S2P Require Import Prelude RbTree RbSpec RbHeap PageInfo XomDomain XomSeal P2mTypes XomGuest MemType Ept EptSpec EptOps EptResolve EptWalk.

Section entry.
Context `{EptEnv, !EptLaws}.

(** The tables in memory are those of the tree [T]. *)
Definition rep {rc : Recalc} (T : tree) (s : ept_p2m) : Prop := twf wl T /\ node_mfn T = ept_mfn s /\ heap (flat wl T) s.

Lemma rep_heap {rc : Recalc} T s : rep T s -> heap (flat wl T ++ []) s.
Proof. rewrite app_nil_r. by intros (_ & _ & ?). Qed.

Definition GFN_LIMIT : Z := span (S wl).

(** ** Lookup *)

Lemma recalc_hole b g : p2m_recalc_type b p2m_mmio_dm g = p2m_mmio_dm.
Proof. by destruct b. Qed.

(** The type that a lookup reports. *)
Definition reported (T : tree) (g : Z) : Z * Z * Z :=
  let '(mfn, t, a, _) := tview wl T g in (mfn, p2m_recalc_type (recalcs wl T g) t g, a).

Lemma ept_get_entry_reported {rc : Recalc} T g s : rep T s -> 0 <= g -> pt_max s < GFN_LIMIT ->
  wp (ept_get_entry g) (fun '(mfn, t, a, order) s' => s' = s /\
    (mfn, t, a) = (if pt_max s <? g then hole.1 else reported T g) /\
    (mfn <> INVALID_MFN -> order = Z.of_nat (tleaf wl T g).1 * EPT_TABLE_ORDER)) s.
Proof.
  intros (Ht & Hm & Hh) Hg Hlim. apply wp_bind, wp_get. destruct (Z.ltb_spec (pt_max s) g) as [Hlt|Hge].
  { apply wp_ret. done. }
  apply wp_bind. rewrite <- Hm. rewrite <- (Z.mod_small g (span (S wl))) at 1 by (unfold GFN_LIMIT in Hlim; lia).
  eapply wp_mono; [eapply lookup_walk_spec; [done|exact Ht|rewrite app_nil_r; exact Hh]|]. unfold reported.
  intros [i|[[[i m] rem] recalc]] s' [-> Hr].
  { apply wp_ret. rewrite Hr. split_and!; [done| |done]. cbn. by rewrite recalc_hole. }
  destruct Hr as (-> & es & L & e & Hh' & He & Hok & Hp & Hv & Hrec). cbn [orb] in Hrec. rewrite <- Hrec.
  unfold tview. rewrite Hv. cbn beta iota zeta. rewrite rem_index. apply wp_bind.
  eapply wp_tbl_read; [exact Hh'|lia|by rewrite Nat2Z.id|]. apply wp_bind, wp_assert.
  { by rewrite (proj1 (lo_type _ _ Hok)). }
  unfold leaf_view. assert (negb (i =? 0)%nat && negb (is_epte_present e) = false) as ->.
  { destruct (Nat.eqb_spec i 0); [done|]. by rewrite Hp. }
  destruct (is_epte_valid e); [|apply wp_ret; split_and!; [done|cbn; by rewrite recalc_hole|done]]. apply wp_ret. split_and!; [done| |done].
  rewrite land_span, mod_mod_span. destruct (Nat.eqb_spec i 0) as [->|]; [|done]. do 2 f_equal. change (span 0) with 1. rewrite Z.mod_1_r. lia.
Qed.

Lemma ept_get_entry_spec T g s : rep T s -> 0 <= g ->
  pt_max s < GFN_LIMIT ->
  wp (ept_get_entry g) (fun '(mfn, t, a, order) s' => s' = s /\
    (mfn, t, a) = (if pt_max s <? g then hole else tview wl T g).1 /\
    (mfn <> INVALID_MFN -> order = Z.of_nat (tleaf wl T g).1 * EPT_TABLE_ORDER)) s.
Proof.
  intros Hrep Hg Hlim. eapply wp_mono; [by apply (ept_get_entry_reported T)|]. intros [[[mfn t] a] order] s' (-> & Hv & Ho).
  split_and!; [done| |done]. rewrite Hv. destruct (pt_max s <? g); [done|]. unfold reported. rewrite (settled_recalcs wl T g) by apply Hrep.
  by destruct (tview wl T g) as [[[? ?] ?] ?].
Qed.

(** ** Finding the place *)

(** The entry that is going to be replaced: slot [k] of table [sub]. *)
Definition placed (T : tree) (g : Z) (target : nat) (place : Z * Z * ept_entry * bool * bool) s : Prop :=
  let '(m, index, old, needs_sync, _) := place in
  exists sub k, at_table T target sub g m (g mod span (S target)) s /\ index = Z.of_nat (idx target g) /\
    kids sub !! idx target g = Some k /\ slot_wf target k /\
    (old = k.1 \/ (old = empty_entry /\ k.2 = None)) /\ (needs_sync = false -> is_epte_present k.1 = false).

(** After a split the walk reaches the target. *)
Lemma place_split T i m ks e g R target s :
  ctx wl T i (Node m ks) g R -> (target < i)%nat -> heap (flat i (Node m ks) ++ R) s ->
  ks !! idx i g = Some (e, None) -> e_sp e = true ->
  wp (let! '(ok, e1) := ept_split_super_page i e target in
      if negb ok then do! ept_free_entry i e1 in ret None
      else
        let! wrc := atomic_write_ept_entry m (Z.of_nat (idx i g)) e1 i in
        do! assert (wrc =? 0) in
        let! '(_, i, m, rem) := set_walk GUEST_TABLE_NORMAL_PAGE i target m (g mod span (S i)) in
        do! assert (i =? target)%nat in
        ret (Some (m, Z.shiftr rem (Z.of_nat i * EPT_TABLE_ORDER), empty_entry, true, is_epte_present e)))
     (fun r s' => only_tables s s' /\ exists T', same_tree wl T T' /\ calm wl g T T' /\
        match r with None => heap (flat wl T') s' | Some place => placed T' g target place s' end) s.
Proof.
  intros Hc Hlt Hh Hk Hsp. pose proof (cx_sub _ _ _ _ _ _ Hc) as Ht. pose proof (cx_le _ _ _ _ _ _ Hc) as Hle.
  destruct (proj1 (twf_eq _ _) Ht) as [_ Hall]. pose proof (Forall_lookup_1 _ _ _ _ Hall Hk) as He.
  change (leaf_ok i e) in He. pose proof (heap_open _ _ _ _ _ _ _ Hk Hh) as Hh0. rewrite flat_slot_leaf in Hh0.
  apply wp_bind. eapply wp_mono; [by eapply (ept_split_super_page_spec i target Hle); [| |exact Hh0]|].
  intros [ok e1] s1 (Ho1 & o & Hwf & Hh1 & Hok). cbn [fst snd app] in *. destruct ok; cbn [negb].
  - specialize (Hok eq_refl). apply wp_bind.
    eapply (wp_atomic_same i m ks _ e None e1 o R); [done|done| |done|by intros; apply Hok|lia|lia|].
    { eapply heap_perm; [|exact Hh1]. by rewrite <- Permutation_middle. }
    intros s2 t2 Ho2 Hs2 -> Hh2. apply wp_bind, wp_assert; [done|].
    destruct (ctx_same _ _ _ _ _ _ _ Hc Hs2) as (T2 & Hc2 & HsT & Hcalm). apply wp_bind.
    assert ((<[idx i g := (e1, o)]> ks) !! idx i g = Some (e1, o)) as Hk2
      by (apply list_lookup_insert_eq; by eapply lookup_lt_Some).
    assert (calm wl g T T2) as HcT.
    { apply Hcalm. intros Hp. rewrite (pending_leaf i (Node m ks) g e Hk) in Hp.
      destruct (Hok g) as [_ (_ & _ & _ & Hnp & _)]; [done|]. rewrite <- Hp, <- Hnp. by apply on_path_slot. }
    eapply wp_mono; [eapply (set_walk_deep g target i T2 (Node m (<[idx i g := (e1, o)]> ks))); [exact Hc2|lia|exact Hh2|]|].
    { rewrite (tleaf_slot i (Node m _) g _ Hk2). by apply Hok. }
    intros [[[r j] m'] rem'] s3 (-> & -> & sub' & Hat & e' & Hk'). apply wp_bind, wp_assert; [apply Nat.eqb_refl|].
    apply wp_ret. split; [by etrans|]. exists T2. split; [done|]. split; [done|]. pose proof Hat as (R' & Hc' & _ & _ & ->).
    exists sub', (e', None). rewrite rem_index. split_and!; [done|done|done| |by right|done].
    destruct (proj1 (twf_eq _ _) (cx_sub _ _ _ _ _ _ Hc')) as [_ Hall']. by eapply Forall_lookup_1 in Hk'.
  - apply wp_bind. eapply wp_mono; [by apply (ept_free_entry_spec i (e1, o) _ _ Hwf Hh1)|].
    intros _ s2 [Ho2 Hh2]. apply wp_ret. split; [by etrans|]. exists T. split; [apply same_tree_refl, Hc|]. split; [apply calm_refl|].
    rewrite <- (app_nil_r (flat wl T)). apply (ctx_heap _ _ _ _ _ _ _ _ Hc). rewrite app_nil_r.
    eapply heap_perm; [|exact Hh2]. rewrite (flat_focus _ _ _ _ _ Hk). by rewrite flat_slot_leaf.
Qed.

Lemma set_place_spec T g target s : rep T s -> 0 <= g < GFN_LIMIT -> (target < wl)%nat ->
  wp (set_place g target)
     (fun r s' => only_tables s s' /\ exists T', same_tree wl T T' /\ calm wl g T T' /\
        match r with None => heap (flat wl T') s' | Some place => placed T' g target place s' end) s.
Proof.
  intros (Ht & Hm & Hh) Hg Htg. apply wp_bind, wp_gets. rewrite <- Hm. apply wp_bind.
  rewrite <- (Z.mod_small g (span (S wl))) at 1 by done.
  eapply wp_mono; [eapply (set_walk_spec g target wl _ T T); [by apply ctx_refl|lia|by rewrite app_nil_r|lia]|].
  intros [[[r i] m] rem] s1 (Ho1 & T1 & sub & Hs1 & Hc1 & (R & Hc & Hh1 & -> & ->) & Hend).
  destruct Hend as [->|[[-> ->]|(-> & Hlt & e & Hk & Hsp)]].
  - apply wp_ret. split; [done|]. exists T1. split; [done|]. split; [done|]. rewrite <- (app_nil_r (flat wl T1)).
    apply (ctx_heap _ _ _ _ _ _ _ _ Hc). by rewrite app_nil_r.
  - change (GUEST_TABLE_NORMAL_PAGE =? GUEST_TABLE_MAP_FAILED) with false. cbn beta iota zeta.
    apply wp_bind, wp_assert; [done|]. rewrite rem_index. destruct (twf_slot _ _ g (cx_sub _ _ _ _ _ _ Hc)) as (k & Hk & Hwf).
    destruct sub as [m ks]. cbn [kids node_mfn] in *. apply wp_bind. eapply wp_read_slot; [exact Hk|exact Hh1|].
    rewrite Nat.eqb_refl. apply wp_ret. split; [done|]. exists T1. split; [done|]. split; [done|].
    exists (Node m ks), k. split_and!; [by exists R|done|done|done|by left|done].
  - change (GUEST_TABLE_SUPER_PAGE =? GUEST_TABLE_MAP_FAILED) with false. cbn beta iota zeta.
    apply wp_bind, wp_assert; [done|]. rewrite rem_index. destruct sub as [m ks]. cbn [kids node_mfn] in *. apply wp_bind.
    eapply wp_read_slot; [exact Hk|exact Hh1|]. destruct (Nat.eqb_spec i target); [lia|]. cbn [fst].
    apply wp_bind, wp_assert; [exact Hsp|]. eapply wp_mono; [by eapply place_split|].
    intros r s2 (Ho2 & T2 & Hs2 & Hc2 & Hr). split; [by etrans|]. exists T2.
    split_and!; [by eapply same_tree_trans|by eapply calm_trans|done].
Qed.

(** ** The new entry *)

Definition new_entry (gfn mfn : Z) (l : nat) (t a : Z) : ept_entry :=
  if mfn_valid mfn || p2m_allows_invalid_mfn t then
    let '(emt, ipat) := epte_get_entry_emt gfn mfn (Z.of_nat l * EPT_TABLE_ORDER) t in
    flagged (set_mfn mfn (set_snp iommu_snooping (set_access a (set_p2mt t (set_sp (negb (l =? 0)%nat) (set_ipat ipat
      (set_emt (if 0 <=? emt then emt else MTRR_NUM_TYPES) empty_entry)))))))
  else empty_entry.

(** The frame as it is stored in an entry. *)
Definition stored (mfn : Z) : Z := mfn mod 2 ^ 40.

(** What a caller may map with an entry of level [l]. *)
Record settable (l : nat) (mfn t a : Z) : Prop := {
  st_type : 0 <= t < 64 /\ p2m_is_pod t = false /\ p2m_is_broken t = false;
  st_access : 0 <= a < 16;
  st_backed : mfn_valid mfn || p2m_allows_invalid_mfn t = true ->
    stored mfn + span l <= 2 ^ 40 /\ stored mfn mod span l = 0 /\
    forall j, 0 <= j < span l -> mfn_valid (stored mfn + j) || p2m_allows_invalid_mfn t = true;
  st_super : l <> O -> mfn_valid mfn || p2m_allows_invalid_mfn t = true -> plain t = true /\ any (super_rwx true (access_rwx a (type_rwx t true false))) = true /\
    forall j, 0 <= j < span l -> t = p2m_mmio_direct -> mmio_ro (stored mfn + j) = false
}.

Lemma new_entry_fields gfn mfn l t a : 0 <= t < 64 -> 0 <= a < 16 -> mfn_valid mfn || p2m_allows_invalid_mfn t = true ->
  let e := new_entry gfn mfn l t a in
  e_mfn e = stored mfn /\ e_sa_p2mt e = t /\ e_access e = a /\ e_sp e = negb (l =? 0)%nat /\
  e_recalc e = false /\ (0 <= gfn < 2 ^ 64 -> emt_ok (e_emt e)) /\ 0 <= e_emt e < 8 /\ rwx e = rights e.
Proof.
  intros Ht Ha Hm e. unfold e, new_entry. rewrite Hm.
  pose proof (emt_type gfn mfn (Z.of_nat l * EPT_TABLE_ORDER) t) as Hemt. destruct (epte_get_entry_emt _ _ _ _) as [emt ipat].
  cbn [fst] in Hemt. rewrite rights_flagged. destruct (flagged_spec (set_mfn mfn (set_snp iommu_snooping (set_access a (set_p2mt t
    (set_sp (negb (l =? 0)%nat) (set_ipat ipat (set_emt (if 0 <=? emt then emt else MTRR_NUM_TYPES) empty_entry))))))))
    as [(r & w & x & ac & d & Heq) _]. unfold rights. split_and!; try done; rewrite Heq; cbn; try done.
  - apply Z.mod_small. done.
  - apply Z.mod_small. done.
  - intros Hg. change (emt_ok ((if 0 <=? emt then emt else MTRR_NUM_TYPES) mod 8)). rewrite emt_mod;
      (destruct (Hemt Hg) as [Hm'|[-> _]]; [pose proof (mem_type_range _ Hm'); destruct (Z.leb_spec 0 emt); [by left|lia]|by right]).
  - by apply Z.mod_pos_bound.
  - by apply Z.mod_pos_bound.
Qed.

Lemma new_entry_ok gfn mfn l t a b : settable l mfn t a -> (l < wl)%nat -> 0 <= gfn < GFN_LIMIT -> leaf_ok l (set_sve b (new_entry gfn mfn l t a)).
Proof.
  intros [(Ht & Hpod & Hbr) Ha Hback Hsup] Hl Hg. destruct (mfn_valid mfn || p2m_allows_invalid_mfn t) eqn:Hm.
  2: { unfold new_entry. rewrite Hm. apply empty_ok. lia. }
  destruct (new_entry_fields gfn mfn l t a Ht Ha Hm) as (Hf & Htt & Haa & Hs & Hr & Hty & Hemt & Hrw).
  destruct (Hback eq_refl) as (Hfit & Hal & Hb). set (e := new_entry gfn mfn l t a) in *. pose proof (span_pos l).
  assert (0 <= stored mfn < 2 ^ 40) as Hst by (by apply Z.mod_pos_bound).
  assert (l <> O -> is_epte_present (set_sve b e) = true) as Hpr.
  { intros Hne. destruct (Hsup Hne eq_refl) as (_ & Hany & Hro). rewrite present_rwx. change (any (rwx e) = true).
    rewrite Hrw, (proj2 (flagged_spec e)), Hf, Htt, Haa, Hs. destruct (Nat.eqb_spec l 0); [done|]. cbn [negb].
    replace (type_rwx t true (mmio_ro (stored mfn))) with (type_rwx t true false); [done|].
    unfold type_rwx. destruct (Z.eqb_spec t p2m_mmio_direct) as [->|]; [|done].
    by rewrite <- (Z.add_0_r (stored mfn)), Hro by (done || lia). }
  split.
  - split; cbn; rewrite ?Hf, ?Htt, ?Haa; done.
  - cbn. by rewrite Hf.
  - cbn [e_mfn set_sve]. by rewrite Hf.
  - change (e_recalc (set_sve b e)) with (e_recalc e). by rewrite Hr.
  - change (rwx e = rights (set_sve b e)). rewrite Hrw. symmetry. by apply rights_ext.
  - cbn. rewrite Hf, Htt. auto.
  - cbn. by rewrite Htt.
  - change (e_sp (set_sve b e)) with (e_sp e). rewrite Hs. destruct (Nat.eqb_spec l 0); [done|]. by rewrite Hpr.
  - done.
  - apply Hty. change GFN_LIMIT with (2 ^ 36) in Hg. lia.
  - intros Hne. change (e_sp (set_sve b e)) with (e_sp e). rewrite Hs. by destruct (Nat.eqb_spec l 0).
  - intros Hne. cbn. rewrite Htt. by apply Hsup.
  - intros Hne. cbn. rewrite Htt, Hf. intros -> j Hj. by apply Hsup.
Qed.

Lemma wp_new_leaf gfn mfn l t a (Q : ept_entry -> ept_p2m -> Prop) s :
  settable l mfn t a -> Q (new_entry gfn mfn l t a) s -> wp (new_leaf gfn mfn l t a) Q s.
Proof.
  intros [(Ht & _) _ _ Hsup] HQ. unfold new_leaf, new_entry in *.
  destruct (mfn_valid mfn || _); [|by apply wp_ret].
  destruct (epte_get_entry_emt _ _ _ _) as [emt ipat]. apply wp_type_to_flags; [|done]. cbn.
  rewrite Z.mod_small by done. intros Hd Hs. destruct (Nat.eqb_spec l 0); [done|]. pose proof (span_pos l).
  rewrite <- (Z.add_0_r (mfn mod _)). by apply Hsup.
Qed.

(** ** The frames of an entry *)

Lemma agree_block l i g g' : (i <= l)%nat -> 0 <= g < span (S l) -> 0 <= g' < span (S l) ->
  agree l i g g' && (idx i g' =? idx i g)%nat = block i g g'.
Proof.
  intros Hi Hg Hg'. unfold block. remember (l - i)%nat as n eqn:Hn. revert i Hi Hn.
  induction n as [|n IH]; intros i Hi Hn; rewrite (div_span i g), (div_span i g').
  - assert (i = l) as -> by lia. rewrite agree_top. rewrite !Z.div_small by done. cbn [andb].
    destruct (Nat.eqb_spec (idx l g') (idx l g)), (Z.eqb_spec (512 * 0 + Z.of_nat (idx l g')) (512 * 0 + Z.of_nat (idx l g)));
      (done || lia).
  - rewrite agree_S by lia. rewrite andb_comm, (andb_comm _ (agree _ _ _ _)), IH by lia. pose proof (idx_lt i g).
    pose proof (idx_lt i g'). destruct (Nat.eqb_spec (idx i g') (idx i g)), (Z.eqb_spec (g' / span (S i)) (g / span (S i)));
      cbn [andb]; symmetry; first [apply Z.eqb_eq; lia|apply Z.eqb_neq; lia].
Qed.

(** ** Writing it *)

Lemma kids_flat l k : slot_wf l k -> is_epte_present k.1 = false -> flat_slot l k = [].
Proof.
  destruct k as [e [t|]]; [|by destruct l]. destruct l as [|l]; [done|]. intros (Hm & _) Hp. by rewrite (middle_present _ Hm) in Hp.
Qed.

(** The tree with the slot of [g] at level [target] replaced by a leaf. *)
Lemma place_leaf T g target m ks R k e : ctx wl T target (Node m ks) g R -> 0 <= g < GFN_LIMIT ->
  ks !! idx target g = Some k -> leaf_ok target e ->
  exists T', ctx wl T' target (Node m (<[idx target g := (e, None)]> ks)) g R /\ node_mfn T' = node_mfn T /\
    (pending_entry e = false -> calm wl g T T') /\ tleaf wl T' g = (target, e) /\
    forall g', 0 <= g' < GFN_LIMIT -> tview wl T' g' = if block target g g' then leaf_view target e g' else tview wl T g'.
Proof.
  intros Hc Hg Hk He. pose proof (cx_sub _ _ _ _ _ _ Hc) as Ht. set (ks' := <[idx target g := (e, None)]> ks).
  destruct (ctx_update _ _ _ _ _ _ (Node m ks') Hc) as (T' & Hc' & Hm & Hp & Hl); [by apply twf_insert|done|].
  assert (ks' !! idx target g = Some (e, None)) as Hke by (apply list_lookup_insert_eq; by eapply lookup_lt_Some).
  exists T'. split_and!; [done|done|by rewrite <- (pending_leaf target (Node m ks') g e Hke)| |].
  { rewrite Hl, agree_refl. by apply (tleaf_slot target (Node m ks') g (e, None)). }
  intros g' Hg'.
  rewrite <- (agree_block wl target g g') by (done || apply Hc). unfold tview. rewrite Hl.
  destruct (agree wl target g g') eqn:Ha; [|done]. cbn [andb]. rewrite (cx_leaf _ _ _ _ _ _ Hc g' Ha).
  destruct (Nat.eqb_spec (idx target g') (idx target g)) as [Hi|Hi].
  - rewrite (tleaf_slot target (Node m ks') g' (e, None)); [done|]. cbn [kids]. by rewrite Hi.
  - destruct (twf_slot _ _ g' Ht) as (k0 & Hk0 & _). rewrite (tleaf_slot target (Node m ks) g' k0 Hk0).
    rewrite (tleaf_slot target (Node m ks') g' k0); [done|]. cbn [kids]. unfold ks'. by rewrite list_lookup_insert_ne.
Qed.

(** The processors drop what they cached before they use the tables again. *)
Definition will_flush (s : ept_p2m) : bool :=
  negb paging_mode_hap || negb has_vcpus || (pt_invalidate s && (negb defer_flush || pt_need_flush s)).

Lemma wp_sync_domain s (Q : unit -> ept_p2m -> Prop) :
  (forall i n, let s' := set_flush i n s in will_flush s' = true -> Q tt s') -> wp ept_sync_domain Q s.
Proof.
  intros HQ. apply wp_modify. specialize (HQ (if negb paging_mode_hap || negb has_vcpus then pt_invalidate s else true)
    (if negb paging_mode_hap || negb has_vcpus then pt_need_flush s else if defer_flush then true else pt_need_flush s)).
  revert HQ. unfold will_flush. destruct s, paging_mode_hap, has_vcpus; cbn; auto. destruct defer_flush; auto.
Qed.

(** What an update that wrote the entry did. *)
Definition set_post (T : tree) (g order t : Z) (target : nat) (new : ept_entry) s s' : Prop :=
  ept_mfn s' = ept_mfn s /\
  pt_max s' = (let last := g + Z.shiftl 1 order - 1 in if negb (t =? p2m_invalid) && (pt_max s <? last) then last else pt_max s) /\
  exists T' b, twf wl T' /\ node_mfn T' = node_mfn T /\ heap (flat wl T') s' /\
    (pending_entry (set_sve b new) = false -> calm wl g T T') /\ tleaf wl T' g = (target, set_sve b new) /\
    (forall g', 0 <= g' < GFN_LIMIT ->
       tview wl T' g' = if block target g g' then leaf_view target (set_sve b new) g' else tview wl T g') /\
    (will_flush s' = true \/ forall g', 0 <= g' < GFN_LIMIT -> block target g g' = true -> (tview wl T g').2 = false).

Lemma not_present_view l e g : leaf_ok l e -> is_epte_present e = false -> (leaf_view l e g).2 = false.
Proof. intros Hl Hp. unfold leaf_view. rewrite Hp. destruct (_ && _); [done|]. by destruct (is_epte_valid e). Qed.

Lemma placed_view T g target m ks R k g' : ctx wl T target (Node m ks) g R -> ks !! idx target g = Some k ->
  0 <= g < GFN_LIMIT -> 0 <= g' < GFN_LIMIT -> block target g g' = true -> tview wl T g' = slot_view target k g'.
Proof.
  intros Hc Hk Hg Hg' Hb. rewrite <- (agree_block wl target g g') in Hb by (done || apply Hc).
  apply andb_prop in Hb as [Ha Hi%Nat.eqb_eq]. unfold tview. rewrite (cx_leaf _ _ _ _ _ _ Hc g' Ha).
  by rewrite (tleaf_slot target (Node m ks) g' k) by (cbn; by rewrite Hi).
Qed.

(** The IOMMU refused a change.  The entry was written by then. *)
Definition iommu_refuses (g mfn order rc : Z) : Prop :=
  rc < 0 /\ exists flags present, iommu_change g mfn order flags present = rc.

(** Setting a frame to what it is does not reach the IOMMU. *)
Lemma no_modify g mfn t a cur : leaf_ok 0 cur -> settable 0 mfn t a -> (leaf_view 0 cur g).1 = (mfn, t, a) -> mfn <> INVALID_MFN ->
  (mfn_valid mfn || p2m_allows_invalid_mfn t) && (e_mfn cur =? e_mfn (new_entry g mfn 0 t a)) &&
  (p2m_get_iommu_flags (e_sa_p2mt cur) (e_access cur) (e_mfn cur) =? p2m_get_iommu_flags t a mfn) = true.
Proof.
  intros Hok [(Ht & _) Ha _ _] Hv Hne. unfold leaf_view in Hv. cbn [Nat.eqb negb andb] in Hv.
  destruct (is_epte_valid cur) eqn:Hval; [|injection Hv as <- _ _; done].
  change (span 0) with 1 in Hv. rewrite Z.mod_1_r, Z.add_0_r in Hv. cbn in Hv. injection Hv as <- <- <-.
  pose proof (lo_backed _ _ Hok Hval) as Hb. change (span 0) with 1 in Hb.
  specialize (Hb 0 ltac:(lia)). rewrite Z.add_0_r in Hb.
  destruct (new_entry_fields g (e_mfn cur) 0 (e_sa_p2mt cur) (e_access cur) Ht Ha Hb) as (Hf & _).
  rewrite Hb, Hf. unfold stored.
  rewrite Z.mod_small by apply (ir_mfn _ (lo_range _ _ Hok)). by rewrite !Z.eqb_refl.
Qed.

Lemma set_finish_spec T g mfn order t a sve target place s :
  placed T g target place s -> 0 <= g < GFN_LIMIT -> (target < wl)%nat -> settable target mfn t a ->
  (forall k b, slot_wf target k -> (forall g', 0 <= g' < GFN_LIMIT -> block target g g' = true ->
     slot_view target k g' = tview wl T g') -> unaccounted target k.1 (set_sve b (new_entry g mfn target t a))) ->
  wp (set_finish g mfn order t a sve target place)
     (fun rc s' => (rc = 0 \/ iommu_refuses g mfn order rc /\
          (target = O -> mfn = INVALID_MFN \/ (tview wl T g).1 <> (mfn, t, a))) /\
        set_post T g order t target (new_entry g mfn target t a) s s') s.
Proof.
  destruct place as [[[[m index] old] needs_sync] vtd].
  intros (sub & k & (R & Hc & Hh & -> & _) & -> & Hk & Hwf & Hold & Hsync) Hg Hle Hst Hun.
  destruct sub as [m ks]. cbn [kids node_mfn] in *. unfold set_finish.
  apply wp_bind. eapply wp_read_slot; [exact Hk|exact Hh|]. apply wp_bind, wp_new_leaf; [done|].
  set (new := new_entry g mfn target t a) in *. set (b := if negb (sve =? -1) then _ else _).
  pose proof (new_entry_ok g mfn target t a b Hst Hle Hg) as Hok. fold new in Hok. cbn zeta. apply wp_bind.
  eapply (wp_atomic_write target m ks _ (set_sve b new, None) (flat_slot target k ++ R));
    [by rewrite list_lookup_fmap, Hk| | |].
  { rewrite flat_slot_leaf. eapply heap_perm; [|exact (heap_open _ _ _ _ _ _ _ Hk Hh)]. cbn. f_equiv.
    rewrite !app_assoc. by rewrite (Permutation_app_comm (flat_slot target k)). }
  { apply Hun; [done|]. intros g' Hg' Hb. symmetry. by eapply placed_view. }
  intros s1 Ho1 Hh1. destruct (place_leaf _ _ _ _ _ _ _ _ Hc Hg Hk Hok) as (T' & Hc' & HmT & Hcalm & Hleaf & Hview).
  apply wp_bind, wp_gets. cbn [Z.eqb andb]. set (last := g + Z.shiftl 1 order - 1).
  assert (pt_max s1 = pt_max s /\ ept_mfn s1 = ept_mfn s) as (Hmax & Hroot)
    by (by rewrite Ho1). rewrite Hmax.
  set (max' := if negb (t =? p2m_invalid) && (pt_max s <? last) then last else pt_max s).
  apply wp_bind. exists tt, (set_max max' s1). split.
  { unfold max'. destruct (_ && _); [done|]. rewrite <- Hmax. by destruct s1. }
  apply wp_bind. eapply wp_mono with (P := fun _ s2 => (exists i n, s2 = set_flush i n (set_max max' s1)) /\ (needs_sync = true -> will_flush s2 = true)).
  { destruct needs_sync; [apply wp_sync_domain; intros i n s'; eauto|]. apply wp_ret. split; [|done].
    exists (pt_invalidate s1), (pt_need_flush s1). by destruct s1. }
  intros _ s2 [(fi & fn & Hs2) Hflush].
  set (rc := if _ : bool then iommu_change _ _ _ _ _ else 0).
  assert (rc = 0 \/ iommu_refuses g mfn order rc /\ (target = O -> mfn = INVALID_MFN \/ (tview wl T g).1 <> (mfn, t, a))) as Hrc.
  { unfold rc. clear rc. match goal with |- context [if negb ?b then _ else _] => destruct b eqn:Hb end; [by left|]. cbn [negb].
    destruct (decide (iommu_change g mfn order (p2m_get_iommu_flags t a mfn) vtd = 0)) as [->|Hne]; [by left|right].
    split; [split; [|by eexists _, _]; pose proof (iommu_result g mfn order (p2m_get_iommu_flags t a mfn) vtd); lia|].
    intros ->. destruct (decide (mfn = INVALID_MFN)) as [|Hi]; [by left|right]. intros Hv.
    rewrite (placed_view _ _ _ _ _ _ _ _ Hc Hk Hg Hg ltac:(unfold block; apply Z.eqb_refl)) in Hv.
    destruct k as [e [?|]]; [done|]. pose proof (no_modify g mfn t a e Hwf Hst Hv Hi) as Hn. fold new in Hn.
    cbn [fst] in Hb. congruence. }
  apply wp_bind. eapply wp_mono with (P := fun _ s3 => only_tables s2 s3 /\ heap (flat wl T') s3).
  - assert (heap (flat_slot target k ++ flat wl T') s2) as Hh2.
    { rewrite Hs2. change (heap (flat_slot target k ++ flat wl T') s1). eapply heap_perm; [|exact Hh1].
      rewrite (cx_flat _ _ _ _ _ _ Hc'). rewrite !app_assoc. by rewrite (Permutation_app_comm (flat _ _)). }
    destruct (is_epte_present old) eqn:Hp.
    + destruct Hold as [->|[-> _]]; [|done]. by apply (ept_free_entry_spec target k).
    + apply wp_ret. split; [done|]. destruct Hold as [->|[_ Hk2]].
      * by rewrite (kids_flat _ _ Hwf Hp) in Hh2.
      * destruct k as [e o]. cbn in Hk2. subst o. by rewrite flat_slot_leaf in Hh2.
  - intros _ s3 [Ho3 Hh3]. apply wp_ret. cbn [Z.eqb]. split; [rewrite no_altp2m; by destruct (Z.eqb_spec rc 0); [left|]|]. rewrite Ho3, Hs2. cbn. split_and!; [done|done|].
    exists T', b. split_and!; [apply Hc'|done| |done|done|done|].
    + rewrite Ho3, Hs2 in Hh3. exact Hh3.
    + destruct needs_sync; [left; by rewrite Hs2 in Hflush; apply Hflush|right]. intros g' Hg' Hb. specialize (Hsync eq_refl).
      rewrite (placed_view _ _ _ _ _ _ _ _ Hc Hk Hg Hg' Hb). destruct k as [e [t1|]].
      * destruct target; [done|]. destruct Hwf as (Hmid & _). by rewrite (middle_present _ Hmid) in Hsync.
      * by apply (not_present_view target).
Qed.

(** ** The operations *)

Lemma resolve_misconfig_recalc {mode : Recalc} P T g s : (may_recalc = true -> logdirty_exact P) -> 0 <= g < 2 ^ 64 -> rep T s -> recalculable wl g T ->
  wp (resolve_misconfig g) (fun rc s' => resolve_rc 0 rc /\ pt_max s' = pt_max s /\ ept_mfn s' = ept_mfn s /\
    exists T', rsame wl g T T' /\ rep T' s' /\ (ept_mfn s <> 0 -> cleared wl g T T' rc) /\ (rc <> - ENOMEM -> calm wl g T T')) s.
Proof.
  intros Hex Hg (Ht & Hm & Hh) Hrec. apply wp_bind, wp_gets. destruct (Z.eqb_spec (ept_mfn s) 0) as [H0'|H0'].
  { apply wp_ret. split_and!; [by right; left|done|done|]. exists T. split_and!; [by apply rsame_refl|done..|]. intros _. apply calm_refl. }
  rewrite <- Hm. apply wp_bind. eapply wp_mono; [apply (resolve_loop_recalc P Hex g wl Hg ltac:(done) T []); [done|by rewrite app_nil_r|done]|].
  intros rc s1 (Hrc & Ho & T' & Hs & Hh' & Hc). rewrite app_nil_r in Hh'.
  assert (ept_mfn s1 = ept_mfn s /\ pt_max s1 = pt_max s) as (E1 & E2) by (by rewrite Ho).
  set (s2 := if negb (rc =? 0) then set_spurious true s1 else s1). apply wp_bind. exists tt, s2. split; [unfold s2; by destruct (negb _)|].
  apply wp_ret. assert (ept_mfn s2 = ept_mfn s1 /\ pt_max s2 = pt_max s1 /\ pt_tables s2 = pt_tables s1)
    as (F1 & F2 & F4) by (unfold s2; by destruct (negb _)).
  split_and!; [done|congruence|congruence|]. exists T'. split_and!; [done| |done|intros Hne _; by apply Hc].
  split_and!; [apply Hs|rewrite (proj1 Hs); congruence|unfold heap in *; by rewrite F4].
Qed.

Lemma resolve_misconfig_spec T g s : 0 <= g < 2 ^ 64 -> rep T s ->
  wp (resolve_misconfig g) (fun rc s' => resolve_rc 0 rc /\ pt_max s' = pt_max s /\
    ept_mfn s' = ept_mfn s /\
    exists T', same_tree wl T T' /\ rep T' s' /\ (ept_mfn s <> 0 -> cleared wl g T T' rc) /\
      (rc <> - ENOMEM -> calm wl g T T')) s.
Proof.
  intros Hg Hrep. eapply wp_mono; [by apply (resolve_misconfig_recalc (fun _ => True) T)|]. intros rc s' (Hrc & Hmax & Hm & T' & Hs & Hrest).
  split_and!; [done..|]. exists T'. split; [eapply settled_same; [apply Hrep|exact Hs]|done].
Qed.

(** A frame is left out of the accounts of types when level [l] of it is set. *)
Definition no_account (T : tree) (g mfn : Z) (l : nat) (t a : Z) : Prop :=
  forall k b, slot_wf l k -> (forall g', 0 <= g' < GFN_LIMIT -> block l g g' = true -> slot_view l k g' = tview wl T g') ->
    unaccounted l k.1 (set_sve b (new_entry g mfn l t a)).

Definition page_size_ok (l : nat) : Prop := (l = 2%nat /\ hap_has_1gb = true) \/ (l = 1%nat /\ hap_has_2mb = true) \/ l = O.

Lemma order_target (l : nat) : Z.to_nat (Z.of_nat l * EPT_TABLE_ORDER / EPT_TABLE_ORDER) = l /\
  Z.of_nat l * EPT_TABLE_ORDER mod EPT_TABLE_ORDER = 0.
Proof. rewrite Z.div_mul, Z.mod_mul by done. split; [lia|done]. Qed.

Lemma set_entry_aligned (l : nat) fn_mask gfn mfn :
  Z.land fn_mask (Z.shiftl 1 (Z.of_nat l * EPT_TABLE_ORDER) - 1) = 0 ->
  fn_mask = Z.lor gfn mfn \/ fn_mask = gfn -> gfn mod span l = 0.
Proof.
  intros Hl Hf. rewrite land_span in Hl. unfold span in *. apply Z.bits_inj'. intros n Hn. rewrite Z.bits_0.
  destruct (decide (n < 9 * Z.of_nat l)) as [Hlt|Hge].
  - assert (Z.testbit fn_mask n = false) as Hb.
    { rewrite <- (Z.mod_pow2_bits_low fn_mask (9 * Z.of_nat l) n) by lia. rewrite Hl. apply Z.bits_0. }
    rewrite Z.mod_pow2_bits_low by lia. destruct Hf as [->| ->]; [|done]. rewrite Z.lor_spec in Hb.
    by apply orb_false_elim in Hb as [? _].
  - apply Z.mod_pow2_bits_high. lia.
Qed.

Lemma gfn_limit g : 0 <= g -> Z.shiftr g (Z.of_nat (wl + 1) * EPT_TABLE_ORDER) = 0 -> g < GFN_LIMIT.
Proof.
  intros Hg. rewrite Z.shiftr_div_pow2 by done. change (2 ^ (Z.of_nat (wl + 1) * EPT_TABLE_ORDER)) with GFN_LIMIT.
  intros Hz. apply Z.div_small_iff in Hz as [?|[? ?]]; [lia| |done].
  pose proof (span_pos (S wl)). unfold GFN_LIMIT in *. lia.
Qed.

Lemma set_post_same T T' g order t l new s s' s'' : same_tree wl T T' -> calm wl g T T' -> ept_mfn s' = ept_mfn s -> pt_max s' = pt_max s ->
  set_post T' g order t l new s' s'' -> set_post T g order t l new s s''.
Proof.
  intros (Hm & _ & Hv) Hc Er Ex (Hroot & Hmax & T2 & b & Ht2 & Hm2 & Hh2 & Hc2 & Hl2 & Hv2 & Hsy). split_and!; [congruence|by rewrite <- Ex|].
  exists T2, b. split_and!; [done|congruence|done|intros Hp; eapply calm_trans; [exact Hc|by apply Hc2]|done| |].
  - intros g' Hg'. rewrite Hv2 by done. by rewrite Hv.
  - destruct Hsy as [?|Hsy]; [by left|right]. intros g' Hg' Hb. rewrite <- Hv. by apply Hsy.
Qed.

(** Why an update fails before it writes: the entry is not aligned, or memory
    runs out while deferred changes are carried out or on the way to the
    entry. *)
Definition set_fails (g mfn : Z) (l : nat) s : Prop :=
  GFN_LIMIT <= g \/
  Z.land (if negb (mfn =? INVALID_MFN) then Z.lor g mfn else g) (Z.shiftl 1 (Z.of_nat l * EPT_TABLE_ORDER) - 1) <> 0 \/
  exists rc s1, resolve_misconfig g s = Some (rc, s1) /\ (rc < 0 \/ exists s2, set_place g l s1 = Some (None, s2)).

Lemma ept_set_entry_spec T g mfn (l : nat) t a sve s : rep T s -> 0 <= g -> page_size_ok l -> settable l mfn t a ->
  (p2m_is_foreign t = true -> l = O) -> no_account T g mfn l t a ->
  wp (ept_set_entry g mfn (Z.of_nat l * EPT_TABLE_ORDER) t a sve)
     (fun rc s' => (rc < 0 /\ set_fails g mfn l s /\ pt_max s' = pt_max s /\ exists T', same_tree wl T T' /\ rep T' s') \/
        ((rc = 0 \/ iommu_refuses g mfn (Z.of_nat l * EPT_TABLE_ORDER) rc /\
            (l = O -> mfn = INVALID_MFN \/ (tview wl T g).1 <> (mfn, t, a))) /\
         g < GFN_LIMIT /\ g mod span l = 0 /\
         set_post T g (Z.of_nat l * EPT_TABLE_ORDER) t l (new_entry g mfn l t a) s s')) s.
Proof.
  intros Hrep Hg Hps Hst Hfor Hun.
  assert (l < wl)%nat as Hl by (destruct Hps as [[-> _]|[[-> _]| ->]]; unfold wl; lia). unfold ept_set_entry. destruct (order_target l) as [-> ->]. cbn [negb Z.eqb].
  rewrite orb_false_r. destruct (_ || _) eqn:Hbad.
  { apply wp_ret. left. split_and!; [done| |done|].
    - apply orb_prop in Hbad as [Hb%negb_true_iff%Z.eqb_neq|Hb%negb_true_iff%Z.eqb_neq]; [by right; left|left].
      destruct (Z.leb_spec GFN_LIMIT g) as [|Hlt]; [done|]. destruct Hb. rewrite Z.shiftr_div_pow2 by done.
      by apply Z.div_small.
    - exists T. split; [by apply same_tree_refl, Hrep|done]. }
  apply orb_false_elim in Hbad as [Hal%negb_false_iff%Z.eqb_eq Hlim%negb_false_iff%Z.eqb_eq].
  apply gfn_limit in Hlim; [|done].
  assert (g mod span l = 0) as Hmod by (eapply set_entry_aligned; [exact Hal|]; destruct (negb _); [by left|by right]).
  apply wp_bind. eapply wp_mono; [apply wp_keep, resolve_misconfig_spec; [change GFN_LIMIT with (2 ^ 36) in Hlim; lia|done]|]. intros rc s1 (Hrun1 & Hrc & Hmax1 & _ & T1 & Hs1 & Hrep1 & _ & Hc1).
  destruct (Z.ltb_spec rc 0) as [Hneg|Hpos]; [apply wp_ret; left; split_and!; [done|right; right; eauto|done|by exists T1]|].
  apply wp_bind, wp_assert; [destruct Hps as [[-> ->]|[[-> ->]| ->]]; (done || by destruct hap_has_1gb)|].
  apply wp_bind, wp_assert; [destruct (p2m_is_foreign t); [by rewrite Hfor|done]|]. apply wp_bind.
  eapply wp_mono; [apply wp_keep; by apply (set_place_spec T1 g l)|].
  assert (calm wl g T T1) as HcT by (apply Hc1; unfold ENOMEM; lia).
  intros place s2 (Hrun2 & Ho2 & T2 & Hs2 & Hc2 & Hpl). pose proof (calm_trans _ _ _ _ _ HcT Hc2) as HcT2. pose proof (same_tree_trans _ _ _ _ Hs1 Hs2) as Hs12.
  assert (ept_mfn s2 = ept_mfn s1 /\ pt_max s2 = pt_max s1) as [Er2 Ex2] by (by rewrite Ho2).
  destruct Hrep as (_ & HmT & _), Hrep1 as (_ & HmT1 & _). pose proof (proj1 Hs1) as Hmm1. pose proof (proj1 Hs2) as Hmm2.
  destruct place as [place|].
  - eapply wp_mono; [apply (set_finish_spec T2); [exact Hpl|done|done|done|]|].
    { intros k b Hk Hv. apply Hun; [done|]. intros g' Hg' Hb. rewrite Hv by done. apply Hs12. }
    intros rc' s3 [Hrc' Hpost]. right. split_and!; [|done..|].
    { destruct Hrc' as [?|[? Hv]]; [by left|right]. split; [done|]. by rewrite <- (proj2 (proj2 Hs12)). } eapply set_post_same; [exact Hs12|exact HcT2| | |exact Hpost]; congruence.
  - apply wp_bind, wp_sync_domain. intros i n s' _. apply wp_ret. left. split_and!; [done|right; right; eauto 6|cbn; congruence|]. exists T2. split; [done|].
    split_and!; [apply Hs12|cbn; congruence|exact Hpl].
Qed.
End entry.
