(* ===== verification/EptP2m.v ===== *)
(** * The extended page tables as the p2m of the XOM code

    The invariant of the tables, what lookups give on them, and the instance
    of the p2m interface: the laws that the XOM hypercall relies on hold of
    [ept_get_entry] and [ept_set_entry]. *)

From S2P Require Import Prelude RbTree RbSpec RbHeap PageInfo XomDomain XomSeal P2mTypes XomGuest MemType Ept EptSpec EptOps EptResolve EptWalk EptEntry.

Section p2m.
Context `{EptEnv, !EptLaws}.

(** No frame above [max_mapped_pfn] is mapped. *)
Definition ept_inv (s : ept_p2m) : Prop :=
  exists T, rep T s /\ 0 <= pt_max s < GFN_LIMIT /\ forall g, pt_max s < g < GFN_LIMIT -> tview wl T g = hole.

(** The lookup of [set_mem_access], in a build without memory sharing: there are
    no pages to fork or to unshare.  No entry of the invariant is broken, so
    that the domain is not crashed. *)
Definition p2m_get_gfn_type_access (gfn : Z) : M ept_p2m (Z * Z * Z) :=
  let! '(mfn, t, a, _) := ept_get_entry gfn in
  ret (if p2m_is_broken t then INVALID_MFN else mfn, t, a).

(** Its result; numbers that are not guest frames have none. *)
Definition ept_lookup (s : ept_p2m) (g : Z) : Z * Z * Z :=
  if 0 <=? g then match p2m_get_gfn_type_access g s with Some (r, _) => r | None => hole.1 end else hole.1.

Lemma tleaf_ok {rc : Recalc} l t g : twf l t -> leaf_ok (tleaf l t g).1 (tleaf l t g).2.
Proof.
  revert t. induction l as [|l IH]; intros t Ht; destruct (twf_slot _ _ g Ht) as ([e o] & Hk & Hwf);
    rewrite (tleaf_slot _ _ _ _ Hk); destruct o as [t'|]; [done|done| |done].
  destruct Hwf as (_ & _ & Ht'). by apply IH.
Qed.

(** A lookup finds a hole or a frame that can be mapped again. *)
Lemma tview_cases T g : twf wl T ->
  tview wl T g = hole \/
  exists mfn t a b, tview wl T g = (mfn, t, a, b) /\ 0 <= mfn < 2 ^ 40 /\ 0 <= t < 64 /\ t <> p2m_invalid /\
    p2m_is_pod t = false /\ p2m_is_broken t = false /\ mfn_valid mfn || p2m_allows_invalid_mfn t = true.
Proof.
  intros HT. pose proof (tleaf_ok wl T g HT) as Hl. unfold tview. destruct (tleaf wl T g) as [i e]. cbn [fst snd] in Hl.
  unfold leaf_view. destruct (_ && _); [by left|]. destruct (is_epte_valid e) eqn:Hv; [right|by left].
  pose proof (Z.mod_pos_bound g (span i) (span_pos i)) as Ho. pose proof (lo_fits _ _ Hl).
  destruct (lo_range _ _ Hl) as [? ? ? ?]. do 4 eexists. split_and!; [done|lia|lia|lia|lia| |apply Hl|apply Hl|].
  - intros Ht. unfold is_epte_valid in Hv. rewrite Ht in Hv. by rewrite andb_false_r in Hv.
  - by apply (lo_backed _ _ Hl).
Qed.

Lemma ept_lookup_view s T g : rep T s -> 0 <= pt_max s < GFN_LIMIT ->
  (forall g, pt_max s < g < GFN_LIMIT -> tview wl T g = hole) ->
  ept_lookup s g = if (0 <=? g) && (g <? GFN_LIMIT) then (tview wl T g).1 else hole.1.
Proof.
  intros Hrep Hmax Hhole. unfold ept_lookup. destruct (Z.leb_spec 0 g) as [Hg|]; [|done].
  destruct (ept_get_entry_spec T g s Hrep Hg) as ([[[mfn t] a] o] & s' & Hrun & -> & Hr & _); [lia|].
  unfold p2m_get_gfn_type_access, bind. rewrite Hrun. unfold ret.
  assert ((if pt_max s <? g then hole else tview wl T g) = if g <? GFN_LIMIT then tview wl T g else hole) as Heq.
  { destruct (Z.ltb_spec (pt_max s) g), (Z.ltb_spec g GFN_LIMIT); try done; [by rewrite Hhole|lia]. }
  rewrite Heq in Hr. replace (if _ : bool then _ else hole.1) with (if g <? GFN_LIMIT then tview wl T g else hole).1 by by destruct (g <? _).
  rewrite <- Hr. assert (p2m_is_broken t = false) as ->; [|done].
  destruct (g <? GFN_LIMIT); [|by injection Hr as _ -> _]. destruct (tview_cases T g (proj1 Hrep)) as [Hv|(? & ? & ? & ? & Hv & Hrest)];
    rewrite Hv in Hr; injection Hr as -> -> ->; [done|apply Hrest].
Qed.

Lemma lookup_access_pos s g mfn t a : ept_inv s -> ept_lookup s g = (mfn, t, a) -> 0 <= a < 16.
Proof.
  intros (T & Hrep & Hmax & Hhole). rewrite (ept_lookup_view s T g Hrep Hmax Hhole).
  destruct (_ && _); [|by intros [= _ _ <-]]. pose proof (tleaf_ok wl T g (proj1 Hrep)) as Hl. unfold tview.
  destruct (tleaf wl T g) as [i e]. cbn [fst snd] in Hl. unfold leaf_view. destruct (_ && _); [by intros [= _ _ <-]|].
  destruct (is_epte_valid e); [|by intros [= _ _ <-]]. intros [= _ _ <-]. apply (lo_range _ _ Hl).
Qed.

Lemma mapped_range (p : { s : ept_p2m | ept_inv s }) g : (ept_lookup (`p) g).1.1 <> INVALID_MFN -> 0 <= g < GFN_LIMIT.
Proof.
  destruct p as [s (T & Hrep & Hmax & Hhole)]. cbn [proj1_sig]. rewrite (ept_lookup_view s T g Hrep Hmax Hhole).
  destruct (_ && _) eqn:E; [intros _; lia|done].
Qed.

(** An entry that is not valid has a plain type. *)
Lemma invalid_plain e : in_range e -> is_epte_valid e = false -> plain (e_sa_p2mt e) = true.
Proof.
  intros He Hv. rewrite valid_spec in Hv by done. apply andb_false_iff in Hv as [Hv%negb_false_iff|Hv%negb_false_iff].
  - apply Z.eqb_eq in Hv. assert (e_sa_p2mt e = 0) as ->; [|done]. destruct He as [? ? ? ?]. epte_lia e.
  - apply Z.eqb_eq in Hv. by rewrite Hv.
Qed.

Lemma block_0 g g' : block 0 g g' = (g' =? g).
Proof. unfold block. change (span 0) with 1. by rewrite !Z.div_1_r. Qed.

(** The frame and type that a lookup found can be set again with any right. *)
Lemma found_settable T g mfn t a0 a : twf wl T -> 0 <= g < GFN_LIMIT -> (tview wl T g).1 = (mfn, t, a0) -> 0 < a < 16 ->
  settable 0 mfn t a /\ no_account T g mfn 0 t a.
Proof.
  intros HT Hg Hv Ha. destruct (tview_cases T g HT) as [Hh|(m & ty & a1 & b1 & Hh & Hm & Ht & Hni & Hpod & Hbr & Hback)];
    rewrite Hh in Hv; cbn in Hv; simplify_eq.
  - assert (mfn_valid INVALID_MFN = false) as Hinv.
    { destruct (mfn_valid INVALID_MFN) eqn:E; [|done]. apply mfn_valid_range in E. unfold INVALID_MFN in E. lia. }
    split; [split; [done|lia|by rewrite Hinv|done]|]. intros [e [?|]] b Hk Hkv; [done|]. split; [done|]. intros _. right.
    unfold new_entry. rewrite Hinv. cbn [orb fst]. split; [by destruct b|]. apply invalid_plain; [apply Hk|].
    destruct (is_epte_valid e) eqn:Hv; [|done]. specialize (Hkv g Hg). rewrite block_0, Z.eqb_refl, Hh in Hkv.
    specialize (Hkv eq_refl). unfold slot_view, leaf_view in Hkv. cbn [slot_leaf snd fst Nat.eqb negb andb] in Hkv.
    rewrite Hv in Hkv. injection Hkv as Hm _ _ _. pose proof (ir_mfn _ (lo_range _ _ Hk)). cbn [fst] in *.
    change (span 0) with 1 in Hm. rewrite Z.mod_1_r in Hm. unfold INVALID_MFN in Hm. lia.
  - assert (stored mfn = mfn) as Hst by (apply Z.mod_small; lia). split.
    + split; [done|lia| |done]. intros _. rewrite Hst. change (span 0) with 1. split_and!; [lia|apply Z.mod_1_r|]. intros j Hj.
      assert (j = 0) as -> by lia. by rewrite Z.add_0_r.
    + intros [e [?|]] b Hk Hkv; [done|]. split; [done|]. intros _. left. specialize (Hkv g Hg).
      rewrite block_0, Z.eqb_refl, Hh in Hkv. specialize (Hkv eq_refl). unfold slot_view, leaf_view in Hkv.
      cbn [slot_leaf snd fst Nat.eqb negb andb] in Hkv. destruct (is_epte_valid e); [|injection Hkv as Hm' _ _ _; unfold INVALID_MFN in Hm'; lia].
      injection Hkv as Hm' Ht' _ _. change (span 0) with 1 in Hm'. rewrite Z.mod_1_r in Hm'.
      destruct (new_entry_fields g mfn 0 t a) as (F1 & F2 & _); [lia|lia|done|]. cbn. rewrite F1, F2, Hst. cbn [fst]. split; lia.
Qed.

(** Plain types need no account. *)
Lemma plain_no_account T g mfn l t a : 0 <= g < GFN_LIMIT -> settable l mfn t a -> plain t = true ->
  plain (tview wl T g).1.1.2 = true -> no_account T g mfn l t a.
Proof.
  intros Hg [(Ht & _) Ha _ _] Hp Hold k b Hk Hkv.
  assert (plain (e_sa_p2mt (set_sve b (new_entry g mfn l t a))) = true) as Hnew.
  { change (plain (e_sa_p2mt (new_entry g mfn l t a)) = true). destruct (mfn_valid mfn || p2m_allows_invalid_mfn t) eqn:Hm.
    - by destruct (new_entry_fields g mfn l t a Ht Ha Hm) as (_ & -> & _).
    - unfold new_entry. by rewrite Hm. }
  split; [done|]. intros ->. right. split; [done|]. destruct k as [e [?|]]; [done|]. cbn [fst].
  change (leaf_ok 0 e) in Hk. destruct (is_epte_valid e) eqn:Hv; [|apply invalid_plain; [apply Hk|done]].
  specialize (Hkv g Hg). rewrite block_0, Z.eqb_refl in Hkv. rewrite <- Hkv in Hold by done.
  unfold slot_view, leaf_view in Hold. cbn [slot_leaf snd fst Nat.eqb negb andb] in Hold. by rewrite Hv in Hold.
Qed.

(** ** Updates keep the invariant *)

Lemma new_entry_view g mfn l t a b g' : settable l mfn t a -> (l < wl)%nat -> 0 <= g < GFN_LIMIT -> 0 < a ->
  (leaf_view l (set_sve b (new_entry g mfn l t a)) g').1 =
  if (mfn_valid mfn || p2m_allows_invalid_mfn t) && negb (t =? p2m_invalid)
  then (stored mfn + g' mod span l, t, a) else hole.1.
Proof.
  intros Hst Hl Hg Ha. pose proof (new_entry_ok g mfn l t a b Hst Hl Hg) as Hok. pose proof Hst as [(Ht & _) Hac _ Hsup].
  destruct (mfn_valid mfn || p2m_allows_invalid_mfn t) eqn:Hm.
  2: { unfold new_entry. rewrite Hm. cbn [andb]. by rewrite leaf_view_empty. }
  destruct (new_entry_fields g mfn l t a Ht Hac Hm) as (Hf & Htt & Haa & Hs & _). cbn [andb].
  set (e := new_entry g mfn l t a) in *. unfold leaf_view. destruct (Z.eqb_spec t p2m_invalid) as [Hi|Hi].
  - assert (is_epte_valid (set_sve b e) = false) as ->.
    { unfold is_epte_valid. change (e_sa_p2mt (set_sve b e)) with (e_sa_p2mt e). by rewrite Htt, Hi, andb_false_r. }
    by destruct (_ && _).
  - rewrite valid_access; [|apply Hok|change (e_access e <> 0); lia|change (e_sa_p2mt e <> p2m_invalid); congruence].
    pose proof (lo_super _ _ Hok) as Hsp. change (e_sp (set_sve b e)) with (e_sp e) in Hsp. rewrite Hs in Hsp.
    assert (negb (l =? 0)%nat && negb (is_epte_present (set_sve b e)) = false) as ->.
    { destruct (Nat.eqb_spec l 0); [done|]. cbn [negb andb] in *. by rewrite <- Hsp. }
    cbn [fst]. change (e_mfn (set_sve b e)) with (e_mfn e). change (e_sa_p2mt (set_sve b e)) with (e_sa_p2mt e).
    change (e_access (set_sve b e)) with (e_access e). by rewrite Hf, Htt, Haa.
Qed.

Lemma view_hole (v : view) T g : v = tview wl T g -> twf wl T -> v.1 = hole.1 -> v = hole.
Proof.
  intros -> HT Hv. destruct (tview_cases T g HT) as [?|(m & t & a & b & Hh & Hm & _)]; [done|].
  rewrite Hh in Hv. cbn in Hv. injection Hv as Hv _ _. unfold INVALID_MFN in Hv. lia.
Qed.

(** Guest frames of an aligned entry. *)
Lemma block_range l g g' : (l <= wl)%nat -> 0 <= g < GFN_LIMIT -> g mod span l = 0 ->
  block l g g' = (g <=? g') && (g' <? g + span l) /\ g + span l <= GFN_LIMIT /\ (block l g g' = true -> g' mod span l = g' - g).
Proof.
  intros Hl Hg Hal. pose proof (span_pos l) as Hs. assert (exists q, GFN_LIMIT = q * span l) as [q Hq].
  { exists (2 ^ (9 * Z.of_nat (S wl - l))). unfold GFN_LIMIT, span. rewrite <- Z.pow_add_r by lia. f_equal. lia. }
  apply Z.div_exact in Hal; [|lia]. set (k := g / span l) in *. rewrite (Z.mul_comm (span l)) in Hal. split_and!.
  - unfold block. fold k. pose proof (Z.div_mod g' (span l) ltac:(lia)) as Hd. pose proof (Z.mod_pos_bound g' (span l) Hs).
    destruct (Z.eqb_spec (g' / span l) k) as [Hk|Hk]; symmetry.
    + apply andb_true_intro. split; [apply Z.leb_le|apply Z.ltb_lt]; nia.
    + apply andb_false_iff. destruct (Z.leb_spec g g'); [right|by left]. apply Z.ltb_ge. nia.
  - assert (k + 1 <= q) by nia. assert ((k + 1) * span l <= q * span l) by (apply Z.mul_le_mono_nonneg_r; lia). lia.
  - unfold block. fold k. intros Hb%Z.eqb_eq. pose proof (Z.div_mod g' (span l) ltac:(lia)) as Hd. nia.
Qed.

Lemma set_post_inv T g mfn l t a s s' : rep T s -> 0 <= pt_max s < GFN_LIMIT ->
  (forall g, pt_max s < g < GFN_LIMIT -> tview wl T g = hole) -> 0 <= g < GFN_LIMIT -> g mod span l = 0 ->
  settable l mfn t a -> (l < wl)%nat -> 0 < a ->
  set_post T g (Z.of_nat l * EPT_TABLE_ORDER) t l (new_entry g mfn l t a) s s' ->
  ept_inv s' /\ forall g', ept_lookup s' g' =
    if (g <=? g') && (g' <? g + span l)
    then if (mfn_valid mfn || p2m_allows_invalid_mfn t) && negb (t =? p2m_invalid)
         then (stored mfn + (g' - g), t, a) else hole.1
    else ept_lookup s g'.
Proof.
  intros Hrep Hmax Hhole Hg Hal Hst Hl Ha (Hroot & Hmax' & T' & b & HT' & HmT & Hh' & _ & _ & Hv & _).
  assert (rep T' s') as Hrep' by (split_and!; [done|destruct Hrep as (_ & ? & _); congruence|done]).
  rewrite shiftl_span in Hmax'. cbn zeta in Hmax'. pose proof (span_pos l). assert (l <= wl)%nat as Hlw by lia.
  destruct (block_range l g g Hlw Hg Hal) as (_ & Hlast & _).
  assert (0 <= pt_max s' < GFN_LIMIT) as Hm' by (rewrite Hmax'; destruct (negb (t =? p2m_invalid) && (pt_max s <? g + span l - 1)); lia).
  assert (forall g', pt_max s' < g' < GFN_LIMIT -> tview wl T' g' = hole) as Hhole'.
  { intros g' Hg'. assert (pt_max s <= pt_max s') by (rewrite Hmax'; destruct (negb (t =? p2m_invalid) && (pt_max s <? g + span l - 1)) eqn:E; lia).
    eapply view_hole; [done|done|]. rewrite Hv by lia. destruct (block l g g') eqn:Hb; [|by rewrite Hhole by lia].
    rewrite new_entry_view by done. destruct (Z.eqb_spec t p2m_invalid) as [->|Hne]; [by rewrite andb_false_r|].
    rewrite (proj1 (block_range l g g' Hlw Hg Hal)) in Hb.
    exfalso. revert Hmax'. cbn [negb andb]. destruct (Z.ltb_spec (pt_max s) (g + span l - 1)); lia. }
  split; [by exists T'|]. intros g'. destruct (block_range l g g' Hlw Hg Hal) as (Hb & _ & Hoff).
  rewrite (ept_lookup_view s' T' g' Hrep' Hm' Hhole'), (ept_lookup_view s T g' Hrep Hmax Hhole).
  destruct ((0 <=? g') && (g' <? GFN_LIMIT)) eqn:Hr.
  - rewrite Hv by lia. rewrite <- Hb. destruct (block l g g') eqn:E; [|done]. rewrite new_entry_view by done.
    by rewrite (Hoff eq_refl).
  - destruct ((g <=? g') && (g' <? g + span l)) eqn:E; [lia|done].
Qed.

Lemma ept_inv_same T T' s s' : rep T s -> 0 <= pt_max s < GFN_LIMIT ->
  (forall g, pt_max s < g < GFN_LIMIT -> tview wl T g = hole) -> same_tree wl T T' -> rep T' s' -> pt_max s' = pt_max s ->
  ept_inv s' /\ forall g, ept_lookup s' g = ept_lookup s g.
Proof.
  intros Hrep Hmax Hhole Hs Hrep' Heq.
  assert (forall g, pt_max s' < g < GFN_LIMIT -> tview wl T' g = hole) as Hhole'
    by (intros g Hg; rewrite (proj2 (proj2 Hs)); apply Hhole; lia).
  split; [by exists T'; rewrite Heq in *|]. intros g.
  rewrite (ept_lookup_view s' T' g Hrep'), (ept_lookup_view s T g Hrep Hmax Hhole) by (done || lia).
  destruct (_ && _); [|done]. by rewrite (proj2 (proj2 Hs)).
Qed.

(** ** Changing the right of a frame *)

Definition change_post (g mfn t a0 a : Z) (s : ept_p2m) (rc : Z) (s' : ept_p2m) : Prop :=
  ept_inv s' /\
  ((rc < 0 /\ forall g', ept_lookup s' g' = ept_lookup s g') \/
   ((rc = 0 \/ iommu_refuses g mfn 0 rc) /\
    ept_lookup s' g = (if mfn =? INVALID_MFN then (mfn, t, a0) else (mfn, t, a)) /\
    forall g', g' <> g -> ept_lookup s' g' = ept_lookup s g')).

Lemma ept_change_right s g mfn t a0 a : ept_inv s -> 0 <= g -> ept_lookup s g = (mfn, t, a0) -> 0 < a < 16 ->
  wp (ept_set_entry g mfn 0 t a (-1)) (change_post g mfn t a0 a s) s.
Proof.
  intros (T & Hrep & Hmax & Hhole) Hg Hlook Ha. rewrite (ept_lookup_view s T g Hrep Hmax Hhole) in Hlook.
  destruct (Z.ltb_spec g GFN_LIMIT) as [Hlt|Hge].
  - rewrite (proj2 (Z.leb_le 0 g) Hg) in Hlook. cbn [andb] in Hlook.
    destruct (found_settable T g mfn t a0 a (proj1 Hrep) ltac:(lia) Hlook Ha) as [Hst Hun].
    eapply wp_mono; [apply (ept_set_entry_spec T g mfn 0 t a (-1) s); [done|done|by right; right|done|done|done]|].
    intros rc s' [(Hneg & _ & Hmax' & T' & Hs & Hrep')|(Hrc & _ & Hal & Hpost)].
    + destruct (ept_inv_same T T' s s' Hrep Hmax Hhole Hs Hrep' Hmax'). split; [done|by left].
    + destruct (set_post_inv T g mfn 0 t a s s' Hrep Hmax Hhole ltac:(lia) Hal Hst) as [Hinv Hall]; [unfold wl; lia|lia|done|].
      split; [done|right]. split_and!; [destruct Hrc as [?|[? _]]; auto| |].
      * rewrite Hall. change (span 0) with 1. replace ((g <=? g) && (g <? g + 1)) with true by lia. rewrite Z.sub_diag, Z.add_0_r.
        destruct (tview_cases T g (proj1 Hrep)) as [Hh|(m & ty & a1 & b1 & Hh & Hm & Ht & Hni & _ & _ & Hback)];
          rewrite Hh in Hlook; injection Hlook as <- <- <-.
        -- destruct (mfn_valid INVALID_MFN) eqn:Ev; [|done]. apply mfn_valid_range in Ev. unfold INVALID_MFN in Ev. lia.
        -- rewrite Hback. rewrite (eqb_neq_false ty p2m_invalid) by done. cbn [andb negb].
           rewrite (eqb_neq_false m INVALID_MFN) by (unfold INVALID_MFN; lia). unfold stored. by rewrite Z.mod_small.
      * intros g' Hne. rewrite Hall. change (span 0) with 1. by replace ((g <=? g') && (g' <? g + 1)) with false by lia.
  - unfold ept_set_entry. change (Z.shiftr g (Z.of_nat (wl + 1) * EPT_TABLE_ORDER)) with (Z.shiftr g 36).
    assert (Z.shiftr g 36 <> 0) as Hs.
    { rewrite Z.shiftr_div_pow2 by lia. assert (1 <= g / 2 ^ 36); [|lia]. apply Z.div_le_lower_bound; [lia|].
      change GFN_LIMIT with (2 ^ 36) in Hge. lia. }
    rewrite (eqb_neq_false _ _ Hs). rewrite orb_true_r. apply wp_ret. split; [by exists T|]. by left.
Qed.
End p2m.

(** ** The instance *)

Definition ept_table `{EptEnv} : Type := { s : ept_p2m | ept_inv s }.

(** The result [r] of a function that keeps the invariant. *)
Definition ept_result `{EptEnv} (p : ept_table) (m : M ept_p2m Z) (Hm : wp m (fun _ s' => ept_inv s') (proj1_sig p))
    (r : option (Z * ept_p2m)) : m (proj1_sig p) = r -> Z * ept_table :=
  match r with
  | Some (rc, s') => fun E => (rc, exist _ s' (wp_run _ _ _ _ _ Hm E))
  | None => fun _ => (- EINVAL, p)
  end.

Definition run_ept `{EptEnv} p m Hm : Z * ept_table := ept_result p m Hm (m (proj1_sig p)) eq_refl.

Lemma run_ept_run `{EptEnv} p m Hm :
  m (proj1_sig p) = Some ((run_ept p m Hm).1, proj1_sig (run_ept p m Hm).2).
Proof.
  assert (forall r E, r <> None -> r = Some ((ept_result p m Hm r E).1, proj1_sig (ept_result p m Hm r E).2)) as Hr
    by (by intros [[rc s']|] E).
  apply Hr. pose proof Hm as (rc & s' & E & _). congruence.
Qed.

Section instance.
Context `{EptEnv, !EptLaws}.

(** What [p2m_set_mem_access_single] passes: the frame and type that the
    lookup found, and a right. *)
Definition change_args (p : ept_table) (g mfn t a : Z) : bool :=
  bool_decide (0 <= g /\ (ept_lookup (`p) g).1 = (mfn, t) /\ 0 < a < 16).

Lemma change_runs p g mfn t a : change_args p g mfn t a = true ->
  wp (ept_set_entry g mfn 0 t a (-1)) (fun _ s' => ept_inv s') (`p).
Proof.
  intros (Hg & Hl & Ha)%bool_decide_eq_true. destruct (ept_lookup (`p) g) as [[m' t'] a0] eqn:E. cbn in Hl. simplify_eq.
  eapply wp_mono; [by apply (ept_change_right _ _ _ _ a0); [apply (proj2_sig p)|..]|]. by intros rc s' [? _].
Qed.

Definition ept_change (p : ept_table) (g mfn t a : Z) : Z * ept_table :=
  match change_args p g mfn t a as b return change_args p g mfn t a = b -> Z * ept_table with
  | true => fun E => run_ept p (ept_set_entry g mfn 0 t a (-1)) (change_runs p g mfn t a E)
  | false => fun _ => (- EINVAL, p)
  end eq_refl.

(** The frame of [p2m_get_page_from_gfn] for a page of the domain. *)
Definition ept_page_at (s : ept_p2m) (g : Z) : option Z :=
  let '(mfn, t, _) := ept_lookup s g in
  if p2m_is_any_ram t && mfn_valid mfn then Some mfn else None.

#[export] Instance ept_ops : P2mOps ept_table := {|
  get_entry := fun p => ept_lookup (`p);
  set_entry := ept_change;
  max_mapped_pfn := fun p => pt_max (`p);
  get_page_at := fun p => ept_page_at (`p)
|}.

Lemma ept_change_spec p g mfn t a0 a rc p' : ept_lookup (`p) g = (mfn, t, a0) -> ept_change p g mfn t a = (rc, p') ->
  (rc < 0 /\ forall g', ept_lookup (`p') g' = ept_lookup (`p) g') \/
  ((rc = 0 \/ iommu_refuses g mfn 0 rc) /\
   ept_lookup (`p') g = (if mfn =? INVALID_MFN then (mfn, t, a0) else (mfn, t, a)) /\
   forall g', g' <> g -> ept_lookup (`p') g' = ept_lookup (`p) g').
Proof.
  intros Hl. unfold ept_change. generalize (eq_refl (change_args p g mfn t a)).
  generalize (change_args p g mfn t a) at 2 3. intros [] E Hrun; [|left; by simplify_eq].
  pose proof (run_ept_run p _ (change_runs p g mfn t a E)) as Hr. rewrite Hrun in Hr. cbn [fst snd] in Hr.
  pose proof E as (Hg & _ & Ha)%bool_decide_eq_true.
  exact (proj2 (wp_run _ _ _ _ _ (ept_change_right _ g mfn t a0 a (proj2_sig p) Hg Hl Ha) Hr)).
Qed.

#[export] Program Instance ept_laws : P2mLaws ept_table.
Next Obligation.
  intros p g mfn t a0 a p' Hl Hs. destruct (ept_change_spec p g mfn t a0 a 0 p' Hl Hs) as [[? _]|(_ & ? & ?)]; [lia|done].
Qed.
Next Obligation.
  intros p g mfn t a0 a rc p' Hl Hs Hne. destruct (ept_change_spec p g mfn t a0 a rc p' Hl Hs) as [[? ?]|([?|[? _]] & Hn & Ho)]; [|done|].
  - split; [done|by left].
  - split; [done|by right].
Qed.
Next Obligation.
  intros [s Hinv] g t a. cbn. destruct Hinv as (T & Hrep & Hmax & Hhole). rewrite (ept_lookup_view s T g Hrep Hmax Hhole).
  destruct (_ && _); [|by intros [= _ <-]].
  destruct (tview_cases T g (proj1 Hrep)) as [->|(m & ty & a1 & b & -> & Hm & _)]; [by intros [= _ <-]|].
  intros [= Hi _ _]. unfold INVALID_MFN in Hi. lia.
Qed.
Next Obligation.
  intros p g mfn. cbn. unfold ept_page_at. destruct (ept_lookup (`p) g) as [[m t] a].
  destruct (_ && _) eqn:E; [|done]. intros [= <-]. apply andb_prop in E as [_ Ev]. apply mfn_valid_range in Ev.
  split; [unfold INVALID_MFN; lia|eauto].
Qed.
End instance.
