(* ===== verification/EptHardware.v ===== *)
(** * The processor's view of the extended page tables

    The translation of a guest-physical address as the processor carries it
    out (Intel SDM, "EPT translation mechanism"): it walks the same memory that
    [ept_set_entry] writes, and reports a violation, a misconfiguration, or a
    page with the rights of all entries on the way.  The lemmas tie its result
    to the leaf of the tree, and the memory types that [epte_get_entry_emt]
    computes to the ones the processor accepts. *)

From S2P Require Import Prelude RbTree RbSpec RbHeap PageInfo XomDomain XomSeal P2mTypes XomGuest MemType Ept EptSpec EptOps EptResolve EptWalk EptEntry EptP2m.

(** ** The walk *)

Inductive hw_result := HwViolation | HwMisconfig | HwPage (mfn : Z) (r w x : bool).

(** The values of an entry that are reserved: a page that can be written but
    not read, one that can only be executed if the processor does not support
    it, a memory type that does not exist, a superpage that is not aligned or
    in the first table, and anything but a type of 0 in an entry that points
    to a table. *)
Definition hw_unsupported (exec_only : bool) (e : ept_entry) : bool :=
  (e_w e && negb (e_r e)) || (e_x e && negb (e_r e) && negb exec_only).

Definition hw_reserved (exec_only : bool) (l : nat) (e : ept_entry) : bool :=
  hw_unsupported exec_only e ||
  (if (l =? 0)%nat || e_sp e
   then bool_decide (e_emt e ∈ [2; 3; 7]) || (2 <? l)%nat || negb (e_mfn e mod span l =? 0)
   else negb (e_emt e =? 0) || e_ipat e).

(** The rights of an entry restrict those below it. *)
Definition hw_below (e : ept_entry) (res : hw_result) : hw_result :=
  match res with
  | HwPage mfn r w x => HwPage mfn (e_r e && r) (e_w e && w) (e_x e && x)
  | _ => res
  end.

(** The walk for [g] from table [m] on; [None] if it leaves the tables. *)
Fixpoint hw_walk (exec_only : bool) (l : nat) (tables : gmap Z (list ept_entry)) (m g : Z) : option hw_result :=
  match tables !! m ≫= (.!! idx l g) with
  | None => None
  | Some e =>
      if negb (is_epte_present e) then Some HwViolation
      else if hw_reserved exec_only l e then Some HwMisconfig
      else if (l =? 0)%nat || e_sp e then Some (HwPage (e_mfn e + g mod span l) (e_r e) (e_w e) (e_x e))
      else match l with
           | O => None
           | S l' => hw_below e <$> hw_walk exec_only l' tables (e_mfn e) g
           end
  end.

Definition hw_translate (exec_only : bool) (s : ept_p2m) (g : Z) : option hw_result :=
  hw_walk exec_only wl (pt_tables s) (ept_mfn s) g.

(** An access that the processor carries out. *)
Definition hw_permits (r w x : bool) (f : npfec) : bool :=
  (negb (read_access f) || r) && (negb (write_access f) || w) && (negb (insn_fetch f) || x).

Section walk.
Context `{EptEnv, !EptLaws} {rc : Recalc}.

Lemma heap_lookup m es L s : heap ((m, es) :: L) s -> pt_tables s !! m = Some es.
Proof. intros [_ ->]. cbn. apply lookup_insert_eq. Qed.

(** The processor meets the leaf of the tree; it reports a misconfiguration if
    a memory type is pending on the way or it does not support the rights of
    the leaf, and only then. *)
Definition hw_agrees (exec_only : bool) (res : hw_result) (pend : bool) (i : nat) (e : ept_entry) (g : Z) : Prop :=
  (pend = true -> res = HwMisconfig) /\
  match res with
  | HwMisconfig => pend = true \/ (is_epte_present e = true /\ hw_unsupported exec_only e = true)
  | HwViolation => is_epte_present e = false
  | HwPage mfn r w x => is_epte_present e = true /\ mfn = e_mfn e + g mod span i /\ (r, w, x) = rwx e
  end.

Lemma leaf_reserved exec_only l e : leaf_ok l e -> is_epte_present e = true ->
  hw_reserved exec_only l e = hw_unsupported exec_only e || pending_entry e.
Proof.
  intros Hl Hp. unfold hw_reserved, pending_entry. f_equal. rewrite Hp.
  assert ((l =? 0)%nat || e_sp e = true) as ->.
  { rewrite (lo_super _ _ Hl), Hp. by destruct (l =? 0)%nat. }
  assert ((2 <? l)%nat = false) as ->.
  { pose proof (lo_level _ _ Hl) as Hw. rewrite (lo_super _ _ Hl), Hp in Hw. unfold wl in Hw.
    destruct (Nat.eqb_spec l 0); [by subst|]. apply Nat.ltb_ge. specialize (Hw eq_refl). lia. }
  rewrite (lo_aligned _ _ Hl). cbn [Z.eqb negb]. rewrite !orb_false_r. cbn [andb].
  destruct (lo_emt _ _ Hl) as [Hm|Hm].
  - pose proof (mem_type_range _ Hm). rewrite (eqb_neq_false _ MTRR_NUM_TYPES) by (unfold MTRR_NUM_TYPES; lia).
    apply bool_decide_eq_false. rewrite !elem_of_cons, elem_of_nil. lia.
  - by rewrite Hm.
Qed.

Lemma middle_reserved exec_only l e : middle_ok e -> hw_reserved exec_only (S l) e = pending_entry e.
Proof.
  intros Hm. unfold hw_reserved, hw_unsupported, pending_entry. destruct (mo_rwx _ Hm) as (-> & -> & ->).
  rewrite (mo_sp _ Hm), (mo_ipat _ Hm), (middle_present _ Hm). by destruct (mo_emt _ Hm) as [->| ->].
Qed.

(** What an entry that ends the walk gives. *)
Lemma hw_leaf exec_only l e g : leaf_ok l e ->
  hw_agrees exec_only
    (if negb (is_epte_present e) then HwViolation
     else if hw_reserved exec_only l e then HwMisconfig
     else HwPage (e_mfn e + g mod span l) (e_r e) (e_w e) (e_x e)) (pending_entry e) l e g.
Proof.
  intros Hl. unfold hw_agrees. destruct (is_epte_present e) eqn:Hp; cbn [negb].
  - rewrite leaf_reserved by done. destruct (hw_unsupported _ _) eqn:Hu, (pending_entry e); cbn [orb]; split; try done; auto.
  - unfold pending_entry. by rewrite Hp.
Qed.

Lemma hw_walk_spec exec_only l : forall t g L s, twf l t -> heap (flat l t ++ L) s ->
  exists res, hw_walk exec_only l (pt_tables s) (node_mfn t) g = Some res /\
    hw_agrees exec_only res (pending l t g) (tleaf l t g).1 (tleaf l t g).2 g.
Proof.
  induction l as [|l IH]; intros [m ks] g L s Ht Hh; cbn [hw_walk node_mfn];
    destruct (twf_slot _ _ g Ht) as ([e o] & Hk & Hwf);
    rewrite (tleaf_slot _ _ _ _ Hk), (pending_slot _ _ _ _ _ Hk); cbn [kids] in Hk;
    pose proof Hh as Hh0; rewrite flat_eq in Hh0; rewrite (heap_lookup _ _ _ _ Hh0); cbn [mbind option_bind];
    rewrite list_lookup_fmap, Hk; cbn [fmap option_fmap option_map fst]; destruct o as [t'|]; try done.
  - pose proof (hw_leaf exec_only 0 e g Hwf) as Hlf. cbn [Nat.eqb orb slot_leaf snd fst]. rewrite orb_false_r.
    destruct (negb _); [by exists HwViolation|]. destruct (hw_reserved _ _ _); [by exists HwMisconfig|]. eexists. by split.
  - pose proof Hwf as (Hm & Hmfn & Ht'). unfold slot_leaf. cbn [snd fst] in *. rewrite (middle_present _ Hm). cbn [negb].
    rewrite middle_reserved by done. destruct (pending_entry e); [exists HwMisconfig; by split; [|split; [|left]]|].
    rewrite (mo_sp _ Hm). cbn [orb Nat.eqb]. rewrite Hmfn.
    destruct (IH t' g _ s Ht' (heap_kid _ _ _ _ _ _ _ _ Hk Hh)) as (res & -> & Hres). cbn.
    destruct (mo_rwx _ Hm) as (Hr & Hw & Hx). exists res. split; [|done].
    destruct res; cbn; rewrite ?Hr, ?Hw, ?Hx; done.
  - change (leaf_ok (S l) e) in Hwf. pose proof (hw_leaf exec_only (S l) e g Hwf) as Hlf. cbn [slot_leaf snd fst]. rewrite orb_false_r.
    destruct (is_epte_present e) eqn:Hp; cbn [negb] in *; [|by exists HwViolation].
    destruct (hw_reserved _ _ _); [by exists HwMisconfig|]. pose proof (lo_super _ _ Hwf) as Hs. rewrite Hp in Hs. cbn in Hs.
    rewrite Hs, orb_true_r. eexists. by split.
Qed.
(** The result for a frame is the one of its leaf. *)
Lemma hw_translate_leaf exec_only T s g : rep T s ->
  exists res, hw_translate exec_only s g = Some res /\ hw_agrees exec_only res (pending wl T g) (tleaf wl T g).1 (tleaf wl T g).2 g.
Proof.
  intros (Ht & Hm & Hh). unfold hw_translate. rewrite <- Hm. eapply (hw_walk_spec _ _ _ _ []); [done|].
  by rewrite app_nil_r.
Qed.
End walk.

(** ** Rights *)

Section rights.
Context `{EptEnv, !EptLaws}.

Lemma access_cases a : 0 <= a <= p2m_access_n2rwx ->
  a = 0 \/ a = 1 \/ a = 2 \/ a = 3 \/ a = 4 \/ a = 5 \/ a = 6 \/ a = 7 \/ a = 8 \/ a = 9.
Proof. unfold p2m_access_n2rwx. lia. Qed.

(** The flags never give more than the access right does. *)
Lemma access_rwx_permits a p f : 0 <= a <= p2m_access_n2rwx -> let '(r, w, x) := access_rwx a p in
  hw_permits r w x f = true -> access_violation a f = false.
Proof.
  intros Ha%access_cases. destruct p as [[r w] x], f as [fr fw fx].
  destruct_or! Ha; subst a; cbn; destruct r, w, x, fr, fw, fx; done.
Qed.

(** For memory they give exactly that. *)
Lemma access_rwx_ram a f : 0 <= a <= p2m_access_n2rwx -> let '(r, w, x) := access_rwx a (true, true, true) in
  hw_permits r w x f = negb (access_violation a f).
Proof. intros Ha%access_cases. destruct f as [fr fw fx]. destruct_or! Ha; subst a; by destruct fr, fw, fx. Qed.

(** The frame of the lookup is behind a leaf the processor can use. *)
Lemma leaf_page {mode : Recalc} T s g i e : rep T s -> tleaf wl T g = (i, e) -> is_epte_present e = true ->
  tview wl T g = (e_mfn e + g mod span i, e_sa_p2mt e, e_access e, true).
Proof.
  intros (Ht & _) Hl Hp. pose proof (tleaf_ok wl T g Ht) as Hok. unfold tview. rewrite Hl in Hok |- *. cbn [fst snd] in Hok.
  destruct (leaf_present _ _ Hok Hp) as (_ & _ & Hv). unfold leaf_view. by rewrite Hp, Hv, andb_false_r.
Qed.

(** What the processor finds for a frame, in terms of the lookup: the frame,
    and the rights of its type and access right. *)
Definition hw_finds (exec_only : bool) (mfn t a : Z) (pend : bool) (res : hw_result) : Prop :=
  exists sp ro, let '(r, w, x) := super_rwx sp (access_rwx a (type_rwx t sp ro)) in
    (pend = true -> res = HwMisconfig) /\
    match res with
    | HwMisconfig => pend = true \/ ((w && negb r) || (x && negb r && negb exec_only)) = true
    | HwViolation => t = p2m_ram_rw -> (r, w, x) = (false, false, false)
    | HwPage mfn' r' w' x' => mfn' = mfn /\ (r', w', x') = (r, w, x)
    end.

Lemma hw_translate_finds {mode : Recalc} exec_only T s g : rep T s ->
  exists res, hw_translate exec_only s g = Some res /\
    let '(mfn, t, a, _) := tview wl T g in hw_finds exec_only mfn t a (pending wl T g) res.
Proof.
  intros Hrep. destruct (hw_translate_leaf exec_only T s g Hrep) as (res & Hres & Hag). exists res. split; [done|].
  destruct (tleaf wl T g) as [i e] eqn:Hl. cbn [fst snd] in Hag. pose proof (tleaf_ok wl T g (proj1 Hrep)) as Hok.
  rewrite Hl in Hok. cbn [fst snd] in Hok. pose proof (lo_rights _ _ Hok) as Hr. rewrite (proj2 (flagged_spec e)) in Hr.
  destruct Hag as [Hpend Hag]. destruct (is_epte_present e) eqn:Hp.
  - rewrite (leaf_page T s g i e Hrep Hl Hp). exists (e_sp e), (mmio_ro (e_mfn e)). rewrite <- Hr. split; [done|].
    destruct res; [done| |naive_solver]. destruct Hag as [?|[_ ?]]; [by left|by right].
  - assert (res = HwViolation \/ (res = HwMisconfig /\ pending wl T g = true)) as [->|[-> ->]].
    { destruct res; [by left|right; by destruct Hag as [?|[? _]]|by destruct Hag]. }
    + destruct (tview wl T g) as [[[mfn t] a] b] eqn:Hv. exists (e_sp e), (mmio_ro (e_mfn e)).
      destruct (super_rwx _ (access_rwx a _)) as [[r w] x] eqn:E. split; [done|]. intros ->.
      unfold tview in Hv. rewrite Hl in Hv. unfold leaf_view in Hv. destruct (_ && _) in Hv; [done|].
      destruct (is_epte_valid e); [|done]. injection Hv as _ Ht Ha _. rewrite <- Ht, <- Ha, <- Hr in E.
      rewrite present_spec in Hp. apply orb_false_elim in Hp as [[Hp1 Hp2]%orb_false_elim Hp3]. congruence.
    + destruct (tview wl T g) as [[[mfn t] a] b]. exists (e_sp e), (mmio_ro (e_mfn e)).
      destruct (super_rwx _ (access_rwx a _)) as [[r w] x]. by split; [|left].
Qed.

(** The same in terms of [ept_lookup]. *)
Lemma hw_lookup exec_only s g : ept_inv s -> 0 <= g < GFN_LIMIT ->
  exists res pend, hw_translate exec_only s g = Some res /\
    let '(mfn, t, a) := ept_lookup s g in hw_finds exec_only mfn t a pend res.
Proof.
  intros (T & Hrep & Hmax & Hhole) Hg. destruct (hw_translate_finds exec_only T s g Hrep) as (res & Hres & Hf).
  exists res, (pending wl T g). split; [done|]. rewrite (ept_lookup_view s T g Hrep Hmax Hhole).
  assert ((0 <=? g) && (g <? GFN_LIMIT) = true) as -> by lia. by destruct (tview wl T g) as [[[mfn t] a] b].
Qed.

(** A page that may only be executed. *)
Lemma sealed_denied exec_only s g mfn r w x : ept_inv s -> 0 <= g < GFN_LIMIT -> (ept_lookup s g).2 = p2m_access_x ->
  hw_translate exec_only s g = Some (HwPage mfn r w x) -> mfn = (ept_lookup s g).1.1 /\ r = false /\ w = false.
Proof.
  intros Hinv Hg Ha Hhw. destruct (hw_lookup exec_only s g Hinv Hg) as (res & pend & Hres & Hf). rewrite Hhw in Hres. simplify_eq.
  destruct (ept_lookup s g) as [[m t] a]. cbn in Ha. subst a. destruct Hf as (sp & ro & Hf).
  destruct (type_rwx t sp ro) as [[tr tw] tx]. cbn in Hf. by destruct Hf as (_ & -> & [= -> -> _]).
Qed.

(** Rights that the processor supports. *)
Definition hw_supports (exec_only : bool) (a : Z) : bool :=
  negb (a =? p2m_access_w) && negb (a =? p2m_access_wx) && (exec_only || negb (a =? p2m_access_x)).

Lemma supported_rights exec_only t a sp ro : hw_supports exec_only a = true ->
  let '(r, w, x) := super_rwx sp (access_rwx a (type_rwx t sp ro)) in ((w && negb r) || (x && negb r && negb exec_only)) = false.
Proof.
  intros Ha. unfold hw_supports in Ha. apply andb_prop in Ha as [[Hw%negb_true_iff Hwx%negb_true_iff]%andb_prop Hx].
  assert (let '(r, w, x) := type_rwx t sp ro in (w = true -> r = true) /\ (x = true -> r = true)) as Ht.
  { unfold type_rwx. repeat case_match; simplify_eq; by split. }
  destruct (type_rwx t sp ro) as [[r w] x]. destruct Ht as [Ht1 Ht2]. unfold access_rwx. rewrite Hw, Hwx.
  destruct (Z.eqb_spec a p2m_access_x) as [->|_]; [cbn in Hx |- *; rewrite orb_false_r in Hx; subst; apply andb_false_r|].
  assert (r = false -> w = false /\ x = false) as Hr by (destruct r, w, x; naive_solver).
  unfold super_rwx. destruct r; [|destruct (Hr eq_refl) as [-> ->]]; repeat case_match; simplify_eq; cbn; by rewrite ?andb_false_r.
Qed.

(** ** Changing entries *)

Lemma hw_page_present exec_only T s g mfn r w x : rep T s ->
  hw_translate exec_only s g = Some (HwPage mfn r w x) -> (tview wl T g).2 = true.
Proof.
  intros Hrep Hhw. destruct (hw_translate_leaf exec_only T s g Hrep) as (res & Hres & _ & Hag). rewrite Hhw in Hres. simplify_eq.
  destruct (tleaf wl T g) as [i e] eqn:Hl. destruct Hag as [Hp _]. by rewrite (leaf_page T s g i e Hrep Hl Hp).
Qed.

(** What [ept_set_entry] leaves: an error and the same mappings, or the frames
    of the entry mapped and cached translations of them invalidated, also when
    the IOMMU then refuses the change. *)
Definition map_post (g mfn : Z) (l : nat) (t a : Z) (s : ept_p2m) (rc : Z) (s' : ept_p2m) : Prop :=
  ept_inv s' /\ ept_mfn s' = ept_mfn s /\
  ((rc < 0 /\ forall g', ept_lookup s' g' = ept_lookup s g') \/
   ((rc = 0 \/ iommu_refuses g mfn (Z.of_nat l * EPT_TABLE_ORDER) rc) /\ g + span l <= GFN_LIMIT /\
    (forall g', ept_lookup s' g' =
       if (g <=? g') && (g' <? g + span l)
       then if (mfn_valid mfn || p2m_allows_invalid_mfn t) && negb (t =? p2m_invalid)
            then (stored mfn + (g' - g), t, a) else hole.1
       else ept_lookup s g') /\
    (will_flush s' = true \/ forall g', g <= g' < g + span l -> forall exec_only m r w x,
       hw_translate exec_only s g' <> Some (HwPage m r w x)))).

Lemma ept_map_spec s g mfn l t a sve : ept_inv s -> 0 <= g -> page_size_ok l -> settable l mfn t a -> 0 < a ->
  plain t = true -> plain (ept_lookup s g).1.2 = true ->
  wp (ept_set_entry g mfn (Z.of_nat l * EPT_TABLE_ORDER) t a sve) (map_post g mfn l t a s) s.
Proof.
  intros (T & Hrep & Hmax & Hhole) Hg Hps Hst Ha Hp Hpo. assert (l < wl)%nat as Hl.
  { destruct Hps as [[-> _]|[[-> _]| ->]]; unfold wl; lia. }
  destruct (Z.ltb_spec g GFN_LIMIT) as [Hlt|Hge].
  2: { unfold ept_set_entry. destruct (order_target l) as [_ ->]. rewrite orb_false_r.
       assert (negb (Z.shiftr g (Z.of_nat (wl + 1) * EPT_TABLE_ORDER) =? 0) = true) as ->.
       { destruct (Z.eqb_spec (Z.shiftr g (Z.of_nat (wl + 1) * EPT_TABLE_ORDER)) 0) as [Hz|]; [|done].
         apply gfn_limit in Hz; lia. }
       rewrite orb_true_r. apply wp_ret. split_and!; [by exists T|done|]. left. by split. }
  rewrite (ept_lookup_view s T g Hrep Hmax Hhole) in Hpo.
  assert ((0 <=? g) && (g <? GFN_LIMIT) = true) as Hin by lia. rewrite Hin in Hpo.
  eapply wp_mono; [apply (ept_set_entry_spec T g mfn l t a sve s); [done|done|done|done| |]|].
  - intros Hf. exfalso. revert Hp Hf. unfold plain, p2m_is_foreign, p2m_in. cbn [existsb].
    rewrite orb_false_r. intros Hp <-%Z.eqb_eq. done.
  - by apply plain_no_account.
  - intros rc s' [(Hneg & _ & Hmax' & T' & Hs & Hrep')|(Hrc & _ & Hal & Hpost)].
    + destruct (ept_inv_same T T' s s' Hrep Hmax Hhole Hs Hrep' Hmax'). split_and!; [done| |by left].
      destruct Hrep as (_ & Hm & _), Hrep' as (_ & Hm' & _). rewrite <- Hm, <- Hm'. apply Hs.
    + destruct (set_post_inv T g mfn l t a s s' Hrep Hmax Hhole ltac:(lia) Hal Hst Hl Ha Hpost) as [Hinv Hall].
      pose proof Hpost as (Hroot & _ & T' & b & _ & _ & _ & _ & _ & _ & Hsync).
      split_and!; [done|done|right]. assert (l <= wl)%nat as Hlw by lia.
      destruct (block_range l g g Hlw ltac:(lia) Hal) as (_ & Hlast & _). split_and!; [destruct Hrc as [?|[? _]]; auto|done|done|].
      destruct Hsync as [?|Hsync]; [by left|right]. intros g' Hg' eo m r w x Hhw. apply hw_page_present with (T := T) in Hhw; [|done].
      rewrite Hsync in Hhw; [done|lia|]. rewrite (proj1 (block_range l g g' Hlw ltac:(lia) Hal)). lia.
Qed.
End rights.
