(* ===== verification/EptMisconfig.v ===== *)
(** * Memory types on demand

    [ept_memory_type_changed] marks entries instead of computing their memory
    types again; the processor then reports a misconfiguration, whose handler
    [ept_handle_misconfig] computes the types on the way to the frame.  The
    lemmas say when the handler can run out of memory, what it leaves and what
    marking leaves. *)

From S2P Require Import Prelude RbTree RbSpec RbHeap PageInfo XomDomain XomSeal P2mTypes XomGuest MemType Ept EptSpec EptOps EptResolve EptWalk EptEntry EptP2m EptHardware.

(** ** The pages that hold tables *)

(** The function neither takes nor frees a table. *)
Definition fixed_dom {A} (m : M ept_p2m A) : Prop :=
  forall s a s', m s = Some (a, s') -> dom (pt_tables s') = dom (pt_tables s).

Create HintDb fixed_dom.

Section fixed.
Context `{EptEnv}.

Lemma fd_ret {A} (a : A) : fixed_dom (ret a).
Proof. by intros s ? s' [= _ <-]. Qed.

Lemma fd_bind {A B} (m : M ept_p2m A) (k : A -> M ept_p2m B) :
  fixed_dom m -> (forall a, fixed_dom (k a)) -> fixed_dom (bind m k).
Proof. intros Hm Hk s a s' (b & s1 & H1 & H2)%bind_inv. rewrite (Hk _ _ _ _ H2). by eapply Hm. Qed.

Lemma fd_assert b : fixed_dom (assert b).
Proof. unfold assert. destruct b; [apply fd_ret|]. by intros s a s'. Qed.

Lemma fd_gets {A} (f : ept_p2m -> A) : fixed_dom (gets f).
Proof. by intros s ? s' [= _ <-]. Qed.

Lemma fd_modify (f : ept_p2m -> ept_p2m) : (forall s, dom (pt_tables (f s)) = dom (pt_tables s)) -> fixed_dom (modify f).
Proof. intros Hf s ? s' [= _ <-]. apply Hf. Qed.

Lemma fd_read m i : fixed_dom (tbl_read m i).
Proof.
  intros s a s'. unfold tbl_read. destruct (_ !! m) as [es|]; [|done]. destruct (es !! _); [|done].
  destruct (0 <=? i); [|done]. by intros [= _ <-].
Qed.
#[local] Hint Resolve fd_ret fd_assert fd_gets fd_read : fixed_dom.
#[local] Ltac fd := repeat first [by auto with fixed_dom | apply fd_bind; [|intros ?] | by apply fd_modify | case_match].

Lemma fd_write m i e : fixed_dom (tbl_write m i e).
Proof. apply fd_bind; [apply fd_read|]. intros _. apply fd_modify. intros s. cbn. apply dom_alter_L. Qed.

Lemma fd_for n body : (forall i, fixed_dom (body i)) -> forall i, fixed_dom (for_upto (S := ept_p2m) n i body).
Proof. intros Hb. induction n as [|n IH]; intros i; cbn [for_upto]; fd. Qed.

Lemma fd_entry_modify nt ot nfn ofn level : fixed_dom (p2m_entry_modify nt ot nfn ofn level).
Proof. unfold p2m_entry_modify. fd. Qed.
#[local] Hint Resolve fd_write fd_entry_modify : fixed_dom.

Lemma fd_atomic_write m i e level : fixed_dom (atomic_write_ept_entry m i e level).
Proof. unfold atomic_write_ept_entry. fd. Qed.
#[local] Hint Resolve fd_atomic_write : fixed_dom.

Lemma fd_invalidate_loop n m recalc level : forall i changed, fixed_dom (invalidate_loop n m i recalc level changed).
Proof. induction n as [|n IH]; intros i changed; cbn [invalidate_loop]; fd. Qed.

Lemma fd_invalidate m recalc level : fixed_dom (ept_invalidate_emt_subtree m recalc level).
Proof. apply fd_bind; [apply fd_assert|]. intros _. apply fd_invalidate_loop. Qed.

Lemma fd_type_to_flags e : fixed_dom (ept_p2m_type_to_flags e).
Proof. unfold ept_p2m_type_to_flags. fd. Qed.

(** ** Running out of memory *)

(** No page for a table can be had, with at most [n] tables more than now. *)
Definition exhausted (n : nat) (s : ept_p2m) : Prop :=
  exists X : gset Z, (size X <= n)%nat /\ hap_alloc_page (X ∪ dom (pt_tables s)) = None.

Lemma exhausted_grows n k X s s' : dom (pt_tables s') = X ∪ dom (pt_tables s) -> (size X <= k)%nat ->
  exhausted n s' -> exhausted (k + n) s.
Proof.
  intros Hd HX (Y & HY & Ha). exists (Y ∪ X). split.
  - rewrite size_union_alt. assert (Nat.le (size (X ∖ Y)) (size X)) by (apply subseteq_size; set_solver). lia.
  - by rewrite <- union_assoc_L, <- Hd.
Qed.

Lemma exhausted_le n n' s : (n <= n')%nat -> exhausted n s -> exhausted n' s.
Proof. intros Hn (X & HX & Ha). exists X. split; [lia|done]. Qed.

Lemma exhausted_same n s s' : dom (pt_tables s') = dom (pt_tables s) -> exhausted n s' -> exhausted (S n) s.
Proof. intros Hd. apply (exhausted_grows n 1 ∅); [by rewrite Hd, union_empty_l_L|by rewrite size_empty; lia]. Qed.

Lemma middle_entry_memory s r s' : ept_set_middle_entry s = Some (r, s') -> (forall m, hap_alloc_page (dom (pt_tables s)) = Some m -> m <> INVALID_MFN) ->
  match r with
  | None => hap_alloc_page (dom (pt_tables s)) = None
  | Some _ => exists m, dom (pt_tables s') = {[m]} ∪ dom (pt_tables s)
  end.
Proof.
  unfold ept_set_middle_entry, p2m_alloc_ptp, bind, get. destruct (hap_alloc_page _) as [m|]; intros Hrun Hm.
  - unfold modify, ret in Hrun. rewrite (eqb_neq_false m INVALID_MFN) in Hrun by auto. simplify_eq. exists m. cbn.
    by rewrite dom_alter_L, dom_insert_L.
  - unfold ret in Hrun. rewrite Z.eqb_refl in Hrun. by simplify_eq.
Qed.
End fixed.
#[export] Hint Resolve fd_ret fd_assert fd_gets fd_read fd_write fd_entry_modify fd_atomic_write fd_invalidate fd_type_to_flags : fixed_dom.

Section memory.
Context `{EptEnv, !EptLaws}.

(** The function takes at most [n] tables; it fails only without memory. *)
Definition uses {A} (n : nat) (ok : A -> bool) (m : M ept_p2m A) : Prop :=
  forall s a s', m s = Some (a, s') ->
    if ok a then exists X : gset Z, (size X <= n)%nat /\ dom (pt_tables s') = X ∪ dom (pt_tables s) else exhausted n s.

Lemma uses_fixed {A} n (m : M ept_p2m A) : fixed_dom m -> uses n (fun _ => true) m.
Proof. intros Hm s a s' Hrun%Hm. exists ∅. rewrite size_empty, union_empty_l_L. split; [lia|done]. Qed.

Lemma uses_ret {A} n (ok : A -> bool) a : ok a = true -> uses n ok (ret a).
Proof. intros Ha s ? s' [= <- <-]. rewrite Ha. exists ∅. rewrite size_empty, union_empty_l_L. split; [lia|done]. Qed.

Lemma uses_bind {A B} n1 n2 ok1 ok2 (m : M ept_p2m A) (k : A -> M ept_p2m B) : uses n1 ok1 m ->
  (forall a, if ok1 a then uses n2 ok2 (k a) else forall s b s', k a s = Some (b, s') -> ok2 b = false) ->
  uses (n1 + n2) ok2 (bind m k).
Proof.
  intros Hm Hk s b s' (a & s1 & H1%Hm & H2)%bind_inv. specialize (Hk a). destruct (ok1 a).
  - destruct H1 as (X & HX & Hd). specialize (Hk _ _ _ H2). destruct (ok2 b).
    + destruct Hk as (Y & HY & Hd'). exists (Y ∪ X). split; [|by rewrite Hd', Hd, union_assoc_L]. rewrite size_union_alt.
      assert (Nat.le (size (X ∖ Y)) (size X)) by (apply subseteq_size; set_solver). lia.
    + by eapply exhausted_grows.
  - rewrite (Hk _ _ _ H2). eapply exhausted_le; [|exact H1]. lia.
Qed.

Lemma uses_fixed_bind {A B} n ok (m : M ept_p2m A) (k : A -> M ept_p2m B) : fixed_dom m -> (forall a, uses n ok (k a)) -> uses n ok (bind m k).
Proof. intros Hm Hk. by apply (uses_bind 0 n (fun _ => true)); [apply uses_fixed|]. Qed.

Lemma uses_for c n (body : Z -> M ept_p2m bool) : (forall i, uses c id (body i)) -> forall i, uses (n * c) id (for_upto n i body).
Proof.
  intros Hb. induction n as [|n IH]; intros i; cbn [for_upto]; [by apply uses_ret|].
  apply (uses_bind c (n * c) id); [done|]. intros []; [apply IH|]. by intros s b s' [= <- _].
Qed.

Lemma middle_entry_uses : uses 1 (fun mid => bool_decide (is_Some mid)) ept_set_middle_entry.
Proof.
  intros s mid s' Hm%middle_entry_memory; [|intros ? ?%hap_alloc_fresh; unfold INVALID_MFN; lia]. destruct mid; cbn.
  - destruct Hm as [m Hm]. exists {[m]}. by rewrite size_singleton.
  - exists ∅. rewrite size_empty, union_empty_l_L. split; [lia|done].
Qed.

(** The tables that a split takes: one for the pages of the next level, and
    those that these take in turn. *)
Fixpoint split_tables (level target : nat) : nat :=
  match level with
  | O => O
  | S l => if (level <=? target)%nat then O else S (EPT_PAGETABLE_ENTRIES * split_tables l target)
  end.

Lemma split_uses level target : forall e, uses (split_tables level target) fst (ept_split_super_page level e target).
Proof.
  induction level as [|l IH]; intros e; cbn [ept_split_super_page split_tables]; [by apply uses_ret|].
  destruct (_ <=? _)%nat; [by apply uses_ret|]. apply uses_fixed_bind; [apply fd_assert|]. intros _.
  set (c := split_tables l target). change (S (EPT_PAGETABLE_ENTRIES * c)) with (1 + EPT_PAGETABLE_ENTRIES * c)%nat.
  eapply uses_bind; [apply middle_entry_uses|]. intros [mid|]; cbn [bool_decide]; [|by intros s b s' [= <- _]].
  change (if bool_decide (is_Some (Some mid)) then ?A else ?B) with A. rewrite <- (Nat.add_0_r (_ * c)).
  apply (uses_bind _ 0 id).
  - apply uses_for. intros i. do 2 (apply uses_fixed_bind; [by auto with fixed_dom|intros ?]).
    destruct (l =? target)%nat; [by apply uses_ret|]. apply uses_fixed_bind; [apply fd_assert|intros _].
    rewrite <- (Nat.add_0_r c). apply (uses_bind c 0 fst); [apply IH|]. intros [[] c']; cbn.
    + apply uses_fixed_bind; [apply fd_write|]. intros _. by apply uses_ret.
    + intros s b s' (? & ? & _ & [= <- _])%bind_inv. done.
  - intros []; [by apply uses_ret|]. by intros s b s' [= <- _].
Qed.

(** A split by one level takes one table. *)
Lemma split_one l : split_tables (S l) l = 1%nat.
Proof.
  cbn [split_tables]. destruct (Nat.leb_spec (S l) l) as [?|_]; [lia|]. assert (split_tables l l = O) as ->; [|by rewrite Nat.mul_0_r].
  destruct l as [|l]; [done|]. cbn [split_tables]. by rewrite Nat.leb_refl.
Qed.

(** The walk only fails when there is no page for a table. *)
Lemma resolve_memory l gfn : forall m rc s rc' s', resolve_loop l gfn m rc s = Some (rc', s') -> 0 <= rc -> rc' < 0 -> exhausted l s.
Proof.
  induction l as [|l IH]; intros m rc s rc' s'; cbn [resolve_loop]; intros (e & s0 & H0' & H1')%bind_inv Hrc Hneg;
    apply fd_read in H0' as Hd0.
  - destruct (negb _); [injection H1' as <- _; lia|]. apply bind_inv in H1' as (? & ? & _ & [= <- _]). lia.
  - destruct (is_epte_superpage e).
    + destruct (negb _); [injection H1' as <- _; lia|]. destruct (epte_get_entry_emt _ _ _ _) as [emt ipat].
      apply bind_inv in H1' as (u & s1 & Ha & H2). apply fd_assert in Ha as Hd1.
      destruct (if negb _ then _ else _) as [e1 emt1]. destruct (emt1 <? 0).
      * apply bind_inv in H2 as ([ok e2] & s2 & Hsp%split_uses & H3). rewrite split_one in Hsp. destruct ok; cbn in Hsp.
        -- destruct Hsp as (X & HX & Hd2). apply bind_inv in H3 as (wrc & s3 & Hw & (u' & s4 & Hu & H4)%bind_inv).
           apply fd_atomic_write in Hw. apply fd_assert in Hu. eapply (exhausted_grows l 1 X s s4); [congruence|done|]. by eapply IH.
        -- destruct Hsp as (X & HX & Hnone). exists X. rewrite Hd1, Hd0 in Hnone. split; [lia|done].
      * apply bind_inv in H2 as (e2 & s2 & _ & (wrc & s3 & _ & (u' & s4 & _ & [= <- _])%bind_inv)%bind_inv). lia.
    + destruct (_ =? MTRR_NUM_TYPES).
      * apply bind_inv in H1' as (u & s1 & Ha%fd_assert & (b & s2 & Hi%fd_invalidate & (wrc & s3 & Hw%fd_atomic_write &
          (u' & s4 & Hu%fd_assert & H4)%bind_inv)%bind_inv)%bind_inv).
        apply (exhausted_same l s s4); [congruence|]. by eapply (IH _ 1).
      * destruct (_ && _); [|injection H1' as <- _; lia]. apply (exhausted_same l s s0); [done|]. by eapply IH.
Qed.

(** ** The handler *)

Lemma resolve_misconfig_memory gfn s rc s' : resolve_misconfig gfn s = Some (rc, s') -> rc < 0 -> exhausted wl s.
Proof.
  intros (m & s0 & [= <- <-] & Hrun)%bind_inv Hneg. destruct (_ =? 0); [injection Hrun as <- _; lia|].
  apply bind_inv in Hrun as (rc1 & s1 & Hl & (u & s2 & _ & [= <- _])%bind_inv). by eapply resolve_memory.
Qed.

Lemma shiftr_page gpa : 0 <= gpa < 2 ^ 64 -> 0 <= Z.shiftr gpa 12 < 2 ^ 64.
Proof. intros Hg. rewrite Z.shiftr_div_pow2 by lia. split; [apply Z.div_pos; lia|]. apply Z.div_lt_upper_bound; lia. Qed.

Lemma ept_handle_misconfig_recalc {mode : Recalc} P T s gpa : (may_recalc = true -> logdirty_exact P) -> rep T s -> ept_mfn s <> 0 -> 0 <= gpa < 2 ^ 64 ->
  recalculable wl (Z.shiftr gpa 12) T ->
  wp (ept_handle_misconfig gpa) (fun ok s' => ept_mfn s' = ept_mfn s /\ pt_max s' = pt_max s /\
    exists T', rsame wl (Z.shiftr gpa 12) T T' /\ rep T' s' /\ (~ exhausted wl s ->
      pending wl T' (Z.shiftr gpa 12) = false /\ (pending wl T (Z.shiftr gpa 12) = true -> ok = true))) s.
Proof.
  intros Hex Hrep Hm Hg%shiftr_page Hr.
  apply wp_bind, wp_gets, wp_bind. eapply wp_mono; [apply wp_keep; by apply (resolve_misconfig_recalc P T)|].
  intros rc s1 (Hrun & Hrc & Hmax & Hmfn & T' & Hs & Hrep' & Hc & _). apply wp_bind, wp_modify, wp_ret.
  split_and!; [done|done|]. exists T'. split_and!; [done|done|]. intros Hne.
  assert (0 <= rc) as Hpos.
  { destruct (Z.leb_spec 0 rc); [done|]. destruct Hne. by eapply resolve_misconfig_memory. }
  destruct (Hc Hm) as [Hc1 Hc2]; [unfold ENOMEM; lia|]. split; [done|]. intros ->%Hc2. by destruct (pt_spurious s).
Qed.

Lemma ept_handle_misconfig_spec T s gpa : rep T s -> ept_mfn s <> 0 -> 0 <= gpa < 2 ^ 64 ->
  wp (ept_handle_misconfig gpa) (fun ok s' => ept_mfn s' = ept_mfn s /\ pt_max s' = pt_max s /\
    exists T', same_tree wl T T' /\ rep T' s' /\ (~ exhausted wl s ->
      pending wl T' (Z.shiftr gpa 12) = false /\ (pending wl T (Z.shiftr gpa 12) = true -> ok = true))) s.
Proof.
  intros Hrep Hm Hg. eapply wp_mono; [by apply (ept_handle_misconfig_recalc (fun _ => True) T)|]. intros ok s' (Hm' & Hmax & T' & Hs & Hrest).
  split_and!; [done..|]. exists T'. split; [eapply settled_same; [apply Hrep|exact Hs]|done].
Qed.

(** The reason for a misconfiguration of a frame with supported rights. *)
Lemma misconfig_pending {mode : Recalc} exec_only T s g : rep T s -> hw_supports exec_only (tview wl T g).1.2 = true ->
  hw_translate exec_only s g = Some HwMisconfig -> pending wl T g = true.
Proof.
  intros Hrep Hsup Hhw. destruct (hw_translate_finds exec_only T s g Hrep) as (res & Hres & Hf). rewrite Hhw in Hres. simplify_eq.
  destruct (tview wl T g) as [[[mfn t] a] b]. destruct Hf as (sp & ro & Hf). cbn [fst snd] in Hsup.
  pose proof (supported_rights exec_only t a sp ro Hsup) as Hr. destruct (super_rwx _ _) as [[r w] x].
  destruct Hf as [_ [?|Hf]]; [done|]. congruence.
Qed.

Lemma frame_limit gpa : 0 <= gpa < GFN_LIMIT * PAGE_SIZE -> 0 <= Z.shiftr gpa 12 < GFN_LIMIT.
Proof.
  intros Hg. rewrite Z.shiftr_div_pow2 by lia. split; [apply Z.div_pos; lia|]. apply Z.div_lt_upper_bound; [lia|].
  rewrite Z.mul_comm. apply Hg.
Qed.

(** ** Marking *)

Lemma ept_memory_type_changed_spec T s : rep T s -> ept_mfn s <> 0 ->
  wp ept_memory_type_changed (fun _ s' => ept_mfn s' = ept_mfn s /\ pt_max s' = pt_max s /\ (s' = s \/ will_flush s' = true) /\
    exists T', same_tree wl T T' /\ rep T' s' /\ marked EPT_PAGETABLE_ENTRIES T') s.
Proof.
  intros (Ht & Hm & Hh) Hne. apply wp_bind, wp_gets. rewrite (eqb_neq_false _ _ Hne), <- Hm. apply wp_bind. destruct T as [m ks]. cbn [node_mfn] in *.
  eapply wp_mono; [apply (ept_invalidate_emt_subtree_spec false wl wl m ks []); [done|done|done|done|by rewrite app_nil_r]|].
  intros b s1 (Ho & Hb & ks' & Hs & Hh' & Hmk). rewrite app_nil_r in Hh'. apply (mark_marked _ m) in Hmk.
  assert (ept_mfn s1 = ept_mfn s /\ pt_max s1 = pt_max s) as [E1 E2] by (by rewrite Ho).
  assert (rep (Node m ks') s1) as Hrep by (split_and!; [apply Hs|cbn; congruence|done]).
  destruct b.
  - apply wp_sync_domain. intros i n s' Hf. split_and!; [cbn; congruence|exact E2|by right|]. exists (Node m ks'). by split_and!.
  - pose proof (Hb eq_refl) as ->. apply wp_ret. split_and!; [done|done|by left|]. by exists (Node m ks').
Qed.

(** The processor uses no entry below a marked table. *)
Lemma marked_blocks exec_only T s g : rep T s -> marked EPT_PAGETABLE_ENTRIES T ->
  hw_translate exec_only s g = Some HwViolation \/ hw_translate exec_only s g = Some HwMisconfig.
Proof.
  intros Hrep Hmk. destruct (hw_translate_leaf exec_only T s g Hrep) as (res & -> & Hp & Hag).
  destruct (twf_slot _ _ g (proj1 Hrep)) as ([e o] & Hk & Hwf). pose proof (Hmk _ _ (idx_lt wl g) Hk) as He. cbn [fst] in He.
  rewrite (pending_slot wl T g e o Hk) in Hp. rewrite (tleaf_slot wl T g _ Hk) in Hag.
  destruct (is_epte_present e) eqn:Hpe.
  - rewrite Hp; [by right|]. unfold pending_entry. by rewrite Hpe, He.
  - destruct o as [t'|].
    { destruct Hwf as (Hmid & _). cbn [fst] in Hmid. by rewrite (middle_present _ Hmid) in Hpe. }
    destruct res; [by left|by right|]. destruct Hag as [Hag _]. cbn in Hag. by rewrite Hpe in Hag.
Qed.

(** ** Splitting a superpage for one of its frames *)

(** Nothing is done where nothing is pending. *)
Lemma resolve_calm g l : forall t L s rc, twf l t -> heap (flat l t ++ L) s -> pending l t g = false ->
  is_epte_present (tleaf l t g).2 = true -> wp (resolve_loop l g (node_mfn t) rc) (fun rc' s' => rc' = rc /\ s' = s) s.
Proof.
  induction l as [|l IH]; intros [m ks] L s rc Ht Hh Hp Hpr; cbn [resolve_loop]; rewrite land_idx;
    destruct (twf_slot _ _ g Ht) as ([e o] & Hk & Hwf); rewrite (pending_slot _ _ _ _ _ Hk) in Hp;
    rewrite (tleaf_slot _ _ _ _ Hk) in Hpr; cbn [kids node_mfn] in *; apply orb_false_elim in Hp as [Hpe Hpt];
    apply wp_bind; (eapply wp_read_slot; [exact Hk|exact Hh|]); cbn [fst].
  - destruct o; [done|]. cbn in Hpr. unfold pending_entry in Hpe. rewrite Hpr in Hpe. cbn in Hpe. rewrite Hpe. by apply wp_ret.
  - destruct o as [t1|].
    + pose proof Hwf as (Hm & Hmfn & Ht1). cbn [fst] in Hm, Hmfn. unfold is_epte_superpage. rewrite (mo_sp _ Hm).
      unfold pending_entry in Hpe. rewrite (middle_present _ Hm) in Hpe |- *. cbn [andb] in *. rewrite Hpe.
      destruct (mo_emt _ Hm) as [->|He]; [|by rewrite He in Hpe]. cbn [Z.eqb]. rewrite Hmfn.
      eapply IH; [done|by eapply heap_kid|done|done].
    + change (leaf_ok (S l) e) in Hwf. cbn in Hpr. unfold pending_entry in Hpe. rewrite Hpr in Hpe. cbn in Hpe.
      unfold is_epte_superpage. rewrite (leaf_super _ _ Hwf), Hpr, Hpe. by apply wp_ret.
Qed.

(** The way down ends at the superpage. *)
Lemma set_walk_super g target i : forall r0 sub L s, twf i sub -> heap (flat i sub ++ L) s -> (i <= wl)%nat ->
  (target < (tleaf i sub g).1)%nat -> is_epte_present (tleaf i sub g).2 = true ->
  wp (set_walk r0 i target (node_mfn sub) (g mod span (S i)))
     (fun '(r, j, _, _) s' => s' = s /\ r = GUEST_TABLE_SUPER_PAGE /\ j = (tleaf i sub g).1) s.
Proof.
  induction i as [|i IH]; intros r0 [m ks] L s Ht Hh Hwl Hlt Hpr; cbn [set_walk];
    [pose proof (tleaf_le 0 (Node m ks) g); lia|pose proof (tleaf_le (S i) (Node m ks) g) as Hle].
  destruct (Nat.leb_spec (S i) target) as [|_]; [lia|]. destruct (twf_slot _ _ g Ht) as ([e o] & Hk & Hwf).
  rewrite (tleaf_slot _ _ _ _ Hk) in *. cbn [kids node_mfn] in *. apply wp_bind.
  eapply wp_next_level; [done|done|exact Hk|exact Hh|..]; cbn [fst snd].
  - intros t1 ->. destruct Hwf as (_ & _ & Ht1). eapply IH; [done|by eapply heap_kid|lia|done|done].
  - intros -> _. by apply wp_ret.
  - intros -> Hsp. change (leaf_ok (S i) e) in Hwf. cbn in Hpr. by rewrite (leaf_super _ _ Hwf), Hpr in Hsp.
  - intros _ -> Hsp. change (leaf_ok (S i) e) in Hwf. cbn in Hpr. by rewrite (leaf_super _ _ Hwf), Hpr in Hsp.
Qed.

(** An update of one frame of a superpage fails only without memory for the
    tables of its pages. *)
Lemma shatter_memory T s g mfn i : rep T s -> 0 <= g < GFN_LIMIT -> pending wl T g = false -> (tleaf wl T g).1 = i -> i <> O ->
  is_epte_present (tleaf wl T g).2 = true -> set_fails g mfn 0 s -> exhausted (split_tables i 0) s.
Proof.
  intros (Ht & Hm & Hh) Hg Hp Hi Hne Hpr [Hlim|[Hal|(rc & s1 & Hres & Hfail)]]; [lia|by rewrite Z.land_0_r in Hal|].
  rewrite <- (app_nil_r (flat wl T)) in Hh. assert (rc = 0 /\ s1 = s) as [-> ->].
  { apply bind_inv in Hres as (root & s0 & [= <- <-] & Hres). destruct (_ =? 0); [by injection Hres as <- <-|].
    rewrite <- Hm in Hres. apply bind_inv in Hres as (rc' & s' & Hl & Hres).
    destruct (wp_run _ _ _ _ _ (resolve_calm g wl T [] s 0 Ht Hh Hp Hpr) Hl) as [-> ->]. by injection Hres as <- <-. }
  destruct Hfail as [|(s2 & Hpl)]; [lia|]. apply bind_inv in Hpl as (root & s0 & [= <- <-] & Hpl).
  apply bind_inv in Hpl as ([[[r j] m] rem] & s0 & Hw & Hpl). rewrite <- Hm, <- (Z.mod_small g (span (S wl)) Hg) in Hw.
  destruct (wp_run _ _ _ _ _ (set_walk_super g 0 wl _ T [] s Ht Hh ltac:(done) ltac:(lia) Hpr) Hw) as (-> & -> & ->).
  rewrite Hi in Hpl. change (GUEST_TABLE_SUPER_PAGE =? _) with false in Hpl.
  apply bind_inv in Hpl as (? & s1 & Ha%fd_assert & (e & s3 & Hr%fd_read & Hpl)%bind_inv). rewrite (proj2 (Nat.eqb_neq i 0) Hne) in Hpl.
  apply bind_inv in Hpl as (? & s4 & Ha'%fd_assert & ([ok e1] & s5 & Hsp%split_uses & Hpl)%bind_inv). destruct ok; cbn [fst negb] in Hsp, Hpl.
  - exfalso. by apply bind_inv in Hpl as (? & ? & _ & (? & ? & _ & ([[[? ?] ?] ?] & ? & _ & (? & ? & _ & ?)%bind_inv)%bind_inv)%bind_inv).
  - destruct Hsp as (X & HX & Hn). exists X. split; [done|]. congruence.
Qed.
End memory.
