(* ===== verification/EptToy.v ===== *)
(** * A concrete domain with extended page tables

    An environment of the tables in which pages for new tables come from a
    pool of 1024, the frames below 2^20 exist, and neither an IOMMU nor device
    memory is used; an empty table, the same table with a page or a superpage
    mapped, and a domain on it.  The examples of the theorems run on them. *)

From S2P Require Import Prelude RbTree RbSpec RbHeap PageInfo PageInfoSpec XomDomain XomSpec XomSeal XomToy P2mTypes XomGuest MemType Ept EptSpec EptOps EptResolve EptWalk EptEntry EptP2m EptHardware EptMisconfig.

Definition toy_mtrr : mtrr_state := MtrrState true false false X86_MT_WB [] [].

(** Frames for tables, from 2^20 on. *)
Definition toy_frames : list Z := map (fun n => 2 ^ 20 + Z.of_nat n) (seq 0 1024).
Definition toy_pool (used : gset Z) : option Z := find (fun m => bool_decide (m ∉ used)) toy_frames.

Section env.
(** Whether superpages can be executed. *)
Context (sp : bool).

#[local] Instance toy_env : EptEnv := {|
  hap_alloc_page := toy_pool;
  mfn_valid := fun m => (0 <=? m) && (m <? 2 ^ 20);
  page_get_owner_and_reference := fun _ => true;
  mmio_ro := fun _ => false;
  mmio_ro_overlaps := fun _ _ => false;
  mmio_ro_contains := fun _ _ => false;
  is_special_page := fun _ => false;
  cache_flush_permitted := true;
  pinned_cacheattr_ranges := [];
  guest_mtrr := Some toy_mtrr;
  host_mtrr := toy_mtrr;
  cpu_has_vmx_ept_ad := true;
  hap_has_2mb := true;
  hap_has_1gb := true;
  vmx_domain_pml_enabled := false;
  exec_sp := sp;
  ioreq_write_access := false;
  ioreq_server_set := false;
  default_access := p2m_access_rwx;
  global_logdirty := false;
  logdirty_contains := fun _ _ => false;
  logdirty_overlaps := fun _ _ => false;
  is_iommu_enabled := false;
  iommu_snoop := false;
  iommu_use_hap_pt := false;
  iommu_dont_flush_iotlb := false;
  need_iommu_pt_sync := false;
  iommu_iotlb_flush := fun _ _ _ _ => 0;
  iommu_legacy_map := fun _ _ _ _ => 0;
  iommu_legacy_unmap := fun _ _ => 0;
  paging_mode_hap := true;
  has_vcpus := true;
  defer_flush := false;
  p2m_altp2m_propagate_change := fun _ _ _ _ _ => 0
|}.

Lemma toy_frames_range m : m ∈ toy_frames -> 2 ^ 20 <= m < 2 ^ 20 + 1024.
Proof. intros (n & -> & Hn)%list_elem_of_fmap. apply elem_of_seq in Hn. lia. Qed.

Lemma toy_pool_ok used m : toy_pool used = Some m -> (m ∉ used) /\ m ∈ toy_frames.
Proof. intros [Hin Hm%bool_decide_eq_true]%find_some. by rewrite list_elem_of_In. Qed.

(** The pool is only empty when all of its frames are used. *)
Lemma toy_pool_none used : toy_pool used = None -> (1024 <= size used)%nat.
Proof.
  intros Hn. assert ((list_to_set toy_frames : gset Z) ⊆ used) as Hsub.
  { intros m Hm%elem_of_list_to_set. pose proof (find_none _ _ Hn m) as Hf. apply list_elem_of_In in Hm.
    apply Hf, bool_decide_eq_false in Hm. by apply dec_stable. }
  apply subseteq_size in Hsub. rewrite size_list_to_set in Hsub; [done|]. by apply NoDup_fmap_2; [intros ???; lia|apply NoDup_seq].
Qed.

Lemma toy_mtrr_wf : mtrr_wf toy_mtrr.
Proof. split; [by do 4 right|done|done]. Qed.

#[local] Program Instance toy_ept_laws : EptLaws.
Next Obligation. intros used m [? Hm%toy_frames_range]%toy_pool_ok. split; [done|lia]. Qed.
Next Obligation. intros m. cbn. lia. Qed.
Next Obligation. intros. unfold iommu_change. by repeat case_match. Qed.
Next Obligation. done. Qed.
Next Obligation. exact toy_mtrr_wf. Qed.
Next Obligation. exact toy_mtrr_wf. Qed.
Next Obligation. constructor. Qed.

(** ** Tables *)

Definition toy_root : Z := 2 ^ 20.
Definition toy_ept : ept_p2m :=
  EptP2m {[toy_root := replicate EPT_PAGETABLE_ENTRIES sve_entry]} toy_root 0 0 ∅ false false false.
Definition toy_tree : tree := new_table (set_mfn toy_root empty_entry).

Lemma toy_rep : rep toy_tree toy_ept.
Proof.
  split_and!; [by apply new_table_wf|done|]. unfold toy_tree. rewrite flat_new_table. split; [apply NoDup_singleton|done].
Qed.

Lemma toy_ept_inv : ept_inv toy_ept.
Proof.
  exists toy_tree. split; [apply toy_rep|]. split; [by split|]. intros g _. apply new_table_view.
Qed.

Lemma toy_ept_lookup g : ept_lookup toy_ept g = hole.1.
Proof.
  rewrite (ept_lookup_view toy_ept toy_tree g toy_rep).
  - destruct (_ && _); [|done]. change (tview wl toy_tree g) with (tview wl (new_table (set_mfn toy_root empty_entry)) g). by rewrite new_table_view.
  - by split.
  - intros g' _. apply new_table_view.
Qed.

(** A page (level 0) or superpage of memory mapped in it. *)
Definition toy_map (g mfn : Z) (l : nat) (a : Z) : ept_p2m :=
  match ept_set_entry g mfn (Z.of_nat l * EPT_TABLE_ORDER) p2m_ram_rw a (-1) toy_ept with
  | Some (_, s) => s
  | None => toy_ept
  end.

Lemma toy_settable l g a : page_size_ok l -> 0 < a <= p2m_access_n2rwx -> g mod span l = 0 -> 0 <= g -> g + span l <= 2 ^ 20 ->
  (l <> O -> a = p2m_access_rwx) -> settable l g p2m_ram_rw a.
Proof.
  intros Hps Ha Hal Hg Hf Hsup. unfold p2m_access_n2rwx in Ha. pose proof (span_pos l).
  assert (stored g = g) as Hst by (apply Z.mod_small; lia). split; [done|lia| |].
  - intros _. rewrite Hst. split_and!; [lia|done|]. intros j Hj. cbn. lia.
  - intros Hl _. rewrite (Hsup Hl). split_and!; [done|by destruct sp|done].
Qed.

Lemma toy_map_post g mfn l a : page_size_ok l -> 0 <= g -> settable l mfn p2m_ram_rw a -> 0 < a ->
  exists rc, ept_set_entry g mfn (Z.of_nat l * EPT_TABLE_ORDER) p2m_ram_rw a (-1) toy_ept = Some (rc, toy_map g mfn l a) /\
    map_post g mfn l p2m_ram_rw a toy_ept rc (toy_map g mfn l a).
Proof.
  intros Hps Hg Hst Ha. destruct (ept_map_spec toy_ept g mfn l p2m_ram_rw a (-1) toy_ept_inv Hg Hps Hst Ha) as (rc & s & Hrun & Hpost);
    [done|by rewrite toy_ept_lookup|]. exists rc. unfold toy_map. by rewrite Hrun.
Qed.

(** The superpage of the frames 512 to 1023. *)
Definition toy_super_page : ept_p2m := toy_map 512 512 1 p2m_access_rwx.

Lemma toy_super_page_inv : ept_inv toy_super_page /\ ept_mfn toy_super_page = toy_root.
Proof.
  unfold toy_super_page. destruct (toy_map_post 512 512 1 p2m_access_rwx) as (rc & _ & Hinv & Hm & _); [by right; left|lia| |done|by split].
  apply toy_settable; [by right; left|done|done|lia|done|done].
Qed.

Lemma toy_memory n s : (size (dom (pt_tables s)) + n < 1024)%nat -> ~ exhausted n s.
Proof.
  intros Hs (X & HX & Hn%toy_pool_none). rewrite size_union_alt in Hn.
  assert (Nat.le (size (dom (pt_tables s) ∖ X)) (size (dom (pt_tables s)))) by (apply subseteq_size; set_solver). lia.
Qed.
End env.

(** ** The environment of the examples *)

#[export] Instance toy_default : EptEnv := toy_env true.
#[export] Instance toy_default_laws : EptLaws := toy_ept_laws true.

Lemma toy_default_lookup g : ept_lookup toy_ept g = hole.1.
Proof. apply toy_ept_lookup. Qed.

(** The superpage as it is and with its memory type marked. *)
Definition toy_super : ept_p2m := toy_super_page true.
Definition toy_marked : ept_p2m := match ept_memory_type_changed toy_super with Some (_, s) => s | None => toy_super end.

Lemma toy_super_inv : ept_inv toy_super /\ ept_mfn toy_super = toy_root.
Proof. apply toy_super_page_inv. Qed.

Lemma toy_marked_inv : ept_inv toy_marked /\ ept_mfn toy_marked = toy_root.
Proof.
  destruct toy_super_inv as [(T & Hrep & Hmax & Hhole) Hm].
  destruct (ept_memory_type_changed_spec T toy_super Hrep) as (u & s & Hrun & Hm' & Hmax' & _ & T' & Hs & Hrep' & _); [by rewrite Hm|].
  unfold toy_marked. rewrite Hrun. split; [exact (proj1 (ept_inv_same T T' toy_super s Hrep Hmax Hhole Hs Hrep' Hmax'))|exact (eq_trans Hm' Hm)].
Qed.

Lemma toy_marked_memory : ~ exhausted wl toy_marked.
Proof. apply (toy_memory true). apply Nat.ltb_lt. vm_compute. reflexivity. Qed.

(** ** A domain *)

Definition toy_ept_table : ept_table := exist _ toy_super (proj1 toy_super_inv).
Definition toy_ept_domain : domain ept_table :=
  Domain true true toy_ept_table 0 ∅ {[600 := page_with [1; 2; 3]]} empty_pi false.

Lemma toy_ept_domain_inv : dom_inv toy_ept_domain no_infos.
Proof.
  split; [apply empty_PI| |done|done|done|done]. cbn. intros mfn pg [<- <-]%lookup_singleton_Some. apply page_with_wf. by repeat constructor.
Qed.
