(* ===== verification/EptFault.v ===== *)
(** * Violations of the extended page tables

    What Xen does when the processor reports a violation:
    [ept_handle_violation] of [vmx.c], [hvm_hap_nested_page_fault] of [hvm.c],
    [p2m_mem_access_check] of [mem_access.c], and the functions of [p2m.c] they
    change the tables with.  The domain has no nested guest and no alternate
    p2m tables, and memory sharing and paging, which are off by default, are
    not built.  What the handler asks of other parts (emulation of devices,
    the monitor, the guest) is recorded in the order in which it happens. *)

From S2P Require Import Prelude RbTree RbSpec RbHeap PageInfo XomDomain XomSeal P2mTypes XomGuest MemType Ept.

(** ** The fault *)

Inductive npfec_kind := npfec_kind_unknown | npfec_kind_in_gpt | npfec_kind_with_gla.

(** [struct npfec], with the kind of access as its first part *)
Record npf := Npf { np_access :> npfec; np_present : bool; np_gla_valid : bool; np_kind : npfec_kind }.

(** [ept_qual_t] *)
Record ept_qual := EptQual {
  q_read : bool; q_write : bool; q_fetch : bool; q_eff_read : bool; q_eff_write : bool; q_eff_exec : bool;
  q_gla_valid : bool; q_gla_fault : bool
}.

(** The request for the monitor. *)
Record mem_access_request := MemAccessRequest { ma_gfn : Z; ma_offset : Z; ma_gla : option Z; ma_flags : Z }.

Definition MEM_ACCESS_R : Z := 2 ^ 0.
Definition MEM_ACCESS_W : Z := 2 ^ 1.
Definition MEM_ACCESS_X : Z := 2 ^ 2.
Definition MEM_ACCESS_GLA_VALID : Z := 2 ^ 3.
Definition MEM_ACCESS_FAULT_WITH_GLA : Z := 2 ^ 4.
Definition MEM_ACCESS_FAULT_IN_GPT : Z := 2 ^ 5.

(** What happens outside of the tables. *)
Inductive fault_event :=
  | InjectGP
  | HandleMmio (gla gfn : Z)
  | EmulateOneMmio (mfn gla : Z)
  | EmulateOneVmEvent
  | MonitorTraps (sync : bool) (req : mem_access_request)
  | MarkDirty (pfn : Z)
  | DomainCrash
  | AssertFailed.

(** The answers of the parts that are not modelled. *)
Class FaultEnv := {
  hvm_mmio_internal : Z -> bool;
  handle_mmio_with_translation : Z -> Z -> npf -> bool;
  hvm_emulate_one_mmio : Z -> Z -> bool;               (* it returns [X86EMUL_OKAY] *)
  is_hardware_domain : bool;
  vm_event_listener : bool;                            (* [vm_event_check_ring(d->vm_event_monitor)] *)
  access_required : bool;
  inguest_pagefault_disabled : bool;
  request_allocated : bool;                            (* [xzalloc(vm_event_request_t)] *)
  monitor_traps : bool -> mem_access_request -> Z
}.

Record fault_state := FaultState { fs_p2m : ept_p2m; fs_events : list fault_event }.

Definition on_p2m {A} (m : M ept_p2m A) : M fault_state A :=
  fun st => match m (fs_p2m st) with
            | Some (a, s) => Some (a, FaultState s (fs_events st))
            | None => None
            end.

Definition happens (ev : fault_event) : M fault_state unit :=
  modify (fun st => FaultState (fs_p2m st) (fs_events st ++ [ev])).


(** ** Changing the tables *)

Definition PAGE_ORDER_4K : Z := 0.
Definition PAGE_ORDER_2M : Z := 9.
Definition PAGE_ORDER_1G : Z := 18.

Section fault.
Context `{EptEnv, FaultEnv}.

(** The largest page for the rest of a range. *)
Definition entry_order (gfn mfn todo : Z) : Z :=
  let fn_mask := Z.lor (Z.lor (if negb (mfn =? INVALID_MFN) then mfn else 0) gfn) todo in
  if (Z.land fn_mask (Z.shiftl 1 PAGE_ORDER_1G - 1) =? 0) && hap_has_1gb then PAGE_ORDER_1G
  else if (Z.land fn_mask (Z.shiftl 1 PAGE_ORDER_2M - 1) =? 0) && hap_has_2mb then PAGE_ORDER_2M
  else PAGE_ORDER_4K.

(** The loop of [p2m_set_entry], for a domain with hardware-assisted paging.
    Every round takes a frame of [todo] at least. *)
Fixpoint set_range (fuel : nat) (gfn mfn todo t a rc : Z) : M ept_p2m Z :=
  if todo =? 0 then ret rc
  else match fuel with
       | O => ub
       | S fuel =>
           let order := entry_order gfn mfn todo in
           let! set_rc := ept_set_entry gfn mfn order t a (-1) in
           let rc := if negb (set_rc =? 0) then set_rc else rc in
           set_range fuel (gfn + Z.shiftl 1 order)
             (if negb (mfn =? INVALID_MFN) then mfn + Z.shiftl 1 order else mfn)
             (todo - Z.shiftl 1 order) t a rc
       end.

Definition p2m_set_entry (gfn mfn page_order t a : Z) : M ept_p2m Z :=
  let todo := Z.shiftl 1 page_order in set_range (Z.to_nat todo) gfn mfn todo t a 0.

Definition p2m_change_type_one (gfn ot nt : Z) : M ept_p2m Z :=
  let! '(mfn, pt, _, _) := ept_get_entry gfn in
  if pt =? ot then p2m_set_entry gfn mfn PAGE_ORDER_4K nt default_access else ret (- EBUSY).

(** ** The monitor *)

Definition request_for (gpa gla : Z) (f : npf) : mem_access_request :=
  MemAccessRequest (Z.shiftr gpa 12) (Z.land gpa (Z.shiftl 1 12 - 1)) (if np_gla_valid f then Some gla else None)
    (Z.lor (Z.lor (if np_gla_valid f then MEM_ACCESS_GLA_VALID else 0)
              match np_kind f with
              | npfec_kind_with_gla => MEM_ACCESS_FAULT_WITH_GLA
              | npfec_kind_in_gpt => MEM_ACCESS_FAULT_IN_GPT
              | npfec_kind_unknown => 0
              end)
       (Z.lor (if read_access f then MEM_ACCESS_R else 0)
          (Z.lor (if write_access f then MEM_ACCESS_W else 0) (if insn_fetch f then MEM_ACCESS_X else 0)))).

(** A call of [set_entry] that must succeed, [ASSERT(rc == 0)]; the build
    without assertions goes on if it does not. *)
Definition promote (gfn mfn t a : Z) : M fault_state unit :=
  let! rc := on_p2m (ept_set_entry gfn mfn PAGE_ORDER_4K t a (-1)) in
  if rc =? 0 then ret tt else happens AssertFailed.

(** Whether the virtual processor has to wait, and the request. *)
Definition p2m_mem_access_check (gpa gla : Z) (f : npf) : M fault_state (bool * option mem_access_request) :=
  let gfn := Z.shiftr gpa 12 in
  let! '(mfn, t, a, _) := on_p2m (ept_get_entry gfn) in
  if write_access f && (a =? p2m_access_rx2rw) then
    do! promote gfn mfn t p2m_access_rw in ret (true, None)
  else
    do! (if a =? p2m_access_n2rwx then promote gfn mfn t p2m_access_rwx else ret tt) in
    if negb vm_event_listener then
      if access_required then do! happens DomainCrash in ret (false, None)
      else
        let! '(mfn, t, a', _) := on_p2m (ept_get_entry gfn) in
        do! (if negb (a' =? p2m_access_n2rwx) then promote gfn mfn t p2m_access_rwx else ret tt) in
        ret (true, None)
    else if inguest_pagefault_disabled && match np_kind f with npfec_kind_in_gpt => true | _ => false end then
      do! happens EmulateOneVmEvent in ret (true, None)
    else ret (negb (a =? p2m_access_n2rwx), if request_allocated then Some (request_for gpa gla f) else None).

(** ** The handlers *)

(** Emulate the access to a device. *)
Definition handle_mmio (gpa gla : Z) (f : npf) : M fault_state Z :=
  do! happens (HandleMmio gla (Z.shiftr gpa 12)) in
  do! (if negb (handle_mmio_with_translation gla (Z.shiftr gpa 12) f) then happens InjectGP else ret tt) in
  ret 1.

(** The lookup; a page with an error crashes the domain. *)
Definition get_gfn_type_access (gfn : Z) : M fault_state (Z * Z * Z * Z) :=
  let! '(mfn, t, a, page_order) := on_p2m (ept_get_entry gfn) in
  if p2m_is_broken t then do! happens DomainCrash in ret (INVALID_MFN, t, a, page_order)
  else ret (mfn, t, a, page_order).

(** From the checks of the type to [out_put_gfn]. *)
Definition fault_by_type (gpa gla mfn t : Z) (f : npf) (fall_through : bool) : M fault_state Z :=
  let gfn := Z.shiftr gpa 12 in
  if (t =? p2m_mmio_dm) || (write_access f && (p2m_is_discard_write t || (t =? p2m_ioreq_server)))
  then handle_mmio gpa gla f
  else if p2m_is_ram t then
    do! (if write_access f then
           do! happens (MarkDirty gfn) in
           do! on_p2m (p2m_change_type_one gfn p2m_ram_logdirty p2m_ram_rw) in
           ret tt
         else ret tt) in
    ret 1
  else if (t =? p2m_mmio_direct) && is_hardware_domain && write_access f && np_present f then
    do! happens (EmulateOneMmio mfn gla) in
    ret (if hvm_emulate_one_mmio mfn gla then 1 else Z.b2z fall_through)
  else ret (Z.b2z fall_through).

Definition hvm_hap_nested_page_fault (gpa gla : Z) (f : npf) : M fault_state Z :=
  let gfn := Z.shiftr gpa 12 in
  if hvm_mmio_internal gpa then handle_mmio gpa gla f
  else
    let! '(mfn, t, a, page_order) := get_gfn_type_access gfn in
    let found := negb (mfn =? INVALID_MFN) in
    let violation := found && access_violation a f in
    if found && (0 <? page_order) && insn_fetch f && np_present f && negb violation then
      let! res := on_p2m (p2m_set_entry gfn mfn PAGE_ORDER_4K t a) in
      ret (if res =? 0 then 1 else 0)
    else if violation && (a =? p2m_access_x) then
      do! happens InjectGP in ret 1
    else
      let! '(sync, req) := if violation then p2m_mem_access_check gpa gla f else ret (false, None) in
      let! rc := if violation && sync then ret 1 else fault_by_type gpa gla mfn t f violation in
      match req with
      | Some req =>
          do! happens (MonitorTraps sync req) in
          ret (if monitor_traps sync req <? 0 then 0 else rc)
      | None => ret rc
      end.

(** The violation [q] at [gpa]; [vmcs_gla] is the linear address that the
    processor recorded. *)
Definition ept_handle_violation (q : ept_qual) (gpa vmcs_gla : Z) : M fault_state unit :=
  let kind := if q_gla_valid q then if q_gla_fault q then npfec_kind_with_gla else npfec_kind_in_gpt
              else npfec_kind_unknown in
  let f := Npf (Npfec (q_read q || q_write q) (q_write q) (q_fetch q)) (q_eff_read q || q_eff_write q || q_eff_exec q)
             (q_gla_valid q) kind in
  let gla := if q_gla_valid q then vmcs_gla else 2 ^ 64 - 1 in
  let! rc := hvm_hap_nested_page_fault gpa gla f in
  if rc =? 1 then ret tt else happens DomainCrash.
End fault.
