(* ===== verification/EptFaultSpec.v ===== *)
(** * The handlers of violations keep pages sealed

    No path of the handlers takes a page that may only be executed out of this
    state, and the page that is split so that code can be fetched from it can
    be executed afterwards; ranges of frames that [p2m_set_entry] maps. *)

From S2P Require Import Prelude RbTree RbSpec RbHeap PageInfo XomDomain XomSeal P2mTypes XomGuest MemType Ept EptSpec EptOps EptResolve EptWalk EptEntry EptP2m EptHardware EptMisconfig EptFault.

(** ** Effects *)

Lemma wp_on_p2m {A} (m : M ept_p2m A) (Q : A -> fault_state -> Prop) st :
  wp m (fun a s => Q a (FaultState s (fs_events st))) (fs_p2m st) -> wp (on_p2m m) Q st.
Proof. intros (a & s & Hrun & HQ). exists a, (FaultState s (fs_events st)). unfold on_p2m. by rewrite Hrun. Qed.

Lemma wp_happens ev (Q : unit -> fault_state -> Prop) st :
  Q tt (FaultState (fs_p2m st) (fs_events st ++ [ev])) -> wp (happens ev) Q st.
Proof. intros HQ. by apply wp_modify. Qed.

Section kept.
Context `{EptEnv, !EptLaws, FaultEnv}.

(** Every frame stays where it is, and pages that may only be executed stay as
    they are. *)
Definition kept (s s' : ept_p2m) : Prop :=
  ept_inv s' /\ forall g, (ept_lookup s' g).1.1 = (ept_lookup s g).1.1 /\
    ((ept_lookup s g).2 = p2m_access_x -> ept_lookup s' g = ept_lookup s g).

Lemma kept_refl s : ept_inv s -> kept s s.
Proof. done. Qed.

Lemma kept_trans s1 s2 s3 : kept s1 s2 -> kept s2 s3 -> kept s1 s3.
Proof.
  intros [_ H12] [Hinv H23]. split; [done|]. intros g. destruct (H12 g) as [Hm Hx], (H23 g) as [Hm' Hx'].
  split; [congruence|]. intros Ha. rewrite Hx'; [by apply Hx|]. by rewrite Hx.
Qed.

(** ** Lookups *)

Lemma get_entry_lookup s g : ept_inv s -> 0 <= g ->
  wp (ept_get_entry g) (fun '(mfn, t, a, order) s' => s' = s /\ ept_lookup s g = (mfn, t, a) /\ p2m_is_broken t = false /\
    forall T, rep T s -> mfn <> INVALID_MFN -> order = Z.of_nat (tleaf wl T g).1 * EPT_TABLE_ORDER) s.
Proof.
  intros (T & Hrep & Hmax & Hhole) Hg. assert (forall T', rep T' s -> wp (ept_get_entry g) (fun '(mfn, t, a, order) s' => s' = s /\
    (mfn, t, a) = (if pt_max s <? g then hole else tview wl T' g).1 /\
    (mfn <> INVALID_MFN -> order = Z.of_nat (tleaf wl T' g).1 * EPT_TABLE_ORDER)) s) as Hget.
  { intros T' Hrep'. apply ept_get_entry_spec; [done|done|lia]. }
  destruct (Hget T Hrep) as ([[[mfn t] a] order] & s' & Hrun & -> & Hv & _). exists (mfn, t, a, order), s.
  assert (p2m_is_broken t = false) as Hb.
  { destruct (pt_max s <? g); [by injection Hv as _ -> _|].
    destruct (tview_cases T g (proj1 Hrep)) as [Hh|(? & ? & ? & ? & Hh & Hrest)]; rewrite Hh in Hv; injection Hv as -> -> ->;
      [done|apply Hrest]. }
  split_and!; [done|done| |done|].
  - unfold ept_lookup. rewrite (proj2 (Z.leb_le 0 g) Hg). unfold p2m_get_gfn_type_access, bind. rewrite Hrun. unfold ret. by rewrite Hb.
  - intros T' Hrep'. pose proof (wp_run _ _ _ _ _ (Hget T' Hrep') Hrun) as (_ & _ & Ho). exact Ho.
Qed.

(** A frame that is not mapped has no rights; one that is mapped is backed. *)
Lemma lookup_cases s g mfn t a : ept_inv s -> ept_lookup s g = (mfn, t, a) ->
  (mfn, t, a) = hole.1 \/
  (0 <= g < GFN_LIMIT /\ 0 <= mfn < 2 ^ 40 /\ 0 <= t < 64 /\ t <> p2m_invalid /\ mfn_valid mfn || p2m_allows_invalid_mfn t = true).
Proof.
  intros (T & Hrep & Hmax & Hhole). rewrite (ept_lookup_view s T g Hrep Hmax Hhole). destruct (_ && _) eqn:Hr; [|by left].
  destruct (tview_cases T g (proj1 Hrep)) as [Hh|(m & ty & a1 & b & Hh & Hrest)]; rewrite Hh; [by left|].
  intros [= <- <- <-]. right. split_and!; (lia || apply Hrest).
Qed.

(** ** Changes *)

(** Setting the right of a frame that can be read or written. *)
Lemma set_right_kept s g mfn t a0 a : ept_inv s -> 0 <= g -> ept_lookup s g = (mfn, t, a0) -> 0 < a < 16 ->
  (a0 = p2m_access_x -> a = p2m_access_x) ->
  wp (ept_set_entry g mfn 0 t a (-1)) (fun _ s' => kept s s' /\ (a <> p2m_access_x -> (ept_lookup s' g).2 <> p2m_access_x)) s.
Proof.
  intros Hinv Hg Hl Ha Hx. eapply wp_mono; [by apply (ept_change_right s g mfn t a0 a)|].
  intros rc s' [Hinv' [[_ Heq]|(_ & Hnew & Heq)]].
  - split; [split; [done|]; intros g'; by rewrite Heq|]. rewrite Heq, Hl. cbn. auto.
  - split; [split; [done|]|].
    + intros g'. destruct (decide (g' = g)) as [->|Hne]; [|by rewrite Heq]. rewrite Hnew, Hl.
      destruct (mfn =? INVALID_MFN); cbn; [done|]. split; [done|]. intros Ha0. by rewrite Ha0, Hx.
    + rewrite Hnew. destruct (mfn =? INVALID_MFN); cbn; auto.
Qed.

(** A single frame is one round of the loop. *)
Lemma p2m_set_entry_4k g mfn t a (Q : Z -> ept_p2m -> Prop) s :
  wp (ept_set_entry g mfn 0 t a (-1)) Q s -> wp (p2m_set_entry g mfn PAGE_ORDER_4K t a) Q s.
Proof.
  intros Hw. unfold p2m_set_entry. change (Z.shiftl 1 PAGE_ORDER_4K) with 1. change (Z.to_nat 1) with 1%nat. cbn [set_range Z.eqb].
  assert (entry_order g mfn 1 = PAGE_ORDER_4K) as ->.
  { unfold entry_order. set (fn := if negb _ then mfn else 0).
    assert (forall n, 0 < n -> (Z.land (Z.lor (Z.lor fn g) 1) (Z.shiftl 1 n - 1) =? 0) = false) as Hodd.
    { intros n Hn. apply Z.eqb_neq. intros Hz. assert (Z.testbit (Z.land (Z.lor (Z.lor fn g) 1) (Z.shiftl 1 n - 1)) 0 = true) as Hb; [|by rewrite Hz in Hb].
      rewrite Z.shiftl_1_l. replace (2 ^ n - 1) with (Z.ones n) by (rewrite Z.ones_equiv; lia).
      rewrite Z.land_spec, Z.ones_spec_low, Z.lor_spec by lia. by rewrite orb_true_r. }
    by rewrite !Hodd. }
  apply wp_bind. eapply wp_mono; [exact Hw|]. intros rc s' HQ. change (1 - Z.shiftl 1 PAGE_ORDER_4K) with 0. cbn [Z.eqb].
  apply wp_ret. destruct (Z.eqb_spec rc 0) as [->|]; done.
Qed.

(** A single frame of memory that is mapped anew, with another type. *)
Lemma set_ram_kept s g mfn t a0 a : ept_inv s -> 0 <= g -> ept_lookup s g = (mfn, t, a0) -> plain t = true ->
  p2m_allows_invalid_mfn t = false -> 0 < a < 16 -> a0 <> p2m_access_x ->
  wp (ept_set_entry g mfn 0 p2m_ram_rw a (-1)) (fun _ s' => kept s s') s.
Proof.
  intros Hinv Hg Hl Hp Hb Ha Hx. assert (settable 0 mfn p2m_ram_rw a) as Hst.
  { split; [done|lia| |done]. intros Hv. cbn in Hv. rewrite orb_false_r in Hv. pose proof (mfn_valid_range _ Hv).
    unfold stored. rewrite Z.mod_small by lia. change (span 0) with 1. split_and!; [lia|apply Z.mod_1_r|]. intros j Hj.
    replace j with 0 by lia. by rewrite Z.add_0_r, Hv. }
  eapply wp_mono; [apply (ept_map_spec s g mfn 0 p2m_ram_rw a (-1) Hinv Hg); [by right; right|done|lia|done|by rewrite Hl]|].
  intros rc s' (Hinv' & _ & [[_ Heq]|(_ & _ & Heq & _)]); (split; [done|]); intros g'; rewrite Heq; [done|].
  change (span 0) with 1. destruct ((g <=? g') && (g' <? g + 1)) eqn:Hr; [|done]. assert (g' = g) as -> by lia. rewrite Hl. cbn [fst snd].
  split; [|done]. destruct (lookup_cases s g mfn t a0 Hinv Hl) as [[= -> _ _]|(_ & Hm & _ & _ & Hv)].
  - by destruct (_ && _) eqn:E; [|done]; cbn in E; rewrite !orb_false_r, andb_true_r in E; apply mfn_valid_range in E; unfold INVALID_MFN in E; lia.
  - rewrite Hb, orb_false_r in Hv. rewrite Hv. cbn. unfold stored. rewrite Z.mod_small by lia. lia.
Qed.

Lemma change_type_one_kept g s : ept_inv s -> 0 <= g -> 0 < default_access < 16 -> (ept_lookup s g).2 <> p2m_access_x ->
  wp (p2m_change_type_one g p2m_ram_logdirty p2m_ram_rw) (fun _ s' => kept s s') s.
Proof.
  intros Hinv Hg Hd Hx. apply wp_bind. eapply wp_mono; [by apply get_entry_lookup|].
  intros [[[mfn t] a] order] s' (-> & Hl & _ & _). destruct (Z.eqb_spec t p2m_ram_logdirty) as [->|]; [|by apply wp_ret].
  apply p2m_set_entry_4k. rewrite Hl in Hx. by eapply set_ram_kept.
Qed.

(** ** The handlers *)

Section frame.
Context (g : Z) (Hg : 0 <= g).

(** The pages stay sealed, and [g] is not one of them. *)
Definition open_kept (st st' : fault_state) : Prop :=
  kept (fs_p2m st) (fs_p2m st') /\ (ept_lookup (fs_p2m st') g).2 <> p2m_access_x.

Lemma open_refl st : ept_inv (fs_p2m st) -> (ept_lookup (fs_p2m st) g).2 <> p2m_access_x -> open_kept st st.
Proof. by split. Qed.

Lemma open_trans st1 st2 st3 : open_kept st1 st2 -> open_kept st2 st3 -> open_kept st1 st3.
Proof. intros [? _] [? ?]. split; [by eapply kept_trans|done]. Qed.

Lemma open_inv st st' : open_kept st st' -> ept_inv (fs_p2m st') /\ (ept_lookup (fs_p2m st') g).2 <> p2m_access_x.
Proof. intros [[? _] ?]. done. Qed.

(** The rights of [g] are extended. *)
Lemma promote_open st mfn t a0 a : ept_inv (fs_p2m st) -> ept_lookup (fs_p2m st) g = (mfn, t, a0) -> a0 <> p2m_access_x ->
  0 < a < 16 -> a <> p2m_access_x ->
  wp (promote g mfn t a) (fun _ st' => open_kept st st') st.
Proof.
  intros Hinv Hl Hx Ha Hax. apply wp_bind, wp_on_p2m. eapply wp_mono; [by apply (set_right_kept _ g mfn t a0 a)|].
  intros rc s' [Hk Ho]. destruct (rc =? 0); [apply wp_ret|apply wp_happens]; (split; [done|by apply Ho]).
Qed.

Lemma mem_access_check_open gpa gla f st : Z.shiftr gpa 12 = g -> ept_inv (fs_p2m st) ->
  (ept_lookup (fs_p2m st) g).2 <> p2m_access_x ->
  wp (p2m_mem_access_check gpa gla f) (fun _ st' => open_kept st st') st.
Proof.
  intros Hgpa Hinv Hx. unfold p2m_mem_access_check. rewrite Hgpa. apply wp_bind, wp_on_p2m.
  eapply wp_mono; [by apply get_entry_lookup|]. intros [[[mfn t] a] order] s' (-> & Hl & _ & _). rewrite Hl in Hx. cbn in Hx.
  replace (FaultState (fs_p2m st) (fs_events st)) with st by (by destruct st). destruct (write_access f && (a =? p2m_access_rx2rw)).
  { apply wp_bind. eapply wp_mono; [by eapply promote_open|]. intros ? st' Ho. by apply wp_ret. }
  apply wp_bind. eapply wp_mono with (P := fun _ st' => open_kept st st').
  { destruct (a =? p2m_access_n2rwx); [by eapply promote_open|]. apply wp_ret, open_refl; [done|by rewrite Hl]. }
  intros _ st1 Ho1. destruct (open_inv _ _ Ho1) as [Hinv1 Hx1]. destruct vm_event_listener; cbn [negb].
  - destruct (inguest_pagefault_disabled && _); [apply wp_bind, wp_happens, wp_ret|apply wp_ret]; exact Ho1.
  - destruct access_required; [apply wp_bind, wp_happens, wp_ret; exact Ho1|].
    apply wp_bind, wp_on_p2m. eapply wp_mono; [by apply get_entry_lookup|]. intros [[[mfn' t'] a'] order'] s' (-> & Hl' & _ & _).
    rewrite Hl' in Hx1. replace (FaultState (fs_p2m st1) (fs_events st1)) with st1 by (by destruct st1).
    apply wp_bind. eapply wp_mono with (P := fun _ st' => open_kept st st'); [|intros; by apply wp_ret].
    destruct (a' =? p2m_access_n2rwx); [by apply wp_ret|]. eapply wp_mono; [by eapply promote_open|].
    intros ? st' Ho. by eapply open_trans.
Qed.

Lemma handle_mmio_kept gpa gla f (Q : Z -> fault_state -> Prop) st :
  (forall evs, Q 1 (FaultState (fs_p2m st) evs)) -> wp (handle_mmio gpa gla f) Q st.
Proof.
  intros HQ. apply wp_bind, wp_happens, wp_bind. destruct (negb _); [apply wp_happens|apply wp_ret]; apply wp_ret, HQ.
Qed.

Lemma fault_by_type_kept gpa gla mfn t (f : npf) fall_through st : Z.shiftr gpa 12 = g -> ept_inv (fs_p2m st) ->
  0 < default_access < 16 -> (write_access f = true -> (ept_lookup (fs_p2m st) g).2 <> p2m_access_x) ->
  wp (fault_by_type gpa gla mfn t f fall_through) (fun _ st' => kept (fs_p2m st) (fs_p2m st')) st.
Proof.
  intros Hgpa Hinv Hd Hx. unfold fault_by_type. rewrite Hgpa.
  destruct (_ || _); [by apply handle_mmio_kept; intros|]. destruct (p2m_is_ram t).
  - apply wp_bind. destruct (write_access f); [|by apply wp_ret, wp_ret]. apply wp_bind, wp_happens, wp_bind, wp_on_p2m.
    eapply wp_mono; [by apply change_type_one_kept; [| | |apply Hx]|]. intros rc s' Hk. by apply wp_ret, wp_ret.
  - destruct (_ && np_present f); [apply wp_bind, wp_happens|]; by apply wp_ret.
Qed.

(** What an access that is no violation does not need. *)
Lemma no_violation_write a f : access_violation a f = false -> write_access f = true -> a <> p2m_access_x.
Proof. intros Hv Hw ->. cbn in Hv. by rewrite Hw, orb_true_r in Hv. Qed.

Lemma no_violation_fetch a f : 0 <= a -> access_violation a f = false -> insn_fetch f = true -> 0 < a < p2m_access_n2rwx.
Proof.
  intros Ha Hv Hf. destruct (decide (0 < a < p2m_access_n2rwx)) as [|Hn]; [done|]. exfalso.
  assert (forall k, 0 < k < p2m_access_n2rwx -> (a =? k) = false) as Hk by (intros k Hk; apply Z.eqb_neq; lia).
  unfold access_violation in Hv. rewrite !Hk in Hv by done. by rewrite Hf, !orb_true_r in Hv.
Qed.

(** No path of the handler unseals a page. *)
Lemma nested_page_fault_kept gpa gla f st : Z.shiftr gpa 12 = g -> ept_inv (fs_p2m st) -> 0 < default_access < 16 ->
  wp (hvm_hap_nested_page_fault gpa gla f) (fun _ st' => kept (fs_p2m st) (fs_p2m st')) st.
Proof.
  intros Hgpa Hinv Hd. unfold hvm_hap_nested_page_fault. rewrite Hgpa.
  destruct (hvm_mmio_internal gpa); [by apply handle_mmio_kept; intros|].
  apply wp_bind, wp_bind, wp_on_p2m. eapply wp_mono; [by apply get_entry_lookup|].
  intros [[[mfn t] a] order] s' (-> & Hl & -> & _). apply wp_ret.
  replace (FaultState (fs_p2m st) (fs_events st)) with st by (by destruct st).
  pose proof (lookup_access_pos _ _ _ _ _ Hinv Hl) as Ha.
  assert (access_violation a f = false \/ mfn = INVALID_MFN -> write_access f = true -> (ept_lookup (fs_p2m st) g).2 <> p2m_access_x) as Hopen.
  { rewrite Hl. intros [Hv| ->] Hw; [by eapply no_violation_write|]. destruct (lookup_cases _ _ _ _ _ Hinv Hl) as [[= _ ->]|(_ & Hm & _)]; [done|].
    unfold INVALID_MFN in Hm. lia. }
  set (found := negb (mfn =? INVALID_MFN)). destruct (found && (0 <? order) && insn_fetch f && np_present f && negb (found && access_violation a f)) eqn:Hshatter.
  { apply andb_prop in Hshatter as [[[[-> _]%andb_prop Hf]%andb_prop _]%andb_prop Hv]. cbn [andb] in Hv. apply negb_true_iff in Hv.
    apply wp_bind, wp_on_p2m, p2m_set_entry_4k. eapply wp_mono; [apply (set_right_kept _ g mfn t a a); [done|done|done| |done]|].
    - pose proof (no_violation_fetch a f) as Hr. unfold p2m_access_n2rwx in Hr. split; [|lia]. by apply Hr; [lia|..].
    - intros rc s' [Hk _]. by apply wp_ret. }
  destruct (found && access_violation a f) eqn:Hviol; cbn [andb].
  - destruct (Z.eqb_spec a p2m_access_x) as [->|Hx]; [by apply wp_bind, wp_happens, wp_ret|].
    apply wp_bind. eapply wp_mono; [apply mem_access_check_open; [done|done|by rewrite Hl]|]. intros [sync req] st1 Ho.
    destruct (open_inv _ _ Ho) as [Hinv1 Hx1]. apply wp_bind. eapply wp_mono with (P := fun _ st' => kept (fs_p2m st) (fs_p2m st')).
    { destruct sync; [by apply wp_ret, Ho|]. eapply wp_mono; [by apply fault_by_type_kept|]. intros rc st' Hk.
      eapply kept_trans; [apply Ho|done]. }
    intros rc st' Hk. destruct req; [apply wp_bind, wp_happens|]; by apply wp_ret.
  - apply wp_bind, wp_ret, wp_bind. eapply wp_mono; [apply fault_by_type_kept; [done|done|done|]|].
    { apply Hopen. unfold found in Hviol. destruct (Z.eqb_spec mfn INVALID_MFN); [by right|by left]. }
    intros rc st' Hk. by apply wp_ret.
Qed.

(** An access that a sealed page does not permit ends in the guest. *)
Lemma sealed_violation gpa gla (f : npf) st : Z.shiftr gpa 12 = g -> ept_inv (fs_p2m st) -> hvm_mmio_internal gpa = false ->
  (ept_lookup (fs_p2m st) g).2 = p2m_access_x -> access_violation p2m_access_x f = true ->
  wp (hvm_hap_nested_page_fault gpa gla f) (fun rc st' => rc = 1 /\ st' = FaultState (fs_p2m st) (fs_events st ++ [InjectGP])) st.
Proof.
  intros Hgpa Hinv Hio Hx Hv. unfold hvm_hap_nested_page_fault. rewrite Hgpa, Hio.
  apply wp_bind, wp_bind, wp_on_p2m. eapply wp_mono; [by apply get_entry_lookup|].
  intros [[[mfn t] a] order] s' (-> & Hl & -> & _). apply wp_ret. rewrite Hl in Hx. cbn in Hx. subst a.
  assert (negb (mfn =? INVALID_MFN) = true) as ->.
  { destruct (lookup_cases _ _ _ _ _ Hinv Hl) as [|(_ & Hm & _)]; [done|]. by rewrite eqb_neq_false by (unfold INVALID_MFN; lia). }
  rewrite Hv. cbn [andb negb]. rewrite andb_false_r. cbn [Z.eqb]. by apply wp_bind, wp_happens, wp_ret.
Qed.
End frame.

(** ** Splitting a page that code is fetched from *)

(** The processor's view of a single frame of memory that was just set. *)
Lemma small_page_hw exec_only T s s' g mfn a : rep T s -> 0 <= g < GFN_LIMIT -> pending wl T g = false ->
  mfn_valid mfn = true -> settable 0 mfn p2m_ram_rw a -> hw_supports exec_only a = true ->
  set_post T g 0 p2m_ram_rw 0 (new_entry g mfn 0 p2m_ram_rw a) s s' ->
  let '(r, w, x) := access_rwx a (true, true, true) in
  x = true -> hw_translate exec_only s' g = Some (HwPage mfn r w x).
Proof.
  intros Hrep Hg Hp Hv Hst Hsup (Hroot & _ & T' & b & HT' & HmT & Hh' & Hcalm & Hleaf & _).
  assert (rep T' s') as Hrep' by (split_and!; [done|destruct Hrep as (_ & ? & _); congruence|done]).
  pose proof Hst as [(Ht & _) Ha _ _]. pose proof (mfn_valid_range _ Hv) as Hm.
  destruct (new_entry_fields g mfn 0 p2m_ram_rw a Ht Ha) as (Hf & Htt & Haa & Hs & _ & _ & _ & Hrw); [by rewrite Hv|].
  assert (e_emt (new_entry g mfn 0 p2m_ram_rw a) <> MTRR_NUM_TYPES) as Hemt.
  { unfold new_entry. rewrite Hv. cbn [orb]. pose proof (emt_type g mfn (Z.of_nat 0 * EPT_TABLE_ORDER) p2m_ram_rw) as Hty.
    destruct (epte_get_entry_emt _ _ _ _) as [emt ipat]. destruct Hty as [Hmt|[_ ?]]; [change GFN_LIMIT with (2 ^ 36) in Hg; lia| |done].
    cbn [fst] in Hmt. pose proof (mem_type_range _ Hmt). destruct (flagged_spec (set_mfn mfn (set_snp iommu_snooping (set_access a (set_p2mt p2m_ram_rw
      (set_sp (negb (0 =? 0)%nat) (set_ipat ipat (set_emt (if 0 <=? emt then emt else MTRR_NUM_TYPES) empty_entry)))))))) as [(?&?&?&?&?& ->) _].
    cbn. rewrite (proj2 (Z.leb_le 0 emt)) by lia. change (2 ^ 3) with 8. rewrite emt_mod by (by left). unfold MTRR_NUM_TYPES. lia. }
  set (e := new_entry g mfn 0 p2m_ram_rw a) in *. rewrite (proj2 (flagged_spec e)), Hf, Htt, Haa, Hs in Hrw.
  assert (pending_entry (set_sve b e) = false) as Hpe by (by apply not_pending).
  destruct (hw_translate_leaf exec_only T' s' g Hrep') as (res & -> & Hag). rewrite Hleaf, (Hcalm Hpe Hp) in Hag. cbn [fst snd] in Hag.
  pose proof (supported_rights exec_only p2m_ram_rw a false (mmio_ro (stored mfn)) Hsup) as Hno.
  change (type_rwx p2m_ram_rw _ _) with (true, true, true) in Hno, Hrw. cbn [negb Nat.eqb] in Hrw.
  destruct (access_rwx a (true, true, true)) as [[r w] x]. cbn [super_rwx] in Hno, Hrw. rewrite andb_false_r, andb_true_r in Hno, Hrw. intros ->.
  assert (is_epte_present (set_sve b e) = true) as Hpr.
  { rewrite present_rwx. change (any (rwx e) = true). rewrite Hrw. cbn. by rewrite !orb_true_r. }
  assert (hw_unsupported exec_only (set_sve b e) = false) as Hun.
  { unfold rwx in Hrw. injection Hrw as Er Ew Ex. unfold hw_unsupported. cbn [set_sve e_r e_w e_x]. by rewrite Er, Ew, Ex. }
  destruct Hag as [_ Hag]. destruct res as [| |m' r' w' x']; [congruence|by destruct Hag as [|[_ ?]]; [|congruence]|].
  destruct Hag as (_ & -> & Hr). change (rwx (set_sve b e)) with (rwx e) in Hr. rewrite Hrw in Hr. injection Hr as -> -> ->.
  change (e_mfn (set_sve b e)) with (e_mfn e). rewrite Hf. unfold stored. rewrite Z.mod_small by lia. change (span 0) with 1.
  by rewrite Z.mod_1_r, Z.add_0_r.
Qed.

Lemma hw_page_any exec_only s g m r w x : ept_inv s -> hw_translate exec_only s g = Some (HwPage m r w x) -> r || w || x = true.
Proof.
  intros (T & Hrep & _) Hhw. destruct (hw_translate_leaf exec_only T s g Hrep) as (res & Hres & _ & Hag). rewrite Hhw in Hres. simplify_eq.
  destruct Hag as (Hp & _ & Hr). rewrite present_rwx, <- Hr in Hp. exact Hp.
Qed.

(** The rights of a frame of memory without those of superpages. *)
Lemma page_rights exec_only T s g mfn a m r w x : rep T s -> (tview wl T g).1 = (mfn, p2m_ram_rw, a) ->
  hw_translate exec_only s g = Some (HwPage m r w x) ->
  pending wl T g = false /\ is_epte_present (tleaf wl T g).2 = true /\ ((tleaf wl T g).1 < wl)%nat /\
  let '(r0, w0, x0) := access_rwx a (true, true, true) in
  r = r0 /\ w = w0 /\ x = x0 && negb (negb exec_sp && negb ((tleaf wl T g).1 =? 0)%nat).
Proof.
  intros Hrep Hl Hhw. destruct (hw_translate_leaf exec_only T s g Hrep) as (res & Hres & Hpend & Hag). rewrite Hhw in Hres. simplify_eq.
  destruct Hag as (Hp & _ & Hr).
  split; [by destruct (pending wl T g); [specialize (Hpend eq_refl)|]|]. split; [done|].
  pose proof (tleaf_ok wl T g (proj1 Hrep)) as Hok. destruct (tleaf wl T g) as [i e] eqn:Ht. cbn [fst snd] in *.
  split.
  { pose proof (lo_level _ _ Hok) as Hlv. rewrite (lo_super _ _ Hok), Hp in Hlv. destruct i; [unfold wl; lia|by apply Hlv]. }
  rewrite (leaf_page T s g i e Hrep Ht Hp) in Hl. cbn [fst] in Hl. injection Hl as _ Hty Hac.
  unfold rwx in Hr. rewrite (lo_rights _ _ Hok), (proj2 (flagged_spec e)), Hty, Hac, (lo_super _ _ Hok), Hp in Hr.
  change (type_rwx p2m_ram_rw _ _) with (true, true, true) in Hr. destruct (access_rwx a (true, true, true)) as [[r0 w0] x0].
  cbn [super_rwx] in Hr. injection Hr as -> -> ->. by rewrite andb_true_r.
Qed.

(** The tables that the pages of the largest superpage take. *)
Definition SHATTER_TABLES : nat := split_tables 2 0.

Lemma shatter_tables i : (i < wl)%nat -> (split_tables i 0 <= SHATTER_TABLES)%nat.
Proof. unfold wl. intros Hi. destruct i as [|[|[|i]]]; [apply Nat.leb_le; vm_compute; reflexivity..|lia]. Qed.

(** The handler splits the superpage, and the page can be executed then. *)
Lemma fetch_fault_spec exec_only gpa gla gv kind st mfn a m r w :
  let g := Z.shiftr gpa 12 in
  ept_inv (fs_p2m st) -> 0 <= g < GFN_LIMIT -> hvm_mmio_internal gpa = false -> ept_lookup (fs_p2m st) g = (mfn, p2m_ram_rw, a) ->
  hw_supports exec_only a = true -> access_violation a (Npfec false false true) = false ->
  hw_translate exec_only (fs_p2m st) g = Some (HwPage m r w false) ->
  wp (hvm_hap_nested_page_fault gpa gla (Npf (Npfec false false true) true gv kind)) (fun rc st' =>
    ept_inv (fs_p2m st') /\ (forall g', ept_lookup (fs_p2m st') g' = ept_lookup (fs_p2m st) g') /\ fs_events st' = fs_events st /\
    ((rc = 0 /\ exhausted SHATTER_TABLES (fs_p2m st)) \/ (rc = 1 /\ hw_translate exec_only (fs_p2m st') g = Some (HwPage mfn r w true)))) st.
Proof.
  intros g Hinv Hg Hio Hl Hsup Hv Hhw. pose proof Hinv as (T & Hrep & Hmax & Hhole).
  pose proof (lookup_access_pos _ _ _ _ _ Hinv Hl) as Ha0. assert (0 < a < p2m_access_n2rwx) as Ha9 by (by eapply no_violation_fetch; [lia|..]).
  assert (0 < a < 16) as Ha by lia.
  assert ((tview wl T g).1 = (mfn, p2m_ram_rw, a)) as Hview.
  { rewrite <- Hl, (ept_lookup_view _ T g Hrep Hmax Hhole). by assert ((0 <=? g) && (g <? GFN_LIMIT) = true) as -> by lia. }
  destruct (found_settable T g mfn p2m_ram_rw a a (proj1 Hrep) Hg Hview Ha) as [Hst Hun].
  destruct (page_rights exec_only T _ g mfn a m r w false Hrep Hview Hhw) as (Hpend & Hpr & Hlv & Hr).
  assert (mfn_valid mfn = true) as Hmv.
  { destruct (lookup_cases _ _ _ _ _ Hinv Hl) as [|(_ & _ & _ & _ & Hb)]; [done|]. cbn in Hb. by rewrite orb_false_r in Hb. }
  pose proof (mfn_valid_range _ Hmv) as Hm. unfold hvm_hap_nested_page_fault. fold g. rewrite Hio.
  apply wp_bind, wp_bind, wp_on_p2m. eapply wp_mono; [apply get_entry_lookup; [done|lia]|].
  intros [[[mfn' t'] a'] order] s' (-> & Hl' & -> & Hord). rewrite Hl in Hl'. injection Hl' as <- <- <-. apply wp_ret.
  assert (negb (mfn =? INVALID_MFN) = true) as Hfound by (rewrite eqb_neq_false; [done|unfold INVALID_MFN; lia]).
  pose proof (access_rwx_ram a (Npfec false false true)) as Hx. pose proof (small_page_hw exec_only T (fs_p2m st)) as Hnew.
  specialize (fun s' => Hnew s' g mfn a Hrep Hg Hpend Hmv Hst Hsup).
  destruct (access_rwx a (true, true, true)) as [[r0 w0] x0]. destruct Hr as (-> & -> & Hx0).
  assert (x0 = true) as ->.
  { rewrite Hv in Hx. cbn in Hx. apply Hx. lia. }
  assert ((tleaf wl T g).1 <> O) as Hne by (intros E; by rewrite E, andb_false_r in Hx0).
  assert ((0 <? order) = true) as -> by (rewrite (Hord T Hrep) by (unfold INVALID_MFN; lia); unfold EPT_TABLE_ORDER; lia).
  cbn [np_access insn_fetch np_present]. rewrite Hfound, Hv. cbn [andb negb]. apply wp_bind, wp_on_p2m, p2m_set_entry_4k.
  eapply wp_mono; [apply wp_and; [by apply (ept_change_right _ g mfn p2m_ram_rw a a Hinv); [lia|..]|]|].
  { apply (ept_set_entry_spec T g mfn 0 p2m_ram_rw a (-1)); [done|lia|by right; right|done|done|done]. }
  intros rc s' [[Hinv' Hsame] Hset]. apply wp_ret. cbn [fs_p2m]. split_and!; [done| |done|].
  - destruct Hsame as [[_ Heq]|(_ & Hnew' & Heq)]; [done|]. intros g'. destruct (decide (g' = g)) as [->|]; [|by apply Heq].
    rewrite Hnew', Hl. by destruct (mfn =? INVALID_MFN).
  - destruct Hset as [(Hneg & Hfail & _)|([->|[_ Hno]] & _ & _ & Hpost)];
      [left|right|by destruct (Hno eq_refl) as [Hi|[]]; [unfold INVALID_MFN in Hi; lia|]].
    + rewrite eqb_neq_false by lia. split; [done|]. eapply exhausted_le; [by apply shatter_tables|]. by apply (shatter_memory T _ g mfn _ Hrep Hg Hpend eq_refl Hne Hpr Hfail).
    + split; [done|]. by apply Hnew.
Qed.
End kept.

(** ** Ranges *)

Section range.
Context `{EptEnv, !EptLaws}.

(** The size that is chosen is one of the processor, and everything is aligned
    to it. *)
Lemma entry_order_spec g mfn todo : mfn <> INVALID_MFN ->
  exists l, entry_order g mfn todo = Z.of_nat l * EPT_TABLE_ORDER /\ page_size_ok l /\
    g mod span l = 0 /\ mfn mod span l = 0 /\ todo mod span l = 0.
Proof.
  intros Hm. unfold entry_order. rewrite (eqb_neq_false _ _ Hm). cbn [negb]. set (fn := Z.lor (Z.lor mfn g) todo).
  assert (forall l, Z.land fn (Z.shiftl 1 (Z.of_nat l * EPT_TABLE_ORDER) - 1) = 0 -> g mod span l = 0 /\ mfn mod span l = 0 /\ todo mod span l = 0) as Hal.
  { intros l Hl. split_and!.
    - eapply (set_entry_aligned l fn g (Z.lor mfn todo)); [done|left]. unfold fn. by rewrite (Z.lor_comm mfn), Z.lor_assoc.
    - eapply (set_entry_aligned l fn mfn (Z.lor g todo)); [done|left]. unfold fn. by rewrite Z.lor_assoc.
    - eapply (set_entry_aligned l fn todo (Z.lor mfn g)); [done|left]. apply Z.lor_comm. }
  destruct (Z.eqb_spec (Z.land fn (Z.shiftl 1 PAGE_ORDER_1G - 1)) 0) as [Hz|_]; [destruct hap_has_1gb eqn:H1|];
    [exists 2%nat; split_and!; [done|by left|by apply (Hal 2%nat)..]| |];
    (destruct (Z.eqb_spec (Z.land fn (Z.shiftl 1 PAGE_ORDER_2M - 1)) 0) as [Hz'|_]; [destruct hap_has_2mb eqn:H2|]);
    try (exists 1%nat; split_and!; [done|by right; left|by apply (Hal 1%nat)..]);
    (exists O; split_and!; [done|by right; right|apply Z.mod_1_r..]).
Qed.

Context (a : Z) (Ha : 0 < a < 16) (Hany : any (super_rwx true (access_rwx a (true, true, true))) = true).

Lemma ram_settable l mfn : mfn mod span l = 0 -> (forall j, 0 <= j < span l -> mfn_valid (mfn + j) = true) -> settable l mfn p2m_ram_rw a.
Proof.
  intros Hal Hv. pose proof (span_pos l) as Hs. assert (0 <= mfn /\ mfn + span l <= 2 ^ 40) as Hr.
  { pose proof (mfn_valid_range _ (Hv 0 ltac:(lia))). pose proof (mfn_valid_range _ (Hv (span l - 1) ltac:(lia))). lia. }
  assert (stored mfn = mfn) as Hst by (apply Z.mod_small; lia). split; [done|lia| |].
  - intros _. rewrite Hst. split_and!; [lia|done|]. intros j Hj. by rewrite Hv.
  - by intros _ _.
Qed.

(** What is mapped, given what was mapped before. *)
Definition mapped_to (g mfn n : Z) (s s' : ept_p2m) (complete : Prop) : Prop :=
  ept_inv s' /\
  (forall g', ept_lookup s' g' = ept_lookup s g' \/ (g <= g' < g + n /\ ept_lookup s' g' = (mfn + (g' - g), p2m_ram_rw, a))) /\
  (complete -> forall g', g <= g' < g + n -> ept_lookup s' g' = (mfn + (g' - g), p2m_ram_rw, a)).

Lemma mapped_none g mfn s (P : Prop) : ept_inv s -> mapped_to g mfn 0 s s P.
Proof. intros Hinv. split_and!; [done|by left|lia]. Qed.

(** One range after the other. *)
Lemma mapped_app g mfn n1 n2 s s1 s2 (P1 P2 : Prop) : 0 <= n1 -> 0 <= n2 -> mapped_to g mfn n1 s s1 P1 ->
  mapped_to (g + n1) (mfn + n1) n2 s1 s2 P2 -> mapped_to g mfn (n1 + n2) s s2 (P1 /\ P2).
Proof.
  intros Hn1 Hn2 (_ & Hold1 & Hnew1) (Hinv & Hold2 & Hnew2).
  assert (forall g', mfn + n1 + (g' - (g + n1)) = mfn + (g' - g)) as Hoff by lia. split_and!; [done| |].
  - intros g'. destruct (Hold2 g') as [->|[Hr ->]]; [|right; split; [lia|by rewrite Hoff]].
    destruct (Hold1 g') as [->|[Hr ->]]; [by left|right; split; [lia|done]].
  - intros [HP1 HP2] g' Hg'. destruct (decide (g' < g + n1)) as [Hlt|Hge].
    + destruct (Hold2 g') as [->|[Hr ->]]; [apply Hnew1; [done|lia]|by rewrite Hoff].
    + rewrite Hnew2 by (done || lia). by rewrite Hoff.
Qed.

Lemma mapped_weaken g mfn n s s' (P Q : Prop) : (Q -> P) -> mapped_to g mfn n s s' P -> mapped_to g mfn n s s' Q.
Proof. intros HQ (? & ? & ?). split_and!; auto. Qed.

(** One entry. *)
Lemma ept_map_range s g mfn l : ept_inv s -> 0 <= g -> page_size_ok l -> mfn mod span l = 0 ->
  (forall j, 0 <= j < span l -> mfn_valid (mfn + j) = true) -> plain (ept_lookup s g).1.2 = true ->
  wp (ept_set_entry g mfn (Z.of_nat l * EPT_TABLE_ORDER) p2m_ram_rw a (-1)) (fun rc s' => mapped_to g mfn (span l) s s' (rc = 0)) s.
Proof.
  intros Hinv Hg Hps Hal Hv Hp. eapply wp_mono; [apply ept_map_spec; [done|done|done|by apply ram_settable|lia|done|done]|].
  pose proof (span_pos l). assert (mfn_valid mfn = true) as Hmv by (rewrite <- (Z.add_0_r mfn); apply Hv; lia).
  assert (stored mfn = mfn) as Hst by (apply Z.mod_small; by apply mfn_valid_range).
  intros rc s' (Hinv' & _ & [[Hneg Heq]|(_ & _ & Heq & _)]); (split_and!; [done| |]).
  - intros g'. by left.
  - lia.
  - intros g'. rewrite Heq, Hmv, Hst. cbn [orb andb Z.eqb negb]. destruct ((g <=? g') && (g' <? g + span l)) eqn:Hr; [right; split; [lia|done]|by left].
  - intros _ g' Hg'. rewrite Heq, Hmv, Hst. cbn [orb andb Z.eqb negb]. by assert ((g <=? g') && (g' <? g + span l) = true) as -> by lia.
Qed.

Lemma set_range_spec fuel : forall g mfn todo rc s, ept_inv s -> 0 <= g -> 0 <= todo <= Z.of_nat fuel ->
  (forall j, 0 <= j < todo -> mfn_valid (mfn + j) = true) -> (forall g', g <= g' < g + todo -> plain (ept_lookup s g').1.2 = true) ->
  wp (set_range fuel g mfn todo p2m_ram_rw a rc) (fun rc' s' => mapped_to g mfn todo s s' (rc' = 0) /\ (rc' = 0 -> rc = 0)) s.
Proof.
  induction fuel as [|fuel IH]; intros g mfn todo rc s Hinv Hg Htodo Hv Hp; cbn [set_range]; destruct (Z.eqb_spec todo 0) as [->|Hne];
    [apply wp_ret; split; [by apply mapped_none|done]|lia|apply wp_ret; split; [by apply mapped_none|done]|].
  assert (mfn_valid mfn = true) as Hmv by (rewrite <- (Z.add_0_r mfn); apply Hv; lia). pose proof (mfn_valid_range _ Hmv).
  assert (mfn <> INVALID_MFN) as Hm by (unfold INVALID_MFN; lia).
  destruct (entry_order_spec g mfn todo Hm) as (l & -> & Hps & _ & Hal & Ht). rewrite shiftl_span, (eqb_neq_false _ _ Hm). cbn [negb].
  pose proof (span_pos l). assert (span l <= todo) as Hle.
  { apply Z.mod_divide in Ht; [|lia]. apply Z.divide_pos_le; [lia|done]. }
  apply wp_bind. eapply wp_mono; [apply ept_map_range; [done|done|done|done|intros j Hj; apply Hv; lia|apply Hp; lia]|].
  intros set_rc s1 Hm1. pose proof Hm1 as (Hinv1 & Hold1 & _). eapply wp_mono; [apply IH; [done|lia|lia| |]|].
  - intros j Hj. replace (mfn + span l + j) with (mfn + (span l + j)) by lia. apply Hv. lia.
  - intros g' Hg'. destruct (Hold1 g') as [->|[? _]]; [apply Hp; lia|lia].
  - intros rc' s2 [Hm2 Hrc]. replace todo with (span l + (todo - span l)) by lia. split.
    + eapply mapped_weaken; [|eapply mapped_app; [| |exact Hm1|exact Hm2]; lia]. intros ->. specialize (Hrc eq_refl).
      destruct (Z.eqb_spec set_rc 0); done.
    + intros ->. specialize (Hrc eq_refl). by destruct (Z.eqb_spec set_rc 0).
Qed.

Lemma p2m_set_entry_spec s g mfn order : ept_inv s -> 0 <= g -> 0 <= order ->
  (forall j, 0 <= j < 2 ^ order -> mfn_valid (mfn + j) = true) ->
  (forall g', g <= g' < g + 2 ^ order -> plain (ept_lookup s g').1.2 = true) ->
  wp (p2m_set_entry g mfn order p2m_ram_rw a) (fun rc s' => mapped_to g mfn (2 ^ order) s s' (rc = 0)) s.
Proof.
  intros Hinv Hg Ho Hv Hp. unfold p2m_set_entry. rewrite Z.shiftl_1_l. pose proof (Z.pow_pos_nonneg 2 order).
  eapply wp_mono; [apply set_range_spec; (done || lia)|]. by intros rc s' [? _].
Qed.
End range.
