(* ===== verification/EptFaultTheorems.v ===== *)
(** * Correctness of the handlers of violations

    Sealed pages stay sealed, code can be fetched from pages that may be
    executed, and ranges of frames are mapped; an example of each on the
    concrete tables. *)

From S2P Require Import Prelude RbTree RbSpec RbHeap PageInfo PageInfoSpec XomDomain XomSpec XomSeal XomToy P2mTypes XomGuest MemType Ept EptSpec EptOps EptResolve EptWalk EptEntry EptP2m EptHardware EptMisconfig EptToy EptFault EptFaultSpec.

Section theorems.
Context `{EptEnv, !EptLaws, FaultEnv}.

(** C6: whatever violation the processor reports, the handler returns; every
    guest frame keeps its machine frame and every page that may only be
    executed stays so; and an attempt to read or write such a page changes
    nothing and gives the guest a general protection fault, and nothing else. *)
Theorem violation_keeps_sealed q gpa gla st : ept_inv (fs_p2m st) -> 0 <= gpa -> 0 < default_access < 16 ->
  wp (ept_handle_violation q gpa gla) (fun _ st' => ept_inv (fs_p2m st') /\
    (forall g, (ept_lookup (fs_p2m st') g).1.1 = (ept_lookup (fs_p2m st) g).1.1 /\
       ((ept_lookup (fs_p2m st) g).2 = p2m_access_x -> ept_lookup (fs_p2m st') g = ept_lookup (fs_p2m st) g)) /\
    (hvm_mmio_internal gpa = false -> (ept_lookup (fs_p2m st) (Z.shiftr gpa 12)).2 = p2m_access_x -> (q_read q || q_write q) = true ->
       st' = FaultState (fs_p2m st) (fs_events st ++ [InjectGP]))) st.
Proof.
  intros Hinv Hgpa Hd. assert (0 <= Z.shiftr gpa 12) as Hg by (by apply Z.shiftr_nonneg).
  apply wp_bind. set (f := Npf _ _ _ _). set (gla' := if q_gla_valid q then _ else _).
  eapply wp_mono; [apply wp_and; [by apply (nested_page_fault_kept (Z.shiftr gpa 12))|]|].
  - apply (wp_when (hvm_mmio_internal gpa = false /\ (ept_lookup (fs_p2m st) (Z.shiftr gpa 12)).2 = p2m_access_x /\ (q_read q || q_write q) = true)
      _ (fun rc st' => rc = 1 /\ st' = FaultState (fs_p2m st) (fs_events st ++ [InjectGP]))).
    + eapply wp_mono; [by apply (nested_page_fault_kept (Z.shiftr gpa 12))|done].
    + intros (Hio & Hx & Hq). apply (sealed_violation (Z.shiftr gpa 12)); try done. cbn. by rewrite Hq.
  - intros rc st' [[Hinv' Hk] Hgp]. destruct (Z.eqb_spec rc 1) as [->|Hrc]; [apply wp_ret|apply wp_happens];
      (split_and!; [done|done|]); intros Hio Hx Hq; destruct Hgp as [? ->]; done.
Qed.

(** C20: code can be fetched from a superpage that may be executed although
    superpages cannot be executed on this processor: with memory for the tables
    of its pages, the handler of the violation returns without any other
    effect, all mappings are as before, and the processor's next walk for the
    frame permits the fetch. *)
Theorem fetch_progress exec_only gpa gla gv gf st mfn a m r w :
  ept_inv (fs_p2m st) -> 0 <= gpa < GFN_LIMIT * PAGE_SIZE -> hvm_mmio_internal gpa = false ->
  ept_lookup (fs_p2m st) (Z.shiftr gpa 12) = (mfn, p2m_ram_rw, a) -> hw_supports exec_only a = true ->
  access_violation a (Npfec false false true) = false -> ~ exhausted SHATTER_TABLES (fs_p2m st) ->
  hw_translate exec_only (fs_p2m st) (Z.shiftr gpa 12) = Some (HwPage m r w false) ->
  wp (ept_handle_violation (EptQual false false true r w false gv gf) gpa gla) (fun _ st' =>
    hw_translate exec_only (fs_p2m st') (Z.shiftr gpa 12) = Some (HwPage mfn r w true) /\
    ept_inv (fs_p2m st') /\ (forall g, ept_lookup (fs_p2m st') g = ept_lookup (fs_p2m st) g) /\ fs_events st' = fs_events st) st.
Proof.
  intros Hinv Hgpa Hio Hl Hsup Hv Hmem Hhw. apply frame_limit in Hgpa as Hg. apply wp_bind. cbn [q_read q_write q_fetch orb].
  pose proof (hw_page_any exec_only _ _ _ _ _ _ Hinv Hhw) as Hany. cbn [q_eff_read q_eff_write q_eff_exec]. rewrite Hany.
  eapply wp_mono; [by eapply fetch_fault_spec|]. intros rc st' (Hinv' & Hsame & Hev & [[_ ?]|[-> Hhw']]); [done|].
  apply wp_ret. by split_and!.
Qed.

(** C22: [p2m_set_entry] maps a range of memory: it returns whatever sizes it
    chooses for the entries, no frame outside the range changes, each frame of
    the range is mapped as it was or to its frame of the memory with the given
    right, and when 0 is returned all of them are. *)
Theorem p2m_set_entry_correct s g mfn order a : ept_inv s -> 0 <= g -> 0 <= order -> 0 < a < 16 ->
  any (super_rwx true (access_rwx a (true, true, true))) = true ->
  (forall j, 0 <= j < 2 ^ order -> mfn_valid (mfn + j) = true) ->
  (forall g', g <= g' < g + 2 ^ order -> plain (ept_lookup s g').1.2 = true) ->
  wp (p2m_set_entry g mfn order p2m_ram_rw a) (fun rc s' => ept_inv s' /\
    (forall g', ept_lookup s' g' = ept_lookup s g' \/
       (g <= g' < g + 2 ^ order /\ ept_lookup s' g' = (mfn + (g' - g), p2m_ram_rw, a))) /\
    (rc = 0 -> forall g', g <= g' < g + 2 ^ order -> ept_lookup s' g' = (mfn + (g' - g), p2m_ram_rw, a))) s.
Proof. intros. by apply p2m_set_entry_spec. Qed.
End theorems.

(** ** Examples *)

#[local] Instance toy_faults : FaultEnv := {|
  hvm_mmio_internal := fun _ => false;
  handle_mmio_with_translation := fun _ _ _ => true;
  hvm_emulate_one_mmio := fun _ _ => true;
  is_hardware_domain := false;
  vm_event_listener := false;
  access_required := false;
  inguest_pagefault_disabled := false;
  request_allocated := true;
  monitor_traps := fun _ _ => 0
|}.

(** A page that may only be executed, and one that may only be read. *)
Definition toy_sealed : fault_state := FaultState (toy_map true 5 100 0 p2m_access_x) [].
Definition toy_read_only : fault_state := FaultState (toy_map true 5 100 0 p2m_access_r) [].

Lemma toy_sealed_inv : ept_inv (fs_p2m toy_sealed).
Proof.
  destruct (toy_map_post true 5 100 0 p2m_access_x) as (rc & _ & Hinv & _); [by right; right|lia| |done|exact Hinv].
  apply toy_settable; [by right; right|done|done|lia|done|done].
Qed.

Lemma violation_keeps_sealed_ex :
  let q := EptQual true false false false false true false false in
  wp (ept_handle_violation q (5 * PAGE_SIZE + 8) 0) (fun _ st' => ept_inv (fs_p2m st') /\
    (forall g, (ept_lookup (fs_p2m st') g).1.1 = (ept_lookup (fs_p2m toy_sealed) g).1.1 /\
       ((ept_lookup (fs_p2m toy_sealed) g).2 = p2m_access_x -> ept_lookup (fs_p2m st') g = ept_lookup (fs_p2m toy_sealed) g)) /\
    (hvm_mmio_internal (5 * PAGE_SIZE + 8) = false ->
       (ept_lookup (fs_p2m toy_sealed) (Z.shiftr (5 * PAGE_SIZE + 8) 12)).2 = p2m_access_x -> (q_read q || q_write q) = true ->
       st' = FaultState (fs_p2m toy_sealed) (fs_events toy_sealed ++ [InjectGP]))) toy_sealed.
Proof. apply (violation_keeps_sealed _ _ _ toy_sealed toy_sealed_inv); [by compute|done]. Defined.

(** Reading the page faults; the other page, which has no listener, becomes
    accessible instead. *)
Example sealed_and_read_only :
  let q := EptQual false true false false false true false false in
  match ept_handle_violation q (5 * PAGE_SIZE) 0 toy_sealed, ept_handle_violation q (5 * PAGE_SIZE) 0 toy_read_only with
  | Some (_, st1), Some (_, st2) =>
      (fs_events st1, ept_lookup (fs_p2m st1) 5) = ([InjectGP], (100, p2m_ram_rw, p2m_access_x)) /\
      (fs_events st2, ept_lookup (fs_p2m st2) 5) = ([], (100, p2m_ram_rw, p2m_access_rwx))
  | _, _ => False
  end.
Proof. vm_compute. by split. Qed.

(** A change of the right that "must succeed" fails if the frame is part of a
    superpage and no page for a table is left. *)
Definition toy_no_memory : fault_state :=
  let s := toy_map true 512 512 1 p2m_access_r in
  FaultState (set_tables (pt_tables s ∪ gset_to_gmap [] (list_to_set toy_frames)) s) [].

Example promote_fails :
  match ept_handle_violation (EptQual false true false true false false false false) (600 * PAGE_SIZE) 0 toy_no_memory with
  | Some (_, st) => (fs_events st, ept_lookup (fs_p2m st) 600) = ([AssertFailed], (600, p2m_ram_rw, p2m_access_r))
  | None => False
  end.
Proof. vm_compute. reflexivity. Qed.

Lemma p2m_set_entry_correct_ex :
  wp (p2m_set_entry 512 512 9 p2m_ram_rw p2m_access_rwx) (fun rc s' => ept_inv s' /\
    (forall g', ept_lookup s' g' = ept_lookup toy_ept g' \/
       (512 <= g' < 512 + 2 ^ 9 /\ ept_lookup s' g' = (512 + (g' - 512), p2m_ram_rw, p2m_access_rwx))) /\
    (rc = 0 -> forall g', 512 <= g' < 512 + 2 ^ 9 -> ept_lookup s' g' = (512 + (g' - 512), p2m_ram_rw, p2m_access_rwx))) toy_ept.
Proof.
  apply (p2m_set_entry_correct toy_ept 512 512 9 p2m_access_rwx); [apply toy_ept_inv|lia|lia|done|done| |].
  - intros j Hj. cbn. lia.
  - intros g' _. by rewrite toy_default_lookup.
Defined.

(** Superpages cannot be executed. *)
#[local] Instance toy_noexec : EptEnv := toy_env false.
#[local] Instance toy_noexec_laws : EptLaws := toy_ept_laws false.
Definition toy_fetch : fault_state := FaultState (toy_super_page false) [].

Lemma fetch_progress_ex :
  wp (ept_handle_violation (EptQual false false true true true false false false) (600 * PAGE_SIZE) 0) (fun _ st' =>
    hw_translate true (fs_p2m st') (Z.shiftr (600 * PAGE_SIZE) 12) = Some (HwPage 600 true true true) /\
    ept_inv (fs_p2m st') /\ (forall g, ept_lookup (fs_p2m st') g = ept_lookup (fs_p2m toy_fetch) g) /\
    fs_events st' = fs_events toy_fetch) toy_fetch.
Proof.
  refine (fetch_progress true (600 * PAGE_SIZE) 0 false false toy_fetch 600 p2m_access_rwx 600 true true _ _ _ _ _ _ _ _).
  - exact (proj1 (toy_super_page_inv false)).
  - by split.
  - reflexivity.
  - vm_compute. reflexivity.
  - reflexivity.
  - reflexivity.
  - apply (toy_memory false). apply Nat.ltb_lt. vm_compute. reflexivity.
  - vm_compute. reflexivity.
Defined.
