(* ===== verification/EptTypeChange.v ===== *)
(** * Changing the types of ranges of frames

    Log-dirty mode, with which the dirty pages of a guest are tracked, changes
    the types of whole ranges of frames ([p2m_change_type_range] of [p2m.c]).
    The change is deferred: [ept_change_entry_type_range] marks the entries of
    the range for recalculation, in each table on the way only those that lie
    in the range, and splits superpages that do not; the set of log-dirty
    frames ([Rangeset]) tells the new type when it is recalculated.
    Alternate and nested tables are left out. *)

From S2P Require Import Prelude RbTree RbSpec RbHeap PageInfo XomDomain XomSeal P2mTypes XomGuest MemType Ept Rangeset.

Section types.
Context `{EptEnv}.

(** The way down to the table of level [target], without new tables. *)
Fixpoint range_walk (ret0 : Z) (i target : nat) (m rem : Z) : M ept_p2m (Z * nat * Z * Z) :=
  match i with
  | O => ret (ret0, i, m, rem)
  | S i' =>
      if (i <=? target)%nat then ret (ret0, i, m, rem)
      else
        let! '(r, m', rem') := ept_next_level true m rem i in
        if negb (r =? GUEST_TABLE_NORMAL_PAGE) then ret (r, i, m', rem')
        else range_walk r i' target m' rem'
  end.

(** Mark the [n] entries from [index] on. *)
Fixpoint mark_entries (n : nat) (m index : Z) (target : nat) (rc : Z) : M ept_p2m Z :=
  match n with
  | O => ret rc
  | S n =>
      let! e := tbl_read m index in
      if is_epte_valid e && is_epte_present e && (negb (e_emt e =? MTRR_NUM_TYPES) || negb (e_recalc e)) then
        let! wrc := atomic_write_ept_entry m index (set_recalc true (set_emt MTRR_NUM_TYPES e)) target in
        do! assert (wrc =? 0) in
        mark_entries n m (index + 1) target 1
      else mark_entries n m (index + 1) target rc
  end.

(** The table of level [target] that the walk for the range stands on, after
    splitting the superpage the walk ended at. *)
Definition split_for_range (i target : nat) (m rem : Z) : M ept_p2m (option (Z * Z)) :=
  let index := Z.shiftr rem (Z.of_nat i * EPT_TABLE_ORDER) in
  let! e := tbl_read m index in
  do! assert (is_epte_superpage e) in
  let! '(ok, e1) := ept_split_super_page i e target in
  if negb ok then do! ept_free_entry i e1 in ret None
  else
    let! wrc := atomic_write_ept_entry m index e1 i in
    do! assert (wrc =? 0) in
    let! '(_, i, m, rem) := range_walk GUEST_TABLE_NORMAL_PAGE i target m rem in
    do! assert (i =? target)%nat in
    ret (Some (m, rem)).

Definition ept_invalidate_emt_range (target : nat) (first_gfn last_gfn : Z) : M ept_p2m Z :=
  let! root := gets ept_mfn in
  let! '(r, i, m, rem) := range_walk GUEST_TABLE_NORMAL_PAGE wl target root first_gfn in
  if (target <? i)%nat && (r =? GUEST_TABLE_MAP_FAILED) then ret 0
  else
    let! place := (if (target <? i)%nat then split_for_range i target m rem else ret (Some (m, rem))) in
    match place with
    | None => ret (- ENOMEM)
    | Some (m, rem) =>
        let shift := Z.of_nat target * EPT_TABLE_ORDER in
        let index := Z.shiftr rem shift in
        let last := Z.land (Z.shiftr last_gfn shift) (Z.of_nat EPT_PAGETABLE_ENTRIES - 1) in
        mark_entries (Z.to_nat (last - index + 1)) m index target 0
    end.

(** The range [first, last] by levels: [inv] does the part that fills no table
    of the next level, from both ends, until nothing is left. *)
Fixpoint range_levels {St} (inv : nat -> Z -> Z -> M St Z) (fuel i : nat) (mask first last rc sync : Z) : M St (Z * Z) :=
  if (wl <? i)%nat then ret (rc, sync)
  else
    match fuel with
    | O => ub
    | S fuel =>
        if negb (Z.land first mask =? 0) then
          let end_gfn := Z.min (Z.lor first mask) last in
          let! rc := inv i first end_gfn in
          let sync := Z.lor sync rc in
          if (rc <? 0) || (last <=? end_gfn) then ret (rc, sync)
          else range_levels inv fuel i mask (end_gfn + 1) last rc sync
        else if negb (Z.land last mask =? mask) then
          let start_gfn := Z.max first (Z.land last (Z.lnot mask)) in
          let! rc := inv i start_gfn last in
          let sync := Z.lor sync rc in
          if (rc <? 0) || (start_gfn <=? first) then ret (rc, sync)
          else range_levels inv fuel i mask first (start_gfn - 1) rc sync
        else range_levels inv fuel (i + 1) (Z.lor mask (Z.shiftl mask EPT_TABLE_ORDER)) first last rc sync
    end.

(** Each level takes at most three turns. *)
Definition levels_fuel : nat := 3 * (wl + 1).

Definition ept_change_entry_type_range (first_gfn last_gfn : Z) : M ept_p2m Z :=
  let! mfn := gets ept_mfn in
  if mfn =? 0 then ret (- EINVAL)
  else
    let! '(rc, sync) := range_levels ept_invalidate_emt_range levels_fuel 0 (Z.shiftl 1 EPT_TABLE_ORDER - 1) first_gfn last_gfn 0 0 in
    do! (if negb (sync =? 0) then ept_sync_domain else ret tt) in
    ret (if rc <? 0 then rc else 0).

Definition ept_change_entry_type_global : M ept_p2m unit :=
  let! mfn := gets ept_mfn in
  if mfn =? 0 then ret tt
  else
    let! changed := ept_invalidate_emt_subtree mfn true wl in
    if changed : bool then ept_sync_domain else ret tt.

End types.

(** ** Log-dirty frames *)

(** The p2m table, [logdirty_ranges], and whether the domain was crashed. *)
Record ld_p2m := LdP2m { ld_ept : ept_p2m; ld_ranges : rangeset; ld_crashed : bool }.

Definition on_ept {A} (m : M ept_p2m A) : M ld_p2m A :=
  fun d => match m (ld_ept d) with Some (a, s) => Some (a, LdP2m s (ld_ranges d) (ld_crashed d)) | None => None end.
Definition on_ranges {A} (m : M rangeset A) : M ld_p2m A :=
  fun d => match m (ld_ranges d) with Some (a, r) => Some (a, LdP2m (ld_ept d) r (ld_crashed d)) | None => None end.
Definition domain_crash : M ld_p2m unit := modify (fun d => LdP2m (ld_ept d) (ld_ranges d) true).

Section change.
Context `{EptEnv, Xmalloc}.

(** The type of the frames from [start] up to [end_exclusive]; [host_max] is
    [max_mapped_pfn] of the host's table, and [altp2m] tells whether the table
    is an alternate one. *)
Definition change_type_range (host_max : Z) (altp2m : bool) (start end_exclusive ot nt : Z) : M ld_p2m unit :=
  let! max_pfn := on_ept (gets pt_max) in
  let last := u64 (end_exclusive - 1) in
  let last := if host_max <? last then host_max else last in
  if last <? start then ret tt
  else
    let invalidate_end := if altp2m : bool then Z.min last max_pfn else last in
    let! rc := (if start <? invalidate_end then
                  do! assert (invalidate_end <=? max_pfn) in
                  let! rc := (if (start =? 0) && (invalidate_end =? max_pfn)
                              then do! on_ept ept_change_entry_type_global in ret 0
                              else on_ept (ept_change_entry_type_range start invalidate_end)) in
                  do! (if negb (rc =? 0) then domain_crash else ret tt) in
                  ret rc
                else ret 0) in
    let! rc := (if nt =? p2m_ram_rw then
                  if ot =? p2m_ram_logdirty then on_ranges (rangeset_remove_range start last) else ret rc
                else if nt =? p2m_ram_logdirty then
                  if ot =? p2m_ram_rw then on_ranges (rangeset_add_range start last) else ret rc
                else ret rc) in
    if negb (rc =? 0) then domain_crash else ret tt.

(** For a domain without alternate and nested tables. *)
Definition p2m_change_type_range (start end_exclusive ot nt : Z) : M ld_p2m unit :=
  do! assert (negb (ot =? nt)) in
  do! assert (p2m_is_changeable ot && p2m_is_changeable nt) in
  let! max_pfn := on_ept (gets pt_max) in
  change_type_range max_pfn false start end_exclusive ot nt.
End change.
