(* ===== verification/EptTypeSpec.v ===== *)
(** * What a change of the types of a range does

    The entries of the range are marked, so that the processor reports a
    misconfiguration before it uses one of them and a lookup recalculates its
    type; the other frames keep what they have. *)

From S2P Require Import Prelude RbTree RbSpec RbHeap PageInfo XomDomain XomSeal P2mTypes XomGuest MemType Ept EptSpec EptOps EptResolve EptWalk EptEntry EptP2m EptHardware EptTypeChange.

(** Entries may be marked. *)
#[local] Instance marking : Recalc | 0 := true.

Section marks.
Context `{EptEnv, !EptLaws}.

(** ** Marked entries *)

Definition mark (e : ept_entry) : ept_entry := mark_as true e.

Lemma mark_present e : is_epte_present (mark e) = is_epte_present e.
Proof. apply mark_as_fields. Qed.

Lemma mark_slot l e o : slot_wf l (e, o) -> is_epte_present e = true ->
  slot_wf l (mark e, o) /\ forall g, slot_view l (mark e, o) g = slot_view l (e, o) g.
Proof. by apply mark_as_slot. Qed.

(** The entries from [a] on, [n] of them. *)
Definition mark_range (a n : nat) (i : nat) (k : slot) : slot :=
  if (a <=? i)%nat && (i <? a + n)%nat && is_epte_present k.1 then (mark k.1, k.2) else k.

Definition mark_kids (a n : nat) (ks ks' : list slot) : Prop :=
  forall i, ks' !! i = mark_range a n i <$> ks !! i.

Lemma mark_entries_spec l lv n : (lv = O <-> l = O) -> forall a m ks L rc s, (a + n <= EPT_PAGETABLE_ENTRIES)%nat -> twf l (Node m ks) -> heap (flat l (Node m ks) ++ L) s -> 0 <= rc ->
  wp (mark_entries n m (Z.of_nat a) lv rc) (fun rc' s' => only_tables s s' /\ 0 <= rc' /\ exists ks', same_tree l (Node m ks) (Node m ks') /\
    heap (flat l (Node m ks') ++ L) s' /\ mark_kids a n ks ks' /\ (rc' = 0 -> rc = 0 /\ ks' = ks)) s.
Proof.
  intros Hlv. induction n as [|n IH]; intros a m ks L rc s Ha Ht Hh Hrc; cbn [mark_entries].
  { apply wp_ret. split_and!; [done..|]. exists ks. split_and!; [by apply same_tree_refl|done| |done]. intros i. unfold mark_range.
    assert ((a <=? i)%nat && (i <? a + 0)%nat = false) as -> by (apply andb_false_iff; rewrite Nat.leb_gt, Nat.ltb_ge; lia). by destruct (ks !! i). }
  destruct (proj1 (twf_eq _ _) Ht) as [Hlen Hall]. cbn [kids] in Hlen, Hall.
  destruct (lookup_lt_is_Some_2 ks a) as [[e o] Hk]; [lia|]. pose proof (Forall_lookup_1 _ _ _ _ Hall Hk) as Hwf.
  apply wp_bind. eapply wp_read_slot; [exact Hk|exact Hh|]. cbn [fst]. replace (Z.of_nat a + 1) with (Z.of_nat (S a)) by lia.
  assert (forall ks', mark_kids (S a) n (<[a := mark_range a 1 a (e, o)]> ks) ks' -> mark_kids a (S n) ks ks') as Hstep.
  { intros ks' Hm i. rewrite Hm. destruct (decide (i = a)) as [->|Hne].
    - rewrite list_lookup_insert_eq by (by eapply lookup_lt_Some). rewrite Hk. cbn. unfold mark_range. rewrite !Nat.leb_refl.
      assert ((S a <=? a)%nat = false) as -> by (apply Nat.leb_gt; lia). assert ((a <? a + 1)%nat = true /\ (a <? a + S n)%nat = true) as [-> ->]
        by (rewrite !Nat.ltb_lt; lia). done.
    - rewrite list_lookup_insert_ne by done. f_equal. unfold mark_range.
      assert ((S a <=? i)%nat && (i <? S a + n)%nat = (a <=? i)%nat && (i <? a + S n)%nat) as ->; [|done].
      apply eq_bool_prop_intro. rewrite !andb_True, !Is_true_true, !Nat.leb_le, !Nat.ltb_lt. lia. }
  assert (mark_range a 1 a (e, o) = if is_epte_present e then (mark e, o) else (e, o)) as Hm1.
  { unfold mark_range. rewrite Nat.leb_refl, (proj2 (Nat.ltb_lt _ _)) by lia. done. }
  destruct (is_epte_valid e && is_epte_present e && _) eqn:Hmark.
  - apply andb_prop in Hmark as [[_ Hp]%andb_prop _]. destruct (mark_slot l e o Hwf Hp) as [Hwf' Hview]. apply wp_bind. fold (mark e).
    eapply (wp_atomic_same l m ks a e o (mark e) o L); [done|done| |done|by intros; apply Hview|by intros ?%Hlv|by intros ?%Hlv|].
    { pose proof (heap_open _ _ _ _ _ _ _ Hk Hh) as Hh'. by destruct l. }
    intros s1 t1 Ho1 Ht1 -> Hh1. apply wp_bind, wp_assert; [done|]. rewrite Hp in Hm1.
    eapply wp_mono; [apply (IH (S a)); [lia|apply Ht1|exact Hh1|lia]|].
    intros rc' s2 (Ho2 & Hrc2 & ks' & Hs2 & Hh2 & Hm2 & Hz). split_and!; [by etrans|done|]. exists ks'.
    split_and!; [by eapply same_tree_trans|done|apply Hstep; by rewrite Hm1|by intros [? _]%Hz].
  - assert (<[a := mark_range a 1 a (e, o)]> ks = ks) as Hid.
    { apply list_insert_id. rewrite Hk, Hm1. destruct (is_epte_present e) eqn:Hp; [|done]. pose proof (slot_present_valid _ _ Hwf Hp) as Hv.
      cbn [fst] in Hv. rewrite Hv in Hmark. cbn [andb] in Hmark. apply orb_false_elim in Hmark as [He%negb_false_iff Hr%negb_false_iff].
      unfold mark. rewrite mark_as_id; [done|by apply Z.eqb_eq|done]. }
    eapply wp_mono; [apply (IH (S a)); [lia|done|exact Hh|done]|].
    intros rc' s2 (Ho2 & Hrc2 & ks' & Hs2 & Hh2 & Hm2 & Hz). split_and!; [done|done|]. exists ks'.
    split_and!; [done|done|apply Hstep; by rewrite Hid|done].
Qed.
(** ** Frames *)

(** The processor reports a misconfiguration before it uses the page of [g], and
    a lookup recalculates its type; if there is a page. *)
Definition blocked (T : tree) (g : Z) : Prop := (tview wl T g).2 = true -> pending wl T g = true /\ recalcs wl T g = true.

(** The frames [U] are blocked, the others are as before. *)
Record invalidated (T T' : tree) (U : Z -> Prop) : Prop := {
  iv_view : forall g, tview wl T' g = tview wl T g;
  iv_blocked : forall g, 0 <= g < GFN_LIMIT -> U g -> blocked T' g;
  iv_keep : forall g, 0 <= g < GFN_LIMIT -> ~ U g -> pending wl T' g = pending wl T g /\ recalcs wl T' g = recalcs wl T g;
  iv_mono : forall g, 0 <= g < GFN_LIMIT -> blocked T g -> blocked T' g
}.

Lemma invalidated_trans T1 T2 T3 U V : invalidated T1 T2 U -> invalidated T2 T3 V -> invalidated T1 T3 (fun g => U g \/ V g).
Proof.
  intros [V1 B1 K1 M1] [V2 B2 K2 M2]. split.
  - intros g. by rewrite V2.
  - intros g Hg [HU|HV]; [by apply M2, B1|by apply B2].
  - intros g Hg HN. destruct (K2 g Hg) as [-> ->]; [tauto|]. apply K1; tauto.
  - intros g Hg Hb. by apply M2, M1.
Qed.

Lemma invalidated_none T U : (forall g, 0 <= g < GFN_LIMIT -> U g -> blocked T g) -> invalidated T T U.
Proof. intros HU. by split. Qed.

Lemma tview_present l T g : twf l T -> (tview l T g).2 = is_epte_present (tleaf l T g).2.
Proof.
  intros HT. pose proof (tleaf_ok l T g HT) as Hl. unfold tview. destruct (tleaf l T g) as [i e]. cbn [fst snd] in Hl |- *. unfold leaf_view.
  destruct (is_epte_present e) eqn:Hp.
  - destruct (leaf_present _ _ Hl Hp) as (_ & _ & ->). by rewrite andb_false_r.
  - destruct (_ && _); [done|]. by destruct (is_epte_valid e).
Qed.

(** The frames below a table of level [i]. *)
Lemma agree_span i g g' : (i <= wl)%nat -> 0 <= g < GFN_LIMIT -> 0 <= g' < GFN_LIMIT -> agree wl i g g' = block (S i) g g'.
Proof.
  intros Hi Hg Hg'. destruct (decide (i = wl)) as [->|Hne].
  - rewrite agree_top. unfold block. rewrite !Z.div_small by done. done.
  - rewrite agree_S by lia. rewrite andb_comm. apply agree_block; [lia|done|done].
Qed.

(** A part of the entries of one table of level [i]. *)
Definition call_ok (i : nat) (a b : Z) : Prop :=
  (i <= wl)%nat /\ 0 <= a <= b /\ b < GFN_LIMIT /\ a mod span i = 0 /\ (b + 1) mod span i = 0 /\ block (S i) a b = true.

Lemma idx_order i a b g : call_ok i a b -> block (S i) a g = true -> a <= g <= b <-> (idx i a <= idx i g <= idx i b)%nat.
Proof.
  intros (_ & Hab & _ & Ha & Hb & Hblk) Hg. pose proof (span_pos i) as Hs. unfold block in *. apply Z.eqb_eq in Hblk, Hg.
  assert (a <= g <-> a / span i <= g / span i) as Hl.
  { split; [intros; by apply Z.div_le_mono|]. intros Hle. pose proof (Z.div_mod a (span i)). pose proof (Z.mul_div_le g (span i)). nia. }
  assert (g <= b <-> g / span i <= b / span i) as Hr.
  { split; [intros; by apply Z.div_le_mono|]. intros Hle. pose proof (Z.div_mod (b + 1) (span i) ltac:(lia)) as Hd. rewrite Hb in Hd.
    assert (b / span i < (b + 1) / span i) by (apply Z.div_lt_upper_bound; lia). pose proof (Z.mul_succ_div_gt g (span i)). nia. }
  rewrite Hl, Hr, (div_span i a), (div_span i b), (div_span i g), Hg, Hblk. lia.
Qed.

Lemma outside_table i a b g : call_ok i a b -> block (S i) a g = false -> ~ (a <= g <= b).
Proof.
  intros (_ & Hab & _ & _ & _ & Hblk) Hg Hin. unfold block in *. apply Z.eqb_eq in Hblk. apply Z.eqb_neq in Hg. apply Hg.
  pose proof (span_pos (S i)). pose proof (Z.div_le_mono a g (span (S i))). pose proof (Z.div_le_mono g b (span (S i))). lia.
Qed.
(** The walk for [g] is blocked at a marked entry. *)
Lemma marked_path f l a n i k g : (a <= i < a + n)%nat -> is_epte_present k.1 = true -> f (mark k.1) = true -> slot_path f l (mark_range a n i k) g = true.
Proof.
  intros Hi Hp Hf. unfold mark_range. rewrite Hp, (proj2 (Nat.leb_le _ _)), (proj2 (Nat.ltb_lt _ _)) by lia. unfold slot_path. cbn [fst andb]. by rewrite Hf.
Qed.

Lemma unmarked_slot a n i k : ~ (a <= i < a + n)%nat -> mark_range a n i k = k.
Proof.
  intros Hi. unfold mark_range. assert ((a <=? i)%nat && (i <? a + n)%nat = false) as ->; [|done].
  apply andb_false_iff. rewrite Nat.leb_gt, Nat.ltb_ge. lia.
Qed.

Lemma absent_leaf l k : slot_wf l k -> is_epte_present k.1 = false -> k.2 = None.
Proof. destruct k as [e [t|]]; [|done]. destruct l; [done|]. intros (Hm & _) Hp. by rewrite (middle_present _ Hm) in Hp. Qed.

(** The entries of a range in one table are marked. *)
Lemma mark_table T t m ks R a b ks' : ctx wl T t (Node m ks) a R -> call_ok t a b -> same_tree t (Node m ks) (Node m ks') ->
  mark_kids (idx t a) (idx t b - idx t a + 1) ks ks' ->
  exists T', ctx wl T' t (Node m ks') a R /\ node_mfn T' = node_mfn T /\ invalidated T T' (fun g => a <= g <= b) /\
    (ks' = ks -> forall g, 0 <= g < GFN_LIMIT -> a <= g <= b -> blocked T g).
Proof.
  intros Hc Hcall (_ & Hwf' & Hview) Hmk. destruct (ctx_replace _ _ _ _ _ _ _ Hc Hwf' eq_refl) as (T' & above & Hc' & Hm & Hl & Hb & Hp).
  pose proof Hcall as (Ht & Hab & Hlim & _). assert (idx t a <= idx t b)%nat as Hidx by (apply (idx_order t a b b Hcall); [apply Hcall|lia]).
  assert (forall g, 0 <= g < GFN_LIMIT -> agree wl t a g = block (S t) a g) as Hag by (intros g Hg; apply agree_span; [done|lia|done]).
  assert (forall g, tview wl T' g = tview wl T g) as Hv.
  { intros g. unfold tview. rewrite Hl. destruct (agree wl t a g) eqn:Ha; [|done]. rewrite (cx_leaf _ _ _ _ _ _ Hc g Ha). apply Hview. }
  assert (forall g, 0 <= g < GFN_LIMIT -> a <= g <= b -> blocked T' g) as Hblk.
  { intros g Hg Hin Hpres. destruct (block (S t) a g) eqn:Hbl; [|by destruct (outside_table _ _ _ _ Hcall Hbl)].
    rewrite tview_present in Hpres by apply Hc'. rewrite Hl, Hag, Hbl in Hpres by done. apply (idx_order t a b g Hcall Hbl) in Hin.
    destruct (twf_slot t (Node m ks) g (cx_sub _ _ _ _ _ _ Hc)) as (k & Hk & Hwf). cbn [kids] in Hk. pose proof (Hmk (idx t g)) as Hk'. rewrite Hk in Hk'. cbn in Hk'.
    rewrite (tleaf_slot t (Node m ks') g _ Hk') in Hpres. destruct (is_epte_present k.1) eqn:Hpk.
    - unfold pending, recalcs. rewrite !Hp, !Hag, Hbl, !(on_path_slot _ t (Node m ks') g _ Hk') by done.
      rewrite !marked_path; [by rewrite !orb_true_r|lia|done|done|lia|done|]. unfold pending_entry. by rewrite mark_present, Hpk.
    - unfold mark_range in Hpres. rewrite Hpk, andb_false_r in Hpres. unfold slot_leaf in Hpres. rewrite (absent_leaf _ _ Hwf Hpk) in Hpres. cbn in Hpres. congruence. }
  assert (forall g, 0 <= g < GFN_LIMIT -> ~ (a <= g <= b) -> forall f, on_path f wl T' g = on_path f wl T g) as Hkeep.
  { intros g Hg Hout f. rewrite Hp. destruct (agree wl t a g) eqn:Ha; [|done]. rewrite (Hb f g Ha). f_equal.
    destruct (twf_slot t (Node m ks) g (cx_sub _ _ _ _ _ _ Hc)) as (k & Hk & _). cbn [kids] in Hk. pose proof (Hmk (idx t g)) as Hk'. rewrite Hk in Hk'. cbn in Hk'.
    rewrite unmarked_slot in Hk'. { by rewrite (on_path_slot f t (Node m ks') g _ Hk'), (on_path_slot f t (Node m ks) g _ Hk). }
    rewrite Hag in Ha by done. rewrite (idx_order t a b g Hcall Ha) in Hout. lia. }
  exists T'. split_and!; [done|done| |].
  - split; [done|done|intros g Hg Hout; split; by apply Hkeep|]. intros g Hg HT.
    destruct (decide (a <= g <= b)) as [Hin|Hout]; [by apply Hblk|]. intros Hpr. rewrite Hv in Hpr. unfold pending, recalcs. rewrite !Hkeep by done. by apply HT.
  - intros -> g Hg Hin Hpr. destruct (Hblk g Hg Hin) as [H1 H2]; [by rewrite Hv|]. unfold pending, recalcs in *. rewrite Hp in H1, H2.
    destruct (agree wl t a g) eqn:Ha; [|done]. by rewrite !(Hb _ g Ha).
Qed.
(** ** The table of the range *)

(** The walk ends at the target, or above it at a leaf. *)
Definition range_end (target : nat) (g r : Z) (j : nat) (sub : tree) : Prop :=
  (r = GUEST_TABLE_NORMAL_PAGE /\ j = target) \/
  ((target < j)%nat /\ exists e, kids sub !! idx j g = Some (e, None) /\
     (r = GUEST_TABLE_MAP_FAILED /\ e_sp e = false \/ r = GUEST_TABLE_SUPER_PAGE /\ e_sp e = true)).

Lemma range_walk_spec g target i : forall r0 T sub R s, ctx wl T i sub g R -> (target <= i)%nat -> heap (flat i sub ++ R) s ->
  (i = target -> r0 = GUEST_TABLE_NORMAL_PAGE) ->
  wp (range_walk r0 i target (node_mfn sub) (g mod span (S i))) (fun '(r, j, m, rem) s' => s' = s /\
    exists sub', at_table T j sub' g m rem s /\ range_end target g r j sub') s.
Proof.
  induction i as [|i IH]; intros r0 T sub R s Hc Htg Hh Hr0; cbn [range_walk].
  { apply wp_ret. split; [done|]. exists sub. split; [by exists R|]. left. split; [apply Hr0|]; lia. }
  destruct (Nat.leb_spec (S i) target) as [Hle|Hlt].
  { apply wp_ret. split; [done|]. exists sub. split; [by exists R|]. left. split; [apply Hr0|]; lia. }
  destruct sub as [m ks]. pose proof (cx_sub _ _ _ _ _ _ Hc) as Ht. destruct (twf_slot _ _ g Ht) as ([e o] & Hk & Hwf).
  cbn [kids node_mfn] in *. apply wp_bind. eapply wp_next_level; [apply Hc|done|exact Hk|exact Hh|..]; cbn [fst snd].
  - intros t1 ->. cbn. eapply (IH _ T t1); [by eapply ctx_step|lia|by eapply heap_kid|done].
  - intros -> Hsp. apply wp_ret. split; [done|]. exists (Node m ks). split; [by exists R|]. right. split; [lia|]. eauto.
  - intros -> Hsp. apply wp_ret. split; [done|]. exists (Node m ks). split; [by exists R|]. right. split; [lia|]. eauto.
  - done.
Qed.

Lemma on_path_insert f l m ks i k k' g : twf l (Node m ks) -> ks !! i = Some k -> (idx l g = i -> slot_path f l k' g = slot_path f l k g) ->
  on_path f l (Node m (<[i := k']> ks)) g = on_path f l (Node m ks) g.
Proof.
  intros Ht Hk Heq. destruct (decide (idx l g = i)) as [Hi|Hi].
  - rewrite (on_path_slot f l (Node m _) g k'), (on_path_slot f l (Node m ks) g k); [by apply Heq|cbn; by rewrite Hi|].
    cbn. rewrite Hi. apply list_lookup_insert_eq. by eapply lookup_lt_Some.
  - destruct (twf_slot _ _ g Ht) as (k0 & Hk0 & _). rewrite (on_path_slot _ _ _ _ _ Hk0).
    apply on_path_slot. cbn. by rewrite list_lookup_insert_ne.
Qed.

(** The marks of all frames are the same. *)
Definition same_paths (T T' : tree) : Prop := forall g, pending wl T' g = pending wl T g /\ recalcs wl T' g = recalcs wl T g.

Lemma split_for_range_spec T i m ks e g R target s : ctx wl T i (Node m ks) g R -> (target < i)%nat -> heap (flat i (Node m ks) ++ R) s ->
  ks !! idx i g = Some (e, None) -> e_sp e = true ->
  wp (split_for_range i target m (g mod span (S i))) (fun res s' => only_tables s s' /\ match res with
    | None => heap (flat wl T) s'
    | Some (m', rem) => exists T' sub, same_tree wl T T' /\ same_paths T T' /\ at_table T' target sub g m' rem s'
    end) s.
Proof.
  intros Hc Hlt Hh Hk Hsp. pose proof (cx_sub _ _ _ _ _ _ Hc) as Ht. pose proof (cx_le _ _ _ _ _ _ Hc) as Hle.
  destruct (proj1 (twf_eq _ _) Ht) as [_ Hall]. pose proof (Forall_lookup_1 _ _ _ _ Hall Hk) as He. change (leaf_ok i e) in He.
  unfold split_for_range. rewrite rem_index. apply wp_bind. eapply wp_read_slot; [exact Hk|exact Hh|]. cbn [fst].
  apply wp_bind, wp_assert; [exact Hsp|]. pose proof (heap_open _ _ _ _ _ _ _ Hk Hh) as Hh0. rewrite flat_slot_leaf in Hh0.
  apply wp_bind. eapply wp_mono; [by eapply (ept_split_super_page_spec i target Hle); [| |exact Hh0]|].
  intros [ok e1] s1 (Ho1 & o & Hwf & Hh1 & Hok). cbn [fst snd app] in *. destruct ok; cbn [negb].
  - specialize (Hok eq_refl). apply wp_bind.
    eapply (wp_atomic_write i m ks _ (e1, o) R); [by rewrite list_lookup_fmap, Hk| | |].
    { eapply heap_perm; [|exact Hh1]. by rewrite <- Permutation_middle. }
    { split; [|lia]. intros Hne. by apply (slot_plain i (e1, o) Hwf). }
    intros s2 Ho2 Hh2. apply wp_bind, wp_assert; [done|]. set (ks2 := <[idx i g := (e1, o)]> ks) in *.
    assert (ks2 !! idx i g = Some (e1, o)) as Hk2 by (apply list_lookup_insert_eq; by eapply lookup_lt_Some).
    assert (twf i (Node m ks2)) as Ht2 by (by apply twf_insert).
    destruct (ctx_replace _ _ _ _ _ _ (Node m ks2) Hc Ht2 eq_refl) as (T2 & above & Hc2 & Hm2 & Hl2 & Hb2 & Hp2).
    assert (same_tree i (Node m ks) (Node m ks2)) as Hs2 by (eapply same_tree_insert; [done|done|done|intros; by apply Hok]).
    assert (forall g', agree wl i g g' = true -> pending i (Node m ks2) g' = pending i (Node m ks) g' /\ recalcs i (Node m ks2) g' = recalcs i (Node m ks) g') as Hsame.
    { intros g' _. destruct (Hok g') as [_ (_ & _ & _ & Hmk1 & Hmk2)]; [done|].
      split; apply (on_path_insert _ i m ks (idx i g) (e, None)); [done|done|intros _; by rewrite slot_path_leaf|done|done|intros _; by rewrite slot_path_leaf]. }
    assert ((tleaf wl T2 g).1 = target) as Hdeep.
    { rewrite Hl2, agree_refl, (tleaf_slot i (Node m ks2) g _ Hk2). by apply Hok. }
    apply wp_bind. eapply wp_mono; [eapply (range_walk_spec g target i _ T2 (Node m ks2)); [exact Hc2|lia|exact Hh2|done]|].
    intros [[[r j] m'] rem] s3 (-> & sub & Hat & Hend). assert (j = target) as ->.
    { destruct Hend as [[_ ?]|(Hj & e' & Hk' & _)]; [done|]. destruct Hat as (R' & Hc' & _).
      rewrite (cx_leaf _ _ _ _ _ _ Hc' g (agree_refl _ _ _)), (tleaf_slot _ _ _ _ Hk') in Hdeep. cbn in Hdeep. lia. }
    apply wp_bind, wp_assert; [apply Nat.eqb_refl|]. apply wp_ret. split; [by etrans|]. exists T2, sub. split_and!; [|..|done].
    + split_and!; [done|apply Hc2|]. intros g'. unfold tview. rewrite Hl2. destruct (agree wl i g g') eqn:Ha; [|done].
      rewrite (cx_leaf _ _ _ _ _ _ Hc g' Ha). apply Hs2.
    + intros g'. unfold pending, recalcs in *. rewrite !Hp2. destruct (agree wl i g g') eqn:Ha; [|done]. rewrite !(Hb2 _ g' Ha).
      destruct (Hsame g' Ha) as [-> ->]. done.
  - apply wp_bind. eapply wp_mono; [by apply (ept_free_entry_spec i (e1, o) _ _ Hwf Hh1)|].
    intros _ s2 [Ho2 Hh2]. apply wp_ret. split; [by etrans|]. rewrite <- (app_nil_r (flat wl T)). apply (ctx_heap _ _ _ _ _ _ _ _ Hc). rewrite app_nil_r.
    eapply heap_perm; [|exact Hh2]. rewrite (flat_focus _ _ _ _ _ Hk). by rewrite flat_slot_leaf.
Qed.
Lemma same_invalidated T T' : same_tree wl T T' -> same_paths T T' -> invalidated T T' (fun _ => False).
Proof.
  intros (_ & _ & Hv) Hp. split; [done|done|intros; apply Hp|]. intros g _ Hb Hpr. rewrite Hv in Hpr. destruct (Hp g) as [-> ->]. by apply Hb.
Qed.

Lemma invalidated_iff T T' U V : invalidated T T' U -> (forall g, 0 <= g < GFN_LIMIT -> U g <-> V g) -> invalidated T T' V.
Proof. intros [V1 B1 K1 M1] HUV. split; [done|intros g Hg HV; by apply B1, HUV|intros g Hg HV; apply K1; [done|]; by rewrite HUV|done]. Qed.

(** What marking part of a range does. *)
Definition inv_done (T : tree) (U : Z -> Prop) (rc : Z) s' : Prop :=
  0 <= rc /\ exists T', rep T' s' /\ invalidated T T' U /\ (rc = 0 -> forall g, 0 <= g < GFN_LIMIT -> U g -> blocked T g).
Definition inv_post (T : tree) (U : Z -> Prop) s (rc : Z) s' : Prop :=
  only_tables s s' /\ (rc < 0 /\ rep T s' \/ inv_done T U rc s').

Lemma div_span_add i k g : g / span (i + k) = g / span i / span k.
Proof.
  rewrite Z.div_div by (pose proof (span_pos i); pose proof (span_pos k); lia). f_equal. unfold span. rewrite <- Z.pow_add_r by lia. f_equal. lia.
Qed.

Lemma mark_at_table T t a b sub m rem s : at_table T t sub a m rem s -> call_ok t a b -> node_mfn T = ept_mfn s ->
  wp (mark_entries (Z.to_nat (Z.land (Z.shiftr b (Z.of_nat t * EPT_TABLE_ORDER)) (Z.of_nat EPT_PAGETABLE_ENTRIES - 1) -
        Z.shiftr rem (Z.of_nat t * EPT_TABLE_ORDER) + 1)) m (Z.shiftr rem (Z.of_nat t * EPT_TABLE_ORDER)) t 0)
    (fun rc s' => only_tables s s' /\ inv_done T (fun g => a <= g <= b) rc s') s.
Proof.
  intros (R & Hc & Hh & -> & ->) Hcall Hroot. rewrite rem_index, land_idx. destruct sub as [m ks]. cbn [node_mfn].
  assert (idx t a <= idx t b)%nat as Hidx by (apply (idx_order t a b b Hcall); [apply Hcall|destruct Hcall as (_ & ? & _); lia]).
  pose proof (idx_lt t b) as Hlt. replace (Z.to_nat _) with (idx t b - idx t a + 1)%nat by lia.
  eapply wp_mono; [apply (mark_entries_spec t t _ ltac:(done) (idx t a) m ks R 0 s); [unfold EPT_PAGETABLE_ENTRIES; lia|apply Hc|done|done]|].
  intros rc s' (Ho & Hrc & ks' & Hs & Hh' & Hmk & Hz). destruct (mark_table _ _ _ _ _ _ _ _ Hc Hcall Hs Hmk) as (T' & Hc' & Hm & Hinv & Hsame).
  split; [done|]. split; [done|]. exists T'. split_and!; [|done|intros [_ Hks]%Hz; by apply Hsame].
  split_and!; [apply Hc'|rewrite Hm, Hroot, Ho; done|]. rewrite <- (app_nil_r (flat wl T')). apply (ctx_heap _ _ _ _ _ _ _ _ Hc'). by rewrite app_nil_r.
Qed.

(** A walk that ends above the range at an entry that is not present. *)
Lemma absent_range T j sub a b t e : (exists R, ctx wl T j sub a R) -> (t < j)%nat -> kids sub !! idx j a = Some (e, None) -> e_sp e = false -> call_ok t a b ->
  forall g, 0 <= g < GFN_LIMIT -> a <= g <= b -> blocked T g.
Proof.
  intros [R Hc] Hj Hk Hsp Hcall g Hg Hin Hpr. exfalso. rewrite tview_present in Hpr by apply Hc. pose proof Hcall as (_ & Hab & Hlim & _ & _ & Hblk).
  pose proof (cx_le _ _ _ _ _ _ Hc) as Hle. assert (block j a g = true) as Hb.
  { destruct (block (S t) a g) eqn:Hbg; [|by destruct (outside_table _ _ _ _ Hcall Hbg)]. unfold block in *. apply Z.eqb_eq in Hbg. apply Z.eqb_eq.
    replace j with (S t + (j - S t))%nat by lia. rewrite !div_span_add. by rewrite Hbg. }
  rewrite <- (agree_block wl j a g) in Hb by (done || unfold GFN_LIMIT in Hlim; lia). apply andb_prop in Hb as [Ha Hi%Nat.eqb_eq].
  rewrite (cx_leaf _ _ _ _ _ _ Hc g Ha), (tleaf_slot j sub g (e, None)) in Hpr by (by rewrite Hi). cbn in Hpr.
  destruct (proj1 (twf_eq _ _) (cx_sub _ _ _ _ _ _ Hc)) as [_ Hall]. pose proof (Forall_lookup_1 _ _ _ _ Hall Hk) as He.
  pose proof (lo_super _ _ He) as Hs. cbn [fst] in Hs. rewrite Hsp, Hpr in Hs. destruct (Nat.eqb_spec j 0); [lia|done].
Qed.

Lemma ept_invalidate_emt_range_spec T t a b s : rep T s -> call_ok t a b ->
  wp (ept_invalidate_emt_range t a b) (inv_post T (fun g => a <= g <= b) s) s.
Proof.
  intros Hrep Hcall. pose proof Hrep as (HT & Hm & Hh). pose proof Hcall as (Ht & Hab & Hlim & _). apply wp_bind, wp_gets. rewrite <- Hm. apply wp_bind.
  rewrite <- (Z.mod_small a (span (S wl))) at 1 by (unfold GFN_LIMIT in Hlim; lia).
  eapply wp_mono; [eapply (range_walk_spec a t wl _ T T []); [by apply ctx_refl|done|by rewrite app_nil_r|done]|].
  intros [[[r j] m] rem] s1 (-> & sub & Hat & Hend). destruct Hend as [[-> ->]|(Hj & e & Hk & Hend)].
  - rewrite Nat.ltb_irrefl. cbn [andb]. apply wp_bind, wp_ret. eapply wp_mono; [by eapply mark_at_table|].
    intros rc s' [Ho Hd]. split; [done|by right].
  - rewrite (proj2 (Nat.ltb_lt _ _) Hj). destruct Hat as (R & Hc & Hh' & -> & ->). destruct Hend as [[-> Hsp]|[-> Hsp]].
    + apply wp_ret. split; [done|]. right. split; [done|]. exists T.
      assert (forall g, 0 <= g < GFN_LIMIT -> a <= g <= b -> blocked T g) as Hb by (eapply absent_range; [by exists R|exact Hj|exact Hk|done|done]).
      split_and!; [done|by apply invalidated_none|done].
    + cbn [andb Z.eqb]. destruct sub as [m ks]. cbn [node_mfn kids] in *. apply wp_bind. change (GUEST_TABLE_SUPER_PAGE =? GUEST_TABLE_MAP_FAILED) with false. cbn [andb].
      eapply wp_mono; [by eapply split_for_range_spec|]. intros [[m' rem]|] s2 [Ho2 Hres].
      * destruct Hres as (T1 & sub1 & Hs1 & Hp1 & Hat1). eapply wp_mono; [eapply mark_at_table; [exact Hat1|done|]|].
        { rewrite (proj1 Hs1), Hm, Ho2. done. }
        intros rc s3 (Ho3 & Hrc & T2 & Hrep2 & Hinv & Hz). split; [by etrans|]. right. split; [done|]. exists T2. split_and!; [done| |].
        -- eapply invalidated_iff; [eapply invalidated_trans; [by apply same_invalidated|exact Hinv]|]. intros g _. cbn. tauto.
        -- intros Hrc0 g Hg Hin Hpr. destruct (Hp1 g) as [<- <-]. apply (Hz Hrc0 g Hg Hin). by rewrite (proj2 (proj2 Hs1)).
      * apply wp_ret. split; [done|]. left. split; [unfold ENOMEM; lia|]. split_and!; [done|by rewrite Hm, Ho2|done].
Qed.
End marks.

(** ** The levels of a range *)

Lemma land_mask i x : Z.land x (span i - 1) = x mod span i.
Proof. rewrite span_ones, Z.land_ones by lia. done. Qed.

Lemma mask_next i : Z.lor (span (S i) - 1) (Z.shiftl (span (S i) - 1) EPT_TABLE_ORDER) = span (S (S i)) - 1.
Proof.
  rewrite !span_ones. apply Z.bits_inj'. intros n Hn. rewrite Z.lor_spec, Z.shiftl_spec by done. unfold EPT_TABLE_ORDER.
  rewrite !Z.testbit_ones by lia. apply eq_bool_prop_intro. rewrite orb_True, !andb_True, !Is_true_true, !Z.leb_le, !Z.ltb_lt. lia.
Qed.

Lemma mod_span_up i x : x mod span (S i) = 0 -> x mod span i = 0.
Proof. intros Hx. rewrite mod_span_S in Hx. pose proof (Z.mod_pos_bound x (span i) (span_pos i)). pose proof (span_pos i). nia. Qed.

Section levels.
Context {St : Type} (inv : nat -> Z -> Z -> M St Z) (I : (Z -> Prop) -> Z -> St -> Prop) (F : St -> Prop).

(** Each call does its part, or fails. *)
Hypothesis inv_ok : forall i a b U sync s, call_ok i a b -> I U sync s ->
  wp (inv i a b) (fun rc s' => rc < 0 /\ F s' \/ 0 <= rc /\ I (fun g => U g \/ a <= g <= b) (Z.lor sync rc) s') s.
Hypothesis I_iff : forall U V sync s, I U sync s -> (forall g, U g <-> V g) -> I V sync s.

Definition levels_post (U : Z -> Prop) (first last : Z) (res : Z * Z) (s : St) : Prop :=
  res.1 < 0 /\ F s \/ 0 <= res.1 /\ I (fun g => U g \/ first <= g <= last) res.2 s.

(** The rest of the range at level [i]. *)
Definition rest_ok (i : nat) (first last : Z) : Prop :=
  0 <= first <= last /\ last < GFN_LIMIT /\ first mod span i = 0 /\ (last + 1) mod span i = 0 /\ ~ (first = 0 /\ last = GFN_LIMIT - 1).

Lemma rest_up i first last : rest_ok i first last -> first mod span (S i) = 0 -> (last + 1) mod span (S i) = 0 -> rest_ok (S i) first last.
Proof. by intros (? & ? & _ & _ & ?). Qed.

Lemma rest_top first last : rest_ok (S wl) first last -> False.
Proof.
  intros (H1 & H2 & H3 & H4 & H5). apply H5. unfold GFN_LIMIT in *. rewrite Z.mod_small in H3 by lia. split; [done|].
  destruct (decide (last + 1 = span (S wl))); [lia|]. rewrite Z.mod_small in H4 by lia. lia.
Qed.
Lemma last_full i x : x mod span i = span i - 1 <-> (x + 1) mod span i = 0.
Proof.
  pose proof (span_pos i) as Hs. pose proof (Z.mod_pos_bound x (span i) Hs) as Hx. pose proof (Z.div_mod x (span i) ltac:(lia)) as Hd. split.
  - intros Hm. rewrite Hd, Hm. replace (span i * (x / span i) + (span i - 1) + 1) with ((x / span i + 1) * span i) by lia. apply Z.mod_mul. lia.
  - intros Hm. destruct (decide (x mod span i = span i - 1)); [done|]. exfalso. rewrite <- Z.add_mod_idemp_l, Z.mod_small in Hm by lia. lia.
Qed.

Lemma round_down i x : (x - x mod span i) mod span i = 0.
Proof. pose proof (span_pos i). rewrite Zminus_mod_idemp_r, Z.sub_diag. apply Z.mod_0_l. lia. Qed.

Lemma same_block i x y : x - x mod span i <= y <= x - x mod span i + (span i - 1) -> block i x y = true.
Proof.
  intros Hy. pose proof (span_pos i). apply Z.eqb_eq. pose proof (Z.div_mod x (span i) ltac:(lia)). symmetry. apply (Z.div_unique _ _ _ (y - span i * (x / span i))); lia.
Qed.

Section one_level.
Context (i k : nat) (Hi : (i <= wl)%nat).

(** The levels above do the rest. *)
Hypothesis up : forall fuel first last U rc sync s, rest_ok (S i) first last -> (k <= fuel)%nat -> 0 <= rc -> I U sync s ->
  wp (range_levels inv fuel (i + 1) (span (S (S i)) - 1) first last rc sync) (levels_post U first last) s.

Lemma level_full fuel first last U rc sync s : rest_ok (S i) first last -> (k + 1 <= fuel)%nat -> 0 <= rc -> I U sync s ->
  wp (range_levels inv fuel i (span (S i) - 1) first last rc sync) (levels_post U first last) s.
Proof.
  intros Hr Hf Hrc HI. destruct fuel as [|fuel]; [lia|]. cbn [range_levels]. rewrite (proj2 (Nat.ltb_ge _ _)) by lia.
  pose proof Hr as (_ & _ & Hfst & Hlst & _). apply last_full in Hlst. rewrite !land_mask, Hfst, Hlst, !Z.eqb_refl. cbn [negb].
  rewrite mask_next. apply up; [done|lia|done|done].
Qed.

Lemma level_back fuel first last U rc sync s : rest_ok i first last -> first mod span (S i) = 0 -> (k + 2 <= fuel)%nat -> 0 <= rc -> I U sync s ->
  wp (range_levels inv fuel i (span (S i) - 1) first last rc sync) (levels_post U first last) s.
Proof.
  intros Hr Hfst Hf Hrc HI. pose proof Hr as (Hfl & Hlim & H1 & H2 & Hnf). pose proof (span_pos (S i)) as Hs.
  destruct (decide ((last + 1) mod span (S i) = 0)) as [Hlst|Hlst]; [apply level_full; [by apply rest_up|lia|done|done]|].
  destruct fuel as [|fuel]; [lia|]. cbn [range_levels]. rewrite (proj2 (Nat.ltb_ge _ _)) by lia. rewrite !land_mask, Hfst. cbn [negb Z.eqb].
  rewrite (eqb_neq_false (last mod _)) by (by rewrite last_full). cbn [negb]. rewrite land_lnot_mask. set (q := last - last mod span (S i)).
  pose proof (Z.mod_pos_bound last _ Hs) as Hml. pose proof (round_down (S i) last) as Hq. fold q in Hq.
  assert (first <= q) as Hfq.
  { apply Z.div_exact in Hfst, Hq; [|lia..]. pose proof (Z.div_mod last (span (S i)) ltac:(lia)).
    pose proof (Z.div_le_mono first last (span (S i)) Hs ltac:(lia)). unfold q in *. nia. }
  rewrite Z.max_r by done. apply wp_bind. assert (call_ok i q last) as Hcall.
  { split_and!; [done|unfold q; lia|unfold q; lia|lia|by apply mod_span_up|done|]. unfold block. rewrite Z.eqb_sym. apply same_block. unfold q. lia. }
  eapply wp_mono; [by eapply inv_ok|]. intros rc' s' [[Hneg HF]|[Hpos HI']].
  { rewrite (proj2 (Z.ltb_lt _ _) Hneg). apply wp_ret. by left. }
  rewrite (proj2 (Z.ltb_ge _ _) Hpos). cbn [orb]. destruct (Z.leb_spec q first) as [Hle|Hgt].
  - apply wp_ret. right. split; [done|]. eapply I_iff; [exact HI'|]. intros g. cbn. replace q with first by lia. done.
  - eapply wp_mono; [apply (level_full fuel first (q - 1)); [|lia|done|exact HI']|].
    + split_and!; [lia|lia|unfold q; lia|done|by replace (q - 1 + 1) with q by lia|unfold q; lia].
    + intros res s2 [Hfail|[Hp2 HI2]]; [by left|right]. split; [done|]. eapply I_iff; [exact HI2|]. intros g. cbn. unfold q in *. intuition lia.
Qed.

Lemma level_front fuel first last U rc sync s : rest_ok i first last -> (k + 3 <= fuel)%nat -> 0 <= rc -> I U sync s ->
  wp (range_levels inv fuel i (span (S i) - 1) first last rc sync) (levels_post U first last) s.
Proof.
  intros Hr Hf Hrc HI. pose proof Hr as (Hfl & Hlim & H1 & H2 & Hnf). pose proof (span_pos (S i)) as Hs.
  destruct (decide (first mod span (S i) = 0)) as [Hfst|Hfst]; [apply level_back; [done|done|lia|done|done]|].
  destruct fuel as [|fuel]; [lia|]. cbn [range_levels]. rewrite (proj2 (Nat.ltb_ge _ _)) by lia. rewrite !land_mask, (eqb_neq_false _ _ Hfst). cbn [negb].
  rewrite lor_mask. pose proof (Z.mod_pos_bound first _ Hs) as Hmf. pose proof (round_down (S i) first) as Hq.
  set (q := first - first mod span (S i)) in *. set (e := Z.min (q + (span (S i) - 1)) last).
  assert ((q + span (S i)) mod span (S i) = 0) as Hq' by (rewrite <- Z.add_mod_idemp_r, Z.mod_same, Z.add_0_r by lia; done).
  apply wp_bind. assert (call_ok i first e) as Hcall.
  { split_and!; [done|lia|unfold e, q; lia|unfold e; lia|done| |apply same_block; unfold e, q; lia]. unfold e.
    destruct (Z.min_spec (q + (span (S i) - 1)) last) as [[_ ->]|[_ ->]]; [|done]. replace (q + (span (S i) - 1) + 1) with (q + span (S i)) by lia.
    by apply mod_span_up. }
  eapply wp_mono; [by eapply inv_ok|]. intros rc' s' [[Hneg HF]|[Hpos HI']].
  { rewrite (proj2 (Z.ltb_lt _ _) Hneg). apply wp_ret. by left. }
  rewrite (proj2 (Z.ltb_ge _ _) Hpos). cbn [orb]. destruct (Z.leb_spec last e) as [Hle|Hgt].
  - apply wp_ret. right. split; [done|]. eapply I_iff; [exact HI'|]. intros g. cbn. replace e with last by lia. done.
  - assert (e + 1 = q + span (S i)) as He by lia. eapply wp_mono; [apply (level_back fuel (e + 1) last); [| |lia|done|exact HI']|].
    + split_and!; [unfold q in *; lia|lia|lia|rewrite He; by apply mod_span_up|done|unfold q in *; lia].
    + by rewrite He.
    + intros res s2 [Hfail|[Hp2 HI2]]; [by left|right]. split; [done|]. eapply I_iff; [exact HI2|]. intros g. cbn. unfold q in *. intuition lia.
Qed.
End one_level.

Lemma range_levels_spec k : forall i fuel first last U rc sync s, (i + k = S wl)%nat -> rest_ok i first last -> (3 * k <= fuel)%nat -> 0 <= rc -> I U sync s ->
  wp (range_levels inv fuel i (span (S i) - 1) first last rc sync) (levels_post U first last) s.
Proof.
  induction k as [|k IH]; intros i fuel first last U rc sync s Hik Hr Hf Hrc HI.
  { replace i with (S wl) in Hr by lia. by apply rest_top in Hr. }
  apply (level_front i (3 * k)); [lia| |done|lia|done|done]. intros fuel' first' last' U' rc' sync' s' Hr' Hf' Hrc' HI'.
  replace (i + 1)%nat with (S i) by lia. apply IH; [lia|done|done|done|done].
Qed.
End levels.

(** ** The whole range *)

Section ranges.
Context `{EptEnv, !EptLaws}.

(** What is done of the range so far, since the tree was [T0]. *)
Definition progress (T0 : tree) (s0 : ept_p2m) (U : Z -> Prop) (sync : Z) (s : ept_p2m) : Prop :=
  only_tables s0 s /\ 0 <= sync /\ (forall g, U g \/ ~ U g) /\ exists T, rep T s /\ invalidated T0 T U /\
    (sync = 0 -> forall g, 0 <= g < GFN_LIMIT -> U g -> blocked T0 g).

Definition range_failed (T0 : tree) (s0 s : ept_p2m) : Prop := only_tables s0 s /\ exists T, rep T s /\ forall g, tview wl T g = tview wl T0 g.

Lemma invalidate_progress T0 s0 i a b U sync s : call_ok i a b -> progress T0 s0 U sync s ->
  wp (ept_invalidate_emt_range i a b) (fun rc s' => rc < 0 /\ range_failed T0 s0 s' \/
    0 <= rc /\ progress T0 s0 (fun g => U g \/ a <= g <= b) (Z.lor sync rc) s') s.
Proof.
  intros Hcall (Ho & Hsync & Hdec & T & Hrep & Hinv & Hz). eapply wp_mono; [by eapply ept_invalidate_emt_range_spec|].
  intros rc s' (Ho' & [[Hneg Hrep']|(Hrc & T' & Hrep' & Hinv' & Hz')]).
  - left. split; [done|]. split; [by etrans|]. exists T. split; [done|apply Hinv].
  - right. split; [done|]. split_and!; [by etrans|by apply Z.lor_nonneg| |].
    + intros g. destruct (Hdec g); [by left; left|]. destruct (decide (a <= g <= b)); [by left; right|]. right. tauto.
    + exists T'. split_and!; [done|by eapply invalidated_trans|]. intros [H1 H2]%Z.lor_eq_0_iff g Hg HU.
      destruct (Hdec g) as [HUg|HUg]; [by apply Hz|]. destruct HU as [|Hin]; [done|]. intros Hpr. destruct (iv_keep _ _ _ Hinv g Hg HUg) as [<- <-].
      apply (Hz' H2 g Hg Hin). by rewrite (iv_view _ _ _ Hinv).
Qed.

(** The table is the same but for the marks, which the frames [U] have. *)
Definition types_pending (T : tree) (s : ept_p2m) (U : Z -> Prop) (s' : ept_p2m) : Prop :=
  ept_mfn s' = ept_mfn s /\ pt_max s' = pt_max s /\ exists T', rep T' s' /\ invalidated T T' U /\
    (will_flush s' = true \/ forall g, 0 <= g < GFN_LIMIT -> U g -> blocked T g).

Lemma only_tables_root s s' : only_tables s s' -> ept_mfn s' = ept_mfn s /\ pt_max s' = pt_max s.
Proof. by intros ->. Qed.

Lemma wp_maybe_sync (b : bool) (rc : Z) s (Q : Z -> ept_p2m -> Prop) :
  (forall i n, Q rc (set_flush i n s)) -> wp (do! (if b then ept_sync_domain else ret tt) in ret rc) Q s.
Proof.
  intros HQ. apply wp_bind. destruct b; [apply wp_sync_domain; intros i n s2 _; apply wp_ret, HQ|]. apply wp_ret, wp_ret.
  specialize (HQ (pt_invalidate s) (pt_need_flush s)). by destruct s.
Qed.

Lemma ept_change_entry_type_range_spec T s first last : rep T s -> ept_mfn s <> 0 -> rest_ok 0 first last ->
  wp (ept_change_entry_type_range first last) (fun rc s' => rc < 0 /\ ept_mfn s' = ept_mfn s /\ pt_max s' = pt_max s /\ (exists T', rep T' s' /\ forall g, tview wl T' g = tview wl T g) \/
    rc = 0 /\ types_pending T s (fun g => first <= g <= last) s') s.
Proof.
  intros Hrep Hne Hr. apply wp_bind, wp_gets. rewrite (eqb_neq_false _ _ Hne). apply wp_bind.
  eapply wp_mono; [apply (range_levels_spec ept_invalidate_emt_range (progress T s) (range_failed T s)) with (k := S wl) (U := fun _ => False)|].
  - intros. by apply invalidate_progress.
  - intros U V sync s' (H1 & H2 & H3 & T' & H4 & H5 & H6) HUV. split_and!; [done|done|intros g; by rewrite <- HUV|]. exists T'.
    split_and!; [done|by eapply invalidated_iff|]. intros Hs g Hg HV. apply H6; [done|done|by apply HUV].
  - done.
  - done.
  - done.
  - done.
  - split_and!; [done|done|intros g; right; tauto|]. exists T. split_and!; [done|by apply invalidated_none|done].
  - intros [rc sync] s1 [[Hneg (Ho & T' & Hrep' & Hv)]|[Hrc (Ho & Hs & _ & T' & Hrep' & Hinv & Hz)]]; cbn [fst snd] in *;
      destruct (only_tables_root _ _ Ho) as [E1 E2].
    + apply wp_maybe_sync. intros i n. rewrite (proj2 (Z.ltb_lt _ _) Hneg). left. split_and!; [done|done|done|]. exists T'. done.
    + assert (invalidated T T' (fun g => first <= g <= last)) as Hinv' by (eapply invalidated_iff; [exact Hinv|]; cbn; tauto).
      rewrite (proj2 (Z.ltb_ge _ _) Hrc). apply wp_bind. destruct (Z.eqb_spec sync 0) as [Hz0|Hnz]; cbn [negb].
      * apply wp_ret, wp_ret. right. split; [done|]. split_and!; [done|done|]. exists T'. split_and!; [done|done|]. right. intros g Hg HU. apply Hz; [done|done|by right].
      * apply wp_sync_domain. intros i n s2 Hfl. apply wp_ret. right. split; [done|]. split_and!; [done|done|]. exists T'. split_and!; [done|done|by left].
Qed.
(** Marking the entries of a table for recalculation is the same in both
    loops. *)
Lemma invalidate_marks n m lv (Q : bool -> ept_p2m -> Prop) : forall i rc s, 0 <= rc ->
  wp (mark_entries n m i (lv - 1) rc) (fun rc' s' => Q (negb (rc' =? 0)) s') s ->
  wp (invalidate_loop n m i true lv (negb (rc =? 0))) Q s.
Proof.
  induction n as [|n IH]; intros i rc s Hrc Hm; cbn [mark_entries invalidate_loop] in *.
  { destruct Hm as (a & s' & Heq & HQ). injection Heq as <- <-. by apply wp_ret. }
  destruct Hm as (a & s' & Hrun & HQ). apply bind_inv in Hrun as (e & s1 & He & Hrun).
  apply wp_bind. exists e, s1. split; [done|].
  assert ((negb (is_epte_valid e) || negb (is_epte_present e) || (e_emt e =? MTRR_NUM_TYPES) && (e_recalc e || negb true)) =
    negb (is_epte_valid e && is_epte_present e && (negb (e_emt e =? MTRR_NUM_TYPES) || negb (e_recalc e)))) as ->
    by (by destruct (is_epte_valid e), (is_epte_present e), (e_emt e =? MTRR_NUM_TYPES), (e_recalc e)).
  destruct (is_epte_valid e && is_epte_present e && _); cbn [negb].
  - apply bind_inv in Hrun as (wrc & s2 & Hw & Hrun). apply bind_inv in Hrun as (u & s3 & Ha & Hrun). apply wp_bind. exists wrc, s2. split; [done|].
    apply wp_bind. exists u, s3. split; [done|]. apply (IH (i + 1) 1); [lia|]. by exists a, s'.
  - apply IH; [done|]. by exists a, s'.
Qed.

Lemma ept_change_entry_type_global_spec T s : rep T s -> ept_mfn s <> 0 ->
  wp ept_change_entry_type_global (fun _ s' => types_pending T s (fun g => 0 <= g < GFN_LIMIT) s') s.
Proof.
  intros (HT & Hm & Hh) Hne. apply wp_bind, wp_gets. rewrite (eqb_neq_false _ _ Hne), <- Hm. apply wp_bind, wp_bind, wp_assert; [done|].
  destruct T as [m ks]. cbn [node_mfn] in *. apply (invalidate_marks _ _ wl _ 0 0); [done|].
  assert (heap (flat wl (Node m ks) ++ []) s) as Hh' by (by rewrite app_nil_r).
  eapply wp_mono; [apply (mark_entries_spec wl (wl - 1) _ ltac:(done) 0 m ks [] 0 s); [done|done|done|done]|].
  intros rc s' (Ho & Hrc & ks' & Hs & Hh1 & Hmk & Hz). rewrite app_nil_r in Hh1. destruct (only_tables_root _ _ Ho) as [E1 E2].
  assert (call_ok wl 0 (GFN_LIMIT - 1)) as Hcall by (by split_and!).
  destruct (mark_table _ _ _ _ _ _ _ ks' (ctx_refl wl (Node m ks) 0 HT) Hcall Hs) as (T' & Hc' & Hm' & Hinv & Hsame); [done|].
  assert (rep T' s') as Hrep' by (split_and!; [apply Hc'|by rewrite Hm', E1|eapply heap_perm; [|exact Hh1]; rewrite (cx_flat _ _ _ _ _ _ Hc'); by rewrite app_nil_r]).
  assert (invalidated (Node m ks) T' (fun g => 0 <= g < GFN_LIMIT)) as Hinv' by (eapply invalidated_iff; [exact Hinv|]; cbn; lia).
  destruct (Z.eqb_spec rc 0) as [Hrc0|Hrc0]; cbn [negb].
  - apply wp_ret. split_and!; [done|done|]. exists T'. split_and!; [done|done|right]. intros g Hg _. apply Hsame; [by apply Hz|done|lia].
  - apply wp_sync_domain. intros i n s2 Hfl. split_and!; [done|done|]. exists T'. split_and!; [done|done|by left].
Qed.
End ranges.
