(* ===== verification/LogDirty.v ===== *)
(** * Log-dirty frames

    The set of log-dirty frames as the environment of the page tables, and the
    change of the types of a range: afterwards the processor uses no page of
    the range before it has reported a misconfiguration, and a lookup reports
    the new type. *)

From S2P Require Import Prelude RbTree RbSpec RbHeap PageInfo XomDomain XomSeal P2mTypes XomGuest MemType Ept EptSpec EptOps EptResolve EptWalk EptEntry EptP2m EptHardware EptMisconfig Rangeset RangesetSpec RangesetOps RangesetTheorems EptTypeChange EptTypeSpec.

#[local] Existing Instance marking | 0.

(** ** The questions of the page tables *)

(** The answer of a set of ranges. *)
Definition ask (m : M rangeset bool) (r : rangeset) : bool := match m r with Some (b, _) => b | None => false end.

(** The environment in which [logdirty_ranges] is the set [r]. *)
Definition ld_env (E : EptEnv) (r : rangeset) : EptEnv := {|
  hap_alloc_page := @hap_alloc_page E; mfn_valid := @mfn_valid E; page_get_owner_and_reference := @page_get_owner_and_reference E;
  mmio_ro := @mmio_ro E; mmio_ro_overlaps := @mmio_ro_overlaps E; mmio_ro_contains := @mmio_ro_contains E;
  is_special_page := @is_special_page E; cache_flush_permitted := @cache_flush_permitted E; pinned_cacheattr_ranges := @pinned_cacheattr_ranges E;
  guest_mtrr := @guest_mtrr E; host_mtrr := @host_mtrr E; cpu_has_vmx_ept_ad := @cpu_has_vmx_ept_ad E; hap_has_2mb := @hap_has_2mb E;
  hap_has_1gb := @hap_has_1gb E; vmx_domain_pml_enabled := @vmx_domain_pml_enabled E; exec_sp := @exec_sp E;
  ioreq_write_access := @ioreq_write_access E; ioreq_server_set := @ioreq_server_set E; default_access := @default_access E;
  global_logdirty := @global_logdirty E;
  logdirty_contains := fun s e => ask (rangeset_contains_range s e) r;
  logdirty_overlaps := fun s e => ask (rangeset_overlaps_range s e) r;
  is_iommu_enabled := @is_iommu_enabled E; iommu_snoop := @iommu_snoop E; iommu_use_hap_pt := @iommu_use_hap_pt E;
  iommu_dont_flush_iotlb := @iommu_dont_flush_iotlb E; need_iommu_pt_sync := @need_iommu_pt_sync E; iommu_iotlb_flush := @iommu_iotlb_flush E;
  iommu_legacy_map := @iommu_legacy_map E; iommu_legacy_unmap := @iommu_legacy_unmap E; paging_mode_hap := @paging_mode_hap E;
  has_vcpus := @has_vcpus E; defer_flush := @defer_flush E; p2m_altp2m_propagate_change := @p2m_altp2m_propagate_change E
|}.

Section env.
Context (E : EptEnv) {Hlaws : EptLaws} (r : rangeset).

Lemma ld_laws : @EptLaws (ld_env E r).
Proof. destruct Hlaws. by split. Qed.

Lemma ld_twf l t : twf l t <-> @twf (ld_env E r) marking l t.
Proof. split; apply twf_impl; try done; intros l' e []; by split. Qed.

Lemma ld_rep_env T s : rep T s <-> @rep (ld_env E r) marking T s.
Proof. unfold rep. by rewrite ld_twf. Qed.
End env.

Section answers.
Context (E : EptEnv) (P : Z -> Prop) (c : Z) (d : option Z) (r : rangeset).
Hypothesis Hr : rs_set P c d r.

Lemma ask_contains s e : 0 <= s <= e -> ask (rangeset_contains_range s e) r = true <-> forall n, s <= n <= e -> P n.
Proof. intros Hs. destruct (rangeset_contains_range_spec P c d s e r Hr Hs) as (b & r' & Hrun & _ & Hb). unfold ask. by rewrite Hrun. Qed.

Lemma ask_overlaps s e : 0 <= s <= e -> ask (rangeset_overlaps_range s e) r = true <-> exists n, s <= n <= e /\ P n.
Proof. intros Hs. destruct (rangeset_overlaps_range_spec P c d s e r Hr Hs) as (b & r' & Hrun & _ & Hb). unfold ask. by rewrite Hrun. Qed.

(** The type of a frame is recalculated by the set. *)
Lemma recalc_by_set t g : 0 <= g -> p2m_is_changeable t = true -> (t =? p2m_ioreq_server) && ioreq_server_set = false ->
  (global_logdirty = true \/ P g -> @p2m_recalc_type (ld_env E r) true t g = p2m_ram_logdirty) /\
  (global_logdirty = false -> ~ P g -> @p2m_recalc_type (ld_env E r) true t g = p2m_ram_rw).
Proof.
  intros Hg Ht Hio. unfold p2m_recalc_type, p2m_recalc_type_range. rewrite Ht. cbn [negb orb]. change (@ioreq_server_set (ld_env E r)) with (@ioreq_server_set E). rewrite Hio.
  unfold p2m_is_logdirty_range. cbn [global_logdirty logdirty_contains logdirty_overlaps ld_env].
  pose proof (ask_contains g g ltac:(lia)) as Hc. pose proof (ask_overlaps g g ltac:(lia)) as Ho. split.
  - intros [->|Hp]; [done|]. assert (ask (rangeset_contains_range g g) r = true) as -> by (apply Hc; intros n Hn; by replace n with g by lia).
    by rewrite orb_true_r.
  - intros -> Hp. destruct (ask (rangeset_contains_range g g) r); [destruct Hp; by apply Hc; [|lia]|].
    destruct (ask (rangeset_overlaps_range g g) r); [|done]. destruct Hp. destruct Ho as [Ho _]. destruct (Ho eq_refl) as (n & Hn & Hp). by replace g with n by lia.
Qed.
End answers.

(** ** Observations *)

(** The entry a frame leads to. *)
Fixpoint leaf_at (l : nat) (tables : gmap Z (list ept_entry)) (m g : Z) : option ept_entry :=
  match tables !! m ≫= (.!! idx l g) with
  | None => None
  | Some e =>
      if (l =? 0)%nat || e_sp e || negb (is_epte_present e) then Some e
      else match l with O => None | S l' => leaf_at l' tables (e_mfn e) g end
  end.

(** There is a page that the processor could use. *)
Definition page_present (s : ept_p2m) (g : Z) : bool :=
  match leaf_at wl (pt_tables s) (ept_mfn s) g with Some e => is_epte_present e | None => false end.

Section observe.
Context `{EptEnv, !EptLaws}.

Lemma leaf_at_spec l : forall t g L s, twf l t -> heap (flat l t ++ L) s -> leaf_at l (pt_tables s) (node_mfn t) g = Some (tleaf l t g).2.
Proof.
  induction l as [|l IH]; intros [m ks] g L s Ht Hh; destruct (twf_slot _ _ g Ht) as ([e o] & Hk & Hwf); cbn [kids] in Hk;
    pose proof (heap_lookup _ _ _ _ (heap_open _ _ _ _ _ _ _ Hk Hh)) as Hl; rewrite (tleaf_slot _ (Node m ks) _ _ Hk); cbn [leaf_at node_mfn]; rewrite Hl; cbn;
    rewrite list_lookup_fmap, Hk; cbn.
  - by destruct o.
  - destruct o as [t1|].
    + destruct Hwf as (Hm & Hmfn & Ht1). cbn [fst] in *. rewrite (mo_sp _ Hm), (middle_present _ Hm), Hmfn. cbn. eapply IH; [done|by eapply heap_kid].
    + change (leaf_ok (S l) e) in Hwf. rewrite (leaf_super _ _ Hwf). by destruct (is_epte_present e).
Qed.

Lemma page_present_view T s g : rep T s -> page_present s g = (tview wl T g).2.
Proof.
  intros (HT & Hm & Hh). rewrite tview_present by done. unfold page_present. rewrite <- Hm, (leaf_at_spec wl T g [] s HT); [done|]. by rewrite app_nil_r.
Qed.

(** A blocked frame cannot be used. *)
Lemma blocked_hw exec_only T s g : rep T s -> blocked T g ->
  hw_translate exec_only s g = Some HwViolation \/ hw_translate exec_only s g = Some HwMisconfig.
Proof.
  intros Hrep Hb. destruct (hw_translate_leaf exec_only T s g Hrep) as (res & -> & Hp & Hag). unfold blocked in Hb.
  rewrite tview_present in Hb by apply Hrep. destruct res; [by left|by right|]. destruct Hag as [Hpr _]. by specialize (Hp (proj1 (Hb Hpr))).
Qed.
End observe.

(** What a lookup reports, by the set of log-dirty frames. *)
Definition ld_lookup (E : EptEnv) (d : ld_p2m) (g : Z) : Z * Z * Z :=
  match @ept_get_entry (ld_env E (ld_ranges d)) g (ld_ept d) with
  | Some ((mfn, t, a, _), _) => (mfn, t, a)
  | None => hole.1
  end.

(** The tables are in order, and the log-dirty frames are [P]. *)
Definition ld_ok (E : EptEnv) (P : Z -> Prop) (d : ld_p2m) : Prop :=
  (exists T, rep T (ld_ept d)) /\ ept_mfn (ld_ept d) <> 0 /\ 0 <= pt_max (ld_ept d) < GFN_LIMIT /\ exists c o, rs_set P c o (ld_ranges d).

(** Types that a recalculation may change. *)
Definition switchable (E : EptEnv) (t : Z) : bool := p2m_is_changeable t && negb ((t =? p2m_ioreq_server) && @ioreq_server_set E).

Definition ld_new (on : bool) (P : Z -> Prop) (start last n : Z) : Prop :=
  if on then P n \/ start <= n <= last else P n /\ ~ (start <= n <= last).

Section change.
Context (E : EptEnv) {Hlaws : EptLaws} `{Xmalloc}.

Lemma ld_lookup_reported d T g : rep T (ld_ept d) -> 0 <= g -> pt_max (ld_ept d) < GFN_LIMIT ->
  ld_lookup E d g = if pt_max (ld_ept d) <? g then hole.1 else @reported (ld_env E (ld_ranges d)) T g.
Proof.
  intros Hrep Hg Hlim. unfold ld_lookup.
  destruct (@ept_get_entry_reported (ld_env E (ld_ranges d)) (ld_laws E (ld_ranges d)) marking T g (ld_ept d) (proj1 (ld_rep_env E _ _ _) Hrep) Hg Hlim)
    as ([[[mfn t] a] o] & s' & -> & _ & Hv & _). exact Hv.
Qed.

(** The recalculated type of a frame does not change if its membership does not. *)
Lemma recalc_same P P' c c' o o' r r' b t g : rs_set P c o r -> rs_set P' c' o' r' -> 0 <= g -> (P' g <-> P g) ->
  @p2m_recalc_type (ld_env E r') b t g = @p2m_recalc_type (ld_env E r) b t g.
Proof.
  intros Hr Hr' Hg Hp. destruct b; [|done]. destruct (p2m_is_changeable t) eqn:Ht; [|unfold p2m_recalc_type, p2m_recalc_type_range; by rewrite Ht].
  destruct ((t =? p2m_ioreq_server) && ioreq_server_set) eqn:Hio.
  { unfold p2m_recalc_type, p2m_recalc_type_range. rewrite Ht. cbn [negb orb]. change (@ioreq_server_set (ld_env E r')) with (@ioreq_server_set E).
    change (@ioreq_server_set (ld_env E r)) with (@ioreq_server_set E). by rewrite Hio. }
  destruct (recalc_by_set E P c o r Hr t g Hg Ht Hio) as [H1 H2]. destruct (recalc_by_set E P' c' o' r' Hr' t g Hg Ht Hio) as [H1' H2'].
  destruct (@global_logdirty E) eqn:Hgl; [by rewrite H1, H1' by auto|].
  destruct (rs_set_dec _ _ _ _ g Hr) as [Hd|Hd]; [rewrite H1, H1' by tauto|rewrite H2, H2' by tauto]; done.
Qed.

Lemma switchable_stored r b t g : switchable E (@p2m_recalc_type (ld_env E r) b t g) = true ->
  p2m_is_changeable t = true /\ (t =? p2m_ioreq_server) && ioreq_server_set = false.
Proof.
  unfold switchable, p2m_recalc_type, p2m_recalc_type_range. change (@ioreq_server_set (ld_env E r)) with (@ioreq_server_set E).
  destruct (negb b || negb (p2m_is_changeable t)) eqn:Hb; [|destruct ((t =? p2m_ioreq_server) && ioreq_server_set) eqn:Hio].
  - by intros [? ?%negb_true_iff]%andb_prop.
  - rewrite Hio. by rewrite andb_false_r.
  - intros _. apply orb_false_elim in Hb as [_ Hb%negb_false_iff]. done.
Qed.

(** The frames from [start] to [last] are switched, the others are not touched. *)
Record switched (on : bool) (start last : Z) (d d' : ld_p2m) : Prop := {
  sw_others : forall g, 0 <= g -> ~ (start <= g <= last) -> ld_lookup E d' g = ld_lookup E d g;
  sw_frames : forall g, start <= g <= last -> exists mfn t a t', ld_lookup E d g = (mfn, t, a) /\ ld_lookup E d' g = (mfn, t', a) /\
    (page_present (ld_ept d) g = true -> switchable E t = true -> t' = if on || global_logdirty then p2m_ram_logdirty else p2m_ram_rw);
  sw_blocked : forall exec_only g, start <= g <= last ->
    hw_translate exec_only (ld_ept d') g = Some HwViolation \/ hw_translate exec_only (ld_ept d') g = Some HwMisconfig;
  sw_flushed : will_flush (ld_ept d') = true \/ forall exec_only g, start <= g <= last ->
    hw_translate exec_only (ld_ept d) g = Some HwViolation \/ hw_translate exec_only (ld_ept d) g = Some HwMisconfig
}.

Lemma pending_switched on P T s U s' start last c c' o o' r r' b b' : rep T s -> 0 <= pt_max s < GFN_LIMIT -> types_pending T s U s' ->
  (forall g, 0 <= g <= pt_max s -> U g <-> start <= g <= last) -> 0 <= start -> last <= pt_max s ->
  rs_set P c o r -> rs_set (ld_new on P start last) c' o' r' -> switched on start last (LdP2m s r b) (LdP2m s' r' b').
Proof.
  intros Hrep Hmax (E1 & E2 & T' & Hrep' & Hinv & Hfl) HU Hs Hl Hr Hr'.
  assert (forall g, start <= g <= last -> 0 <= g < GFN_LIMIT /\ U g) as Hin by (intros g Hg; split; [lia|apply HU; lia]).
  split; cbn [ld_ept ld_ranges].
  - intros g Hg Hout. rewrite (ld_lookup_reported (LdP2m s r b) T g Hrep Hg), (ld_lookup_reported (LdP2m s' r' b') T' g Hrep' Hg) by (cbn; lia). cbn [ld_ept ld_ranges]. rewrite E2.
    destruct (Z.ltb_spec (pt_max s) g); [done|]. unfold reported. rewrite (iv_view _ _ _ Hinv).
    destruct (iv_keep _ _ _ Hinv g ltac:(lia)) as [_ ->]; [rewrite HU by lia; done|]. destruct (tview wl T g) as [[[mfn t] a] pr]. do 2 f_equal.
    eapply recalc_same; [exact Hr|exact Hr'|done|]. unfold ld_new. destruct on; tauto.
  - intros g Hg. destruct (Hin g Hg) as [Hlim HUg]. rewrite (ld_lookup_reported (LdP2m s r b) T g Hrep), (ld_lookup_reported (LdP2m s' r' b') T' g Hrep') by (cbn; lia). cbn [ld_ept ld_ranges].
    rewrite E2, (proj2 (Z.ltb_ge _ _)) by lia. unfold reported. rewrite (iv_view _ _ _ Hinv), (page_present_view T s g Hrep).
    pose proof (iv_blocked _ _ _ Hinv g Hlim HUg) as Hb. unfold blocked in Hb. rewrite (iv_view _ _ _ Hinv) in Hb.
    destruct (tview wl T g) as [[[mfn t] a] pr]. do 4 eexists. split_and!; [reflexivity|reflexivity|]. cbn [snd] in *. intros Hpr Hsw.
    destruct (Hb Hpr) as [_ ->]. apply switchable_stored in Hsw as [Hch Hio].
    destruct (recalc_by_set E _ _ _ _ Hr' t g ltac:(lia) Hch Hio) as [H1 H2]. unfold ld_new in H1, H2.
    destruct (@global_logdirty E) eqn:Hgl; [rewrite orb_true_r; apply H1; by left|]. rewrite orb_false_r.
    destruct on; [apply H1; right; by right|apply H2; [done|tauto]].
  - intros x g Hg. destruct (Hin g Hg). eapply blocked_hw; [exact Hrep'|]. by apply (iv_blocked _ _ _ Hinv).
  - destruct Hfl as [Hfl|Hfl]; [by left|right]. intros x g Hg. destruct (Hin g Hg). eapply blocked_hw; [exact Hrep|]. by apply Hfl.
Qed.

Lemma wp_on_ept {A} (m : M ept_p2m A) d (Q : A -> ld_p2m -> Prop) : wp m (fun a s => Q a (LdP2m s (ld_ranges d) (ld_crashed d))) (ld_ept d) -> wp (on_ept m) Q d.
Proof. intros (a & s & Hm & HQ). exists a. eexists. split; [unfold on_ept; by rewrite Hm|done]. Qed.

Lemma wp_on_ranges {A} (m : M rangeset A) d (Q : A -> ld_p2m -> Prop) : wp m (fun a r => Q a (LdP2m (ld_ept d) r (ld_crashed d))) (ld_ranges d) -> wp (on_ranges m) Q d.
Proof. intros (a & r & Hm & HQ). exists a. eexists. split; [unfold on_ranges; by rewrite Hm|done]. Qed.

(** The new set of log-dirty frames. *)
Lemma switch_ranges on P c o start last r : rs_set P c o r -> 0 <= start <= last -> last < 2 ^ 64 -> (on = false -> remove_ok P start last) ->
  wp (if on then rangeset_add_range start last else rangeset_remove_range start last)
    (fun rc r' => rc = 0 /\ rs_set (ld_new on P start last) c o r' \/ rc = - ENOMEM /\ rs_set P c o r') r.
Proof.
  intros Hr Hs Hl Hok. destruct on.
  - eapply wp_mono; [apply (rangeset_add_range_spec _ _ _ _ _ _ Hr); lia|]. done.
  - specialize (Hok eq_refl). eapply wp_mono; [apply (rangeset_remove_range_spec _ _ _ _ _ _ Hr); [lia|lia|destruct Hok as [|[? _]]; auto]|].
    intros rc r' [[-> Hr']|(-> & _ & Hr')]; [left|by right]. split; [done|]. eapply rs_set_iff; [exact Hr'|]. intros n. by apply removed_ok.
Qed.

(** The part of the tables: the types of the range are pending, or, without
    memory for a new table, all pages are as before. *)
Lemma change_types_spec T d start last (Q : Z -> ld_p2m -> Prop) : rep T (ld_ept d) -> ept_mfn (ld_ept d) <> 0 -> pt_max (ld_ept d) < GFN_LIMIT ->
  0 <= start <= last -> last <= pt_max (ld_ept d) ->
  (forall s' U, types_pending T (ld_ept d) U s' -> (forall g, 0 <= g <= pt_max (ld_ept d) -> U g <-> start <= g <= last) -> Q 0 (LdP2m s' (ld_ranges d) (ld_crashed d))) ->
  (forall rc s' T', rc < 0 -> ept_mfn s' = ept_mfn (ld_ept d) -> pt_max s' = pt_max (ld_ept d) -> rep T' s' -> Q rc (LdP2m s' (ld_ranges d) (ld_crashed d))) ->
  wp (if (start =? 0) && (last =? pt_max (ld_ept d)) then do! on_ept ept_change_entry_type_global in ret 0
      else on_ept (ept_change_entry_type_range start last)) Q d.
Proof.
  intros Hrep Hm Hmax Hs Hl Hok Herr. destruct ((start =? 0) && (last =? pt_max (ld_ept d))) eqn:Hall.
  - apply andb_prop in Hall as [->%Z.eqb_eq ->%Z.eqb_eq]. apply wp_bind, wp_on_ept.
    eapply wp_mono; [by apply (ept_change_entry_type_global_spec T)|]. intros [] s' Hp. apply wp_ret. eapply Hok; [exact Hp|]. cbn. lia.
  - apply wp_on_ept. eapply wp_mono; [apply (ept_change_entry_type_range_spec T); [done|done|]|].
    + split_and!; [lia|lia|lia|apply Z.mod_1_r|apply Z.mod_1_r|]. intros [-> Hlast]. apply andb_false_iff in Hall as [?|?]; lia.
    + intros rc s' [(Hneg & E1 & E2 & T' & Hrep' & _)|[-> Hp]]; [by eapply Herr|]. by eapply Hok.
Qed.

(** The tables were in order and stay so when the domain is crashed. *)
Definition ld_crash (P P' : Z -> Prop) (d' : ld_p2m) : Prop := ld_crashed d' = true /\ (ld_ok E P d' \/ ld_ok E P' d').

Lemma switch_set on P c o start last rc d : rs_set P c o (ld_ranges d) -> 0 <= start <= last -> last < 2 ^ 64 -> (on = false -> remove_ok P start last) ->
  wp (if (if on then p2m_ram_logdirty else p2m_ram_rw) =? p2m_ram_rw then
                  if (if on then p2m_ram_rw else p2m_ram_logdirty) =? p2m_ram_logdirty then on_ranges (rangeset_remove_range start last) else ret rc
                else if (if on then p2m_ram_logdirty else p2m_ram_rw) =? p2m_ram_logdirty then
                  if (if on then p2m_ram_rw else p2m_ram_logdirty) =? p2m_ram_rw then on_ranges (rangeset_add_range start last) else ret rc
                else ret rc)
    (fun rc d' => exists r', d' = LdP2m (ld_ept d) r' (ld_crashed d) /\ (rc = 0 /\ rs_set (ld_new on P start last) c o r' \/ rc = - ENOMEM /\ rs_set P c o r')) d.
Proof.
  intros Hr Hs Hl Hok. pose proof (switch_ranges on P c o start last _ Hr Hs Hl Hok) as Hsw.
  destruct on; apply wp_on_ranges; (eapply wp_mono; [exact Hsw|]); eauto.
Qed.

Lemma change_set_spec on P c o start last rc d d1 : rs_set P c o (ld_ranges d1) -> (exists T, rep T (ld_ept d1)) -> ept_mfn (ld_ept d1) <> 0 ->
  0 <= pt_max (ld_ept d1) < GFN_LIMIT -> 0 <= start <= last -> last < 2 ^ 64 -> (on = false -> remove_ok P start last) ->
  (ld_crashed d1 = true \/ rc = 0 /\ ld_crashed d1 = ld_crashed d /\ forall r', rs_set (ld_new on P start last) c o r' -> switched on start last d (LdP2m (ld_ept d1) r' (ld_crashed d1))) ->
  wp (let! rc := (if (if on then p2m_ram_logdirty else p2m_ram_rw) =? p2m_ram_rw then
                  if (if on then p2m_ram_rw else p2m_ram_logdirty) =? p2m_ram_logdirty then on_ranges (rangeset_remove_range start last) else ret rc
                else if (if on then p2m_ram_logdirty else p2m_ram_rw) =? p2m_ram_logdirty then
                  if (if on then p2m_ram_rw else p2m_ram_logdirty) =? p2m_ram_rw then on_ranges (rangeset_add_range start last) else ret rc
                else ret rc) in
      if negb (rc =? 0) then domain_crash else ret tt)
    (fun _ d' => ld_crash P (ld_new on P start last) d' \/
       ld_ok E (ld_new on P start last) d' /\ ld_crashed d' = ld_crashed d /\ switched on start last d d') d1.
Proof.
  intros Hr HT Hm Hmax Hs Hl Hok Hcase.
  assert (forall P' r' b, rs_set P' c o r' -> ld_ok E P' (LdP2m (ld_ept d1) r' b)) as Hld by (intros; by repeat (split; [done|]); exists c, o).
  apply wp_bind. eapply wp_mono; [by eapply (switch_set on P)|].
  intros rc' d2 (r' & -> & [[-> Hr']|[-> Hr']]); [apply wp_ret|apply wp_modify; left; split; [done|left; by apply Hld]].
    destruct Hcase as [Hcr|(-> & Hcr & Hd)]; [left; split; [done|right; by apply Hld]|right]. split_and!; [by apply Hld|done|by apply Hd].
Qed.

Lemma p2m_change_type_range_spec on P d start endx : ld_ok E P d -> 0 <= start -> endx <= 2 ^ 64 ->
  let last := Z.min (endx - 1) (pt_max (ld_ept d)) in start < last -> (on = false -> remove_ok P start last) ->
  wp (p2m_change_type_range start endx (if on then p2m_ram_rw else p2m_ram_logdirty) (if on then p2m_ram_logdirty else p2m_ram_rw))
    (fun _ d' => ld_crash P (ld_new on P start last) d' \/
       ld_ok E (ld_new on P start last) d' /\ ld_crashed d' = ld_crashed d /\ switched on start last d d') d.
Proof.
  intros ([T Hrep] & Hm & Hmax & c & o & Hr) Hs He last Hlt Hok.
  apply wp_bind, wp_assert; [by destruct on|]. apply wp_bind, wp_assert; [by destruct on|]. apply wp_bind, wp_on_ept, wp_gets.
  apply wp_bind, wp_on_ept, wp_gets. destruct d as [s r b]. cbn [ld_ept ld_ranges ld_crashed] in *.
  assert ((if pt_max s <? u64 (endx - 1) then pt_max s else u64 (endx - 1)) = last) as ->.
  { unfold u64. rewrite Z.mod_small by lia. destruct (Z.ltb_spec (pt_max s) (endx - 1)); lia. }
  rewrite (proj2 (Z.ltb_ge _ _)), (proj2 (Z.ltb_lt _ _) Hlt) by lia. unfold GFN_LIMIT in Hmax.
  apply wp_bind, wp_bind, wp_assert; [lia|]. apply wp_bind, (change_types_spec T (LdP2m s r b)); cbn [ld_ept ld_ranges ld_crashed]; [done|done|apply Hmax|lia|lia| |].
  - intros s' U Hp HU. apply wp_bind, wp_ret, wp_ret. pose proof Hp as (E1 & E2 & T' & Hrep' & _).
    apply (change_set_spec on P c o start last 0 (LdP2m s r b) (LdP2m s' r b)); cbn [ld_ept ld_ranges ld_crashed]; [done|by exists T'|congruence|by rewrite E2|lia|change (span (S wl)) with (2 ^ 36) in Hmax; lia|done|].
    right. split_and!; [done|done|]. intros r' Hr'. eapply (pending_switched on P T s U s' start last); [done|done|done|done|lia|lia|done|done].
  - intros rc s' T' Hneg E1 E2 Hrep'. rewrite (eqb_neq_false rc 0) by lia. cbn [negb]. apply wp_bind, wp_modify, wp_ret.
    apply (change_set_spec on P c o start last rc (LdP2m s r b) (LdP2m s' r true)); cbn [ld_ept ld_ranges ld_crashed]; [done|by exists T'|congruence|by rewrite E2|lia|change (span (S wl)) with (2 ^ 36) in Hmax; lia|done|by left].
Qed.

(** Nothing is marked for a single frame. *)
Lemma change_single_frame on P d start : ld_ok E P d -> 0 <= start <= pt_max (ld_ept d) -> (on = false -> remove_ok P start start) ->
  wp (p2m_change_type_range start (start + 1) (if on then p2m_ram_rw else p2m_ram_logdirty) (if on then p2m_ram_logdirty else p2m_ram_rw))
    (fun _ d' => ld_ept d' = ld_ept d /\ (ld_crashed d' = true \/ ld_ok E (ld_new on P start start) d')) d.
Proof.
  intros ([T Hrep] & Hm & Hmax & c & o & Hr) Hs Hok.
  apply wp_bind, wp_assert; [by destruct on|]. apply wp_bind, wp_assert; [by destruct on|]. apply wp_bind, wp_on_ept, wp_gets.
  apply wp_bind, wp_on_ept, wp_gets. destruct d as [s r b]. cbn [ld_ept ld_ranges ld_crashed] in *. unfold GFN_LIMIT in Hmax. change (span (S wl)) with (2 ^ 36) in Hmax.
  assert ((if pt_max s <? u64 (start + 1 - 1) then pt_max s else u64 (start + 1 - 1)) = start) as ->.
  { unfold u64. rewrite Z.mod_small by lia. destruct (Z.ltb_spec (pt_max s) (start + 1 - 1)); lia. }
  rewrite Z.ltb_irrefl. cbn [andb]. apply wp_bind, wp_ret, wp_bind.
  eapply wp_mono; [apply (switch_set on P c o start start); [done|lia|lia|done]|].
  intros rc d2 (r' & -> & [[-> Hr']|[-> Hr']]); [apply wp_ret|apply wp_modify; split; [done|by left]]. split; [done|right].
    split; [by exists T|]. by repeat (split; [done|]); exists c, o.
Qed.
End change.

(** ** Carrying the change out *)

(** A page whose type can be recalculated: it is not a page of an ioreq server,
    which are counted, and may not be written without being read. *)
Definition recalc_plain (s : ept_p2m) (g : Z) : bool :=
  match leaf_at wl (pt_tables s) (ept_mfn s) g with
  | Some e => negb (is_epte_present e) ||
      negb (e_sa_p2mt e =? p2m_ioreq_server) && negb (e_access e =? p2m_access_w) && negb (e_access e =? p2m_access_wx)
  | None => true
  end.

Definition ld_plain (d : ld_p2m) : Prop := forall g, 0 <= g < GFN_LIMIT -> recalc_plain (ld_ept d) g = true.

Section resolve.
Context (E : EptEnv) {Hlaws : EptLaws}.

Lemma ld_exact P c o r : rs_set P c o r -> @logdirty_exact (ld_env E r) P.
Proof. intros Hr s e Hs. split; [by apply (ask_contains P c o)|by apply (ask_overlaps P c o)]. Qed.

Lemma plain_view T s g : rep T s ->
  recalc_plain s g = true <-> let '(_, t, a, p) := tview wl T g in p = true -> t <> p2m_ioreq_server /\ a <> p2m_access_w /\ a <> p2m_access_wx.
Proof.
  intros Hrep. pose proof Hrep as (HT & Hm & Hh). unfold recalc_plain. rewrite <- Hm, (leaf_at_spec wl T g [] s HT) by (by rewrite app_nil_r).
  pose proof (tview_present wl T g HT) as Hp. destruct (tleaf wl T g) as [i e] eqn:Hl. cbn [snd] in Hp |- *. destruct (is_epte_present e) eqn:He; cbn [negb orb].
  - rewrite (leaf_page T s g i e Hrep Hl He). rewrite !andb_true_iff, !negb_true_iff, !Z.eqb_neq. tauto.
  - destruct (tview wl T g) as [[[m t] a] p]. cbn in Hp. by subst.
Qed.

Lemma limit_block g g' : 0 <= g < GFN_LIMIT -> block (S wl) g g' = true <-> 0 <= g' < GFN_LIMIT.
Proof.
  intros Hg. unfold block, GFN_LIMIT in *. rewrite (Z.div_small g) by done. pose proof (span_pos (S wl)). rewrite Z.eqb_eq, Z.div_small_iff by lia. lia.
Qed.

Lemma plain_recalculable d T g : rep T (ld_ept d) -> ld_plain d -> 0 <= g < GFN_LIMIT -> recalculable wl g T.
Proof. intros Hrep Hpl Hg _ g' Hb. apply (plain_view T _ g' Hrep), Hpl. by apply (limit_block g g'). Qed.

(** What is left when pending changes were carried out on the way to [g]: the
    lookups of all pages, and the frames that can be recalculated. *)
Lemma rsame_lookup P d T T' s' g c o : ld_plain d -> rep T (ld_ept d) -> rep T' s' -> @rsame (ld_env E (ld_ranges d)) marking wl g T T' -> 0 <= g < GFN_LIMIT ->
  pt_max s' = pt_max (ld_ept d) -> pt_max s' < GFN_LIMIT -> rs_set P c o (ld_ranges d) -> let d' := LdP2m s' (ld_ranges d) (ld_crashed d) in
  ld_plain d' /\ forall g', 0 <= g' < GFN_LIMIT -> page_present s' g' = page_present (ld_ept d) g' /\
    (page_present (ld_ept d) g' = true -> ld_lookup E d' g' = ld_lookup E d g').
Proof.
  intros Hpl Hrep Hrep' Hs Hg Hmax Hlim Hr d'. pose proof Hs as (_ & _ & Hv). split.
  - intros g' Hg'. apply (plain_view T' s' g' Hrep'). apply (limit_block g g' Hg) in Hg'.
    exact (rsame_recalculable _ _ _ _ Hs (plain_recalculable d T g Hrep Hpl Hg) eq_refl g' Hg').
  - intros g' Hg'. rewrite (page_present_view T _ g' Hrep), (page_present_view T' _ g' Hrep'). pose proof Hg' as Hb. apply (limit_block g g' Hg) in Hb.
    specialize (Hv g' Hb). rewrite (ld_lookup_reported E d T g' Hrep), (ld_lookup_reported E d' T' g' Hrep') by (cbn; lia). cbn [ld_ept ld_ranges d']. rewrite Hmax.
    unfold reported, recalculated in *. destruct (tview wl T g') as [[[m t] a] p], (tview wl T' g') as [[[m' t'] a'] p']. destruct Hv as (-> & -> & -> & Ht & _).
    split; [done|]. cbn [snd]. destruct p; [|done]. intros _. destruct (_ <? _); [done|]. by rewrite Ht.
Qed.

(** A page of a table without pending changes on the way. *)
Lemma settled_page exec_only d T g : rep T (ld_ept d) -> 0 <= g <= pt_max (ld_ept d) -> pt_max (ld_ept d) < GFN_LIMIT -> pending wl T g = false ->
  page_present (ld_ept d) g = true -> hw_supports exec_only (ld_lookup E d g).2 = true ->
  exists mfn t a r w x sp ro, ld_lookup E d g = (mfn, t, a) /\ hw_translate exec_only (ld_ept d) g = Some (HwPage mfn r w x) /\
    (r, w, x) = super_rwx sp (access_rwx a (type_rwx t sp ro)).
Proof.
  intros Hrep Hg Hlim Hp Hpr. rewrite (page_present_view T _ g Hrep) in Hpr. pose proof (not_pending_recalcs wl T g (proj1 Hrep) Hp) as Hre.
  rewrite (ld_lookup_reported E d T g Hrep), (proj2 (Z.ltb_ge _ _)) by lia. unfold reported. rewrite Hre.
  destruct (hw_translate_finds exec_only T _ g Hrep) as (res & Hres & Hf). destruct (hw_translate_leaf exec_only T _ g Hrep) as (res' & Hres' & Hag).
  rewrite tview_present in Hpr by apply Hrep. destruct (tview wl T g) as [[[mfn t] a] p]. rewrite recalc_none. cbn [snd]. intros Hsup.
  destruct Hf as (sp & ro & Hf). pose proof (supported_rights exec_only t a sp ro Hsup) as Hok. destruct (super_rwx _ _) as [[r w] x] eqn:Er. destruct Hf as [_ Hf].
  destruct res as [| |mfn' r' w' x'].
  - rewrite Hres in Hres'. simplify_eq. destruct Hag as [_ Hag]. congruence.
  - destruct Hf as [?|?]; congruence.
  - destruct Hf as [-> [= -> -> ->]]. by exists mfn, t, a, r, w, x, sp, ro.
Qed.

(** A misconfiguration is reported because a change is pending. *)
Lemma misconfig_recalc exec_only d T g : rep T (ld_ept d) -> 0 <= g <= pt_max (ld_ept d) -> pt_max (ld_ept d) < GFN_LIMIT ->
  hw_supports exec_only (ld_lookup E d g).2 = true -> hw_translate exec_only (ld_ept d) g = Some HwMisconfig -> pending wl T g = true.
Proof.
  intros Hrep Hg Hlim. rewrite (ld_lookup_reported E d T g Hrep), (proj2 (Z.ltb_ge _ _)) by lia. unfold reported. intros Hsup Hhw.
  apply (misconfig_pending exec_only T _ g Hrep); [|done]. by destruct (tview wl T g) as [[[? ?] ?] ?].
Qed.

(** A log-dirty page cannot be written. *)
Lemma logdirty_readonly r w x sp a ro : vmx_domain_pml_enabled = false ->
  (r, w, x) = super_rwx sp (access_rwx a (type_rwx p2m_ram_logdirty sp ro)) -> w = false.
Proof.
  intros Hpml. change (type_rwx p2m_ram_logdirty sp ro) with (true, vmx_domain_pml_enabled && negb sp, true). rewrite Hpml. cbn [andb].
  unfold access_rwx, super_rwx. repeat case_match; intros; by simplify_eq.
Qed.
End resolve.
