(* ===== verification/LogDirtyTheorems.v ===== *)
(** * Correctness of log-dirty mode

    The properties of a change of the types of a range, and an example of each
    on the concrete tables. *)

From S2P Require Import Prelude RbTree RbSpec RbHeap PageInfo XomDomain XomSeal XomToy P2mTypes XomGuest MemType Ept EptSpec EptOps EptResolve EptWalk EptEntry EptP2m EptHardware EptMisconfig EptToy Rangeset RangesetSpec RangesetOps RangesetTheorems EptTypeChange EptTypeSpec LogDirty.

#[local] Existing Instance marking | 0.

Section theorems.
Context (E : EptEnv) {Hlaws : EptLaws} `{Xmalloc}.

(** C11: log-dirty mode is switched on or off for a range of at least two
    mapped frames: unless the domain is crashed for want of memory, the set of
    log-dirty frames gains or loses exactly the range, lookups report the new
    type for the pages of the range whose types can change and what they
    reported before for all others, the processor uses no page of the range
    before it has reported a misconfiguration, and translations that it may
    have cached are invalidated.  When it is switched off, the removal has to
    respect [remove_ok]: where a run of log-dirty frames starts inside the
    range, another one reaches its first frame or none lies below it. *)
Theorem p2m_change_type_range_correct on P d start endx : ld_ok E P d -> 0 <= start -> endx <= 2 ^ 64 ->
  let last := Z.min (endx - 1) (pt_max (ld_ept d)) in start < last -> (on = false -> remove_ok P start last) ->
  wp (p2m_change_type_range start endx (if on then p2m_ram_rw else p2m_ram_logdirty) (if on then p2m_ram_logdirty else p2m_ram_rw))
    (fun _ d' => ld_crash E P (ld_new on P start last) d' \/
       ld_ok E (ld_new on P start last) d' /\ ld_crashed d' = ld_crashed d /\ switched E on start last d d') d.
Proof. by apply p2m_change_type_range_spec. Qed.

(** Nothing is invalidated for a single frame: a change of the type of one
    mapped frame enters it in the set of log-dirty frames, or takes it out, and
    leaves the tables as they are, so that a writable page of the frame can
    still be written without notice. *)
Theorem p2m_change_type_range_single on P d start exec_only mfn r w x : ld_ok E P d -> 0 <= start <= pt_max (ld_ept d) ->
  (on = false -> remove_ok P start start) -> hw_translate exec_only (ld_ept d) start = Some (HwPage mfn r w x) ->
  wp (p2m_change_type_range start (start + 1) (if on then p2m_ram_rw else p2m_ram_logdirty) (if on then p2m_ram_logdirty else p2m_ram_rw))
    (fun _ d' => hw_translate exec_only (ld_ept d') start = Some (HwPage mfn r w x) /\ will_flush (ld_ept d') = will_flush (ld_ept d) /\
       (ld_crashed d' = true \/ ld_ok E (ld_new on P start start) d')) d.
Proof. intros Hok Hs Hr Hhw. eapply wp_mono; [by apply (change_single_frame E on P d start)|]. intros _ d' [-> Hd]. done. Qed.

(** C10: writes to log-dirty pages do not go unnoticed: when the processor
    reports a misconfiguration for the frame of a page, the handler returns
    true, lookups report of all pages what they reported before, and the
    processor finds the page of the frame, with the rights of the type that the
    lookup reports: it may not write to it if the frame is log-dirty and page
    modification logging, with which the processor logs the writes itself, is
    off.  This is when pages for three more tables can be had, when the
    processor supports the right of the page, and when no page of the domain
    belongs to an I/O request server or may be written but not read. *)
Theorem log_dirty_resolved exec_only P d gpa : let g := Z.shiftr gpa 12 in ld_ok E P d -> ld_plain d -> 0 <= gpa -> g <= pt_max (ld_ept d) ->
  page_present (ld_ept d) g = true -> ~ exhausted wl (ld_ept d) -> hw_supports exec_only (ld_lookup E d g).2 = true -> hw_translate exec_only (ld_ept d) g = Some HwMisconfig ->
  wp (@ept_handle_misconfig (ld_env E (ld_ranges d)) gpa) (fun ok s' => let d' := LdP2m s' (ld_ranges d) (ld_crashed d) in
    ok = true /\ ld_ok E P d' /\ ld_plain d' /\
    (forall g', 0 <= g' < GFN_LIMIT -> page_present s' g' = page_present (ld_ept d) g' /\
       (page_present (ld_ept d) g' = true -> ld_lookup E d' g' = ld_lookup E d g')) /\
    exists mfn t a r w x sp ro, ld_lookup E d g = (mfn, t, a) /\ hw_translate exec_only s' g = Some (HwPage mfn r w x) /\
      (r, w, x) = super_rwx sp (access_rwx a (type_rwx t sp ro)) /\
      (t = p2m_ram_logdirty -> vmx_domain_pml_enabled = false -> w = false)) (ld_ept d).
Proof.
  intros g ([T Hrep] & Hm & Hmax & c & o & Hr) Hpl Hg Hgm Hpr Hmem Hsup Hhw. assert (0 <= g) as Hg0 by (by apply Z.shiftr_nonneg).
  assert (0 <= gpa < 2 ^ 64) as Hgpa.
  { split; [done|]. unfold g in Hgm. rewrite Z.shiftr_div_pow2 in Hgm by lia. change GFN_LIMIT with (2 ^ 36) in Hmax.
    pose proof (Z.mul_succ_div_gt gpa (2 ^ 12)). lia. }
  assert (pending wl T g = true) as Hpend by (apply (misconfig_recalc E exec_only d T); [done|done|lia|done|done]).
  eapply wp_mono; [apply (@ept_handle_misconfig_recalc (ld_env E (ld_ranges d)) (ld_laws E _) marking P T);
    [intros _; by eapply ld_exact|by apply ld_rep_env|done|done|apply (plain_recalculable E d); [done|done|fold g; lia]]|].
  intros ok s' (Hm' & Hmax' & T' & Hs & Hrep'%ld_rep_env & Hdone). destruct (Hdone Hmem) as [Hclear Hok]. set (d' := LdP2m s' (ld_ranges d) (ld_crashed d)).
  destruct (rsame_lookup E P d T T' s' g c o Hpl Hrep Hrep' Hs) as [Hpl' Hlook]; [lia|done|lia|done|].
  destruct (Hlook g ltac:(lia)) as [Hpg Hlg]. specialize (Hlg Hpr).
  split_and!; [by apply Hok| |done|done|].
  - split; [by exists T'|]. cbn. rewrite Hm', Hmax'. by repeat (split; [done|]); exists c, o.
  - destruct (settled_page E exec_only d' T' g Hrep') as (mfn & t & a & r & w & x & sp & ro & Hl & Hp & Hrw); [cbn; lia|cbn; lia|done|cbn; by rewrite Hpg|unfold d'; by rewrite Hlg|].
    exists mfn, t, a, r, w, x, sp, ro. split_and!; [by rewrite <- Hlg|done|done|]. intros -> Hpml. by eapply logdirty_readonly.
Qed.
End theorems.

(** ** Examples *)

Lemma rep_marking `{EptEnv} T s : @rep _ settled T s -> rep T s.
Proof.
  intros (HT & Hm & Hh). split_and!; [|done|done]. revert HT. apply twf_impl.
  - intros l e He. pose proof (lo_settled _ _ He) as Hr. destruct He. split; try done. by rewrite Hr.
  - intros e He. pose proof (mo_settled _ He) as Hr. destruct He. split; try done. by rewrite Hr.
Qed.

Definition toy_ld : ld_p2m := LdP2m toy_super (one_range 600 700) false.

Lemma toy_ld_ok : ld_ok toy_default (fun n => 600 <= n <= 700) toy_ld.
Proof.
  destruct toy_super_inv as [(T & Hrep & _) Hm]. split; [exists T; by apply rep_marking|]. cbn [ld_ept ld_ranges toy_ld]. split; [by rewrite Hm|].
  split; [by vm_compute|]. exists (-1), None. by apply one_range_set.
Qed.

(** The end of the superpage of 512 to 1023 becomes log-dirty, then the middle
    is made writable again. *)
Lemma p2m_change_type_range_correct_ex :
  wp (p2m_change_type_range 690 2000 p2m_ram_rw p2m_ram_logdirty)
    (fun _ d' => ld_crash toy_default (fun n => 600 <= n <= 700) (ld_new true (fun n => 600 <= n <= 700) 690 1023) d' \/
       ld_ok toy_default (ld_new true (fun n => 600 <= n <= 700) 690 1023) d' /\ ld_crashed d' = false /\ switched toy_default true 690 1023 toy_ld d') toy_ld /\
  wp (p2m_change_type_range 600 651 p2m_ram_logdirty p2m_ram_rw)
    (fun _ d' => ld_crash toy_default (fun n => 600 <= n <= 700) (ld_new false (fun n => 600 <= n <= 700) 600 650) d' \/
       ld_ok toy_default (ld_new false (fun n => 600 <= n <= 700) 600 650) d' /\ ld_crashed d' = false /\ switched toy_default false 600 650 toy_ld d') toy_ld.
Proof.
  split.
  - apply (p2m_change_type_range_correct toy_default true (fun n => 600 <= n <= 700) toy_ld 690 2000 toy_ld_ok); [done|done|by vm_compute|done].
  - apply (p2m_change_type_range_correct toy_default false (fun n => 600 <= n <= 700) toy_ld 600 651 toy_ld_ok); [done|done|by vm_compute|].
    intros _. right. split; [done|]. right. left. vm_compute. by split.
Defined.

Lemma p2m_change_type_range_single_ex :
  wp (p2m_change_type_range 800 801 p2m_ram_rw p2m_ram_logdirty)
    (fun _ d' => hw_translate true (ld_ept d') 800 = Some (HwPage 800 true true true) /\ will_flush (ld_ept d') = false /\
       (ld_crashed d' = true \/ ld_ok toy_default (ld_new true (fun n => 600 <= n <= 700) 800 800) d')) toy_ld.
Proof.
  apply (p2m_change_type_range_single toy_default true (fun n => 600 <= n <= 700) toy_ld 800 true 800 true true true toy_ld_ok);
    [by vm_compute|done|vm_compute; reflexivity].
Defined.

(** The state after the first of these changes. *)
Definition toy_switched : ld_p2m :=
  match p2m_change_type_range 690 2000 p2m_ram_rw p2m_ram_logdirty toy_ld with Some (_, d) => d | None => toy_ld end.

Lemma toy_switched_ok : ld_ok toy_default (ld_new true (fun n => 600 <= n <= 700) 690 1023) toy_switched.
Proof.
  destruct (p2m_change_type_range_spec toy_default true (fun n => 600 <= n <= 700) toy_ld 690 2000 toy_ld_ok) as (u & d & Hrun & Hpost); [done|done|by vm_compute|done|].
  assert (toy_switched = d) as <- by (unfold toy_switched; by rewrite Hrun). clear Hrun u. destruct Hpost as [[Hc _]|[Hok _]]; [by vm_compute in Hc|exact Hok].
Qed.

(** All entries of all tables can be recalculated. *)
Definition plain_entry (e : ept_entry) : bool :=
  negb (is_epte_present e) || negb (e_sa_p2mt e =? p2m_ioreq_server) && negb (e_access e =? p2m_access_w) && negb (e_access e =? p2m_access_wx).

Lemma leaf_at_in l tables : forall m g e, leaf_at l tables m g = Some e -> exists m' es, tables !! m' = Some es /\ e ∈ es.
Proof.
  induction l as [|l IH]; intros m g e; cbn [leaf_at]; destruct (tables !! m) as [es|] eqn:Hm; try done; cbn; destruct (es !! _) as [e0|] eqn:He; try done.
  - intros [= <-]. exists m, es. split; [done|]. by eapply list_elem_of_lookup_2.
  - destruct (e_sp e0 || _); [|apply IH]. intros [= <-]. exists m, es. split; [done|]. by eapply list_elem_of_lookup_2.
Qed.

Lemma plain_tables d : forallb (fun '(_, es) => forallb plain_entry es) (map_to_list (pt_tables (ld_ept d))) = true -> ld_plain d.
Proof.
  intros Hall g _. unfold recalc_plain. destruct (leaf_at _ _ _ _) as [e|] eqn:Hl; [|done]. apply leaf_at_in in Hl as (m & es & Hm & He).
  rewrite forallb_forall in Hall. specialize (Hall (m, es)). rewrite <- list_elem_of_In, elem_of_map_to_list in Hall. specialize (Hall Hm). cbn in Hall.
  rewrite forallb_forall in Hall. apply Hall. by apply list_elem_of_In.
Qed.

Lemma toy_switched_plain : ld_plain toy_switched.
Proof. apply plain_tables. vm_compute. reflexivity. Qed.

Lemma toy_switched_memory : ~ exhausted wl (ld_ept toy_switched).
Proof. apply (toy_memory true). apply Nat.ltb_lt. vm_compute. reflexivity. Qed.

(** Then the page of frame 1000 is used. *)
Lemma log_dirty_resolved_ex : ld_lookup toy_default toy_switched 1000 = (1000, p2m_ram_logdirty, p2m_access_rwx) /\
  wp (@ept_handle_misconfig (ld_env toy_default (ld_ranges toy_switched)) (1000 * PAGE_SIZE + 8))
    (fun ok s' => ok = true /\ exists r x, hw_translate true s' 1000 = Some (HwPage 1000 r false x)) (ld_ept toy_switched).
Proof.
  assert (ld_lookup toy_default toy_switched 1000 = (1000, p2m_ram_logdirty, p2m_access_rwx)) as Hl by (vm_compute; reflexivity). split; [done|].
  eapply wp_mono; [apply (log_dirty_resolved toy_default true (ld_new true (fun n => 600 <= n <= 700) 690 1023) toy_switched (1000 * PAGE_SIZE + 8));
    [exact toy_switched_ok|exact toy_switched_plain|done|by vm_compute|vm_compute; reflexivity|exact toy_switched_memory|vm_compute; reflexivity|vm_compute; reflexivity]|].
  intros ok s' (Hok & _ & _ & _ & mfn & t & a & r & w & x & sp & ro & Hl' & Hhw & _ & Hw). split; [done|].
  change (Z.shiftr (1000 * PAGE_SIZE + 8) 12) with 1000 in *. rewrite Hl in Hl'. injection Hl' as <- <- <-. rewrite Hw in Hhw by done. by exists r, x.
Defined.

(** The types that lookups report, and the processor, before and after. *)
Example log_dirty_runs :
  wp (do! p2m_change_type_range 690 2000 p2m_ram_rw p2m_ram_logdirty in let! d := get in
      ret (map (fun g => (ld_lookup toy_default toy_ld g).1.2) [689; 690; 1000], map (fun g => (ld_lookup toy_default d g).1.2) [689; 690; 1000],
           map (hw_translate true (ld_ept d)) [689; 690; 1000]))
    (fun res d => ld_crashed d = false /\
       res = ([p2m_ram_rw; p2m_ram_rw; p2m_ram_rw], [p2m_ram_rw; p2m_ram_logdirty; p2m_ram_logdirty],
              [Some (HwPage 689 true true true); Some HwMisconfig; Some HwMisconfig])) toy_ld.
Proof. eexists _, _. split; vm_compute; [reflexivity|by split]. Qed.

(** A superpage that may only be written loses all of its rights when it
    becomes log-dirty; lookups report that nothing is mapped then. *)
Definition toy_write_only : ld_p2m :=
  match ept_set_entry 512 512 EPT_TABLE_ORDER p2m_ram_rw p2m_access_w (-1) toy_ept with Some (_, s) => LdP2m s new_set false | None => toy_ld end.

Example write_only_superpage_lost :
  wp (do! p2m_change_type_range 0 2000 p2m_ram_rw p2m_ram_logdirty in let! d := get in
      let! ok := on_ept (@ept_handle_misconfig (ld_env toy_default (ld_ranges d)) (600 * PAGE_SIZE)) in let! d' := get in
      ret (ok, ld_lookup toy_default toy_write_only 600, ld_lookup toy_default d 600, ld_lookup toy_default d' 600))
    (fun res d => ld_crashed d = false /\ res = (true, (600, p2m_ram_rw, p2m_access_w), (600, p2m_ram_logdirty, p2m_access_w), hole.1)) toy_write_only.
Proof. eexists _, _. split; vm_compute; [reflexivity|split; reflexivity]. Qed.
