(* ===== verification/EptTheorems.v ===== *)
(** * Correctness of the extended page tables

    The properties of the tables and their processor, and an example of each
    on the concrete tables. *)

From S2P Require Import Prelude RbTree RbSpec RbHeap PageInfo PageInfoSpec XomDomain XomSpec XomSeal XomSealSpec XomToy P2mTypes XomGuest MemType Ept EptSpec EptOps EptResolve EptWalk EptEntry EptP2m EptHardware EptMisconfig EptToy.

(** ** Entries *)

(** One member of the word is read and the rest shifted down. *)
Lemma read_member w n k a x : Z.shiftr w n = a + 2 ^ k * x -> 0 <= n -> 0 <= k -> 0 <= a < 2 ^ k ->
  bits w n k = a /\ Z.shiftr w (n + k) = x.
Proof.
  intros Hw Hn Hk Ha. rewrite <- Z.shiftr_shiftr by lia. unfold bits. rewrite Hw, Z.shiftr_div_pow2 by lia. by apply peel; [lia|].
Qed.

Lemma read_flag w n b x : Z.shiftr w n = Z.b2z b + 2 * x -> 0 <= n -> Z.testbit w n = b /\ Z.shiftr w (n + 1) = x.
Proof.
  intros Hw Hn. destruct (read_member w n 1 (Z.b2z b) x) as [Hb Hx]; [done|done|done|by destruct b|]. split; [|done].
  apply Z.b2z_inj. rewrite <- Hb. unfold bits. rewrite Z.shiftr_div_pow2, Z.testbit_spec' by done. done.
Qed.

#[local] Ltac at_next H :=
  match type of H with Z.shiftr ?w ?n = _ => let m := eval vm_compute in n in change n with m in H end.
#[local] Ltac flag H := apply read_flag in H as [-> H]; [|done]; at_next H.
#[local] Ltac member H := apply read_member in H as [-> H]; [|done..]; at_next H.

(** An entry is stored and read back: the members of the 64-bit word that
    an entry packs into are the members of the entry. *)
Theorem epte_roundtrip e : in_range e -> entry_of (epte e) = e /\ 0 <= epte e < 2 ^ 64.
Proof.
  intros Hr. split.
  2: { pose proof (epte_low e Hr). rewrite epte_sve. pose proof (b2z_range (e_suppress_ve e)). lia. }
  assert (Z.shiftr (epte e) 0 = epte e) as H0 by apply Z.shiftr_0_r. destruct Hr as [He Hm Ht Ha]. unfold epte in H0 at 2.
  change 8 with (2 ^ 3) in H0. unfold entry_of.
  do 3 flag H0. member H0. do 6 flag H0. do 3 member H0. flag H0.
  rewrite <- (Z.add_0_r (Z.b2z (e_suppress_ve e))) in H0. apply (read_flag _ _ _ 0) in H0 as [-> _]; [|done]. by destruct e.
Qed.

Lemma epte_roundtrip_ex : entry_of (epte (set_access 4 (set_mfn 0x12345 empty_entry))) = set_access 4 (set_mfn 0x12345 empty_entry) /\
  0 <= epte (set_access 4 (set_mfn 0x12345 empty_entry)) < 2 ^ 64.
Proof. apply epte_roundtrip. by split. Defined.

Section theorems.
Context `{EptEnv, !EptLaws}.

(** C5: [ept_set_entry] returns, and either fails and changes no mapping, or
    maps exactly the frames of the entry, to consecutive machine frames with
    the given type and right, whatever the size of the pages that were mapped
    there; a translation that the processor may have cached is only replaced
    with a request to invalidate it.  In the second case it returns 0, or the
    error with which the IOMMU refused the change after the entry was written.
    This is for types that need no accounting ([plain]), a right other than
    [p2m_access_n], and a domain without active alternate p2m tables. *)
Theorem ept_set_entry_correct s g mfn l t a sve : ept_inv s -> 0 <= g -> page_size_ok l -> settable l mfn t a -> 0 < a ->
  plain t = true -> plain (ept_lookup s g).1.2 = true ->
  wp (ept_set_entry g mfn (Z.of_nat l * EPT_TABLE_ORDER) t a sve) (fun rc s' => ept_inv s' /\
    ((rc < 0 /\ forall g', ept_lookup s' g' = ept_lookup s g') \/
     ((rc = 0 \/ iommu_refuses g mfn (Z.of_nat l * EPT_TABLE_ORDER) rc) /\
      (forall g', ept_lookup s' g' =
         if (g <=? g') && (g' <? g + span l)
         then if (mfn_valid mfn || p2m_allows_invalid_mfn t) && negb (t =? p2m_invalid)
              then (stored mfn + (g' - g), t, a) else hole.1
         else ept_lookup s g') /\
      (will_flush s' = true \/ forall g', g <= g' < g + span l -> forall exec_only m r w x,
         hw_translate exec_only s g' <> Some (HwPage m r w x))))) s.
Proof.
  intros. eapply wp_mono; [by apply ept_map_spec|]. intros rc s' (Hinv & _ & [?|(? & _ & ?)]); (split; [done|]); auto.
Qed.

(** What an access to a frame with the rights of [a] does on the processor. *)
Lemma hw_finds_ram exec_only mfn a pend res f : hw_finds exec_only mfn p2m_ram_rw a pend res -> 0 <= a <= p2m_access_n2rwx ->
  exec_sp = true \/ insn_fetch f = false ->
  match res with
  | HwMisconfig => True
  | HwViolation => read_access f || write_access f || insn_fetch f = access_violation a f
  | HwPage mfn' r w x => mfn' = mfn /\ hw_permits r w x f = negb (access_violation a f)
  end.
Proof.
  intros (sp & ro & Hf) Ha Hx. pose proof (access_rwx_ram a f Ha) as Hram. change (type_rwx p2m_ram_rw sp ro) with (true, true, true) in Hf.
  destruct (access_rwx a (true, true, true)) as [[r w] x]. cbn in Hf. destruct Hf as [_ Hf].
  assert (forall x', (exec_sp = true -> x' = x) -> hw_permits r w x' f = negb (access_violation a f)) as Hany.
  { intros x' Hx'. rewrite <- Hram. unfold hw_permits. destruct Hx as [Hx|Hx]; [by rewrite Hx'|by rewrite Hx]. }
  assert (exec_sp = true -> x && negb (negb exec_sp && sp) = x) as Hsp by (intros ->; apply andb_true_r).
  specialize (Hany _ Hsp). destruct res as [| |mfn' r' w' x']; [|done|].
  - injection (Hf eq_refl) as -> -> Hxx. rewrite Hxx in Hany.
    unfold hw_permits in Hany. destruct f as [[] [] []], (access_violation a _); done.
  - destruct Hf as [-> [= -> -> ->]]. by split.
Qed.

(** C9: the processor permits exactly the accesses to a frame of ordinary memory
    (type [p2m_ram_rw]) that the access right of the frame permits, and carries
    them out on the frame of the lookup, or reports a misconfiguration that is
    to be resolved first.  This is for the rights up to [p2m_access_n2rwx], and
    for fetches only where superpages may be executed ([exec_sp]); read-only
    and log-dirty types permit less than the right. *)
Theorem hardware_rights exec_only s g mfn a f : ept_inv s -> 0 <= g < GFN_LIMIT ->
  ept_lookup s g = (mfn, p2m_ram_rw, a) -> a <= p2m_access_n2rwx -> exec_sp = true \/ insn_fetch f = false ->
  match hw_translate exec_only s g with
  | None => False
  | Some HwMisconfig => True
  | Some HwViolation => read_access f || write_access f || insn_fetch f = access_violation a f
  | Some (HwPage mfn' r w x) => mfn' = mfn /\ hw_permits r w x f = negb (access_violation a f)
  end.
Proof.
  intros Hinv Hg Hl Ha Hx. destruct (hw_lookup exec_only s g Hinv Hg) as (res & pend & -> & Hf). rewrite Hl in Hf.
  eapply hw_finds_ram; [exact Hf| |done]. split; [|done]. by eapply lookup_access_pos.
Qed.

(** C3: sealing holds on the processor: after [set_xom_seal] returned 0, a walk
    of the extended page tables for a mapped frame of the range finds no page
    that can be read or written, and the page it finds is the frame's. *)
Theorem set_xom_seal_hardware exec_only gfn nr (d : domain ept_table) m : dom_inv d m ->
  wp (set_xom_seal gfn nr) (fun rc (d' : domain ept_table) => rc = 0 -> forall g, g ∈ gfns (Z.to_nat nr) gfn -> mapped d g ->
    exists res, hw_translate exec_only (proj1_sig (d_p2m d')) g = Some res /\
      match res with HwPage mfn r w _ => mfn = frame_of d g /\ r = false /\ w = false | _ => True end) d.
Proof.
  intros Hinv. eapply wp_mono; [by apply set_xom_seal_spec|]. intros rc d' (_ & Hs & _ & Hx) Hrc g Hin Hmap.
  pose proof (Hx Hrc g Hin Hmap) as Hsealed. pose proof (proj2_sig (d_p2m d')) as Hinv'. cbn beta in Hinv'.
  assert (frame_of d' g = frame_of d g) as Hfr by apply same_frame_of, Hs.
  assert (0 <= g < GFN_LIMIT) as Hg by (apply mapped_range with (p := d_p2m d); exact Hmap).
  destruct (hw_lookup exec_only _ g Hinv' Hg) as (res & _ & Hres & _). exists res. split; [done|]. destruct res; [done..|].
  destruct (sealed_denied exec_only _ g _ _ _ _ Hinv' Hg Hsealed Hres) as (-> & -> & ->). by rewrite <- Hfr.
Qed.

(** C19: a misconfiguration is resolved: when the processor reports one for a
    frame whose rights it supports, and pages for three more tables can be had,
    the handler returns true, the next walk for the frame does not report one,
    and no mapping changed. *)
Theorem misconfig_resolved exec_only s gpa : ept_inv s -> ept_mfn s <> 0 -> 0 <= gpa < GFN_LIMIT * PAGE_SIZE ->
  hw_supports exec_only (ept_lookup s (Z.shiftr gpa 12)).2 = true -> ~ exhausted wl s ->
  hw_translate exec_only s (Z.shiftr gpa 12) = Some HwMisconfig ->
  wp (ept_handle_misconfig gpa) (fun ok s' => ok = true /\ hw_translate exec_only s' (Z.shiftr gpa 12) <> Some HwMisconfig /\
    ept_inv s' /\ forall g, ept_lookup s' g = ept_lookup s g) s.
Proof.
  intros (T & Hrep & Hmax & Hhole) Hm Hg Hsup Hmem Hhw. set (g := Z.shiftr gpa 12) in *.
  assert (0 <= gpa < 2 ^ 64) as Hr by (change (GFN_LIMIT * PAGE_SIZE) with (2 ^ 48) in Hg; lia).
  assert (0 <= g < GFN_LIMIT) as Hgl by (by apply frame_limit).
  rewrite (ept_lookup_view s T g Hrep Hmax Hhole) in Hsup.
  assert ((0 <=? g) && (g <? GFN_LIMIT) = true) as Hin by lia. rewrite Hin in Hsup.
  eapply wp_mono; [by apply (ept_handle_misconfig_spec T)|]. intros ok s' (Hmfn & Hmax' & T' & Hs & Hrep' & Hp).
  fold g in Hp. destruct (Hp Hmem) as [Hp1 Hp2]. destruct (ept_inv_same T T' s s' Hrep Hmax Hhole Hs Hrep' Hmax') as [Hinv' Hlook].
  split_and!; [|intros Hhw'|done|done].
  - apply Hp2. by apply (misconfig_pending exec_only T s g).
  - assert (pending wl T' g = true) as Hp'; [|congruence]. apply (misconfig_pending exec_only T' s' g); [done| |done].
    by rewrite (proj2 (proj2 Hs)).
Qed.

(** C21: no old memory type is used after a change of the memory types: when
    [ept_memory_type_changed] returns, the processor translates no frame
    without a misconfiguration first, cached translations were invalidated if
    there could be any, and no mapping changed. *)
Theorem memory_type_changed_safe s : ept_inv s -> ept_mfn s <> 0 ->
  wp ept_memory_type_changed (fun _ s' => ept_inv s' /\ (forall g, ept_lookup s' g = ept_lookup s g) /\
    (forall exec_only g mfn r w x, hw_translate exec_only s' g <> Some (HwPage mfn r w x)) /\
    (will_flush s' = true \/ forall exec_only g mfn r w x, hw_translate exec_only s g <> Some (HwPage mfn r w x))) s.
Proof.
  intros (T & Hrep & Hmax & Hhole) Hm. eapply wp_mono; [by apply (ept_memory_type_changed_spec T)|].
  intros _ s' (Hmfn & Hmax' & Hsy & T' & Hs & Hrep' & Hmk).
  destruct (ept_inv_same T T' s s' Hrep Hmax Hhole Hs Hrep' Hmax') as [Hinv' Hlook].
  assert (forall exec_only g mfn r w x, hw_translate exec_only s' g <> Some (HwPage mfn r w x)) as Hno.
  { intros eo g mfn r w x Hhw. destruct (marked_blocks eo T' s' g Hrep' Hmk); congruence. }
  split_and!; [done|done|done|]. destruct Hsy as [->|?]; [by right|by left].
Qed.
(** C37: the memory type that is computed for an entry is one of the types of
    the architecture, whatever range registers, pinned ranges and special pages
    say; only for a superpage there may be none, and it is split then. *)
Theorem epte_get_entry_emt_type gfn mfn order t : 0 <= gfn < 2 ^ 64 ->
  let emt := (epte_get_entry_emt gfn mfn order t).1 in mem_type emt \/ (emt = -1 /\ order <> 0).
Proof. apply emt_type. Qed.
End theorems.

(** ** Examples *)

Lemma ept_set_entry_correct_ex :
  wp (ept_set_entry 5 100 (Z.of_nat 0 * EPT_TABLE_ORDER) p2m_ram_rw p2m_access_x (-1)) (fun rc s' => ept_inv s' /\
    ((rc < 0 /\ forall g', ept_lookup s' g' = ept_lookup toy_ept g') \/
     ((rc = 0 \/ iommu_refuses 5 100 (Z.of_nat 0 * EPT_TABLE_ORDER) rc) /\
      (forall g', ept_lookup s' g' =
         if (5 <=? g') && (g' <? 5 + span 0)
         then if (mfn_valid 100 || p2m_allows_invalid_mfn p2m_ram_rw) && negb (p2m_ram_rw =? p2m_invalid)
              then (stored 100 + (g' - 5), p2m_ram_rw, p2m_access_x) else hole.1
         else ept_lookup toy_ept g') /\
      (will_flush s' = true \/ forall g', 5 <= g' < 5 + span 0 -> forall exec_only m r w x,
         hw_translate exec_only toy_ept g' <> Some (HwPage m r w x))))) toy_ept.
Proof.
  apply ept_set_entry_correct; [apply toy_ept_inv|lia|by right; right| |done|done|by rewrite toy_default_lookup].
  apply toy_settable; [by right; right|done|done|lia|done|done].
Defined.

Lemma hardware_rights_ex :
  match hw_translate true toy_super 600 with
  | None => False
  | Some HwMisconfig => True
  | Some HwViolation => read_access (Npfec true false false) || write_access (Npfec true false false) || insn_fetch (Npfec true false false) =
                          access_violation p2m_access_rwx (Npfec true false false)
  | Some (HwPage mfn' r w x) =>
      mfn' = 600 /\ hw_permits r w x (Npfec true false false) = negb (access_violation p2m_access_rwx (Npfec true false false))
  end.
Proof.
  apply (hardware_rights true toy_super 600 600 p2m_access_rwx (Npfec true false false)); [apply toy_super_inv|done| |done|by left].
  vm_compute. reflexivity.
Defined.

Lemma set_xom_seal_hardware_ex :
  wp (set_xom_seal 600 2) (fun rc (d' : domain ept_table) => rc = 0 -> forall g, g ∈ gfns (Z.to_nat 2) 600 -> mapped toy_ept_domain g ->
    exists res, hw_translate true (proj1_sig (d_p2m d')) g = Some res /\
      match res with HwPage mfn r w _ => mfn = frame_of toy_ept_domain g /\ r = false /\ w = false | _ => True end) toy_ept_domain.
Proof. apply (set_xom_seal_hardware true 600 2 toy_ept_domain no_infos). apply toy_ept_domain_inv. Defined.

(** The call succeeds there: the superpage is split, the two frames can only
    be executed and their neighbours keep their rights. *)
Example seal_in_superpage :
  match set_xom_seal 600 2 toy_ept_domain with
  | Some (rc, d') => rc = 0 /\ map (hw_translate true (proj1_sig (d_p2m d'))) [599; 600; 601; 602] =
      [Some (HwPage 599 true true true); Some (HwPage 600 false false true); Some (HwPage 601 false false true);
       Some (HwPage 602 true true true)]
  | None => False
  end.
Proof. vm_compute. by split. Qed.

Lemma misconfig_resolved_ex :
  wp (ept_handle_misconfig (600 * PAGE_SIZE)) (fun ok s' => ok = true /\
    hw_translate true s' (Z.shiftr (600 * PAGE_SIZE) 12) <> Some HwMisconfig /\
    ept_inv s' /\ forall g, ept_lookup s' g = ept_lookup toy_marked g) toy_marked.
Proof.
  destruct toy_marked_inv as [Hinv Hm].
  refine (misconfig_resolved true toy_marked (600 * PAGE_SIZE) Hinv _ _ _ _ _).
  - by rewrite Hm.
  - by split.
  - vm_compute. reflexivity.
  - exact toy_marked_memory.
  - vm_compute. reflexivity.
Defined.

Lemma memory_type_changed_safe_ex :
  wp ept_memory_type_changed (fun _ s' => ept_inv s' /\ (forall g, ept_lookup s' g = ept_lookup toy_super g) /\
    (forall exec_only g mfn r w x, hw_translate exec_only s' g <> Some (HwPage mfn r w x)) /\
    (will_flush s' = true \/ forall exec_only g mfn r w x, hw_translate exec_only toy_super g <> Some (HwPage mfn r w x))) toy_super.
Proof. destruct toy_super_inv as [Hinv Hm]. apply (memory_type_changed_safe toy_super); [exact Hinv|by rewrite Hm]. Defined.

Lemma epte_get_entry_emt_type_ex :
  let emt := (epte_get_entry_emt 600 600 9 p2m_ram_rw).1 in mem_type emt \/ (emt = -1 /\ 9 <> 0).
Proof. apply (epte_get_entry_emt_type 600 600 9 p2m_ram_rw). lia. Defined.
