(* ===== verification/ModXom.v ===== *)
(** * The guest kernel module

    [modxom.c]: the [/proc/xom] file through which a process gets memory it
    can lock as execute-only, with the hypercalls it makes.  The kernel around
    it is a parameter. *)

From S2P Require Import Prelude RbTree RbSpec RbHeap PageInfo XomDomain.

(** ** The kernel

    [W] is the state outside the module; each operation is one call of the
    kernel's interface. *)
Class Kernel (W : Type) := {
  HYPERVISOR_mmuext_op : mmuext_op -> Z -> Z -> Z -> W -> Z * W;  (* op, count, success_count, domid *)
  xen_hvm_domain : W -> bool;
  current_pid : W -> Z;
  current_exiting : W -> bool;
  vm_munmap : Z -> Z -> W -> Z * W;
  remap_pfn_range : Z -> Z -> Z -> W -> Z * W;                    (* vm_start, pfn, size *)
  find_vma : Z -> W -> option (Z * Z);
  kmalloc : Z -> W -> bool * W;
  get_order : Z -> Z;
  get_free_pages : Z -> W -> Z * W;
  free_pages : Z -> Z -> W -> W;                                  (* address, order *)
  set_page_reserved : bool -> Z -> W -> W;
  virt_to_phys : Z -> Z;
  copy_from_user : Z -> Z -> W -> option (list Z);
  copy_to_user : Z -> list (option Z) -> W -> bool * W;
  kernel_write : Z -> list Z -> W -> W
}.

(** ** Constants and data *)

Definition PAGE_SHIFT : Z := 12.
Definition MAX_ORDER : Z := 11.
Definition DOMID_SELF : Z := 0x7FF0.

Definition MODXOM_CMD_NOP : Z := 0.
Definition MODXOM_CMD_FREE : Z := 1.
Definition MODXOM_CMD_LOCK : Z := 2.
Definition MODXOM_CMD_INIT_SUBPAGES : Z := 3.
Definition MODXOM_CMD_WRITE_SUBPAGES : Z := 4.
Definition MODXOM_CMD_MARK_REG_CLEAR : Z := 6.

Record modxom_cmd := ModxomCmd { mc_cmd : Z; mc_num_pages : Z; mc_base_addr : Z }.
Definition sizeof_modxom_cmd : Z := 16.

Definition cmd_of_bytes (l : list Z) : modxom_cmd :=
  ModxomCmd (le_bytes (take 4 l)) (le_bytes (take 4 (drop 4 l))) (le_bytes (take 8 (drop 8 l))).

Record xom_mapping := XomMapping {
  xm_num_pages : Z;
  xm_uaddr : Z;
  xm_kaddr : Z;
  xm_pfn : Z;
  xm_lock_status : list Z;
  xm_subpage_level : bool
}.

(** [pe_freed]: the entry was passed to [kfree] but is still in the list. *)
Record xom_process_entry := XomProcessEntry {
  pe_pid : Z;
  pe_mappings : list xom_mapping;
  pe_freed : bool
}.

Record kstate (W : Type) := KState {
  xom_entries : list xom_process_entry;
  file_lock : bool;
  modxom_src_operand_page : Z;
  k_world : W
}.
Arguments KState {W}.
Arguments xom_entries {W}.
Arguments file_lock {W}.
Arguments modxom_src_operand_page {W}.
Arguments k_world {W}.

Definition set_locks (l : list Z) (m : xom_mapping) : xom_mapping :=
  XomMapping (xm_num_pages m) (xm_uaddr m) (xm_kaddr m) (xm_pfn m) l (xm_subpage_level m).
Definition set_subpage_level (m : xom_mapping) : xom_mapping :=
  XomMapping (xm_num_pages m) (xm_uaddr m) (xm_kaddr m) (xm_pfn m) (xm_lock_status m) true.

(** The end of a mapping in the process: [uaddr + num_pages * PAGE_SIZE]. *)
Definition xm_end (m : xom_mapping) : Z := u64 (xm_uaddr m + xm_num_pages m * PAGE_SIZE).
Definition contains (a : Z) (m : xom_mapping) : Prop := xm_uaddr m <= a < xm_end m.

(** [set_lock_status(mapping, index, 1)]; a byte outside the array is
    undefined. *)
Definition set_lock_status (m : xom_mapping) (index : Z) : option xom_mapping :=
  let i := Z.to_nat (Z.shiftr index 3) in
  match xm_lock_status m !! i with
  | None => None
  | Some b =>
      let bit := Z.shiftl 1 (Z.land index 7) in
      Some (set_locks (<[i := u8 (Z.lor (Z.land b (Z.lnot bit)) bit)]> (xm_lock_status m)) m)
  end.

Fixpoint set_lock_range (n : nat) (index : Z) (m : xom_mapping) : option xom_mapping :=
  match n with
  | O => Some m
  | S n => match set_lock_status m index with
           | Some m => set_lock_range n (u32 (index + 1)) m
           | None => None
           end
  end.

(** Reading [lock_status[i]] for [i < (num_pages >> 3) + 1]. *)
Definition were_pages_locked (m : xom_mapping) : option bool :=
  let n := Z.to_nat (Z.shiftr (xm_num_pages m) 3 + 1) in
  if decide (n <= length (xm_lock_status m))%nat
  then Some (0 <? foldl Z.lor 0 (take n (xm_lock_status m)))
  else None.

Section modxom.
Context {W : Type} `{Kernel W}.

(** A call of the kernel. *)
Definition kcall {A} (f : W -> A * W) : M W A := fun w => Some (f w).
Definition kdo (f : W -> W) : M W unit := modify f.
Definition lift {A} (o : option A) : M W A :=
  match o with Some a => ret a | None => ub end.

(** ** Hypercalls *)

(** [hypercall(op, nr_ents, domid, gfns)] of a build with [CONFIG_XEN]. *)
Definition hypercall (op : mmuext_op) (nr_ents domid gfns : Z) : M W Z :=
  kcall (HYPERVISOR_mmuext_op op nr_ents gfns domid).

(** The frame of page [i] of a mapping. *)
Definition page_gfn (m : xom_mapping) (i : Z) : Z :=
  Z.shiftr (virt_to_phys (u64 (xm_kaddr m + i * PAGE_SIZE))) PAGE_SHIFT.

(** The [do ... while] that measures a physically contiguous range: the
    number of pages and the next frame. *)
Fixpoint group_pages (fuel : nat) (m : xom_mapping) (pages_locked page_c cur_gfn : Z) : option (Z * Z) :=
  match fuel with
  | O => None
  | S fuel =>
      let page_c := u32 (page_c + 1) in
      if xm_num_pages m <=? u32 (page_c + pages_locked) then Some (page_c, cur_gfn)
      else
        let last_gfn := cur_gfn in
        let cur_gfn := page_gfn m (u32 (pages_locked + page_c)) in
        if last_gfn =? u64 (cur_gfn - 1)
        then group_pages fuel m pages_locked page_c cur_gfn
        else Some (page_c, cur_gfn)
  end.

(** The outer [while (pages_locked < num_pages)]. *)
Fixpoint invoke_loop (fuel : nat) (m : xom_mapping) (page_index num_pages cmd pages_locked base_gfn cur_gfn status : Z)
    : M W (Z * xom_mapping) :=
  match fuel with
  | O => ub
  | S fuel =>
      if negb (pages_locked <? num_pages) then ret (status, m)
      else
        let! '(page_c, cur_gfn) := lift (group_pages (Z.to_nat (xm_num_pages m) + 1) m pages_locked 0 cur_gfn) in
        let! status := hypercall (MmuextOp cmd base_gfn page_c) 1 0 DOMID_SELF in
        if negb (status =? 0) then ret (- EINVAL, m)
        else
          let! m := lift (set_lock_range (Z.to_nat page_c) (u32 (page_index + pages_locked)) m) in
          invoke_loop fuel m page_index num_pages cmd (u32 (pages_locked + page_c)) cur_gfn cur_gfn status
  end.

Definition xom_invoke_xen (m : xom_mapping) (page_index num_pages cmd : Z) : M W (Z * xom_mapping) :=
  if num_pages =? 0 then ret (0, m)
  else if xm_num_pages m <? u32 (page_index + num_pages) then ret (- EINVAL, m)
  else
    let! gfns := kcall (kmalloc (u64 (8 * xm_num_pages m))) in
    if negb gfns then ret (- ENOMEM, m)
    else invoke_loop (Z.to_nat num_pages + 1) m page_index num_pages cmd 0 (xm_pfn m) (xm_pfn m) 0.

(** ** Releasing mappings *)

Definition reserve_pages (b : bool) (kaddr n : Z) : M W unit :=
  kdo (fun w => foldl (fun w i => set_page_reserved b (u64 (kaddr + i * PAGE_SIZE)) w) w
                  (seqZ 0 n)).

(** Returns the status and the mapping as the failing paths leave it. *)
Definition release_mapping (m : xom_mapping) : M W (Z * xom_mapping) :=
  let size := u64 (xm_num_pages m * PAGE_SIZE) in
  let! locked := lift (were_pages_locked m) in
  let! '(status, m) := (if (locked : bool)
                        then xom_invoke_xen m 0 (xm_num_pages m) MMUEXT_UNMARK_XOM
                        else ret (0, m)) in
  if negb (status =? 0) then ret (status, m)
  else
    do! reserve_pages false (xm_kaddr m) (xm_num_pages m) in
    let! exiting := gets current_exiting in
    let! status := (if negb exiting then kcall (vm_munmap (xm_uaddr m) size) else ret 0) in
    if negb (status =? 0) then ret (status, m)
    else
      do! (if negb (xm_kaddr m =? 0) then kdo (free_pages (xm_kaddr m) (get_order size)) else ret tt) in
      ret (0, m).

(** ** Processes *)

Implicit Types s : kstate W.

Definition on_world {A} (m : M W A) : M (kstate W) A :=
  fun s => match m (k_world s) with
           | Some (a, w) => Some (a, KState (xom_entries s) (file_lock s) (modxom_src_operand_page s) w)
           | None => None
           end.
Definition set_entries (l : list xom_process_entry) s : kstate W :=
  KState l (file_lock s) (modxom_src_operand_page s) (k_world s).

(** Walking the list reads every entry it passes. *)
Fixpoint find_entry (pid : Z) (l : list xom_process_entry) (i : nat) : option (option nat) :=
  match l with
  | [] => Some None
  | e :: l => if pe_freed e then None
              else if pe_pid e =? pid then Some (Some i) else find_entry pid l (S i)
  end.

Definition get_process_entry : M (kstate W) (option nat) :=
  fun s => match find_entry (current_pid (k_world s)) (xom_entries s) 0 with
           | Some r => Some (r, s)
           | None => None
           end.

Definition mappings_of (i : nat) : M (kstate W) (list xom_mapping) :=
  fun s => match xom_entries s !! i with
           | Some e => if pe_freed e then None else Some (pe_mappings e, s)
           | None => None
           end.
Definition set_mappings (i : nat) (l : list xom_mapping) : M (kstate W) unit :=
  modify (fun s => set_entries (alter (fun e => XomProcessEntry (pe_pid e) l (pe_freed e)) i (xom_entries s)) s).
Definition kfree_entry (i : nat) : M (kstate W) unit :=
  modify (fun s => set_entries (alter (fun e => XomProcessEntry (pe_pid e) (pe_mappings e) true) i (xom_entries s)) s).

Definition mutex_lock : M (kstate W) unit :=
  fun s => if file_lock s then None
           else Some (tt, KState (xom_entries s) true (modxom_src_operand_page s) (k_world s)).
Definition mutex_unlock : M (kstate W) unit :=
  modify (fun s => KState (xom_entries s) false (modxom_src_operand_page s) (k_world s)).

(** The loop of [release_process]: the status of [release_mapping] is not
    looked at. *)
Fixpoint release_loop (l : list xom_mapping) : M W unit :=
  match l with
  | [] => ret tt
  | m :: l => do! release_mapping m in release_loop l
  end.

Definition release_process (i : nat) : M (kstate W) Z :=
  let! l := mappings_of i in
  do! on_world (release_loop l) in
  do! set_mappings i [] in
  ret 0.

(** The first mapping with a property, as the [while] loops over an entry's
    mappings find it. *)
Definition first_mapping (P : xom_mapping -> Prop) `{forall m, Decision (P m)} (l : list xom_mapping)
    : option (nat * xom_mapping) := list_find P l.

Definition xmem_free (cmd : modxom_cmd) : M (kstate W) Z :=
  let! e := get_process_entry in
  match e with
  | None => ret (- EBADF)
  | Some i =>
      let! l := mappings_of i in
      match first_mapping (fun m => xm_uaddr m = mc_base_addr cmd) l with
      | None => ret (- EINVAL)
      | Some (j, m) =>
          if negb (xm_num_pages m =? mc_num_pages cmd) then ret (- EINVAL)
          else
            let! '(status, m) := on_world (release_mapping m) in
            if negb (status =? 0) then do! set_mappings i (<[j := m]> l) in ret status
            else do! set_mappings i (delete j l) in ret 0
      end
  end.

Definition lock_pages (cmd : modxom_cmd) : M (kstate W) Z :=
  let! e := get_process_entry in
  match e with
  | None => ret (- EBADF)
  | Some i =>
      let! l := mappings_of i in
      match first_mapping (contains (mc_base_addr cmd)) l with
      | None => ret (- EINVAL)
      | Some (j, m) =>
          if xm_subpage_level m then ret (- EINVAL)
          else if xm_end m <? u64 (mc_base_addr cmd + mc_num_pages cmd * PAGE_SIZE) then ret (- EINVAL)
          else
            let page_index := u32 (u64 (mc_base_addr cmd - xm_uaddr m) / PAGE_SIZE) in
            let! '(status, m) := on_world (xom_invoke_xen m page_index (mc_num_pages cmd) MMUEXT_MARK_XOM) in
            do! set_mappings i (<[j := m]> l) in ret status
      end
  end.

Definition xom_init_subpages (cmd : modxom_cmd) : M (kstate W) Z :=
  let! e := get_process_entry in
  match e with
  | None => ret (- EBADF)
  | Some i =>
      let! l := mappings_of i in
      match first_mapping (contains (mc_base_addr cmd)) l with
      | None => ret (- EINVAL)
      | Some (j, m) =>
          if xm_subpage_level m then ret (- EINVAL)
          else if negb (mc_base_addr cmd =? xm_uaddr m) then ret (- EINVAL)
          else if negb (mc_num_pages cmd =? xm_num_pages m) then ret (- EINVAL)
          else
            let! '(status, m) := on_world (xom_invoke_xen m 0 (xm_num_pages m) MMUEXT_CREATE_XOM_SPAGES) in
            do! set_mappings i (<[j := if 0 <=? status then set_subpage_level m else m]> l) in
            ret status
      end
  end.

(** The frame behind a process address in a mapping. *)
Definition addr_gfn (m : xom_mapping) (a : Z) : Z :=
  Z.shiftr (virt_to_phys (u64 (xm_kaddr m + (a - xm_uaddr m)))) PAGE_SHIFT.

Definition xom_subpage_write_xen (cmd : modxom_cmd) : M (kstate W) Z :=
  let! e := get_process_entry in
  match e with
  | None => ret (- EBADF)
  | Some i =>
      let! l := mappings_of i in
      match first_mapping (contains (mc_base_addr cmd)) l with
      | None => ret (- EINVAL)
      | Some (_, m) =>
          if negb (xm_subpage_level m) then ret (- EINVAL)
          else
            let! src := gets modxom_src_operand_page in
            let op := MmuextOp MMUEXT_WRITE_XOM_SPAGES (addr_gfn m (mc_base_addr cmd))
                        (Z.shiftr (virt_to_phys src) PAGE_SHIFT) in
            let! status := on_world (hypercall op 1 0 DOMID_SELF) in
            if negb (status =? 0) then ret (- EINVAL) else ret 0
      end
  end.

(** [memcpy(modxom_src_operand_page, p, n)]: the operand page has
    [PAGE_SIZE] bytes. *)
Definition write_operand_page (l : list Z) : M (kstate W) unit :=
  let! src := gets modxom_src_operand_page in
  if (src =? 0) || (PAGE_SIZE <? Z.of_nat (length l)) then ub
  else on_world (kdo (kernel_write src l)).

Definition xom_write_into_subpages (user_mem len : Z) : M (kstate W) Z :=
  let! src := gets modxom_src_operand_page in
  if negb (Z.land src (PAGE_SIZE - 1) =? 0) then ret (- EFAULT)
  else if len <? sizeof_modxom_cmd + 1 then ret (- EINVAL)
  else
    let! cmd := on_world (kcall (kmalloc len)) in
    if negb cmd then ret (- ENOMEM)
    else
      let! bytes := gets (fun s => copy_from_user user_mem len (k_world s)) in
      match bytes with
      | None => ret (- EFAULT)
      | Some bytes =>
          let mxom_cmd := cmd_of_bytes bytes in
          let xen_cmd := drop (Z.to_nat sizeof_modxom_cmd) bytes in
          let num_subpages := nth 0 xen_cmd 0 in
          if negb (mc_cmd mxom_cmd =? MODXOM_CMD_WRITE_SUBPAGES) then ret (- EINVAL)
          else if num_subpages =? 0 then ret (- EINVAL)
          else if (len - sizeof_modxom_cmd - 1) / sizeof_write_info <? num_subpages then ret (- EINVAL)
          else
            do! mutex_lock in
            do! write_operand_page xen_cmd in
            let! r := xom_subpage_write_xen mxom_cmd in
            do! mutex_unlock in
            ret r
      end.

Definition xom_forward_to_hypervisor (base_addr cmd arg2 : Z) : M (kstate W) Z :=
  if negb (Z.land base_addr (Z.shiftl 1 PAGE_SHIFT - 1) =? 0) then ret (- EINVAL)
  else
    let! e := get_process_entry in
    match e with
    | None => ret (- EBADF)
    | Some i =>
        let! l := mappings_of i in
        match first_mapping (contains base_addr) l with
        | None => ret (- EINVAL)
        | Some (_, m) =>
            let! status := on_world (hypercall (MmuextOp cmd (addr_gfn m base_addr) arg2) 1 0 DOMID_SELF) in
            if negb (status =? 0) then ret (- EINVAL) else ret 0
        end
    end.

(** ** Mapping memory *)

(** [get_new_mapping(vma, curr_entry)]; every path to [fail] frees the process
    entry. *)
Definition get_new_mapping (vm_start vm_end : Z) (i : nat) : M (kstate W) (option xom_mapping) :=
  let size := u64 (vm_end - vm_start) in
  let n_locks := Z.shiftr (size / PAGE_SIZE) 3 + 1 in
  if negb (size mod PAGE_SIZE =? 0) || negb (vm_start mod PAGE_SIZE =? 0) || (size =? 0) then ret None
  else if Z.shiftl (Z.shiftl 1 (MAX_ORDER - 1)) PAGE_SHIFT <? size then ret None
  else
    let! new_mapping := on_world (kcall (kmalloc 64)) in
    if negb new_mapping then ret None
    else
      let! n_lock_status := on_world (kcall (kmalloc n_locks)) in
      if negb n_lock_status then do! kfree_entry i in ret None
      else
        let! newmem := on_world (kcall (get_free_pages (get_order size))) in
        if newmem =? 0 then do! kfree_entry i in ret None
        else if newmem =? 2 ^ 64 - 1 then
          do! kfree_entry i in
          do! on_world (kdo (free_pages newmem (get_order size))) in
          ret None
        else
          do! on_world (reserve_pages true newmem (size / PAGE_SIZE)) in
          do! on_world (kdo (kernel_write newmem
                (repeat 0 (Z.to_nat (PAGE_SIZE * Z.shiftl 1 (get_order size)))))) in
          let pfn := Z.shiftr (virt_to_phys newmem) PAGE_SHIFT in
          let! status := on_world (kcall (remap_pfn_range vm_start pfn size)) in
          if status <? 0 then
            do! kfree_entry i in
            do! on_world (kdo (free_pages newmem (get_order size))) in
            ret None
          else
            ret (Some (XomMapping (u32 (size / PAGE_SIZE)) vm_start newmem pfn
                         (repeat 0 (Z.to_nat n_locks)) false)).

(** The first mapping the loop does not step over. *)
Definition touches (vm_start vm_end : Z) (m : xom_mapping) : Prop :=
  ~ (vm_end < xm_uaddr m \/ xm_end m <= vm_start).

Definition manage_mapping_intersection (vm_start vm_end : Z) (i : nat) : M (kstate W) Z :=
  let! l := mappings_of i in
  match first_mapping (touches vm_start vm_end) l with
  | None => ret 0
  | Some (j, m) =>
      if (xm_uaddr m <? vm_start) || (vm_end <? xm_end m) then ret 1
      else
        let! '(status, m) := on_world (release_mapping m) in
        if negb (status =? 0) then do! set_mappings i (<[j := m]> l) in ret status
        else do! set_mappings i (delete j l) in ret 0
  end.

(** ** The file operations of [/proc/xom] *)

Definition xom_open : M (kstate W) Z :=
  do! mutex_lock in
  let! e := get_process_entry in
  match e with
  | Some _ => do! mutex_unlock in ret (- EEXIST)
  | None =>
      let! new_entry := on_world (kcall (kmalloc 56)) in
      if negb new_entry then ub                            (* new_entry->pid of NULL *)
      else
        let! pid := gets (fun s => current_pid (k_world s)) in
        do! modify (fun s => set_entries (XomProcessEntry pid [] false :: xom_entries s) s) in
        do! mutex_unlock in
        ret 0
  end.

Definition xom_release : M (kstate W) Z :=
  do! mutex_lock in
  let! e := get_process_entry in
  match e with
  | None => do! mutex_unlock in ret 0
  | Some i =>
      let! status := release_process i in
      do! modify (fun s => set_entries (delete i (xom_entries s)) s) in
      do! mutex_unlock in
      ret status
  end.

Definition xom_mmap (vm_start vm_end : Z) : M (kstate W) Z :=
  let! hvm := gets (fun s => xen_hvm_domain (k_world s)) in
  if negb hvm then ret (- ENODEV)
  else
    do! mutex_lock in
    let! e := get_process_entry in
    let! status :=
      (match e with
       | None => ret (- EBADF)
       | Some i =>
           let! status := manage_mapping_intersection vm_start vm_end i in
           if status <? 0 then ret status
           else
             let! new_mapping := get_new_mapping vm_start vm_end i in
             match new_mapping with
             | None => ret (- EINVAL)
             | Some m =>
                 let! l := mappings_of i in
                 do! set_mappings i (m :: l) in
                 ret status
             end
       end) in
    do! mutex_unlock in
    ret status.

Definition xom_write (user_mem len : Z) : M (kstate W) Z :=
  if len <? sizeof_modxom_cmd then ret (- EINVAL)
  else if sizeof_modxom_cmd <? len then xom_write_into_subpages user_mem len
  else
    let! bytes := gets (fun s => copy_from_user user_mem sizeof_modxom_cmd (k_world s)) in
    match bytes with
    | None => ret (- EFAULT)
    | Some bytes =>
        let cmd := cmd_of_bytes bytes in
        do! mutex_lock in
        let! r :=
          (if mc_cmd cmd =? MODXOM_CMD_NOP then ret sizeof_modxom_cmd
           else if mc_cmd cmd =? MODXOM_CMD_FREE then xmem_free cmd
           else if mc_cmd cmd =? MODXOM_CMD_LOCK then lock_pages cmd
           else if mc_cmd cmd =? MODXOM_CMD_INIT_SUBPAGES then xom_init_subpages cmd
           else if mc_cmd cmd =? MODXOM_CMD_MARK_REG_CLEAR
           then xom_forward_to_hypervisor (mc_base_addr cmd) MMUEXT_MARK_REG_CLEAR (mc_num_pages cmd)
           else ret (- EINVAL)) in
        do! mutex_unlock in
        ret r
    end.

(** *** Reading the list of mappings *)

(** The characters of [READ_HEADER_STRING]. *)
Definition READ_HEADER_STRING : list Z :=
  repeat 32 8 ++ [65; 100; 100; 114; 101; 115; 115; 58] ++ repeat 32 13 ++ [83; 105; 122; 101; 58; 10].
Definition sizeof_header : Z := Z.of_nat (length READ_HEADER_STRING) + 1.
Definition MAPPING_LINE_SIZE : Z := 2 * (2 * 8 + 2) + 5.

Definition hex_digit (d : Z) : Z := if d <? 10 then 48 + d else 87 + d.
Fixpoint hex_digits (n : nat) (z : Z) : list Z :=
  match n with
  | O => []
  | S n => (if z <? 16 then [] else hex_digits n (z / 16)) ++ [hex_digit (z mod 16)]
  end.
(** [%16lx] *)
Definition fmt_16lx (z : Z) : list Z :=
  let d := hex_digits 16 z in repeat 32 (16 - length d) ++ d.
(** ["%16lx, %16lx\n"] *)
Definition fmt_line (vm_start size : Z) : list Z :=
  fmt_16lx vm_start ++ [44; 32] ++ fmt_16lx size ++ [10].

(** Storing initialised bytes at [i] in a buffer. *)
Definition buf_write (i : nat) (l : list Z) (buf : list (option Z)) : list (option Z) :=
  take i buf ++ map Some l ++ drop (i + length l) buf.

(** [snprintf(buf + index, size, ...)] of a string [l]: at most [size - 1]
    characters and the terminating zero. *)
Definition buf_snprintf (index size : Z) (l : list Z) (buf : list (option Z)) : list (option Z) :=
  buf_write (Z.to_nat index) (take (Z.to_nat (size - 1)) l ++ [0]) buf.

Fixpoint read_loop (w : W) (l : list xom_mapping) (len_required index : Z) (buf : list (option Z))
    : list (option Z) :=
  match l with
  | [] => buf
  | m :: l =>
      if index <? len_required then
        match find_vma (xm_uaddr m) w with
        | None => read_loop w l len_required index buf
        | Some (vs, ve) =>
            let line := fmt_line vs (u64 (ve - vs)) in
            read_loop w l len_required (index + Z.of_nat (length line))
              (buf_snprintf index (len_required - index) line buf)
        end
      else buf
  end.

(** [dstring] before it is copied: [None] is a byte that was never written. *)
Definition read_string (w : W) (l : list xom_mapping) : list (option Z) :=
  let len_required := sizeof_header + MAPPING_LINE_SIZE * Z.of_nat (length l) in
  read_loop w l len_required (sizeof_header - 1)
    (buf_write 0 (READ_HEADER_STRING ++ [0]) (repeat None (Z.to_nat len_required))).

(** Returns the status and the new [*offset]. *)
Definition xom_read (user_mem len offset : Z) : M (kstate W) (Z * Z) :=
  do! mutex_lock in
  let! e := get_process_entry in
  let! r :=
    (match e with
     | None => ret (- EBADF, offset)
     | Some i =>
         let! l := mappings_of i in
         let len_required := sizeof_header + MAPPING_LINE_SIZE * Z.of_nat (length l) in
         if len_required <=? u64 offset then ret (0, offset)
         else
           let! dstring := on_world (kcall (kmalloc len_required)) in
           if negb dstring then ret (- ENOMEM, offset)
           else
             let! w := gets k_world in
             let clen := Z.min (len_required - offset) len in
             let out := take (Z.to_nat clen) (drop (Z.to_nat offset) (read_string w l)) in
             let! fault := on_world (kcall (copy_to_user user_mem out)) in
             let clen := if fault : bool then 0 else clen in
             ret (clen, offset + clen)
     end) in
  do! mutex_unlock in
  ret r.

(** ** Loading and unloading *)

Definition modxom_init : M (kstate W) Z :=
  let! src := on_world (kcall (get_free_pages (get_order PAGE_SIZE))) in
  do! modify (fun s => KState [] false src (k_world s)) in
  ret 0.

Fixpoint exit_loop (n : nat) (i : nat) : M (kstate W) unit :=
  match n with
  | O => ret tt
  | S n => do! release_process i in do! kfree_entry i in exit_loop n (S i)
  end.

Definition modxom_exit : M (kstate W) unit :=
  let! n := gets (fun s => length (xom_entries s)) in
  do! exit_loop n 0 in
  let! src := gets modxom_src_operand_page in
  on_world (kdo (free_pages src (get_order PAGE_SIZE))).
End modxom.
