(* ===== verification/ModXomSpec.v ===== *)
(** * Facts about the kernel module

    Well-formed mappings, what one call of [xom_invoke_xen] does, and the
    invariant of the module's process list. *)

From S2P Require Import Prelude RbTree RbSpec RbHeap PageInfo XomDomain ModXom.

(** ** What the module relies on

    Blocks of [__get_free_pages] are page aligned, non-null, in the direct map
    (so their frames are contiguous) and as large as [get_order] promises;
    [copy_from_user] delivers the bytes asked for. *)
Class KernelLaws (W : Type) `{Kernel W} := {
  get_order_ok : forall size, 0 < size -> 0 <= get_order size /\ size <= PAGE_SIZE * 2 ^ get_order size;
  free_block_ok : forall order w a w', get_free_pages order w = (a, w') -> a <> 0 -> a <> 2 ^ 64 - 1 ->
    0 <= virt_to_phys a /\ virt_to_phys a + PAGE_SIZE * 2 ^ order <= 2 ^ 64 /\
    forall i, 0 <= i < 2 ^ order -> virt_to_phys (u64 (a + i * PAGE_SIZE)) = virt_to_phys a + i * PAGE_SIZE;
  copy_from_user_ok : forall a n w l, copy_from_user a n w = Some l ->
    length l = Z.to_nat n /\ Forall (fun b => 0 <= b < 256) l
}.

(** ** Lock bits *)

Definition lock_bit (m : xom_mapping) (i : Z) : bool :=
  Z.testbit (default 0 (xm_lock_status m !! Z.to_nat (Z.shiftr i 3))) (Z.land i 7).

Definition lock_bits (m : xom_mapping) : Z := 8 * Z.of_nat (length (xm_lock_status m)).

Lemma land7 i : Z.land i 7 = i mod 8.
Proof. change 7 with (Z.ones 3). by rewrite Z.land_ones. Qed.
Lemma shiftr3 i : Z.shiftr i 3 = i / 8.
Proof. by rewrite Z.shiftr_div_pow2. Qed.

Lemma byte_bit_set b k j :
  0 <= k < 8 -> 0 <= j < 8 ->
  Z.testbit (u8 (Z.lor (Z.land b (Z.lnot (Z.shiftl 1 k))) (Z.shiftl 1 k))) j = (j =? k) || Z.testbit b j.
Proof.
  intros Hk Hj. unfold u8. rewrite Z.mod_pow2_bits_low by lia.
  rewrite Z.lor_spec, Z.land_spec, Z.lnot_spec, !Z.shiftl_spec by lia.
  destruct (Z.eqb_spec j k) as [->|Hne].
  - rewrite Z.sub_diag. cbn. by rewrite andb_false_r.
  - assert (Z.testbit 1 (j - k) = false) as ->.
    { destruct (Z.lt_trichotomy j k) as [?|[?|?]]; [by apply Z.testbit_neg_r; lia|lia|].
      by rewrite (Z.bits_above_log2 1) by (cbn; lia). }
    cbn. by rewrite andb_true_r, orb_false_r.
Qed.

Lemma set_lock_status_spec m i :
  0 <= i ->
  if decide (i < lock_bits m)
  then exists m', set_lock_status m i = Some m' /\
         m' = set_locks (xm_lock_status m') m /\ lock_bits m' = lock_bits m /\
         (forall b, b ∈ xm_lock_status m' -> b ∈ xm_lock_status m \/ 0 <= b < 256) /\
         (forall j, 0 <= j -> lock_bit m' j = (j =? i) || lock_bit m j)
  else set_lock_status m i = None.
Proof.
  intros Hi. unfold set_lock_status, lock_bits. set (k := Z.to_nat (Z.shiftr i 3)).
  assert (Z.of_nat k = i / 8) as Hk by (unfold k; rewrite shiftr3; zdiv).
  case_decide as Hlt.
  - destruct (lookup_lt_is_Some_2 (xm_lock_status m) k) as [b Hb]; [zdiv|]. rewrite Hb.
    eexists. split; [done|]. cbn. rewrite length_insert. split_and!; [done|done|..].
    + intros b' Hb'. apply list_elem_of_lookup_1 in Hb' as [x Hx].
      apply list_lookup_insert_Some in Hx as [(_ & <- & _)|[_ Hx]];
        [right|left; by eapply list_elem_of_lookup_2].
      unfold u8. apply Z.mod_pos_bound. lia.
    + intros j Hj. unfold lock_bit. cbn. rewrite !land7, shiftr3.
      assert (j mod 8 = j - 8 * (j / 8)) as Hjm by zdiv. assert (i mod 8 = i - 8 * (i / 8)) as Him by zdiv.
      destruct (decide (Z.to_nat (j / 8) = k)) as [Heq|Hne].
      * rewrite Heq, list_lookup_insert_eq, Hb by zdiv. cbn.
        rewrite byte_bit_set by (apply Z.mod_pos_bound; lia). f_equal.
        destruct (Z.eqb_spec (j mod 8) (i mod 8)), (Z.eqb_spec j i); try done; zdiv.
      * rewrite list_lookup_insert_ne by done.
        destruct (Z.eqb_spec j i) as [->|]; [|done]. unfold k in Hne. rewrite shiftr3 in Hne. done.
  - by rewrite (lookup_ge_None_2 (xm_lock_status m) k) by zdiv.
Qed.

Lemma set_lock_range_spec n i m :
  0 <= i -> i + Z.of_nat n < 2 ^ 32 ->
  if decide (n = 0%nat \/ i + Z.of_nat n <= lock_bits m)
  then exists m', set_lock_range n i m = Some m' /\
         m' = set_locks (xm_lock_status m') m /\ lock_bits m' = lock_bits m /\
         (forall b, b ∈ xm_lock_status m' -> b ∈ xm_lock_status m \/ 0 <= b < 256) /\
         (forall j, 0 <= j -> lock_bit m' j = ((i <=? j) && (j <? i + Z.of_nat n)) || lock_bit m j)
  else set_lock_range n i m = None.
Proof.
  revert i m; induction n as [|n IH]; intros i m Hi Hn.
  - rewrite decide_True by auto. exists m. cbn. split_and!; [done|by destruct m|done|auto|].
    intros j _. rewrite Z.add_0_r. by destruct (Z.leb_spec i j), (Z.ltb_spec j i); (done || lia).
  - cbn [set_lock_range]. pose proof (set_lock_status_spec m i Hi) as H1.
    destruct (decide (i < lock_bits m)) as [Hlt|Hge].
    2: { rewrite H1. rewrite decide_False; [done|]. lia. }
    destruct H1 as (m1 & -> & Hm1 & Hl1 & Hb1 & Hbit1).
    assert (u32 (i + 1) = i + 1) as -> by (unfold u32; rewrite Z.mod_small; lia).
    specialize (IH (i + 1) m1 ltac:(lia) ltac:(lia)). rewrite Hl1 in IH.
    case_decide as Hd.
    + rewrite decide_True by lia. destruct IH as (m2 & -> & Hm2 & Hl2 & Hb2 & Hbit2).
      exists m2. split_and!; [done|by rewrite Hm2, Hm1|lia| |].
      * intros b Hb. destruct (Hb2 b Hb) as [?|?]; auto.
      * intros j Hj. rewrite Hbit2, Hbit1 by done.
        destruct (Z.leb_spec (i + 1) j), (Z.ltb_spec j (i + 1 + Z.of_nat n)), (Z.eqb_spec j i),
          (Z.leb_spec i j), (Z.ltb_spec j (i + Z.of_nat (S n))); cbn; (done || lia).
    + rewrite decide_False by lia. exact IH.
Qed.

Lemma foldl_lor_pos l : forall a, 0 <= a -> Forall (fun b => 0 <= b) l ->
  (0 <? foldl Z.lor a l) = (0 <? a) || existsb (fun b => 0 <? b) l.
Proof.
  induction l as [|b l IH]; intros a Ha Hl; cbn; [by rewrite orb_false_r|].
  apply Forall_cons in Hl as [Hb Hl]. rewrite IH by (done || by apply Z.lor_nonneg).
  rewrite orb_assoc. f_equal.
  pose proof (proj2 (Z.lor_nonneg a b) (conj Ha Hb)) as Hnn.
  destruct (Z.ltb_spec 0 (Z.lor a b)) as [Hp|Hp].
  - destruct (Z.ltb_spec 0 a); [done|]. destruct (Z.ltb_spec 0 b); [done|].
    assert (a = 0) as -> by lia. assert (b = 0) as -> by lia. by rewrite Z.lor_0_l in Hp.
  - assert (Z.lor a b = 0) as [-> ->]%Z.lor_eq_0_iff by lia. done.
Qed.

Section spec.
Context {W : Type} `{Kernel W}.

(** ** Well-formed mappings *)

Record mapping_wf (m : xom_mapping) : Prop := {
  mw_pages : 1 <= xm_num_pages m <= 1024;
  mw_uaddr : 0 <= xm_uaddr m /\ xm_uaddr m mod PAGE_SIZE = 0 /\
             xm_uaddr m + xm_num_pages m * PAGE_SIZE <= 2 ^ 56;
  mw_kaddr : xm_kaddr m <> 0;
  mw_locks : Z.of_nat (length (xm_lock_status m)) = Z.shiftr (xm_num_pages m) 3 + 1;
  mw_bytes : forall b, b ∈ xm_lock_status m -> 0 <= b < 256;
  mw_pfn : 0 <= xm_pfn m /\ xm_pfn m + xm_num_pages m <= 2 ^ 52;
  mw_frames : forall i, 0 <= i < xm_num_pages m -> page_gfn m i = xm_pfn m + i
}.

Lemma mw_bits m : mapping_wf m -> lock_bits m = 8 * (xm_num_pages m / 8 + 1).
Proof. intros Hm. unfold lock_bits. by rewrite (mw_locks _ Hm), shiftr3. Qed.

Lemma xm_end_wf m : mapping_wf m -> xm_end m = xm_uaddr m + xm_num_pages m * PAGE_SIZE.
Proof. intros [? (? & ? & ?) ? ? ? ? ?]. unfold xm_end, u64. rewrite Z.mod_small; [done|]. unfold PAGE_SIZE in *. lia. Qed.

Lemma set_locks_wf m m' :
  mapping_wf m -> m' = set_locks (xm_lock_status m') m -> lock_bits m' = lock_bits m ->
  (forall b, b ∈ xm_lock_status m' -> b ∈ xm_lock_status m \/ 0 <= b < 256) -> mapping_wf m'.
Proof.
  intros [] Hm Hl Hb. unfold lock_bits in Hl. rewrite Hm. split; try done; cbn.
  - by replace (Z.of_nat (length (xm_lock_status m'))) with (Z.of_nat (length (xm_lock_status m))) by lia.
  - intros b Hin. destruct (Hb b Hin); auto.
Qed.

(** Whether some page was locked since the mapping was made. *)
Definition any_locked (m : xom_mapping) : bool := existsb (fun b => 0 <? b) (xm_lock_status m).

Lemma were_pages_locked_wf m : mapping_wf m -> were_pages_locked m = Some (any_locked m).
Proof.
  intros Hm. unfold were_pages_locked, any_locked. rewrite <-(mw_locks _ Hm), Nat2Z.id.
  rewrite decide_True by lia. rewrite take_ge by lia.
  rewrite foldl_lor_pos; [done|lia|]. apply Forall_forall. intros b Hb. apply (mw_bytes _ Hm) in Hb. lia.
Qed.

Lemma any_locked_bit m j : 0 <= j -> lock_bit m j = true ->
  (forall b, b ∈ xm_lock_status m -> 0 <= b) -> any_locked m = true.
Proof.
  unfold lock_bit, any_locked. intros Hj Hb Hnn. apply existsb_exists.
  destruct (xm_lock_status m !! _) as [b|] eqn:He; [|by rewrite Z.testbit_0_l in Hb].
  apply list_elem_of_lookup_2 in He. exists b. split; [by apply list_elem_of_In|].
  apply Z.ltb_lt. cbn in Hb. specialize (Hnn b He).
  destruct (Z.eq_dec b 0) as [->|]; [by rewrite Z.testbit_0_l in Hb|lia].
Qed.

(** ** One hypercall for the whole mapping *)

Lemma group_pages_wf fuel m p :
  mapping_wf m -> 0 <= p < xm_num_pages m -> (Z.to_nat (xm_num_pages m - p) <= fuel)%nat ->
  group_pages fuel m 0 p (xm_pfn m + p) = Some (xm_num_pages m, xm_pfn m + xm_num_pages m - 1).
Proof.
  intros Hm. revert p; induction fuel as [|fuel IH]; intros p Hp Hf; [lia|].
  destruct (mw_pages _ Hm), (mw_pfn _ Hm). cbn [group_pages].
  assert (u32 (p + 1) = p + 1) as -> by (unfold u32; rewrite Z.mod_small; lia).
  rewrite Z.add_0_l, Z.add_0_r. assert (u32 (p + 1) = p + 1) as -> by (unfold u32; rewrite Z.mod_small; lia).
  destruct (Z.leb_spec (xm_num_pages m) (p + 1)).
  - f_equal. f_equal; lia.
  - rewrite (mw_frames _ Hm) by lia. unfold u64. rewrite Z.mod_small by lia.
    destruct (Z.eqb_spec (xm_pfn m + p) (xm_pfn m + (p + 1) - 1)); [|lia]. apply IH; lia.
Qed.

(** What [xom_invoke_xen] does to a well-formed mapping, whatever part of it
    the caller names. *)
Definition invoke_result (m : xom_mapping) (page_index cmd : Z) (w : W) : option ((Z * xom_mapping) * W) :=
  let '(gfns, w) := kmalloc (u64 (8 * xm_num_pages m)) w in
  if negb gfns then Some ((- ENOMEM, m), w)
  else
    let '(rc, w) := HYPERVISOR_mmuext_op (MmuextOp cmd (xm_pfn m) (xm_num_pages m)) 1 DOMID_SELF 0 w in
    if rc =? 0 then (fun m' => ((0, m'), w)) <$> set_lock_range (Z.to_nat (xm_num_pages m)) page_index m
    else Some ((- EINVAL, m), w).

Lemma xom_invoke_xen_eq m page_index num_pages cmd w :
  mapping_wf m -> 0 < num_pages -> 0 <= page_index -> page_index + num_pages <= xm_num_pages m ->
  xom_invoke_xen m page_index num_pages cmd w = invoke_result m page_index cmd w.
Proof.
  intros Hm Hn Hi Hb. destruct (mw_pages _ Hm). unfold xom_invoke_xen, invoke_result.
  destruct (Z.eqb_spec num_pages 0); [lia|].
  assert (u32 (page_index + num_pages) = page_index + num_pages) as -> by (unfold u32; rewrite Z.mod_small; lia).
  destruct (Z.ltb_spec (xm_num_pages m) (page_index + num_pages)); [lia|].
  unfold bind at 1, kcall. destruct (kmalloc _ w) as [[] w1]; [|done]. cbn [negb].
  replace (Z.to_nat num_pages + 1)%nat with (S (S (Z.to_nat num_pages - 1))) by lia. cbn [invoke_loop].
  destruct (Z.ltb_spec 0 num_pages); [|lia]. cbn [negb].
  pose proof (group_pages_wf (Z.to_nat (xm_num_pages m) + 1) m 0 Hm ltac:(lia) ltac:(lia)) as Hg.
  rewrite Z.add_0_r in Hg. unfold bind at 1. rewrite Hg. cbn [lift ret].
  unfold bind at 1, hypercall, kcall.
  destruct (HYPERVISOR_mmuext_op _ _ _ _ w1) as [rc w2]. destruct (Z.eqb_spec rc 0) as [->|]; [|done]. cbn [negb].
  assert (u32 (page_index + 0) = page_index) as -> by (unfold u32; rewrite Z.mod_small; lia).
  destruct (set_lock_range _ _ _) as [m'|]; [|done]. unfold bind at 1. cbn [lift ret].
  rewrite Z.add_0_l. assert (u32 (xm_num_pages m) = xm_num_pages m) as -> by (unfold u32; rewrite Z.mod_small; lia).
  cbn [invoke_loop]. destruct (Z.ltb_spec (xm_num_pages m) num_pages); [lia|]. done.
Qed.

Lemma wp_lift {A} (o : option A) (Q : A -> W -> Prop) w :
  (exists a, o = Some a /\ Q a w) -> wp (lift o) Q w.
Proof. intros (a & -> & HQ). by apply wp_ret. Qed.

Lemma wp_kcall {A} (f : W -> A * W) (Q : A -> W -> Prop) w : Q (f w).1 (f w).2 -> wp (kcall f) Q w.
Proof. intros HQ. exists (f w).1, (f w).2. split; [|done]. unfold kcall. by destruct (f w). Qed.

Lemma invoke_result_wf m page_index cmd w :
  mapping_wf m -> 0 <= page_index -> page_index + xm_num_pages m <= lock_bits m ->
  exists rc m' w', invoke_result m page_index cmd w = Some ((rc, m'), w') /\ mapping_wf m' /\
    m' = set_locks (xm_lock_status m') m /\ (rc = 0 -> any_locked m' = true) /\
    (any_locked m = true -> any_locked m' = true).
Proof.
  intros Hm Hi Hb. unfold invoke_result. destruct (kmalloc _ w) as [[] w1]; cbn [negb].
  2: { eexists _, _, _. split; [done|]. by split_and!; [|destruct m| |]. }
  destruct (HYPERVISOR_mmuext_op _ _ _ _ w1) as [rc w2]. destruct (Z.eqb_spec rc 0) as [->|].
  2: { eexists _, _, _. split; [done|]. by split_and!; [|destruct m| |]. }
  destruct (mw_pages _ Hm) as [Hp1 Hp2].
  pose proof (set_lock_range_spec (Z.to_nat (xm_num_pages m)) page_index m Hi) as Hr.
  assert (lock_bits m < 2 ^ 16) by (rewrite mw_bits by done; zdiv).
  rewrite decide_True in Hr by lia.
  destruct Hr as (m' & -> & Hm' & Hl & Hby & Hbit); [lia|]. cbn.
  pose proof (set_locks_wf m m' Hm Hm' Hl Hby) as Hwf.
  assert (any_locked m' = true).
  { apply (any_locked_bit m' page_index); [done| |intros b Hbb; apply (mw_bytes _ Hwf b Hbb)].
    rewrite Hbit by done. destruct (Z.leb_spec page_index page_index), (Z.ltb_spec page_index
      (page_index + Z.of_nat (Z.to_nat (xm_num_pages m)))); (done || lia). }
  eexists _, _, _. split; [done|]. by split_and!.
Qed.

Lemma set_locks_pages m m' : m' = set_locks (xm_lock_status m') m -> xm_num_pages m' = xm_num_pages m.
Proof. by intros ->. Qed.

(** ** Releasing a mapping *)

Lemma xom_invoke_xen_whole m cmd w :
  mapping_wf m ->
  exists rc m' w', xom_invoke_xen m 0 (xm_num_pages m) cmd w = Some ((rc, m'), w') /\ mapping_wf m' /\
    m' = set_locks (xm_lock_status m') m /\ (rc = 0 -> any_locked m' = true) /\
    (any_locked m = true -> any_locked m' = true).
Proof.
  intros Hm. destruct (mw_pages _ Hm). rewrite xom_invoke_xen_eq by (done || lia).
  apply invoke_result_wf; [done|lia|]. rewrite mw_bits by done. zdiv.
Qed.

Lemma release_mapping_safe m w :
  mapping_wf m -> wp (release_mapping m) (fun r _ => mapping_wf r.2) w.
Proof.
  intros Hm. unfold release_mapping. apply wp_bind, wp_lift. rewrite were_pages_locked_wf by done.
  eexists. split; [done|]. apply wp_bind.
  apply (wp_mono _ (fun r _ => mapping_wf r.2)).
  { destruct (any_locked m); [|by apply wp_ret].
    destruct (xom_invoke_xen_whole m MMUEXT_UNMARK_XOM w Hm) as (rc & m' & w' & He & Hw & _).
    by exists (rc, m'), w'. }
  intros [rc m'] w1 Hm'. destruct (rc =? 0); cbn [negb]; [|by apply wp_ret].
  apply wp_bind, wp_modify, wp_bind, wp_gets, wp_bind.
  apply (wp_mono _ (fun _ _ => True)).
  { destruct (current_exiting _); cbn [negb]; [by apply wp_ret|by apply wp_kcall]. }
  intros st w2 _. destruct (st =? 0); cbn [negb]; [|by apply wp_ret].
  apply wp_bind. destruct (xm_kaddr m' =? 0); cbn [negb]; [|apply wp_modify]; by repeat apply wp_ret.
Qed.

(** ** The process list *)

Implicit Types s : kstate W.

Record kinv s : Prop := {
  ki_alive : forall e, e ∈ xom_entries s -> pe_freed e = false;
  ki_pids : NoDup (pe_pid <$> xom_entries s);
  ki_maps : forall e m, e ∈ xom_entries s -> m ∈ pe_mappings e -> mapping_wf m
}.

Lemma find_entry_spec pid l k :
  (forall e, e ∈ l -> pe_freed e = false) ->
  exists r, find_entry pid l k = Some r /\
    match r with
    | Some i => exists e, (k <= i)%nat /\ l !! (i - k)%nat = Some e /\ pe_pid e = pid
    | None => pid ∉ pe_pid <$> l
    end.
Proof.
  revert k; induction l as [|e l IH]; intros k Hl; cbn [find_entry].
  - exists None. split; [done|]. apply not_elem_of_nil.
  - rewrite (Hl e) by by left. destruct (Z.eqb_spec (pe_pid e) pid) as [He|He].
    + exists (Some k). split; [done|]. exists e. rewrite Nat.sub_diag. by split_and!.
    + destruct (IH (S k)) as (r & Hr & Hs); [intros e' He'; apply Hl; by right|].
      exists r. split; [done|]. destruct r as [i|].
      * destruct Hs as (e' & Hk & Hi & Hp). exists e'. split_and!; [lia| |done].
        replace (i - k)%nat with (S (i - S k)) by lia. done.
      * rewrite fmap_cons, not_elem_of_cons. split; [by intros ->|done].
Qed.

Lemma get_process_entry_spec s :
  kinv s ->
  wp get_process_entry (fun r s' => s' = s /\
     match r with
     | Some i => exists e, xom_entries s !! i = Some e /\ pe_pid e = current_pid (k_world s)
     | None => current_pid (k_world s) ∉ pe_pid <$> xom_entries s
     end) s.
Proof.
  intros Hs. destruct (find_entry_spec (current_pid (k_world s)) (xom_entries s) 0 (ki_alive _ Hs))
    as (r & Hr & Hp).
  exists r, s. unfold get_process_entry. rewrite Hr. split; [done|]. split; [done|].
  destruct r as [i|]; [|done]. destruct Hp as (e & _ & Hi & He). rewrite Nat.sub_0_r in Hi. eauto.
Qed.

Lemma mappings_of_spec s i e (Q : list xom_mapping -> kstate W -> Prop) :
  kinv s -> xom_entries s !! i = Some e -> Q (pe_mappings e) s -> wp (mappings_of i) Q s.
Proof.
  intros Hs He HQ. exists (pe_mappings e), s. unfold mappings_of. rewrite He.
  by rewrite (ki_alive _ Hs) by by eapply list_elem_of_lookup_2.
Qed.

Lemma kinv_world s w : kinv s -> kinv (KState (xom_entries s) (file_lock s) (modxom_src_operand_page s) w).
Proof. intros []. by split. Qed.

Lemma wp_on_world {A} (m : M W A) (Q : A -> kstate W -> Prop) s :
  wp m (fun a w => Q a (KState (xom_entries s) (file_lock s) (modxom_src_operand_page s) w)) (k_world s) ->
  wp (on_world m) Q s.
Proof. intros (a & w & Hm & HQ). eexists _, _. unfold on_world. by rewrite Hm. Qed.

Lemma fmap_alter_id {A B} (f : A -> B) (g : A -> A) (l : list A) i :
  (forall x, f (g x) = f x) -> f <$> alter g i l = f <$> l.
Proof.
  intros Hg. revert i; induction l as [|x l IH]; intros [|i]; cbn; [done|done|by rewrite Hg|].
  f_equal. apply IH.
Qed.

(** Replacing the mappings of a process by well-formed ones. *)
Lemma kinv_set_mappings s i e l :
  kinv s -> xom_entries s !! i = Some e -> Forall mapping_wf l ->
  kinv (set_entries (alter (fun e => XomProcessEntry (pe_pid e) l (pe_freed e)) i (xom_entries s)) s).
Proof.
  intros Hs He Hl. pose proof (list_elem_of_lookup_2 _ _ _ He) as Hin.
  assert (forall e', e' ∈ alter (fun e => XomProcessEntry (pe_pid e) l (pe_freed e)) i (xom_entries s) ->
    e' ∈ xom_entries s \/ (pe_freed e' = pe_freed e /\ pe_mappings e' = l)) as Hel.
  { intros e' [k Hk]%list_elem_of_lookup_1. destruct (decide (k = i)) as [->|Hne].
    - rewrite list_lookup_alter_eq, He in Hk. cbn in Hk. simplify_eq. by right.
    - rewrite list_lookup_alter_ne in Hk by done. left. by eapply list_elem_of_lookup_2. }
  split; cbn.
  - intros e' [?|[-> _]]%Hel; by apply (ki_alive _ Hs).
  - assert (pe_pid <$> alter (fun e => XomProcessEntry (pe_pid e) l (pe_freed e)) i (xom_entries s) =
            pe_pid <$> xom_entries s) as -> by (by apply fmap_alter_id). apply Hs.
  - intros e' m [He'|[_ ->]]%Hel Hm; [by eapply (ki_maps _ Hs)|by eapply Forall_forall in Hm].
Qed.

(** ** Operations on one mapping of the calling process *)

Lemma with_mapping_spec (P : xom_mapping -> Prop) `{forall m, Decision (P m)}
    (body : nat -> list xom_mapping -> nat -> xom_mapping -> M (kstate W) Z) (Q : Z -> kstate W -> Prop) s :
  kinv s -> Q (- EBADF) s -> Q (- EINVAL) s ->
  (forall i e j m, xom_entries s !! i = Some e -> pe_pid e = current_pid (k_world s) ->
     pe_mappings e !! j = Some m -> P m -> wp (body i (pe_mappings e) j m) Q s) ->
  wp (let! e := get_process_entry in
      match e with
      | None => ret (- EBADF)
      | Some i =>
          let! l := mappings_of i in
          match first_mapping P l with
          | None => ret (- EINVAL)
          | Some (j, m) => body i l j m
          end
      end) Q s.
Proof.
  intros Hs Hb Hv Hk. apply wp_bind. eapply wp_mono; [by apply get_process_entry_spec|].
  intros [i|] s' [-> He]; [|by apply wp_ret]. destruct He as (e & He & Hp).
  apply wp_bind. eapply mappings_of_spec; [done..|]. unfold first_mapping.
  destruct (list_find P (pe_mappings e)) as [[j m]|] eqn:Hf; [|by apply wp_ret].
  apply list_find_Some in Hf as (Hj & HP & _). by eapply Hk.
Qed.

(** The module's own state is intact: what a caller may rely on after any
    operation. *)
Definition kpost s s' : Prop :=
  kinv s' /\ file_lock s' = file_lock s /\
  modxom_src_operand_page s' = modxom_src_operand_page s /\
  pe_pid <$> xom_entries s' = pe_pid <$> xom_entries s.

Lemma kpost_refl s : kinv s -> kpost s s.
Proof. intros. by split_and!. Qed.

Lemma kpost_world s w : kinv s -> kpost s (KState (xom_entries s) (file_lock s) (modxom_src_operand_page s) w).
Proof. intros. split_and!; [by apply kinv_world|done..]. Qed.

Lemma set_mappings_spec s i e l (Q : unit -> kstate W -> Prop) :
  kinv s -> xom_entries s !! i = Some e -> Forall mapping_wf l ->
  (forall s', kpost s s' -> k_world s' = k_world s -> Q tt s') -> wp (set_mappings i l) Q s.
Proof.
  intros Hs He Hl HQ. apply wp_modify, HQ; [|done].
  split_and!; [by eapply kinv_set_mappings|done|done|by apply fmap_alter_id].
Qed.

Lemma kpost_trans s1 s2 s3 : kpost s1 s2 -> kpost s2 s3 -> kpost s1 s3.
Proof. intros (_ & ? & ? & ?) (? & ? & ? & ?). split_and!; [done|congruence..]. Qed.

(** Running a call of the outside world on a mapping and writing the mapping
    back. *)
Lemma update_mapping_spec (m0 : M W (Z * xom_mapping)) (f : Z -> xom_mapping -> list xom_mapping)
    (g : Z -> Z) s i e :
  kinv s -> xom_entries s !! i = Some e ->
  wp m0 (fun r _ => Forall mapping_wf (f r.1 r.2)) (k_world s) ->
  wp (let! '(st, m) := on_world m0 in do! set_mappings i (f st m) in ret (g st)) (fun _ s' => kpost s s') s.
Proof.
  intros Hs He Hm. apply wp_bind, wp_on_world. eapply wp_mono; [exact Hm|].
  intros [st m] w Hl. apply wp_bind.
  eapply set_mappings_spec; [by apply kinv_world|done|done|].
  intros s' Hp _. apply wp_ret. eapply kpost_trans; [by apply kpost_world|exact Hp].
Qed.

Lemma maps_wf s i e : kinv s -> xom_entries s !! i = Some e -> Forall mapping_wf (pe_mappings e).
Proof.
  intros Hs He. apply Forall_forall. intros m Hm. eapply (ki_maps _ Hs); [|exact Hm].
  by eapply list_elem_of_lookup_2.
Qed.

Lemma maps_wf_at s i e j m :
  kinv s -> xom_entries s !! i = Some e -> pe_mappings e !! j = Some m -> mapping_wf m.
Proof. intros Hs He Hm. eapply Forall_lookup_1; [by eapply maps_wf|done]. Qed.

Lemma release_at_spec s i e j m :
  kinv s -> xom_entries s !! i = Some e -> pe_mappings e !! j = Some m ->
  wp (let! '(status, m) := on_world (release_mapping m) in
      if negb (status =? 0) then do! set_mappings i (<[j := m]> (pe_mappings e)) in ret status
      else do! set_mappings i (delete j (pe_mappings e)) in ret 0) (fun _ s' => kpost s s') s.
Proof.
  intros Hs He Hj. pose proof (maps_wf_at _ _ _ _ _ Hs He Hj) as Hm. pose proof (maps_wf _ _ _ Hs He) as Hl.
  apply wp_bind, wp_on_world. eapply wp_mono; [by apply release_mapping_safe|].
  intros [st m'] w Hm'. destruct (st =? 0); cbn [negb]; apply wp_bind;
    (eapply set_mappings_spec; [by apply kinv_world|done|..]).
  - by apply Forall_delete.
  - intros s' Hp _. apply wp_ret. eapply kpost_trans; [by apply kpost_world|exact Hp].
  - by apply Forall_insert.
  - intros s' Hp _. apply wp_ret. eapply kpost_trans; [by apply kpost_world|exact Hp].
Qed.

Lemma xmem_free_safe cmd s : kinv s -> wp (xmem_free cmd) (fun _ s' => kpost s s') s.
Proof.
  intros Hs. apply with_mapping_spec; [done|by apply kpost_refl..|].
  intros i e j m He _ Hj _. cbv beta. destruct (_ =? _); cbn [negb]; [|by apply wp_ret, kpost_refl].
  by apply release_at_spec.
Qed.

(** The page index [lock_pages] computes. *)
Definition lock_index (a : Z) (m : xom_mapping) : Z := u32 (u64 (a - xm_uaddr m) / PAGE_SIZE).

Lemma lock_index_wf a m : mapping_wf m -> contains a m -> lock_index a m = (a - xm_uaddr m) / PAGE_SIZE.
Proof.
  intros Hm [H1 H2]. rewrite xm_end_wf in H2 by done. destruct (mw_pages _ Hm), (mw_uaddr _ Hm) as (? & ? & ?).
  unfold lock_index, u64, PAGE_SIZE in *. rewrite Z.mod_small by lia. unfold u32. rewrite Z.mod_small; zdiv.
Qed.

(** The writes to the lock bits stay inside the array. *)
Definition lock_in_bounds (a : Z) (m : xom_mapping) : Prop :=
  lock_index a m + xm_num_pages m <= lock_bits m.

Lemma lock_pages_safe cmd s :
  kinv s -> 0 <= mc_num_pages cmd < 2 ^ 32 ->
  (forall e m, e ∈ xom_entries s -> m ∈ pe_mappings e -> contains (mc_base_addr cmd) m ->
     lock_in_bounds (mc_base_addr cmd) m) ->
  wp (lock_pages cmd) (fun _ s' => kpost s s') s.
Proof.
  intros Hs Hn Hb. apply with_mapping_spec; [done|by apply kpost_refl..|].
  intros i e j m He _ Hj Hc. cbv beta. pose proof (maps_wf_at _ _ _ _ _ Hs He Hj) as Hm.
  destruct (xm_subpage_level m); [by apply wp_ret, kpost_refl|].
  destruct (Z.ltb_spec (xm_end m) (u64 (mc_base_addr cmd + mc_num_pages cmd * PAGE_SIZE))) as [|Hle];
    [by apply wp_ret, kpost_refl|].
  fold (lock_index (mc_base_addr cmd) m).
  eapply (update_mapping_spec _ (fun _ m => <[j := m]> (pe_mappings e)) (fun st => st)); [done|exact He|].
  specialize (Hb e m (list_elem_of_lookup_2 _ _ _ He) (list_elem_of_lookup_2 _ _ _ Hj) Hc).
  unfold lock_in_bounds in Hb. rewrite lock_index_wf in * by done. destruct Hc as [Hc1 Hc2].
  rewrite xm_end_wf in * by done. destruct (mw_uaddr _ Hm) as (? & ? & ?), (mw_pages _ Hm).
  unfold u64 in Hle. rewrite Z.mod_small in Hle by (unfold PAGE_SIZE in *; lia).
  assert (0 <= (mc_base_addr cmd - xm_uaddr m) / PAGE_SIZE) by (apply Z.div_pos; unfold PAGE_SIZE; lia).
  destruct (Z.eq_dec (mc_num_pages cmd) 0) as [->|Hnz].
  { by apply wp_ret, Forall_insert; [eapply maps_wf|]. }
  destruct (invoke_result_wf m ((mc_base_addr cmd - xm_uaddr m) / PAGE_SIZE) MMUEXT_MARK_XOM (k_world s))
    as (rc & m' & w' & Hr & Hm' & _); [done..|].
  exists (rc, m'), w'. rewrite xom_invoke_xen_eq; [|done|lia|done|unfold PAGE_SIZE in *; zdiv].
  split; [exact Hr|]. by apply Forall_insert; [eapply maps_wf|].
Qed.

Lemma subpage_level_wf m : mapping_wf m -> mapping_wf (set_subpage_level m).
Proof. intros []. by split. Qed.

Lemma xom_init_subpages_safe cmd s : kinv s -> wp (xom_init_subpages cmd) (fun _ s' => kpost s s') s.
Proof.
  intros Hs. apply with_mapping_spec; [done|by apply kpost_refl..|].
  intros i e j m He _ Hj Hc. cbv beta. pose proof (maps_wf_at _ _ _ _ _ Hs He Hj) as Hm.
  destruct (xm_subpage_level m); [by apply wp_ret, kpost_refl|].
  destruct (_ =? _); cbn [negb]; [|by apply wp_ret, kpost_refl].
  destruct (_ =? _); cbn [negb]; [|by apply wp_ret, kpost_refl].
  eapply (update_mapping_spec _
    (fun st m => <[j := if 0 <=? st then set_subpage_level m else m]> (pe_mappings e)) (fun st => st));
    [done|exact He|].
  destruct (xom_invoke_xen_whole m MMUEXT_CREATE_XOM_SPAGES (k_world s) Hm) as (rc & m' & w' & Hr & Hm' & _).
  exists (rc, m'), w'. split; [exact Hr|]. apply Forall_insert; [by eapply maps_wf|]. cbn.
  destruct (0 <=? rc); [by apply subpage_level_wf|done].
Qed.

Lemma hypercall_safe op s :
  kinv s ->
  wp (let! status := on_world (hypercall op 1 0 DOMID_SELF) in
      if negb (status =? 0) then ret (- EINVAL) else ret 0) (fun _ s' => kpost s s') s.
Proof.
  intros Hs. apply wp_bind, wp_on_world, wp_kcall.
  destruct (_ =? 0); cbn [negb]; apply wp_ret; by apply kpost_world.
Qed.

Lemma xom_forward_safe a cmd arg2 s : kinv s -> wp (xom_forward_to_hypervisor a cmd arg2) (fun _ s' => kpost s s') s.
Proof.
  intros Hs. unfold xom_forward_to_hypervisor. destruct (_ =? 0); cbn [negb]; [|by apply wp_ret, kpost_refl].
  apply (with_mapping_spec _ (fun _ _ _ m => _)); [done|by apply kpost_refl..|].
  intros i e j m He _ Hj Hc. cbv beta. by apply hypercall_safe.
Qed.

Lemma xom_subpage_write_xen_safe cmd s : kinv s -> wp (xom_subpage_write_xen cmd) (fun _ s' => kpost s s') s.
Proof.
  intros Hs. apply (with_mapping_spec _ (fun _ _ _ m => _)); [done|by apply kpost_refl..|].
  intros i e j m He _ Hj Hc. cbv beta. destruct (xm_subpage_level m); cbn [negb]; [|by apply wp_ret, kpost_refl].
  apply wp_bind, wp_gets. by apply hypercall_safe.
Qed.

Lemma mutex_lock_spec s (Q : unit -> kstate W -> Prop) :
  file_lock s = false -> Q tt (KState (xom_entries s) true (modxom_src_operand_page s) (k_world s)) ->
  wp mutex_lock Q s.
Proof. intros Hl HQ. eexists tt, _. unfold mutex_lock. by rewrite Hl. Qed.

Lemma locked_inv s b : kinv s -> kinv (KState (xom_entries s) b (modxom_src_operand_page s) (k_world s)).
Proof. intros []. by split. Qed.

Lemma unlock_post s s' :
  file_lock s = false ->
  kpost (KState (xom_entries s) true (modxom_src_operand_page s) (k_world s)) s' ->
  kpost s (KState (xom_entries s') false (modxom_src_operand_page s') (k_world s')).
Proof. intros Hl (Hi & _ & Hsrc & Hp). split_and!; [by apply locked_inv|done..]. Qed.

(** Running an operation with the mutex held. *)
Lemma with_mutex_spec {A} (m : M (kstate W) A) s :
  kinv s -> file_lock s = false ->
  (forall s0, kinv s0 -> xom_entries s0 = xom_entries s -> k_world s0 = k_world s ->
     wp m (fun _ s' => kpost s0 s') s0) ->
  wp (do! mutex_lock in let! r := m in do! mutex_unlock in ret r) (fun _ s' => kpost s s') s.
Proof.
  intros Hs Hl Hm. apply wp_bind, mutex_lock_spec; [done|]. apply wp_bind.
  eapply wp_mono; [apply Hm; [|done..]; by apply locked_inv|].
  intros r s' Hp. apply wp_bind, wp_modify, wp_ret. by apply unlock_post.
Qed.

Lemma le_bytes_bound l : Forall (fun b => 0 <= b < 256) l -> 0 <= le_bytes l < 256 ^ Z.of_nat (length l).
Proof.
  induction 1 as [|b l Hb _ IH]; [done|]. cbn [le_bytes foldr length]. fold (le_bytes l).
  rewrite Nat2Z.inj_succ, Z.pow_succ_r by lia. lia.
Qed.

Context `{!KernelLaws W}.

Lemma cmd_of_bytes_bound l :
  Forall (fun b => 0 <= b < 256) l -> 0 <= mc_num_pages (cmd_of_bytes l) < 2 ^ 32.
Proof.
  intros Hl. cbn. pose proof (le_bytes_bound (take 4 (drop 4 l)) ltac:(by apply Forall_take, Forall_drop)) as [? Hb].
  split; [done|]. eapply Z.lt_le_trans; [exact Hb|]. rewrite length_take.
  change (2 ^ 32) with (256 ^ 4). apply Z.pow_le_mono_r; lia.
Qed.

(** A [write] that stays clear of the two unchecked lengths. *)
Definition write_ok s (user_mem len : Z) : Prop :=
  len <= sizeof_modxom_cmd + PAGE_SIZE /\ modxom_src_operand_page s <> 0 /\
  forall l e m, copy_from_user user_mem len (k_world s) = Some l -> mc_cmd (cmd_of_bytes l) = MODXOM_CMD_LOCK ->
    e ∈ xom_entries s -> m ∈ pe_mappings e -> contains (mc_base_addr (cmd_of_bytes l)) m ->
    lock_in_bounds (mc_base_addr (cmd_of_bytes l)) m.

Lemma write_operand_page_safe l s :
  kinv s -> modxom_src_operand_page s <> 0 -> Z.of_nat (length l) <= PAGE_SIZE ->
  wp (write_operand_page l) (fun _ s' => kpost s s') s.
Proof.
  intros Hs Hn Hl. unfold write_operand_page. apply wp_bind, wp_gets.
  rewrite (eqb_neq_false _ 0) by done. destruct (Z.ltb_spec PAGE_SIZE (Z.of_nat (length l))); [lia|]. cbn [orb].
  apply wp_on_world, wp_modify. by apply kpost_world.
Qed.

Lemma xom_write_into_subpages_safe user_mem len s :
  kinv s -> file_lock s = false -> len <= sizeof_modxom_cmd + PAGE_SIZE -> modxom_src_operand_page s <> 0 ->
  wp (xom_write_into_subpages user_mem len) (fun _ s' => kpost s s') s.
Proof.
  intros Hs Hl Hlen Hsrc. unfold xom_write_into_subpages. apply wp_bind, wp_gets.
  destruct (_ =? 0); cbn [negb]; [|by apply wp_ret, kpost_refl].
  destruct (Z.ltb_spec len (sizeof_modxom_cmd + 1)) as [|Hge]; [by apply wp_ret, kpost_refl|].
  apply wp_bind, wp_on_world, wp_kcall.
  set (s1 := KState _ _ _ _). assert (kpost s s1) as Hp1 by by apply kpost_world.
  destruct (kmalloc len (k_world s)).1; cbn [negb]; [|by apply wp_ret].
  apply wp_bind, wp_gets. destruct (copy_from_user user_mem len (k_world s1)) as [l|] eqn:Hc; [|by apply wp_ret].
  apply copy_from_user_ok in Hc as [Hll _].
  destruct (_ =? _); cbn [negb]; [|by apply wp_ret].
  destruct (_ =? _); [by apply wp_ret|]. destruct (_ <? _); [by apply wp_ret|].
  eapply (wp_mono _ (fun _ s' => kpost s1 s')); [|intros r s' Hp; eapply kpost_trans; [exact Hp1|exact Hp]].
  apply wp_bind, mutex_lock_spec; [done|]. apply wp_bind.
  eapply wp_mono; [apply write_operand_page_safe; [by apply locked_inv, Hp1|done|]|].
  { rewrite length_drop, Hll. unfold sizeof_modxom_cmd, PAGE_SIZE in *. lia. }
  intros [] s2 Hp2. apply wp_bind.
  eapply wp_mono; [by apply xom_subpage_write_xen_safe, Hp2|].
  intros r s3 Hp3. apply wp_bind, wp_modify, wp_ret.
  apply unlock_post; [done|]. eapply kpost_trans; [exact Hp2|exact Hp3].
Qed.

Lemma xom_write_safe user_mem len s :
  kinv s -> file_lock s = false -> write_ok s user_mem len ->
  wp (xom_write user_mem len) (fun _ s' => kpost s s') s.
Proof.
  intros Hs Hl (Hlen & Hsrc & Hlock). unfold xom_write.
  destruct (Z.ltb_spec len sizeof_modxom_cmd) as [|Hge]; [by apply wp_ret, kpost_refl|].
  destruct (Z.ltb_spec sizeof_modxom_cmd len) as [|Hle]; [by apply xom_write_into_subpages_safe|].
  assert (len = sizeof_modxom_cmd) as -> by lia.
  apply wp_bind, wp_gets. destruct (copy_from_user _ _ _) as [l|] eqn:Hc; [|by apply wp_ret, kpost_refl].
  specialize (Hlock l). apply copy_from_user_ok in Hc as [_ Hby].
  apply with_mutex_spec; [done..|]. intros s0 Hs0 He Hw.
  destruct (_ =? _); [by apply wp_ret, kpost_refl|].
  destruct (_ =? _); [by apply xmem_free_safe|].
  destruct (Z.eqb_spec (mc_cmd (cmd_of_bytes l)) MODXOM_CMD_LOCK) as [Hcmd|].
  { apply lock_pages_safe; [done|by apply cmd_of_bytes_bound|]. rewrite He. intros e m. by apply Hlock. }
  destruct (_ =? _); [by apply xom_init_subpages_safe|].
  destruct (_ =? _); [by apply xom_forward_safe|by apply wp_ret, kpost_refl].
Qed.

(** ** Opening and closing the file *)

Lemma xom_open_safe s :
  kinv s -> file_lock s = false -> (kmalloc 56 (k_world s)).1 = true ->
  (forall n w, current_pid (kmalloc n w).2 = current_pid w) ->
  wp xom_open (fun rc s' => kinv s' /\ file_lock s' = false /\
     if bool_decide (current_pid (k_world s) ∈ pe_pid <$> xom_entries s)
     then rc = - EEXIST /\ s' = s
     else rc = 0 /\ xom_entries s' = XomProcessEntry (current_pid (k_world s)) [] false :: xom_entries s) s.
Proof.
  intros Hs Hl Hk Hpid. unfold xom_open. apply wp_bind, mutex_lock_spec; [done|]. apply wp_bind.
  eapply wp_mono; [by apply get_process_entry_spec, locked_inv|]. cbn. intros [i|] s' [-> He].
  - destruct He as (e & He & Hp). apply wp_bind, wp_modify, wp_ret. cbn.
    rewrite bool_decide_true by (rewrite <-Hp; by eapply list_elem_of_fmap_2, list_elem_of_lookup_2).
    assert (KState (xom_entries s) false (modxom_src_operand_page s) (k_world s) = s) as -> by (destruct s; cbn in *; congruence).
    by split_and!.
  - apply wp_bind, wp_on_world, wp_kcall. cbn. rewrite Hk. cbn [negb].
    apply wp_bind, wp_gets, wp_bind, wp_modify, wp_bind, wp_modify, wp_ret. cbn. rewrite Hpid.
    rewrite bool_decide_false by done. split_and!; [|done..]. split; cbn.
    + intros e [->|Hin]%elem_of_cons; [done|by apply (ki_alive _ Hs)].
    + constructor; [done|apply Hs].
    + intros e m [->|Hin]%elem_of_cons; [by intros ?%not_elem_of_nil|by apply (ki_maps _ Hs)].
Qed.

Lemma release_loop_safe l w : Forall mapping_wf l -> wp (release_loop l) (fun _ _ => True) w.
Proof.
  intros Hl. revert w; induction Hl as [|m l Hm _ IH]; intros w; cbn [release_loop]; [by apply wp_ret|].
  apply wp_bind. eapply wp_mono; [by apply release_mapping_safe|]. intros r w' _. apply IH.
Qed.

Lemma release_process_safe s i e :
  kinv s -> xom_entries s !! i = Some e -> wp (release_process i) (fun rc s' => rc = 0 /\ kpost s s' /\
    xom_entries s' = alter (fun e => XomProcessEntry (pe_pid e) [] (pe_freed e)) i (xom_entries s)) s.
Proof.
  intros Hs He. unfold release_process. apply wp_bind. eapply mappings_of_spec; [done..|].
  apply wp_bind, wp_on_world. eapply wp_mono; [by eapply release_loop_safe, maps_wf|]. intros [] w _.
  apply wp_bind, wp_modify, wp_ret. split_and!; [done| |done].
  eapply kpost_trans; [by apply (kpost_world _ w)|].
  split_and!; [eapply kinv_set_mappings; [by apply kinv_world|done|by constructor]|done|done|by apply fmap_alter_id].
Qed.

Lemma kinv_sublist s l : kinv s -> l `sublist_of` xom_entries s -> forall b, kinv (KState l b (modxom_src_operand_page s) (k_world s)).
Proof.
  intros [Ha Hp Hm] Hl b.
  assert (forall e, e ∈ l -> e ∈ xom_entries s) as Hin by (intros e; by eapply sublist_subseteq).
  split; cbn; [auto| |eauto]. eapply sublist_NoDup; [exact Hp|by apply fmap_sublist].
Qed.

Lemma fmap_delete {A B} (f : A -> B) (l : list A) i : f <$> delete i l = delete i (f <$> l).
Proof. revert i; induction l as [|x l IH]; intros [|i]; cbn; [done..|]. f_equal. apply IH. Qed.

Lemma filter_not_elem (l : list Z) p : p ∉ l -> filter (.≠ p) l = l.
Proof.
  induction l as [|x l IH]; intros Hn; [done|]. apply not_elem_of_cons in Hn as [Hx Hn].
  rewrite filter_cons_True by done. by rewrite IH.
Qed.

Lemma delete_filter (l : list Z) i p : NoDup l -> l !! i = Some p -> delete i l = filter (.≠ p) l.
Proof.
  revert i; induction l as [|x l IH]; intros [|i] Hnd Hi; cbn in Hi; simplify_eq;
    apply NoDup_cons in Hnd as [Hx Hnd].
  - rewrite filter_cons_False by (intros Hc; by apply Hc). by rewrite filter_not_elem.
  - rewrite filter_cons_True; [cbn; f_equal; by apply IH|].
    intros ->. apply Hx. by eapply list_elem_of_lookup_2.
Qed.

Lemma xom_release_safe s :
  kinv s -> file_lock s = false ->
  wp xom_release (fun rc s' => rc = 0 /\ kinv s' /\ file_lock s' = false /\
     pe_pid <$> xom_entries s' = filter (.≠ current_pid (k_world s)) (pe_pid <$> xom_entries s)) s.
Proof.
  intros Hs Hl. unfold xom_release. apply wp_bind, mutex_lock_spec; [done|]. apply wp_bind.
  eapply wp_mono; [by apply get_process_entry_spec, locked_inv|]. cbn. intros [i|] s' [-> He].
  - destruct He as (e & He & Hp). apply wp_bind.
    eapply wp_mono; [by eapply release_process_safe; [apply locked_inv|]|].
    intros rc s1 (-> & (Hi & _ & _ & Hpids) & Hent). apply wp_bind, wp_modify, wp_bind, wp_modify, wp_ret. cbn.
    split_and!; [done| |done|].
    + apply (kinv_sublist s1); [done|]. apply sublist_delete.
    + cbn in Hpids. rewrite fmap_delete, Hpids, <-Hp. apply delete_filter; [apply Hs|].
      by rewrite list_lookup_fmap, He.
  - apply wp_bind, wp_modify, wp_ret. split_and!; [done|by apply (locked_inv s false)|done|]. cbn.
    by rewrite filter_not_elem.
Qed.

(** ** Mapping memory *)

Lemma reserve_pages_spec b a n w : wp (reserve_pages b a n) (fun _ _ => True) w.
Proof. by apply wp_modify. Qed.

Lemma shiftr12 i : Z.shiftr i PAGE_SHIFT = i / PAGE_SIZE.
Proof. by rewrite Z.shiftr_div_pow2. Qed.

Lemma lookup_repeat0 n b : b ∈ repeat 0 n -> b = 0.
Proof. intros Hb%list_elem_of_In%repeat_spec. done. Qed.

(** What a fresh mapping looks like. *)
Definition fresh_mapping (vm_start vm_end : Z) (m : xom_mapping) : Prop :=
  mapping_wf m /\ xm_uaddr m = vm_start /\ xm_num_pages m * PAGE_SIZE = vm_end - vm_start /\
  any_locked m = false /\ xm_subpage_level m = false.

Lemma new_mapping_fresh vm_start vm_end newmem w w' :
  let size := vm_end - vm_start in
  0 <= vm_start -> vm_end <= 2 ^ 56 -> vm_start mod PAGE_SIZE = 0 -> size mod PAGE_SIZE = 0 ->
  0 < size <= 1024 * PAGE_SIZE ->
  get_free_pages (get_order size) w = (newmem, w') -> newmem <> 0 -> newmem <> 2 ^ 64 - 1 ->
  fresh_mapping vm_start vm_end
    (XomMapping (u32 (size / PAGE_SIZE)) vm_start newmem (Z.shiftr (virt_to_phys newmem) PAGE_SHIFT)
       (repeat 0 (Z.to_nat (Z.shiftr (size / PAGE_SIZE) 3 + 1))) false).
Proof.
  intros size Hs He Ha Hm Hsz Hg Hn1 Hn2.
  destruct (free_block_ok _ _ _ _ Hg Hn1 Hn2) as (Hp0 & Hp1 & Hlin).
  destruct (get_order_ok size ltac:(lia)) as [Ho1 Ho2]. unfold PAGE_SIZE in *.
  assert (u32 (size / 4096) = size / 4096) as Hu by (unfold u32; rewrite Z.mod_small; zdiv).
  assert (virt_to_phys newmem + size <= 2 ^ 64) as Hph by lia.
  split; [|split_and!; cbn; [done|rewrite Hu; fold size; unfold PAGE_SIZE; zdiv| |done]].
  2: { unfold any_locked. cbn. apply not_true_iff_false. intros (b & Hb & Hlt)%existsb_exists.
       apply repeat_spec in Hb. subst b. done. }
  split; unfold PAGE_SIZE; cbn; rewrite ?Hu.
  - zdiv.
  - split_and!; [done..|]. unfold size. unfold size in *. zdiv.
  - done.
  - rewrite repeat_length, shiftr3. zdiv.
  - intros b ->%lookup_repeat0. lia.
  - rewrite shiftr12. unfold PAGE_SIZE. zdiv.
  - intros i Hi. unfold page_gfn. cbn. unfold PAGE_SIZE in *. rewrite Hlin.
    + rewrite !shiftr12. unfold PAGE_SIZE. zdiv.
    + split; [lia|]. assert (i * 4096 < 4096 * 2 ^ get_order size) by zdiv. lia.
Qed.

(** The list with the process entry freed in place. *)
Definition entry_freed s s' (i : nat) : Prop :=
  xom_entries s' = alter (fun e => XomProcessEntry (pe_pid e) (pe_mappings e) true) i (xom_entries s).

Lemma get_new_mapping_spec s vm_start vm_end i :
  kinv s -> 0 <= vm_start <= vm_end -> vm_end <= 2 ^ 56 ->
  wp (get_new_mapping vm_start vm_end i)
     (fun r s' => file_lock s' = file_lock s /\ modxom_src_operand_page s' = modxom_src_operand_page s /\
        match r with
        | Some m => xom_entries s' = xom_entries s /\ fresh_mapping vm_start vm_end m
        | None => xom_entries s' = xom_entries s \/ entry_freed s s' i
        end) s.
Proof.
  intros Hs Hv He. unfold get_new_mapping.
  assert (u64 (vm_end - vm_start) = vm_end - vm_start) as -> by (unfold u64; rewrite Z.mod_small; lia).
  destruct (Z.eqb_spec ((vm_end - vm_start) mod PAGE_SIZE) 0) as [Hm|]; [|apply wp_ret; by auto].
  destruct (Z.eqb_spec (vm_start mod PAGE_SIZE) 0) as [Ha|]; [|apply wp_ret; by auto].
  destruct (Z.eqb_spec (vm_end - vm_start) 0) as [|Hnz]; cbn [negb orb]; [apply wp_ret; by auto|].
  change (Z.shiftl _ PAGE_SHIFT) with (1024 * PAGE_SIZE).
  destruct (Z.ltb_spec (1024 * PAGE_SIZE) (vm_end - vm_start)) as [|Hle]; [apply wp_ret; by auto|].
  apply wp_bind, wp_on_world, wp_kcall. destruct (kmalloc _ _).1; cbn [negb]; [|apply wp_ret; by auto].
  apply wp_bind, wp_on_world, wp_kcall.
  destruct (kmalloc _ _).1; cbn [negb]; [|apply wp_bind, wp_modify, wp_ret; by unfold entry_freed; auto].
  apply wp_bind, wp_on_world, wp_kcall. destruct (get_free_pages _ _) as [newmem w] eqn:Hg. cbn [fst snd].
  destruct (Z.eqb_spec newmem 0) as [|Hn0]; [apply wp_bind, wp_modify, wp_ret; by unfold entry_freed; auto|].
  destruct (Z.eqb_spec newmem (2 ^ 64 - 1)) as [|Hn1].
  { apply wp_bind, wp_modify, wp_bind, wp_on_world, wp_modify, wp_ret. by unfold entry_freed; auto. }
  apply wp_bind, wp_on_world. eapply wp_mono; [apply reserve_pages_spec|]. intros [] w1 _.
  apply wp_bind, wp_on_world, wp_modify, wp_bind, wp_on_world, wp_kcall.
  destruct (_ <? 0).
  { apply wp_bind, wp_modify, wp_bind, wp_on_world, wp_modify, wp_ret. by unfold entry_freed; auto. }
  apply wp_ret. split_and!; [done..|]. eapply new_mapping_fresh; [lia|done|done|done|lia|exact Hg|done|done].
Qed.

Lemma kinv_entries s s' : kinv s -> xom_entries s' = xom_entries s -> kinv s'.
Proof. intros [] Heq. by split; rewrite Heq. Qed.

Lemma manage_mapping_safe vm_start vm_end s i e :
  kinv s -> xom_entries s !! i = Some e ->
  wp (manage_mapping_intersection vm_start vm_end i)
     (fun _ s' => kpost s s' /\ exists e', xom_entries s' !! i = Some e' /\ pe_pid e' = pe_pid e) s.
Proof.
  intros Hs He. apply (wp_mono _ (fun _ s' => kpost s s')).
  - unfold manage_mapping_intersection. apply wp_bind. eapply mappings_of_spec; [done..|].
    destruct (first_mapping _ _) as [[j m]|] eqn:Hf; [|by apply wp_ret, kpost_refl].
    apply list_find_Some in Hf as (Hj & _ & _). destruct (_ || _); [by apply wp_ret, kpost_refl|].
    by apply release_at_spec.
  - intros rc s' Hp. split; [done|]. destruct Hp as (_ & _ & _ & Hp).
    assert ((pe_pid <$> xom_entries s') !! i = Some (pe_pid e)) as Hl by (by rewrite Hp, list_lookup_fmap, He).
    rewrite list_lookup_fmap in Hl. apply fmap_Some in Hl as (e' & ? & ->). eauto.
Qed.
End spec.
