(* ===== verification/ModXomTheorems.v ===== *)
(** * What the kernel module guarantees

    The properties of the file operations of [/proc/xom], the connection of a
    mapping's release to the hypervisor model, and the inputs on which the
    module does not do what it means to. *)

From S2P Require Import Prelude RbTree RbSpec RbHeap PageInfo PageInfoSpec XomDomain XomSpec XomSeal XomSealSpec XomToy P2mTypes GuestCopy XomGuest ModXom ModXomSpec.

(** ** The guest kernel on top of the hypervisor

    A hypercall of the module is one run of [do_mmuext_op] on the domain, with
    the store of the count; [sc] is the address for the count and [dom] the
    domain that the call names.  The other kernel services used while a mapping
    is released leave the hypervisor's view alone. *)
Class XenWorld (W P : Type) `{Kernel W} `{P2mOps P} `{Xmalloc} `{Domains} := {
  xw_dom : W -> domain P;
  xw_env : W -> copy_env;
  xw_call : forall op sc dom w rc w' dm, dom_inv (xw_dom w) dm -> d_xom_page_lock (xw_dom w) = false ->
    HYPERVISOR_mmuext_op op 1 sc dom w = (rc, w') ->
    exists gs r d1, do_mmuext_op false true gs 1 dom (xw_dom w) = Some ((rc, r), d1) /\
      old_guest_table gs = false /\ pdone_is_null gs = (sc =? NULL) /\ copy_from_guest gs (xw_dom w) 0 = Some op /\
      match r with Some i => store_pdone (xw_env w) sc i | None => ret tt end d1 = Some (tt, xw_dom w');
  xw_kmalloc : forall n w, xw_dom (kmalloc n w).2 = xw_dom w;
  xw_reserved : forall b a w, xw_dom (set_page_reserved b a w) = xw_dom w;
  xw_munmap : forall a n w, xw_dom (vm_munmap a n w).2 = xw_dom w
}.

(** Nothing is mapped at an address to which the hypervisor stores. *)
Definition store_unmapped (env : copy_env) (addr : Z) : Prop :=
  (paging_gva_to_gfn env (Z.lor PFEC_page_present PFEC_write_access) addr).1 = INVALID_GFN.

Lemma store_pdone_unmapped {P} `{P2mOps P} env pdone i (d : domain P) :
  store_unmapped env pdone -> store_pdone env pdone i d = Some (tt, d).
Proof.
  intros Hu. unfold store_pdone, copy_to_user_hvm, hvm_copy_to_guest_linear, hvm_copy. rewrite le_encode_length.
  cbn [hvm_copy_loop]. rewrite le_encode_length. cbn [Nat.leb]. unfold hvm_copy_page, hvm_translate_get_page, bind.
  unfold store_unmapped in Hu. destruct (paging_gva_to_gfn _ _ _) as [gfn pf]. cbn in Hu. subst gfn.
  rewrite Z.eqb_refl. unfold ret. by destruct (Z.land pf PFEC_page_paged =? 0), (Z.land pf PFEC_page_shared =? 0).
Qed.

Section linked.
Context {W P : Type} `{XenWorld W P} `{!P2mLaws P}.

Lemma gfns_elem n g c : 0 <= g -> g + Z.of_nat n < 2 ^ 64 -> g <= c < g + Z.of_nat n -> c ∈ gfns n g.
Proof.
  revert g; induction n as [|n IH]; intros g Hg Hn Hc; [lia|]. cbn [gfns]. rewrite elem_of_cons.
  destruct (decide (c = g)) as [|Hne]; [by left|right].
  assert (u64 (g + 1) = g + 1) as -> by (unfold u64; rewrite Z.mod_small; lia). apply IH; lia.
Qed.

(** A call for the pages of another domain that is not paravirtualised is
    handled for the calling one. *)
Lemma foreign_call gs dom (d : domain P) :
  old_guest_table gs = false -> dom mod 2 ^ 16 <> domain_id -> dom mod 2 ^ 16 <> XomGuest.DOMID_SELF ->
  do_mmuext_op false true gs 1 dom d =
  match foreign_is_pv (dom mod 2 ^ 16) with
  | None => Some ((- ESRCH, None), d)
  | Some true => Some (mmuext_pv dom 1, d)
  | Some false => handle_xom_seal gs 1 d
  end.
Proof.
  intros Hold Hd Hs. unfold do_mmuext_op, assert, bind, get_pg_owner. rewrite Hold. cbn [negb ret]. rewrite andb_false_r.
  rewrite (eqb_neq_false _ _ Hd), (eqb_neq_false _ _ Hs). unfold ret.
  change (Z.land 1 (Z.lnot MMU_UPDATE_PREEMPTED)) with 1. by destruct (foreign_is_pv _) as [[]|].
Qed.

(** A successful [MMUEXT_UNMARK_XOM] wipes the range. *)
Lemma unmark_wipes gs pfn n r d d' m :
  dom_inv d m -> d_xom_page_lock d = false -> d_is_hvm d = true -> d_hap_enabled d = true ->
  0 <= n < 2 ^ 32 -> old_guest_table gs = false ->
  copy_from_guest gs d 0 = Some (MmuextOp MMUEXT_UNMARK_XOM pfn n) ->
  handle_xom_seal gs 1 d = Some ((0, r), d') ->
  forall g, g ∈ gfns (Z.to_nat n) pfn -> sealed d g -> wiped d' g.
Proof.
  intros Hinv Hlk Hh Ha Hn Hold Hc Hrun g Hg Hs.
  assert (dom_inv (set_xom_lock true d) m) as Hinv' by (by destruct Hinv; split).
  destruct (clear_xom_seal_spec pfn n _ m Hinv') as (rc & d1 & Hcl & Hrel & m' & Hop & _ & _ & Hw).
  assert (xom_op (MmuextOp MMUEXT_UNMARK_XOM pfn n) d = Some (rc, set_xom_lock false d1)) as Hxo.
  { unfold xom_op. erewrite bind_Some by (unfold xom_lock; by rewrite Hlk).
    change (xom_dispatch _) with (clear_xom_seal (P := P) pfn (u32 n)).
    assert (u32 n = n) as -> by (unfold u32; by rewrite Z.mod_small).
    rewrite (bind_Some _ _ _ _ _ Hcl). unfold bind, xom_unlock.
    by rewrite (sf_xom _ _ (or_frame _ _ _ _ Hop)). }
  unfold handle_xom_seal, bind, get in Hrun. rewrite Hh, Ha in Hrun. cbn [negb orb] in Hrun.
  change (Z.to_nat 1) with 1%nat in Hrun. cbn [handle_loop] in Hrun. rewrite Hold in Hrun.
  cbn [orb Nat.eqb negb andb] in Hrun. unfold bind, get in Hrun. rewrite Hc, Hxo in Hrun.
  destruct (Z.ltb_spec rc 0) as [Hneg|Hrc]; unfold ret in Hrun.
  - injection Hrun as -> _ _. lia.
  - injection Hrun as _ <-. exact (proj1 (Hw Hrc g Hg Hs)).
Qed.

Lemma reserve_pages_dom b a n w :
  wp (reserve_pages b a n) (fun _ w' => xw_dom w' = xw_dom w) w.
Proof.
  apply wp_modify. generalize (seqZ 0 n). intros l. revert w; induction l as [|i l IH]; intros w; [done|].
  cbn. rewrite IH. apply xw_reserved.
Qed.

(** What remains of [release_mapping] once the hypervisor has answered. *)
Lemma release_tail m size w :
  xm_kaddr m <> 0 ->
  wp (do! reserve_pages false (xm_kaddr m) (xm_num_pages m) in
      let! exiting := gets current_exiting in
      let! status := (if negb exiting then kcall (vm_munmap (xm_uaddr m) size) else ret 0) in
      if negb (status =? 0) then ret (status, m)
      else
        do! (if negb (xm_kaddr m =? 0) then kdo (free_pages (xm_kaddr m) (get_order size)) else ret tt) in
        ret (0, m))
     (fun r w' => r.1 = 0 -> exists w1, w' = free_pages (xm_kaddr m) (get_order size) w1 /\ xw_dom w1 = xw_dom w) w.
Proof.
  intros Hk. apply wp_bind. eapply wp_mono; [apply reserve_pages_dom|]. intros [] w1 Hw1.
  apply wp_bind, wp_gets, wp_bind. apply (wp_mono _ (fun _ w2 => xw_dom w2 = xw_dom w)).
  { destruct (current_exiting w1); cbn [negb]; [by apply wp_ret|]. apply wp_kcall. by rewrite xw_munmap. }
  intros st w2 Hw2. destruct (Z.eqb_spec st 0); cbn [negb]; [|by apply wp_ret].
  rewrite (eqb_neq_false (xm_kaddr m) 0) by done. cbn [negb]. apply wp_bind, wp_modify, wp_ret. eauto.
Qed.

(** C23: memory goes back to the guest kernel only after its contents are
    gone: when [release_mapping] of a mapping with a locked page returns 0,
    the last thing it did is to free the pages, and at that moment every
    frame of the mapping that was execute-only holds only [0x90].  The module
    passes the arguments of its hypercall in the wrong order, so that the call
    names domain 0 and asks for its count at address [0x7FF0]; the statement is
    for a guest other than domain 0, with a domain 0 that is not
    paravirtualised, and a process with nothing mapped at that address. *)
Theorem release_mapping_wipes m w dm :
  mapping_wf m -> any_locked m = true -> dom_inv (xw_dom w) dm ->
  d_xom_page_lock (xw_dom w) = false -> d_is_hvm (xw_dom w) = true -> d_hap_enabled (xw_dom w) = true ->
  domain_id <> 0 -> foreign_is_pv 0 = Some false -> (forall w, store_unmapped (xw_env w) DOMID_SELF) ->
  wp (release_mapping m)
     (fun r w' => r.1 = 0 ->
        exists w1, w' = free_pages (xm_kaddr m) (get_order (xm_num_pages m * PAGE_SIZE)) w1 /\
          forall i, 0 <= i < xm_num_pages m -> sealed (xw_dom w) (page_gfn m i) ->
            wiped (xw_dom w1) (page_gfn m i)) w.
Proof.
  intros Hm Hany Hinv Hlk Hh Ha Hid Hpv Hu. destruct (mw_pages _ Hm), (mw_pfn _ Hm).
  unfold release_mapping. apply wp_bind, wp_lift. exists true. rewrite were_pages_locked_wf, Hany by done.
  split; [done|]. cbv beta iota. apply wp_bind.
  assert (u64 (xm_num_pages m * PAGE_SIZE) = xm_num_pages m * PAGE_SIZE) as ->.
  { unfold u64. rewrite Z.mod_small; [done|]. unfold PAGE_SIZE. lia. }
  destruct (xom_invoke_xen_whole m MMUEXT_UNMARK_XOM w Hm) as (rc & m' & w1 & Hx & Hm' & Hset & _).
  exists (rc, m'), w1. split; [exact Hx|].
  destruct (Z.eqb_spec rc 0) as [->|Hrc]; cbn [negb]; [|by apply wp_ret].
  assert (xm_kaddr m' = xm_kaddr m) as Hka by (by rewrite Hset).
  eapply wp_mono; [apply release_tail, Hm'|]. intros r w' Hr Hr0. destruct (Hr Hr0) as (w2 & -> & Hw2).
  exists w2. split; [by rewrite Hka|]. intros i Hi Hs. rewrite Hw2. rewrite (mw_frames _ Hm) in * by done.
  rewrite xom_invoke_xen_eq in Hx by (done || lia). unfold invoke_result in Hx.
  pose proof (xw_kmalloc (u64 (8 * xm_num_pages m)) w) as Hkm.
  destruct (kmalloc _ w) as [ok wk]. cbn [snd] in Hkm. destruct ok; [|by simplify_eq]. cbn [negb] in Hx.
  destruct (HYPERVISOR_mmuext_op _ 1 _ _ wk) as [rc w3] eqn:Hc.
  destruct (Z.eqb_spec rc 0) as [->|]; [|by simplify_eq].
  destruct (set_lock_range _ _ _) as [m3|]; [|done]. cbn in Hx. injection Hx as _ <-.
  rewrite <-Hkm in Hinv, Hlk.
  destruct (xw_call _ _ _ _ _ _ _ Hinv Hlk Hc) as (gs & ro & d1 & Hrun & Hold & _ & Hcf & Hst).
  rewrite foreign_call in Hrun by done. change (0 mod 2 ^ 16) with 0 in Hrun. rewrite Hpv in Hrun.
  assert (d1 = xw_dom w3) as -> by (destruct ro; [rewrite store_pdone_unmapped in Hst by apply Hu|]; by injection Hst).
  rewrite Hkm in Hrun, Hcf, Hinv, Hlk.
  eapply (unmark_wipes gs (xm_pfn m) (xm_num_pages m) ro (xw_dom w)); [exact Hinv|done|done|done|lia|done|exact Hcf|exact Hrun| |done].
  apply gfns_elem; lia.
Qed.

(** Where domain 0 is paravirtualised, as it commonly is, no hypercall of the
    module reaches [handle_xom_seal]: the call returns what the operation gives
    for a page of domain 0, and nothing in the domain changes. *)
Theorem module_call_pv_dom0 op w rc w' dm :
  dom_inv (xw_dom w) dm -> d_xom_page_lock (xw_dom w) = false -> domain_id <> 0 -> foreign_is_pv 0 = Some true ->
  (forall w, store_unmapped (xw_env w) DOMID_SELF) -> hypercall op 1 0 DOMID_SELF w = Some (rc, w') ->
  rc = (mmuext_pv 0 1).1 /\ xw_dom w' = xw_dom w.
Proof.
  intros Hinv Hlk Hid Hpv Hu Hc. unfold hypercall, kcall in Hc. injection Hc as Hc.
  destruct (xw_call op DOMID_SELF 0 w rc w' dm Hinv Hlk) as (gs & ro & d1 & Hrun & Hold & _ & _ & Hst); [done|].
  rewrite foreign_call in Hrun by done. change (0 mod 2 ^ 16) with 0 in Hrun. rewrite Hpv in Hrun.
  destruct (mmuext_pv 0 1) as [rc' r']. injection Hrun as -> -> <-. split; [done|].
  destruct ro; [rewrite store_pdone_unmapped in Hst by apply Hu|]; by injection Hst.
Qed.
End linked.

Section files.
Context {W : Type} `{Kernel W} `{!KernelLaws W}.
Implicit Types s : kstate W.

(** C31: a [write] to the file that is not longer than a command with a page
    of data, and does not ask to lock from inside a mapping so far in that the
    lock bits overrun, returns; the process list stays well formed, no entry
    is lost and the mutex is free again.  The module is initialised: it has
    its operand page. *)
Theorem xom_write_preserves user_mem len s :
  kinv s -> file_lock s = false -> write_ok s user_mem len ->
  wp (xom_write user_mem len)
     (fun _ s' => kinv s' /\ file_lock s' = false /\
        pe_pid <$> xom_entries s' = pe_pid <$> xom_entries s) s.
Proof.
  intros Hs Hl Hok. eapply wp_mono; [by apply xom_write_safe|].
  intros r s' (Hi & Hl' & _ & Hp). split_and!; [done|congruence|done].
Qed.

(** Opening the file twice in one process is refused, and closing it
    undoes opening: after [xom_open] and [xom_release] the same processes are
    registered as before. *)
Theorem xom_open_release s :
  kinv s -> file_lock s = false -> (kmalloc 56 (k_world s)).1 = true ->
  (forall n w, current_pid (kmalloc n w).2 = current_pid w) ->
  current_pid (k_world s) ∉ pe_pid <$> xom_entries s ->
  wp xom_open
     (fun rc s1 => rc = 0 /\ kinv s1 /\
        (current_pid (k_world s1) = current_pid (k_world s) ->
         wp xom_open (fun rc2 _ => rc2 = - EEXIST) s1 /\
         wp xom_release (fun rc2 s2 => rc2 = 0 /\ kinv s2 /\ file_lock s2 = false /\
           pe_pid <$> xom_entries s2 = pe_pid <$> xom_entries s) s1)) s.
Proof.
  intros Hs Hl Hk Hpid Hnew. eapply wp_mono; [by apply xom_open_safe|].
  intros rc s1 (Hi & Hl1 & Hr). rewrite bool_decide_false in Hr by done. destruct Hr as [-> He].
  split_and!; [done..|]. intros Hp1. split.
  - unfold xom_open. apply wp_bind, mutex_lock_spec; [done|]. apply wp_bind.
    eapply wp_mono; [by apply get_process_entry_spec, locked_inv|]. cbn. intros [i|] s' [-> Hg].
    + by apply wp_bind, wp_modify, wp_ret.
    + rewrite Hp1, He in Hg. destruct Hg. cbn. by left.
  - eapply wp_mono; [by apply xom_release_safe|]. intros rc s2 (-> & Hi2 & Hl2 & Hps).
    split_and!; [done..|]. rewrite Hps, He, Hp1, fmap_cons. cbn [pe_pid]. rewrite filter_cons_False by (intros Hc; by apply Hc).
    by rewrite filter_not_elem.
Qed.

(** [xom_mmap] of a page-aligned range returns with the mutex free; with
    a non-negative status the process has a new mapping of exactly that range,
    with contiguous frames, no page locked and not at sub-page level.
    Otherwise nothing is lost, or an allocation failed and the entry of the
    process was freed while it is still in the list. *)
Theorem xom_mmap_outcome vm_start vm_end s :
  kinv s -> file_lock s = false -> 0 <= vm_start <= vm_end -> vm_end <= 2 ^ 56 ->
  wp (xom_mmap vm_start vm_end)
     (fun rc s' => file_lock s' = false /\
        ((kinv s' /\ (0 <= rc -> exists e m l, e ∈ xom_entries s' /\ pe_pid e = current_pid (k_world s) /\
             pe_mappings e = m :: l /\ fresh_mapping vm_start vm_end m)) \/
         (rc = - EINVAL /\ exists e, e ∈ xom_entries s' /\ pe_freed e = true))) s.
Proof.
  intros Hs Hl Hv He. unfold xom_mmap. apply wp_bind, wp_gets.
  destruct (xen_hvm_domain _); cbn [negb]; [|apply wp_ret; split; [done|left; split; [done|by intros ?]]].
  apply wp_bind, mutex_lock_spec; [done|]. apply wp_bind.
  eapply wp_mono; [by apply get_process_entry_spec, locked_inv|]. cbn. intros [i|] s' [-> Hg].
  2: { apply wp_bind, wp_ret, wp_bind, wp_modify, wp_ret. split; [done|left].
       split; [by apply (locked_inv s false)|by intros ?]. }
  destruct Hg as (e & Hi & Hp). apply wp_bind, wp_bind.
  eapply wp_mono; [eapply manage_mapping_safe; [by apply (locked_inv s true)|exact Hi]|].
  intros st s1 (Hp1 & e1 & Hi1 & He1). destruct (Z.ltb_spec st 0).
  { apply wp_ret, wp_bind, wp_modify, wp_ret. split; [done|left]. split; [by apply (locked_inv s1 false), Hp1|lia]. }
  apply wp_bind. eapply wp_mono; [apply get_new_mapping_spec; [apply Hp1|done|done]|].
  intros [m|] s2 (_ & _ & Hr).
  - destruct Hr as [Hent Hfresh]. assert (kinv s2) as Hs2 by (eapply kinv_entries; [apply Hp1|done]).
    apply wp_bind. eapply mappings_of_spec; [done|by rewrite Hent|]. apply wp_bind, wp_modify, wp_ret, wp_bind, wp_modify, wp_ret.
    split; [done|left]. split.
    + apply (locked_inv (set_entries _ s2) false). eapply kinv_set_mappings; [done|by rewrite Hent|].
      constructor; [apply Hfresh|]. eapply maps_wf; [apply Hp1|done].
    + intros _. eexists _, m, _. split_and!; [|..|exact Hfresh]; cbn;
        [eapply list_elem_of_lookup_2; by rewrite list_lookup_alter_eq, Hent, Hi1| |done]. cbn. congruence.
  - apply wp_ret, wp_bind, wp_modify, wp_ret. split; [done|]. destruct Hr as [Hent|Hfr].
    + left. split; [|by intros ?]. apply (locked_inv s2 false). eapply kinv_entries; [apply Hp1|done].
    + right. split; [done|]. eexists. split; [eapply list_elem_of_lookup_2; cbn; rewrite Hfr; by rewrite list_lookup_alter_eq, Hi1|done].
Qed.
End files.

(** ** A concrete guest kernel

    Physical and kernel addresses agree; pages come from [tw_next] upwards;
    the first [tw_budget] calls of [kmalloc] succeed; [copy_from_user] reads
    [tw_user]. *)
Record toy_kernel := ToyKernel {
  tw_dom : domain toy_p2m;
  tw_next : Z;
  tw_budget : nat;
  tw_user : list Z;
  tw_freed : list (Z * Z)
}.

Definition toy_kmalloc (n : Z) (w : toy_kernel) : bool * toy_kernel :=
  match tw_budget w with
  | O => (false, w)
  | S b => (true, ToyKernel (tw_dom w) (tw_next w) b (tw_user w) (tw_freed w))
  end.

Definition toy_get_free_pages (order : Z) (w : toy_kernel) : Z * toy_kernel :=
  let a := tw_next w in
  if (0 <? a) && (a + PAGE_SIZE * 2 ^ order <? 2 ^ 63)
  then (a, ToyKernel (tw_dom w) (a + PAGE_SIZE * 2 ^ order) (tw_budget w) (tw_user w) (tw_freed w))
  else (0, w).

(** Domain 1, with a domain 0 that is not paravirtualised; no address of the
    process is mapped. *)
#[local] Instance pvh_domains : Domains := {|
  domain_id := 1; foreign_is_pv := fun domid => if domid =? 0 then Some false else None; mmuext_pv := fun _ _ => (- EPERM, None)
|}.

Definition toy_env : copy_env := CopyEnv (fun pfec _ => (INVALID_GFN, pfec)) (fun _ => false).

Definition toy_guest (op : mmuext_op) (sc : Z) : guest toy_p2m :=
  Guest (fun _ _ => Some op) (fun _ => false) false (sc =? NULL) (fun _ => p2m_access_n).

Definition toy_mmuext_op (op : mmuext_op) (count sc dom : Z) (w : toy_kernel) : Z * toy_kernel :=
  match do_mmuext_op false true (toy_guest op sc) count dom (tw_dom w) with
  | Some ((rc, _), d) => (rc, ToyKernel d (tw_next w) (tw_budget w) (tw_user w) (tw_freed w))
  | None => (- EINVAL, w)
  end.

Lemma toy_call_runs op sc dom d dm : dom_inv d dm -> d_xom_page_lock d = false ->
  exists r d1, do_mmuext_op false true (toy_guest op sc) 1 dom d = Some (r, d1).
Proof.
  intros Hinv Hlk. destruct (handle_xom_seal_spec (toy_guest op sc) 1 d dm Hinv Hlk) as (r & d1 & Hrun & _).
  unfold do_mmuext_op, assert, bind, get_pg_owner, gets. cbn [toy_guest old_guest_table negb ret]. rewrite andb_false_r.
  change (Z.land 1 (Z.lnot MMU_UPDATE_PREEMPTED)) with 1. destruct (_ =? domain_id); [by eexists _, _|].
  destruct (_ =? XomGuest.DOMID_SELF); [destruct (negb (d_is_hvm d)); cbn; eauto|].
  destruct (foreign_is_pv _) as [[]|]; cbn; eauto.
Qed.

#[export] Instance toy_kernel_ops : Kernel toy_kernel := {|
  HYPERVISOR_mmuext_op := toy_mmuext_op;
  xen_hvm_domain := fun _ => true;
  current_pid := fun _ => 77;
  current_exiting := fun _ => false;
  vm_munmap := fun _ _ w => (0, w);
  remap_pfn_range := fun _ _ _ w => (0, w);
  find_vma := fun a w => Some (a, a + PAGE_SIZE);
  kmalloc := toy_kmalloc;
  get_order := fun size => Z.log2_up ((size + PAGE_SIZE - 1) / PAGE_SIZE);
  get_free_pages := toy_get_free_pages;
  free_pages := fun a o w => ToyKernel (tw_dom w) (tw_next w) (tw_budget w) (tw_user w) ((a, o) :: tw_freed w);
  set_page_reserved := fun _ _ w => w;
  virt_to_phys := fun a => a;
  copy_from_user := fun _ n w =>
    if decide (Z.to_nat n <= length (tw_user w))%nat then Some (take (Z.to_nat n) (map u8 (tw_user w))) else None;
  copy_to_user := fun _ _ w => (false, w);
  kernel_write := fun _ _ w => w
|}.

#[export] Program Instance toy_kernel_laws : KernelLaws toy_kernel.
Next Obligation.
  intros size Hs. cbn. unfold PAGE_SIZE. split; [apply Z.log2_up_nonneg|].
  assert (0 < (size + 4096 - 1) / 4096) as Hp by zdiv.
  pose proof (Z.log2_up_le_pow2 ((size + 4096 - 1) / 4096) (Z.log2_up ((size + 4096 - 1) / 4096)) Hp) as Hl.
  assert ((size + 4096 - 1) / 4096 <= 2 ^ Z.log2_up ((size + 4096 - 1) / 4096)) by (apply Hl; done).
  set (x := 2 ^ _) in *. clearbody x. zdiv.
Qed.
Next Obligation.
  intros order w a w' Hg Ha _. cbn in Hg. unfold toy_get_free_pages in Hg.
  destruct (Z.ltb_spec 0 (tw_next w)), (Z.ltb_spec (tw_next w + PAGE_SIZE * 2 ^ order) (2 ^ 63));
    cbn in Hg; simplify_eq. cbn. split_and!; [lia|lia|]. intros i Hi. unfold u64. rewrite Z.mod_small; [done|].
  unfold PAGE_SIZE in *. lia.
Qed.
Next Obligation.
  intros a n w l. cbn. case_decide as Hd; [|done]. intros [= <-].
  rewrite length_take, length_map. split; [lia|]. apply Forall_take, Forall_fmap, Forall_forall.
  intros b _. cbn. unfold u8. apply Z.mod_pos_bound. lia.
Qed.

#[local] Program Instance toy_xen_world : XenWorld toy_kernel toy_p2m := {| xw_dom := tw_dom; xw_env := fun _ => toy_env |}.
Next Obligation.
  intros op sc dom w rc w' dm Hinv Hlk Hc. cbn in Hc. unfold toy_mmuext_op in Hc.
  destruct (toy_call_runs op sc dom _ dm Hinv Hlk) as ([rc1 r1] & d1 & Hrun). rewrite Hrun in Hc. injection Hc as <- <-.
  exists (toy_guest op sc), r1, d1. split_and!; [done..|]. by destruct r1; [apply store_pdone_unmapped|].
Qed.
Next Obligation. intros n w. cbn. unfold toy_kmalloc. by destruct (tw_budget w). Qed.
Next Obligation. done. Qed.
Next Obligation. done. Qed.

(** A mapping of frames 1 and 2, at address [0x7000] in the process; the lock
    bits are [l]. *)
Definition toy_mapping (n l : Z) (sub : bool) : xom_mapping :=
  XomMapping n 0x7000 4096 1 (l :: repeat 0 (Z.to_nat (n / 8))) sub.

Lemma toy_mapping_wf n l sub : 1 <= n <= 1024 -> 0 <= l < 256 -> mapping_wf (toy_mapping n l sub).
Proof.
  intros Hn Hl. split; cbn [toy_mapping xm_num_pages xm_uaddr xm_kaddr xm_lock_status xm_pfn].
  - done.
  - split_and!; [lia|done|unfold PAGE_SIZE; lia].
  - lia.
  - cbn [length]. rewrite repeat_length, shiftr3. zdiv.
  - intros b [->|Hb%lookup_repeat0]%elem_of_cons; lia.
  - lia.
  - intros i Hi. unfold page_gfn. cbn. rewrite shiftr12. unfold u64, PAGE_SIZE. rewrite Z.mod_small; zdiv.
Qed.

Definition toy_world (d : domain toy_p2m) (budget : nat) (user : list Z) : toy_kernel :=
  ToyKernel d 0x10000 budget user [].
Definition toy_kstate (l : list xom_mapping) (w : toy_kernel) : kstate toy_kernel :=
  KState [XomProcessEntry 77 l false] false 0x2000 w.

Lemma toy_kinv l w : Forall mapping_wf l -> kinv (toy_kstate l w).
Proof.
  intros Hl. split; cbn.
  - by intros e ->%list_elem_of_singleton.
  - apply NoDup_singleton.
  - intros e m ->%list_elem_of_singleton Hm. by eapply Forall_forall in Hm.
Qed.

(** The bytes of a [modxom_cmd]. *)
Definition le_of (n : nat) (z : Z) : list Z := map (fun i => u8 (z / 256 ^ Z.of_nat i)) (seq 0 n).
Definition cmd_bytes (c n a : Z) : list Z := le_of 4 c ++ le_of 4 n ++ le_of 8 a.

(** ** Where the module goes wrong *)

(** [lock_pages] never locks a part of a mapping: whatever first page and
    number of pages are asked for, the module makes one hypercall for all
    pages of the mapping, and marks as locked as many pages starting at the
    first page asked for; it is undefined behaviour if these bits lie outside
    the array. *)
Theorem lock_locks_whole_mapping {W} `{Kernel W} m page_index num_pages w w1 :
  mapping_wf m -> 0 < num_pages -> 0 <= page_index -> page_index + num_pages <= xm_num_pages m ->
  kmalloc (u64 (8 * xm_num_pages m)) w = (true, w1) ->
  let op := MmuextOp MMUEXT_MARK_XOM (xm_pfn m) (xm_num_pages m) in
  let '(rc, w2) := HYPERVISOR_mmuext_op op 1 DOMID_SELF 0 w1 in
  if rc =? 0 then
    if decide (page_index + xm_num_pages m <= lock_bits m)
    then exists m', xom_invoke_xen m page_index num_pages MMUEXT_MARK_XOM w = Some ((0, m'), w2) /\
           forall j, 0 <= j -> lock_bit m' j =
             ((page_index <=? j) && (j <? page_index + xm_num_pages m)) || lock_bit m j
    else xom_invoke_xen m page_index num_pages MMUEXT_MARK_XOM w = None
  else xom_invoke_xen m page_index num_pages MMUEXT_MARK_XOM w = Some ((- EINVAL, m), w2).
Proof.
  intros Hm Hn Hi Hb Hk op. rewrite xom_invoke_xen_eq by done. unfold invoke_result. rewrite Hk. cbn [negb].
  fold op. destruct (HYPERVISOR_mmuext_op op 1 DOMID_SELF 0 w1) as [rc w2].
  destruct (rc =? 0); [|done]. destruct (mw_pages _ Hm).
  pose proof (set_lock_range_spec (Z.to_nat (xm_num_pages m)) page_index m Hi ltac:(lia)) as Hr.
  rewrite Z2Nat.id in Hr by lia.
  destruct (decide (page_index + xm_num_pages m <= lock_bits m)) as [Hd|Hd].
  - rewrite decide_True in Hr by (by right). destruct Hr as (m' & -> & _ & _ & _ & Hbit). exists m'. by split.
  - rewrite decide_False in Hr by lia. by rewrite Hr.
Qed.

(** The command of a sub-page write is copied to a one-page buffer with
    the length the process passed: a command that announces one sub-page but
    is longer than a page makes the module write past the buffer. *)
Theorem subpage_write_overflow :
  let user := cmd_bytes MODXOM_CMD_WRITE_SUBPAGES 1 0x7000 ++ 1 :: repeat 0 5000 in
  xom_write 0 5000 (toy_kstate [toy_mapping 2 0 true] (toy_world (toy_domain 7 [] []) 10 user)) = None.
Proof. vm_compute. reflexivity. Qed.

(** When an allocation fails in [xom_mmap], the entry of the process is
    freed but stays in the list: the next operation of the process reads freed
    memory. *)
Theorem mmap_failure_use_after_free :
  exists s', xom_mmap 0x7000 0x9000 (toy_kstate [] (toy_world (toy_domain 7 [] []) 1 [])) = Some (- EINVAL, s') /\
    xom_release s' = None.
Proof. eexists. split; [vm_compute; reflexivity|]. vm_compute. reflexivity. Qed.

(** A new mapping directly below an existing one is treated as
    overlapping it: [xom_mmap] returns 1, a failure for the kernel, although
    the mapping was made and registered. *)
Theorem mmap_below_existing :
  exists s', xom_mmap 0x5000 0x7000 (toy_kstate [toy_mapping 2 0 false] (toy_world (toy_domain 7 [] []) 10 [])) =
    Some (1, s') /\ xm_uaddr <$> (xom_entries s' ≫= pe_mappings) = [0x5000; 0x7000].
Proof. eexists. split; [vm_compute; reflexivity|]. vm_compute. reflexivity. Qed.

Lemma hex_digits_length n z : (length (hex_digits n z) <= n)%nat.
Proof.
  revert z; induction n as [|n IH]; intros z; cbn [hex_digits]; [done|].
  rewrite length_app. specialize (IH (z / 16)). destruct (z <? 16); cbn; lia.
Qed.

Lemma fmt_line_length a b : length (fmt_line a b) = 35%nat.
Proof.
  unfold fmt_line, fmt_16lx. rewrite !length_app, !repeat_length. cbn [length].
  pose proof (hex_digits_length 16 a). pose proof (hex_digits_length 16 b). lia.
Qed.

Lemma buf_write_spec i l buf :
  (i + length l <= length buf)%nat ->
  length (buf_write i l buf) = length buf /\
  forall k, (i + length l <= k)%nat -> buf_write i l buf !! k = buf !! k.
Proof.
  intros Hl. unfold buf_write. split.
  - rewrite !length_app, length_take, length_map, length_drop. lia.
  - intros k Hk. rewrite lookup_app_r by (rewrite length_take; lia).
    rewrite lookup_app_r by (rewrite length_take, length_map; lia).
    rewrite length_take, length_map, lookup_drop. f_equal. lia.
Qed.

Lemma lookup_repeat {A} (x : A) n k : (k < n)%nat -> repeat x n !! k = Some x.
Proof. revert k; induction n as [|n IH]; intros [|k] Hk; cbn; [lia|lia|done|]. apply IH. lia. Qed.

Section reading.
Context {W : Type} `{Kernel W}.

Lemma read_loop_spec (w : W) l N i buf :
  length buf = N -> (i + 35 * length l < N)%nat ->
  let out := read_loop w l (Z.of_nat N) (Z.of_nat i) buf in
  length out = N /\ forall k, (i + 35 * length l < k)%nat -> out !! k = buf !! k.
Proof.
  revert i buf; induction l as [|m l IH]; intros i buf Hb Hi; cbn [read_loop length] in *; [done|].
  destruct (Z.ltb_spec (Z.of_nat i) (Z.of_nat N)); [|lia].
  destruct (find_vma _ w) as [[vs ve]|].
  2: { destruct (IH i buf) as [H1 H2]; [done|lia|]. split; [done|]. intros k Hk. apply H2. lia. }
  set (line := fmt_line _ _). assert (length line = 35%nat) as Hll by apply fmt_line_length.
  set (str := take (Z.to_nat (Z.of_nat N - Z.of_nat i - 1)) line ++ [0]).
  assert (length str = 36%nat) as Hls by (unfold str; rewrite length_app, length_take, Hll; cbn; lia).
  unfold buf_snprintf. fold str. rewrite Nat2Z.id.
  destruct (buf_write_spec i str buf) as [Hw1 Hw2]; [lia|].
  replace (Z.of_nat i + Z.of_nat (length line)) with (Z.of_nat (i + 35)) by lia.
  destruct (IH (i + 35)%nat (buf_write i str buf)) as [H1 H2]; [lia|lia|].
  split; [done|]. intros k Hk. rewrite H2 by lia. apply Hw2. lia.
Qed.

(** Reading the file hands memory to the process that the module never
    wrote: of the string for [n] mappings, all of which [xom_read] copies out,
    at least the last [6 n] bytes are uninitialised. *)
Theorem read_leaks_uninitialised (w : W) l k :
  let out := read_string w l in
  Z.of_nat (length out) = sizeof_header + MAPPING_LINE_SIZE * Z.of_nat (length l) /\
  ((length out - 6 * length l <= k < length out)%nat -> out !! k = Some None).
Proof.
  intros out. unfold out, read_string.
  set (N := (36 + 41 * length l)%nat).
  assert (sizeof_header + MAPPING_LINE_SIZE * Z.of_nat (length l) = Z.of_nat N) as ->.
  { unfold N. change sizeof_header with 36. change MAPPING_LINE_SIZE with 41. lia. }
  change (sizeof_header - 1) with (Z.of_nat 35). rewrite Nat2Z.id.
  assert (length (READ_HEADER_STRING ++ [0]) = 36%nat) as Hh by done.
  destruct (buf_write_spec 0 (READ_HEADER_STRING ++ [0]) (repeat None N)) as [Hw1 Hw2].
  { rewrite Hh, repeat_length. unfold N. lia. }
  rewrite repeat_length in Hw1.
  destruct (read_loop_spec w l N 35 _ Hw1) as [H1 H2]; [unfold N; lia|]. rewrite H1.
  split; [done|]. intros Hk. rewrite H2 by (unfold N in Hk; lia). rewrite Hw2 by (rewrite Hh; unfold N in *; lia).
  apply lookup_repeat. lia.
Qed.
End reading.

(** ** Examples *)

Lemma release_mapping_wipes_ex :
  let w := toy_world (toy_domain 4 [1; 2; 3] []) 10 [] in
  let m := toy_mapping 2 3 false in
  wp (release_mapping m)
     (fun r w' => r.1 = 0 ->
        exists w1, w' = free_pages (xm_kaddr m) (get_order (xm_num_pages m * PAGE_SIZE)) w1 /\
          forall i, 0 <= i < xm_num_pages m -> sealed (xw_dom w) (page_gfn m i) ->
            wiped (xw_dom w1) (page_gfn m i)) w.
Proof.
  apply (release_mapping_wipes (toy_mapping 2 3 false) _ no_infos);
    [apply toy_mapping_wf; lia|done|apply toy_inv; repeat constructor; lia|done..].
Defined.

Lemma xom_write_preserves_ex :
  let s := toy_kstate [toy_mapping 2 0 false]
             (toy_world (toy_domain 7 [] []) 10 (cmd_bytes MODXOM_CMD_LOCK 2 0x7000)) in
  wp (xom_write 0 16)
     (fun _ s' => kinv s' /\ file_lock s' = false /\ pe_pid <$> xom_entries s' = pe_pid <$> xom_entries s) s.
Proof.
  apply xom_write_preserves; [apply toy_kinv; constructor; [apply toy_mapping_wf; lia|done]|done|].
  split_and!; [done|done|]. intros l e m Hc _ ->%list_elem_of_singleton ->%list_elem_of_singleton _.
  injection Hc as <-. by vm_compute.
Defined.

Lemma xom_open_release_ex :
  let s := KState [] false 0x2000 (toy_world (toy_domain 7 [] []) 10 []) in
  wp xom_open
     (fun rc s1 => rc = 0 /\ kinv s1 /\
        (current_pid (k_world s1) = current_pid (k_world s) ->
         wp xom_open (fun rc2 _ => rc2 = - EEXIST) s1 /\
         wp xom_release (fun rc2 s2 => rc2 = 0 /\ kinv s2 /\ file_lock s2 = false /\
           pe_pid <$> xom_entries s2 = pe_pid <$> xom_entries s) s1)) s.
Proof.
  apply xom_open_release; [|done|done|done|apply not_elem_of_nil].
  split; [by intros e ?%not_elem_of_nil|constructor|by intros e m ?%not_elem_of_nil].
Defined.

Lemma xom_mmap_outcome_ex :
  let s := toy_kstate [] (toy_world (toy_domain 7 [] []) 10 []) in
  wp (xom_mmap 0x7000 0x9000)
     (fun rc s' => file_lock s' = false /\
        ((kinv s' /\ (0 <= rc -> exists e m l, e ∈ xom_entries s' /\ pe_pid e = current_pid (k_world s) /\
             pe_mappings e = m :: l /\ fresh_mapping 0x7000 0x9000 m)) \/
         (rc = - EINVAL /\ exists e, e ∈ xom_entries s' /\ pe_freed e = true))) s.
Proof. apply xom_mmap_outcome; [apply toy_kinv; constructor|done|lia|lia]. Defined.

Lemma lock_locks_whole_mapping_ex :
  xom_invoke_xen (toy_mapping 7 0 false) 5 1 MMUEXT_MARK_XOM (toy_world (toy_domain 7 [] []) 10 []) = None.
Proof.
  exact (lock_locks_whole_mapping (toy_mapping 7 0 false) 5 1 (toy_world (toy_domain 7 [] []) 10 []) _
           ltac:(apply toy_mapping_wf; lia) ltac:(lia) ltac:(lia) ltac:(cbn; lia) eq_refl).
Defined.

Lemma read_leaks_uninitialised_ex :
  read_string (toy_world (toy_domain 7 [] []) 10 []) [toy_mapping 2 0 false] !! 72%nat = Some None.
Proof.
  apply (read_leaks_uninitialised (toy_world (toy_domain 7 [] []) 10 []) [toy_mapping 2 0 false] 72).
  vm_compute. lia.
Defined.
