(* ===== verification/LibXom.v ===== *)
(** * The user-space library

    [libxom.c]: execute-only buffers and sub-pages for a process, on top of
    the file of the kernel module or of memory protection keys.  The C library
    and the system calls are a parameter. *)

From S2P Require Import Prelude RbTree RbSpec RbHeap PageInfo XomDomain ModXom.

(** ** The C library and the kernel

    [W] is the state outside the library: memory, files, protection keys. *)
Class Libc (W : Type) := {
  sys_mmap : Z -> Z -> Z -> Z -> Z -> W -> Z * W;          (* addr, len, prot, flags, fd *)
  sys_munmap : Z -> Z -> W -> Z * W;
  sys_mprotect : Z -> Z -> Z -> W -> Z * W;
  sys_write : Z -> list Z -> W -> Z * W;                   (* fd, bytes *)
  sys_open_xom : W -> Z * W;
  sys_close : Z -> W -> W;
  sys_exit : Z -> W -> W;
  getpid : W -> Z;
  malloc : Z -> W -> bool * W;
  mem_read : Z -> Z -> W -> list Z;                        (* addr, len *)
  mem_write : Z -> list Z -> W -> W;
  pku_supported : W -> bool;
  pkey_alloc : W -> Z * W;
  pkey_mprotect : Z -> Z -> Z -> Z -> W -> Z * W;          (* addr, len, prot, pkey *)
  rdpkru : W -> Z;
  wrpkru : Z -> W -> W;
  rdrand32 : W -> Z * W;
  environ : W -> list (list Z);                            (* the strings, as bytes *)
  vdso_base : W -> Z;
  (* the lines of /proc/self/maps that parse: start, end, third permission is 'x' *)
  proc_maps : W -> option (list (Z * Z * bool))
}.

Definition s64 (z : Z) : Z := (z + 2 ^ 63) mod 2 ^ 64 - 2 ^ 63.

Definition PROT_NONE : Z := 0.
Definition PROT_READ : Z := 1.
Definition PROT_WRITE : Z := 2.
Definition PROT_EXEC : Z := 4.
Definition MAP_PRIVATE : Z := 2.
Definition MAP_ANONYMOUS : Z := 32.
Definition MAP_FAILED : Z := 2 ^ 64 - 1.

Definition XOM_MODE_UNSUPPORTED : Z := 0.
Definition XOM_MODE_PKU : Z := 1.
Definition XOM_MODE_SLAT : Z := 2.
Definition XOM_BASE_ADDRESS : Z := 0x420000000000.
Definition ALLOC_CHUNK_SIZE : Z := Z.shiftl (Z.shiftl 1 (MAX_ORDER - 1)) PAGE_SHIFT.

(** [SIZE_CEIL(S)] on 64 bits *)
Definition SIZE_CEIL (s : Z) : Z :=
  u64 (Z.shiftl (Z.shiftr s PAGE_SHIFT + (if Z.land s (PAGE_SIZE - 1) =? 0 then 0 else 1)) PAGE_SHIFT).

(** ** Data *)

Record xombuf := Xombuf {
  xb_address : Z;
  xb_allocated_size : Z;
  xb_pid : Z;
  xb_locked : bool;
  xb_marked : bool;
  xb_mode : Z
}.

Record xom_subpages := XomSub {
  sp_address : Z;
  sp_mode : Z;
  sp_lock_status : list Z;
  sp_num_subpages : Z;
  sp_references : Z
}.

Definition TEXT_TYPE_EXECUTABLE : Z := 1.
Definition TEXT_TYPE_SHARED : Z := 2.
Definition TEXT_TYPE_VDSO : Z := 4.

Record text_region := TextRegion {
  text_base : Z;
  text_end : Z;
  tr_type : Z;
  jump_into_backup : bool
}.

Record lstate (W : Type) := LState {
  xomfd : Z;
  subpage_pkey : Z;
  xom_mode : Z;
  xom_base_addr : Z;
  migrate_dlopen : bool;
  libxom_pid : Z;
  initialized : bool;
  lib_lock : bool;
  errno : Z;
  l_world : W
}.
Arguments LState {W}.
Arguments xomfd {W}.
Arguments subpage_pkey {W}.
Arguments xom_mode {W}.
Arguments xom_base_addr {W}.
Arguments migrate_dlopen {W}.
Arguments libxom_pid {W}.
Arguments initialized {W}.
Arguments lib_lock {W}.
Arguments errno {W}.
Arguments l_world {W}.

(** The bytes of a [modxom_cmd] as the process lays them out. *)
Definition encode_cmd (c : modxom_cmd) : list Z :=
  le_encode 4 (mc_cmd c) ++ le_encode 4 (mc_num_pages c) ++ le_encode 8 (mc_base_addr c).

Section libxom.
Context {W : Type} `{Libc W}.
Implicit Types s : lstate W.

(** ** State access *)

Definition set_world (w : W) s : lstate W :=
  LState (xomfd s) (subpage_pkey s) (xom_mode s) (xom_base_addr s) (migrate_dlopen s) (libxom_pid s)
    (initialized s) (lib_lock s) (errno s) w.
Definition set_fd_pid (fd pid : Z) s : lstate W :=
  LState fd (subpage_pkey s) (xom_mode s) (xom_base_addr s) (migrate_dlopen s) pid
    (initialized s) (lib_lock s) (errno s) (l_world s).
Definition set_pkey (k : Z) s : lstate W :=
  LState (xomfd s) k (xom_mode s) (xom_base_addr s) (migrate_dlopen s) (libxom_pid s)
    (initialized s) (lib_lock s) (errno s) (l_world s).
Definition set_mode (m : Z) s : lstate W :=
  LState (xomfd s) (subpage_pkey s) m (xom_base_addr s) (migrate_dlopen s) (libxom_pid s)
    (initialized s) (lib_lock s) (errno s) (l_world s).
Definition set_base (a : Z) s : lstate W :=
  LState (xomfd s) (subpage_pkey s) (xom_mode s) a (migrate_dlopen s) (libxom_pid s)
    (initialized s) (lib_lock s) (errno s) (l_world s).
Definition set_dlopen s : lstate W :=
  LState (xomfd s) (subpage_pkey s) (xom_mode s) (xom_base_addr s) true (libxom_pid s)
    (initialized s) (lib_lock s) (errno s) (l_world s).
Definition set_lib_lock (b : bool) s : lstate W :=
  LState (xomfd s) (subpage_pkey s) (xom_mode s) (xom_base_addr s) (migrate_dlopen s) (libxom_pid s)
    (initialized s) b (errno s) (l_world s).
Definition set_errno (e : Z) s : lstate W :=
  LState (xomfd s) (subpage_pkey s) (xom_mode s) (xom_base_addr s) (migrate_dlopen s) (libxom_pid s)
    (initialized s) (lib_lock s) e (l_world s).
Definition set_initialized s : lstate W :=
  LState (xomfd s) (subpage_pkey s) (xom_mode s) (xom_base_addr s) (migrate_dlopen s) (libxom_pid s)
    true (lib_lock s) (errno s) (l_world s).

Definition lcall {A} (f : W -> A * W) : M (lstate W) A :=
  fun s => let '(a, w) := f (l_world s) in Some (a, set_world w s).
Definition ldo (f : W -> W) : M (lstate W) unit := modify (fun s => set_world (f (l_world s)) s).

(** [errno = e; return r;] *)
Definition fail_with {A} (e : Z) (r : A) : M (lstate W) A := do! modify (set_errno e) in ret r.

(** [write(fd, buf, n)]: a negative answer of the kernel becomes [-1] and
    [errno]. *)
Definition fd_write (fd : Z) (bytes : list Z) : M (lstate W) Z :=
  let! r := lcall (sys_write fd bytes) in
  if r <? 0 then do! modify (set_errno (- r)) in ret (-1) else ret r.

(** ** Entering and leaving the library *)

(** [pthread_mutex_lock(&lib_lock)]: a default mutex the thread already holds
    is never acquired. *)
Definition lib_mutex_lock : M (lstate W) unit :=
  fun s => if lib_lock s then None else Some (tt, set_lib_lock true s).
Definition lib_mutex_unlock : M (lstate W) unit := modify (set_lib_lock false).

Definition libxom_prologue : M (lstate W) unit :=
  do! lib_mutex_lock in
  let! s := get in
  let pid := getpid (l_world s) in
  if (0 <=? xomfd s) && negb (libxom_pid s =? pid) then
    do! ldo (sys_close (xomfd s)) in
    let! fd := lcall sys_open_xom in
    modify (set_fd_pid fd pid)
  else ret tt.

Definition libxom_epilogue : M (lstate W) unit := lib_mutex_unlock.

(** [wrap_call(T, F)] *)
Definition wrap_call {A} (f : M (lstate W) A) : M (lstate W) A :=
  do! libxom_prologue in
  let! r := f in
  do! libxom_epilogue in
  ret r.

(** ** Buffers *)

Definition chunk (size_left : Z) : Z := SIZE_CEIL (Z.min ALLOC_CHUNK_SIZE size_left).
Definition chunk_fuel (size : Z) : nat := S (Z.to_nat (size / ALLOC_CHUNK_SIZE) + 1).

(** The [mmap] loop of [xomalloc_page_internal]: [inl] is [goto fail] with the
    address of the buffer and the last chunk, [inr] the address. *)
Fixpoint alloc_loop (fuel : nat) (current_address address last_address size_left : Z)
    : M (lstate W) (Z * Z + Z) :=
  match fuel with
  | O => ub
  | S fuel =>
      if size_left <=? 0 then ret (inr address)
      else
        let! fd := gets xomfd in
        let flags := Z.lor MAP_PRIVATE (if fd <? 0 then MAP_ANONYMOUS else 0) in
        let! current_address := lcall (sys_mmap current_address (chunk size_left)
                                         (Z.lor PROT_READ PROT_WRITE) flags fd) in
        if current_address =? 0 then ret (inl (address, last_address))
        else
          let address := if address =? 0 then current_address else address in
          let last_address := current_address in
          let current_address := u64 (current_address + ALLOC_CHUNK_SIZE) in
          do! modify (set_base current_address) in
          alloc_loop fuel current_address address last_address (size_left - ALLOC_CHUNK_SIZE)
  end.

Fixpoint unmap_loop (fuel : nat) (address last_address size_left : Z) : M (lstate W) unit :=
  match fuel with
  | O => ub
  | S fuel =>
      if negb (address =? 0) && (address <=? last_address) then
        do! lcall (sys_munmap address (chunk size_left)) in
        unmap_loop fuel (u64 (address + ALLOC_CHUNK_SIZE)) last_address (size_left - ALLOC_CHUNK_SIZE)
      else ret tt
  end.

Definition xomalloc_page_internal (size : Z) : M (lstate W) (option xombuf) :=
  let! s := get in
  if (size =? 0) || (xom_mode s =? XOM_MODE_UNSUPPORTED) then fail_with EINVAL None
  else
    let! ok := lcall (malloc 32) in
    if negb ok then fail_with ENOMEM None
    else
      let! r := alloc_loop (chunk_fuel size) (xom_base_addr s) 0 0 (s64 size) in
      match r with
      | inr address =>
          let! pid := gets (fun s => getpid (l_world s)) in
          ret (Some (Xombuf address size pid false false (u8 (xom_mode s))))
      | inl (address, last_address) =>
          do! unmap_loop (chunk_fuel size + Z.to_nat (last_address / ALLOC_CHUNK_SIZE)) address last_address (s64 size) in
          ret None
      end.

(** [src] is the source buffer, [None] a null pointer; reading past its end is
    undefined. *)
Definition xom_write_internal (dest : option xombuf) (src : option (list Z)) (size offset : Z)
    : M (lstate W) Z :=
  match dest, src with
  | Some dest, Some src =>
      if size =? 0 then fail_with EINVAL (-1)
      else if xb_locked dest || (xb_allocated_size dest <? u64 (offset + size)) then fail_with EINVAL (-1)
      else if Z.of_nat (length src) <? size then ub
      else
        do! ldo (mem_write (u64 (xb_address dest + offset)) (take (Z.to_nat size) src)) in
        ret (s32 size)
  | _, _ => fail_with EINVAL (-1)
  end.

Definition set_locked (b : xombuf) : xombuf :=
  Xombuf (xb_address b) (xb_allocated_size b) (xb_pid b) true (xb_marked b) (xb_mode b).
Definition set_marked (b : xombuf) : xombuf :=
  Xombuf (xb_address b) (xb_allocated_size b) (xb_pid b) (xb_locked b) true (xb_mode b).

(** [c * ALLOC_CHUNK_SIZE] in [int] arithmetic, added to an address. *)
Definition chunk_addr (address c : Z) : Z := u64 (address + s32 (c * ALLOC_CHUNK_SIZE)).

Definition chunk_cmd (cmd address c size_left : Z) : modxom_cmd :=
  ModxomCmd cmd (Z.shiftr (u32 (chunk size_left)) PAGE_SHIFT) (chunk_addr address c).

Fixpoint lock_loop (fuel : nat) (address c size_left : Z) : M (lstate W) bool :=
  match fuel with
  | O => ub
  | S fuel =>
      if size_left <=? 0 then ret true
      else
        let! fd := gets xomfd in
        let! status := fd_write fd (encode_cmd (chunk_cmd MODXOM_CMD_LOCK address c size_left)) in
        if s32 status <? 0 then ret false
        else lock_loop fuel address (c + 1) (size_left - ALLOC_CHUNK_SIZE)
  end.

(** Returns the address (0 for [NULL]) and the buffer as it is afterwards. *)
Definition xom_lock_internal (buf : option xombuf) : M (lstate W) (Z * option xombuf) :=
  match buf with
  | None => fail_with EINVAL (0, None)
  | Some buf =>
      if xb_locked buf then ret (xb_address buf, Some buf)
      else if xb_mode buf =? XOM_MODE_PKU then
        let! r := lcall (sys_mprotect (xb_address buf) (SIZE_CEIL (xb_allocated_size buf)) PROT_EXEC) in
        if r <? 0 then ret (0, Some buf) else ret (xb_address buf, Some (set_locked buf))
      else
        let! pid := gets libxom_pid in
        if negb (xb_pid buf =? pid) then ret (0, Some buf)
        else
          let! ok := lock_loop (chunk_fuel (xb_allocated_size buf)) (xb_address buf) 0 (s64 (xb_allocated_size buf)) in
          if negb ok then ret (0, Some buf) else ret (xb_address buf, Some (set_locked buf))
  end.

Fixpoint free_loop (fuel : nat) (address c size_left : Z) : M (lstate W) unit :=
  match fuel with
  | O => ub
  | S fuel =>
      if size_left <=? 0 then ret tt
      else
        let! fd := gets xomfd in
        do! fd_write fd ((encode_cmd (ModxomCmd MODXOM_CMD_FREE (u32 (Z.shiftr (chunk size_left) PAGE_SHIFT))
                                               (u64 (address + u32 (c * ALLOC_CHUNK_SIZE)))))) in
        do! lcall (sys_munmap address (chunk size_left)) in
        free_loop fuel address (c + 1) (size_left - ALLOC_CHUNK_SIZE)
  end.

Definition xom_free_internal (buf : option xombuf) : M (lstate W) unit :=
  match buf with
  | None => ret tt
  | Some buf =>
      if xb_mode buf =? XOM_MODE_PKU
      then do! lcall (sys_munmap (xb_address buf) (SIZE_CEIL (xb_allocated_size buf))) in ret tt
      else free_loop (chunk_fuel (xb_allocated_size buf)) (xb_address buf) 0 (s64 (xb_allocated_size buf))
  end.

(** ** Sub-pages *)

(** [size / SUBPAGE_SIZE + (size % SUBPAGE_SIZE ? 1 : 0)] *)
Definition subpages_for (size : Z) : Z :=
  size / SUBPAGE_SIZE + (if size mod SUBPAGE_SIZE =? 0 then 0 else 1).

(** The pointer [xom_alloc_subpages] returns: null, a structure that was
    already freed, or a new one. *)
Inductive alloc_result := AllocNull | AllocDangling | AllocOk (sp : xom_subpages).

Definition xom_alloc_subpages_internal (size : Z) : M (lstate W) alloc_result :=
  if ALLOC_CHUNK_SIZE <? size then ret AllocNull
  else
    let! xb := xomalloc_page_internal size in
    match xb with
    | None => ret AllocNull
    | Some xb =>
        let! ok := lcall (malloc 40) in
        if negb ok then fail_with ENOMEM AllocNull
        else
          let! mode := gets xom_mode in
          let pages := Z.shiftr (SIZE_CEIL size) PAGE_SHIFT in
          let! locks := lcall (malloc (4 * pages)) in
          do! (if negb locks then modify (set_errno ENOMEM) else ret tt) in
          let r := XomSub (xb_address xb) (u8 mode) (repeat 0 (Z.to_nat pages)) (subpages_for size) 0 in
          if mode =? XOM_MODE_SLAT then
            let cmd := ModxomCmd MODXOM_CMD_INIT_SUBPAGES
                         (u32 (Z.shiftr (SIZE_CEIL (xb_allocated_size xb)) PAGE_SHIFT)) (xb_address xb) in
            let! fd := gets xomfd in
            let! status := fd_write fd (encode_cmd cmd) in
            if negb locks then ret AllocNull
            else if s32 status <? 0 then ret AllocDangling
            else ret (AllocOk r)
          else if mode =? XOM_MODE_PKU then
            if negb locks then ub                (* ret->address of NULL *)
            else
              let! key := gets subpage_pkey in
              do! (if key <? 0 then let! k := lcall pkey_alloc in modify (set_pkey k) else ret tt) in
              let! key := gets subpage_pkey in
              do! lcall (pkey_mprotect (sp_address r) (xb_allocated_size xb)
                           (Z.lor (Z.lor PROT_READ PROT_WRITE) PROT_EXEC) key) in
              ret (AllocOk r)
          else ret (if negb locks then AllocNull else AllocOk r)
    end.

(** The bytes of one [xom_subpage_write_info]. *)
Definition encode_info (i : xom_subpage_write_info) : list Z := target_subpage i :: data i.

(** What [write_into_subpages] passes to [write]: the command for the module
    and the packed command for the hypervisor. *)
Definition encode_write (base_addr : Z) (l : list xom_subpage_write_info) : list Z :=
  encode_cmd (ModxomCmd MODXOM_CMD_WRITE_SUBPAGES 1 base_addr) ++
  u8 (Z.of_nat (length l)) :: concat (map encode_info l).

(** The loop that fills [write_info]; [src] must have that many sub-pages. *)
Definition write_infos (n : nat) (base_subpage : Z) (src : list Z) : list xom_subpage_write_info :=
  map (fun i => WriteInfo (u8 (Z.of_nat i + base_subpage))
                  (take (Z.to_nat SUBPAGE_SIZE) (drop (i * Z.to_nat SUBPAGE_SIZE) src))) (seq 0 n).

(** Returns the address (0 for [NULL]) and the object as it is afterwards. *)
Definition write_into_subpages (dest : xom_subpages) (subpages_required : Z) (src : list Z)
    (base_page base_subpage mask : Z) : M (lstate W) (Z * xom_subpages) :=
  if Z.of_nat (length src) <? subpages_required * SUBPAGE_SIZE then ub
  else
    let page_addr := u64 (sp_address dest + base_page * PAGE_SIZE) in
    let! ok :=
      (if sp_mode dest =? XOM_MODE_SLAT then
         let! m := lcall (malloc 4016) in
         if negb m then ub                       (* write_cmd->mxom_cmd of NULL *)
         else
           let! fd := gets xomfd in
           let! status := fd_write fd ((encode_write page_addr
                                   (write_infos (Z.to_nat subpages_required) base_subpage src))) in
           ret (negb (s32 status <? 0))
       else if sp_mode dest =? XOM_MODE_PKU then
         let! key := gets subpage_pkey in
         let! pkru := gets (fun s => rdpkru (l_world s)) in
         do! ldo (wrpkru (u32 (Z.land pkru (Z.lnot (Z.shiftl 3 (Z.shiftl key 1)))))) in
         do! ldo (mem_write (u64 (page_addr + base_subpage * SUBPAGE_SIZE))
                    (take (Z.to_nat (subpages_required * SUBPAGE_SIZE)) src)) in
         do! ldo (wrpkru pkru) in
         ret true
       else ret false) in
    if negb ok then ret (0, dest)
    else
      match sp_lock_status dest !! Z.to_nat base_page with
      | None => ub
      | Some w =>
          let locks := <[Z.to_nat base_page := Z.lor w (u32 (Z.shiftl mask base_subpage))]> (sp_lock_status dest) in
          ret (u64 (page_addr + base_subpage * SUBPAGE_SIZE),
               XomSub (sp_address dest) (sp_mode dest) locks (sp_num_subpages dest) (s8 (sp_references dest + 1)))
      end.

(** The search for a free range: the first page and first sub-page of it with
    room for [mask]; [None] in the inner option is the end of the loops. *)
Fixpoint find_in_page (n : nat) (base_subpage mask w : Z) : option Z :=
  match n with
  | O => None
  | S n => if Z.land (u32 (Z.shiftl mask base_subpage)) w =? 0 then Some base_subpage
           else find_in_page n (base_subpage + 1) mask w
  end.

Fixpoint find_free (n : nat) (base_page : nat) (tries : nat) (mask : Z) (locks : list Z)
    : option (option (Z * Z)) :=
  match n with
  | O => Some None
  | S n =>
      match locks !! base_page with
      | None => None
      | Some w =>
          match find_in_page tries 0 mask w with
          | Some sp => Some (Some (Z.of_nat base_page, sp))
          | None => find_free n (S base_page) tries mask locks
          end
      end
  end.

Definition xom_fill_and_lock_subpages_internal (dest : xom_subpages) (size : Z) (src : list Z)
    : M (lstate W) (Z * xom_subpages) :=
  let required := subpages_for size in
  if (size =? 0) || (sp_num_subpages dest <? required) || (MAX_SUBPAGES_PER_CMD <? required)
  then fail_with EINVAL (0, dest)
  else
    let mask := u32 (Z.shiftl 1 required - 1) in
    let pages := u64 (sp_num_subpages dest * SUBPAGE_SIZE) / PAGE_SIZE in
    let tries := Z.to_nat (PAGE_SIZE / SUBPAGE_SIZE - required + 1) in
    match find_free (Z.to_nat pages) 0 tries mask (sp_lock_status dest) with
    | None => ub
    | Some None => fail_with (- ENOMEM) (0, dest)
    | Some (Some (base_page, base_subpage)) =>
        write_into_subpages dest required src base_page base_subpage mask
    end.

Definition xom_free_all_subpages_internal (sp : xom_subpages) : M (lstate W) unit :=
  let! ok := lcall (malloc 32) in
  if negb ok then ret tt
  else xom_free_internal (Some (Xombuf (sp_address sp) (u64 (sp_num_subpages sp * SUBPAGE_SIZE)) 0 true false (sp_mode sp))).

(** [None] in the second component: the object was freed. *)
Definition xom_free_subpages_internal (sp : xom_subpages) (base_address : Z)
    : M (lstate W) (Z * option xom_subpages) :=
  if base_address <? sp_address sp then ret (-1, Some sp)
  else if u64 (sp_address sp + u64 (sp_num_subpages sp * SUBPAGE_SIZE)) <=? base_address then ret (-1, Some sp)
  else
    let sp := XomSub (sp_address sp) (sp_mode sp) (sp_lock_status sp) (sp_num_subpages sp) (s8 (sp_references sp - 1)) in
    if sp_references sp <=? 0 then do! xom_free_all_subpages_internal sp in ret (1, None)
    else ret (0, Some sp).

(** ** Modes and register clearing *)

Definition get_xom_mode_internal : M (lstate W) Z := gets xom_mode.

Definition set_xom_mode_internal (new_xom_mode : Z) : M (lstate W) Z :=
  let! s := get in
  if new_xom_mode =? xom_mode s then ret 0
  else if new_xom_mode =? XOM_MODE_SLAT then
    if xomfd s <=? 0 then ret (-1) else do! modify (set_mode XOM_MODE_SLAT) in ret 0
  else if new_xom_mode =? XOM_MODE_PKU then
    if negb (pku_supported (l_world s)) then ret (-1) else do! modify (set_mode XOM_MODE_PKU) in ret 0
  else ret (-1).

Definition mark_register_clear_internal (buf : xombuf) (full_clear : Z) (page_number : Z)
    : M (lstate W) (Z * xombuf) :=
  let cmd := ModxomCmd MODXOM_CMD_MARK_REG_CLEAR
               (if full_clear =? 0 then REG_CLEAR_TYPE_VECTOR else REG_CLEAR_TYPE_FULL)
               (u64 (xb_address buf + page_number * PAGE_SIZE)) in
  let! s := get in
  if negb (xb_pid buf =? libxom_pid s) then ret (- EINVAL, buf)
  else if negb (xom_mode s =? XOM_MODE_SLAT) || negb (xb_locked buf) || xb_marked buf then ret (- EINVAL, buf)
  else
    let! r := fd_write (xomfd s) (encode_cmd cmd) in
    if r <? 0 then let! e := gets errno in ret (- e, buf) else ret (0, set_marked buf).

(** ** The exported functions *)

Definition xom_alloc (size : Z) : M (lstate W) (option xombuf) := wrap_call (xomalloc_page_internal size).
Definition xom_get_size (buf : option xombuf) : Z :=
  match buf with None => 0 | Some b => xb_allocated_size b end.
Definition lib_xom_write (dest : option xombuf) (src : option (list Z)) (size offset : Z) : M (lstate W) Z :=
  wrap_call (xom_write_internal dest src size offset).
Definition lib_xom_lock (buf : option xombuf) : M (lstate W) (Z * option xombuf) := wrap_call (xom_lock_internal buf).
Definition xom_free (buf : option xombuf) : M (lstate W) unit :=
  do! libxom_prologue in do! xom_free_internal buf in libxom_epilogue.
Definition xom_mark_register_clear (buf : xombuf) (full_clear page_number : Z) : M (lstate W) (Z * xombuf) :=
  if xb_allocated_size buf <? u64 (page_number * PAGE_SIZE) then ret (- EINVAL, buf)
  else wrap_call (mark_register_clear_internal buf full_clear page_number).
Definition xom_mark_register_clear_subpage (sp : xom_subpages) (full_clear page_number : Z) : M (lstate W) Z :=
  let buf := Xombuf (sp_address sp) (u64 (sp_num_subpages sp * SUBPAGE_SIZE)) 0 true false 0 in
  let! '(r, _) := xom_mark_register_clear buf full_clear page_number in
  ret r.
Definition xom_alloc_subpages (size : Z) : M (lstate W) alloc_result := wrap_call (xom_alloc_subpages_internal size).
Definition xom_fill_and_lock_subpages (dest : xom_subpages) (size : Z) (src : list Z) : M (lstate W) (Z * xom_subpages) :=
  wrap_call (xom_fill_and_lock_subpages_internal dest size src).
Definition xom_free_subpages (sp : xom_subpages) (base_address : Z) : M (lstate W) (Z * option xom_subpages) :=
  wrap_call (xom_free_subpages_internal sp base_address).
Definition xom_free_all_subpages (sp : xom_subpages) : M (lstate W) unit :=
  do! libxom_prologue in do! xom_free_all_subpages_internal sp in libxom_epilogue.
Definition get_xom_mode : M (lstate W) Z := wrap_call get_xom_mode_internal.
Definition set_xom_mode (new_xom_mode : Z) : M (lstate W) Z := wrap_call (set_xom_mode_internal new_xom_mode).

(** ** Moving code to execute-only memory *)

(** [self] is an address inside [explore_text_regions]; the regions in the
    order of the file, without the terminating entry. *)
Fixpoint classify (l : list (Z * Z * bool)) (count : nat) (vdso self : Z) : list text_region :=
  match l with
  | [] => []
  | (start, fin, x) :: l =>
      if negb x then classify l count vdso self
      else
        let ty := if Nat.eqb count 0 then TEXT_TYPE_EXECUTABLE
                  else if start =? vdso then TEXT_TYPE_VDSO else TEXT_TYPE_SHARED in
        TextRegion start fin ty ((start <=? self) && (self <? fin)) :: classify l (S count) vdso self
  end.

Definition explore_text_regions (self : Z) : M (lstate W) (option (list text_region)) :=
  let! maps := gets (fun s => proc_maps (l_world s)) in
  match maps with
  | None => ret None
  | Some lines =>
      let! ok := lcall (malloc (24 * (Z.of_nat (length (filter (fun l => l.2 = true) lines)) + 1))) in
      if negb ok then ret None
      else
        let! vdso := gets (fun s => vdso_base (l_world s)) in
        ret (Some (classify lines 0 vdso self))
  end.

(** The [mmap] loop of [remap_no_libc]; [false] is [exit(...)]. *)
Fixpoint remap_loop (fuel : nat) (base fd c size_left : Z) : M (lstate W) bool :=
  match fuel with
  | O => ub
  | S fuel =>
      if size_left <=? 0 then ret true
      else
        let addr := u64 (base + c * ALLOC_CHUNK_SIZE) in
        let! rptr := lcall (sys_mmap addr (Z.min size_left ALLOC_CHUNK_SIZE) PROT_NONE MAP_PRIVATE fd) in
        if negb (rptr =? u64 (base + u32 (c * ALLOC_CHUNK_SIZE))) then
          do! ldo (sys_exit (s8 (- s8 rptr))) in ret false
        else remap_loop fuel base fd (c + 1) (size_left - ALLOC_CHUNK_SIZE)
  end.

(** [None] when the process exited. *)
Definition remap_no_libc (space : text_region) (dest fd : Z) : M (lstate W) (option Z) :=
  let size := text_end space - text_base space in
  let! status := lcall (sys_munmap (text_base space) size) in
  if s32 status <? 0 then do! ldo (sys_exit 1) in ret None
  else
    let! ok := remap_loop (chunk_fuel size) (text_base space) fd 0 size in
    if negb ok then ret None
    else
      let! bytes := gets (fun s => mem_read dest (8 * (size / 8)) (l_world s)) in
      do! ldo (mem_write (text_base space) bytes) in
      ret (Some 0).

Fixpoint migrate_lock_loop (fuel : nat) (base fd c size_left status : Z) : M (lstate W) Z :=
  match fuel with
  | O => ub
  | S fuel =>
      if (0 <=? status) && (0 <? size_left) then
        let cmd := ModxomCmd MODXOM_CMD_LOCK (u32 (Z.shiftr (Z.min size_left ALLOC_CHUNK_SIZE) PAGE_SHIFT))
                     (u64 (base + u32 (c * ALLOC_CHUNK_SIZE))) in
        let! r := fd_write fd (encode_cmd cmd) in
        migrate_lock_loop fuel base fd (c + 1) (size_left - ALLOC_CHUNK_SIZE) (s32 r)
      else ret status
  end.

Definition migrate_text_section (space : text_region) : M (lstate W) (option Z) :=
  let size := text_end space - text_base space in
  let len := Z.shiftl (Z.shiftr size PAGE_SHIFT) PAGE_SHIFT in
  let! fd := gets xomfd in
  if fd <? 0 then
    let! r := lcall (sys_mprotect (text_base space) size PROT_EXEC) in ret (Some r)
  else
    let! dest := lcall (sys_mmap 0 len (Z.lor PROT_READ PROT_WRITE) (Z.lor MAP_ANONYMOUS MAP_PRIVATE) (-1)) in
    if dest =? MAP_FAILED then ret (Some (-1))
    else
      let! bytes := gets (fun s => mem_read (text_base space) len (l_world s)) in
      do! ldo (mem_write dest bytes) in
      do! (if jump_into_backup space
           then let! _ := lcall (sys_mprotect dest len (Z.lor PROT_READ PROT_EXEC)) in ret tt else ret tt) in
      let! status := remap_no_libc space dest fd in
      match status with
      | None => ret None
      | Some status =>
          let! status := migrate_lock_loop (chunk_fuel size + 1) (text_base space) fd 0 size status in
          do! lcall (sys_munmap dest len) in
          ret (Some status)
      end.

Fixpoint migrate_loop (l : list text_region) (skip_type status : Z) : M (lstate W) (option Z) :=
  match l with
  | [] => ret (Some status)
  | r :: l =>
      if Z.land (tr_type r) skip_type =? 0 then
        let! st := migrate_text_section r in
        match st with
        | None => ret None
        | Some st => if st <? 0 then ret (Some st) else migrate_loop l skip_type st
        end
      else migrate_loop l skip_type status
  end.

Definition migrate_skip_type (self skip_type : Z) : M (lstate W) (option Z) :=
  let! mode := gets xom_mode in
  if mode =? XOM_MODE_UNSUPPORTED then fail_with EINVAL (Some (-1))
  else
    let! spaces := explore_text_regions self in
    match spaces with
    | None => ret (Some (-1))
    | Some spaces => migrate_loop spaces skip_type 1
    end.

Definition migrate_shared_libraries_internal (self : Z) := migrate_skip_type self (Z.lor TEXT_TYPE_EXECUTABLE TEXT_TYPE_VDSO).
Definition migrate_all_code_internal (self : Z) := migrate_skip_type self TEXT_TYPE_VDSO.
Definition xom_migrate_all_code (self : Z) : M (lstate W) (option Z) := wrap_call (migrate_all_code_internal self).
Definition xom_migrate_shared_libraries (self : Z) : M (lstate W) (option Z) := wrap_call (migrate_shared_libraries_internal self).

(** [dlopen(filename, flags)] and [dlmopen] with the original [f] installed:
    the handle is returned after new code was migrated. *)
Definition dlopen_hook (self : Z) (f : W -> Z * W) : M (lstate W) Z :=
  let! r := lcall f in
  let! hook := gets migrate_dlopen in
  if negb hook then ret r
  else if negb (r =? 0) then let! _ := migrate_skip_type self TEXT_TYPE_VDSO in ret r
  else ret r.

(** ** Initialisation *)

(** [strstr(hay, needle) != NULL] *)
Fixpoint strstr (hay needle : list Z) : bool :=
  bool_decide (take (length needle) hay = needle) || match hay with [] => false | _ :: hay => strstr hay needle end.

(** "LIBXOM_LOCK=all" and "LIBXOM_LOCK=libs" *)
Definition LIBXOM_LOCK_ALL : list Z :=
  [76; 73; 66; 88; 79; 77; 95; 76; 79; 67; 75; 61; 97; 108; 108].
Definition LIBXOM_LOCK_LIBS : list Z :=
  [76; 73; 66; 88; 79; 77; 95; 76; 79; 67; 75; 61; 108; 105; 98; 115].

Fixpoint env_loop (self : Z) (l : list (list Z)) : M (lstate W) unit :=
  match l with
  | [] => ret tt
  | e :: l =>
      if strstr e LIBXOM_LOCK_ALL then
        let! _ := migrate_all_code_internal self in modify set_dlopen
      else if strstr e LIBXOM_LOCK_LIBS then
        let! _ := migrate_shared_libraries_internal self in modify set_dlopen
      else env_loop self l
  end.

(** [while (!rval) _rdrand32_step(&rval)], for as many draws as [fuel]. *)
Fixpoint rdrand_loop (fuel : nat) (rval : Z) : M (lstate W) Z :=
  match fuel with
  | O => ub
  | S fuel => if negb (rval =? 0) then ret rval
              else let! r := lcall rdrand32 in rdrand_loop fuel (u32 r)
  end.

Definition initialize_libxom (self : Z) (fuel : nat) : M (lstate W) unit :=
  let! s := get in
  if initialized s then ret tt
  else
    do! modify (set_lib_lock false) in
    do! modify set_initialized in
    do! lib_mutex_lock in
    let! fd := lcall sys_open_xom in
    do! modify (fun s => set_fd_pid fd (libxom_pid s) s) in
    let! s := get in
    let mode := if 0 <=? fd then XOM_MODE_SLAT
                else if pku_supported (l_world s) then XOM_MODE_PKU else xom_mode s in
    do! modify (set_mode mode) in
    if negb (0 <=? fd) && negb (pku_supported (l_world s)) then lib_mutex_unlock
    else
      do! env_loop self (environ (l_world s)) in
      do! modify (fun s => set_fd_pid (xomfd s) (getpid (l_world s)) s) in
      let! rval := rdrand_loop fuel 0 in
      do! modify (set_base (XOM_BASE_ADDRESS +
                            Z.land (Z.shiftl rval PAGE_SHIFT) (u64 (Z.lnot 0xff0000000000)))) in
      lib_mutex_unlock.
End libxom.
