(* ===== verification/LibXomTheorems.v ===== *)
(** * What the library guarantees

    The commands the library builds are the ones the module and the hypervisor
    decode; sub-pages are handed out once; and the inputs on which the library
    does not do what it means to. *)

From S2P Require Import Prelude RbTree RbSpec RbHeap PageInfo XomDomain ModXom LibXom.

(** ** Encoding *)

Lemma le_encode_decode n z : 0 <= z < 256 ^ Z.of_nat n -> le_bytes (le_encode n z) = z.
Proof.
  revert z; induction n as [|n IH]; intros z Hz.
  - cbn in *. lia.
  - assert (le_encode (S n) z = u8 z :: le_encode n (z / 256)) as ->.
    { unfold le_encode. cbn [seq map]. f_equal. rewrite <-seq_shift, map_map. apply map_ext. intros i.
      f_equal. rewrite !Z.shiftr_div_pow2 by lia. replace (8 * Z.of_nat (S i)) with (8 + 8 * Z.of_nat i) by lia.
      rewrite Z.pow_add_r by lia. change (2 ^ 8) with 256. rewrite Z.div_div by lia. done. }
    cbn [le_bytes foldr]. fold (le_bytes (le_encode n (z / 256))).
    rewrite Nat2Z.inj_succ, Z.pow_succ_r in Hz by lia.
    rewrite IH by (split; [zdiv|apply Z.div_lt_upper_bound; lia]). unfold u8. change (2 ^ 8) with 256. zdiv.
Qed.

Definition cmd_wf (c : modxom_cmd) : Prop :=
  0 <= mc_cmd c < 2 ^ 32 /\ 0 <= mc_num_pages c < 2 ^ 32 /\ 0 <= mc_base_addr c < 2 ^ 64.

Lemma encode_cmd_decode c rest : cmd_wf c -> cmd_of_bytes (encode_cmd c ++ rest) = c.
Proof.
  intros (H1 & H2 & H3). unfold cmd_of_bytes, encode_cmd. rewrite <-!app_assoc.
  rewrite (drop_app_length' _ _ 4) by by rewrite le_encode_length.
  rewrite take_app_length' by by rewrite le_encode_length.
  rewrite take_app_length' by by rewrite le_encode_length.
  rewrite (app_assoc (le_encode 4 (mc_cmd c))).
  rewrite (drop_app_length' _ _ 8) by (rewrite length_app, !le_encode_length; done).
  rewrite take_app_length' by by rewrite le_encode_length.
  rewrite !le_encode_decode by (done || (change (256 ^ Z.of_nat 8) with (2 ^ 64); done)). by destruct c.
Qed.

Definition info_wf (i : xom_subpage_write_info) : Prop := length (data i) = Z.to_nat SUBPAGE_SIZE.

Lemma encode_info_length i : info_wf i -> length (encode_info i) = Z.to_nat sizeof_write_info.
Proof. intros Hi. cbn. by rewrite Hi. Qed.

Lemma concat_infos_drop l n rest :
  Forall info_wf l -> (n <= length l)%nat ->
  drop (Z.to_nat sizeof_write_info * n) (concat (map encode_info l) ++ rest) =
  concat (map encode_info (drop n l)) ++ rest.
Proof.
  intros Hl. revert n; induction Hl as [|i l Hi Hl IH]; intros [|n] Hn; cbn [length] in Hn;
    rewrite ?Nat.mul_0_r, ?drop_0; [done|lia|done|].
  cbn [drop map concat]. rewrite <-IH by lia. rewrite <-app_assoc.
  replace (Z.to_nat sizeof_write_info * S n)%nat
    with (Z.to_nat sizeof_write_info + Z.to_nat sizeof_write_info * n)%nat by lia.
  rewrite <-drop_drop. by rewrite drop_app_length' by by rewrite encode_info_length.
Qed.

Lemma info_at_encoded b l rest n i :
  Forall info_wf l -> l !! n = Some i -> info_at (b :: concat (map encode_info l) ++ rest) n = i.
Proof.
  intros Hl Hn. unfold info_at. pose proof (lookup_lt_Some _ _ _ Hn) as Hlt.
  set (L := concat (map encode_info l) ++ rest).
  change (1 + Z.to_nat sizeof_write_info * n)%nat with (S (Z.to_nat sizeof_write_info * n)).
  cbn [nth drop]. pose proof (concat_infos_drop l n rest Hl ltac:(lia)) as Hd.
  rewrite (drop_S l i n Hn) in Hd. cbn [map concat encode_info] in Hd. rewrite <-app_assoc in Hd. fold L in Hd.
  replace (nth (Z.to_nat sizeof_write_info * n) L 0) with (target_subpage i).
  2: { rewrite <-(Nat.add_0_r (Z.to_nat sizeof_write_info * n)), <-nth_skipn.
       change (skipn ?a ?b) with (drop a b). by rewrite Hd. }
  replace (drop (S (Z.to_nat sizeof_write_info * n)) L) with (data i ++ concat (map encode_info (drop (S n) l)) ++ rest).
  2: { replace (S (Z.to_nat sizeof_write_info * n)) with (Z.to_nat sizeof_write_info * n + 1)%nat by lia.
       rewrite <-drop_drop, Hd. done. }
  rewrite take_app_length' by (by eapply Forall_lookup in Hn; [|exact Hl]). by destruct i.
Qed.

(** C32: what the library asks for is what arrives: the module decodes the
    command it was given, and the hypervisor, reading the operand page into
    which the module copied the rest, finds exactly the library's list of
    sub-page writes, whatever else the page held. *)
Theorem encode_write_roundtrip a l rest :
  0 <= a < 2 ^ 64 -> Forall info_wf l -> Z.of_nat (length l) <= MAX_SUBPAGES_PER_CMD ->
  cmd_of_bytes (encode_write a l) = ModxomCmd MODXOM_CMD_WRITE_SUBPAGES 1 a /\
  command_infos (read_command (drop (Z.to_nat sizeof_modxom_cmd) (encode_write a l) ++ rest)) = l.
Proof.
  intros Ha Hl Hn. unfold encode_write. split; [apply encode_cmd_decode; unfold cmd_wf; cbn; unfold MODXOM_CMD_WRITE_SUBPAGES; lia|].
  rewrite drop_app_length' by (unfold encode_cmd; rewrite !length_app, !le_encode_length; done).
  unfold command_infos, read_command. cbn [num_subpages write_info app nth].
  assert (MAX_SUBPAGES_PER_CMD = 31) as HM by done. rewrite HM in *.
  assert (u8 (Z.of_nat (length l)) = Z.of_nat (length l)) as -> by (unfold u8; rewrite Z.mod_small; lia).
  rewrite Nat2Z.id. apply list_eq. intros i.
  destruct (decide (i < length l)%nat) as [Hi|Hi].
  - rewrite lookup_take_lt, list_lookup_fmap, lookup_seq_lt by lia. cbn [fmap option_fmap option_map plus].
    destruct (lookup_lt_is_Some_2 _ _ Hi) as [x Hx]. rewrite Hx. f_equal. by apply info_at_encoded.
  - rewrite (lookup_ge_None_2 l) by lia. apply lookup_ge_None_2. rewrite length_take. lia.
Qed.

(** ** Finding free sub-pages *)

(** The bits of [mask << b] for [r] sub-pages. *)
Lemma mask_bit r b j :
  0 <= r <= 31 -> 0 <= b -> b + r <= 32 -> 0 <= j ->
  Z.testbit (u32 (Z.shiftl (u32 (Z.shiftl 1 r - 1)) b)) j = (b <=? j) && (j <? b + r).
Proof.
  intros Hr Hb Hbr Hj. rewrite Z.shiftl_1_l.
  replace (2 ^ r - 1) with (Z.ones r) by (rewrite Z.ones_equiv; lia).
  assert (0 <= Z.ones r < 2 ^ 32) as Ho.
  { rewrite Z.ones_equiv. pose proof (Z.pow_le_mono_r 2 r 31 ltac:(lia) ltac:(lia)).
    pose proof (Z.pow_pos_nonneg 2 r ltac:(lia) ltac:(lia)). lia. }
  unfold u32. rewrite (Z.mod_small (Z.ones r)) by done.
  destruct (Z.ltb_spec j 32) as [Hlt|Hge].
  - rewrite Z.mod_pow2_bits_low by lia. rewrite Z.shiftl_spec by lia.
    destruct (Z.leb_spec b j).
    + rewrite Z.testbit_ones_nonneg by lia. cbn. destruct (Z.ltb_spec (j - b) r), (Z.ltb_spec j (b + r)); lia.
    + by rewrite Z.testbit_neg_r by lia.
  - rewrite Z.mod_pow2_bits_high by lia. destruct (Z.leb_spec b j), (Z.ltb_spec j (b + r)); (done || lia).
Qed.

Lemma mask_free r b w :
  0 <= r <= 31 -> 0 <= b -> b + r <= 32 ->
  Z.land (u32 (Z.shiftl (u32 (Z.shiftl 1 r - 1)) b)) w = 0 <->
  forall j, b <= j < b + r -> Z.testbit w j = false.
Proof.
  intros Hr Hb Hbr. split.
  - intros H0 j Hj. assert (Z.testbit (Z.land (u32 (Z.shiftl (u32 (Z.shiftl 1 r - 1)) b)) w) j = false) as Hbit
      by (by rewrite H0, Z.testbit_0_l).
    rewrite Z.land_spec, mask_bit in Hbit by lia.
    destruct (Z.leb_spec b j), (Z.ltb_spec j (b + r)); (done || lia).
  - intros Hf. apply Z.bits_inj'. intros j Hj. rewrite Z.land_spec, mask_bit, Z.testbit_0_l by lia.
    destruct (Z.leb_spec b j), (Z.ltb_spec j (b + r)); cbn; [|done..]. apply Hf. lia.
Qed.

(** The [r] sub-pages from [b] of the word [w] are free. *)
Definition range_free (w b r : Z) : Prop := forall j, b <= j < b + r -> Z.testbit w j = false.

Lemma find_in_page_spec n b r w :
  0 <= r <= 31 -> 0 <= b -> b + Z.of_nat n - 1 + r <= 32 ->
  match find_in_page n b (u32 (Z.shiftl 1 r - 1)) w with
  | Some sp => b <= sp < b + Z.of_nat n /\ range_free w sp r
  | None => forall sp, b <= sp < b + Z.of_nat n -> ~ range_free w sp r
  end.
Proof.
  intros Hr. revert b; induction n as [|n IH]; intros b Hb Hn; cbn [find_in_page]; [lia|].
  destruct (Z.eqb_spec (Z.land (u32 (Z.shiftl (u32 (Z.shiftl 1 r - 1)) b)) w) 0) as [H0|H0].
  - rewrite mask_free in H0 by lia. split; [lia|done].
  - specialize (IH (b + 1) ltac:(lia) ltac:(lia)). destruct (find_in_page _ _ _ _) as [sp|].
    + destruct IH. split; [lia|done].
    + intros sp Hsp. destruct (decide (sp = b)) as [->|]; [|apply IH; lia].
      intros Hf. apply H0. by rewrite mask_free by lia.
Qed.

Lemma find_free_spec n p r locks :
  1 <= r <= 31 -> (p + n <= length locks)%nat ->
  exists res, find_free n p (Z.to_nat (32 - r + 1)) (u32 (Z.shiftl 1 r - 1)) locks = Some res /\
    match res with
    | Some (bp, sp) => exists w, (p <= Z.to_nat bp < p + n)%nat /\ 0 <= bp /\ locks !! Z.to_nat bp = Some w /\
        0 <= sp /\ sp + r <= 32 /\ range_free w sp r
    | None => forall k w sp, (p <= k < p + n)%nat -> locks !! k = Some w -> 0 <= sp -> sp + r <= 32 ->
        ~ range_free w sp r
    end.
Proof.
  intros Hr. revert p; induction n as [|n IH]; intros p Hp; cbn [find_free].
  { exists None. split; [done|]. intros. lia. }
  destruct (lookup_lt_is_Some_2 locks p) as [w Hw]; [lia|]. rewrite Hw.
  pose proof (find_in_page_spec (Z.to_nat (32 - r + 1)) 0 r w ltac:(lia) ltac:(lia) ltac:(lia)) as Hs.
  destruct (find_in_page _ _ _ _) as [sp|].
  - eexists. split; [done|]. exists w. rewrite Nat2Z.id. destruct Hs. split_and!; [lia..|done|lia|lia|done].
  - destruct (IH (S p)) as (res & -> & Hres); [lia|]. exists res. split; [done|].
    destruct res as [[bp sp]|].
    + destruct Hres as (w' & Hb & Hrest). exists w'. split; [lia|done].
    + intros k w' sp Hk Hw' Hsp Hsr. destruct (decide (k = p)) as [->|]; [|by apply (Hres k w' sp); [lia|..]].
      simplify_eq. apply Hs. lia.
Qed.

(** ** The allocator of sub-pages *)

(** A valid object: one lock word per page of the buffer. *)
Record sub_wf (sp : xom_subpages) : Prop := {
  sw_num : 0 <= sp_num_subpages sp <= ALLOC_CHUNK_SIZE / SUBPAGE_SIZE;
  sw_locks : sp_num_subpages sp * SUBPAGE_SIZE <= Z.of_nat (length (sp_lock_status sp)) * PAGE_SIZE;
  sw_addr : 0 < sp_address sp /\ sp_address sp + ALLOC_CHUNK_SIZE < 2 ^ 64
}.

(** The pages the search looks at. *)
Definition searched (sp : xom_subpages) : nat := Z.to_nat (sp_num_subpages sp * SUBPAGE_SIZE / PAGE_SIZE).

(** [dest'] is [dest] after the sub-pages [b .. b + r] of page [p] were taken. *)
Definition taken (dest dest' : xom_subpages) (p b r : Z) : Prop :=
  exists w w', sp_lock_status dest !! Z.to_nat p = Some w /\ range_free w b r /\
    sp_lock_status dest' = <[Z.to_nat p := w']> (sp_lock_status dest) /\
    (forall j, 0 <= j -> Z.testbit w' j = ((b <=? j) && (j <? b + r)) || Z.testbit w j) /\
    sp_address dest' = sp_address dest /\ sp_num_subpages dest' = sp_num_subpages dest /\
    sp_references dest' = s8 (sp_references dest + 1).

Section lib.
Context {W : Type} `{Libc W}.
Implicit Types s : lstate W.

Lemma wp_lcall {A} (f : W -> A * W) (Q : A -> lstate W -> Prop) s :
  Q (f (l_world s)).1 (set_world (f (l_world s)).2 s) -> wp (lcall f) Q s.
Proof. intros HQ. unfold wp, lcall. destruct (f (l_world s)) as [a w]. by exists a, (set_world w s). Qed.

Lemma write_into_subpages_spec dest r src p b s w :
  sub_wf dest -> 1 <= r <= 31 -> r * SUBPAGE_SIZE <= Z.of_nat (length src) ->
  (forall n w0, (malloc n w0).1 = true) ->
  0 <= p -> (Z.to_nat p < searched dest)%nat -> 0 <= b -> b + r <= 32 ->
  sp_lock_status dest !! Z.to_nat p = Some w -> range_free w b r ->
  wp (write_into_subpages dest r src p b (u32 (Z.shiftl 1 r - 1)))
     (fun x _ => x = (0, dest) \/
        (x.1 = sp_address dest + p * PAGE_SIZE + b * SUBPAGE_SIZE /\ taken dest x.2 p b r)) s.
Proof.
  intros Hw Hr Hsrc Hm Hp Hps Hb Hbr Hl Hf. unfold write_into_subpages.
  destruct (Z.ltb_spec (Z.of_nat (length src)) (r * SUBPAGE_SIZE)); [lia|].
  apply wp_bind. apply (wp_mono _ (fun _ _ => True)).
  { destruct (_ =? XOM_MODE_SLAT).
    - apply wp_bind, wp_lcall. rewrite Hm. cbn [negb]. apply wp_bind, wp_gets, wp_bind, wp_bind, wp_lcall.
      destruct (_ <? 0); [apply wp_bind, wp_modify|]; by repeat apply wp_ret.
    - destruct (_ =? XOM_MODE_PKU); [|by apply wp_ret].
      apply wp_bind, wp_gets, wp_bind, wp_gets, wp_bind, wp_modify, wp_bind, wp_modify, wp_bind, wp_modify.
      by apply wp_ret. }
  intros ok s' _. destruct ok; cbn [negb]; [|apply wp_ret; by left]. rewrite Hl. apply wp_ret. right.
  destruct (sw_addr _ Hw), (sw_num _ Hw) as [Hn1 Hn2].
  assert (p * 4096 + b * 128 < ALLOC_CHUNK_SIZE) as Hin.
  { unfold searched in Hps. change SUBPAGE_SIZE with 128 in *. change PAGE_SIZE with 4096 in *.
    change ALLOC_CHUNK_SIZE with 4194304 in *. zdiv. }
  change SUBPAGE_SIZE with 128 in *. change PAGE_SIZE with 4096 in *. split; cbn [fst snd].
  - unfold u64. rewrite (Z.mod_small (_ + p * 4096)) by lia. rewrite Z.mod_small; lia.
  - exists w. eexists. split_and!; [done|done|reflexivity| |done|done|done].
    intros j Hj. rewrite Z.lor_spec, mask_bit by lia. apply orb_comm.
Qed.

(** Sub-pages are handed out once: [xom_fill_and_lock_subpages] returns
    null and leaves the object unchanged, or an address inside the buffer
    whose sub-pages were all free, and marks exactly these as used. *)
Theorem xom_fill_correct dest size src s :
  sub_wf dest -> 0 <= size -> subpages_for size * SUBPAGE_SIZE <= Z.of_nat (length src) ->
  (forall n w, (malloc n w).1 = true) ->
  wp (xom_fill_and_lock_subpages_internal dest size src)
     (fun x _ => x = (0, dest) \/
        exists p b, 0 <= p < Z.of_nat (searched dest) /\ 0 <= b /\ b + subpages_for size <= 32 /\
          x.1 = sp_address dest + p * PAGE_SIZE + b * SUBPAGE_SIZE /\ taken dest x.2 p b (subpages_for size)) s.
Proof.
  intros Hw Hsz Hsrc Hm. unfold xom_fill_and_lock_subpages_internal.
  destruct (Z.eqb_spec size 0) as [|Hnz]; [apply wp_bind, wp_modify, wp_ret; by left|].
  destruct (Z.ltb_spec (sp_num_subpages dest) (subpages_for size)); [apply wp_bind, wp_modify, wp_ret; by left|].
  destruct (Z.ltb_spec MAX_SUBPAGES_PER_CMD (subpages_for size)) as [|Hmax];
    [apply wp_bind, wp_modify, wp_ret; by left|]. cbn [orb].
  change MAX_SUBPAGES_PER_CMD with 31 in Hmax.
  assert (1 <= subpages_for size) as Hr1.
  { unfold subpages_for. change SUBPAGE_SIZE with 128. destruct (Z.eqb_spec (size mod 128) 0); zdiv. }
  destruct (sw_num _ Hw) as [Hn1 Hn2]. pose proof (sw_locks _ Hw) as Hlk.
  assert (u64 (sp_num_subpages dest * SUBPAGE_SIZE) = sp_num_subpages dest * SUBPAGE_SIZE) as ->.
  { unfold u64. rewrite Z.mod_small; [done|]. change SUBPAGE_SIZE with 128 in *.
    change ALLOC_CHUNK_SIZE with 4194304 in *. zdiv. }
  fold (searched dest). change (PAGE_SIZE / SUBPAGE_SIZE) with 32.
  destruct (find_free_spec (searched dest) 0 (subpages_for size) (sp_lock_status dest)) as (res & -> & Hres); [lia| |].
  { unfold searched. change SUBPAGE_SIZE with 128 in *. change PAGE_SIZE with 4096 in *. zdiv. }
  destruct res as [[p b]|]; [|apply wp_bind, wp_modify, wp_ret; by left].
  destruct Hres as (w & Hp & Hp0 & Hl & Hb & Hbr & Hf).
  eapply wp_mono; [eapply write_into_subpages_spec; [done|lia|done|done|done|lia|done|done|done|done]|].
  intros x _ [?|[Ha Ht]]; [by left|right]. exists p, b. split_and!; [lia|lia|done|done|done|done].
Qed.

Lemma locked_write_fails b src size offset (s : lstate W) : xb_locked b = true ->
  xom_write_internal (Some b) src size offset s = Some (-1, set_errno EINVAL s).
Proof. intros Hl. unfold xom_write_internal. rewrite Hl. cbn [orb]. destruct src as [src|]; [|done]. by destruct (size =? 0). Qed.

Lemma mark_keeps_locked b full_clear page_number (s : lstate W) r b' s' : xb_locked b = true ->
  mark_register_clear_internal b full_clear page_number s = Some ((r, b'), s') -> xb_locked b' = true.
Proof.
  intros Hl Hrun. unfold mark_register_clear_internal in Hrun. apply bind_inv in Hrun as (s0 & s1 & _ & Hrun).
  destruct (negb _); [by injection Hrun as _ <- _|]. destruct (_ || _); [by injection Hrun as _ <- _|].
  apply bind_inv in Hrun as (r0 & s2 & _ & Hrun). destruct (r0 <? 0); [|by injection Hrun as _ <- _].
  apply bind_inv in Hrun as (e & s3 & _ & Hrun). by injection Hrun as _ <- _.
Qed.

(** C33: a buffer that the library locked is never written again through its
    handle: once [xom_lock] returned an address for a handle, every later
    [xom_write] through it, in whatever state of the library, fails with
    [EINVAL] and touches no memory; locking it again changes nothing, and after
    [xom_mark_register_clear] every write through it still fails.  (Other
    handles and direct stores of the process are not covered.) *)
Theorem xom_lock_then_write buf s addr buf' s' :
  xom_lock_internal (Some buf) s = Some ((addr, buf'), s') -> addr <> 0 ->
  exists b, buf' = Some b /\ xb_address b = addr /\
    (forall src size offset s'', xom_write_internal buf' src size offset s'' = Some (-1, set_errno EINVAL s'')) /\
    (forall s'', xom_lock_internal buf' s'' = Some ((addr, buf'), s'')) /\
    (forall full_clear page_number s1 r b' s2,
       mark_register_clear_internal b full_clear page_number s1 = Some ((r, b'), s2) ->
       forall src size offset s'', xom_write_internal (Some b') src size offset s'' = Some (-1, set_errno EINVAL s'')).
Proof.
  intros Hrun Ha. assert (exists b, buf' = Some b /\ xb_address b = addr /\ xb_locked b = true) as (b & -> & Hb & Hl).
  { unfold xom_lock_internal in Hrun. destruct (xb_locked buf) eqn:Hlk;
      [injection Hrun as <- <- <-; by eexists|].
    destruct (xb_mode buf =? XOM_MODE_PKU).
    - apply bind_inv in Hrun as (r & s1 & _ & Hrun). destruct (r <? 0); [injection Hrun as <- _ _; done|].
      injection Hrun as <- <- <-. by eexists.
    - apply bind_inv in Hrun as (pid & s1 & _ & Hrun). destruct (_ =? pid); cbn [negb] in Hrun; [|injection Hrun as <- _ _; done].
      apply bind_inv in Hrun as (ok & s2 & _ & Hrun). destruct ok; cbn [negb] in Hrun; [|injection Hrun as <- _ _; done].
      injection Hrun as <- <- <-. by eexists. }
  exists b. split_and!; [done|done|..].
  - intros src size offset s''. by apply locked_write_fails.
  - intros s''. unfold xom_lock_internal. by rewrite Hl, Hb.
  - intros full_clear page_number s1 r b' s2 Hm src size offset s''. apply locked_write_fails. by eapply mark_keeps_locked.
Qed.

(** A write at an offset so large that [offset + size] wraps around
    passes the bounds check and lands in front of the buffer. *)
Theorem xom_write_offset_wraps buf src size offset s :
  xb_locked buf = false -> 0 < size <= xb_allocated_size buf -> 0 <= offset < 2 ^ 64 ->
  2 ^ 64 <= offset + size -> 2 ^ 64 - offset <= xb_address buf < 2 ^ 64 -> size < 2 ^ 31 ->
  size <= Z.of_nat (length src) ->
  exists a, a = xb_address buf - (2 ^ 64 - offset) /\ a < xb_address buf /\
    xom_write_internal (Some buf) (Some src) size offset s =
      Some (size, set_world (mem_write a (take (Z.to_nat size) src) (l_world s)) s).
Proof.
  intros Hl Hs Ho Hw Ha Hs31 Hsrc. eexists. split; [reflexivity|]. split; [lia|].
  unfold xom_write_internal. destruct (Z.eqb_spec size 0); [lia|]. rewrite Hl. cbn [orb].
  assert (u64 (offset + size) = offset + size - 2 ^ 64) as ->.
  { unfold u64. rewrite <-(Z.mod_small (offset + size - 2 ^ 64) (2 ^ 64)) by lia. 
    replace (offset + size) with (offset + size - 2 ^ 64 + 1 * 2 ^ 64) at 1 by lia. by rewrite Z.mod_add by lia. }
  destruct (Z.ltb_spec (xb_allocated_size buf) (offset + size - 2 ^ 64)); [lia|].
  destruct (Z.ltb_spec (Z.of_nat (length src)) size); [lia|]. unfold ldo, modify, bind, ret. f_equal. f_equal.
  - unfold s32. rewrite Z.mod_small by lia. lia.
  - do 3 f_equal. unfold u64.
    replace (xb_address buf + offset) with (xb_address buf - (2 ^ 64 - offset) + 1 * 2 ^ 64) by lia.
    rewrite Z.mod_add by lia. rewrite Z.mod_small; lia.
Qed.

(** The search for free sub-pages only looks at whole pages: an object
    with less than a page of sub-pages is never filled. *)
Theorem small_subpages_never_filled dest size src s :
  0 <= sp_num_subpages dest * SUBPAGE_SIZE < PAGE_SIZE ->
  exists e, xom_fill_and_lock_subpages_internal dest size src s = Some ((0, dest), set_errno e s).
Proof.
  intros Hn. unfold xom_fill_and_lock_subpages_internal. destruct (_ || _); [by eexists|].
  assert (u64 (sp_num_subpages dest * SUBPAGE_SIZE) / PAGE_SIZE = 0) as ->.
  { unfold u64. change PAGE_SIZE with 4096 in *. rewrite Z.mod_small by lia. zdiv. }
  by eexists.
Qed.

Lemma free_loop_safe fuel address c size_left s :
  (Z.to_nat (size_left / ALLOC_CHUNK_SIZE) + 1 < fuel)%nat -> wp (free_loop fuel address c size_left) (fun _ _ => True) s.
Proof.
  change ALLOC_CHUNK_SIZE with 4194304.
  revert c size_left s; induction fuel as [|fuel IH]; intros c sl s Hf; [lia|]. cbn [free_loop].
  destruct (Z.leb_spec sl 0); [by apply wp_ret|].
  apply wp_bind, wp_gets, wp_bind. apply (wp_mono _ (fun _ _ => True)).
  { apply wp_bind, wp_lcall. destruct (_ <? 0); [apply wp_bind, wp_modify|]; by apply wp_ret. }
  intros r s1 _. apply wp_bind, wp_lcall. change ALLOC_CHUNK_SIZE with 4194304.
  destruct (Z.le_gt_cases sl 4194304).
  - destruct fuel as [|fuel]; [lia|]. cbn [free_loop]. destruct (Z.leb_spec (sl - 4194304) 0); [by apply wp_ret|lia].
  - apply IH. zdiv.
Qed.

Lemma xom_free_internal_safe b s :
  0 <= xb_allocated_size b < 2 ^ 63 -> wp (xom_free_internal (Some b)) (fun _ _ => True) s.
Proof.
  intros Hs. unfold xom_free_internal. destruct (_ =? _); [by apply wp_bind, wp_lcall, wp_ret|].
  assert (s64 (xb_allocated_size b) = xb_allocated_size b) as -> by (unfold s64; rewrite Z.mod_small; lia).
  apply free_loop_safe. unfold chunk_fuel. lia.
Qed.

(** The reference count of a sub-page object is an 8-bit signed integer:
    with 129 or more sub-page ranges in use it has wrapped around, and freeing
    any one of them releases the whole object under the others. *)
Theorem references_overflow sp live base s :
  sub_wf sp -> sp_references sp = s8 live -> 129 <= live <= 255 ->
  sp_address sp <= base < sp_address sp + sp_num_subpages sp * SUBPAGE_SIZE ->
  wp (xom_free_subpages_internal sp base) (fun r _ => r = (1, None)) s.
Proof.
  intros Hw Hr Hlive Hbase. unfold xom_free_subpages_internal.
  destruct (sw_num _ Hw), (sw_addr _ Hw). change SUBPAGE_SIZE with 128 in *. change ALLOC_CHUNK_SIZE with 4194304 in *.
  destruct (Z.ltb_spec base (sp_address sp)); [lia|].
  assert (u64 (sp_num_subpages sp * 128) = sp_num_subpages sp * 128) as Hu by (unfold u64; rewrite Z.mod_small; zdiv).
  rewrite Hu. assert (u64 (sp_address sp + sp_num_subpages sp * 128) = sp_address sp + sp_num_subpages sp * 128) as ->
    by (unfold u64; rewrite Z.mod_small; zdiv).
  destruct (Z.leb_spec (sp_address sp + sp_num_subpages sp * 128) base); [lia|].
  cbn [sp_references]. rewrite Hr. assert (s8 (s8 live - 1) <= 0) as Hneg by (unfold s8; zdiv).
  destruct (Z.leb_spec (s8 (s8 live - 1)) 0); [|lia].
  apply wp_bind. apply (wp_mono _ (fun _ _ => True)); [|intros [] s1 _; by apply wp_ret].
  unfold xom_free_all_subpages_internal. apply wp_bind, wp_lcall.
  destruct (malloc 32 (l_world s)).1; cbn [negb]; [|by apply wp_ret].
  apply xom_free_internal_safe. cbn. change SUBPAGE_SIZE with 128. rewrite Hu. zdiv.
Qed.

(** [xom_mark_register_clear_subpage] always fails: the buffer it makes
    up has process id 0. *)
Theorem mark_subpage_always_fails sp full_clear page_number s :
  lib_lock s = false -> libxom_pid s <> 0 -> getpid (l_world s) = libxom_pid s ->
  wp (xom_mark_register_clear_subpage sp full_clear page_number) (fun r _ => r = - EINVAL) s.
Proof.
  intros Hl Hp Hg. unfold xom_mark_register_clear_subpage, xom_mark_register_clear. apply wp_bind.
  destruct (_ <? _); [apply wp_ret; by apply wp_ret|].
  unfold wrap_call, libxom_prologue. apply wp_bind, wp_bind. eexists tt, _.
  split; [unfold lib_mutex_lock; by rewrite Hl|]. apply wp_bind, wp_get. cbn [l_world set_lib_lock libxom_pid xomfd].
  rewrite Hg, Z.eqb_refl, andb_false_r. apply wp_ret, wp_bind. unfold mark_register_clear_internal.
  apply wp_bind, wp_get. cbn [xb_pid libxom_pid set_lib_lock].
  rewrite (proj2 (Z.eqb_neq 0 (libxom_pid s))) by done. cbn [negb].
  apply wp_ret, wp_bind, wp_modify, wp_ret. by apply wp_ret.
Qed.
End lib.

(** ** A concrete process

    Every [mmap] answers [tl_mmap], every [write] answers [tl_status] and is
    recorded, as are the writes to memory. *)
Record toy_process := ToyProcess {
  tl_mmap : Z;
  tl_status : Z;
  tl_sent : list (list Z);
  tl_stores : list (Z * list Z)
}.

#[export] Instance toy_libc : Libc toy_process := {|
  sys_mmap := fun _ _ _ _ _ w => (tl_mmap w, w);
  sys_munmap := fun _ _ w => (0, w);
  sys_mprotect := fun _ _ _ w => (0, w);
  sys_write := fun _ l w => (tl_status w, ToyProcess (tl_mmap w) (tl_status w) (tl_sent w ++ [l]) (tl_stores w));
  sys_open_xom := fun w => (3, w);
  sys_close := fun _ w => w;
  sys_exit := fun _ w => w;
  getpid := fun _ => 77;
  malloc := fun _ w => (true, w);
  mem_read := fun _ n _ => repeat 0 (Z.to_nat n);
  mem_write := fun a l w => ToyProcess (tl_mmap w) (tl_status w) (tl_sent w) ((a, l) :: tl_stores w);
  pku_supported := fun _ => false;
  pkey_alloc := fun w => (1, w);
  pkey_mprotect := fun _ _ _ _ w => (0, w);
  rdpkru := fun _ => 0;
  wrpkru := fun _ w => w;
  rdrand32 := fun w => (1, w);
  environ := fun _ => [];
  vdso_base := fun _ => 0;
  proc_maps := fun _ => None
|}.

Definition toy_lib (mmap status : Z) : lstate toy_process :=
  LState 3 (-1) XOM_MODE_SLAT XOM_BASE_ADDRESS false 77 true false 0 (ToyProcess mmap status [] []).

(** When the kernel refuses to set sub-pages up, the library frees the
    object and returns the pointer to it. *)
Theorem alloc_subpages_dangling :
  exists s', xom_alloc_subpages 4096 (toy_lib 0x7000 (- EINVAL)) = Some (AllocDangling, s').
Proof. eexists. vm_compute. reflexivity. Qed.

(** A failing [mmap] is not recognised: the library returns a buffer at
    the address [MAP_FAILED]. *)
Theorem alloc_ignores_map_failed :
  exists b s', xom_alloc 4096 (toy_lib MAP_FAILED 0) = Some (Some b, s') /\ xb_address b = MAP_FAILED.
Proof. eexists _, _. split; [vm_compute; reflexivity|]. reflexivity. Qed.

(** ** Examples *)

Definition toy_sub (refs : Z) : xom_subpages := XomSub 0x7000 XOM_MODE_SLAT [5; 0] 64 refs.

Lemma toy_sub_wf refs : sub_wf (toy_sub refs).
Proof. split; cbn; [vm_compute; split; discriminate|vm_compute; discriminate|]. change ALLOC_CHUNK_SIZE with 4194304. lia. Qed.

Lemma encode_write_roundtrip_ex :
  cmd_of_bytes (encode_write 0x7000 [WriteInfo 3 (repeat 170 128)]) = ModxomCmd 4 1 0x7000 /\
  command_infos (read_command (drop (Z.to_nat sizeof_modxom_cmd)
    (encode_write 0x7000 [WriteInfo 3 (repeat 170 128)]) ++ [1; 2; 3])) = [WriteInfo 3 (repeat 170 128)].
Proof. apply encode_write_roundtrip; [lia|repeat constructor|by vm_compute]. Defined.

Lemma xom_fill_correct_ex :
  let dest := toy_sub 1 in
  wp (xom_fill_and_lock_subpages_internal dest 200 (repeat 170 256))
     (fun x _ => x = (0, dest) \/
        exists p b, 0 <= p < Z.of_nat (searched dest) /\ 0 <= b /\ b + subpages_for 200 <= 32 /\
          x.1 = sp_address dest + p * PAGE_SIZE + b * SUBPAGE_SIZE /\ taken dest x.2 p b (subpages_for 200))
     (toy_lib 0x7000 0).
Proof. apply xom_fill_correct; [apply toy_sub_wf|lia|by vm_compute|done]. Defined.

Lemma xom_lock_then_write_ex :
  let b := Xombuf 0x7000 4096 77 false false XOM_MODE_SLAT in
  exists buf' s', xom_lock_internal (Some b) (toy_lib 0x7000 0) = Some ((0x7000, buf'), s') /\
    exists b', buf' = Some b' /\ xb_address b' = 0x7000 /\
      (forall src size offset s'', xom_write_internal buf' src size offset s'' = Some (-1, set_errno EINVAL s'')) /\
      (forall s'', xom_lock_internal buf' s'' = Some ((0x7000, buf'), s'')) /\
      (forall full_clear page_number s1 r b2 s2,
         mark_register_clear_internal b' full_clear page_number s1 = Some ((r, b2), s2) ->
         forall src size offset s'', xom_write_internal (Some b2) src size offset s'' = Some (-1, set_errno EINVAL s'')).
Proof.
  cbv zeta. eexists _, _. split; [vm_compute; reflexivity|].
  eapply (xom_lock_then_write (Xombuf 0x7000 4096 77 false false XOM_MODE_SLAT) (toy_lib 0x7000 0)); [vm_compute; reflexivity|done].
Defined.

Lemma xom_write_offset_wraps_ex :
  exists a, a = 0x7000 - (2 ^ 64 - (2 ^ 64 - 8)) /\ a < 0x7000 /\
    xom_write_internal (Some (Xombuf 0x7000 4096 77 false false XOM_MODE_SLAT)) (Some (repeat 1 16)) 16 (2 ^ 64 - 8)
      (toy_lib 0x7000 0) =
    Some (16, set_world (mem_write a (take (Z.to_nat 16) (repeat 1 16)) (l_world (toy_lib 0x7000 0))) (toy_lib 0x7000 0)).
Proof.
  apply (xom_write_offset_wraps (Xombuf 0x7000 4096 77 false false XOM_MODE_SLAT) (repeat 1 16) 16 (2 ^ 64 - 8));
    cbn; (done || lia).
Defined.

Lemma small_subpages_never_filled_ex :
  exists e, xom_fill_and_lock_subpages_internal (XomSub 0x7000 XOM_MODE_SLAT [0] 31 0) 10 [1] (toy_lib 0x7000 0) =
    Some ((0, XomSub 0x7000 XOM_MODE_SLAT [0] 31 0), set_errno e (toy_lib 0x7000 0)).
Proof. apply small_subpages_never_filled. vm_compute. split; [discriminate|reflexivity]. Defined.

Lemma references_overflow_ex :
  wp (xom_free_subpages_internal (toy_sub (s8 130)) 0x7000) (fun r _ => r = (1, None)) (toy_lib 0x7000 0).
Proof.
  apply (references_overflow _ 130); [apply toy_sub_wf|done|lia|]. vm_compute. split; [discriminate|reflexivity].
Defined.

Lemma mark_subpage_always_fails_ex :
  wp (xom_mark_register_clear_subpage (toy_sub 1) 1 0) (fun r _ => r = - EINVAL) (toy_lib 0x7000 0).
Proof. apply mark_subpage_always_fails; done. Defined.
