(* ===== verification/LibRegClear.v ===== *)
(** * Code that expects its registers to be cleared

    [expect_full_reg_clear__] of [libxom.c] and the macro
    [expect_full_register_clear] of [xom.h], which repeats a block of code
    when the hypervisor has cleared the registers: the error-checking mutex,
    the signal handler and the jump buffer they share. *)

From S2P Require Import Prelude.

Definition EDEADLK : Z := 35.

(** The mutex with its owner, the disposition of SIGSEGV, and whether the
    function that called [setjmp] has not returned yet. *)
Record rc_state := RcState {
  rc_owner : option Z;
  rc_sigsegv : Z;
  old_sig_handler : Z;
  rc_jmp_live : bool
}.

(** The address of [full_reg_clear_handler] *)
Definition FULL_REG_CLEAR_HANDLER : Z := 1.

(** [pthread_mutex_lock] of an error-checking mutex by thread [tid]; waiting
    for another thread that does not unlock never returns. *)
Definition mutex_lock (tid : Z) : M rc_state Z :=
  fun s => match rc_owner s with
           | None => Some (0, RcState (Some tid) (rc_sigsegv s) (old_sig_handler s) (rc_jmp_live s))
           | Some o => if o =? tid then Some (EDEADLK, s) else None
           end.

Definition mutex_unlock (tid : Z) : M rc_state unit :=
  modify (fun s => if bool_decide (rc_owner s = Some tid)
                   then RcState None (rc_sigsegv s) (old_sig_handler s) (rc_jmp_live s) else s).

(** [signal(SIGSEGV, h)] returns the previous handler. *)
Definition signal (h : Z) : M rc_state Z :=
  fun s => Some (rc_sigsegv s, RcState (rc_owner s) h (old_sig_handler s) (rc_jmp_live s)).

Definition set_old_handler (h : Z) : M rc_state unit :=
  modify (fun s => RcState (rc_owner s) (rc_sigsegv s) h (rc_jmp_live s)).

Definition set_jmp (live : bool) : M rc_state unit :=
  modify (fun s => RcState (rc_owner s) (rc_sigsegv s) (old_sig_handler s) live).

(** [longjmp] is undefined when the function that called [setjmp] has
    returned. *)
Definition full_reg_clear_handler : M rc_state unit :=
  let! s := get in if rc_jmp_live s then ret tt else ub.

Definition expect_full_reg_clear__ (xomfd tid : Z) : M rc_state Z :=
  let! lock_status := mutex_lock tid in
  if lock_status =? EDEADLK then
    do! (if 0 <=? xomfd then
           let! s := get in
           let! _ := signal (old_sig_handler s) in
           mutex_unlock tid
         else ret tt) in
    ret 0
  else if negb (lock_status =? 0) then ret 0
  else
    do! (if 0 <=? xomfd then
           let! old := signal FULL_REG_CLEAR_HANDLER in
           do! set_old_handler old in
           set_jmp true
         else ret tt) in
    do! set_jmp false in            (* the function returns *)
    ret 1.

(** A fault in the block: the handler that is installed, or the end of the
    process. *)
Definition deliver_sigsegv : M rc_state unit :=
  let! s := get in if rc_sigsegv s =? FULL_REG_CLEAR_HANDLER then full_reg_clear_handler else ub.

(** [expect_full_register_clear { body }]: how often the body runs.  [body]
    says whether the registers were cleared while it ran. *)
Fixpoint expect_block (fuel : nat) (xomfd tid : Z) (body : M rc_state bool) : M rc_state nat :=
  match fuel with
  | O => ub
  | S fuel =>
      let! r := expect_full_reg_clear__ xomfd tid in
      if r =? 0 then ret O
      else
        let! cleared := body in
        do! (if (cleared : bool) then deliver_sigsegv else ret tt) in
        let! n := expect_block fuel xomfd tid body in
        ret (S n)
  end.

(** Blocks of several threads, one after the other. *)
Fixpoint expect_blocks (xomfd : Z) (l : list (Z * M rc_state bool)) : M rc_state (list nat) :=
  match l with
  | [] => ret []
  | (tid, body) :: l =>
      let! n := expect_block 2 xomfd tid body in
      let! ns := expect_blocks xomfd l in
      ret (n :: ns)
  end.

(** ** Theorems *)

(** A body that is not interrupted. *)
Definition quiet (body : M rc_state bool) : Prop := forall s, body s = Some (false, s).

Lemma expect_first xomfd tid s : rc_owner s = None ->
  expect_full_reg_clear__ xomfd tid s =
    Some (1, if 0 <=? xomfd then RcState (Some tid) FULL_REG_CLEAR_HANDLER (rc_sigsegv s) false
             else RcState (Some tid) (rc_sigsegv s) (old_sig_handler s) false).
Proof. intros Ho. unfold expect_full_reg_clear__, mutex_lock, bind. rewrite Ho. by destruct (0 <=? xomfd). Qed.

Lemma expect_again xomfd tid s : rc_owner s = Some tid ->
  expect_full_reg_clear__ xomfd tid s =
    Some (0, if 0 <=? xomfd then RcState None (old_sig_handler s) (old_sig_handler s) (rc_jmp_live s) else s).
Proof.
  intros Ho. unfold expect_full_reg_clear__, mutex_lock, bind. rewrite Ho, Z.eqb_refl. cbn [Z.eqb].
  destruct (0 <=? xomfd); [|done]. cbn. by rewrite bool_decide_true.
Qed.

(** A block that is not interrupted, entered with the mutex free. *)
Lemma quiet_block xomfd tid body s : rc_owner s = None -> quiet body ->
  expect_block 2 xomfd tid body s =
    Some (1%nat, if 0 <=? xomfd then RcState None (rc_sigsegv s) (rc_sigsegv s) false
                 else RcState (Some tid) (rc_sigsegv s) (old_sig_handler s) false).
Proof.
  intros Ho Hb. cbn [expect_block]. unfold bind. rewrite expect_first by done. cbn [Z.eqb]. rewrite Hb. cbn [ret].
  rewrite expect_again by (by destruct (0 <=? xomfd)). by destruct (0 <=? xomfd).
Qed.

Lemma slat_block xomfd tid body s : 0 <= xomfd -> rc_owner s = None -> quiet body ->
  wp (expect_block 2 xomfd tid body)
    (fun n s' => n = 1%nat /\ rc_owner s' = None /\ rc_sigsegv s' = rc_sigsegv s) s.
Proof. intros Hfd Ho Hb. eexists _, _. split; [by apply quiet_block|]. by rewrite (proj2 (Z.leb_le _ _)). Qed.

(** C34: with the hypervisor's protection, blocks of any threads one after
    the other run exactly once each if they are not interrupted; each leaves
    the mutex free and the signal handler of the program in place. *)
Theorem expect_blocks_run_once xomfd l s : 0 <= xomfd -> rc_owner s = None -> Forall (fun b => quiet b.2) l ->
  wp (expect_blocks xomfd l)
    (fun ns s' => ns = repeat 1%nat (length l) /\ rc_owner s' = None /\ rc_sigsegv s' = rc_sigsegv s) s.
Proof.
  intros Hfd Ho Hl. revert s Ho. induction Hl as [|[tid body] l Hb _ IH]; intros s Ho; cbn [expect_blocks]; [by apply wp_ret|].
  apply wp_bind. eapply wp_mono; [by apply slat_block|]. intros n s1 (-> & Ho1 & Hs1).
  apply wp_bind. eapply wp_mono; [by apply IH|]. intros ns s2 (-> & Ho2 & Hs2). apply wp_ret. cbn. by rewrite Hs2, Hs1.
Qed.

Lemma pku_block xomfd tid body s : xomfd < 0 -> rc_owner s = None -> quiet body ->
  wp (expect_block 2 xomfd tid body) (fun n s' => n = 1%nat /\ rc_owner s' = Some tid) s.
Proof. intros Hfd Ho Hb. eexists _, _. split; [by apply quiet_block|]. by rewrite (proj2 (Z.leb_gt _ _)). Qed.

Lemma pku_block_skipped xomfd tid body s : xomfd < 0 -> rc_owner s = Some tid ->
  expect_block 2 xomfd tid body s = Some (O, s).
Proof.
  intros Hfd Ho. cbn [expect_block]. unfold bind. rewrite expect_again, (proj2 (Z.leb_gt _ _)) by done. done.
Qed.

(** With protection keys the mutex is never released: the first block
    runs, every later block of the same thread is skipped, and a block of
    another thread waits for ever. *)
Theorem expect_blocks_pku_skipped xomfd tid tid' body l body' s :
  xomfd < 0 -> rc_owner s = None -> quiet body -> tid' <> tid ->
  (exists s', expect_blocks xomfd ((tid, body) :: map (pair tid) l) s = Some (1%nat :: repeat 0%nat (length l), s')) /\
  expect_blocks xomfd ((tid, body) :: map (pair tid) l ++ [(tid', body')]) s = None.
Proof.
  intros Hfd Ho Hb Hne. destruct (pku_block xomfd tid body s Hfd Ho Hb) as (n & s1 & Hrun & -> & Ho1).
  cbn [expect_blocks]. unfold bind. rewrite Hrun. cbn [app]. clear Hrun Ho Hb s. revert s1 Ho1.
  induction l as [|b l IH]; intros s1 Ho1; cbn [map app expect_blocks length repeat].
  - split; [by eexists|]. cbn [expect_block]. unfold bind, expect_full_reg_clear__, mutex_lock, bind. rewrite Ho1.
    by rewrite (proj2 (Z.eqb_neq tid tid')) by congruence.
  - unfold bind. rewrite (pku_block_skipped _ _ _ _ Hfd Ho1). destruct (IH s1 Ho1) as [[s' H1] H2]. split.
    + destruct (expect_blocks xomfd _ s1) as [[ns s2]|]; [|done]. injection H1 as -> ->. by eexists.
    + by destruct (expect_blocks xomfd (_ ++ _) s1) as [[ns s2]|].
Qed.

(** The jump back into a block that was interrupted is undefined: the function
    that called [setjmp] has returned before the block begins. *)
Theorem interrupted_block_undefined fuel xomfd tid body s : rc_owner s = None -> (forall s, body s = Some (true, s)) ->
  expect_block fuel xomfd tid body s = None.
Proof.
  intros Ho Hb. destruct fuel as [|fuel]; [done|]. cbn [expect_block]. unfold bind. rewrite expect_first by done.
  cbn [Z.eqb]. rewrite Hb. unfold deliver_sigsegv, bind, get. destruct (0 <=? xomfd); [done|].
  cbn [rc_sigsegv]. by destruct (rc_sigsegv s =? FULL_REG_CLEAR_HANDLER).
Qed.

(** ** Examples *)

Definition rc_start : rc_state := RcState None 77 0 false.

Lemma expect_blocks_run_once_ex :
  wp (expect_blocks 3 [(1, ret false); (2, ret false); (1, ret false)])
    (fun ns s' => ns = repeat 1%nat 3 /\ rc_owner s' = None /\ rc_sigsegv s' = rc_sigsegv rc_start) rc_start.
Proof. apply (expect_blocks_run_once 3 [(1, ret false); (2, ret false); (1, ret false)]); [lia|done|by repeat constructor]. Defined.

Lemma expect_blocks_pku_skipped_ex :
  (exists s', expect_blocks (-1) [(1, ret false); (1, ret false)] rc_start = Some ([1; 0]%nat, s')) /\
  expect_blocks (-1) [(1, ret false); (1, ret false); (2, ret false)] rc_start = None.
Proof. apply (expect_blocks_pku_skipped (-1) 1 2 (ret false) [ret false] (ret false) rc_start); [lia|done|done|lia]. Defined.
