(* ===== verification/SubpagePool.v ===== *)
(** * The sub-page pool of the OpenSSL provider

    [xom_subpage_pool.cpp]: key material is placed into sub-pages of a growing
    list of execute-only buffers. *)

From S2P Require Import Prelude RbTree RbSpec RbHeap PageInfo XomDomain ModXom LibXom.

Definition POOL_BUFFER_SIZE : Z := Z.shiftl PAGE_SIZE 4.
Definition POOL_FREE_THRESHOLD : Z := POOL_BUFFER_SIZE / SUBPAGE_SIZE * 4 / 5.

(** The macro adds [SUBPAGE_SIZE], not 1, for a partial sub-page. *)
Definition bytes_to_subpages (x : Z) : Z :=
  x / SUBPAGE_SIZE + (if Z.land x (SUBPAGE_SIZE - 1) =? 0 then 0 else SUBPAGE_SIZE).

Definition page_addr (x : Z) : Z := Z.land x (u64 (Z.lnot (PAGE_SIZE - 1))).

(** [pl_subpages] is [None] once the object was freed. *)
Record subpage_list_entry := PoolEntry {
  pl_subpages : option xom_subpages;
  pl_last_page_marked : Z;
  pl_subpages_used : Z;
  pl_buffers_used : gset Z
}.

Definition new_entry (sp : xom_subpages) : subpage_list_entry := PoolEntry (Some sp) 0 0 ∅.

Record pstate (W : Type) := PState { subpage_pool : list subpage_list_entry; p_lib : lstate W }.
Arguments PState {W}.
Arguments subpage_pool {W}.
Arguments p_lib {W}.

Section pool.
Context {W : Type} `{Libc W}.

Definition on_lib {A} (m : M (lstate W) A) : M (pstate W) A :=
  fun s => match m (p_lib s) with Some (a, l) => Some (a, PState (subpage_pool s) l) | None => None end.
(** Following the pointer of an entry. *)
Definition deref (e : subpage_list_entry) : M (pstate W) xom_subpages :=
  match pl_subpages e with Some sp => ret sp | None => ub end.
Definition set_pool (l : list subpage_list_entry) : M (pstate W) unit :=
  modify (fun s => PState l (p_lib s)).

(** [update_entry(curr_entry, size, ret)] *)
Definition update_entry (e : subpage_list_entry) (size r : Z) : M (pstate W) subpage_list_entry :=
  let used := u64 (pl_subpages_used e + bytes_to_subpages size) in
  let! mode := on_lib get_xom_mode in
  let! marked :=
    (if (mode =? XOM_MODE_SLAT) && (pl_last_page_marked e <? page_addr r) then
       let! sp := deref e in
       do! on_lib (xom_mark_register_clear_subpage sp 0 ((r - sp_address sp) / PAGE_SIZE)) in
       ret (page_addr r)
     else ret (pl_last_page_marked e)) in
  ret (PoolEntry (pl_subpages e) marked used ({[r]} ∪ pl_buffers_used e)).

(** The loop over the pool from its end; [i] entries are left to look at. *)
Fixpoint pool_loop (i : nat) (data : list Z) (size : Z) : M (pstate W) Z :=
  match i with
  | O => ret 0
  | S i =>
      let! pool := gets subpage_pool in
      match pool !! i with
      | None => ub
      | Some e =>
          if u64 (POOL_BUFFER_SIZE / SUBPAGE_SIZE - pl_subpages_used e) <? bytes_to_subpages size
          then pool_loop i data size
          else
            let! sp := deref e in
            let! '(r, sp) := on_lib (xom_fill_and_lock_subpages sp size data) in
            let e := PoolEntry (Some sp) (pl_last_page_marked e) (pl_subpages_used e) (pl_buffers_used e) in
            if negb (r =? 0) then
              let! e := update_entry e size r in
              do! set_pool (<[i := e]> pool) in
              ret r
            else do! set_pool (<[i := e]> pool) in pool_loop i data size
      end
  end.

Definition subpage_pool_lock_into_xom (data : list Z) (size : Z) : M (pstate W) Z :=
  let! n := gets (fun s => length (subpage_pool s)) in
  let! r := pool_loop n data size in
  if negb (r =? 0) then ret r
  else
    let! new_subpages := on_lib (xom_alloc_subpages POOL_BUFFER_SIZE) in
    match new_subpages with
    | AllocNull => ret 0
    | AllocDangling => ub
    | AllocOk sp =>
        let! '(r, sp) := on_lib (xom_fill_and_lock_subpages sp size data) in
        if negb (r =? 0) then
          let! e := update_entry (new_entry sp) size r in
          let! pool := gets subpage_pool in
          do! set_pool (pool ++ [e]) in
          ret r
        else do! on_lib (xom_free_all_subpages sp) in ret 0
    end.

(** The predicate of [std::find_if]. *)
Definition not_in_entry (data : Z) (e : subpage_list_entry) : Prop := data ∉ pl_buffers_used e.

Definition subpage_pool_free (data : Z) : M (pstate W) unit :=
  if data =? 0 then ret tt
  else
    let! pool := gets subpage_pool in
    match list_find (not_in_entry data) pool with
    | None => ret tt
    | Some (i, e) =>
        let bufs := pl_buffers_used e ∖ {[data]} in
        let! sp := deref e in
        let! '(r, sp) := on_lib (xom_free_subpages sp data) in
        if (r =? 1) && (POOL_FREE_THRESHOLD <=? pl_subpages_used e) then set_pool (delete i pool)
        else set_pool (<[i := PoolEntry sp (pl_last_page_marked e) (pl_subpages_used e) bufs]> pool)
    end.

Fixpoint destroy_loop (l : list subpage_list_entry) : M (pstate W) unit :=
  match l with
  | [] => ret tt
  | e :: l => let! sp := deref e in do! on_lib (xom_free_all_subpages sp) in destroy_loop l
  end.

Definition destroy_subpage_pool : M (pstate W) unit :=
  let! pool := gets subpage_pool in
  do! destroy_loop pool in
  set_pool [].
End pool.
