(* ===== verification/SubpagePoolTheorems.v ===== *)
(** * What the sub-page pool guarantees

    Where a key ends up, and that freeing one does not give it back. *)

From S2P Require Import Prelude RbTree RbSpec RbHeap PageInfo XomDomain ModXom LibXom LibXomTheorems SubpagePool.

(** The addresses of an object. *)
Definition in_object (sp : xom_subpages) (a : Z) : Prop :=
  sp_address sp <= a < sp_address sp + sp_num_subpages sp * SUBPAGE_SIZE.

(** Every entry owns a valid object that contains the buffers recorded for it,
    and the objects do not overlap. *)
Record pool_wf (pool : list subpage_list_entry) : Prop := {
  pw_entry : forall i e, pool !! i = Some e -> exists sp, pl_subpages e = Some sp /\ sub_wf sp /\
    forall b, b ∈ pl_buffers_used e -> in_object sp b;
  pw_disjoint : forall i j e e' sp sp' a, pool !! i = Some e -> pool !! j = Some e' ->
    pl_subpages e = Some sp -> pl_subpages e' = Some sp' -> in_object sp a -> in_object sp' a -> i = j
}.

Section pool.
Context {W : Type} `{Libc W}.

Lemma wp_on_lib {A} (m : M (lstate W) A) (Q : A -> pstate W -> Prop) s :
  wp m (fun a l => Q a (PState (subpage_pool s) l)) (p_lib s) -> wp (on_lib m) Q s.
Proof. intros (a & l & Hm & HQ). eexists _, _. unfold on_lib. by rewrite Hm. Qed.

Lemma prologue_safe (s : lstate W) : lib_lock s = false -> wp libxom_prologue (fun _ s' => lib_lock s' = true) s.
Proof.
  intros Hl. unfold libxom_prologue. apply wp_bind. eexists tt, _.
  split; [unfold lib_mutex_lock; by rewrite Hl|]. apply wp_bind, wp_get.
  destruct (_ && _); [|by apply wp_ret].
  apply wp_bind, wp_modify, wp_bind, wp_lcall, wp_modify. done.
Qed.

Lemma wrap_call_safe {A} (m : M (lstate W) A) (Q : A -> Prop) s :
  lib_lock s = false -> (forall s', wp m (fun a _ => Q a) s') ->
  wp (wrap_call m) (fun a s' => Q a /\ lib_lock s' = false) s.
Proof.
  intros Hl Hm. unfold wrap_call. apply wp_bind. eapply wp_mono; [by apply prologue_safe|].
  intros [] s1 _. apply wp_bind. eapply wp_mono; [apply Hm|]. intros a s2 Ha.
  by apply wp_bind, wp_modify, wp_ret.
Qed.

Lemma free_outside sp a (s : lstate W) :
  sub_wf sp -> 0 <= a -> ~ in_object sp a -> wp (xom_free_subpages_internal sp a) (fun r _ => r = (-1, Some sp)) s.
Proof.
  intros Hw Ha Hn. unfold xom_free_subpages_internal. destruct (sw_num _ Hw), (sw_addr _ Hw).
  unfold in_object in Hn. change SUBPAGE_SIZE with 128 in *. change ALLOC_CHUNK_SIZE with 4194304 in *.
  destruct (Z.ltb_spec a (sp_address sp)); [by apply wp_ret|].
  assert (u64 (sp_num_subpages sp * 128) = sp_num_subpages sp * 128) as -> by (unfold u64; rewrite Z.mod_small; zdiv).
  assert (u64 (sp_address sp + sp_num_subpages sp * 128) = sp_address sp + sp_num_subpages sp * 128) as ->
    by (unfold u64; rewrite Z.mod_small; zdiv).
  destruct (Z.leb_spec (sp_address sp + sp_num_subpages sp * 128) a); [by apply wp_ret|lia].
Qed.

(** Freeing a buffer of the pool frees nothing: [subpage_pool_free] looks
    for an entry that does not contain the buffer, so whatever the pool, every
    entry, its sub-pages and its record of buffers are the same afterwards,
    and the key stays where it is. *)
Theorem subpage_pool_free_leaks data j e s :
  pool_wf (subpage_pool s) -> lib_lock (p_lib s) = false -> 0 < data ->
  subpage_pool s !! j = Some e -> data ∈ pl_buffers_used e ->
  wp (subpage_pool_free data) (fun _ s' => subpage_pool s' = subpage_pool s /\ lib_lock (p_lib s') = false) s.
Proof.
  intros Hw Hl Hd Hj He. unfold subpage_pool_free. destruct (Z.eqb_spec data 0); [lia|].
  apply wp_bind, wp_gets. destruct (list_find _ _) as [[i e']|] eqn:Hf; [|by apply wp_ret].
  apply list_find_Some in Hf as (Hi & Hne & _).
  destruct (pw_entry _ Hw _ _ Hi) as (sp' & Hsp' & Hw' & _). destruct (pw_entry _ Hw _ _ Hj) as (sp & Hsp & _ & Hin).
  assert (~ in_object sp' data) as Hout.
  { intros Hc. assert (i = j) as -> by (by eapply (pw_disjoint _ Hw i j e' e sp' sp data); auto).
    rewrite Hi in Hj. injection Hj as ->. by apply Hne. }
  unfold deref. rewrite Hsp'. apply wp_bind, wp_ret, wp_bind, wp_on_lib.
  eapply wp_mono; [apply (wrap_call_safe _ (fun r => r = (-1, Some sp')) (p_lib s) Hl)|].
  { intros s'. apply free_outside; [done|lia|done]. }
  intros x l [-> Hl']. cbn [Z.eqb andb]. apply wp_modify. split; [|done]. cbn [subpage_pool].
  apply list_insert_id. rewrite Hi. f_equal. destruct e' as [sp0 lm used bufs]. cbn in *. subst sp0. f_equal.
  apply leibniz_equiv. unfold not_in_entry in Hne. cbn in Hne. set_solver.
Qed.

(** A request that is not a multiple of a sub-page is counted as at least
    128 sub-pages, so a buffer of 512 sub-pages takes at most three of them,
    however small. *)
Theorem pool_capacity size used :
  0 <= size < 2 ^ 32 -> Z.land size (SUBPAGE_SIZE - 1) <> 0 -> 0 <= used <= POOL_BUFFER_SIZE / SUBPAGE_SIZE ->
  (u64 (POOL_BUFFER_SIZE / SUBPAGE_SIZE - used) <? bytes_to_subpages size) = false ->
  used + 128 <= POOL_BUFFER_SIZE / SUBPAGE_SIZE /\
  u64 (used + bytes_to_subpages size) = used + bytes_to_subpages size /\ used + 128 <= used + bytes_to_subpages size.
Proof.
  change (POOL_BUFFER_SIZE / SUBPAGE_SIZE) with 512. intros Hs Hm Hu Hc.
  assert (u64 (512 - used) = 512 - used) as Hu' by (unfold u64; rewrite Z.mod_small; lia). rewrite Hu' in Hc.
  apply Z.ltb_ge in Hc. unfold bytes_to_subpages in *. destruct (Z.eqb_spec (Z.land size (SUBPAGE_SIZE - 1)) 0); [done|].
  change SUBPAGE_SIZE with 128 in *. assert (0 <= size / 128 < 2 ^ 32) by zdiv.
  split; [lia|]. split; [|lia]. unfold u64. rewrite Z.mod_small; lia.
Qed.
End pool.

(** ** Examples *)

Definition toy_pool : pstate toy_process :=
  PState [PoolEntry (Some (toy_sub 1)) 0 129 {[0x7000]}] (toy_lib 0x7000 0).

Lemma toy_pool_wf : pool_wf (subpage_pool toy_pool).
Proof.
  split.
  - intros [|i] e Hi; [|done]. injection Hi as <-. exists (toy_sub 1). split_and!; [done|apply toy_sub_wf|].
    intros b Hb. cbn in Hb. apply elem_of_singleton in Hb as ->. vm_compute. split; [discriminate|reflexivity].
  - intros [|i] [|j] e e' sp sp' a Hi Hj; done.
Qed.

Lemma subpage_pool_free_leaks_ex :
  wp (subpage_pool_free 0x7000)
     (fun _ s' => subpage_pool s' = subpage_pool toy_pool /\ lib_lock (p_lib s') = false) toy_pool.
Proof. eapply (subpage_pool_free_leaks 0x7000 0); [apply toy_pool_wf|done|lia|done|vm_compute; reflexivity]. Defined.

Lemma pool_capacity_ex :
  258 + 128 <= POOL_BUFFER_SIZE / SUBPAGE_SIZE /\
  u64 (258 + bytes_to_subpages 200) = 258 + bytes_to_subpages 200 /\ 258 + 128 <= 258 + bytes_to_subpages 200.
Proof. apply pool_capacity; [lia|by vm_compute|by vm_compute|by vm_compute]. Defined.
