(* ===== verification/CHeap.v ===== *)
(** * The C heap of the provider

    The objects that the contexts of the provider share: blocks of bytes and
    reference counters, by address, beside the state of what the provider
    calls. *)

From S2P Require Import Prelude.

(** [heap_alloc] is the allocator: an address outside the set of those in use;
    [heap_junk] what new memory holds. *)
Class HeapEnv := { heap_alloc : gset Z -> Z; heap_junk : nat -> list Z }.

Class HeapLaws `{HeapEnv} := {
  heap_alloc_spec : forall used, heap_alloc used <> 0 /\ heap_alloc used ∉ used;
  heap_junk_length : forall n, length (heap_junk n) = n }.

Record gstate (V : Type) := GState { gs_refs : gmap Z Z; gs_heap : gmap Z (list Z); gs_env : V }.
Arguments GState {V}.
Arguments gs_refs {V}.
Arguments gs_heap {V}.
Arguments gs_env {V}.

Section heap.
Context {V : Type} `{HeapEnv}.
Abbreviation M := (M (gstate V)).

Definition gin_env {A} (m : Prelude.M V A) : M A :=
  fun s => match m (gs_env s) with
           | Some (a, e) => Some (a, GState (gs_refs s) (gs_heap s) e) | None => None end.

Definition glift {A} (o : option A) : M A := match o with Some a => ret a | None => ub end.

(** An allocation that is not checked: a null pointer is used. *)
Definition gmalloc (bytes : list Z) : M Z :=
  fun s => let a := heap_alloc (dom (gs_heap s)) in
           if a =? 0 then None else Some (a, GState (gs_refs s) (<[a := bytes]> (gs_heap s)) (gs_env s)).

(** [free(p)]; freeing what is not allocated is undefined. *)
Definition gfree (p : Z) : M unit :=
  fun s => if p =? 0 then Some (tt, s)
           else match gs_heap s !! p with
                | Some _ => Some (tt, GState (gs_refs s) (delete p (gs_heap s)) (gs_env s))
                | None => None
                end.

Definition gload (p : Z) : M (list Z) :=
  fun s => match gs_heap s !! p with Some l => Some (l, s) | None => None end.

Definition gstore (p : Z) (bytes : list Z) : M unit :=
  fun s => match gs_heap s !! p with
           | Some _ => Some (tt, GState (gs_refs s) (<[p := bytes]> (gs_heap s)) (gs_env s))
           | None => None
           end.

Definition set_refcount (p n : Z) : M unit :=
  modify (fun s => GState (<[p := n]> (gs_refs s)) (gs_heap s) (gs_env s)).
End heap.

(** ** Lemmas *)

Section heap_lemmas.
Context {V : Type} `{HeapLaws}.
Implicit Types (s : gstate V).

Lemma wp_glift {A} (o : option A) a (Q : A -> gstate V -> Prop) s : o = Some a -> Q a s -> wp (glift o) Q s.
Proof. intros -> HQ. by apply wp_ret. Qed.

Lemma wp_gmalloc (Q : Z -> gstate V -> Prop) bytes s :
  (forall p, p <> 0 -> gs_heap s !! p = None -> Q p (GState (gs_refs s) (<[p := bytes]> (gs_heap s)) (gs_env s))) ->
  wp (gmalloc bytes) Q s.
Proof.
  intros HQ. destruct (heap_alloc_spec (dom (gs_heap s))) as [Hnz Hfr].
  unfold gmalloc, wp. rewrite (proj2 (Z.eqb_neq _ _)) by done.
  eexists _, _. split; [done|]. apply HQ; [done|]. by apply not_elem_of_dom.
Qed.

Lemma wp_gload (Q : list Z -> gstate V -> Prop) p l s : gs_heap s !! p = Some l -> Q l s -> wp (gload p) Q s.
Proof. intros Hp HQ. exists l, s. unfold gload. by rewrite Hp. Qed.

Lemma wp_gstore (Q : unit -> gstate V -> Prop) p l bytes s : gs_heap s !! p = Some l ->
  Q tt (GState (gs_refs s) (<[p := bytes]> (gs_heap s)) (gs_env s)) -> wp (gstore p bytes) Q s.
Proof. intros Hp HQ. eexists _, _. unfold gstore. by rewrite Hp. Qed.

Lemma wp_gfree (Q : unit -> gstate V -> Prop) p s :
  (p = 0 -> Q tt s) ->
  (p <> 0 -> is_Some (gs_heap s !! p) /\ Q tt (GState (gs_refs s) (delete p (gs_heap s)) (gs_env s))) ->
  wp (gfree p) Q s.
Proof.
  intros Hz Hn. unfold gfree, wp. destruct (Z.eqb_spec p 0) as [->|Hp]; [by eauto|].
  destruct (Hn Hp) as [[l ->] HQ]. eauto.
Qed.
End heap_lemmas.
