(* ===== verification/Gctr.v ===== *)
(** * The counter-mode routine of the OpenSSL provider and its callers' tools

    [aes_xom.h] and [xom_aes_common.c]: the alignment macros, the key patching
    and the call of the assembly routine, which runs in execute-only memory
    and stops early when the hypervisor cleared the registers under it.  The
    second half is the specification of counter mode the models of AES-CTR and
    AES-GCM are proved against. *)

From S2P Require Import Prelude XomDomain ModXom.

Definition AES_128_CTR_IV_SIZE : Z := 16.
Definition AES_128_CTR_KEY_SIZE : Z := 16.
Definition AES_128_CTR_BLOCK_SIZE : Z := 16.
Definition AVX2_ALIGNMENT : Z := 32.
Definition MOV_OPCODE_SIZE : nat := 2.

(** ** The environment

    [gctr_code v] are the bytes of [aes_vaes_gctr_linear] ([v] is true) or
    [aes_aesni_gctr_linear], [key_lo v] and [key_hi v] the offsets of the two
    instructions that load the key.  The pool puts code into execute-only
    sub-pages and returns its address.  [call_aes_implementation icb x n f v]
    runs the code at [f] on [n] blocks of [x]: the bytes it stored to the
    output and the number of blocks it says remain. *)
Class GctrEnv (V : Type) := {
  gctr_code : bool -> list Z;
  key_lo : bool -> nat;
  key_hi : bool -> nat;
  pool_lock : list Z -> M V Z;
  pool_free : Z -> M V unit;
  call_aes_implementation : list Z -> list Z -> Z -> Z -> bool -> V -> (list Z * Z) * V
}.

(** ** Buffers *)

(** A store of [src] at [off] of a buffer; undefined outside of it. *)
Definition store_at (off : nat) (src dst : list Z) : option (list Z) :=
  if decide (off + length src <= length dst)%nat then Some (splice off src dst) else None.

(** [(len & ~(alignment - 1)) + ((len % alignment) ? alignment : 0)] *)
Definition aligned_size (len : Z) : Z :=
  len / AVX2_ALIGNMENT * AVX2_ALIGNMENT + (if len mod AVX2_ALIGNMENT =? 0 then 0 else AVX2_ALIGNMENT).

(** [make_aligned] and [make_const_aligned]: the buffer the code works on, a
    copy unless the pointer is aligned ([al]). *)
Definition make_aligned (al : bool) (buf : list Z) (len : Z) : option (list Z) :=
  if al then Some buf
  else if decide (Z.to_nat len <= length buf)%nat
       then Some (take (Z.to_nat len) buf ++ repeat 0 (Z.to_nat (aligned_size len - len)))
       else None.

(** [free_aligned]: a copy is copied back. *)
Definition free_aligned (al : bool) (work backup : list Z) (len : Z) : list Z :=
  if al then work else splice 0 (take (Z.to_nat len) work) backup.

Definition is_aligned (addr : Z) : bool := addr mod AVX2_ALIGNMENT =? 0.

(** The two buffers of a cipher call.  With [alias] they are the same memory. *)
Record bufs := Bufs { b_in : list Z; b_out : list Z }.

Definition store_out (alias : bool) (off : nat) (y : list Z) (b : bufs) : option bufs :=
  match store_at off y (b_out b) with
  | Some out => Some (Bufs (if alias then out else b_in b) out)
  | None => None
  end.

(** ** Counter and key *)

(** [ctr.b[i] = iv[15 - i]] for the four bytes of the counter. *)
Definition load_ctr (iv : list Z) : Z := le_bytes (rev (take 4 (drop 12 iv))).
(** [iv[15 - i] = ctr.b[i]] *)
Definition store_ctr (d : Z) (iv : list Z) : list Z :=
  take 12 iv ++ rev (map (fun i => u8 (Z.shiftr d (8 * Z.of_nat i))) (seq 0 4)).

#[global] Arguments load_ctr : simpl never.
#[global] Arguments store_ctr : simpl never.

Section gctr.
Context {V : Type} `{GctrEnv V}.

(** [setup_vaes_128_key] and [setup_aesni_128_key]: the two halves of the key
    go into the immediates of two [mov] instructions. *)
Definition setup_128_key (v : bool) (dest key : list Z) : list Z :=
  splice (key_hi v + MOV_OPCODE_SIZE) (take 8 (drop 8 key))
    (splice (key_lo v + MOV_OPCODE_SIZE) (take 8 key) dest).

(** The key that code reads from its immediates. *)
Definition code_key (v : bool) (code : list Z) : list Z :=
  take 8 (drop (key_lo v + MOV_OPCODE_SIZE) code) ++ take 8 (drop (key_hi v + MOV_OPCODE_SIZE) code).
End gctr.

(** ** Counter mode

    [E key block] is the block cipher.  Byte [j] of the key stream of counter
    block [icb] comes from block [j / 16]; the last 32 bits of the counter
    block count, big-endian and modulo 2^32. *)
Definition ctr_block (icb : list Z) (i : Z) : list Z := store_ctr (u32 (load_ctr icb + i)) icb.

Definition keystream (E : list Z -> list Z -> list Z) (key icb : list Z) (j : nat) : Z :=
  nth (j mod 16) (E key (ctr_block icb (Z.of_nat (j / 16)))) 0.

Definition gctr (E : list Z -> list Z -> list Z) (key icb x : list Z) : list Z :=
  imap (fun j b => Z.lxor b (keystream E key icb j)) x.

(** ** What the callers rely on

    [code_at e f]: what the execute-only memory at [f] holds.  [clears_left]
    bounds how often the registers are going to be cleared: every early stop
    uses one up.  [call_aes_spec] is the contract stated in the routine's
    comments ("were our registers cleared? if so, abort and tell caller where
    to restart", "return the amount of remaining blocks"): the blocks before
    the one it stopped in are encrypted, the rest of what it stored is
    arbitrary.  The AVX2 routine works on pairs of blocks, so that it obeys
    this contract for even counts. *)
Class GctrLaws (V : Type) `{GctrEnv V} := {
  block_cipher : list Z -> list Z -> list Z;
  code_at : V -> Z -> option (list Z);
  clears_left : V -> nat;
  key_layout : forall v, (key_lo v + 10 <= key_hi v)%nat /\ (key_hi v + 10 <= length (gctr_code v))%nat;
  pool_lock_spec : forall code e, wp (pool_lock code)
    (fun f e' => (f <> 0 -> code_at e' f = Some code) /\ clears_left e' = clears_left e /\
       forall g, g <> 0 -> code_at e g <> None -> code_at e' g = code_at e g) e;
  call_aes_spec : forall icb x n f v key e y rem e',
    code_at e f = Some (setup_128_key v (gctr_code v) key) -> length key = 16%nat ->
    length icb = 16%nat -> 0 < n -> length x = Z.to_nat (16 * n) -> (v = true -> Z.Even n) ->
    call_aes_implementation icb x n f v e = ((y, rem), e') ->
    0 <= rem <= n /\ (v = true -> Z.Even rem) /\
    (Z.to_nat (16 * (n - rem)) <= length y <= Z.to_nat (16 * n))%nat /\
    take (Z.to_nat (16 * (n - rem))) y = take (Z.to_nat (16 * (n - rem))) (gctr block_cipher (code_key v (setup_128_key v (gctr_code v) key)) icb x) /\
    (forall g, code_at e' g = code_at e g) /\
    (rem = 0 -> (clears_left e' <= clears_left e)%nat) /\
    (rem <> 0 -> (clears_left e' < clears_left e)%nat)
}.

(** ** Lemmas *)

Lemma u32_small z : 0 <= z < 2 ^ 32 -> u32 z = z.
Proof. intros Hz. unfold u32. by apply Z.mod_small. Qed.

Lemma land_lnot_15 z : Z.land z (Z.lnot 15) = 16 * (z / 16).
Proof.
  change 15 with (Z.ones 4). rewrite <- Z.ldiff_land, Z.ldiff_ones_r by lia.
  rewrite Z.shiftl_mul_pow2, Z.shiftr_div_pow2 by lia. change (2 ^ 4) with 16. lia.
Qed.

Lemma length_store_ctr d iv : length iv = 16%nat -> length (store_ctr d iv) = 16%nat.
Proof. intros Hl. unfold store_ctr. rewrite length_app, length_take, length_rev, length_map, length_seq. lia. Qed.

Lemma load_store_ctr d iv : length iv = 16%nat -> 0 <= d < 2 ^ 32 -> load_ctr (store_ctr d iv) = d.
Proof.
  intros Hl Hd. unfold load_ctr, store_ctr.
  rewrite drop_app_length' by (rewrite length_take; lia).
  rewrite take_ge by (rewrite length_rev, length_map, length_seq; lia).
  rewrite rev_involutive. cbn -[Z.shiftr Z.pow Z.mul].
  rewrite !Z.shiftr_div_pow2 by lia. unfold u8. cbn -[Z.div Z.modulo]. zdiv.
Qed.

Lemma store_store_ctr d d' iv : length iv = 16%nat -> store_ctr d (store_ctr d' iv) = store_ctr d iv.
Proof.
  intros Hl. unfold store_ctr. f_equal.
  rewrite take_app_le by (rewrite length_take; lia). rewrite take_take. f_equal; lia.
Qed.

Lemma length_ctr_block icb i : length icb = 16%nat -> length (ctr_block icb i) = 16%nat.
Proof. apply length_store_ctr. Qed.

Lemma ctr_block_add icb i j : length icb = 16%nat -> ctr_block (ctr_block icb i) j = ctr_block icb (i + j).
Proof.
  intros Hl. unfold ctr_block. rewrite load_store_ctr, store_store_ctr by (done || (unfold u32; zdiv)).
  f_equal. unfold u32. zdiv.
Qed.

Section stream.
Context (E : list Z -> list Z -> list Z) (key : list Z).

Lemma keystream_shift icb q j : length icb = 16%nat ->
  keystream E key (ctr_block icb (Z.of_nat q)) j = keystream E key icb (16 * q + j).
Proof.
  intros Hl. unfold keystream. rewrite ctr_block_add by done.
  replace ((16 * q + j) mod 16)%nat with (j mod 16)%nat
    by (rewrite (Nat.mul_comm 16 q), Nat.add_comm, Nat.Div0.mod_add; done).
  replace ((16 * q + j) / 16)%nat with (q + j / 16)%nat
    by (rewrite (Nat.mul_comm 16 q), Nat.div_add_l by lia; done).
  do 3 f_equal. lia.
Qed.

(** The counter block after [n] blocks; none leave it as it is. *)
Definition next_icb (icb : list Z) (n : nat) : list Z :=
  if decide (n = O) then icb else ctr_block icb (Z.of_nat n).

Lemma length_next_icb icb n : length icb = 16%nat -> length (next_icb icb n) = 16%nat.
Proof. intros Hl. unfold next_icb. destruct (decide _); [done|]. by apply length_ctr_block. Qed.

Lemma next_icb_add icb n m : length icb = 16%nat -> next_icb (next_icb icb n) m = next_icb icb (n + m).
Proof.
  intros Hl. unfold next_icb. destruct (decide (n = O)) as [->|], (decide (m = O)) as [->|];
    rewrite ?Nat.add_0_r; repeat (destruct (decide _); [lia || done|]); rewrite ?ctr_block_add by done;
    f_equal; lia.
Qed.

Lemma length_gctr icb x : length (gctr E key icb x) = length x.
Proof. apply length_imap. Qed.

(** Encryption can be cut at a block boundary. *)
Lemma gctr_app icb x y q : length icb = 16%nat -> length x = (16 * q)%nat ->
  gctr E key icb (x ++ y) = gctr E key icb x ++ gctr E key (ctr_block icb (Z.of_nat q)) y.
Proof.
  intros Hl Hx. unfold gctr. rewrite imap_app. f_equal. apply imap_ext.
  intros j b _. cbn. by rewrite keystream_shift, Hx.
Qed.

Lemma gctr_next icb x y q : length icb = 16%nat -> length x = (16 * q)%nat ->
  gctr E key icb (x ++ y) = gctr E key icb x ++ gctr E key (next_icb icb q) y.
Proof.
  intros Hl Hx. unfold next_icb. destruct (decide (q = O)) as [->|]; [|by apply gctr_app].
  destruct x; [done|cbn in Hx; lia].
Qed.

Lemma gctr_take icb x n : gctr E key icb (take n x) = take n (gctr E key icb x).
Proof.
  unfold gctr. apply list_eq. intros j.
  destruct (decide (j < n)%nat) as [Hj|Hj].
  - by rewrite list_lookup_imap, !lookup_take_lt, list_lookup_imap by done.
  - by rewrite list_lookup_imap, !lookup_take_ge by lia.
Qed.
End stream.

Lemma take_drop_splice_same off n src dst : length src = n -> (off + n <= length dst)%nat ->
  take n (drop off (splice off src dst)) = src.
Proof.
  intros Hn Hd. unfold splice. rewrite drop_app_length' by (rewrite length_take; lia).
  by rewrite take_app_length'.
Qed.

Lemma take_drop_splice_below off off' n src dst : (off' + n <= off)%nat -> (off <= length dst)%nat ->
  take n (drop off' (splice off src dst)) = take n (drop off' dst).
Proof.
  intros Hn Hd. unfold splice. rewrite drop_app_le by (rewrite length_take; lia).
  rewrite take_app_le by (rewrite length_drop, length_take; lia).
  replace off with (off' + (off - off'))%nat at 1 by lia.
  rewrite <- take_drop_commute, take_take. f_equal. lia.
Qed.

Lemma take_drop_splice_le off k y dst : (k <= length y)%nat -> (off <= length dst)%nat ->
  take k (drop off (splice off y dst)) = take k y.
Proof.
  intros Hk Hd. unfold splice. rewrite drop_app_length' by (rewrite length_take; lia).
  by rewrite take_app_le.
Qed.

(** A second store that overwrites the end of a first one. *)
Lemma splice_splice off k y z dst : (k <= length y <= k + length z)%nat ->
  (off + k + length z <= length dst)%nat ->
  splice (off + k) z (splice off y dst) = splice off (take k y ++ z) dst.
Proof.
  intros Hy Hd. unfold splice.
  assert (Hoff : length (take off dst) = off) by (rewrite length_take; lia).
  rewrite (take_app_ge (take off dst)) by lia. rewrite Hoff.
  replace (off + k - off)%nat with k by lia. rewrite (take_app_le y) by lia.
  rewrite <- !app_assoc. do 3 f_equal.
  rewrite length_app, length_take, (drop_app_ge (take off dst)) by lia. rewrite Hoff.
  rewrite drop_app_ge, drop_drop by lia. f_equal. lia.
Qed.

Lemma splice_nil off dst : splice off [] dst = dst.
Proof. unfold splice. cbn. by rewrite Nat.add_0_r, take_drop. Qed.

Lemma take_splice x n out : length x = n -> take n (splice 0 x out) = x.
Proof. intros Hx. unfold splice. rewrite take_0. cbn [app]. by apply take_app_length'. Qed.

Lemma drop_splice off y dst : (off <= length dst)%nat ->
  drop (off + length y) (splice off y dst) = drop (off + length y) dst.
Proof.
  intros Hd. unfold splice. rewrite app_assoc, drop_app_length'; [done|].
  rewrite length_app, length_take. lia.
Qed.

(** What lies behind a store at the start of a buffer stays. *)
Lemma drop_take_splice (y out : list Z) n k : length y = k ->
  drop k (take n (splice 0 y out)) = drop k (take n out).
Proof.
  intros Hy. unfold splice. rewrite take_0, !skipn_firstn_comm. cbn [app Nat.add].
  by rewrite drop_app_length', Hy.
Qed.

(** Two stores, one after the other. *)
Lemma splice_seq x y out k : length x = k -> (k <= length out)%nat ->
  take k (splice 0 x out) ++ splice 0 y (drop k (splice 0 x out)) = splice 0 (x ++ y) out.
Proof.
  intros Hx Hk. unfold splice. rewrite !take_0. cbn [app Nat.add].
  rewrite take_app_length', drop_app_length' by lia.
  by rewrite drop_drop, length_app, <- app_assoc.
Qed.

(** Working on a copy or on the buffer itself is the same, as long as the
    stores stay inside the first [len] bytes. *)
Lemma make_aligned_spec al buf len : (Z.to_nat len <= length buf)%nat ->
  exists w, make_aligned al buf len = Some w /\ (Z.to_nat len <= length w)%nat /\
    take (Z.to_nat len) w = take (Z.to_nat len) buf.
Proof.
  intros Hl. unfold make_aligned. destruct al; [by eauto|]. rewrite decide_True by done.
  eexists; split_and!; [done| |].
  - rewrite length_app, length_take. lia.
  - rewrite take_app_le by (rewrite length_take; lia). rewrite take_take. f_equal. lia.
Qed.

Lemma free_aligned_spec al buf w len y : make_aligned al buf len = Some w -> length y = Z.to_nat len ->
  (Z.to_nat len <= length buf)%nat -> free_aligned al (splice 0 y w) buf len = splice 0 y buf.
Proof.
  unfold make_aligned, free_aligned. intros Hw Hy Hl. destruct al; [by simplify_eq|].
  by rewrite take_splice.
Qed.

Section patching.
Context {V : Type} `{GctrLaws V}.

(** The patched code loads exactly the key, whatever the key is. *)
Lemma code_key_setup v key : length key = 16%nat ->
  code_key v (setup_128_key v (gctr_code v) key) = key.
Proof.
  intros Hk. destruct (key_layout v) as [H1 H2]. unfold code_key, setup_128_key, MOV_OPCODE_SIZE.
  rewrite (take_ge (drop 8 key)) by (rewrite length_drop; lia).
  assert (Hl : length (take 8 key) = 8%nat) by (rewrite length_take; lia).
  assert (Hd : length (drop 8 key) = 8%nat) by (rewrite length_drop; lia).
  assert (Hs : length (splice (key_lo v + 2) (take 8 key) (gctr_code v)) = length (gctr_code v))
    by (apply splice_length; lia).
  rewrite take_drop_splice_below, !take_drop_splice_same by lia.
  apply take_drop.
Qed.

(** What a run of the routine does not change; it may use up interruptions. *)
Definition run_step (e e' : V) : Prop :=
  (forall f, code_at e' f = code_at e f) /\ (clears_left e' <= clears_left e)%nat.

Lemma run_step_refl e : run_step e e.
Proof. by split. Qed.

Lemma run_step_trans e1 e2 e3 : run_step e1 e2 -> run_step e2 e3 -> run_step e1 e3.
Proof. intros [C1 L1] [C2 L2]. split; [|lia]. intros f. by rewrite C2, C1. Qed.

(** A run of keyed code encrypts the blocks it does not leave. *)
Lemma call_aes_correct icb x n f v key e y rem e' :
  code_at e f = Some (setup_128_key v (gctr_code v) key) -> length key = 16%nat ->
  length icb = 16%nat -> 0 < n -> length x = Z.to_nat (16 * n) -> (v = true -> Z.Even n) ->
  call_aes_implementation icb x n f v e = ((y, rem), e') -> let k := Z.to_nat (16 * (n - rem)) in
  run_step e e' /\ 0 <= rem <= n /\ (v = true -> Z.Even rem) /\ (k <= length y <= Z.to_nat (16 * n))%nat /\
  take k y = gctr block_cipher key icb (take k x) /\ (rem <> 0 -> (clears_left e' < clears_left e)%nat).
Proof.
  intros Hf Hk Hi Hn Hx Hev Hcall k.
  destruct (call_aes_spec _ _ _ _ _ key _ _ _ _ Hf Hk Hi Hn Hx Hev Hcall) as (R1 & R2 & R3 & R4 & R5 & R6 & R7).
  rewrite code_key_setup in R4 by done. fold k in R3, R4. rewrite gctr_take.
  split_and!; try done; try lia. split; [done|]. destruct (decide (rem = 0)) as [Hr|Hr]; [by apply R6|].
  specialize (R7 Hr). lia.
Qed.
End patching.
