(* ===== verification/GctrToy.v ===== *)
(** * A concrete provider environment

    An instance of the environment of the ciphers, for the witnesses: a block
    cipher that adds the key to the block, a pool that never runs out, and a
    routine that is interrupted in its first block as often as its state says. *)

From S2P Require Import Prelude XomDomain ModXom Gctr.

Record toy_env := ToyEnv { te_code : gmap Z (list Z); te_clears : nat }.

Definition toy_cipher (key blk : list Z) : list Z := zip_with (fun a b => u8 (a + 3 * b)) key blk.

Definition toy_layout_lo : nat := 4.
Definition toy_layout_hi : nat := 14.
Definition toy_code : list Z := repeat 0x90 32.

Definition toy_key (code : list Z) : list Z :=
  take 8 (drop (toy_layout_lo + 2) code) ++ take 8 (drop (toy_layout_hi + 2) code).

(** The AVX2 routine counts in pairs of blocks. *)
Definition toy_remaining (v : bool) (n : Z) : Z := if v then 2 * ((n + 1) / 2) else n.

Definition toy_call (icb x : list Z) (n f : Z) (v : bool) (e : toy_env) : (list Z * Z) * toy_env :=
  match te_code e !! f, te_clears e with
  | Some code, O => ((gctr toy_cipher (toy_key code) icb x, 0), e)
  | _, O => ((repeat 0 (Z.to_nat (16 * n)), 0), e)
  | _, S c => ((repeat 0xcc 16, toy_remaining v n), ToyEnv (te_code e) c)
  end.

#[export] Instance toy_gctr : GctrEnv toy_env := {|
  gctr_code := fun _ => toy_code;
  key_lo := fun _ => toy_layout_lo;
  key_hi := fun _ => toy_layout_hi;
  pool_lock := fun code e =>
    let f := fresh ({[0]} ∪ dom (te_code e)) in
    Some (f, ToyEnv (<[f := code]> (te_code e)) (te_clears e));
  pool_free := fun f e => Some (tt, ToyEnv (delete f (te_code e)) (te_clears e));
  call_aes_implementation := toy_call
|}.

Lemma toy_pool_lock code e : wp (pool_lock code) (fun f e' =>
  (f <> 0 -> te_code e' !! f = Some code) /\ te_clears e' = te_clears e /\
  forall g, g <> 0 -> te_code e !! g <> None -> te_code e' !! g = te_code e !! g) e.
Proof.
  eexists _, _. split; [done|]. cbn. split_and!; [|done|].
  - intros _. apply lookup_insert_eq.
  - intros g _ Hg. apply lookup_insert_ne. intros <-. apply not_eq_None_Some, elem_of_dom in Hg.
    pose proof (is_fresh ({[0]} ∪ dom (te_code e) : gset Z)). set_solver.
Qed.

Lemma toy_call_spec icb x n f v key e y rem e' :
  te_code e !! f = Some (setup_128_key v (gctr_code v) key) -> length key = 16%nat ->
  length icb = 16%nat -> 0 < n -> length x = Z.to_nat (16 * n) -> (v = true -> Z.Even n) ->
  toy_call icb x n f v e = ((y, rem), e') ->
  0 <= rem <= n /\ (v = true -> Z.Even rem) /\
  (Z.to_nat (16 * (n - rem)) <= length y <= Z.to_nat (16 * n))%nat /\
  take (Z.to_nat (16 * (n - rem))) y =
    take (Z.to_nat (16 * (n - rem))) (gctr toy_cipher (code_key v (setup_128_key v (gctr_code v) key)) icb x) /\
  (forall g, te_code e' !! g = te_code e !! g) /\
  (rem = 0 -> (te_clears e' <= te_clears e)%nat) /\ (rem <> 0 -> (te_clears e' < te_clears e)%nat).
Proof.
  intros Hf Hk Hi Hn Hx Hev. unfold toy_call. rewrite Hf.
  destruct (te_clears e) as [|c] eqn:Hc; intros Hcall; simplify_eq.
  - rewrite Z.sub_0_r, length_gctr. split_and!; [lia|lia|by exists 0|lia|lia|done|done|lia|lia].
  - assert (Hr : toy_remaining v n = n).
    { unfold toy_remaining. destruct v; [|done]. destruct (Hev eq_refl) as [k ->]. zdiv. }
    rewrite Hr, Z.sub_diag, repeat_length. cbn [te_code te_clears].
    split_and!; [lia|lia|done|cbn; lia|lia|done|done|lia|lia].
Qed.

#[export] Instance toy_gctr_laws : GctrLaws toy_env := {|
  block_cipher := toy_cipher;
  code_at := fun e f => te_code e !! f;
  clears_left := te_clears;
  key_layout := fun _ => conj (proj1 (Nat.leb_le 14 14) eq_refl) (proj1 (Nat.leb_le 24 32) eq_refl);
  pool_lock_spec := toy_pool_lock;
  call_aes_spec := toy_call_spec
|}.
