(* ===== verification/AesCtr.v ===== *)
(** * AES-128-CTR of the OpenSSL provider

    [xom_aes_128_ctr.c]: contexts with a shared reference counter, the
    initialisation that puts the keyed code into execute-only memory, and the
    streaming interface that restarts the code when it was interrupted. *)

From S2P Require Import Prelude XomDomain ModXom Gctr.

(** ** The context *)

Record xom_aes_ctr_context := CtrCtx {
  oiv : list Z;
  iv : list Z;
  block : list Z;
  refcount : Z;                (* address of the shared counter *)
  block_offset : Z;
  aes_fun : Z;
  num : Z;
  ctr_d : Z;
  has_vaes : bool
}.

Definition set_oiv (x : list Z) (c : xom_aes_ctr_context) : xom_aes_ctr_context :=
  CtrCtx x (iv c) (block c) (refcount c) (block_offset c) (aes_fun c) (num c) (ctr_d c) (has_vaes c).
Definition set_iv (x : list Z) (c : xom_aes_ctr_context) : xom_aes_ctr_context :=
  CtrCtx (oiv c) x (block c) (refcount c) (block_offset c) (aes_fun c) (num c) (ctr_d c) (has_vaes c).
Definition set_block (x : list Z) (n : Z) (c : xom_aes_ctr_context) : xom_aes_ctr_context :=
  CtrCtx (oiv c) (iv c) x (refcount c) n (aes_fun c) (num c) (ctr_d c) (has_vaes c).
Definition set_fun (f : Z) (c : xom_aes_ctr_context) : xom_aes_ctr_context :=
  CtrCtx (oiv c) (iv c) (block c) (refcount c) (block_offset c) f (num c) (ctr_d c) (has_vaes c).
Definition set_ctr (d : Z) (c : xom_aes_ctr_context) : xom_aes_ctr_context :=
  CtrCtx (oiv c) (iv c) (block c) (refcount c) (block_offset c) (aes_fun c) (num c) d (has_vaes c).

(** The reference counters live on the heap and are shared by duplicates. *)
Record cstate (V : Type) := CState { c_refs : gmap Z Z; c_env : V }.
Arguments CState {V}.
Arguments c_refs {V}.
Arguments c_env {V}.

Section ctr.
Context {V : Type} `{GctrEnv V}.

Definition in_env {A} (m : M V A) : M (cstate V) A :=
  fun s => match m (c_env s) with Some (a, e) => Some (a, CState (c_refs s) e) | None => None end.

(** The assembly call, with the bytes it stored and the blocks it left. *)
Definition call_aes (icb x : list Z) (n f : Z) (v : bool) : M (cstate V) (list Z * Z) :=
  in_env (fun e => Some (call_aes_implementation icb x n f v e)).

Definition lift_opt {A} (o : option A) : M (cstate V) A :=
  match o with Some a => ret a | None => ub end.

(** ** Life cycle *)

(** [ptr] and [fresh] are what [aligned_alloc] and [malloc] return for the
    context and for its counter; neither is checked. *)
Definition aes_128_ctr_newctx (vaes : bool) (ptr fresh : Z) : M (cstate V) xom_aes_ctr_context :=
  if (ptr =? 0) || (fresh =? 0) then ub
  else
    do! modify (fun s => CState (<[fresh := 1]> (c_refs s)) (c_env s)) in
    ret (CtrCtx (repeat 0 16) (repeat 0 16) (repeat 0 16) fresh 0 0 0 0 vaes).

Definition aes_128_ctr_freectx (ctx : xom_aes_ctr_context) : M (cstate V) unit :=
  let! s := get in
  match c_refs s !! refcount ctx with
  | None => ub
  | Some n =>
      let n := u32 (n - 1) in
      if n =? 0 then
        do! in_env (pool_free (aes_fun ctx)) in
        modify (fun s => CState (delete (refcount ctx) (c_refs s)) (c_env s))
      else modify (fun s => CState (<[refcount ctx := n]> (c_refs s)) (c_env s))
  end.

Definition aes_128_ctr_dupctx (ctx : xom_aes_ctr_context) : M (cstate V) xom_aes_ctr_context :=
  let! s := get in
  match c_refs s !! refcount ctx with
  | None => ub
  | Some n =>
      do! modify (fun s => CState (<[refcount ctx := u32 (n + 1)]> (c_refs s)) (c_env s)) in
      ret ctx
  end.

(** Returns the status and the context. *)
Definition aes_128_ctr_init (ctx : xom_aes_ctr_context) (key : list Z) (keylen : Z) (iv0 : list Z) (ivlen : Z)
    : M (cstate V) (Z * xom_aes_ctr_context) :=
  if negb (keylen =? AES_128_CTR_KEY_SIZE) then ret (0, ctx)
  else if negb (ivlen =? AES_128_CTR_IV_SIZE) then ret (0, ctx)
  else
    let ctx := set_iv (take 16 iv0) (set_oiv (take 16 iv0) ctx) in
    let staging := setup_128_key (has_vaes ctx) (gctr_code (has_vaes ctx)) key in
    let ctx := set_ctr (load_ctr (iv ctx)) ctx in
    let! f := in_env (pool_lock staging) in
    let ctx := set_fun f ctx in
    if f =? 0 then ret (0, ctx) else ret (1, ctx).

(** ** Encryption *)

(** The [while (num_in_blocks)] loop of [aes_128_ctr_cipher]: [total] blocks,
    [left] of them to do.  A routine that says that more blocks remain than it
    was given ends the loop. *)
Fixpoint cipher_loop (fuel : nat) (alias : bool) (total left : Z) (ctx : xom_aes_ctr_context) (b : bufs)
    : M (cstate V) (xom_aes_ctr_context * bufs) :=
  match fuel with
  | O => ub
  | S fuel =>
      if left =? 0 then ret (ctx, b)
      else
        let off := Z.to_nat (u32 ((total - left) * AES_128_CTR_BLOCK_SIZE)) in
        let len := Z.to_nat (left * AES_128_CTR_BLOCK_SIZE) in
        if decide (length (b_in b) < off + len)%nat then ub
        else
          let! '(y, rem) := call_aes (iv ctx) (take len (drop off (b_in b))) left (aes_fun ctx) (has_vaes ctx) in
          let! b := lift_opt (store_out alias off y b) in
          let blocks_processed := u32 (left - rem) in
          if left <? blocks_processed then ret (ctx, b)
          else
            let d := u32 (ctr_d ctx + blocks_processed) in
            let ctx := set_iv (store_ctr d (iv ctx)) (set_ctr d ctx) in
            cipher_loop fuel alias total (left - blocks_processed) ctx b
  end.

(** [al_out], [al_in]: the pointers are aligned; [alias]: they are equal;
    [outl] is not null.  Returns the status, [*outl], the context and the memory at [out]. *)
Definition aes_128_ctr_cipher (fuel : nat) (al_out al_in alias : bool) (ctx : xom_aes_ctr_context)
    (out : list Z) (outsize : Z) (inp : list Z) (inl : Z)
    : M (cstate V) (Z * Z * (xom_aes_ctr_context * list Z)) :=
  let num_in_blocks := u32 (inl / AES_128_CTR_BLOCK_SIZE) in
  let num_out_blocks := u32 (outsize / AES_128_CTR_BLOCK_SIZE) in
  let len := u32 (num_in_blocks * AES_128_CTR_BLOCK_SIZE) in
  let! wout := lift_opt (make_aligned al_out out len) in
  let! win := lift_opt (make_aligned al_in inp len) in
  let n := if num_out_blocks <? num_in_blocks then num_out_blocks else num_in_blocks in
  let! '(ctx, b) := cipher_loop fuel (alias && al_out) n n ctx (Bufs win wout) in
  let outl := u32 (n * AES_128_CTR_BLOCK_SIZE) in
  ret (1, outl, (ctx, free_aligned al_out (b_out b) out outl)).

(** What [in] holds: with [alias] it is the start of [out]. *)
Definition in_bytes (alias : bool) (out inp : list Z) : list Z :=
  if alias then take (length inp) out else inp.

(** [out_a] and [in_a] are the addresses of the buffers; [inp] are the [inl]
    bytes at [in].  Returns the status, [*outl], the context and the memory at
    [out]. *)
Definition aes_128_ctr_stream_update (fuel : nat) (ctx : xom_aes_ctr_context) (out_a : Z) (out : list Z)
    (outsize in_a : Z) (inp : list Z) : M (cstate V) (Z * Z * (xom_aes_ctr_context * list Z)) :=
  let alias := out_a =? in_a in
  let off := block_offset ctx in
  let inl := Z.of_nat (length inp) in
  if inl + off <? AES_128_CTR_BLOCK_SIZE then
    let! blk := lift_opt (store_at (Z.to_nat off) inp (block ctx)) in
    ret (1, 0, (set_block blk (u8 (off + inl)) ctx, out))
  else if negb (off =? 0) && (outsize <? AES_128_CTR_BLOCK_SIZE) then ret (0, 0, (ctx, out))
  else
    let k := if off =? 0 then 0 else AES_128_CTR_BLOCK_SIZE - off in
    let o := if off =? 0 then 0 else AES_128_CTR_BLOCK_SIZE in
    let! '(outl, (ctx, out)) :=
      (if off =? 0 then ret (0, (ctx, out))
       else
         let inbuf := take (Z.to_nat off) (block ctx) ++ take (Z.to_nat k) inp in
         let! '(_, c_outl, r) := aes_128_ctr_cipher fuel (is_aligned out_a) true false ctx
                                   out AES_128_CTR_BLOCK_SIZE inbuf AES_128_CTR_BLOCK_SIZE in
         ret (c_outl, r)) in
    let inl := inl - k in
    let! '(_, c_outl, (ctx, out2)) :=
      aes_128_ctr_cipher fuel (is_aligned (out_a + o)) (is_aligned (in_a + k)) (alias && (off =? 0)) ctx
        (drop (Z.to_nat o) out) (outsize - o)
        (drop (Z.to_nat k) (in_bytes alias out inp)) inl in
    let out := take (Z.to_nat o) out ++ out2 in
    let full := Z.land inl (Z.lnot (AES_128_CTR_BLOCK_SIZE - 1)) in
    let! blk := lift_opt (store_at 0 (drop (Z.to_nat (k + full)) (in_bytes alias out inp)) (block ctx)) in
    ret (1, outl + c_outl, (set_block blk (u8 (inl - full)) ctx, out)).

(** [while (call_aes_implementation(ctx->iv, inbuf, outbuf, 1, ...));] *)
Fixpoint final_loop (fuel : nat) (icb : list Z) (f : Z) (v : bool) (inbuf outbuf : list Z)
    : M (cstate V) (list Z) :=
  match fuel with
  | O => ub
  | S fuel =>
      let! '(y, rem) := call_aes icb inbuf 1 f v in
      let! outbuf := lift_opt (store_at 0 y outbuf) in
      if rem =? 0 then ret outbuf else final_loop fuel icb f v inbuf outbuf
  end.

(** Returns the status and the bytes written to [out]; [junk] are the bytes of
    the uninitialised buffer on the stack. *)
Definition aes_128_ctr_stream_final (fuel : nat) (ctx : xom_aes_ctr_context) (junk : list Z) (outsize : Z)
    : M (cstate V) (Z * list Z) :=
  let off := block_offset ctx in
  if off =? 0 then ret (1, [])
  else
    let inbuf := take (Z.to_nat off) (block ctx) ++ repeat 0 (Z.to_nat (16 - off)) in
    let! outbuf := final_loop fuel (iv ctx) (aes_fun ctx) (has_vaes ctx) inbuf (take 16 junk) in
    ret (1, take (Z.to_nat (Z.min outsize off)) outbuf).
End ctr.
