(* ===== verification/AesCtrTheorems.v ===== *)
(** * AES-128-CTR: the streaming interface computes counter mode

    However the message is cut into updates and however often the routine is
    interrupted, the output is the counter-mode encryption of the message, for
    buffers that are disjoint or in place as [call_ok] says; and what goes
    wrong in place otherwise, with the AVX2 routine, and when a context is
    used again. *)

From S2P Require Import Prelude XomDomain ModXom Gctr GctrToy AesCtr.

Section ctr_proofs.
Context {V : Type} `{GctrLaws V}.
Abbreviation E := block_cipher.
Implicit Types (s : cstate V) (ctx : xom_aes_ctr_context).

(** A context that is ready: its code holds [key], its counter is that of its
    counter block, its spare block is one. *)
Record ctx_ok (key : list Z) (ctx : xom_aes_ctr_context) (s : cstate V) : Prop := {
  ck_code : code_at (c_env s) (aes_fun ctx) = Some (setup_128_key (has_vaes ctx) (gctr_code (has_vaes ctx)) key);
  ck_key : length key = 16%nat;
  ck_iv : length (iv ctx) = 16%nat;
  ck_ctr : ctr_d ctx = load_ctr (iv ctx);
  ck_block : length (block ctx) = 16%nat;
  ck_off : 0 <= block_offset ctx < 16
}.

(** What a call of the routine leaves alone. *)
Definition env_step (s s' : cstate V) : Prop := c_refs s' = c_refs s /\ run_step (c_env s) (c_env s').

Lemma env_step_refl s : env_step s s.
Proof. split; [done|apply run_step_refl]. Qed.

Lemma env_step_trans s1 s2 s3 : env_step s1 s2 -> env_step s2 s3 -> env_step s1 s3.
Proof. intros [R1 S1] [R2 S2]. split; [congruence|by eapply run_step_trans]. Qed.

(** [n] more blocks are done: the loop's update of [ctr] and [iv]. *)
Definition advance (ctx : xom_aes_ctr_context) (n : Z) : xom_aes_ctr_context :=
  let d := u32 (ctr_d ctx + n) in set_iv (store_ctr d (iv ctx)) (set_ctr d ctx).

Lemma advance_iv key ctx s n : ctx_ok key ctx s -> iv (advance ctx n) = ctr_block (iv ctx) n.
Proof. intros Hc. unfold advance, ctr_block. cbn. by rewrite (ck_ctr _ _ _ Hc). Qed.

Lemma advance_ok key ctx s s' n : ctx_ok key ctx s -> env_step s s' -> ctx_ok key (advance ctx n) s'.
Proof.
  intros [Hcode Hk Hiv Hctr Hb Ho] (_ & Hc & _). unfold advance. split; cbn; try done.
  - by rewrite Hc.
  - by apply length_store_ctr.
  - rewrite load_store_ctr; [done|done|]. unfold u32. zdiv.
Qed.

Lemma advance_advance key ctx s n m : ctx_ok key ctx s -> advance (advance ctx n) m = advance ctx (n + m).
Proof.
  intros [_ _ Hiv _ _ _]. unfold advance, set_iv, set_ctr. cbn.
  assert (Hu : u32 (u32 (ctr_d ctx + n) + m) = u32 (ctr_d ctx + (n + m))) by (unfold u32; zdiv).
  by rewrite Hu, store_store_ctr.
Qed.

Lemma wp_call_aes (Q : list Z * Z -> cstate V -> Prop) key ctx x n s :
  ctx_ok key ctx s -> 0 < n -> length x = Z.to_nat (16 * n) -> (has_vaes ctx = true -> Z.Even n) ->
  (forall y rem s', env_step s s' -> 0 <= rem <= n -> (has_vaes ctx = true -> Z.Even rem) ->
     (Z.to_nat (16 * (n - rem)) <= length y <= Z.to_nat (16 * n))%nat ->
     take (Z.to_nat (16 * (n - rem))) y = gctr E key (iv ctx) (take (Z.to_nat (16 * (n - rem))) x) ->
     (rem <> 0 -> (clears_left (c_env s') < clears_left (c_env s))%nat) -> Q (y, rem) s') ->
  wp (call_aes (iv ctx) x n (aes_fun ctx) (has_vaes ctx)) Q s.
Proof.
  intros [Hcode Hk Hiv Hctr Hb Ho] Hn Hx Hev HQ. unfold wp, call_aes, in_env.
  destruct (call_aes_implementation _ _ _ _ _ _) as [[y rem] e'] eqn:Hcall.
  apply (call_aes_correct _ _ _ _ _ key) in Hcall as (R1 & R2 & R3 & R4 & R5 & R6); try done.
  exists (y, rem), (CState (c_refs s) e'). split; [done|]. by apply HQ.
Qed.

Lemma wp_lift_opt {A} (o : option A) a (Q : A -> cstate V -> Prop) s :
  o = Some a -> Q a s -> wp (lift_opt o) Q s.
Proof. intros -> HQ. by apply wp_ret. Qed.

Lemma wp_store_out (Q : bufs -> cstate V -> Prop) alias off y b s :
  (off + length y <= length (b_out b))%nat ->
  (let out := splice off y (b_out b) in Q (Bufs (if alias : bool then out else b_in b) out) s) ->
  wp (lift_opt (store_out alias off y b)) Q s.
Proof.
  intros Hl HQ. eapply wp_lift_opt; [|exact HQ]. unfold store_out, store_at. by rewrite decide_True.
Qed.

(** The loop encrypts the blocks that are left, in as many runs of the routine
    as it takes; in place that has to be one. *)
Lemma cipher_loop_spec key fuel alias : forall total left ctx b s,
  ctx_ok key ctx s -> (0 < fuel)%nat -> (left <> 0 -> (clears_left (c_env s) + 1 < fuel)%nat) ->
  (alias = true -> clears_left (c_env s) = 0%nat) ->
  0 <= left <= total -> 16 * total < 2 ^ 32 ->
  (has_vaes ctx = true -> Z.Even left) ->
  (Z.to_nat (16 * total) <= length (b_in b))%nat -> (Z.to_nat (16 * total) <= length (b_out b))%nat ->
  wp (cipher_loop fuel alias total left ctx b) (fun '(ctx', b') s' =>
    ctx' = (if left =? 0 then ctx else advance ctx left) /\ env_step s s' /\
    b_out b' = splice (Z.to_nat (16 * (total - left)))
      (gctr E key (iv ctx) (take (Z.to_nat (16 * left)) (drop (Z.to_nat (16 * (total - left))) (b_in b)))) (b_out b)) s.
Proof.
  induction fuel as [|fuel IH]; intros total left ctx b s Hc Hf0 Hf Hal Hl Ht Hev Hin Hout; [lia|].
  cbn [cipher_loop]. destruct (Z.eqb_spec left 0) as [->|Hl0].
  { apply wp_ret. split_and!; [done|apply env_step_refl|]. rewrite Z.mul_0_r, take_0. by rewrite splice_nil. }
  unfold AES_128_CTR_BLOCK_SIZE. rewrite (Z.mul_comm (total - left) 16), (Z.mul_comm left 16), u32_small by lia.
  set (off := Z.to_nat (16 * (total - left))). set (x := take _ (drop off (b_in b))).
  rewrite decide_False by (unfold off; lia).
  apply wp_bind. apply (wp_call_aes _ key); [done|lia| |done|].
  { unfold x. rewrite length_take, length_drop. unfold off. lia. }
  intros y rem s' Hs Hrem Hevr Hy Hyx Hcl.
  apply wp_bind, wp_store_out; [unfold off; lia|].
  rewrite (u32_small (left - rem)), (proj2 (Z.ltb_ge left (left - rem))) by lia.
  change (set_iv _ _) with (advance ctx (left - rem)). replace (left - (left - rem)) with rem by lia.
  assert (Hc' : ctx_ok key (advance ctx (left - rem)) s') by (by eapply advance_ok).
  assert (Hxl : length x = (16 * Z.to_nat (left - rem) + Z.to_nat (16 * rem))%nat).
  { unfold x. rewrite length_take, length_drop. unfold off. lia. }
  assert (Hf' : rem <> 0 -> (clears_left (c_env s') + 1 < fuel)%nat) by (intros Hr; specialize (Hcl Hr); lia).
  assert (Hsl : length (splice off y (b_out b)) = length (b_out b)) by (apply splice_length; unfold off; lia).
  assert (Hr0 : alias = true -> rem = 0).
  { intros Ha. specialize (Hal Ha). destruct (decide (rem = 0)) as [|Hr]; [done|]. specialize (Hcl Hr). lia. }
  cbn zeta. set (win := if alias then splice off y (b_out b) else b_in b).
  assert (Hwl : (Z.to_nat (16 * total) <= length win)%nat) by (unfold win; destruct alias; [by rewrite Hsl|done]).
  eapply wp_mono; [apply (IH total rem _ (Bufs win (splice off y (b_out b)))); try done; cbn; try lia|].
  { intros Ha. destruct Hs as (_ & _ & ?). specialize (Hal Ha). lia. }
  intros [ctx' b'] s'' (-> & Hs' & Hb). cbn [b_in b_out] in Hb.
  assert (Hwin : forall o, take (Z.to_nat (16 * rem)) (drop o win) = take (Z.to_nat (16 * rem)) (drop o (b_in b))).
  { intros o. unfold win. destruct alias; [|done]. by rewrite Hr0, Z.mul_0_r, !take_0. }
  rewrite Hwin in Hb.
  split_and!; [|by eapply env_step_trans|].
  { destruct (Z.eqb_spec rem 0) as [->|]; [f_equal; lia|]. erewrite advance_advance by done. f_equal. lia. }
  set (k := Z.to_nat (16 * (left - rem))) in *.
  assert (Hoff : Z.to_nat (16 * (total - rem)) = (off + k)%nat) by (unfold off, k; lia).
  assert (Hx : x = take k x ++ take (Z.to_nat (16 * rem)) (drop (off + k) (b_in b))).
  { assert (HL : Z.to_nat (16 * left) = (k + Z.to_nat (16 * rem))%nat) by (unfold k; lia).
    unfold x. rewrite HL, take_take, Nat.min_l, <- drop_drop, take_take_drop by lia. done. }
  rewrite Hb, Hoff, splice_splice, Hyx.
  - f_equal. rewrite Hx at 2. rewrite (gctr_app _ _ _ _ _ (Z.to_nat (left - rem))).
    + f_equal. rewrite (advance_iv key ctx s) by done. f_equal. f_equal. lia.
    + apply Hc.
    + rewrite length_take, Hxl. unfold k. lia.
  - rewrite length_gctr, length_take, length_drop. unfold k. lia.
  - rewrite length_gctr, length_take, length_drop. unfold off, k. lia.
Qed.

(** The context after [n] blocks. *)
Definition after (ctx : xom_aes_ctr_context) (n : nat) : xom_aes_ctr_context :=
  if decide (n = O) then ctx else advance ctx (Z.of_nat n).

Lemma after_ok key ctx s s' n : ctx_ok key ctx s -> env_step s s' -> ctx_ok key (after ctx n) s'.
Proof.
  intros Hc Hs. unfold after. destruct (decide _); [|by eapply advance_ok].
  destruct Hc, Hs as (_ & Hc & _). split; try done. by rewrite Hc.
Qed.

Lemma after_iv key ctx s n : ctx_ok key ctx s -> iv (after ctx n) = next_icb (iv ctx) n.
Proof. intros Hc. unfold after, next_icb. destruct (decide _); [done|]. by eapply advance_iv. Qed.

Lemma after_same ctx n : has_vaes (after ctx n) = has_vaes ctx /\ block (after ctx n) = block ctx /\
  block_offset (after ctx n) = block_offset ctx.
Proof. unfold after. by destruct (decide _). Qed.

Lemma after_after key ctx s n m : ctx_ok key ctx s -> after (after ctx n) m = after ctx (n + m).
Proof.
  intros Hc. unfold after. destruct (decide (n = O)) as [->|]; [done|].
  destruct (decide (m = O)) as [->|]; rewrite ?Nat.add_0_r; (destruct (decide _); [lia|]); [done|].
  erewrite advance_advance by done. f_equal. lia.
Qed.

Lemma aes_128_ctr_cipher_spec key fuel al_out al_in alias ctx out outsize inp s : let n := (length inp / 16)%nat in
  ctx_ok key ctx s -> (clears_left (c_env s) + 1 < fuel)%nat ->
  (alias && al_out = true -> clears_left (c_env s) = 0%nat) -> Z.of_nat (length inp) < 2 ^ 32 ->
  (has_vaes ctx = true -> Z.Even (Z.of_nat n)) ->
  Z.of_nat (16 * n) <= outsize < 2 ^ 32 -> (16 * n <= length out)%nat ->
  wp (aes_128_ctr_cipher fuel al_out al_in alias ctx out outsize inp (Z.of_nat (length inp)))
    (fun '(r, outl, (ctx', out')) s' => r = 1 /\ outl = Z.of_nat (16 * n) /\ ctx' = after ctx n /\
       out' = splice 0 (gctr E key (iv ctx) (take (16 * n) inp)) out /\ env_step s s') s.
Proof.
  intros n Hc Hf Hal Hin Hev Hos Hout. unfold aes_128_ctr_cipher, AES_128_CTR_BLOCK_SIZE.
  assert (Hn : Z.of_nat (length inp) / 16 = Z.of_nat n) by (unfold n; rewrite Nat2Z.inj_div; done).
  assert (Hnl : (16 * n <= length inp)%nat) by (unfold n; pose proof (Nat.Div0.mul_div_le (length inp) 16); lia).
  rewrite Hn, (u32_small (Z.of_nat n)), (u32_small (outsize / 16)), (u32_small (Z.of_nat n * 16)) by zdiv.
  assert (Hlt : (outsize / 16 <? Z.of_nat n) = false) by (apply Z.ltb_ge; zdiv). rewrite Hlt.
  destruct (make_aligned_spec al_out out (Z.of_nat n * 16)) as (wout & Hwo & Hwol & Hwot); [lia|].
  destruct (make_aligned_spec al_in inp (Z.of_nat n * 16)) as (win & Hwi & Hwil & Hwit); [lia|].
  apply wp_bind. eapply wp_lift_opt; [exact Hwo|]. apply wp_bind. eapply wp_lift_opt; [exact Hwi|].
  apply wp_bind. eapply wp_mono;
    [apply (cipher_loop_spec key); [done|lia|done|done|lia|lia|done|cbn [b_in]; lia|cbn [b_out]; lia]|].
  intros [ctx' b'] s' (Hctx' & Hs & Hb). apply wp_ret. cbn [b_in b_out] in *. rewrite u32_small by lia.
  replace (Z.of_nat n * 16) with (Z.of_nat (16 * n)) in * by lia.
  rewrite Z.sub_diag, Z.mul_0_r, drop_0 in Hb.
  replace (Z.to_nat (16 * Z.of_nat n)) with (Z.to_nat (Z.of_nat (16 * n))) in Hb by lia.
  rewrite Nat2Z.id in *. rewrite Hwit in Hb.
  split_and!; [done|done| | |done].
  - rewrite Hctx'. unfold after. destruct (decide (n = O)), (Z.eqb_spec (Z.of_nat n) 0); done || lia.
  - rewrite Hb. apply (free_aligned_spec _ _ _ _ _ Hwo); rewrite Nat2Z.id; [|lia].
    rewrite length_gctr, length_take. lia.
Qed.

(** The bytes of the message the context has not encrypted yet. *)
Definition pending (ctx : xom_aes_ctr_context) : list Z := take (Z.to_nat (block_offset ctx)) (block ctx).

Lemma store_block ctx x (Q : list Z -> cstate V -> Prop) s off :
  length (block ctx) = 16%nat -> (off + length x <= 16)%nat ->
  Q (splice off x (block ctx)) s -> wp (lift_opt (store_at off x (block ctx))) Q s.
Proof.
  intros Hb Hx HQ. eapply wp_lift_opt; [|exact HQ]. unfold store_at. by rewrite decide_True by lia.
Qed.

Lemma set_block_ok key ctx s x n : ctx_ok key ctx s -> length x = 16%nat -> 0 <= n < 16 ->
  ctx_ok key (set_block x n ctx) s.
Proof. intros [] Hx Hn. by split. Qed.

Lemma ctx_ok_step key ctx s s' : ctx_ok key ctx s -> env_step s s' -> ctx_ok key ctx s'.
Proof. intros Hc Hs. by apply (after_ok key ctx s s' O). Qed.

(** After an update: the full blocks of what was pending and of the input are
    encrypted, the rest is pending. *)
Definition update_post (key : list Z) (ctx : xom_aes_ctr_context) (data out : list Z) (s : cstate V)
    (r outl : Z) (ctx' : xom_aes_ctr_context) (out' : list Z) (s' : cstate V) : Prop :=
  let m := (length data / 16)%nat in
  r = 1 /\ outl = Z.of_nat (16 * m) /\ out' = splice 0 (gctr E key (iv ctx) (take (16 * m) data)) out /\
  pending ctx' = drop (16 * m) data /\ iv ctx' = next_icb (iv ctx) m /\ ctx_ok key ctx' s' /\
  has_vaes ctx' = has_vaes ctx /\ env_step s s'.

Lemma small_update_spec key ctx out inp s : ctx_ok key ctx s ->
  (length (pending ctx ++ inp) < 16)%nat -> let off := block_offset ctx in
  wp (let! blk := lift_opt (store_at (Z.to_nat off) inp (block ctx)) in
      ret (1, 0, (set_block blk (u8 (off + Z.of_nat (length inp))) ctx, out)))
    (fun '(r, outl, (ctx', out')) s' => update_post key ctx (pending ctx ++ inp) out s r outl ctx' out' s') s.
Proof.
  intros Hc Hl off. pose proof (ck_off _ _ _ Hc) as Ho. pose proof (ck_block _ _ _ Hc) as Hb.
  unfold pending in *. fold off in Ho, Hl |- *. rewrite length_app, length_take in Hl.
  apply wp_bind, store_block; [done|lia|]. apply wp_ret. unfold update_post.
  rewrite Nat.div_small by (rewrite length_app, length_take; lia).
  assert (Hu : u8 (off + Z.of_nat (length inp)) = off + Z.of_nat (length inp)) by (unfold u8; zdiv).
  rewrite Hu. split_and!; try done.
  - unfold pending. cbn. unfold splice. rewrite app_assoc, take_app_length'; [done|].
    rewrite length_app, length_take. lia.
  - apply set_block_ok; [done|rewrite splice_length; lia|lia].
Qed.

(** In place, the input is read from the output buffer: before anything is
    stored there, and, behind what was stored, afterwards. *)
Lemma in_bytes_before alias (out inp y : list Z) : (alias = true -> y = [] /\ inp = take (length inp) out) ->
  in_bytes alias (splice 0 y out) inp = inp.
Proof. intros Ha. unfold in_bytes. destruct alias; [|done]. destruct Ha as [-> Hi]; [done|]. by rewrite splice_nil. Qed.

Lemma in_bytes_after alias (out inp y : list Z) n : (alias = true -> length y = n /\ inp = take (length inp) out) ->
  drop n (in_bytes alias (splice 0 y out) inp) = drop n inp.
Proof.
  intros Ha. unfold in_bytes. destruct alias; [|done]. destruct Ha as [Hy Hi]; [done|].
  by rewrite drop_take_splice, <- Hi.
Qed.

(** The second half of an update, after [q] blocks (none or one) were made of
    the pending bytes and of the first [k] of the input. *)
Lemma update_rest_spec key fuel ctx ctx1 al_out al_in alias data out out1 outsize inp s s1 q k :
  ctx_ok key ctx s -> has_vaes ctx = false -> (clears_left (c_env s) + 1 < fuel)%nat -> env_step s s1 ->
  (alias = true -> q = O /\ k = 0 /\ inp = take (length inp) out /\ (al_out = true -> clears_left (c_env s) = 0%nat)) ->
  (16 * q <= length data)%nat -> ctx1 = after ctx q ->
  out1 = splice 0 (gctr E key (iv ctx) (take (16 * q) data)) out -> drop (Z.to_nat k) inp = drop (16 * q) data ->
  0 <= k <= Z.of_nat (length inp) -> Z.of_nat (length inp) < 2 ^ 32 -> let m := (length data / 16)%nat in
  Z.of_nat (16 * m) <= outsize < 2 ^ 32 -> (16 * m <= length out)%nat ->
  let o := Z.of_nat (16 * q) in let inl := Z.of_nat (length inp) - k in
  wp (let! '(_, c_outl, (ctx, out2)) := aes_128_ctr_cipher fuel al_out al_in alias ctx1
        (drop (Z.to_nat o) out1) (outsize - o) (drop (Z.to_nat k) (in_bytes alias out1 inp)) inl in
      let out := take (Z.to_nat o) out1 ++ out2 in
      let full := Z.land inl (Z.lnot (AES_128_CTR_BLOCK_SIZE - 1)) in
      let! blk := lift_opt (store_at 0 (drop (Z.to_nat (k + full)) (in_bytes alias out inp)) (block ctx)) in
      ret (1, o + c_outl, (set_block blk (u8 (inl - full)) ctx, out)))
    (fun '(r, outl, (ctx', out')) s' => update_post key ctx data out s r outl ctx' out' s') s1.
Proof.
  intros Hc Hv Hf Hs1 Hal Hq -> -> Hk Hkl Hin m Hos Hout o inl.
  rewrite (in_bytes_before alias out inp (gctr E key (iv ctx) (take (16 * q) data)))
    by (intros Ha; destruct (Hal Ha) as (-> & _ & Hi & _); split; [by rewrite Nat.mul_0_r|done]).
  set (rest := drop (16 * q) data) in *.
  assert (Hrl : length rest = Z.to_nat inl) by (rewrite <- Hk, length_drop; unfold inl; lia).
  assert (Hdl : length data = (16 * q + length rest)%nat) by (unfold rest; rewrite length_drop; lia).
  assert (Hm : m = (q + length rest / 16)%nat).
  { unfold m. rewrite Hdl, (Nat.mul_comm 16 q), Nat.div_add_l; lia. }
  assert (Hpre : length (take (16 * q) data) = (16 * q)%nat) by (rewrite length_take; lia).
  assert (Ho : Z.to_nat o = (16 * q)%nat) by (unfold o; lia).
  rewrite Ho, Hk. replace inl with (Z.of_nat (length rest)) by (unfold inl; lia).
  assert (Hc1 : ctx_ok key (after ctx q) s1) by (by eapply after_ok).
  assert (Hsl : length (splice 0 (gctr E key (iv ctx) (take (16 * q) data)) out) = length out).
  { apply splice_length. rewrite length_gctr. lia. }
  assert (Hfull : (16 * (length rest / 16) <= length rest)%nat) by apply Nat.Div0.mul_div_le.
  destruct (after_same ctx q) as (Hv1 & Hb1 & _). pose proof (ck_block _ _ _ Hc) as Hb.
  apply wp_bind. eapply wp_mono; [apply (aes_128_ctr_cipher_spec key); [done| | | | | |]|].
  { destruct Hs1 as (_ & _ & Hcl). lia. }
  { intros [Ha Hao]%andb_prop. destruct Hs1 as (_ & _ & Hcl), (Hal Ha) as (_ & _ & _ & Hz). specialize (Hz Hao). lia. }
  { lia. }
  { congruence. }
  { unfold o. lia. }
  { rewrite length_drop, Hsl. lia. }
  intros [[r outl] [ctx2 out2]] s2 (-> & -> & -> & -> & Hs2).
  unfold AES_128_CTR_BLOCK_SIZE. change (16 - 1) with 15. rewrite land_lnot_15.
  pose proof (Nat2Z.inj_div (length rest) 16) as Hdz. change (Z.of_nat 16) with 16 in Hdz. rewrite <- Hdz.
  assert (Hsplit : take (16 * m) data = take (16 * q) data ++ take (16 * (length rest / 16)) rest).
  { unfold rest at 2. rewrite take_take_drop. f_equal. lia. }
  assert (Hout' : take (16 * q) (splice 0 (gctr E key (iv ctx) (take (16 * q) data)) out) ++
    splice 0 (gctr E key (iv (after ctx q)) (take (16 * (length rest / 16)) rest))
      (drop (16 * q) (splice 0 (gctr E key (iv ctx) (take (16 * q) data)) out)) =
    splice 0 (gctr E key (iv ctx) (take (16 * m) data)) out).
  { rewrite Hsplit, (gctr_next _ _ _ _ _ q) by (done || apply Hc). rewrite (after_iv key ctx s) by done.
    apply splice_seq; [by rewrite length_gctr|lia]. }
  rewrite Hout', in_bytes_after.
  2:{ intros Ha. destruct (Hal Ha) as (-> & -> & Hi & _). rewrite length_gctr, length_take. split; [lia|done]. }
  rewrite Z2Nat.inj_add, <- drop_drop, Hk by lia.
  replace (Z.to_nat (16 * Z.of_nat (length rest / 16))) with (16 * (length rest / 16))%nat by lia.
  erewrite after_after by done. rewrite <- Hm. destruct (after_same ctx m) as (Hv2 & Hb2 & _). rewrite Hb2.
  assert (Hrm : (length rest - 16 * (length rest / 16) < 16)%nat).
  { pose proof (Nat.div_mod_eq (length rest) 16). pose proof (Nat.mod_upper_bound (length rest) 16). lia. }
  apply wp_bind, store_block; [done|rewrite length_drop; lia|]. apply wp_ret.
  assert (Hu : u8 (Z.of_nat (length rest) - 16 * Z.of_nat (length rest / 16)) =
               Z.of_nat (length rest - 16 * (length rest / 16)))
    by (unfold u8; rewrite Z.mod_small; lia).
  rewrite Hu. unfold update_post. fold m.
  split_and!; [done|unfold o; lia|done| | | | |by eapply env_step_trans].
  - unfold pending. cbn [set_block block block_offset]. rewrite Nat2Z.id, take_splice; [|by rewrite length_drop].
    replace (16 * m)%nat with (16 * q + 16 * (length rest / 16))%nat by lia. by rewrite <- drop_drop.
  - cbn [set_block iv]. by eapply after_iv.
  - apply set_block_ok; [|rewrite splice_length; [done|rewrite length_drop; lia]|lia].
    eapply after_ok; [done|]. by eapply env_step_trans.
  - done.
Qed.

Lemma length_pending key ctx s : ctx_ok key ctx s -> length (pending ctx) = Z.to_nat (block_offset ctx).
Proof. intros []. unfold pending. rewrite length_take. lia. Qed.

(** ** Where the buffers may lie *)

(** One call of update: where the output and the input lie and what they hold. *)
Record update_call := UpdateCall { u_out_a : Z; u_out : list Z; u_in_a : Z; u_in : list Z }.

(** The two buffers of a call are disjoint. *)
Definition apart (u : update_call) : Prop :=
  u_out_a u + Z.of_nat (length (u_out u)) <= u_in_a u \/ u_in_a u + Z.of_nat (length (u_in u)) <= u_out_a u.

(** They are the same memory, [p] bytes are pending: either no block is
    completed, or nothing is pending and, where the code works on the buffer
    itself, [quiet] holds. *)
Definition in_place (quiet : Prop) (p : nat) (u : update_call) : Prop :=
  u_out_a u = u_in_a u /\ u_in u = take (length (u_in u)) (u_out u) /\
  ((p + length (u_in u) < 16)%nat \/ p = O /\ (is_aligned (u_out_a u) = true -> quiet)).

(** A call: room for the input and for a partial block, as
    EVP_EncryptUpdate(3) demands, and the buffers apart or in place. *)
Record call_ok (quiet : Prop) (p : nat) (u : update_call) : Prop := {
  co_room : Z.of_nat (length (u_in u)) + 15 <= Z.of_nat (length (u_out u)) < 2 ^ 32;
  co_place : apart u \/ in_place quiet p u
}.

(** Calls one after the other, [p] bytes pending before the first. *)
Fixpoint calls_ok (quiet : Prop) (p : nat) (l : list update_call) : Prop :=
  match l with
  | [] => True
  | u :: l => call_ok quiet p u /\ calls_ok quiet ((p + length (u_in u)) mod 16) l
  end.

Lemma call_ok_mono (Q Q' : Prop) p u : (Q -> Q') -> call_ok Q p u -> call_ok Q' p u.
Proof.
  intros HQ [Hr Hp]. split; [done|]. destruct Hp as [?|(? & ? & [?|[? ?]])]; [by left|right; split_and!; auto..].
Qed.

Lemma calls_ok_mono (Q Q' : Prop) l : (Q -> Q') -> forall p, calls_ok Q p l -> calls_ok Q' p l.
Proof.
  intros HQ. induction l as [|u l IH]; intros p; [done|]. intros [Hu Hl]. split; [by eapply call_ok_mono|by apply IH].
Qed.

(** What the proofs use: equal pointers and a completed block mean that the
    whole call is in place. *)
Lemma call_ok_place quiet p u : call_ok quiet p u -> u_out_a u = u_in_a u -> (16 <= p + length (u_in u))%nat -> (p < 16)%nat ->
  p = O /\ u_in u = take (length (u_in u)) (u_out u) /\ (is_aligned (u_out_a u) = true -> quiet).
Proof. intros [Hr [Ha|(_ & Hi & [?|[-> Hq]])]] He Hl Hp; [unfold apart in Ha; lia|lia|done]. Qed.

Lemma aes_128_ctr_stream_update_spec key fuel ctx out_a out outsize in_a inp s :
  let data := pending ctx ++ inp in let m := (length data / 16)%nat in
  ctx_ok key ctx s -> has_vaes ctx = false -> (clears_left (c_env s) + 1 < fuel)%nat ->
  call_ok (clears_left (c_env s) = 0%nat) (length (pending ctx)) (UpdateCall out_a out in_a inp) ->
  Z.of_nat (length inp) < 2 ^ 32 -> Z.of_nat (16 * m) <= outsize < 2 ^ 32 -> (16 * m <= length out)%nat ->
  wp (aes_128_ctr_stream_update fuel ctx out_a out outsize in_a inp)
    (fun '(r, outl, (ctx', out')) s' => update_post key ctx data out s r outl ctx' out' s') s.
Proof.
  intros data m Hc Hv Hf Hco Hin Hos Hout. pose proof (ck_off _ _ _ Hc) as Ho.
  pose proof (length_pending _ _ _ Hc) as Hp. pose proof (call_ok_place _ _ _ Hco) as Hpl.
  cbn [u_out_a u_in_a u_out u_in] in Hpl.
  assert (Hdl : length data = (Z.to_nat (block_offset ctx) + length inp)%nat) by (unfold data; rewrite length_app; lia).
  unfold aes_128_ctr_stream_update.
  unfold AES_128_CTR_BLOCK_SIZE at 1. destruct (Z.ltb_spec (Z.of_nat (length inp) + block_offset ctx) 16) as [Hlt|Hge].
  { apply small_update_spec; [done|fold data; lia]. }
  destruct (Z.eqb_spec (block_offset ctx) 0) as [Hz|Hz]; cbn [negb andb].
  - assert (Hd : data = inp) by (unfold data, pending; rewrite Hz; done).
    apply wp_bind, wp_ret. unfold m in *. rewrite Hd in *.
    rewrite andb_true_r. apply (update_rest_spec key fuel ctx ctx _ _ _ inp out out outsize inp s s 0 0); try done; try lia.
    intros He%Z.eqb_eq. destruct (Hpl He) as (_ & Hi & Hq); [lia..|]. rewrite Z.add_0_r. done.
  - unfold AES_128_CTR_BLOCK_SIZE at 1. assert (Hm : (1 <= m)%nat) by (apply Nat.div_le_lower_bound; lia).
    rewrite (proj2 (Z.ltb_ge outsize 16)) by lia.
    set (k := AES_128_CTR_BLOCK_SIZE - block_offset ctx). set (inbuf := _ ++ take (Z.to_nat k) inp).
    assert (Hib : inbuf = take 16 data).
    { unfold inbuf, data. rewrite take_app_ge by lia. fold (pending ctx). do 2 f_equal. unfold k, AES_128_CTR_BLOCK_SIZE. lia. }
    assert (Hil : length inbuf = 16%nat) by (rewrite Hib, length_take; lia).
    assert (Hna : (out_a =? in_a) = false) by (apply Z.eqb_neq; intros He; destruct (Hpl He); lia).
    rewrite Hna. cbn [andb in_bytes].
    pose proof (aes_128_ctr_cipher_spec key fuel (is_aligned out_a) true false ctx out 16 inbuf s) as Hcs.
    rewrite Hil in Hcs. change (Z.of_nat 16) with 16 in Hcs. change (16 / 16)%nat with 1%nat in Hcs.
    apply wp_bind, wp_bind. eapply wp_mono; [apply Hcs; [done|done|done|lia|congruence|lia|lia]|].
    intros [[r1 outl1] [ctx1 out1]] s1 (-> & -> & -> & -> & Hs1). apply wp_ret.
    apply (update_rest_spec key fuel ctx _ _ _ false data out _ outsize inp s s1 1 k); try done; try lia.
    + rewrite Hib, take_take. done.
    + unfold data. rewrite (drop_app_ge (pending ctx)) by lia. f_equal. unfold k, AES_128_CTR_BLOCK_SIZE. lia.
    + unfold k, AES_128_CTR_BLOCK_SIZE. lia.
Qed.

Lemma final_loop_spec key fuel : forall ctx inbuf outbuf s, ctx_ok key ctx s -> has_vaes ctx = false ->
  (clears_left (c_env s) < fuel)%nat -> length inbuf = 16%nat -> length outbuf = 16%nat ->
  wp (final_loop fuel (iv ctx) (aes_fun ctx) (has_vaes ctx) inbuf outbuf)
    (fun y s' => y = gctr E key (iv ctx) inbuf /\ env_step s s') s.
Proof.
  induction fuel as [|fuel IH]; intros ctx inbuf outbuf s Hc Hv Hf Hi Ho; [lia|]. cbn [final_loop].
  apply wp_bind. apply (wp_call_aes _ key); [done|lia|lia|congruence|].
  intros y rem s' Hs Hrem _ Hy Hyx Hcl. apply wp_bind.
  eapply wp_lift_opt; [unfold store_at; rewrite decide_True by lia; done|].
  destruct (Z.eqb_spec rem 0) as [->|Hr].
  - apply wp_ret. split; [|done]. change (Z.to_nat (16 * (1 - 0))) with 16%nat in Hyx, Hy.
    rewrite (take_ge inbuf), take_ge in Hyx by lia. rewrite <- Hyx.
    unfold splice. rewrite take_0, drop_ge by lia. by rewrite app_nil_r.
  - eapply wp_mono; [apply IH; try done|].
    + by eapply ctx_ok_step.
    + specialize (Hcl Hr). lia.
    + rewrite splice_length; lia.
    + intros y' s'' [-> Hs']. split; [done|by eapply env_step_trans].
Qed.

Lemma aes_128_ctr_stream_final_spec key fuel ctx junk outsize s : ctx_ok key ctx s -> has_vaes ctx = false ->
  (clears_left (c_env s) < fuel)%nat -> (16 <= length junk)%nat -> 16 <= outsize ->
  wp (aes_128_ctr_stream_final fuel ctx junk outsize)
    (fun '(r, y) s' => r = 1 /\ y = gctr E key (iv ctx) (pending ctx) /\ env_step s s') s.
Proof.
  intros Hc Hv Hf Hj Hos. pose proof (ck_off _ _ _ Hc) as Ho. pose proof (ck_block _ _ _ Hc) as Hb.
  unfold aes_128_ctr_stream_final. destruct (Z.eqb_spec (block_offset ctx) 0) as [Hz|Hz].
  { apply wp_ret. unfold pending. rewrite Hz. split_and!; [done|done|apply env_step_refl]. }
  fold (pending ctx). pose proof (length_pending _ _ _ Hc) as Hp. apply wp_bind. eapply wp_mono.
  - apply (final_loop_spec key); [done|done|done| |rewrite length_take; lia].
    rewrite length_app, repeat_length. lia.
  - intros y s' [-> Hs]. apply wp_ret. split_and!; [done| |done].
    rewrite <- gctr_take, take_app_length'; [done|lia].
Qed.

(** ** A whole message *)

(** The caller of the provider: the updates, each output appended. *)
Fixpoint ctr_updates (fuel : nat) (ctx : xom_aes_ctr_context) (l : list update_call)
    : M (cstate V) (xom_aes_ctr_context * list Z) :=
  match l with
  | [] => ret (ctx, [])
  | u :: l =>
      let! '(r, outl, (ctx, out)) := aes_128_ctr_stream_update fuel ctx (u_out_a u) (u_out u)
                                       (Z.of_nat (length (u_out u))) (u_in_a u) (u_in u) in
      if r =? 1 then
        let! '(ctx, rest) := ctr_updates fuel ctx l in
        ret (ctx, take (Z.to_nat outl) out ++ rest)
      else ret (ctx, [])
  end.

Lemma ctr_updates_spec key fuel l : forall ctx s, ctx_ok key ctx s -> has_vaes ctx = false ->
  (clears_left (c_env s) + 1 < fuel)%nat -> calls_ok (clears_left (c_env s) = 0%nat) (length (pending ctx)) l ->
  let data := pending ctx ++ concat (map u_in l) in
  wp (ctr_updates fuel ctx l) (fun '(ctx', o) s' => exists m, (16 * m <= length data)%nat /\
    o = gctr E key (iv ctx) (take (16 * m) data) /\ pending ctx' = drop (16 * m) data /\
    iv ctx' = next_icb (iv ctx) m /\ ctx_ok key ctx' s' /\ has_vaes ctx' = false /\ env_step s s') s.
Proof.
  induction l as [|u l IH]; intros ctx s Hc Hv Hf Hl data; cbn [ctr_updates].
  { apply wp_ret. exists O. unfold data. cbn. rewrite app_nil_r, drop_0.
    split_and!; [lia|done|done|done|done|done|apply env_step_refl]. }
  destruct Hl as [Hu Hl]. pose proof (co_room _ _ _ Hu) as Hroom. pose proof (ck_off _ _ _ Hc) as Ho.
  set (d1 := pending ctx ++ u_in u). set (m1 := (length d1 / 16)%nat).
  assert (Hm1 : (16 * m1 <= length d1)%nat) by apply Nat.Div0.mul_div_le.
  assert (Hd1 : (length d1 <= 15 + length (u_in u))%nat).
  { unfold d1. rewrite length_app, (length_pending _ _ _ Hc). lia. }
  apply wp_bind. eapply wp_mono; [apply (aes_128_ctr_stream_update_spec key); fold d1 m1; try done; try lia; by destruct u|].
  intros [[r outl] [ctx1 out1]] s1. fold d1. unfold update_post. fold m1.
  intros (-> & -> & -> & Hp1 & Hiv1 & Hc1 & Hv1 & Hs1). cbn [Z.eqb Pos.eqb].
  apply wp_bind. eapply wp_mono; [apply IH; [done|congruence| |]|].
  { destruct Hs1 as (_ & _ & ?). lia. }
  { replace (length (pending ctx1)) with ((length (pending ctx) + length (u_in u)) mod 16)%nat.
    - eapply calls_ok_mono; [|done]. destruct Hs1 as (_ & _ & ?). lia.
    - rewrite Hp1, length_drop, <- length_app. fold d1. pose proof (Nat.div_mod_eq (length d1) 16). unfold m1. lia. }
  intros [ctx2 o2] s2 (m2 & Hm2 & -> & Hp2 & Hiv2 & Hc2 & Hv2 & Hs2). apply wp_ret.
  assert (Hdata : data = take (16 * m1) d1 ++ pending ctx1 ++ concat (map u_in l)).
  { rewrite Hp1, app_assoc, take_drop. unfold data, d1. by rewrite <- app_assoc. }
  set (rest := pending ctx1 ++ _) in *.
  assert (Hpre : length (take (16 * m1) d1) = (16 * m1)%nat) by (rewrite length_take; lia).
  exists (m1 + m2)%nat. rewrite Hdata, length_app, Hpre.
  split_and!; [lia| | | |done|done|by eapply env_step_trans].
  - rewrite Nat2Z.id, take_splice by (by rewrite length_gctr).
    rewrite Nat.mul_add_distr_l, take_app_add', (gctr_next _ _ _ _ _ m1) by (done || apply Hc). by rewrite Hiv1.
  - rewrite Hp2, Nat.mul_add_distr_l, drop_app_add' by done. done.
  - rewrite Hiv2, Hiv1. apply next_icb_add, Hc.
Qed.

(** A message from start to end: a new context, the key and the counter block,
    the updates, the last bytes.  [None] when no code could be locked. *)
Definition ctr_encrypt (fuel : nat) (vaes : bool) (ptr fresh : Z) (key iv0 : list Z) (l : list update_call)
    (junk : list Z) (outsize : Z) : M (cstate V) (option (list Z)) :=
  let! ctx := aes_128_ctr_newctx vaes ptr fresh in
  let! '(r, ctx) := aes_128_ctr_init ctx key (Z.of_nat (length key)) iv0 (Z.of_nat (length iv0)) in
  if r =? 0 then ret None
  else
    let! '(ctx, o) := ctr_updates fuel ctx l in
    let! '(_, y) := aes_128_ctr_stream_final fuel ctx junk outsize in
    ret (Some (o ++ y)).

Lemma wp_in_env {A} (m : M V A) (Q : A -> cstate V -> Prop) s :
  wp m (fun a e => Q a (CState (c_refs s) e)) (c_env s) -> wp (in_env m) Q s.
Proof. intros (a & e & Hm & HQ). exists a, (CState (c_refs s) e). unfold in_env. by rewrite Hm. Qed.

(** Initialising a context that holds [k] pending bytes. *)
Lemma aes_128_ctr_init_spec ctx key iv0 s : length key = 16%nat -> length iv0 = 16%nat ->
  length (block ctx) = 16%nat -> 0 <= block_offset ctx < 16 ->
  wp (aes_128_ctr_init ctx key (Z.of_nat (length key)) iv0 (Z.of_nat (length iv0)))
    (fun '(r, ctx') s' => pending ctx' = pending ctx /\ has_vaes ctx' = has_vaes ctx /\
       clears_left (c_env s') = clears_left (c_env s) /\
       (r = 1 /\ ctx_ok key ctx' s' /\ iv ctx' = iv0 \/
        r = 0 /\ exists e', pool_lock (setup_128_key (has_vaes ctx) (gctr_code (has_vaes ctx)) key) (c_env s) = Some (0, e'))) s.
Proof.
  intros Hk Hi Hb Ho. unfold aes_128_ctr_init. rewrite Hk, Hi. cbn [Z.of_nat].
  destruct (pool_lock_spec (setup_128_key (has_vaes ctx) (gctr_code (has_vaes ctx)) key) (c_env s))
    as (f & e' & Hrun & Hcode & Hcl & _).
  apply wp_bind, wp_in_env. exists f, e'. split; [done|].
  destruct (Z.eqb_spec f 0) as [->|Hf]; apply wp_ret.
  - split_and!; [done|done|done|]. right. eauto.
  - specialize (Hcode Hf). split_and!; [done|done|done|]. left. split_and!; [done| |cbn; by rewrite take_ge by lia].
    split; cbn; try done. rewrite length_take. lia.
Qed.

(** C13: AES-128-CTR is correct with the AES-NI routine (not the AVX2 one): for
    every cut of a message into updates and every number of interruptions of
    the routine, the bytes the updates and the final call write are the
    counter-mode encryption of the message under the key and the initial
    counter block, unless no code could be locked at the start.  The buffers
    of an update are disjoint, or they are the same memory and either no
    block is completed, or no byte is pending from before and the buffer is
    not aligned to 32 bytes, or no byte is pending and there are no
    interruptions.  The output has room for the input and 15 bytes. *)
Theorem ctr_stream_correct fuel ptr fresh key iv0 l junk outsize s :
  ptr <> 0 -> fresh <> 0 -> length key = 16%nat -> length iv0 = 16%nat ->
  calls_ok (clears_left (c_env s) = 0%nat) 0 l ->
  (16 <= length junk)%nat -> 16 <= outsize -> (clears_left (c_env s) + 1 < fuel)%nat ->
  wp (ctr_encrypt fuel false ptr fresh key iv0 l junk outsize) (fun r _ =>
    r = Some (gctr E key iv0 (concat (map u_in l))) \/
    r = None /\ exists e', pool_lock (setup_128_key false (gctr_code false) key) (c_env s) = Some (0, e')) s.
Proof.
  intros Hp Hr Hk Hi Hl Hj Hos Hf. unfold ctr_encrypt, aes_128_ctr_newctx.
  rewrite !(proj2 (Z.eqb_neq _ _)) by done. cbn [orb].
  apply wp_bind, wp_bind, wp_modify, wp_ret, wp_bind.
  eapply wp_mono; [apply aes_128_ctr_init_spec; done|].
  intros [r ctx] s1 (Hpe & Hv & Hcl & [(-> & Hc & Hiv)|(-> & He)]); cbn [Z.eqb Pos.eqb]; [|apply wp_ret; eauto].
  cbn in Hcl. apply wp_bind. eapply wp_mono; [apply (ctr_updates_spec key); [done|done|lia|rewrite Hcl, Hpe; done]|].
  intros [ctx2 o] s2 (m & Hm & -> & Hp2 & Hiv2 & Hc2 & Hv2 & Hs2).
  apply wp_bind. eapply wp_mono; [apply (aes_128_ctr_stream_final_spec key); try done|].
  { destruct Hs2 as (_ & _ & ?). lia. }
  intros [r y] s3 (_ & -> & _). apply wp_ret. left. f_equal.
  rewrite Hp2, Hiv2, <- gctr_next by (rewrite ?length_take; apply Hc || lia).
  rewrite take_drop, Hiv. f_equal. rewrite Hpe. done.
Qed.

(** Initialising a context again does not forget the bytes it holds: after
    a message whose length is not a multiple of the block size, the first
    blocks of the next message, under its own key and counter block, are made
    of the old message's last bytes followed by the new message. *)
Theorem ctr_reinit_keeps_pending fuel key iv0 ctx u s :
  length key = 16%nat -> length iv0 = 16%nat -> length (block ctx) = 16%nat -> 0 <= block_offset ctx < 16 ->
  has_vaes ctx = false -> call_ok (clears_left (c_env s) = 0%nat) (length (pending ctx)) u -> (clears_left (c_env s) + 1 < fuel)%nat ->
  let data := pending ctx ++ u_in u in
  wp (let! '(r, ctx') := aes_128_ctr_init ctx key (Z.of_nat (length key)) iv0 (Z.of_nat (length iv0)) in
      if r =? 0 then ret None
      else let! '(_, o) := ctr_updates fuel ctx' [u] in ret (Some o))
    (fun r _ => match r with
                | Some o => o = gctr E key iv0 (take (16 * (length data / 16)) data)
                | None => exists e', pool_lock (setup_128_key false (gctr_code false) key) (c_env s) = Some (0, e')
                end) s.
Proof.
  intros Hk Hi Hb Ho Hv Hu Hf data. pose proof (co_room _ _ _ Hu) as Hroom. apply wp_bind.
  eapply wp_mono; [by apply aes_128_ctr_init_spec|].
  intros [r ctx'] s1 (Hpe & Hv1 & Hcl & [(-> & Hc & Hiv)|(-> & He)]); cbn [Z.eqb Pos.eqb].
  2:{ apply wp_ret. by rewrite Hv in He. }
  assert (Hdl : (length data <= 15 + length (u_in u))%nat).
  { unfold data. rewrite <- Hpe, length_app, (length_pending _ _ _ Hc). pose proof (ck_off _ _ _ Hc). lia. }
  pose proof (Nat.Div0.mul_div_le (length data) 16) as Hm.
  apply wp_bind. cbn [ctr_updates]. apply wp_bind.
  eapply wp_mono; [apply (aes_128_ctr_stream_update_spec key); rewrite ?Hpe, ?Hcl; fold data; try done; try lia; try congruence; by destruct u|].
  intros [[r outl] [ctx2 out2]] s2. rewrite Hpe. fold data.
  intros (-> & -> & -> & _). cbn [Z.eqb Pos.eqb]. apply wp_bind, wp_ret, wp_ret, wp_ret.
  rewrite Nat2Z.id, take_splice, Hiv, app_nil_r; [done|]. rewrite length_gctr, length_take. lia.
Qed.

(** When the routine says that more blocks remain than it was given, the
    call still reports every block as encrypted: the status is success, the
    length is that of the input, and the output is whatever the routine
    stored.  The AVX2 routine counts in pairs and does this whenever it is
    interrupted in the first pair of an odd number of blocks. *)
Theorem ctr_overrun_reported_ok fuel ctx out inp n y rem s e' :
  0 < n -> 16 * n < 2 ^ 32 -> length inp = Z.to_nat (16 * n) -> (length y <= length out)%nat ->
  call_aes_implementation (iv ctx) inp n (aes_fun ctx) (has_vaes ctx) (c_env s) = ((y, rem), e') ->
  n < rem < 2 ^ 32 ->
  aes_128_ctr_cipher (S fuel) true true false ctx out (16 * n) inp (16 * n) s =
    Some ((1, 16 * n, (ctx, splice 0 y out)), CState (c_refs s) e').
Proof.
  intros Hn Hn32 Hin Hy Hcall Hrem. unfold aes_128_ctr_cipher, AES_128_CTR_BLOCK_SIZE.
  replace (16 * n / 16) with n by zdiv. rewrite !(u32_small n), !u32_small by lia.
  rewrite Z.ltb_irrefl. cbn [make_aligned lift_opt andb]. unfold bind at 1 2, ret at 1 2.
  unfold bind at 1. cbn [cipher_loop b_in b_out]. rewrite (proj2 (Z.eqb_neq n 0)) by lia.
  unfold AES_128_CTR_BLOCK_SIZE. rewrite Z.sub_diag, Z.mul_0_l. change (Z.to_nat (u32 0)) with O.
  rewrite decide_False by lia. rewrite drop_0, take_ge by lia.
  unfold bind at 1, call_aes, in_env. rewrite Hcall. unfold store_out, store_at. cbn [b_out b_in].
  rewrite decide_True by lia. unfold bind, lift_opt, ret.
  rewrite (proj2 (Z.ltb_lt n (u32 (n - rem)))); [|unfold u32; zdiv].
  unfold free_aligned. rewrite u32_small, (Z.mul_comm n 16) by lia. done.
Qed.

(** ** Duplicates *)

Fixpoint ctr_dups (k : nat) (ctx : xom_aes_ctr_context) : M (cstate V) unit :=
  match k with O => ret tt | S k => let! _ := aes_128_ctr_dupctx ctx in ctr_dups k ctx end.
Fixpoint ctr_frees (k : nat) (ctx : xom_aes_ctr_context) : M (cstate V) unit :=
  match k with O => ret tt | S k => do! aes_128_ctr_freectx ctx in ctr_frees k ctx end.

Definition set_refs (s : cstate V) (ctx : xom_aes_ctr_context) (n : Z) : cstate V :=
  CState (<[refcount ctx := n]> (c_refs s)) (c_env s).

Lemma dup_run ctx n s : aes_128_ctr_dupctx ctx (set_refs s ctx n) = Some (ctx, set_refs s ctx (u32 (n + 1))).
Proof.
  unfold aes_128_ctr_dupctx, bind, get, modify, ret, set_refs. cbn. rewrite lookup_insert_eq. cbn.
  by rewrite insert_insert_eq.
Qed.

Lemma free_run ctx n s : u32 (n - 1) <> 0 ->
  aes_128_ctr_freectx ctx (set_refs s ctx n) = Some (tt, set_refs s ctx (u32 (n - 1))).
Proof.
  intros Hn. unfold aes_128_ctr_freectx, bind, get, modify, ret, set_refs. cbn. rewrite lookup_insert_eq.
  rewrite (proj2 (Z.eqb_neq _ 0)) by done. cbn. by rewrite insert_insert_eq.
Qed.

Lemma ctr_dups_run k : forall ctx n s, 0 <= n -> n + Z.of_nat k < 2 ^ 32 ->
  ctr_dups k ctx (set_refs s ctx n) = Some (tt, set_refs s ctx (n + Z.of_nat k)).
Proof.
  induction k as [|k IH]; intros ctx n s Hn Hk; [by rewrite Z.add_0_r|].
  cbn [ctr_dups]. unfold bind at 1. rewrite dup_run, u32_small, IH by lia. do 3 f_equal. lia.
Qed.

Lemma ctr_frees_run k : forall ctx n s, 1 <= n -> n + Z.of_nat k < 2 ^ 32 ->
  ctr_frees k ctx (set_refs s ctx (n + Z.of_nat k)) = Some (tt, set_refs s ctx n).
Proof.
  induction k as [|k IH]; intros ctx n s Hn Hk; [by rewrite Z.add_0_r|].
  cbn [ctr_frees]. unfold bind at 1. rewrite free_run, u32_small by (rewrite ?u32_small; lia).
  replace (n + Z.of_nat (S k) - 1) with (n + Z.of_nat k) by lia. apply IH; lia.
Qed.

(** The code of a context is given back exactly when its last duplicate is
    freed: making [k] duplicates and freeing [k] contexts changes nothing,
    freeing the remaining one returns the code to the pool and drops the
    counter. *)
Theorem ctr_refcount_correct k ctx s : c_refs s !! refcount ctx = Some 1 -> Z.of_nat k + 1 < 2 ^ 32 ->
  (let! _ := ctr_dups k ctx in ctr_frees k ctx) s = Some (tt, s) /\
  forall e', pool_free (aes_fun ctx) (c_env s) = Some (tt, e') ->
    aes_128_ctr_freectx ctx s = Some (tt, CState (delete (refcount ctx) (c_refs s)) e').
Proof.
  intros Hr Hk.
  assert (Hs : s = set_refs s ctx 1) by (unfold set_refs; rewrite insert_id by done; by destruct s).
  split.
  - rewrite Hs at 1. unfold bind. rewrite ctr_dups_run, ctr_frees_run by lia. by rewrite <- Hs.
  - intros e' He. unfold aes_128_ctr_freectx, bind, get, modify. rewrite Hr.
    change (u32 (1 - 1) =? 0) with true. unfold in_env. by rewrite He.
Qed.
End ctr_proofs.

(** ** In place *)

Definition demo_key : list Z := seqZ 1 16.
Definition demo_iv : list Z := repeat 7 12 ++ repeat 255 4.
Definition demo_state (clears : nat) : cstate toy_env := CState ∅ (ToyEnv ∅ clears).

(** A message of 8 bytes and then [n] bytes, the second part encrypted at
    address 64 either from another buffer or from the same one; the routine is
    interrupted [clears] times. *)
Definition demo_run (inplace : bool) (first n : nat) (clears : nat) : option (list Z) :=
  let msg := seqZ 10 (Z.of_nat n) in
  fst <$> (let! ctx := aes_128_ctr_newctx false 4096 8192 in
           let! '(_, ctx) := aes_128_ctr_init ctx demo_key 16 demo_iv 16 in
           let! '(ctx, o) := ctr_updates 10 ctx [UpdateCall 96 (repeat 0 64) 32 (seqZ 0 (Z.of_nat first))] in
           let! '(_, outl, (_, out)) :=
             aes_128_ctr_stream_update 10 ctx 64 (msg ++ repeat 0 16) (Z.of_nat n + 16)
               (if inplace then 64 else 512) msg in
           ret (o ++ take (Z.to_nat outl) out)) (demo_state clears).

(** Encrypting in place is wrong in two ways, although the interface
    promises it.  An interruption leaves garbage in the block it hit, and when
    input and output are the same memory the garbage is what the restarted
    routine encrypts; and with pending bytes the first output block overwrites
    input that was not read yet.  Without an interruption and without pending
    bytes the result is right. *)
Theorem ctr_in_place_wrong :
  demo_run true 0 48 0 = demo_run false 0 48 0 /\
  demo_run false 0 48 1 = demo_run false 0 48 0 /\ demo_run true 0 48 1 <> demo_run false 0 48 0 /\
  demo_run true 8 48 0 <> demo_run false 8 48 0.
Proof. split_and!; by vm_compute. Qed.

(** ** Witnesses *)

(** The second call is in place and completes no block, the last one is in
    place and not aligned. *)
Definition demo_calls : list update_call :=
  [UpdateCall 96 (repeat 0 64) 32 (seqZ 0 21); UpdateCall 32 (seqZ 5 3 ++ repeat 0 61) 32 (seqZ 5 3);
   UpdateCall 64 (repeat 0 64) 1000 (seqZ 9 40); UpdateCall 97 (seqZ 3 33 ++ repeat 0 31) 97 (seqZ 3 33)].

Lemma demo_calls_ok (quiet : Prop) : calls_ok quiet 0 demo_calls.
Proof.
  unfold demo_calls. cbn [calls_ok u_in]. split_and!; [..|done]; (split; [split; by vm_compute|]).
  - left. right. by vm_compute.
  - right. split_and!; [done|done|left; vm_compute; lia].
  - left. left. by vm_compute.
  - right. split_and!; [done|done|right; split; done].
Qed.

Lemma ctr_stream_correct_ex : wp (ctr_encrypt 5 false 64 8192 demo_key demo_iv demo_calls (repeat 0 16) 16)
  (fun r _ => r = Some (gctr block_cipher demo_key demo_iv (concat (map u_in demo_calls))) \/
     r = None /\ exists e', pool_lock (setup_128_key false (gctr_code false) demo_key) (c_env (demo_state 3)) = Some (0, e'))
  (demo_state 3).
Proof.
  apply (ctr_stream_correct 5 64 8192 demo_key demo_iv demo_calls (repeat 0 16) 16 (demo_state 3));
    [lia|lia|done|done|apply demo_calls_ok|cbn; lia|lia|cbn; lia].
Defined.

Definition demo_used : xom_aes_ctr_context :=
  CtrCtx demo_iv demo_iv (seqZ 0 16) 8192 5 0 0 0 false.

Lemma ctr_reinit_keeps_pending_ex :
  wp (let! '(r, ctx') := aes_128_ctr_init demo_used demo_key 16 demo_iv 16 in
      if r =? 0 then ret None
      else let! '(_, o) := ctr_updates 5 ctx' [UpdateCall 96 (repeat 0 64) 32 (seqZ 40 20)] in ret (Some o))
    (fun r _ => match r with
                | Some o => o = gctr block_cipher demo_key demo_iv (take 16 (seqZ 0 5 ++ seqZ 40 20))
                | None => exists e', pool_lock (setup_128_key false (gctr_code false) demo_key) (c_env (demo_state 1)) = Some (0, e')
                end) (demo_state 1).
Proof.
  apply (ctr_reinit_keeps_pending 5 demo_key demo_iv demo_used (UpdateCall 96 (repeat 0 64) 32 (seqZ 40 20)) (demo_state 1));
    try done; first [by vm_compute; lia|split; [split; by vm_compute|left; right; by vm_compute]].
Defined.

Lemma ctr_overrun_reported_ok_ex :
  aes_128_ctr_cipher 3 true true false (CtrCtx demo_iv demo_iv demo_iv 8192 0 0 0 0 true) (repeat 0 16) (16 * 1)
    (seqZ 0 16) (16 * 1) (demo_state 1) =
  Some ((1, 16 * 1, (CtrCtx demo_iv demo_iv demo_iv 8192 0 0 0 0 true, splice 0 (repeat 0xcc 16) (repeat 0 16))),
        CState ∅ (ToyEnv ∅ 0)).
Proof.
  apply (ctr_overrun_reported_ok 2 (CtrCtx demo_iv demo_iv demo_iv 8192 0 0 0 0 true) (repeat 0 16) (seqZ 0 16) 1
           (repeat 0xcc 16) 2 (demo_state 1) (ToyEnv ∅ 0)); done || lia.
Defined.

Definition demo_refs : cstate toy_env := CState {[8192 := 1]} (ToyEnv ∅ 0).

Lemma ctr_refcount_correct_ex :
  (let! _ := ctr_dups 3 demo_used in ctr_frees 3 demo_used) demo_refs = Some (tt, demo_refs) /\
  forall e', pool_free 0 (ToyEnv ∅ 0) = Some (tt, e') ->
    aes_128_ctr_freectx demo_used demo_refs = Some (tt, CState (delete 8192 {[8192 := 1]}) e').
Proof. apply (ctr_refcount_correct 3 demo_used demo_refs); [done|lia]. Defined.
