(* ===== verification/GcmContext.v ===== *)
(** * The context of AES-128-GCM

    [aes_128_gcm_context] of [xom_aes_128_gcm.c] and an update function for
    each of its fields.  Pointers are addresses: [aad], [Htable], [refcount]
    and [staging_buffer] lie on the heap and are shared by duplicates of a
    context. *)

From S2P Require Import Prelude.

Record aes_128_gcm_context := GcmCtx {
  g_oiv : list Z;
  g_block : list Z;
  g_tag : list Z;
  g_J : list Z;
  g_H : list Z;
  g_hash_state : list Z;
  g_J0 : list Z;
  g_ctr_d : Z;
  g_Htable : Z;
  g_aad : Z;
  g_refcount : Z;
  g_ivlen : Z;
  g_aad_len : Z;
  g_num_ciphertext_blocks : Z;
  g_block_offset : Z;
  g_aes_fun : Z;
  g_staging_buffer : Z;
  g_decrypt : bool;
  g_key_initialized : bool;
  g_iv_initialized : bool;
  g_first_update : bool;
  g_has_h : bool;
  g_has_vaes : bool;
  g_has_vpclmulqdq : bool
}.

Definition set_g_oiv (x : list Z) (c : aes_128_gcm_context) : aes_128_gcm_context :=
  GcmCtx x (g_block c) (g_tag c) (g_J c) (g_H c) (g_hash_state c) (g_J0 c) (g_ctr_d c) (g_Htable c)
  (g_aad c) (g_refcount c) (g_ivlen c) (g_aad_len c) (g_num_ciphertext_blocks c) (g_block_offset c)
  (g_aes_fun c) (g_staging_buffer c) (g_decrypt c) (g_key_initialized c) (g_iv_initialized c)
  (g_first_update c) (g_has_h c) (g_has_vaes c) (g_has_vpclmulqdq c).
Definition set_g_block (x : list Z) (c : aes_128_gcm_context) : aes_128_gcm_context :=
  GcmCtx (g_oiv c) x (g_tag c) (g_J c) (g_H c) (g_hash_state c) (g_J0 c) (g_ctr_d c) (g_Htable c)
  (g_aad c) (g_refcount c) (g_ivlen c) (g_aad_len c) (g_num_ciphertext_blocks c) (g_block_offset c)
  (g_aes_fun c) (g_staging_buffer c) (g_decrypt c) (g_key_initialized c) (g_iv_initialized c)
  (g_first_update c) (g_has_h c) (g_has_vaes c) (g_has_vpclmulqdq c).
Definition set_g_tag (x : list Z) (c : aes_128_gcm_context) : aes_128_gcm_context :=
  GcmCtx (g_oiv c) (g_block c) x (g_J c) (g_H c) (g_hash_state c) (g_J0 c) (g_ctr_d c) (g_Htable c)
  (g_aad c) (g_refcount c) (g_ivlen c) (g_aad_len c) (g_num_ciphertext_blocks c) (g_block_offset c)
  (g_aes_fun c) (g_staging_buffer c) (g_decrypt c) (g_key_initialized c) (g_iv_initialized c)
  (g_first_update c) (g_has_h c) (g_has_vaes c) (g_has_vpclmulqdq c).
Definition set_g_J (x : list Z) (c : aes_128_gcm_context) : aes_128_gcm_context :=
  GcmCtx (g_oiv c) (g_block c) (g_tag c) x (g_H c) (g_hash_state c) (g_J0 c) (g_ctr_d c)
  (g_Htable c) (g_aad c) (g_refcount c) (g_ivlen c) (g_aad_len c) (g_num_ciphertext_blocks c)
  (g_block_offset c) (g_aes_fun c) (g_staging_buffer c) (g_decrypt c) (g_key_initialized c)
  (g_iv_initialized c) (g_first_update c) (g_has_h c) (g_has_vaes c) (g_has_vpclmulqdq c).
Definition set_g_H (x : list Z) (c : aes_128_gcm_context) : aes_128_gcm_context :=
  GcmCtx (g_oiv c) (g_block c) (g_tag c) (g_J c) x (g_hash_state c) (g_J0 c) (g_ctr_d c)
  (g_Htable c) (g_aad c) (g_refcount c) (g_ivlen c) (g_aad_len c) (g_num_ciphertext_blocks c)
  (g_block_offset c) (g_aes_fun c) (g_staging_buffer c) (g_decrypt c) (g_key_initialized c)
  (g_iv_initialized c) (g_first_update c) (g_has_h c) (g_has_vaes c) (g_has_vpclmulqdq c).
Definition set_g_hash_state (x : list Z) (c : aes_128_gcm_context) : aes_128_gcm_context :=
  GcmCtx (g_oiv c) (g_block c) (g_tag c) (g_J c) (g_H c) x (g_J0 c) (g_ctr_d c) (g_Htable c)
  (g_aad c) (g_refcount c) (g_ivlen c) (g_aad_len c) (g_num_ciphertext_blocks c) (g_block_offset c)
  (g_aes_fun c) (g_staging_buffer c) (g_decrypt c) (g_key_initialized c) (g_iv_initialized c)
  (g_first_update c) (g_has_h c) (g_has_vaes c) (g_has_vpclmulqdq c).
Definition set_g_J0 (x : list Z) (c : aes_128_gcm_context) : aes_128_gcm_context :=
  GcmCtx (g_oiv c) (g_block c) (g_tag c) (g_J c) (g_H c) (g_hash_state c) x (g_ctr_d c) (g_Htable c)
  (g_aad c) (g_refcount c) (g_ivlen c) (g_aad_len c) (g_num_ciphertext_blocks c) (g_block_offset c)
  (g_aes_fun c) (g_staging_buffer c) (g_decrypt c) (g_key_initialized c) (g_iv_initialized c)
  (g_first_update c) (g_has_h c) (g_has_vaes c) (g_has_vpclmulqdq c).
Definition set_g_ctr_d (x : Z) (c : aes_128_gcm_context) : aes_128_gcm_context :=
  GcmCtx (g_oiv c) (g_block c) (g_tag c) (g_J c) (g_H c) (g_hash_state c) (g_J0 c) x (g_Htable c)
  (g_aad c) (g_refcount c) (g_ivlen c) (g_aad_len c) (g_num_ciphertext_blocks c) (g_block_offset c)
  (g_aes_fun c) (g_staging_buffer c) (g_decrypt c) (g_key_initialized c) (g_iv_initialized c)
  (g_first_update c) (g_has_h c) (g_has_vaes c) (g_has_vpclmulqdq c).
Definition set_g_aad (x : Z) (c : aes_128_gcm_context) : aes_128_gcm_context :=
  GcmCtx (g_oiv c) (g_block c) (g_tag c) (g_J c) (g_H c) (g_hash_state c) (g_J0 c) (g_ctr_d c)
  (g_Htable c) x (g_refcount c) (g_ivlen c) (g_aad_len c) (g_num_ciphertext_blocks c)
  (g_block_offset c) (g_aes_fun c) (g_staging_buffer c) (g_decrypt c) (g_key_initialized c)
  (g_iv_initialized c) (g_first_update c) (g_has_h c) (g_has_vaes c) (g_has_vpclmulqdq c).
Definition set_g_ivlen (x : Z) (c : aes_128_gcm_context) : aes_128_gcm_context :=
  GcmCtx (g_oiv c) (g_block c) (g_tag c) (g_J c) (g_H c) (g_hash_state c) (g_J0 c) (g_ctr_d c)
  (g_Htable c) (g_aad c) (g_refcount c) x (g_aad_len c) (g_num_ciphertext_blocks c)
  (g_block_offset c) (g_aes_fun c) (g_staging_buffer c) (g_decrypt c) (g_key_initialized c)
  (g_iv_initialized c) (g_first_update c) (g_has_h c) (g_has_vaes c) (g_has_vpclmulqdq c).
Definition set_g_aad_len (x : Z) (c : aes_128_gcm_context) : aes_128_gcm_context :=
  GcmCtx (g_oiv c) (g_block c) (g_tag c) (g_J c) (g_H c) (g_hash_state c) (g_J0 c) (g_ctr_d c)
  (g_Htable c) (g_aad c) (g_refcount c) (g_ivlen c) x (g_num_ciphertext_blocks c) (g_block_offset c)
  (g_aes_fun c) (g_staging_buffer c) (g_decrypt c) (g_key_initialized c) (g_iv_initialized c)
  (g_first_update c) (g_has_h c) (g_has_vaes c) (g_has_vpclmulqdq c).
Definition set_g_num_ciphertext_blocks (x : Z) (c : aes_128_gcm_context) : aes_128_gcm_context :=
  GcmCtx (g_oiv c) (g_block c) (g_tag c) (g_J c) (g_H c) (g_hash_state c) (g_J0 c) (g_ctr_d c)
  (g_Htable c) (g_aad c) (g_refcount c) (g_ivlen c) (g_aad_len c) x (g_block_offset c) (g_aes_fun c)
  (g_staging_buffer c) (g_decrypt c) (g_key_initialized c) (g_iv_initialized c) (g_first_update c)
  (g_has_h c) (g_has_vaes c) (g_has_vpclmulqdq c).
Definition set_g_block_offset (x : Z) (c : aes_128_gcm_context) : aes_128_gcm_context :=
  GcmCtx (g_oiv c) (g_block c) (g_tag c) (g_J c) (g_H c) (g_hash_state c) (g_J0 c) (g_ctr_d c)
  (g_Htable c) (g_aad c) (g_refcount c) (g_ivlen c) (g_aad_len c) (g_num_ciphertext_blocks c) x
  (g_aes_fun c) (g_staging_buffer c) (g_decrypt c) (g_key_initialized c) (g_iv_initialized c)
  (g_first_update c) (g_has_h c) (g_has_vaes c) (g_has_vpclmulqdq c).
Definition set_g_aes_fun (x : Z) (c : aes_128_gcm_context) : aes_128_gcm_context :=
  GcmCtx (g_oiv c) (g_block c) (g_tag c) (g_J c) (g_H c) (g_hash_state c) (g_J0 c) (g_ctr_d c)
  (g_Htable c) (g_aad c) (g_refcount c) (g_ivlen c) (g_aad_len c) (g_num_ciphertext_blocks c)
  (g_block_offset c) x (g_staging_buffer c) (g_decrypt c) (g_key_initialized c) (g_iv_initialized c)
  (g_first_update c) (g_has_h c) (g_has_vaes c) (g_has_vpclmulqdq c).
Definition set_g_staging_buffer (x : Z) (c : aes_128_gcm_context) : aes_128_gcm_context :=
  GcmCtx (g_oiv c) (g_block c) (g_tag c) (g_J c) (g_H c) (g_hash_state c) (g_J0 c) (g_ctr_d c)
  (g_Htable c) (g_aad c) (g_refcount c) (g_ivlen c) (g_aad_len c) (g_num_ciphertext_blocks c)
  (g_block_offset c) (g_aes_fun c) x (g_decrypt c) (g_key_initialized c) (g_iv_initialized c)
  (g_first_update c) (g_has_h c) (g_has_vaes c) (g_has_vpclmulqdq c).
Definition set_g_decrypt (x : bool) (c : aes_128_gcm_context) : aes_128_gcm_context :=
  GcmCtx (g_oiv c) (g_block c) (g_tag c) (g_J c) (g_H c) (g_hash_state c) (g_J0 c) (g_ctr_d c)
  (g_Htable c) (g_aad c) (g_refcount c) (g_ivlen c) (g_aad_len c) (g_num_ciphertext_blocks c)
  (g_block_offset c) (g_aes_fun c) (g_staging_buffer c) x (g_key_initialized c) (g_iv_initialized c)
  (g_first_update c) (g_has_h c) (g_has_vaes c) (g_has_vpclmulqdq c).
Definition set_g_key_initialized (x : bool) (c : aes_128_gcm_context) : aes_128_gcm_context :=
  GcmCtx (g_oiv c) (g_block c) (g_tag c) (g_J c) (g_H c) (g_hash_state c) (g_J0 c) (g_ctr_d c)
  (g_Htable c) (g_aad c) (g_refcount c) (g_ivlen c) (g_aad_len c) (g_num_ciphertext_blocks c)
  (g_block_offset c) (g_aes_fun c) (g_staging_buffer c) (g_decrypt c) x (g_iv_initialized c)
  (g_first_update c) (g_has_h c) (g_has_vaes c) (g_has_vpclmulqdq c).
Definition set_g_iv_initialized (x : bool) (c : aes_128_gcm_context) : aes_128_gcm_context :=
  GcmCtx (g_oiv c) (g_block c) (g_tag c) (g_J c) (g_H c) (g_hash_state c) (g_J0 c) (g_ctr_d c)
  (g_Htable c) (g_aad c) (g_refcount c) (g_ivlen c) (g_aad_len c) (g_num_ciphertext_blocks c)
  (g_block_offset c) (g_aes_fun c) (g_staging_buffer c) (g_decrypt c) (g_key_initialized c) x
  (g_first_update c) (g_has_h c) (g_has_vaes c) (g_has_vpclmulqdq c).
Definition set_g_first_update (x : bool) (c : aes_128_gcm_context) : aes_128_gcm_context :=
  GcmCtx (g_oiv c) (g_block c) (g_tag c) (g_J c) (g_H c) (g_hash_state c) (g_J0 c) (g_ctr_d c)
  (g_Htable c) (g_aad c) (g_refcount c) (g_ivlen c) (g_aad_len c) (g_num_ciphertext_blocks c)
  (g_block_offset c) (g_aes_fun c) (g_staging_buffer c) (g_decrypt c) (g_key_initialized c)
  (g_iv_initialized c) x (g_has_h c) (g_has_vaes c) (g_has_vpclmulqdq c).
Definition set_g_has_h (x : bool) (c : aes_128_gcm_context) : aes_128_gcm_context :=
  GcmCtx (g_oiv c) (g_block c) (g_tag c) (g_J c) (g_H c) (g_hash_state c) (g_J0 c) (g_ctr_d c)
  (g_Htable c) (g_aad c) (g_refcount c) (g_ivlen c) (g_aad_len c) (g_num_ciphertext_blocks c)
  (g_block_offset c) (g_aes_fun c) (g_staging_buffer c) (g_decrypt c) (g_key_initialized c)
  (g_iv_initialized c) (g_first_update c) x (g_has_vaes c) (g_has_vpclmulqdq c).
