(* ===== verification/AesGcm.v ===== *)
(** * AES-128-GCM of the OpenSSL provider

    [xom_aes_128_gcm.c]: contexts, initialisation with key and IV, additional
    data, streaming encryption and decryption with the hash running along, and
    the final tag.  The assembly routines (counter mode, GHASH, the hash key)
    are parameters. *)

From S2P Require Import Prelude XomDomain ModXom CHeap Gctr GcmContext.

Definition AES_128_GCM_IV_SIZE : Z := 16.
Definition AES_128_GCM_BLOCK_SIZE : Z := 16.
Definition AES_128_GCM_TAG_SIZE : Z := 16.

(** ** Environment

    [get_H key] is [get_H_unprotected]; [gcm_init v Xi] the table that
    [gcm_init_avx] or [gcm_init_clmul] computes; [gcm_ghash v Xi Htable inp]
    the new hash state.  *)
Class GcmEnv := {
  get_H : list Z -> list Z;
  gcm_init : bool -> list Z -> list Z;
  gcm_ghash : bool -> list Z -> list Z -> list Z -> list Z
}.

(** The two quad-words with their bytes swapped ([bswapq]) *)
Definition bswap_quads (h : list Z) : list Z := rev (take 8 h) ++ rev (take 8 (drop 8 h)).

Section gcm.
Context {V : Type} `{GctrEnv V} `{HeapEnv} `{GcmEnv}.
Abbreviation M := (M (gstate V)).

Definition gcall_aes (icb x : list Z) (n f : Z) (v : bool) : M (list Z * Z) :=
  gin_env (fun e => Some (call_aes_implementation icb x n f v e)).

(** ** Life cycle *)

(** [padded_size]: the next multiple of 128 *)
Definition aad_padded (len : Z) : Z := len / 128 * 128 + (if len mod 128 =? 0 then 0 else 128).

(** [data] is [None] for a null pointer. *)
Definition init_aad (ctx : aes_128_gcm_context) (data : option (list Z)) (data_len : Z)
    : M aes_128_gcm_context :=
  do! gfree (g_aad ctx) in
  let bytes := match data with Some d => take (Z.to_nat data_len) d | None => heap_junk (Z.to_nat data_len) end in
  let! p := gmalloc (bytes ++ repeat 0 (Z.to_nat (aad_padded data_len - data_len))) in
  ret (set_g_aad_len data_len (set_g_aad p ctx)).

(** [ptr] and [fresh] are what the allocator returns for the context and for
    its counter. *)
Definition aes_128_gcm_newctx (vaes vpclmulqdq : bool) (ptr fresh : Z) : M aes_128_gcm_context :=
  if (ptr =? 0) || (fresh =? 0) then ub
  else
    do! set_refcount fresh 1 in
    let! table := gmalloc (heap_junk 256) in
    let z := repeat 0 16 in
    ret (GcmCtx z z z z z z z 0 table 0 fresh 0 0 0 0 0 0 false false false false false vaes vpclmulqdq).

Definition aes_128_gcm_freectx (ctx : aes_128_gcm_context) : M unit :=
  let! s := get in
  match gs_refs s !! g_refcount ctx with
  | None => ub
  | Some n =>
      let n := u32 (n - 1) in
      if n =? 0 then
        do! gin_env (pool_free (g_aes_fun ctx)) in
        do! gfree (g_staging_buffer ctx) in
        do! modify (fun s => GState (delete (g_refcount ctx) (gs_refs s)) (gs_heap s) (gs_env s)) in
        do! gfree (g_aad ctx) in
        gfree (g_Htable ctx)
      else set_refcount (g_refcount ctx) n
  end.

Definition aes_128_gcm_dupctx (ctx : aes_128_gcm_context) : M aes_128_gcm_context :=
  let! s := get in
  match gs_refs s !! g_refcount ctx with
  | None => ub
  | Some n => do! set_refcount (g_refcount ctx) (u32 (n + 1)) in ret ctx
  end.

(** ** Hashing *)

(** [ghash(ctx, in, num_blocks)]: the hash state is updated in place. *)
Definition ghash (ctx : aes_128_gcm_context) (inp : list Z) : M aes_128_gcm_context :=
  if decide (length inp = O) then ret ctx
  else
    let! table := gload (g_Htable ctx) in
    ret (set_g_hash_state (gcm_ghash (g_has_vpclmulqdq ctx) (g_hash_state ctx) table inp) ctx).

(** Number of blocks of [len] bytes *)
Definition num_blocks (len : Z) : Z := len / AES_128_GCM_BLOCK_SIZE + (if len mod AES_128_GCM_BLOCK_SIZE =? 0 then 0 else 1).

(** Returns [J0] and the context. *)
Definition getJ0 (ctx : aes_128_gcm_context) : M (list Z * aes_128_gcm_context) :=
  if g_ivlen ctx =? 12 then ret (take 12 (g_oiv ctx) ++ [0; 0; 0; 1], ctx)
  else
    let n := 16 * num_blocks (g_ivlen ctx) in
    if Z.of_nat (length (g_oiv ctx)) <? n then ub
    else
      let! ctx := ghash ctx (take (Z.to_nat n) (g_oiv ctx)) in
      let! ctx := ghash ctx (be64 0 ++ be64 (u64 (g_ivlen ctx * 8))) in
      ret (g_hash_state ctx, set_g_hash_state (repeat 0 16) ctx).

(** The hash of the additional data in [ctx->aad]. *)
Definition hash_aad (ctx : aes_128_gcm_context) : M aes_128_gcm_context :=
  let! aad := gload (g_aad ctx) in
  let n := Z.to_nat (16 * num_blocks (g_aad_len ctx)) in
  if decide (length aad < n)%nat then ub else ghash ctx (take n aad).

(** ** Initialisation *)

(** The part of [aes_128_gcm_einit] that takes a key. *)
Definition gcm_set_key (ctx : aes_128_gcm_context) (key : list Z) : M aes_128_gcm_context :=
  let v := g_has_vaes ctx in
  let! ctx := (if g_staging_buffer ctx =? 0
               then let! p := gmalloc (heap_junk (length (gctr_code v))) in ret (set_g_staging_buffer p ctx)
               else ret ctx) in
  do! gstore (g_staging_buffer ctx) (setup_128_key v (gctr_code v) key) in
  let ctx := set_g_key_initialized true ctx in
  if g_has_h ctx then ret ctx
  else
    let h := get_H (take 16 key) in
    do! gstore (g_Htable ctx) (gcm_init (g_has_vpclmulqdq ctx) (bswap_quads h)) in
    ret (set_g_has_h true (set_g_H h ctx)).

(** The part that takes an IV: [memcpy] of more bytes than [oiv] has, or than
    the caller passed, is undefined. *)
Definition gcm_set_iv (ctx : aes_128_gcm_context) (iv : list Z) (ivlen : Z) : M aes_128_gcm_context :=
  let n := if ivlen =? 0 then g_ivlen ctx else ivlen in
  let n := if n =? 0 then 12 else n in
  if (AES_128_GCM_IV_SIZE <? n) || (Z.of_nat (length iv) <? n) then ub
  else ret (set_g_iv_initialized true
             (set_g_oiv (splice 0 (take (Z.to_nat n) iv) (g_oiv ctx)) (set_g_ivlen n ctx))).

(** The part that runs once key and IV are there: the code goes into
    execute-only memory, [J0] and the first counter block are built, and
    additional data set before is hashed. *)
Definition gcm_start (ctx : aes_128_gcm_context) : M aes_128_gcm_context :=
  let! ctx := (if g_staging_buffer ctx =? 0 then ret ctx
               else
                 let! code := gload (g_staging_buffer ctx) in
                 let! f := gin_env (pool_lock code) in
                 do! gfree (g_staging_buffer ctx) in
                 ret (set_g_staging_buffer 0 (set_g_aes_fun f ctx))) in
  let! '(j0, ctx) := getJ0 ctx in
  let d := u32 (load_ctr j0 + 1) in
  let ctx := set_g_J (store_ctr d j0) (set_g_ctr_d d (set_g_J0 j0 ctx)) in
  if g_aad ctx =? 0 then ret ctx else hash_aad ctx.

(** [key] and [iv] are [None] for null pointers. *)
Definition aes_128_gcm_einit (ctx : aes_128_gcm_context) (key : option (list Z)) (keylen : Z)
    (iv : option (list Z)) (ivlen : Z) : M (Z * aes_128_gcm_context) :=
  let! ctx := match key with
              | Some k => if keylen =? 0 then ret ctx else gcm_set_key ctx k
              | None => ret ctx
              end in
  let! ctx := match iv with Some i => gcm_set_iv ctx i ivlen | None => ret ctx end in
  if negb (g_iv_initialized ctx && g_key_initialized ctx) then ret (1, ctx)
  else let! ctx := gcm_start ctx in ret (1, ctx).

Definition aes_128_gcm_dinit (ctx : aes_128_gcm_context) (key : option (list Z)) (keylen : Z)
    (iv : option (list Z)) (ivlen : Z) : M (Z * aes_128_gcm_context) :=
  aes_128_gcm_einit (set_g_decrypt true ctx) key keylen iv ivlen.

(** ** Encryption and decryption *)

Definition chunk_blocks : Z := 0x800.

(** The [while (num_in_blocks)] loop of [aes_128_gcm_cipher]. *)
Fixpoint gcm_loop (fuel : nat) (alias : bool) (total left : Z) (ctx : aes_128_gcm_context) (b : bufs)
    : M (aes_128_gcm_context * bufs) :=
  match fuel with
  | O => ub
  | S fuel =>
      if left =? 0 then ret (ctx, b)
      else
        let n := Z.min left chunk_blocks in
        let off := Z.to_nat (u32 ((total - left) * AES_128_GCM_BLOCK_SIZE)) in
        let len := Z.to_nat (n * AES_128_GCM_BLOCK_SIZE) in
        if decide (length (b_in b) < off + len)%nat then ub
        else
          let! '(y, rem) := gcall_aes (g_J ctx) (take len (drop off (b_in b))) n (g_aes_fun ctx) (g_has_vaes ctx) in
          let! b := glift (store_out alias off y b) in
          let blocks_processed := u32 (n - rem) in
          if left <? blocks_processed then ret (ctx, b)
          else
            let ctx := set_g_num_ciphertext_blocks (u64 (g_num_ciphertext_blocks ctx + blocks_processed)) ctx in
            let! ctx := ghash ctx (take (Z.to_nat (blocks_processed * AES_128_GCM_BLOCK_SIZE))
                                     (drop off (if g_decrypt ctx then b_in b else b_out b))) in
            let d := u32 (g_ctr_d ctx + blocks_processed) in
            let ctx := set_g_J (store_ctr d (g_J ctx)) (set_g_ctr_d d ctx) in
            gcm_loop fuel alias total (left - blocks_processed) ctx b
  end.

(** Arguments and results as [aes_128_ctr_cipher]. *)
Definition aes_128_gcm_cipher (fuel : nat) (al_out al_in alias : bool) (ctx : aes_128_gcm_context)
    (out : list Z) (outsize : Z) (inp : list Z) (inl : Z) : M (Z * Z * (aes_128_gcm_context * list Z)) :=
  let num_in_blocks := u32 (inl / AES_128_GCM_BLOCK_SIZE) in
  let num_out_blocks := u32 (outsize / AES_128_GCM_BLOCK_SIZE) in
  let len := u32 (num_in_blocks * AES_128_GCM_BLOCK_SIZE) in
  let! wout := glift (make_aligned al_out out len) in
  let! win := glift (make_aligned al_in inp len) in
  let n := if num_out_blocks <? num_in_blocks then num_out_blocks else num_in_blocks in
  let! '(ctx, b) := gcm_loop fuel (alias && al_out) n n ctx (Bufs win wout) in
  let outl := u32 (n * AES_128_GCM_BLOCK_SIZE) in
  ret (1, outl, (ctx, free_aligned al_out (b_out b) out outl)).

(** What [in] holds: with [alias] it is the start of [out]. *)
Definition gcm_in (alias : bool) (out inp : list Z) : list Z :=
  if alias then take (length inp) out else inp.

(** The part of [aes_128_gcm_stream_update] after the additional data: the
    same as the update of counter mode. *)
Definition gcm_update_data (fuel : nat) (ctx : aes_128_gcm_context) (out_a : Z) (out : list Z)
    (outsize in_a : Z) (inp : list Z) : M (Z * Z * (aes_128_gcm_context * list Z)) :=
  let alias := out_a =? in_a in
  let off := g_block_offset ctx in
  let inl := Z.of_nat (length inp) in
  if inl + off <? AES_128_GCM_BLOCK_SIZE then
    let! blk := glift (store_at (Z.to_nat off) inp (g_block ctx)) in
    ret (1, 0, (set_g_block_offset (u8 (off + inl)) (set_g_block blk ctx), out))
  else if negb (off =? 0) && (outsize <? AES_128_GCM_BLOCK_SIZE) then ret (0, 0, (ctx, out))
  else
    let k := if off =? 0 then 0 else AES_128_GCM_BLOCK_SIZE - off in
    let o := if off =? 0 then 0 else AES_128_GCM_BLOCK_SIZE in
    let! '(outl, (ctx, out)) :=
      (if off =? 0 then ret (0, (ctx, out))
       else
         let inbuf := take (Z.to_nat off) (g_block ctx) ++ take (Z.to_nat k) inp in
         let! '(_, c_outl, r) := aes_128_gcm_cipher fuel (is_aligned out_a) true false ctx
                                   out AES_128_GCM_BLOCK_SIZE inbuf AES_128_GCM_BLOCK_SIZE in
         ret (c_outl, r)) in
    let inl := inl - k in
    let! '(_, c_outl, (ctx, out2)) :=
      aes_128_gcm_cipher fuel (is_aligned (out_a + o)) (is_aligned (in_a + k)) (alias && (off =? 0)) ctx
        (drop (Z.to_nat o) out) (outsize - o)
        (drop (Z.to_nat k) (gcm_in alias out inp)) inl in
    let out := take (Z.to_nat o) out ++ out2 in
    let full := Z.land inl (Z.lnot (AES_128_GCM_BLOCK_SIZE - 1)) in
    let! blk := glift (store_at 0 (drop (Z.to_nat (k + full)) (gcm_in alias out inp)) (g_block ctx)) in
    ret (1, outl + c_outl, (set_g_block_offset (u8 (inl - full)) (set_g_block blk ctx), out)).

(** The first update is additional data if it is shorter than a block. *)
Definition aes_128_gcm_stream_update (fuel : nat) (ctx : aes_128_gcm_context) (out_a : Z) (out : list Z)
    (outsize in_a : Z) (inp : list Z) : M (Z * Z * (aes_128_gcm_context * list Z)) :=
  let inl := Z.of_nat (length inp) in
  if g_first_update ctx then gcm_update_data fuel ctx out_a out outsize in_a inp
  else
    let ctx := set_g_first_update true ctx in
    if inl =? 0 then ret (1, 0, (ctx, out))
    else if inl <? AES_128_GCM_BLOCK_SIZE then
      let! ctx := init_aad ctx (Some inp) inl in
      let! ctx := hash_aad ctx in
      ret (1, 0, (ctx, out))
    else gcm_update_data fuel ctx out_a out outsize in_a inp.

(** [while (call_aes_implementation(icb, in, out, 1, ...));] with an output
    buffer of 32 bytes *)
Fixpoint gcm_one_block (fuel : nat) (icb : list Z) (f : Z) (v : bool) (inbuf outbuf : list Z) : M (list Z) :=
  match fuel with
  | O => ub
  | S fuel =>
      let! '(y, rem) := gcall_aes icb inbuf 1 f v in
      let! outbuf := glift (store_at 0 y outbuf) in
      if rem =? 0 then ret outbuf else gcm_one_block fuel icb f v inbuf outbuf
  end.

(** The part of [aes_128_gcm_stream_final] before the tag: what is left over is
    encrypted, and it and the length block are hashed.  [junk] is what the
    buffer on the stack holds; the bytes written to [out] are returned. *)
Definition gcm_final_block (fuel : nat) (ctx : aes_128_gcm_context) (junk : list Z) (outsize : Z)
    : M (list Z * aes_128_gcm_context) :=
  let off := g_block_offset ctx in
  let lengths := be64 (u64 (Z.shiftl (g_aad_len ctx) 3)) ++
                 be64 (u64 (g_num_ciphertext_blocks ctx * 128 + off * 8)) in
  if off =? 0 then let! ctx := ghash ctx lengths in ret ([], ctx)
  else
    let pad := repeat 0 (Z.to_nat (16 - off)) in
    let inbuf := take (Z.to_nat off) (g_block ctx) ++ pad in
    let! outbuf := gcm_one_block fuel (g_J ctx) (g_aes_fun ctx) (g_has_vaes ctx) inbuf (take 32 junk) in
    let last := if g_decrypt ctx then inbuf else take (Z.to_nat off) outbuf ++ pad in
    let! ctx := ghash ctx (last ++ lengths) in
    ret (take (Z.to_nat (Z.min outsize off)) outbuf, ctx).

(** Returns the status, [*outl], the bytes written to [out] and the context. *)
Definition aes_128_gcm_stream_final (fuel : nat) (ctx : aes_128_gcm_context) (junk : list Z) (outsize : Z)
    : M (Z * Z * (list Z * aes_128_gcm_context)) :=
  let! '(out, ctx) := gcm_final_block fuel ctx junk outsize in
  let! tag_buf := gcm_one_block fuel (g_J0 ctx) (g_aes_fun ctx) (g_has_vaes ctx) (g_hash_state ctx) (take 32 junk) in
  let tag := take 16 tag_buf in
  let retval := if g_decrypt ctx then (if bool_decide (tag = g_tag ctx) then 1 else 0) else 1 in
  let ctx := if g_decrypt ctx then ctx else set_g_tag tag ctx in
  let outl := g_block_offset ctx in
  do! gfree (g_aad ctx) in
  let ctx := set_g_hash_state (repeat 0 16) (set_g_ctr_d 0 (set_g_block (repeat 0 16)
               (set_g_num_ciphertext_blocks 0 (set_g_block_offset 0 (set_g_first_update false
               (set_g_aad_len 0 (set_g_aad 0 ctx))))))) in
  ret (retval, outl, (out, ctx)).
End gcm.
