(* ===== verification/GcmSpec.v ===== *)
(** * AES-128-GCM: specification and the streaming invariant

    GHASH and the tag as the standard (SP 800-38D) defines them over an
    abstract block cipher and field multiplication, the contracts of the
    assembly routines, and the functions of the model against them. *)

From S2P Require Import Prelude XomDomain ModXom CHeap Gctr AesCtr AesCtrTheorems GcmContext AesGcm.

(** ** GHASH *)

Definition blocks16 (data : list Z) : list (list Z) := chunks 16 data.

(** [gmul h x] is the product in GF(2^128). *)
Definition ghash_from (gmul : list Z -> list Z -> list Z) (h x : list Z) (data : list Z) : list Z :=
  foldl (fun x b => gmul h (zip_with Z.lxor x b)) x (blocks16 data).

(** Zeros up to a multiple of 16 bytes *)
Definition pad16 (x : list Z) : list Z := x ++ repeat 0 ((16 - length x mod 16) mod 16).

(** [J0] of a 96-bit IV *)
Definition gcm_j0 (iv : list Z) : list Z := iv ++ [0; 0; 0; 1].

Definition gcm_lengths (aad ct : list Z) : list Z :=
  be64 (8 * Z.of_nat (length aad)) ++ be64 (8 * Z.of_nat (length ct)).

Section spec.
Context (E gmul : list Z -> list Z -> list Z).

Definition gcm_ciphertext (key iv pt : list Z) : list Z := gctr E key (ctr_block (gcm_j0 iv) 1) pt.

Definition gcm_tag (key iv aad ct : list Z) : list Z :=
  gctr E key (gcm_j0 iv)
    (ghash_from gmul (E key (repeat 0 16)) (repeat 0 16) (pad16 aad ++ pad16 ct ++ gcm_lengths aad ct)).
End spec.

(** ** What the code relies on *)

Class GcmLaws (V : Type) `{GctrLaws V} `{GcmEnv} := {
  gmul : list Z -> list Z -> list Z;
  length_gmul : forall h x, length (gmul h x) = 16%nat;
  get_H_spec : forall key, length key = 16%nat -> get_H key = block_cipher key (repeat 0 16);
  gcm_ghash_spec : forall v h x data, length x = 16%nat -> (length data mod 16 = 0)%nat ->
    gcm_ghash v x (gcm_init v (bswap_quads h)) data = ghash_from gmul h x data
}.

(** ** Lemmas on GHASH *)

Section ghash.
Context (m : list Z -> list Z -> list Z).

Lemma ghash_app h x a b : (length a mod 16 = 0)%nat ->
  ghash_from m h x (a ++ b) = ghash_from m h (ghash_from m h x a) b.
Proof. intros Ha. unfold ghash_from, blocks16. by rewrite chunks_app, foldl_app. Qed.

Lemma ghash_nil h x : ghash_from m h x [] = x.
Proof. done. Qed.

Lemma length_ghash h x data : (forall a b, length (m a b) = 16%nat) -> length x = 16%nat ->
  length (ghash_from m h x data) = 16%nat.
Proof.
  intros Hm. unfold ghash_from. revert x. induction (blocks16 data) as [|b l IH]; intros x Hx; [done|].
  cbn. apply IH. by rewrite Hm.
Qed.
End ghash.

Lemma pad16_mod x : (length (pad16 x) mod 16 = 0)%nat.
Proof.
  unfold pad16. rewrite length_app, repeat_length. pose proof (Nat.div_mod_eq (length x) 16).
  pose proof (Nat.mod_upper_bound (length x) 16). set (r := (length x mod 16)%nat) in *.
  destruct (decide (r = O)) as [Hr|Hr].
  - rewrite Hr. change ((16 - 0) mod 16)%nat with O. rewrite Nat.add_0_r. done.
  - rewrite (Nat.mod_small (16 - r)) by lia.
    replace (length x + (16 - r))%nat with ((length x / 16 + 1) * 16)%nat by lia. apply Nat.Div0.mod_mul.
Qed.

Lemma pad16_full x : (length x mod 16 = 0)%nat -> pad16 x = x.
Proof. intros Hx. unfold pad16. rewrite Hx. cbn. apply app_nil_r. Qed.

Lemma pad16_app x y : (length x mod 16 = 0)%nat -> pad16 (x ++ y) = x ++ pad16 y.
Proof.
  intros Hx. unfold pad16. rewrite <- app_assoc, length_app.
  by rewrite <- Nat.Div0.add_mod_idemp_l, Hx, Nat.add_0_l.
Qed.

(** ** The streaming invariant *)

Section gcm_proofs.
Context {V : Type} `{GcmLaws V}.
Abbreviation E := block_cipher.
Implicit Types (s : gstate V) (ctx : aes_128_gcm_context).

(** The hash key *)
Definition hkey (key : list Z) : list Z := E key (repeat 0 16).

Record gctx_ok (key : list Z) (ctx : aes_128_gcm_context) (s : gstate V) : Prop := {
  gk_code : code_at (gs_env s) (g_aes_fun ctx) = Some (setup_128_key (g_has_vaes ctx) (gctr_code (g_has_vaes ctx)) key);
  gk_table : gs_heap s !! g_Htable ctx = Some (gcm_init (g_has_vpclmulqdq ctx) (bswap_quads (hkey key)));
  gk_key : length key = 16%nat;
  gk_J : length (g_J ctx) = 16%nat;
  gk_ctr : g_ctr_d ctx = load_ctr (g_J ctx);
  gk_block : length (g_block ctx) = 16%nat;
  gk_off : 0 <= g_block_offset ctx < 16;
  gk_hash : length (g_hash_state ctx) = 16%nat;
  gk_num : 0 <= g_num_ciphertext_blocks ctx < 2 ^ 64
}.

Definition gs_step (s s' : gstate V) : Prop :=
  gs_refs s' = gs_refs s /\ gs_heap s' = gs_heap s /\ run_step (gs_env s) (gs_env s').

Lemma gs_step_refl s : gs_step s s.
Proof. split_and!; [done|done|apply run_step_refl]. Qed.

Lemma gs_step_trans s1 s2 s3 : gs_step s1 s2 -> gs_step s2 s3 -> gs_step s1 s3.
Proof. intros (R1 & P1 & S1) (R2 & P2 & S2). split_and!; [congruence|congruence|by eapply run_step_trans]. Qed.

(** The context with another counter block, block count and hash state: all
    that encryption changes. *)
Definition gmove (c : aes_128_gcm_context) (j : list Z) (n : Z) (h : list Z) : aes_128_gcm_context :=
  set_g_J j (set_g_ctr_d (load_ctr j) (set_g_num_ciphertext_blocks n (set_g_hash_state h c))).

Lemma gmove_id key ctx s : gctx_ok key ctx s ->
  ctx = gmove ctx (g_J ctx) (g_num_ciphertext_blocks ctx) (g_hash_state ctx).
Proof. intros []. destruct ctx. cbn in *. by subst. Qed.

Lemma gmove_gmove c j n h j' n' h' : gmove (gmove c j n h) j' n' h' = gmove c j' n' h'.
Proof. done. Qed.

Lemma gmove_ok key ctx s s' j n h : gctx_ok key ctx s -> gs_step s s' -> length j = 16%nat ->
  0 <= n < 2 ^ 64 -> length h = 16%nat -> gctx_ok key (gmove ctx j n h) s'.
Proof.
  intros [Hc Ht Hk HJ Hd Hb Ho Hh Hn] (_ & Hheap & Hcode & _) Hj Hn' Hh'.
  split; cbn; try done; [by rewrite Hcode|by rewrite Hheap].
Qed.

Lemma gctx_ok_step key ctx s s' : gctx_ok key ctx s -> gs_step s s' -> gctx_ok key ctx s'.
Proof. intros Hc Hs. rewrite (gmove_id _ _ _ Hc). by apply (gmove_ok _ _ s); [|by destruct Hc..]. Qed.

Lemma wp_ghash (Q : aes_128_gcm_context -> gstate V -> Prop) key ctx data s :
  gctx_ok key ctx s -> (length data mod 16 = 0)%nat ->
  Q (set_g_hash_state (ghash_from gmul (hkey key) (g_hash_state ctx) data) ctx) s -> wp (ghash ctx data) Q s.
Proof.
  intros Hc Hd HQ. unfold ghash. destruct (decide (length data = O)) as [Hz|Hz].
  - apply wp_ret. apply length_zero_iff_nil in Hz as ->. rewrite ghash_nil in HQ.
    by replace (set_g_hash_state (g_hash_state ctx) ctx) with ctx in HQ by (by destruct ctx).
  - apply wp_bind. exists (gcm_init (g_has_vpclmulqdq ctx) (bswap_quads (hkey key))), s. split.
    + unfold gload. by rewrite (gk_table _ _ _ Hc).
    + apply wp_ret. rewrite gcm_ghash_spec; [done|apply Hc|done].
Qed.

Lemma wp_gcall (Q : list Z * Z -> gstate V -> Prop) key ctx icb x n s :
  gctx_ok key ctx s -> length icb = 16%nat -> 0 < n -> length x = Z.to_nat (16 * n) ->
  (g_has_vaes ctx = true -> Z.Even n) ->
  (forall y rem s', let k := Z.to_nat (16 * (n - rem)) in
     gs_step s s' -> 0 <= rem <= n -> (g_has_vaes ctx = true -> Z.Even rem) ->
     (k <= length y <= Z.to_nat (16 * n))%nat -> take k y = gctr E key icb (take k x) ->
     (rem <> 0 -> (clears_left (gs_env s') < clears_left (gs_env s))%nat) -> Q (y, rem) s') ->
  wp (gcall_aes icb x n (g_aes_fun ctx) (g_has_vaes ctx)) Q s.
Proof.
  intros Hc Hi Hn Hx Hev HQ. unfold wp, gcall_aes, gin_env.
  destruct (call_aes_implementation _ _ _ _ _ _) as [[y rem] e'] eqn:Hcall.
  apply (call_aes_correct _ _ _ _ _ key) in Hcall as (R1 & R2 & R3 & R4 & R5 & R6); try done; try apply Hc.
  exists (y, rem), (GState (gs_refs s) (gs_heap s) e'). split; [done|]. by apply HQ.
Qed.

(** One pass over [x]: what it makes of the context.  The hash runs over the
    ciphertext, which is the input when decrypting. *)
Definition gpass (key : list Z) (ctx : aes_128_gcm_context) (x : list Z) : aes_128_gcm_context :=
  let q := (length x / 16)%nat in
  gmove ctx (next_icb (g_J ctx) q) (u64 (g_num_ciphertext_blocks ctx + Z.of_nat q))
    (ghash_from gmul (hkey key) (g_hash_state ctx) (if g_decrypt ctx then x else gctr E key (g_J ctx) x)).

Lemma gpass_nil key ctx s : gctx_ok key ctx s -> gpass key ctx [] = ctx.
Proof.
  intros Hc. unfold gpass. cbn [length]. change (0 / 16)%nat with O. rewrite Z.add_0_r.
  unfold u64. rewrite Z.mod_small by apply Hc. symmetry.
  etransitivity; [by eapply gmove_id|]. f_equal. by destruct (g_decrypt ctx).
Qed.

Lemma gpass_ok key ctx s s' x : gctx_ok key ctx s -> gs_step s s' -> gctx_ok key (gpass key ctx x) s'.
Proof.
  intros Hc Hs. unfold gpass. apply (gmove_ok _ _ s); [done|done| | |].
  - by apply length_next_icb, Hc.
  - unfold u64. apply Z.mod_pos_bound. lia.
  - apply length_ghash; [apply length_gmul|apply Hc].
Qed.

Lemma gpass_app key ctx s x y : gctx_ok key ctx s -> (length x mod 16 = 0)%nat ->
  gpass key (gpass key ctx x) y = gpass key ctx (x ++ y).
Proof.
  intros Hc Hx. set (q := (length x / 16)%nat).
  assert (Hl : length x = (16 * q)%nat) by (pose proof (Nat.div_mod_eq (length x) 16); unfold q; lia).
  assert (Hq : ((length (x ++ y)) / 16 = q + length y / 16)%nat).
  { rewrite length_app, Hl, (Nat.mul_comm 16 q), Nat.div_add_l; lia. }
  unfold gpass at 1 3. rewrite Hq.
  change (g_decrypt (gpass key ctx x)) with (g_decrypt ctx).
  change (g_J (gpass key ctx x)) with (next_icb (g_J ctx) q).
  change (g_num_ciphertext_blocks (gpass key ctx x)) with (u64 (g_num_ciphertext_blocks ctx + Z.of_nat q)).
  change (g_hash_state (gpass key ctx x)) with
    (ghash_from gmul (hkey key) (g_hash_state ctx) (if g_decrypt ctx then x else gctr E key (g_J ctx) x)).
  assert (Hu : u64 (u64 (g_num_ciphertext_blocks ctx + Z.of_nat q) + Z.of_nat (length y / 16)) =
               u64 (g_num_ciphertext_blocks ctx + Z.of_nat (q + length y / 16))).
  { unfold u64. rewrite Zplus_mod_idemp_l. f_equal. lia. }
  rewrite Hu, next_icb_add by apply Hc. unfold gpass. rewrite gmove_gmove. f_equal.
  destruct (g_decrypt ctx).
  - by rewrite ghash_app.
  - rewrite (gctr_next _ _ _ _ _ q) by (done || apply Hc). rewrite ghash_app by (by rewrite length_gctr). done.
Qed.

(** Reading the counter back before the next block changes nothing. *)
Lemma gpass_norm key ctx s x : gctx_ok key ctx s -> (16 <= length x)%nat ->
  gpass key (gmove ctx (ctr_block (g_J ctx) 0) (g_num_ciphertext_blocks ctx) (g_hash_state ctx)) x = gpass key ctx x.
Proof.
  intros Hc Hx. unfold gpass. rewrite gmove_gmove. cbn [gmove set_g_J set_g_ctr_d set_g_num_ciphertext_blocks
    set_g_hash_state g_J g_num_ciphertext_blocks g_hash_state g_decrypt].
  assert (Hg : gctr E key (ctr_block (g_J ctx) 0) x = gctr E key (g_J ctx) x).
  { apply imap_ext. intros j b _. cbn. f_equal. by apply (keystream_shift _ _ _ 0), Hc. }
  assert (Hq : (length x / 16)%nat <> O) by (pose proof (Nat.div_le_lower_bound (length x) 16 1); lia).
  rewrite Hg. f_equal. unfold next_icb. rewrite !decide_False by done.
  by rewrite ctr_block_add by apply Hc.
Qed.

(** After a run that did [p] blocks: the rest completes the pass. *)
Lemma gpass_run key ctx s x p : gctx_ok key ctx s -> 0 <= p -> (Z.to_nat (16 * p) <= length x)%nat ->
  (length x mod 16 = 0)%nat -> (16 <= length x)%nat -> let k := Z.to_nat (16 * p) in
  let xk := take k x in
  gpass key (gmove ctx (ctr_block (g_J ctx) p) (u64 (g_num_ciphertext_blocks ctx + p))
    (ghash_from gmul (hkey key) (g_hash_state ctx) (if g_decrypt ctx then xk else gctr E key (g_J ctx) xk)))
    (drop k x) = gpass key ctx x.
Proof.
  intros Hc Hp Hk Hx Hx16 k xk. destruct (decide (p = 0)) as [->|Hp0].
  - change k with O in *. unfold xk. rewrite take_0, drop_0, Z.add_0_r. unfold u64. rewrite Z.mod_small by apply Hc.
    replace (ghash_from _ _ _ _) with (g_hash_state ctx) by (by destruct (g_decrypt ctx)).
    by eapply gpass_norm.
  - assert (Hxk : length xk = k) by (unfold xk; rewrite length_take; lia).
    assert (Hkq : (length xk / 16)%nat = Z.to_nat p).
    { rewrite Hxk. unfold k. rewrite Z2Nat.inj_mul, (Nat.mul_comm _ (Z.to_nat p)) by lia. by rewrite Nat.div_mul. }
    rewrite <- (take_drop k x) at 2. fold xk. erewrite <- gpass_app by (done || (rewrite Hxk; unfold k;
      rewrite Z2Nat.inj_mul, (Nat.mul_comm _ (Z.to_nat p)) by lia; apply Nat.Div0.mod_mul)).
    f_equal. unfold gpass. rewrite Hkq. unfold next_icb. rewrite decide_False by lia.
    by rewrite Z2Nat.id by lia.
Qed.

(** The runs of the routine that [left] blocks take: one per chunk, and one
    per interruption. *)
Definition runs (left : Z) : nat := Z.to_nat ((left + 2047) / 2048).

(** One round of the loop that did [p] blocks: the context for the hash, and
    the context after it. *)
Lemma loop_hash_ctx key ctx s s' p : gctx_ok key ctx s -> gs_step s s' ->
  gctx_ok key (set_g_num_ciphertext_blocks (u64 (g_num_ciphertext_blocks ctx + p)) ctx) s'.
Proof.
  intros Hc Hs. replace (set_g_num_ciphertext_blocks _ ctx)
    with (gmove ctx (g_J ctx) (u64 (g_num_ciphertext_blocks ctx + p)) (g_hash_state ctx)).
  - apply (gmove_ok _ _ s); [done|done|apply Hc|unfold u64; apply Z.mod_pos_bound; lia|apply Hc].
  - unfold gmove. rewrite <- (gk_ctr _ _ _ Hc). by destruct ctx.
Qed.

Lemma loop_next_ctx key ctx s s' p h : gctx_ok key ctx s -> gs_step s s' -> length h = 16%nat ->
  let c := set_g_hash_state h (set_g_num_ciphertext_blocks (u64 (g_num_ciphertext_blocks ctx + p)) ctx) in
  let d := u32 (g_ctr_d c + p) in
  let ctx' := gmove ctx (ctr_block (g_J ctx) p) (u64 (g_num_ciphertext_blocks ctx + p)) h in
  set_g_J (store_ctr d (g_J c)) (set_g_ctr_d d c) = ctx' /\ gctx_ok key ctx' s'.
Proof.
  intros Hc Hs Hh c d ctx'. split.
  - unfold ctx', gmove, ctr_block, d, c. cbn. rewrite (gk_ctr _ _ _ Hc), load_store_ctr; [done|apply Hc|].
    unfold u32. apply Z.mod_pos_bound. lia.
  - apply (gmove_ok _ _ s); [done|done|apply length_ctr_block, Hc| |done]. unfold u64. apply Z.mod_pos_bound. lia.
Qed.

(** The output of a run and of the rest is the output of both. *)
Lemma loop_output key icb x y k p off (out : list Z) : length icb = 16%nat -> k = (16 * p)%nat -> (k <= length x)%nat ->
  (k <= length y)%nat -> (off + length x <= length out)%nat -> (length y <= length x)%nat ->
  take k y = gctr E key icb (take k x) ->
  splice (off + k) (gctr E key (ctr_block icb (Z.of_nat p)) (drop k x)) (splice off y out) = splice off (gctr E key icb x) out.
Proof.
  intros Hi Hk Hx Hy Ho Hyx He. rewrite splice_splice, He; rewrite ?length_gctr, ?length_drop; [|lia..].
  f_equal. rewrite <- (take_drop k x) at 3. rewrite (gctr_app _ _ _ _ _ p); [done|done|].
  rewrite length_take. lia.
Qed.

(** In place, a run that was not interrupted leaves the rest of the input. *)
Lemma loop_input off y k n total (inp out : list Z) : length y = k -> (off + k + n = total)%nat ->
  (off <= length out)%nat -> take total inp = take total out ->
  take n (drop (off + k) (splice off y out)) = take n (drop (off + k) inp).
Proof.
  intros Hy <- Ho He. rewrite <- Hy, drop_splice, Hy, !take_drop_commute by done. by rewrite He.
Qed.

(** When the routine works in place: it is not interrupted, the hash is not
    taken over the input, and the two buffers hold the same. *)
Definition quiet_alias (alias : bool) (total : Z) ctx (b : bufs) s : Prop :=
  alias = true -> clears_left (gs_env s) = 0%nat /\ g_decrypt ctx = false /\
    take (Z.to_nat (16 * total)) (b_in b) = take (Z.to_nat (16 * total)) (b_out b).

Lemma gcm_loop_spec key fuel alias : forall total left ctx b s,
  gctx_ok key ctx s -> (clears_left (gs_env s) + runs left < fuel)%nat -> quiet_alias alias total ctx b s ->
  0 <= left <= total -> 16 * total < 2 ^ 32 -> (g_has_vaes ctx = true -> Z.Even left) ->
  (Z.to_nat (16 * total) <= length (b_in b))%nat -> (Z.to_nat (16 * total) <= length (b_out b))%nat ->
  let off := Z.to_nat (16 * (total - left)) in let x := take (Z.to_nat (16 * left)) (drop off (b_in b)) in
  wp (gcm_loop fuel alias total left ctx b) (fun '(ctx', b') s' =>
    ctx' = gpass key ctx x /\ b_out b' = splice off (gctr E key (g_J ctx) x) (b_out b) /\ gs_step s s') s.
Proof.
  induction fuel as [|fuel IH]; intros total left ctx b s Hc Hf Hal Hl Ht Hev Hin Hout off x; [lia|].
  cbn [gcm_loop]. destruct (Z.eqb_spec left 0) as [->|Hl0].
  { apply wp_ret. unfold x. rewrite Z.mul_0_r, take_0. rewrite (gpass_nil _ _ s) by done.
    split_and!; [done|by rewrite splice_nil|apply gs_step_refl]. }
  set (n := Z.min left chunk_blocks). assert (Hn : 0 < n <= left /\ n <= 2048) by (unfold n, chunk_blocks; lia).
  unfold AES_128_GCM_BLOCK_SIZE.
  rewrite (Z.mul_comm (total - left) 16), (Z.mul_comm n 16), u32_small by lia. fold off.
  rewrite decide_False by (unfold off; lia). set (z := take (Z.to_nat (16 * n)) (drop off (b_in b))).
  assert (Hz : length z = Z.to_nat (16 * n)) by (unfold z; rewrite length_take, length_drop; unfold off; lia).
  assert (Hevn : g_has_vaes ctx = true -> Z.Even n).
  { intros Hv. unfold n, chunk_blocks. destruct (Z.min_spec left 0x800) as [[_ ->]|[_ ->]]; [by apply Hev|by exists 1024]. }
  apply wp_bind. apply (wp_gcall _ key); [done|apply Hc|lia|done|done|].
  intros y rem s' k Hs Hrem Hevr Hy Hyx Hcl.
  apply wp_bind. eapply wp_glift; [unfold store_out, store_at; rewrite decide_True by (unfold off; lia); done|].
  cbn [b_in b_out]. rewrite (u32_small (n - rem)), (proj2 (Z.ltb_ge left (n - rem))) by lia. set (p := n - rem) in *.
  assert (Hsl : length (splice off y (b_out b)) = length (b_out b)) by (apply splice_length; unfold off; lia).
  set (win := if alias then splice off y (b_out b) else b_in b).
  assert (Hwl : (Z.to_nat (16 * total) <= length win)%nat) by (unfold win; destruct alias; [by rewrite Hsl|done]).
  assert (Hx : length x = Z.to_nat (16 * left)) by (unfold x; rewrite length_take, length_drop; unfold off; lia).
  assert (Hzx : take k z = take k x) by (unfold z, x; rewrite !take_take; f_equal; unfold k; lia).
  set (data := take (Z.to_nat (p * 16)) _).
  assert (Hdata : data = if g_decrypt ctx then take k x else gctr E key (g_J ctx) (take k x)).
  { unfold data. rewrite (Z.mul_comm p 16). fold k. cbn [g_decrypt set_g_num_ciphertext_blocks]. destruct (g_decrypt ctx) eqn:Hd.
    - unfold win. destruct alias; [destruct (Hal eq_refl) as (_ & ? & _); congruence|]. unfold x. rewrite take_take. f_equal. unfold k. lia.
    - rewrite take_drop_splice_le, Hyx, Hzx by (unfold off; lia). done. }
  assert (Hdl : (length data mod 16 = 0)%nat).
  { rewrite Hdata. replace (length _) with (Z.to_nat p * 16)%nat; [apply Nat.Div0.mod_mul|].
    destruct (g_decrypt ctx); rewrite ?length_gctr, length_take; unfold k; lia. }
  apply wp_bind. apply (wp_ghash _ key); [by apply (loop_hash_ctx _ _ s)|done|].
  assert (Hh : length (ghash_from gmul (hkey key) (g_hash_state ctx) data) = 16%nat) by (apply length_ghash; [apply length_gmul|apply Hc]).
  destruct (loop_next_ctx key ctx s s' p _ Hc Hs Hh) as [Hctx2 Hc2]. cbn [g_hash_state set_g_num_ciphertext_blocks] in Hctx2 |- *.
  rewrite Hctx2. set (ctx2 := gmove _ _ _ _) in *.
  eapply wp_mono; [apply (IH total (left - p) ctx2 (Bufs win (splice off y (b_out b)))); try done|].
  { destruct Hs as (_ & _ & _ & Hcl'). unfold runs in *. destruct (decide (rem = 0)) as [Hr|Hr].
    - assert (p = n) by (unfold p; lia). unfold n, chunk_blocks in *. zdiv.
    - specialize (Hcl Hr). zdiv. }
  { intros Ha. destruct Hs as (_ & _ & _ & Hcl'), (Hal Ha) as (? & ? & _). split_and!; [lia|done|].
    cbn [b_in b_out]. unfold win. by rewrite Ha. }
  { unfold p. lia. }
  { intros Hv. destruct (Hev Hv) as [a Ha], (Hevr Hv) as [c Hc'], (Hevn Hv) as [d Hd]. exists (a - (d - c)). unfold p. lia. }
  { cbn [b_out]. by rewrite Hsl. }
  cbn [b_in b_out]. intros [ctx' b'] s'' (-> & -> & Hs').
  assert (Hoff : Z.to_nat (16 * (total - (left - p))) = (off + k)%nat) by (unfold off, k, p; lia).
  assert (Hlk : Z.to_nat (16 * left) = (k + Z.to_nat (16 * (left - p)))%nat) by (unfold k, p; lia).
  assert (Hrest : take (Z.to_nat (16 * (left - p))) (drop (off + k) win) = drop k x).
  { unfold x. rewrite Hlk, <- take_drop_commute, drop_drop. unfold win. destruct alias; [|done].
    destruct (Hal eq_refl) as (Hcz & _ & He). assert (Hr : rem = 0) by (destruct (decide (rem = 0)) as [|Hr]; [done|]; specialize (Hcl Hr); lia).
    eapply loop_input; [| |unfold off; lia|exact He]; unfold off, k, p in *; lia. }
  rewrite Hoff, Hrest. split_and!; [| |by eapply gs_step_trans].
  - unfold ctx2. rewrite Hdata. eapply gpass_run; [done|unfold p; lia|unfold k, p in *; lia| |lia].
    rewrite Hx, Z2Nat.inj_mul, Nat.mul_comm by lia. apply Nat.Div0.mod_mul.
  - change (g_J ctx2) with (ctr_block (g_J ctx) p). rewrite <- (Z2Nat.id p) by (unfold p; lia).
    apply loop_output; [apply Hc|unfold k, p; lia|unfold k, p in *; lia|lia|unfold off; lia|lia|by rewrite Hyx, Hzx].
Qed.

Lemma aes_128_gcm_cipher_spec key fuel al_out al_in alias ctx out outsize inp s : let n := (length inp / 16)%nat in
  gctx_ok key ctx s -> (clears_left (gs_env s) + runs (Z.of_nat n) < fuel)%nat ->
  (alias && al_out = true -> clears_left (gs_env s) = 0%nat /\ g_decrypt ctx = false /\ inp = take (length inp) out) -> Z.of_nat (length inp) < 2 ^ 32 ->
  (g_has_vaes ctx = true -> Z.Even (Z.of_nat n)) ->
  Z.of_nat (16 * n) <= outsize < 2 ^ 32 -> (16 * n <= length out)%nat ->
  wp (aes_128_gcm_cipher fuel al_out al_in alias ctx out outsize inp (Z.of_nat (length inp)))
    (fun '(r, outl, (ctx', out')) s' => r = 1 /\ outl = Z.of_nat (16 * n) /\
       ctx' = gpass key ctx (take (16 * n) inp) /\
       out' = splice 0 (gctr E key (g_J ctx) (take (16 * n) inp)) out /\ gs_step s s') s.
Proof.
  intros n Hc Hf Hal Hin Hev Hos Hout. unfold aes_128_gcm_cipher, AES_128_GCM_BLOCK_SIZE.
  assert (Hn : Z.of_nat (length inp) / 16 = Z.of_nat n) by (unfold n; rewrite Nat2Z.inj_div; done).
  assert (Hnl : (16 * n <= length inp)%nat) by (unfold n; pose proof (Nat.Div0.mul_div_le (length inp) 16); lia).
  rewrite Hn, (u32_small (Z.of_nat n)), (u32_small (outsize / 16)), (u32_small (Z.of_nat n * 16)) by zdiv.
  assert (Hlt : (outsize / 16 <? Z.of_nat n) = false) by (apply Z.ltb_ge; zdiv). rewrite Hlt.
  destruct (make_aligned_spec al_out out (Z.of_nat n * 16)) as (wout & Hwo & Hwol & Hwot); [lia|].
  destruct (make_aligned_spec al_in inp (Z.of_nat n * 16)) as (win & Hwi & Hwil & Hwit); [lia|].
  apply wp_bind. eapply wp_glift; [exact Hwo|]. apply wp_bind. eapply wp_glift; [exact Hwi|].
  assert (Hq : quiet_alias (alias && al_out) (Z.of_nat n) ctx (Bufs win wout) s).
  { intros Ha. destruct (Hal Ha) as (? & ? & Hi). split_and!; [done|done|]. cbn [b_in b_out].
    replace (16 * Z.of_nat n) with (Z.of_nat n * 16) by lia. rewrite Hwit, Hwot, Hi, take_take. f_equal. lia. }
  apply wp_bind. eapply wp_mono;
    [apply (gcm_loop_spec key); [done|lia|done|lia|lia|done|cbn [b_in]; lia|cbn [b_out]; lia]|].
  intros [ctx' b'] s' (Hctx' & Hb & Hs). apply wp_ret. cbn [b_in b_out] in *. rewrite u32_small by lia.
  replace (Z.of_nat n * 16) with (Z.of_nat (16 * n)) in * by lia.
  rewrite Z.sub_diag, Z.mul_0_r, drop_0 in *.
  replace (Z.to_nat (16 * Z.of_nat n)) with (16 * n)%nat in * by lia.
  rewrite Nat2Z.id in *. rewrite Hwit in *.
  split_and!; [done|done|done| |done].
  rewrite Hb. apply (free_aligned_spec _ _ _ _ _ Hwo); rewrite Nat2Z.id; [|lia].
  rewrite length_gctr, length_take. lia.
Qed.

(** The bytes that are not encrypted yet *)
Definition gpending (ctx : aes_128_gcm_context) : list Z := take (Z.to_nat (g_block_offset ctx)) (g_block ctx).

Lemma length_gpending key ctx s : gctx_ok key ctx s -> length (gpending ctx) = Z.to_nat (g_block_offset ctx).
Proof. intros []. unfold gpending. rewrite length_take. lia. Qed.

Definition keep (blk : list Z) (n : nat) (c : aes_128_gcm_context) : aes_128_gcm_context :=
  set_g_block_offset (Z.of_nat n) (set_g_block blk c).

Lemma keep_ok key ctx s blk n : gctx_ok key ctx s -> length blk = 16%nat -> (n < 16)%nat ->
  gctx_ok key (keep blk n ctx) s.
Proof. intros [] Hb Hn. split; cbn; done || lia. Qed.

(** After an update of [data], what was pending included: the full blocks are
    passed, the rest is kept. *)
Definition gupdate_post (key : list Z) (ctx : aes_128_gcm_context) (data out : list Z) (s : gstate V)
    (r outl : Z) (ctx' : aes_128_gcm_context) (out' : list Z) (s' : gstate V) : Prop :=
  let m := (length data / 16)%nat in let x := take (16 * m) data in
  r = 1 /\ outl = Z.of_nat (16 * m) /\ out' = splice 0 (gctr E key (g_J ctx) x) out /\
  (exists blk, ctx' = keep blk (length data mod 16) (gpass key ctx x) /\ length blk = 16%nat) /\
  gpending ctx' = drop (16 * m) data /\ gs_step s s'.

Lemma div_mod16 n : n = (16 * (n / 16) + n mod 16)%nat /\ (n mod 16 < 16)%nat.
Proof. pose proof (Nat.div_mod_eq n 16). pose proof (Nat.mod_upper_bound n 16). lia. Qed.

Lemma gsmall_update_spec key ctx out inp s : gctx_ok key ctx s ->
  (length (gpending ctx ++ inp) < 16)%nat -> let off := g_block_offset ctx in
  wp (let! blk := glift (store_at (Z.to_nat off) inp (g_block ctx)) in
      ret (1, 0, (set_g_block_offset (u8 (off + Z.of_nat (length inp))) (set_g_block blk ctx), out)))
    (fun '(r, outl, (ctx', out')) s' => gupdate_post key ctx (gpending ctx ++ inp) out s r outl ctx' out' s') s.
Proof.
  intros Hc Hl off. pose proof (gk_off _ _ _ Hc) as Ho. pose proof (gk_block _ _ _ Hc) as Hb.
  pose proof (length_gpending _ _ _ Hc) as Hp. set (data := gpending ctx ++ inp) in *.
  assert (Hdl : length data = (Z.to_nat off + length inp)%nat) by (unfold data; rewrite length_app; lia).
  apply wp_bind. eapply wp_glift; [unfold store_at; rewrite decide_True by lia; done|]. apply wp_ret.
  unfold gupdate_post. rewrite Nat.div_small, Nat.mod_small by done.
  assert (Hu : u8 (off + Z.of_nat (length inp)) = Z.of_nat (length data)) by (unfold u8; rewrite Z.mod_small; lia).
  rewrite Hu. change (16 * 0)%nat with O. rewrite take_0. erewrite gpass_nil by done.
  split_and!; [done|done|by rewrite splice_nil| | |apply gs_step_refl].
  - eexists. split; [done|]. rewrite splice_length; lia.
  - unfold gpending. cbn [set_g_block_offset set_g_block g_block g_block_offset]. rewrite Nat2Z.id, Hdl.
    unfold splice. rewrite app_assoc, take_app_length'; [done|]. rewrite length_app, length_take. lia.
Qed.

Lemma gcm_in_bytes : gcm_in = in_bytes.
Proof. done. Qed.

(** The second half of an update, after [q] blocks (none or one) were made of
    the pending bytes and of the first [k] of the input. *)
Lemma gupdate_rest_spec key fuel ctx al_out al_in alias data out outsize inp s s1 q k :
  gctx_ok key ctx s -> g_has_vaes ctx = false -> let m := (length data / 16)%nat in
  (clears_left (gs_env s) + runs (Z.of_nat m) < fuel)%nat -> gs_step s s1 ->
  (alias = true -> q = O /\ k = 0 /\ inp = take (length inp) out /\
     (al_out = true -> clears_left (gs_env s) = 0%nat /\ g_decrypt ctx = false)) ->
  (16 * q <= length data)%nat -> drop (Z.to_nat k) inp = drop (16 * q) data ->
  0 <= k <= Z.of_nat (length inp) -> Z.of_nat (length inp) < 2 ^ 32 ->
  Z.of_nat (16 * m) <= outsize < 2 ^ 32 -> (16 * m <= length out)%nat ->
  let o := Z.of_nat (16 * q) in let inl := Z.of_nat (length inp) - k in
  let out1 := splice 0 (gctr E key (g_J ctx) (take (16 * q) data)) out in
  wp (let! '(_, c_outl, (ctx, out2)) := aes_128_gcm_cipher fuel al_out al_in alias (gpass key ctx (take (16 * q) data))
        (drop (Z.to_nat o) out1) (outsize - o) (drop (Z.to_nat k) (gcm_in alias out1 inp)) inl in
      let out := take (Z.to_nat o) out1 ++ out2 in
      let full := Z.land inl (Z.lnot (AES_128_GCM_BLOCK_SIZE - 1)) in
      let! blk := glift (store_at 0 (drop (Z.to_nat (k + full)) (gcm_in alias out inp)) (g_block ctx)) in
      ret (1, o + c_outl, (set_g_block_offset (u8 (inl - full)) (set_g_block blk ctx), out)))
    (fun '(r, outl, (ctx', out')) s' => gupdate_post key ctx data out s r outl ctx' out' s') s1.
Proof.
  intros Hc Hv m Hf Hs1 Hal Hq Hk Hkl Hin Hos Hout o inl out1. rewrite !gcm_in_bytes. unfold out1 at 2.
  rewrite (in_bytes_before alias out inp (gctr E key (g_J ctx) (take (16 * q) data)))
    by (intros Ha; destruct (Hal Ha) as (-> & _ & Hi & _); split; [by rewrite Nat.mul_0_r|done]).
  set (rest := drop (16 * q) data) in *. set (pre := take (16 * q) data) in *.
  assert (Hrl : length rest = Z.to_nat inl) by (rewrite <- Hk, length_drop; unfold inl; lia).
  assert (Hdl : length data = (16 * q + length rest)%nat) by (unfold rest; rewrite length_drop; lia).
  assert (Hm : m = (q + length rest / 16)%nat).
  { unfold m. rewrite Hdl, (Nat.mul_comm 16 q), Nat.div_add_l; lia. }
  assert (Hpre : length pre = (16 * q)%nat) by (unfold pre; rewrite length_take; lia).
  assert (Hprem : (length pre mod 16 = 0)%nat) by (rewrite Hpre, Nat.mul_comm; apply Nat.Div0.mod_mul).
  assert (Ho : Z.to_nat o = (16 * q)%nat) by (unfold o; lia).
  destruct (div_mod16 (length rest)) as [Hrdiv Hrmod].
  assert (Hdm : (length data mod 16 = length rest mod 16)%nat).
  { rewrite Hdl, (Nat.mul_comm 16 q), Nat.add_comm. apply Nat.Div0.mod_add. }
  rewrite Ho, Hk. replace inl with (Z.of_nat (length rest)) by (unfold inl; lia).
  assert (Hsl : length out1 = length out) by (apply splice_length; rewrite length_gctr; lia).
  pose proof (gk_block _ _ _ Hc) as Hb. assert (Hc1 : gctx_ok key (gpass key ctx pre) s1) by (by eapply gpass_ok).
  apply wp_bind. eapply wp_mono; [apply (aes_128_gcm_cipher_spec key); [done| | |lia| | |]|].
  { destruct Hs1 as (_ & _ & _ & Hcl). unfold runs in *. zdiv. }
  { intros [Ha Hao]%andb_prop. destruct Hs1 as (_ & _ & _ & Hcl), (Hal Ha) as (-> & -> & Hi & Hz).
    destruct (Hz Hao) as [? Hd]. split_and!; [lia|done|].
    assert (Ho1 : out1 = out) by exact (splice_nil 0 out). rewrite Ho1, <- Hk. exact Hi. }
  { change (g_has_vaes (gpass key ctx pre)) with (g_has_vaes ctx). congruence. }
  { unfold o. lia. }
  { rewrite length_drop, Hsl. lia. }
  intros [[r outl] [ctx2 out2]] s2 (-> & -> & -> & -> & Hs2).
  unfold AES_128_GCM_BLOCK_SIZE. change (16 - 1) with 15. rewrite land_lnot_15.
  pose proof (Nat2Z.inj_div (length rest) 16) as Hdz. change (Z.of_nat 16) with 16 in Hdz. rewrite <- Hdz.
  assert (Hsplit : take (16 * m) data = pre ++ take (16 * (length rest / 16)) rest).
  { unfold pre. transitivity (take (16 * q + 16 * (length rest / 16)) data); [f_equal; lia|].
    unfold rest. by rewrite take_take_drop. }
  assert (Hout' : take (16 * q) out1 ++ splice 0 (gctr E key (g_J (gpass key ctx pre)) (take (16 * (length rest / 16)) rest))
    (drop (16 * q) out1) = splice 0 (gctr E key (g_J ctx) (take (16 * m) data)) out).
  { rewrite Hsplit, (gctr_next _ _ _ _ _ q) by (done || apply Hc).
    change (g_J (gpass key ctx pre)) with (next_icb (g_J ctx) (length pre / 16)).
    rewrite Hpre, (Nat.mul_comm 16 q), Nat.div_mul, (Nat.mul_comm q 16) by lia.
    apply splice_seq; [by rewrite length_gctr|lia]. }
  rewrite Hout', in_bytes_after.
  2:{ intros Ha. destruct (Hal Ha) as (-> & -> & Hi & _). rewrite length_gctr, length_take. split; [lia|done]. }
  rewrite Z2Nat.inj_add, <- drop_drop, Hk by lia.
  replace (Z.to_nat (16 * Z.of_nat (length rest / 16))) with (16 * (length rest / 16))%nat by lia.
  erewrite gpass_app by done.
  rewrite <- Hsplit. apply wp_bind.
  eapply wp_glift; [unfold store_at; rewrite decide_True; [done|change (g_block (gpass key ctx (take (16 * m) data))) with (g_block ctx); rewrite length_drop; lia]|].
  apply wp_ret.
  assert (Hu : u8 (Z.of_nat (length rest) - 16 * Z.of_nat (length rest / 16)) = Z.of_nat (length data mod 16))
    by (rewrite Hdm; unfold u8; rewrite Z.mod_small; lia).
  rewrite Hu. unfold gupdate_post. fold m. split_and!; [done|unfold o; lia|done| | |by eapply gs_step_trans].
  - eexists. split; [done|]. rewrite splice_length; change (g_block (gpass key ctx (take (16 * m) data))) with (g_block ctx); [done|].
    rewrite length_drop. lia.
  - unfold gpending. cbn [set_g_block_offset set_g_block g_block g_block_offset].
    rewrite Nat2Z.id, take_splice by (rewrite length_drop; lia).
    replace (16 * m)%nat with (16 * q + 16 * (length rest / 16))%nat by lia. by rewrite <- drop_drop.
Qed.

Lemma gcm_update_data_spec key fuel ctx out_a out outsize in_a inp s :
  let data := gpending ctx ++ inp in let m := (length data / 16)%nat in
  gctx_ok key ctx s -> g_has_vaes ctx = false -> (clears_left (gs_env s) + runs (Z.of_nat m) < fuel)%nat ->
  call_ok (clears_left (gs_env s) = 0%nat /\ g_decrypt ctx = false) (length (gpending ctx)) (UpdateCall out_a out in_a inp) ->
  Z.of_nat (length inp) < 2 ^ 32 -> Z.of_nat (16 * m) <= outsize < 2 ^ 32 ->
  (16 * m <= length out)%nat ->
  wp (gcm_update_data fuel ctx out_a out outsize in_a inp)
    (fun '(r, outl, (ctx', out')) s' => gupdate_post key ctx data out s r outl ctx' out' s') s.
Proof.
  intros data m Hc Hv Hf Hco Hin Hos Hout. pose proof (gk_off _ _ _ Hc) as Ho.
  pose proof (length_gpending _ _ _ Hc) as Hp. pose proof (call_ok_place _ _ _ Hco) as Hpl.
  cbn [u_out_a u_in_a u_out u_in] in Hpl.
  assert (Hdl : length data = (Z.to_nat (g_block_offset ctx) + length inp)%nat) by (unfold data; rewrite length_app; lia).
  unfold gcm_update_data.
  unfold AES_128_GCM_BLOCK_SIZE at 1. destruct (Z.ltb_spec (Z.of_nat (length inp) + g_block_offset ctx) 16) as [Hlt|Hge].
  { apply gsmall_update_spec; [done|fold data; lia]. }
  destruct (Z.eqb_spec (g_block_offset ctx) 0) as [Hz|Hz]; cbn [negb andb].
  - assert (Hd : data = inp) by (unfold data, gpending; rewrite Hz; done).
    apply wp_bind, wp_ret. unfold m in *. rewrite Hd in *.
    rewrite andb_true_r.
    pose proof (gupdate_rest_spec key fuel ctx (is_aligned (out_a + 0)) (is_aligned (in_a + 0)) (out_a =? in_a) inp out outsize inp s s 0 0) as Hr.
    change (16 * 0)%nat with O in Hr. rewrite take_0, (gpass_nil _ _ s), splice_nil in Hr by done.
    apply Hr; try done; try lia.
    intros He%Z.eqb_eq. destruct (Hpl He) as (_ & Hi & Hq); [lia..|]. rewrite Z.add_0_r. done.
  - unfold AES_128_GCM_BLOCK_SIZE at 1. assert (Hm : (1 <= m)%nat) by (apply Nat.div_le_lower_bound; lia).
    rewrite (proj2 (Z.ltb_ge outsize 16)) by lia.
    set (k := AES_128_GCM_BLOCK_SIZE - g_block_offset ctx). set (inbuf := _ ++ take (Z.to_nat k) inp).
    assert (Hib : inbuf = take (16 * 1) data).
    { unfold inbuf, data. rewrite take_app_ge by lia. fold (gpending ctx). do 2 f_equal. unfold k, AES_128_GCM_BLOCK_SIZE. lia. }
    assert (Hil : length inbuf = 16%nat) by (rewrite Hib, length_take; lia).
    assert (Hna : (out_a =? in_a) = false) by (apply Z.eqb_neq; intros He; destruct (Hpl He); lia).
    rewrite Hna. cbn [andb].
    pose proof (aes_128_gcm_cipher_spec key fuel (is_aligned out_a) true false ctx out 16 inbuf s) as Hcs.
    rewrite Hil in Hcs. change (Z.of_nat 16) with 16 in Hcs. change (16 / 16)%nat with 1%nat in Hcs.
    apply wp_bind, wp_bind. eapply wp_mono; [apply Hcs; [done| |done|lia|congruence|lia|lia]|].
    { unfold runs in *. zdiv. }
    intros [[r1 outl1] [ctx1 out1]] s1 (-> & -> & -> & -> & Hs1). apply wp_ret.
    replace (take (16 * 1) inbuf) with (take (16 * 1) data) by (rewrite Hib, take_take; done).
    apply (gupdate_rest_spec key fuel ctx _ _ false data out outsize inp s s1 1 k); try done; try lia.
    + unfold data. rewrite (drop_app_ge (gpending ctx)) by lia. f_equal. unfold k, AES_128_GCM_BLOCK_SIZE. lia.
    + unfold k, AES_128_GCM_BLOCK_SIZE. lia.
Qed.

Lemma gcm_one_block_spec key fuel : forall ctx icb inbuf outbuf s, gctx_ok key ctx s -> g_has_vaes ctx = false ->
  (clears_left (gs_env s) < fuel)%nat -> length icb = 16%nat -> length inbuf = 16%nat -> (16 <= length outbuf)%nat ->
  wp (gcm_one_block fuel icb (g_aes_fun ctx) (g_has_vaes ctx) inbuf outbuf)
    (fun y s' => take 16 y = gctr E key icb inbuf /\ gs_step s s') s.
Proof.
  induction fuel as [|fuel IH]; intros ctx icb inbuf outbuf s Hc Hv Hf Hj Hi Ho; [lia|]. cbn [gcm_one_block].
  apply wp_bind. apply (wp_gcall _ key); [done|done|lia|lia|congruence|].
  intros y rem s' k Hs Hrem _ Hy Hyx Hcl. apply wp_bind.
  eapply wp_glift; [unfold store_at; rewrite decide_True by lia; done|].
  destruct (Z.eqb_spec rem 0) as [->|Hr].
  - apply wp_ret. split; [|done]. change k with 16%nat in Hyx, Hy. change (Z.to_nat (16 * 1)) with 16%nat in Hy.
    rewrite (take_ge inbuf), take_ge in Hyx by lia. rewrite <- Hyx. apply take_splice. lia.
  - eapply wp_mono; [apply IH; try done|].
    + by eapply gctx_ok_step.
    + specialize (Hcl Hr). lia.
    + rewrite splice_length; lia.
    + intros y' s'' [Hy' Hs']. split; [done|by eapply gs_step_trans].
Qed.
End gcm_proofs.
