(* ===== verification/OsslParams.v ===== *)
(** * OpenSSL parameter arrays

    The [OSSL_PARAM] structure of OSSL_PARAM(3), the functions on it that the
    provider calls (parameters of the model), and the shape that all its
    [get_params] functions have. *)

From stdpp Require Import strings.
From S2P Require Import Prelude.

(** The names, [OSSL_CIPHER_PARAM_*], [OSSL_MAC_PARAM_*] and
    [OSSL_PROV_PARAM_*].  [OSSL_CIPHER_PARAM_AEAD_IVLEN] is [IVLEN]. *)
Inductive pname :=
  MODE | KEYLEN | IVLEN | BLOCK_SIZE | AEAD | CUSTOM_IV | CTS | TLS1_MULTIBLOCK | HAS_RAND_KEY |
  PADDING | NUM | IV | UPDATED_IV | AEAD_TAGLEN | AEAD_TAG | AEAD_TLS1_AAD |
  MAC_SIZE | MAC_BLOCK_SIZE | MAC_DIGEST | MAC_PROPERTIES | MAC_KEY | MAC_DIGEST_NOINIT |
  MAC_DIGEST_ONESHOT | MAC_TLS_DATA_SIZE | PROV_NAME | PROV_VERSION | PROV_BUILDINFO | PROV_STATUS.
Abbreviation AEAD_IVLEN := IVLEN.

#[export] Instance pname_eq_dec : EqDecision pname.
Proof. solve_decision. Defined.

Inductive ptype := PT_INTEGER | PT_UNSIGNED | PT_UTF8_STRING | PT_OCTET_STRING | PT_UTF8_PTR | PT_OCTET_PTR.

#[export] Instance ptype_eq_dec : EqDecision ptype.
Proof. solve_decision. Defined.

(** [data] is [None] for a null pointer. *)
Record OSSL_PARAM := Param { p_key : pname; data_type : ptype; p_data : option (list Z); data_size : Z }.

(** What the getters store: the argument of [OSSL_PARAM_set_uint],
    [_set_size_t], [_set_int], [_set_octet_string], [_set_octet_ptr] and
    [_set_utf8_ptr]. *)
Inductive pval :=
  VUint (z : Z) | VSize (z : Z) | VInt (z : Z) | VOctets (l : list Z) | VOctetPtr (l : list Z) | VUtf8Ptr (s : string).

(** [OSSL_PARAM_locate] gives an index; [OSSL_PARAM_set] is [None] where the
    C function returns 0. *)
Class Ossl := {
  OSSL_PARAM_locate : list OSSL_PARAM -> pname -> option nat;
  OSSL_PARAM_set : pval -> OSSL_PARAM -> option OSSL_PARAM;
  OSSL_PARAM_get_size_t : OSSL_PARAM -> option Z
}.

Class OsslLaws `{Ossl} := {
  locate_some : forall ps k i, OSSL_PARAM_locate ps k = Some i ->
    exists p, ps !! i = Some p /\ p_key p = k /\ forall j q, (j < i)%nat -> ps !! j = Some q -> p_key q <> k;
  locate_none : forall ps k, OSSL_PARAM_locate ps k = None -> forall i p, ps !! i = Some p -> p_key p <> k;
  set_key : forall v p p', OSSL_PARAM_set v p = Some p' -> p_key p' = p_key p
}.

Section params.
Context `{Ossl}.

Definition OSSL_PARAM_locate_const (ps : list OSSL_PARAM) (k : pname) : option OSSL_PARAM :=
  match OSSL_PARAM_locate ps k with Some i => ps !! i | None => None end.

(** [p = locate(K); if (p && !set(p, v1) && !set(p, v2) ...) return 0;] for
    each name in turn; the status and the array. *)
Fixpoint try_set (vs : list pval) (p : OSSL_PARAM) : option OSSL_PARAM :=
  match vs with
  | [] => None
  | v :: vs => match OSSL_PARAM_set v p with Some p' => Some p' | None => try_set vs p end
  end.

Fixpoint put_params (l : list (pname * list pval)) (ps : list OSSL_PARAM) : Z * list OSSL_PARAM :=
  match l with
  | [] => (1, ps)
  | (k, vs) :: l =>
      match OSSL_PARAM_locate ps k with
      | None => put_params l ps
      | Some i => match ps !! i with
                  | None => put_params l ps
                  | Some p => match try_set vs p with
                              | Some p' => put_params l (<[i := p']> ps)
                              | None => (0, ps)
                              end
                  end
      end
  end.
End params.

(** ** What a getter does *)

Section laws.
Context `{OsslLaws}.

Lemma try_set_key vs : forall p p', try_set vs p = Some p' -> p_key p' = p_key p.
Proof.
  induction vs as [|v vs IH]; intros p p' Ht; [done|]. cbn in Ht.
  destruct (OSSL_PARAM_set v p) eqn:Hs; [simplify_eq; by eapply set_key|by apply IH].
Qed.

Definition same_keys (ps ps' : list OSSL_PARAM) : Prop := p_key <$> ps' = p_key <$> ps.

Lemma same_keys_insert ps i p p' : ps !! i = Some p -> p_key p' = p_key p -> same_keys ps (<[i := p']> ps).
Proof.
  intros Hi Hp. unfold same_keys. rewrite list_fmap_insert, Hp.
  apply list_insert_id. by rewrite list_lookup_fmap, Hi.
Qed.

Lemma same_keys_lookup ps ps' i p : same_keys ps ps' -> ps !! i = Some p ->
  exists p', ps' !! i = Some p' /\ p_key p' = p_key p.
Proof.
  intros Hs Hi. assert (Hk : (p_key <$> ps') !! i = Some (p_key p)) by (rewrite Hs; by rewrite list_lookup_fmap, Hi).
  rewrite list_lookup_fmap in Hk. destruct (ps' !! i) as [p'|]; simplify_eq/=. eauto.
Qed.

(** The first parameter with a name. *)
Definition is_first (ps : list OSSL_PARAM) (i : nat) (k : pname) : Prop :=
  (exists p, ps !! i = Some p /\ p_key p = k) /\ forall j q, (j < i)%nat -> ps !! j = Some q -> p_key q <> k.

Lemma is_first_keys ps ps' i k : same_keys ps ps' -> is_first ps i k -> is_first ps' i k.
Proof.
  intros Hs [(p & Hp & Hk) Hj]. split.
  - destruct (same_keys_lookup _ _ _ _ Hs Hp) as (p' & Hp' & Hk'). exists p'. by rewrite Hk'.
  - intros j q Hlt Hq. destruct (same_keys_lookup ps' ps j q) as (q' & Hq' & <-); [done|done|]. eauto.
Qed.

Lemma locate_first ps i k : is_first ps i k -> OSSL_PARAM_locate ps k = Some i.
Proof.
  intros [(p & Hp & Hk) Hj]. destruct (OSSL_PARAM_locate ps k) as [i'|] eqn:Hl.
  - destruct (locate_some _ _ _ Hl) as (p' & Hp' & Hk' & Hj'). f_equal.
    destruct (Nat.lt_trichotomy i i') as [Hlt|[->|Hlt]]; [|done|]; exfalso; naive_solver.
  - exfalso. by apply (locate_none _ _ Hl i p).
Qed.

(** What is left of the array by a getter: it fails exactly when one of the
    values cannot be stored in the parameter of its name; otherwise the first
    parameter of each name holds its value and nothing else changes. *)
Definition put_post (l : list (pname * list pval)) (ps : list OSSL_PARAM) (r : Z) (ps' : list OSSL_PARAM) : Prop :=
  same_keys ps ps' /\
  (r = 1 /\
   (forall k vs i p, (k, vs) ∈ l -> is_first ps i k -> ps !! i = Some p ->
      exists p', try_set vs p = Some p' /\ ps' !! i = Some p') /\
   (forall i, (forall k vs, (k, vs) ∈ l -> ~ is_first ps i k) -> ps' !! i = ps !! i) \/
   r = 0 /\ exists k vs i p, (k, vs) ∈ l /\ is_first ps i k /\ ps !! i = Some p /\ try_set vs p = None).

(** A name that is not in the array. *)
Lemma put_post_skip k vs l ps r ps' : (forall i, ~ is_first ps i k) -> put_post l ps r ps' -> put_post ((k, vs) :: l) ps r ps'.
Proof.
  intros Hno (Hs & [(-> & Hv & Hu)|(-> & k' & vs' & i & p & Hin & Hf)]); (split; [done|]).
  - left. split_and!; [done| |].
    + intros k' vs' i p [[= -> ->]|Hin]%elem_of_cons Hf Hi; [by destruct (Hno i)|by eapply Hv].
    + intros i Hi. apply Hu. intros k' vs' Hin. by apply (Hi k' vs'), elem_of_cons; right.
  - right. split; [done|]. exists k', vs', i, p. split; [by apply elem_of_cons; right|done].
Qed.

(** A name whose value was stored, and that does not come again. *)
Lemma put_post_store k vs l ps r ps' i p p' : k ∉ (map fst l) -> is_first ps i k -> ps !! i = Some p ->
  try_set vs p = Some p' -> put_post l (<[i := p']> ps) r ps' -> put_post ((k, vs) :: l) ps r ps'.
Proof.
  intros Hk Hf Hi Ht (Hs & Hcase).
  assert (Hs1 : same_keys ps (<[i := p']> ps)) by (eapply same_keys_insert; [done|by eapply try_set_key]).
  assert (Hne : forall k' vs' i', (k', vs') ∈ l -> is_first ps i' k' -> i <> i').
  { intros k' vs' i' Hin [(q & Hq & Hkq) _] <-. destruct Hf as [(p0 & Hp0 & Hkp) _].
    assert (k' = k) as -> by congruence. apply Hk.
    apply list_elem_of_In, in_map_iff. exists (k, vs'). split; [done|]. by apply list_elem_of_In. }
  assert (Hback : forall i' k', is_first (<[i := p']> ps) i' k' -> is_first ps i' k').
  { intros i' k'. apply is_first_keys. by unfold same_keys in *. }
  split; [by unfold same_keys in *; congruence|].
  destruct Hcase as [(-> & Hv & Hu)|(-> & k' & vs' & i' & q & Hin & Hf' & Hq & Htq)].
  - left. split_and!; [done| |].
    + intros k' vs' i' q [[= -> ->]|Hin]%elem_of_cons Hf' Hq.
      * assert (i' = i) as -> by (apply locate_first in Hf', Hf; congruence). simplify_eq. exists p'. split; [done|].
        rewrite Hu; [by apply list_lookup_insert_eq; eapply lookup_lt_Some|].
        intros k' vs'' Hin Hf''%Hback. by apply (Hne k' vs'' i Hin).
      * eapply Hv; [done|by eapply is_first_keys|]. by rewrite list_lookup_insert_ne by (by apply (Hne k' vs')).
    + intros i' Hi'. rewrite Hu.
      * rewrite list_lookup_insert_ne; [done|]. intros <-. apply (Hi' k vs); [left|done].
      * intros k' vs' Hin Hf'%Hback. apply (Hi' k' vs'); [by apply elem_of_cons; right|done].
  - right. split; [done|]. exists k', vs', i', q. apply Hback in Hf'. split_and!; [by apply elem_of_cons; right|done| |done].
    by rewrite list_lookup_insert_ne in Hq by (by apply (Hne k' vs')).
Qed.

Lemma put_params_spec l : NoDup (map fst l) -> forall ps r ps', put_params l ps = (r, ps') -> put_post l ps r ps'.
Proof.
  induction l as [|[k vs] l IH]; intros Hnd ps r ps'; cbn [put_params].
  { intros [= <- <-]. split; [done|]. left. split_and!; [done|set_solver|done]. }
  cbn in Hnd. apply NoDup_cons in Hnd as [Hk Hnd].
  destruct (OSSL_PARAM_locate ps k) as [i|] eqn:Hl.
  2:{ intros Hp. apply put_post_skip; [|by apply IH]. intros i [(p & Hp' & Hkp) _]. by apply (locate_none _ _ Hl i p). }
  destruct (locate_some _ _ _ Hl) as (p & Hi & Hkp & Hfst). rewrite Hi.
  assert (Hf : is_first ps i k) by (split; eauto).
  destruct (try_set vs p) as [p'|] eqn:Ht; intros Hp.
  - eapply put_post_store; [done..|by apply IH].
  - simplify_eq. split; [done|]. right. split; [done|]. exists (p_key p), vs, i, p. split; [left|done].
Qed.

Lemma locate_const_one p k : OSSL_PARAM_locate_const [p] k = if decide (p_key p = k) then Some p else None.
Proof.
  unfold OSSL_PARAM_locate_const. destruct (OSSL_PARAM_locate [p] k) as [i|] eqn:Hl.
  - destruct (locate_some _ _ _ Hl) as (q & Hq & <- & _). destruct i as [|[|i]]; cbn in Hq; simplify_eq.
    by rewrite decide_True.
  - rewrite decide_False; [done|]. by apply (locate_none _ _ Hl 0%nat).
Qed.

End laws.
