(* ===== verification/CipherParams.v ===== *)
(** * Parameters of the ciphers

    The getters, setters and parameter tables of [xom_aes_128_ctr.c] and
    [xom_aes_128_gcm.c]. *)

From S2P Require Import Prelude XomDomain ModXom CHeap Gctr AesCtr GcmContext AesGcm OsslParams.

Definition AES_128_GCM_KEY_SIZE : Z := 16.

(** [EVP_CIPH_CTR_MODE] and [EVP_CIPH_GCM_MODE] of openssl/evp.h *)
Definition EVP_CIPH_CTR_MODE : Z := 5.
Definition EVP_CIPH_GCM_MODE : Z := 6.

Section cipher_params.
Context {V : Type} `{GctrEnv V} `{HeapEnv} `{GcmEnv} `{Ossl}.

(** ** Counter mode *)

Definition aes_128_ctr_get_params (ps : list OSSL_PARAM) : Z * list OSSL_PARAM :=
  put_params [(MODE, [VUint EVP_CIPH_CTR_MODE]); (KEYLEN, [VSize AES_128_CTR_KEY_SIZE]);
    (IVLEN, [VSize AES_128_CTR_IV_SIZE]); (BLOCK_SIZE, [VSize AES_128_CTR_BLOCK_SIZE]);
    (AEAD, [VInt 0]); (CUSTOM_IV, [VInt 0]); (CTS, [VInt 0]); (TLS1_MULTIBLOCK, [VInt 0]);
    (HAS_RAND_KEY, [VInt 0])] ps.

Definition aes_128_ctr_set_ctx_params (ctx : xom_aes_ctr_context) (ps : list OSSL_PARAM) : Z * xom_aes_ctr_context :=
  (1, ctx).

Definition ctr_ctx_answers (ctx : xom_aes_ctr_context) : list (pname * list pval) :=
  [(KEYLEN, [VSize AES_128_CTR_KEY_SIZE]); (IVLEN, [VSize AES_128_CTR_IV_SIZE]); (PADDING, [VUint 1]);
   (NUM, [VUint (num ctx)]); (IV, [VOctetPtr (oiv ctx); VOctets (oiv ctx)]);
   (UPDATED_IV, [VOctetPtr (iv ctx); VOctets (iv ctx)])].

(** [None] is the null pointer. *)
Definition aes_128_ctr_get_ctx_params (ctx : xom_aes_ctr_context) (ps : option (list OSSL_PARAM))
    : Z * option (list OSSL_PARAM) :=
  match ps with
  | None => (1, None)
  | Some ps => let '(r, ps) := put_params (ctr_ctx_answers ctx) ps in (r, Some ps)
  end.

Definition cipher_known_gettable_params : list (pname * ptype) :=
  [(MODE, PT_UNSIGNED); (KEYLEN, PT_UNSIGNED); (IVLEN, PT_UNSIGNED); (BLOCK_SIZE, PT_UNSIGNED);
   (AEAD, PT_INTEGER); (CUSTOM_IV, PT_INTEGER); (CTS, PT_INTEGER); (TLS1_MULTIBLOCK, PT_INTEGER);
   (HAS_RAND_KEY, PT_INTEGER)].

Definition ctr_known_gettable_ctx_params : list (pname * ptype) :=
  [(KEYLEN, PT_UNSIGNED); (IVLEN, PT_UNSIGNED); (PADDING, PT_UNSIGNED); (NUM, PT_UNSIGNED);
   (IV, PT_OCTET_STRING); (UPDATED_IV, PT_OCTET_STRING)].

Definition ctr_known_settable_ctx_params : list (pname * ptype) := [].

Definition aes_128_ctr_gettable_params : list (pname * ptype) := cipher_known_gettable_params.
Definition aes_128_ctr_gettable_ctx_params : list (pname * ptype) := ctr_known_gettable_ctx_params.
Definition aes_128_ctr_settable_ctx_params : list (pname * ptype) := ctr_known_settable_ctx_params.

(** ** Galois/counter mode *)

Definition aes_128_gcm_get_params (ps : list OSSL_PARAM) : Z * list OSSL_PARAM :=
  put_params [(MODE, [VUint EVP_CIPH_GCM_MODE]); (KEYLEN, [VSize AES_128_GCM_KEY_SIZE]);
    (IVLEN, [VSize 12]); (BLOCK_SIZE, [VSize AES_128_GCM_BLOCK_SIZE]);
    (AEAD, [VInt 1]); (CUSTOM_IV, [VInt 0]); (CTS, [VInt 0]); (TLS1_MULTIBLOCK, [VInt 0]);
    (HAS_RAND_KEY, [VInt 0])] ps.

(** The bytes [memcpy] reads from a parameter. *)
Definition param_bytes (p : OSSL_PARAM) (n : Z) : option (list Z) :=
  match p_data p with
  | None => if n =? 0 then Some [] else None
  | Some d => if Z.of_nat (length d) <? n then None else Some (take (Z.to_nat n) d)
  end.

Definition set_ivlen_param (ctx : aes_128_gcm_context) (ps : list OSSL_PARAM) : option aes_128_gcm_context :=
  match OSSL_PARAM_locate_const ps IVLEN with
  | None => Some ctx
  | Some p => match OSSL_PARAM_get_size_t p with Some n => Some (set_g_ivlen n ctx) | None => None end
  end.

(** [None] is the failure status 0. *)
Definition set_tag_param (ctx : aes_128_gcm_context) (ps : list OSSL_PARAM)
    : M (gstate V) (option aes_128_gcm_context) :=
  match OSSL_PARAM_locate_const ps AEAD_TAG with
  | None => ret (Some ctx)
  | Some p =>
      if decide (data_type p = PT_OCTET_STRING) then
        let! bytes := glift (param_bytes p (Z.min (data_size p) AES_128_GCM_TAG_SIZE)) in
        ret (Some (set_g_tag (splice 0 bytes (g_tag ctx)) ctx))
      else ret None
  end.

Definition set_aad_param (ctx : aes_128_gcm_context) (ps : list OSSL_PARAM)
    : M (gstate V) (option aes_128_gcm_context) :=
  match OSSL_PARAM_locate_const ps AEAD_TLS1_AAD with
  | None => ret (Some ctx)
  | Some p =>
      if decide (data_type p = PT_OCTET_STRING) then
        match p_data p with
        | None => let! ctx := init_aad ctx None (data_size p) in ret (Some ctx)
        | Some _ =>
            let! bytes := glift (param_bytes p (data_size p)) in
            let! ctx := init_aad ctx (Some bytes) (data_size p) in ret (Some ctx)
        end
      else ret None
  end.

Definition aes_128_gcm_set_ctx_params (ctx : aes_128_gcm_context) (ps : list OSSL_PARAM)
    : M (gstate V) (Z * aes_128_gcm_context) :=
  match set_ivlen_param ctx ps with
  | None => ret (0, ctx)
  | Some ctx =>
      let! r := set_tag_param ctx ps in
      match r with
      | None => ret (0, ctx)
      | Some ctx =>
          let! r := set_aad_param ctx ps in
          match r with None => ret (0, ctx) | Some ctx => ret (1, ctx) end
      end
  end.

(** What the context getter answers before and after it reads [oiv] and [J]. *)
Definition gcm_answers_len (ctx : aes_128_gcm_context) : list (pname * list pval) :=
  [(KEYLEN, [VSize AES_128_GCM_KEY_SIZE]); (IVLEN, [VSize (if g_ivlen ctx =? 0 then 12 else g_ivlen ctx)]);
   (PADDING, [VUint 1]); (NUM, [VUint (g_ctr_d ctx)])].

Definition gcm_answers_bytes (ctx : aes_128_gcm_context) : list (pname * list pval) :=
  [(IV, [VOctets (take (Z.to_nat (g_ivlen ctx)) (g_oiv ctx))]);
   (UPDATED_IV, [VOctets (take (Z.to_nat (g_ivlen ctx)) (g_J ctx))]);
   (AEAD_TAGLEN, [VSize AES_128_GCM_TAG_SIZE]); (AEAD_TAG, [VOctets (g_tag ctx)])].

(** Undefined when an IV length above 16 makes it read past [oiv] or [J]. *)
Definition aes_128_gcm_get_ctx_params (ctx : aes_128_gcm_context) (ps : option (list OSSL_PARAM))
    : option (Z * option (list OSSL_PARAM)) :=
  match ps with
  | None => Some (1, None)
  | Some ps =>
      let '(r, ps) := put_params (gcm_answers_len ctx) ps in
      if r =? 0 then Some (0, Some ps)
      else if (AES_128_GCM_IV_SIZE <? g_ivlen ctx) &&
              (bool_decide (is_Some (OSSL_PARAM_locate ps IV)) || bool_decide (is_Some (OSSL_PARAM_locate ps UPDATED_IV)))
      then None
      else let '(r, ps) := put_params (gcm_answers_bytes ctx) ps in Some (r, Some ps)
  end.

(** The same table as that of counter mode. *)
Definition gcm_known_gettable_params : list (pname * ptype) := cipher_known_gettable_params.

Definition gcm_known_gettable_ctx_params : list (pname * ptype) :=
  [(KEYLEN, PT_UNSIGNED); (IVLEN, PT_UNSIGNED); (AEAD_TAGLEN, PT_UNSIGNED); (IV, PT_OCTET_STRING);
   (UPDATED_IV, PT_OCTET_STRING); (AEAD_TAG, PT_OCTET_STRING)].

Definition gcm_known_settable_ctx_params : list (pname * ptype) :=
  [(AEAD_IVLEN, PT_UNSIGNED); (AEAD_TAG, PT_OCTET_STRING); (AEAD_TLS1_AAD, PT_OCTET_STRING)].

Definition aes_128_gcm_gettable_params : list (pname * ptype) := gcm_known_gettable_params.
Definition aes_128_gcm_gettable_ctx_params : list (pname * ptype) := gcm_known_gettable_ctx_params.
Definition aes_128_gcm_settable_ctx_params : list (pname * ptype) := gcm_known_settable_ctx_params.
End cipher_params.
