(* ===== verification/GcmToy.v ===== *)
(** * A concrete environment for AES-128-GCM

    Instances of the interfaces, for the witnesses: a multiplication that is
    not the field's, a table that is the hash key, an allocator, and OpenSSL's
    parameter functions on well-typed parameters. *)

From stdpp Require Import strings.
From S2P Require Import Prelude XomDomain ModXom CHeap Gctr GctrToy GcmContext AesGcm GcmSpec OsslParams.

Definition toy_mul (h x : list Z) : list Z :=
  map (fun i => u8 (nth i (take 16 h) 0 + 3 * nth i x 0 + nth ((i + 1) mod 16) x 0)) (seq 0 16).

Lemma toy_mul_take h : toy_mul (take 16 h) = toy_mul h.
Proof. unfold toy_mul. by rewrite take_take. Qed.

Lemma bswap_bswap h : bswap_quads (bswap_quads h) = take 16 h.
Proof.
  unfold bswap_quads. destruct (decide (8 <= length h)%nat) as [Hl|Hl].
  - assert (Ha : length (rev (take 8 h)) = 8%nat) by (rewrite length_rev, length_take; lia).
    rewrite take_app_length', drop_app_length' by done. rewrite (take_ge (rev _)), !rev_involutive.
    + apply take_take_drop.
    + rewrite length_rev, length_take. lia.
  - rewrite (drop_ge h), take_nil by lia. cbn [rev]. rewrite app_nil_r, !(take_ge h) by lia.
    rewrite take_ge, drop_ge by (rewrite length_rev; lia). cbn. by rewrite app_nil_r, rev_involutive.
Qed.

#[export] Instance toy_gcm : GcmEnv := {|
  get_H := fun key => toy_cipher key (repeat 0 16);
  gcm_init := fun _ xi => xi;
  gcm_ghash := fun _ xi table inp => ghash_from toy_mul (bswap_quads table) xi inp
|}.

#[export] Instance toy_heap : HeapEnv := {|
  heap_alloc := fun used => fresh ({[0]} ∪ used); heap_junk := repeat 0xaa |}.

Lemma toy_gcm_ghash v h x data : length x = 16%nat -> (length data mod 16 = 0)%nat ->
  gcm_ghash v x (gcm_init v (bswap_quads h)) data = ghash_from toy_mul h x data.
Proof.
  intros _ _. change (ghash_from toy_mul (bswap_quads (bswap_quads h)) x data = ghash_from toy_mul h x data).
  rewrite bswap_bswap. unfold ghash_from. by rewrite toy_mul_take.
Qed.

#[export] Instance toy_heap_laws : HeapLaws.
Proof. constructor; [|apply repeat_length]. intros used. cbn. pose proof (is_fresh ({[0]} ∪ used)). set_solver. Qed.

#[export] Instance toy_gcm_laws : GcmLaws toy_env := {|
  gmul := toy_mul;
  length_gmul := fun h x => length_map _ _;
  get_H_spec := fun key _ => eq_refl;
  gcm_ghash_spec := toy_gcm_ghash
|}.

(** ** Parameters *)

Definition toy_set (v : pval) (p : OSSL_PARAM) : option OSSL_PARAM :=
  let put d := Some (Param (p_key p) (data_type p) (Some d) (Z.of_nat (length d))) in
  match v, data_type p with
  | VUint z, PT_UNSIGNED | VSize z, PT_UNSIGNED | VInt z, PT_INTEGER => put [z]
  | VOctets l, PT_OCTET_STRING | VOctetPtr l, PT_OCTET_PTR => put l
  | VUtf8Ptr s, PT_UTF8_PTR => put (map (fun a => Z.of_N (Ascii.N_of_ascii a)) (String.list_ascii_of_string s))
  | _, _ => None
  end.

#[export] Instance toy_ossl : Ossl := {|
  OSSL_PARAM_locate := fun ps k => fst <$> list_find (fun p => p_key p = k) ps;
  OSSL_PARAM_set := toy_set;
  OSSL_PARAM_get_size_t := fun p => match data_type p, p_data p with PT_UNSIGNED, Some [z] => Some z | _, _ => None end
|}.

Lemma toy_locate_some ps k i : OSSL_PARAM_locate ps k = Some i ->
  exists p, ps !! i = Some p /\ p_key p = k /\ forall j q, (j < i)%nat -> ps !! j = Some q -> p_key q <> k.
Proof.
  cbn. intros ([i' p] & Hf & ->)%fmap_Some. apply list_find_Some in Hf as (Hi & Hk & Hj). exists p. split_and!; [done..|].
  intros j q Hlt Hq. by apply (Hj j q).
Qed.

Lemma toy_locate_none ps k : OSSL_PARAM_locate ps k = None -> forall i p, ps !! i = Some p -> p_key p <> k.
Proof.
  cbn. intros Hf%fmap_None i p Hp. apply list_find_None in Hf. rewrite Forall_lookup in Hf. by apply (Hf i p).
Qed.

Lemma toy_set_key v p p' : OSSL_PARAM_set v p = Some p' -> p_key p' = p_key p.
Proof. cbn. unfold toy_set. destruct v, (data_type p); intros; by simplify_eq. Qed.

#[export] Instance toy_ossl_laws : OsslLaws := {|
  locate_some := toy_locate_some; locate_none := toy_locate_none; set_key := toy_set_key |}.
