(* ===== verification/GcmSession.v ===== *)
(** * AES-128-GCM: whole messages

    The life of a context: key, then for each message the additional data, the
    IV, the updates and the final call.  The lemmas lead from one stage to the
    next; the theorems are in the next file. *)

From S2P Require Import Prelude XomDomain ModXom CHeap Gctr AesCtr AesCtrTheorems GcmContext AesGcm GcmSpec OsslParams CipherParams.

Section session.
Context {V : Type} `{HeapLaws} `{GcmLaws V}.
Abbreviation E := block_cipher.
Implicit Types (s : gstate V) (ctx : aes_128_gcm_context).

Definition zeros16 : list Z := repeat 0 16.

(** ** Stages *)

(** The pool can take the code. *)
Definition pool_room (e : V) : Prop := forall code e', pool_lock code e <> Some (0, e').

(** The code of the key is staged or already in execute-only memory. *)
Definition gcode (key : list Z) ctx s : Prop :=
  let code := setup_128_key (g_has_vaes ctx) (gctr_code (g_has_vaes ctx)) key in
  (g_staging_buffer ctx <> 0 /\ gs_heap s !! g_staging_buffer ctx = Some code /\
   g_staging_buffer ctx <> g_Htable ctx /\ pool_room (gs_env s)) \/
  (g_staging_buffer ctx = 0 /\ code_at (gs_env s) (g_aes_fun ctx) = Some code).

(** Additional data that is stored in the context. *)
Definition gaad (aad : option (list Z)) ctx s : Prop :=
  match aad with
  | None => g_aad ctx = 0 /\ g_aad_len ctx = 0
  | Some d => g_aad ctx <> 0 /\ g_aad ctx <> g_Htable ctx /\ g_aad ctx <> g_staging_buffer ctx /\
      g_aad_len ctx = Z.of_nat (length d) /\
      gs_heap s !! g_aad ctx = Some (d ++ repeat 0 (Z.to_nat (aad_padded (Z.of_nat (length d)) - Z.of_nat (length d))))
  end.

(** A context with a key, between messages. *)
Record gready (key : list Z) (dec : bool) (aad : option (list Z)) ctx s : Prop := {
  gr_code : gcode key ctx s;
  gr_table : gs_heap s !! g_Htable ctx = Some (gcm_init (g_has_vpclmulqdq ctx) (bswap_quads (hkey key)));
  gr_key : length key = 16%nat;
  gr_dec : dec = false -> g_decrypt ctx = false;
  gr_vaes : g_has_vaes ctx = false;
  gr_block : length (g_block ctx) = 16%nat;
  gr_off : g_block_offset ctx = 0;
  gr_hash : g_hash_state ctx = zeros16;
  gr_num : g_num_ciphertext_blocks ctx = 0;
  gr_oiv : length (g_oiv ctx) = 16%nat;
  gr_tag : length (g_tag ctx) = 16%nat;
  gr_first : g_first_update ctx = false;
  gr_init : g_key_initialized ctx = true;
  gr_aad : gaad aad ctx s
}.

(** A context in a message, before the first byte of data: the additional
    data is hashed. *)
Record gbase (key iv aad : list Z) (dec : bool) ctx s : Prop := {
  gb_ok : gctx_ok key ctx s;
  gb_vaes : g_has_vaes ctx = false;
  gb_dec : g_decrypt ctx = dec;
  gb_J0 : g_J0 ctx = gcm_j0 iv;
  gb_J : g_J ctx = ctr_block (gcm_j0 iv) 1;
  gb_hash : g_hash_state ctx = ghash_from gmul (hkey key) zeros16 (pad16 aad);
  gb_num : g_num_ciphertext_blocks ctx = 0;
  gb_off : g_block_offset ctx = 0;
  gb_len : g_aad_len ctx = Z.of_nat (length aad);
  gb_oiv : length (g_oiv ctx) = 16%nat;
  gb_tag : length (g_tag ctx) = 16%nat;
  gb_key : g_key_initialized ctx = true;
  gb_staging : g_staging_buffer ctx = 0;
  gb_aad : g_aad ctx = 0 \/ g_aad ctx <> g_Htable ctx /\ is_Some (gs_heap s !! g_aad ctx)
}.

(** ** Additional data *)

Lemma aad_padded_bounds n : 0 <= n -> n <= aad_padded n /\ 16 * num_blocks n <= aad_padded n /\ n <= 16 * num_blocks n < n + 16.
Proof.
  intros Hn. unfold aad_padded, num_blocks, AES_128_GCM_BLOCK_SIZE.
  destruct (Z.eqb_spec (n mod 128) 0), (Z.eqb_spec (n mod 16) 0); zdiv.
Qed.

(** The blocks that are hashed are the data and zeros. *)
Lemma take_aad d : let n := Z.of_nat (length d) in
  let l := d ++ repeat 0 (Z.to_nat (aad_padded n - n)) in
  (Z.to_nat (16 * num_blocks n) <= length l)%nat /\ take (Z.to_nat (16 * num_blocks n)) l = pad16 d.
Proof.
  intros n l. destruct (aad_padded_bounds n) as (Hp & Hb & Hn); [lia|].
  split; [unfold l; rewrite length_app, repeat_length; lia|].
  unfold l. rewrite take_app_ge by lia. unfold pad16. f_equal. rewrite take_repeat. f_equal.
  destruct (div_mod16 (length d)) as [Hdm Hr]. set (r := (length d mod 16)%nat) in *.
  assert (Hnb : 16 * num_blocks n mod 16 = 0) by (rewrite Z.mul_comm; apply Z_mod_mult).
  destruct (decide (r = O)) as [->|Hr0].
  - change ((16 - 0) mod 16)%nat with O. zdiv.
  - rewrite Nat.mod_small by lia. zdiv.
Qed.

Lemma wp_init_aad (Q : aes_128_gcm_context -> gstate V -> Prop) ctx d s : g_aad ctx = 0 ->
  (forall p, p <> 0 -> gs_heap s !! p = None -> let n := Z.of_nat (length d) in
     Q (set_g_aad_len n (set_g_aad p ctx))
       (GState (gs_refs s) (<[p := d ++ repeat 0 (Z.to_nat (aad_padded n - n))]> (gs_heap s)) (gs_env s))) ->
  wp (init_aad ctx (Some d) (Z.of_nat (length d))) Q s.
Proof.
  intros Ha HQ. unfold init_aad. rewrite Ha. apply wp_bind, wp_gfree; [|done]. intros _.
  rewrite Nat2Z.id, take_ge by lia. apply wp_bind, wp_gmalloc. intros p Hp Hfr. apply wp_ret. by apply HQ.
Qed.

Lemma wp_hash_aad (Q : aes_128_gcm_context -> gstate V -> Prop) key ctx d s : gctx_ok key ctx s ->
  gaad (Some d) ctx s ->
  Q (set_g_hash_state (ghash_from gmul (hkey key) (g_hash_state ctx) (pad16 d)) ctx) s -> wp (hash_aad ctx) Q s.
Proof.
  intros Hc (_ & _ & _ & Hlen & Hheap) HQ. unfold hash_aad. apply wp_bind. eapply wp_gload; [done|].
  destruct (take_aad d) as [Hl Ht]. rewrite Hlen, decide_False by lia. rewrite Ht.
  apply (wp_ghash _ key); [done|apply pad16_mod|done].
Qed.

(** ** The IV *)

Lemma gcm_set_iv_spec ctx iv s : length iv = 12%nat -> length (g_oiv ctx) = 16%nat ->
  wp (gcm_set_iv ctx iv 12) (fun ctx' s' => s' = s /\
    ctx' = set_g_iv_initialized true (set_g_oiv (iv ++ drop 12 (g_oiv ctx)) (set_g_ivlen 12 ctx))) s.
Proof.
  intros Hi Ho. unfold gcm_set_iv. cbn [Z.eqb]. rewrite Hi. cbn [Z.of_nat]. apply wp_ret. split; [done|].
  do 2 f_equal. change (Z.to_nat 12) with 12%nat. rewrite take_ge by lia. unfold splice. by rewrite Hi.
Qed.

(** The code goes into execute-only memory, if it is not there yet. *)
Lemma gcm_lock_spec key dec aad ctx s : gready key dec aad ctx s ->
  wp (if g_staging_buffer ctx =? 0 then ret ctx
      else
        let! code := gload (g_staging_buffer ctx) in
        let! f := gin_env (pool_lock code) in
        do! gfree (g_staging_buffer ctx) in
        ret (set_g_staging_buffer 0 (set_g_aes_fun f ctx)))
    (fun ctx' s' => gready key dec aad ctx' s' /\ g_staging_buffer ctx' = 0 /\
       ctx' = set_g_staging_buffer 0 (set_g_aes_fun (g_aes_fun ctx') ctx) /\
       clears_left (gs_env s') = clears_left (gs_env s)) s.
Proof.
  intros Hr. destruct (gr_code _ _ _ _ _ Hr) as [(Hst & Hh & Hne & Hroom)|(Hst & Hcode)].
  - rewrite (proj2 (Z.eqb_neq _ 0)) by done. apply wp_bind. eapply wp_gload; [done|].
    destruct (pool_lock_spec (setup_128_key (g_has_vaes ctx) (gctr_code (g_has_vaes ctx)) key) (gs_env s))
      as (f & e' & Hrun & Hcode & Hcl & _).
    assert (Hf : f <> 0) by (intros ->; by apply (Hroom _ _ Hrun)).
    apply wp_bind. exists f, (GState (gs_refs s) (gs_heap s) e'). unfold gin_env at 1. rewrite Hrun. split; [done|].
    apply wp_bind, wp_gfree; [done|]. intros _. split; [by eexists|]. apply wp_ret. cbn [gs_env gs_heap gs_refs].
    split_and!; [|done|done|done]. destruct Hr as [_ Ht ??????????? Ha]. split; try done.
    + right. cbn. auto.
    + cbn. by rewrite lookup_delete_ne.
    + destruct aad as [d|]; cbn in *; [|done]. destruct Ha as (? & ? & ? & ? & ?). rewrite lookup_delete_ne by done. done.
  - rewrite Hst. apply wp_ret. split_and!; [done|done| |done]. by destruct ctx; cbn in *; subst.
Qed.

(** With key and IV there, the message begins. *)
Lemma gcm_start_spec key dec aad ctx iv s : gready key dec aad ctx s -> length iv = 12%nat ->
  take 12 (g_oiv ctx) = iv -> g_ivlen ctx = 12 -> g_decrypt ctx = dec ->
  wp (gcm_start ctx) (fun ctx' s' => gbase key iv (default [] aad) dec ctx' s' /\
    g_first_update ctx' = false /\ (aad = None -> g_aad ctx' = 0) /\ g_tag ctx' = g_tag ctx /\
    clears_left (gs_env s') = clears_left (gs_env s)) s.
Proof.
  intros Hr Hi Hiv Hil Hdec. unfold gcm_start. apply wp_bind. eapply wp_mono; [by eapply gcm_lock_spec|].
  intros ctx1 s1 (Hr1 & Hst & Hctx1 & Hcl). set (f := g_aes_fun ctx1) in *.
  assert (Hj0 : length (gcm_j0 iv) = 16%nat) by (unfold gcm_j0; rewrite length_app; cbn; lia).
  unfold getJ0. replace (g_ivlen ctx1) with 12 by (by rewrite Hctx1).
  replace (take 12 (g_oiv ctx1)) with iv by (by rewrite Hctx1).
  apply wp_bind. cbn [Z.eqb Pos.eqb]. apply wp_ret. fold (gcm_j0 iv). fold (ctr_block (gcm_j0 iv) 1).
  set (ctx2 := set_g_J _ _).
  assert (Hc2 : gctx_ok key ctx2 s1).
  { destruct Hr1 as [[(?&_)|(_ & Hcode)] Ht Hk _ _ Hbl Ho Hh Hn _ _ _ _ _]; [done|].
    split; cbn; try done; try lia; [by apply length_ctr_block| |by rewrite Hh].
    unfold ctr_block. rewrite load_store_ctr; [done|done|]. unfold u32. apply Z.mod_pos_bound. lia. }
  assert (Hdec1 : g_decrypt ctx1 = dec) by (by rewrite Hctx1).
  assert (Htag1 : g_tag ctx1 = g_tag ctx) by (by rewrite Hctx1).
  destruct Hr1 as [_ Ht Hk _ Hv _ Ho Hh Hn Hoiv Htag Hf Hki Ha].
  destruct aad as [d|]; cbn [gaad default] in Ha |- *.
  - change (g_aad ctx2) with (g_aad ctx1). destruct (Z.eqb_spec (g_aad ctx1) 0) as [Hz|_]; [by destruct Ha|].
    apply (wp_hash_aad _ key _ d); [done|done|]. cbn [g_hash_state set_g_hash_state].
    change (g_hash_state ctx2) with (g_hash_state ctx1). rewrite Hh. split_and!; [|done..].
    destruct Ha as (_ & Hne & _ & Hlen & Hheap). split; try done.
    + destruct Hc2. split; try done. apply length_ghash; [apply length_gmul|done].
    + right. split; [done|by eexists].
  - change (g_aad ctx2) with (g_aad ctx1). destruct Ha as [Ha Hl]. rewrite Ha. cbn [Z.eqb]. apply wp_ret.
    split_and!; [|done..]. split; try done. by left.
Qed.

(** [einit] or [dinit] with an IV and no key. *)
Definition gcm_begin (dec : bool) (ctx : aes_128_gcm_context) (iv : list Z) : M (gstate V) (Z * aes_128_gcm_context) :=
  (if dec then aes_128_gcm_dinit else aes_128_gcm_einit) ctx None 0 (Some iv) (Z.of_nat (length iv)).

Lemma gcm_begin_spec key dec aad ctx iv s : gready key dec aad ctx s -> length iv = 12%nat ->
  wp (gcm_begin dec ctx iv) (fun '(r, ctx') s' => r = 1 /\ gbase key iv (default [] aad) dec ctx' s' /\
    g_first_update ctx' = false /\ (aad = None -> g_aad ctx' = 0) /\ g_tag ctx' = g_tag ctx /\
    clears_left (gs_env s') = clears_left (gs_env s)) s.
Proof.
  intros Hr Hi. unfold gcm_begin, aes_128_gcm_dinit. rewrite Hi. change (Z.of_nat 12) with 12.
  set (ctx0 := if dec then set_g_decrypt true ctx else ctx).
  assert (Hr0 : gready key dec aad ctx0 s).
  { unfold ctx0. destruct dec; [|done]. by destruct Hr. }
  assert (Hd0 : g_decrypt ctx0 = dec) by (unfold ctx0; destruct dec; [done|by apply Hr]).
  assert (Ht0 : g_tag ctx0 = g_tag ctx) by (unfold ctx0; by destruct dec).
  replace ((if dec then _ else _) ctx None 0 (Some iv) 12) with (aes_128_gcm_einit ctx0 None 0 (Some iv) 12)
    by (unfold ctx0; by destruct dec).
  clearbody ctx0. unfold aes_128_gcm_einit. apply wp_bind, wp_ret, wp_bind.
  pose proof (gr_oiv _ _ _ _ _ Hr0) as Hoiv.
  eapply wp_mono; [by apply gcm_set_iv_spec|]. intros ctx1 s1 (-> & ->).
  cbn [g_iv_initialized g_key_initialized set_g_iv_initialized set_g_oiv set_g_ivlen].
  rewrite (gr_init _ _ _ _ _ Hr0). cbn [andb negb]. rewrite <- Ht0. apply wp_bind.
  eapply wp_mono; [apply (gcm_start_spec key dec aad _ iv)|].
  - destruct Hr0. split; try done. cbn. rewrite length_app, length_drop. lia.
  - done.
  - cbn. by rewrite take_app_length'.
  - done.
  - done.
  - intros ctx2 s2 Hpost. apply wp_ret. split; [done|exact Hpost].
Qed.

(** ** Additional data in the first update *)

Lemma gcm_first_update_spec key iv aad0 aad dec fuel ctx out_a out outsize in_a s :
  gbase key iv aad0 dec ctx s -> g_first_update ctx = false -> (length aad < 16)%nat ->
  aad = [] \/ aad0 = [] /\ g_aad ctx = 0 ->
  wp (aes_128_gcm_stream_update fuel ctx out_a out outsize in_a aad) (fun '(r, outl, (ctx', out')) s' =>
    r = 1 /\ outl = 0 /\ out' = out /\ gbase key iv (aad0 ++ aad) dec ctx' s' /\ g_first_update ctx' = true /\
    g_tag ctx' = g_tag ctx /\ gs_env s' = gs_env s) s.
Proof.
  intros Hb Hf Hl Hcase. unfold aes_128_gcm_stream_update. rewrite Hf. destruct (decide (aad = [])) as [->|Hne].
  { apply wp_ret. rewrite app_nil_r. split_and!; try done. destruct Hb as [Hok]. split; try done. by destruct Hok. }
  destruct Hcase as [?|[-> Ha]]; [done|]. rewrite (proj2 (Z.eqb_neq _ 0)) by (destruct aad; cbn; done || lia).
  rewrite (proj2 (Z.ltb_lt _ _)) by (unfold AES_128_GCM_BLOCK_SIZE; lia).
  apply wp_bind, wp_init_aad; [done|]. intros p Hp Hfr n. apply wp_bind. cbn [app].
  pose proof (gk_table _ _ _ (gb_ok _ _ _ _ _ _ Hb)) as Ht.
  assert (Hpt : p <> g_Htable ctx) by (intros ->; congruence).
  apply (wp_hash_aad _ key _ aad).
  - destruct Hb as [[]]. split; cbn; try done. by rewrite lookup_insert_ne.
  - cbn. rewrite lookup_insert_eq. rewrite (gb_staging _ _ _ _ _ _ Hb). done.
  - cbn [set_g_aad_len set_g_aad g_hash_state set_g_first_update]. apply wp_ret. split_and!; try done.
    destruct Hb as [[] Hv Hd HJ0 HJ Hh]. split; cbn; try done.
    + split; cbn; try done; [by rewrite lookup_insert_ne|apply length_ghash; [apply length_gmul|done]].
    + by rewrite Hh.
    + right. split; [done|]. rewrite lookup_insert_eq. by eexists.
Qed.

(** ** Updates *)

(** [ctx] is [ctx0] after the bytes [data]. *)
Definition greached (key : list Z) (ctx0 : aes_128_gcm_context) (data : list Z) (ctx : aes_128_gcm_context) : Prop :=
  let m := (length data / 16)%nat in
  (exists blk, ctx = keep blk (length data mod 16) (gpass key ctx0 (take (16 * m) data)) /\ length blk = 16%nat) /\
  gpending ctx = drop (16 * m) data.

Lemma greached_nil key ctx0 s : gctx_ok key ctx0 s -> g_block_offset ctx0 = 0 -> greached key ctx0 [] ctx0.
Proof.
  intros Hc Ho. split.
  - exists (g_block ctx0). split; [|apply Hc]. cbn [length]. rewrite take_nil, (gpass_nil _ _ s) by done.
    change (Z.of_nat (0 mod 16)) with 0. unfold keep. destruct ctx0; cbn in *. by subst.
  - unfold gpending. by rewrite Ho.
Qed.

Lemma greached_ok key ctx0 data ctx s s' : gctx_ok key ctx0 s -> gs_step s s' -> greached key ctx0 data ctx -> gctx_ok key ctx s'.
Proof.
  intros Hc Hs [(blk & -> & Hb) _]. apply keep_ok; [by eapply gpass_ok|done|]. apply div_mod16.
Qed.

(** The bytes written for the full blocks of [data]. *)
Definition gwritten (key : list Z) (ctx0 : aes_128_gcm_context) (data : list Z) : list Z :=
  gctr E key (g_J ctx0) (take (16 * (length data / 16)) data).

(** Data that follows full blocks [x] of which [rest] is left over. *)
Lemma div16_app (x rest y : list Z) : (length x mod 16 = 0)%nat ->
  (16 * (length (x ++ rest ++ y) / 16) = length x + 16 * (length (rest ++ y) / 16))%nat.
Proof.
  intros Hx. destruct (div_mod16 (length x)) as [Hl _]. set (q := (length x / 16)%nat) in *.
  rewrite length_app, Hl, Hx, Nat.add_0_r, (Nat.mul_comm 16 q), Nat.div_add_l; lia.
Qed.

Lemma greached_update key ctx0 s0 data ctx inp out r outl ctx' out' s s' :
  gctx_ok key ctx0 s0 -> greached key ctx0 data ctx ->
  gupdate_post key ctx (gpending ctx ++ inp) out s r outl ctx' out' s' ->
  r = 1 /\ greached key ctx0 (data ++ inp) ctx' /\ gs_step s s' /\
  gwritten key ctx0 data ++ take (Z.to_nat outl) out' = gwritten key ctx0 (data ++ inp).
Proof.
  intros Hc [(blk & Hctx & Hblk) Hpend] (-> & -> & -> & (blk' & Hctx' & Hblk') & Hpend' & Hs). split; [done|].
  set (m := (length data / 16)%nat) in *. set (x := take (16 * m) data) in *. set (rest := drop (16 * m) data) in *.
  assert (Hdata : data ++ inp = x ++ rest ++ inp) by (unfold x, rest; by rewrite app_assoc, take_drop).
  destruct (div_mod16 (length data)) as [Hdm Hdr]. fold m in Hdm.
  assert (Hxl : length x = (16 * m)%nat) by (unfold x; rewrite length_take; lia).
  assert (Hx : (length x mod 16 = 0)%nat) by (rewrite Hxl, Nat.mul_comm; apply Nat.Div0.mod_mul).
  pose proof (div16_app x rest inp Hx) as Hdiv. rewrite Hpend in *. set (d2 := rest ++ inp) in *.
  set (x2 := take (16 * (length d2 / 16)) d2) in *.
  assert (Htake : take (16 * (length (x ++ d2) / 16)) (x ++ d2) = x ++ x2).
  { rewrite Hdiv, take_app_ge by lia. do 2 f_equal. lia. }
  assert (HJ : g_J ctx = next_icb (g_J ctx0) m).
  { rewrite Hctx. change (g_J (keep _ _ ?c)) with (g_J c).
    change (g_J (gpass key ctx0 x)) with (next_icb (g_J ctx0) (length x / 16)). rewrite Hxl, Nat.mul_comm. by rewrite Nat.div_mul. }
  assert (Hout : gctr E key (g_J ctx0) (x ++ x2) = gctr E key (g_J ctx0) x ++ gctr E key (g_J ctx) x2).
  { rewrite HJ. apply gctr_next; [apply Hc|done]. }
  assert (Hx2 : length x2 = (16 * (length d2 / 16))%nat).
  { unfold x2. rewrite length_take. pose proof (Nat.Div0.mul_div_le (length d2) 16). lia. }
  split_and!; [|done|].
  - unfold greached. rewrite Hdata. split.
    + exists blk'. split; [|done]. rewrite Htake, <- (gpass_app _ _ s0) by done. rewrite Hctx', Hctx.
      assert (Hmod : (length (x ++ d2) mod 16 = length d2 mod 16)%nat).
      { rewrite length_app, <- Nat.Div0.add_mod_idemp_l, Hx. done. }
      by rewrite Hmod.
    + rewrite Hpend', Hdiv, drop_app_ge by lia. f_equal. lia.
  - rewrite Nat2Z.id. unfold gwritten. rewrite Hdata, Htake, Hout. fold m x. f_equal.
    apply take_splice. by rewrite length_gctr.
Qed.

(** The caller's updates, each output appended. *)
Fixpoint gcm_updates (fuel : nat) (ctx : aes_128_gcm_context) (l : list update_call)
    : M (gstate V) (aes_128_gcm_context * list Z) :=
  match l with
  | [] => ret (ctx, [])
  | u :: l =>
      let! '(r, outl, (ctx, out)) := aes_128_gcm_stream_update fuel ctx (u_out_a u) (u_out u)
                                       (Z.of_nat (length (u_out u))) (u_in_a u) (u_in u) in
      if r =? 1 then
        let! '(ctx, rest) := gcm_updates fuel ctx l in
        ret (ctx, take (Z.to_nat outl) out ++ rest)
      else ret (ctx, [])
  end.

(** Enough for every interruption and every chunk of the input. *)
Definition fuel_for (fuel clears : nat) (u : update_call) : Prop :=
  (clears + runs (Z.of_nat (length (u_in u) / 16 + 1)) < fuel)%nat.

(** What a caller that has not made an update starts with: a first update of
    1 to 15 bytes is taken for additional data. *)
Definition first_ok (l : list update_call) : Prop :=
  match l with [] => True | u :: _ => u_in u = [] \/ (16 <= length (u_in u))%nat end.

Lemma gcm_updates_first key iv aad dec fuel ctx l s : gbase key iv aad dec ctx s -> g_first_update ctx = true \/ first_ok l ->
  exists ctx', gbase key iv aad dec ctx' s /\ (g_first_update ctx' = true \/ l = []) /\
    gcm_updates fuel ctx l s = gcm_updates fuel ctx' l s.
Proof.
  intros Hb Hf. destruct (g_first_update ctx) eqn:Hfu; [by exists ctx; auto|]. destruct Hf as [|Hf]; [done|].
  destruct l as [|u l]; [by exists ctx; auto|]. exists (set_g_first_update true ctx). split_and!; [|by left|].
  { destruct Hb as [[]]. done. }
  assert (Hu : aes_128_gcm_stream_update fuel ctx (u_out_a u) (u_out u) (Z.of_nat (length (u_out u))) (u_in_a u) (u_in u) s =
    aes_128_gcm_stream_update fuel (set_g_first_update true ctx) (u_out_a u) (u_out u) (Z.of_nat (length (u_out u))) (u_in_a u) (u_in u) s).
  { unfold aes_128_gcm_stream_update. rewrite Hfu. cbn [g_first_update set_g_first_update]. destruct Hf as [Hnil|Hlong].
    - rewrite Hnil. pose proof (gb_off _ _ _ _ _ _ Hb) as Ho. unfold gcm_update_data.
      change (g_block_offset (set_g_first_update true ctx)) with (g_block_offset ctx). rewrite Ho.
      destruct ctx; cbn in *. by subst.
    - rewrite (proj2 (Z.eqb_neq _ 0)), (proj2 (Z.ltb_ge _ _)) by (unfold AES_128_GCM_BLOCK_SIZE; lia). done. }
  cbn [gcm_updates]. unfold bind at 1 3. by rewrite Hu.
Qed.

Lemma gcm_updates_spec key fuel ctx0 s0 l : gctx_ok key ctx0 s0 -> g_has_vaes ctx0 = false ->
  g_first_update ctx0 = true \/ l = [] ->
  forall data ctx s, greached key ctx0 data ctx -> gs_step s0 s ->
  calls_ok (clears_left (gs_env s0) = 0%nat /\ g_decrypt ctx0 = false) (length data mod 16) l -> Forall (fuel_for fuel (clears_left (gs_env s0))) l ->
  wp (gcm_updates fuel ctx l) (fun '(ctx', o) s' => let all := data ++ concat (map u_in l) in
    greached key ctx0 all ctx' /\ gwritten key ctx0 data ++ o = gwritten key ctx0 all /\ gs_step s0 s') s.
Proof.
  intros Hc0 Hv0. induction l as [|u l IH]; intros Hf0 data ctx s Hr Hs Hl Hfu; cbn [gcm_updates].
  { apply wp_ret. cbn. by rewrite !app_nil_r. }
  destruct Hf0 as [Hf0|]; [|done]. destruct Hl as [Hu Hl]. pose proof (co_room _ _ _ Hu) as Hroom.
  apply Forall_cons in Hfu as [Hfu Hful].
  pose proof (greached_ok _ _ _ _ _ _ Hc0 Hs Hr) as Hc. pose proof (length_gpending _ _ _ Hc) as Hp.
  pose proof (gk_off _ _ _ Hc) as Ho. set (d := gpending ctx ++ u_in u).
  assert (Hd : (length d <= length (u_in u) + 15)%nat) by (unfold d; rewrite length_app; lia).
  destruct (div_mod16 (length d)) as [Hdm _], (div_mod16 (length (u_in u))) as [Hum Hur].
  assert (Hm : (length d / 16 <= length (u_in u) / 16 + 1)%nat) by lia.
  assert (Hv : g_has_vaes ctx = false /\ g_first_update ctx = true /\ g_decrypt ctx = g_decrypt ctx0)
    by (destruct Hr as [(blk & -> & _) _]; done).
  destruct Hv as (Hv & Hfi & Hdec). assert (Hpl : length (gpending ctx) = (length data mod 16)%nat).
  { destruct Hr as [_ ->]. rewrite length_drop. destruct (div_mod16 (length data)). lia. }
  unfold aes_128_gcm_stream_update. rewrite Hfi.
  apply wp_bind. eapply wp_mono; [apply (gcm_update_data_spec key); fold d; try done; try lia|].
  { destruct Hs as (_ & _ & _ & Hcl). unfold fuel_for, runs in Hfu |- *. zdiv. }
  { rewrite Hpl, Hdec. destruct u. eapply call_ok_mono; [|exact Hu]. destruct Hs as (_ & _ & _ & Hcl). intros [? ?]. split; [lia|done]. }
  intros [[r outl] [ctx1 out1]] s1 Hpost.
  destruct (greached_update _ _ _ _ _ _ _ _ _ _ _ _ _ Hc0 Hr Hpost) as (-> & Hr1 & Hs1 & Ho1). cbn [Z.eqb Pos.eqb].
  apply wp_bind. eapply wp_mono; [apply (IH (or_introl Hf0) (data ++ u_in u)); [done|by eapply gs_step_trans| |done]|].
  { by rewrite length_app, <- Nat.Div0.add_mod_idemp_l. }
  cbn zeta. intros [ctx2 o2] s2 (Hr2 & Ho2 & Hs2). apply wp_ret. cbn [map concat]. rewrite <- app_assoc in *.
  split_and!; [done| |done]. by rewrite app_assoc, Ho1.
Qed.

(** ** The final call *)

(** The ciphertext of data that was encrypted, or that was to be decrypted. *)
Definition gcm_ct (dec : bool) (key icb data : list Z) : list Z := if dec then data else gctr E key icb data.

Lemma length_gcm_ct dec key icb data : length (gcm_ct dec key icb data) = length data.
Proof. destruct dec; [done|apply length_gctr]. Qed.

Lemma gcm_final_block_spec key fuel ctx junk outsize s : gctx_ok key ctx s -> g_has_vaes ctx = false ->
  (clears_left (gs_env s) < fuel)%nat -> (16 <= length junk)%nat -> 16 <= outsize ->
  let ct := gcm_ct (g_decrypt ctx) key (g_J ctx) (gpending ctx) in
  let lengths := be64 (u64 (Z.shiftl (g_aad_len ctx) 3)) ++
                 be64 (u64 (g_num_ciphertext_blocks ctx * 128 + g_block_offset ctx * 8)) in
  wp (gcm_final_block fuel ctx junk outsize) (fun '(out, ctx') s' =>
    out = gctr E key (g_J ctx) (gpending ctx) /\
    ctx' = set_g_hash_state (ghash_from gmul (hkey key) (g_hash_state ctx) (pad16 ct ++ lengths)) ctx /\ gs_step s s') s.
Proof.
  intros Hc Hv Hf Hj Hos ct lengths. pose proof (gk_off _ _ _ Hc) as Ho. pose proof (length_gpending _ _ _ Hc) as Hp.
  assert (Hll : (length lengths mod 16 = 0)%nat) by (unfold lengths; by rewrite length_app, !length_be64).
  assert (Hmod : (length (pad16 ct ++ lengths) mod 16 = 0)%nat).
  { rewrite length_app, <- Nat.Div0.add_mod_idemp_l, pad16_mod. done. }
  unfold gcm_final_block. destruct (Z.eqb_spec (g_block_offset ctx) 0) as [Hz|Hz].
  { assert (Hpe : gpending ctx = []) by (unfold gpending; by rewrite Hz).
    assert (Hct : pad16 ct = []) by (unfold ct; rewrite Hpe; by destruct (g_decrypt ctx)).
    rewrite Hct in Hmod |- *. apply wp_bind. apply (wp_ghash _ key); [done|done|]. apply wp_ret.
    rewrite Hpe. split_and!; [done|done|apply gs_step_refl]. }
  fold (gpending ctx). set (n := Z.to_nat (g_block_offset ctx)) in *. set (pad := repeat 0 _).
  assert (Hpad : forall l, length l = n -> l ++ pad = pad16 l).
  { intros l Hl. unfold pad16, pad. rewrite Hl, (Nat.mod_small n), Nat.mod_small by lia. do 2 f_equal. lia. }
  assert (Hin : length (gpending ctx ++ pad) = 16%nat) by (unfold pad; rewrite length_app, repeat_length; lia).
  apply wp_bind. eapply wp_mono; [apply (gcm_one_block_spec key); try done; try apply Hc|].
  { rewrite length_take. lia. }
  intros y s1 [Hy Hs1].
  assert (Hyn : take n y = gctr E key (g_J ctx) (gpending ctx)).
  { transitivity (take n (take 16 y)); [rewrite take_take; f_equal; lia|].
    rewrite Hy, <- gctr_take, take_app_length' by done. done. }
  rewrite Hyn. replace (Z.to_nat (Z.min outsize (g_block_offset ctx))) with n by lia. rewrite Hyn.
  replace (if g_decrypt ctx then _ else _) with (pad16 ct).
  2:{ unfold ct. destruct (g_decrypt ctx); cbn [gcm_ct]; [by rewrite Hpad|]. by rewrite Hpad by (by rewrite length_gctr). }
  apply wp_bind. apply (wp_ghash _ key); [by eapply gctx_ok_step|done|]. by apply wp_ret.
Qed.

(** The lengths that are hashed. *)
Lemma final_lengths ctx aad ct m : g_aad_len ctx = Z.of_nat (length aad) ->
  g_num_ciphertext_blocks ctx = u64 (Z.of_nat m) -> g_block_offset ctx = Z.of_nat (length ct - 16 * m) ->
  (16 * m <= length ct)%nat -> 8 * Z.of_nat (length aad) < 2 ^ 64 -> 8 * Z.of_nat (length ct) < 2 ^ 64 ->
  be64 (u64 (Z.shiftl (g_aad_len ctx) 3)) ++ be64 (u64 (g_num_ciphertext_blocks ctx * 128 + g_block_offset ctx * 8)) =
  gcm_lengths aad ct.
Proof.
  intros -> -> -> Hm Ha Hc. unfold gcm_lengths, u64. rewrite Z.shiftl_mul_pow2 by lia. change (2 ^ 3) with 8.
  rewrite (Z.mod_small (Z.of_nat m)), !Z.mod_small by lia. do 2 f_equal; lia.
Qed.

(** The hash over the data of a whole message. *)
Lemma final_ghash key iv aad dec ctx0 s0 data ctx : gbase key iv aad dec ctx0 s0 -> greached key ctx0 data ctx ->
  let icb := ctr_block (gcm_j0 iv) 1 in
  8 * Z.of_nat (length aad) < 2 ^ 64 -> 8 * Z.of_nat (length data) < 2 ^ 64 ->
  ghash_from gmul (hkey key) (g_hash_state ctx)
    (pad16 (gcm_ct (g_decrypt ctx) key (g_J ctx) (gpending ctx)) ++
     be64 (u64 (Z.shiftl (g_aad_len ctx) 3)) ++ be64 (u64 (g_num_ciphertext_blocks ctx * 128 + g_block_offset ctx * 8))) =
  ghash_from gmul (hkey key) zeros16 (pad16 aad ++ pad16 (gcm_ct dec key icb data) ++ gcm_lengths aad (gcm_ct dec key icb data)) /\
  gwritten key ctx0 data ++ gctr E key (g_J ctx) (gpending ctx) = gctr E key icb data.
Proof.
  intros Hb [(blk & Hctx & Hblk) Hpe] icb Ha Hd. rewrite Hpe.
  set (m := (length data / 16)%nat) in *. set (x := take (16 * m) data) in *. set (rest := drop (16 * m) data) in *.
  destruct (div_mod16 (length data)) as [Hdm Hdr]. fold m in Hdm.
  assert (Hxl : length x = (16 * m)%nat) by (unfold x; rewrite length_take; lia).
  assert (Hxm : (length x / 16 = m)%nat) by (by rewrite Hxl, Nat.mul_comm, Nat.div_mul).
  assert (Hdata : data = x ++ rest) by (unfold x, rest; by rewrite take_drop).
  assert (Hdec : g_decrypt ctx = dec) by (rewrite Hctx; apply Hb).
  assert (HJ : g_J ctx = next_icb icb m) by (rewrite Hctx, <- Hxm; unfold icb; by rewrite <- (gb_J _ _ _ _ _ _ Hb)).
  assert (Hicb : length icb = 16%nat) by (unfold icb; rewrite <- (gb_J _ _ _ _ _ _ Hb); apply Hb).
  assert (Hct : gcm_ct dec key icb data = gcm_ct dec key icb x ++ gcm_ct dec key (g_J ctx) rest).
  { rewrite HJ, Hdata at 1. destruct dec; [done|]. by apply gctr_next. }
  assert (Hcx : (length (gcm_ct dec key icb x) mod 16 = 0)%nat) by (rewrite length_gcm_ct, Hxl, Nat.mul_comm; apply Nat.Div0.mod_mul).
  split.
  - rewrite (final_lengths ctx aad (gcm_ct dec key icb data) m); rewrite ?length_gcm_ct; try done; try lia.
    + rewrite Hct at 2. rewrite pad16_app, Hdec, (ghash_app _ _ zeros16), <- app_assoc by (done || apply pad16_mod).
      rewrite <- (gb_hash _ _ _ _ _ _ Hb), (ghash_app _ _ _ (gcm_ct dec key icb x)) by done.
      f_equal. rewrite Hctx. unfold gcm_ct, icb. rewrite <- (gb_J _ _ _ _ _ _ Hb), <- (gb_dec _ _ _ _ _ _ Hb). done.
    + rewrite Hctx. apply Hb.
    + rewrite Hctx, <- Hxm. cbn. by rewrite (gb_num _ _ _ _ _ _ Hb).
    + rewrite Hctx. change (g_block_offset (keep _ ?n _)) with (Z.of_nat n). lia.
  - unfold gwritten. fold m x. rewrite (gb_J _ _ _ _ _ _ Hb), HJ. fold icb. rewrite Hdata. symmetry. by apply gctr_next.
Qed.

(** The final call clears the context for the next message. *)
Definition gcm_reset (ctx : aes_128_gcm_context) : aes_128_gcm_context :=
  set_g_hash_state zeros16 (set_g_ctr_d 0 (set_g_block zeros16 (set_g_num_ciphertext_blocks 0
    (set_g_block_offset 0 (set_g_first_update false (set_g_aad_len 0 (set_g_aad 0 ctx))))))).

Lemma gready_reset key iv aad dec ctx0 s0 data ctx tag h s' : gbase key iv aad dec ctx0 s0 -> greached key ctx0 data ctx ->
  length tag = 16%nat -> code_at (gs_env s') (g_aes_fun ctx0) = code_at (gs_env s0) (g_aes_fun ctx0) ->
  gs_heap s' !! g_Htable ctx0 = gs_heap s0 !! g_Htable ctx0 ->
  gready key dec None (gcm_reset (set_g_tag tag (set_g_hash_state h ctx))) s'.
Proof.
  intros Hb [(blk & -> & _) _] Ht Hcode Hheap. destruct Hb as [[]]. split; cbn; try done.
  - right. split; [done|]. by etransitivity; [exact Hcode|].
  - by rewrite Hheap.
  - congruence.
Qed.

(** What the final call returns and leaves. *)
Definition gfinal_post (key iv aad : list Z) (dec : bool) (ctx0 : aes_128_gcm_context) (data : list Z)
    (ctx : aes_128_gcm_context) (s : gstate V) (r outl : Z) (out : list Z) (ctx' : aes_128_gcm_context) (s' : gstate V) : Prop :=
  let icb := ctr_block (gcm_j0 iv) 1 in let tag := gcm_tag E gmul key iv aad (gcm_ct dec key icb data) in
  outl = g_block_offset ctx /\ gwritten key ctx0 data ++ take (Z.to_nat outl) out = gctr E key icb data /\
  (if dec then r = (if bool_decide (tag = g_tag ctx) then 1 else 0) /\ g_tag ctx' = g_tag ctx else r = 1 /\ g_tag ctx' = tag) /\
  gready key dec None ctx' s' /\ (clears_left (gs_env s') <= clears_left (gs_env s))%nat.

Lemma gcm_final_spec key iv aad dec fuel ctx0 s0 data ctx s junk outsize :
  gbase key iv aad dec ctx0 s0 -> greached key ctx0 data ctx -> gs_step s0 s -> length iv = 12%nat ->
  8 * Z.of_nat (length aad) < 2 ^ 64 -> 8 * Z.of_nat (length data) < 2 ^ 64 ->
  (clears_left (gs_env s) < fuel)%nat -> (16 <= length junk)%nat -> 16 <= outsize ->
  wp (aes_128_gcm_stream_final fuel ctx junk outsize) (fun '(r, outl, (out, ctx')) s' =>
    gfinal_post key iv aad dec ctx0 data ctx s r outl out ctx' s') s.
Proof.
  intros Hb Hr Hs Hi Ha Hd Hf Hj Hos. pose proof (greached_ok _ _ _ _ _ _ (gb_ok _ _ _ _ _ _ Hb) Hs Hr) as Hc.
  destruct (final_ghash _ _ _ _ _ _ _ _ Hb Hr Ha Hd) as [Hgh Hw]. pose proof Hr as [(blk & Hctx & Hblk) _].
  assert (Hv : g_has_vaes ctx = false) by (rewrite Hctx; apply Hb).
  unfold aes_128_gcm_stream_final. apply wp_bind. eapply wp_mono; [by apply (gcm_final_block_spec key)|].
  intros [out ctx1] s1 (-> & -> & Hs1). rewrite Hgh. set (h := ghash_from _ _ zeros16 _).
  assert (Hh : length h = 16%nat) by (apply length_ghash; [apply length_gmul|done]).
  assert (HJ0 : g_J0 ctx = gcm_j0 iv) by (rewrite Hctx; apply Hb).
  assert (Hj0l : length (gcm_j0 iv) = 16%nat) by (unfold gcm_j0; rewrite length_app, Hi; done).
  apply wp_bind. eapply wp_mono; [apply (gcm_one_block_spec key _ ctx); try done|].
  { by eapply gctx_ok_step. }
  { destruct Hs1 as (_ & _ & _ & ?). lia. }
  { cbn. by rewrite HJ0. }
  { rewrite length_take. lia. }
  intros y s2 [Hy Hs2]. cbn [g_J0 set_g_hash_state g_hash_state] in Hy. rewrite HJ0 in Hy. rewrite Hy.
  change (gctr E key (gcm_j0 iv) h) with (gcm_tag E gmul key iv aad (gcm_ct dec key (ctr_block (gcm_j0 iv) 1) data)).
  set (tag := gcm_tag _ _ _ _ _ _). cbn [g_decrypt set_g_hash_state g_tag].
  assert (Hdec : g_decrypt ctx = dec) by (rewrite Hctx; apply Hb). rewrite Hdec.
  set (ctx2 := if dec then _ else _).
  assert (Hctx2 : ctx2 = set_g_tag (if dec then g_tag ctx else tag) (set_g_hash_state h ctx)).
  { unfold ctx2. destruct dec; [|done]. by destruct ctx. }
  rewrite Hctx2. cbn [g_aad set_g_tag set_g_hash_state g_block_offset].
  assert (Hs02 : gs_step s0 s2) by (by repeat (eapply gs_step_trans; [done|])).
  destruct Hs02 as (_ & Hheap & Hcode & _).
  assert (Hcl : (clears_left (gs_env s2) <= clears_left (gs_env s))%nat).
  { destruct Hs1 as (_ & _ & _ & ?), Hs2 as (_ & _ & _ & ?). lia. }
  set (tag' := if dec then g_tag ctx else tag).
  assert (Htl : length tag' = 16%nat).
  { unfold tag', tag, gcm_tag. destruct dec; [rewrite Hctx; apply Hb|]. rewrite length_gctr. exact Hh. }
  assert (Haad : g_aad ctx = g_aad ctx0) by (by rewrite Hctx). rewrite Haad.
  assert (Hoff : Z.to_nat (g_block_offset ctx) = length (gctr E key (g_J ctx) (gpending ctx))).
  { by rewrite length_gctr, (length_gpending _ _ _ Hc). }
  assert (Hpost : forall s', gs_env s' = gs_env s2 -> gs_heap s' !! g_Htable ctx0 = gs_heap s0 !! g_Htable ctx0 ->
    gfinal_post key iv aad dec ctx0 data ctx s (if dec then if bool_decide (tag = g_tag ctx) then 1 else 0 else 1)
      (g_block_offset ctx) (gctr E key (g_J ctx) (gpending ctx)) (gcm_reset (set_g_tag tag' (set_g_hash_state h ctx))) s').
  { intros s' He Hht. unfold gfinal_post. rewrite He, Hoff, firstn_all. split_and!; [done|done|by unfold tag'; destruct dec| |done].
    eapply gready_reset; [done|done|done|by rewrite He, Hcode|done]. }
  apply wp_bind, wp_gfree.
  - intros _. apply wp_ret, Hpost; [done|by rewrite Hheap].
  - intros Hnz. destruct (gb_aad _ _ _ _ _ _ Hb) as [?|[Hne Hsome]]; [done|]. split; [by rewrite Hheap|].
    apply wp_ret, Hpost; [done|]. cbn. by rewrite lookup_delete_ne, Hheap.
Qed.
End session.
