(* ===== verification/AesGcmTheorems.v ===== *)
(** * AES-128-GCM: the provider computes GCM

    A session under one key: any number of messages, each with its IV and
    additional data and cut into updates, with the routine interrupted any
    number of times, encrypts and authenticates as SP 800-38D says.
    [message_ok] states what the messages and the buffers have to be like; the
    end of the file shows what goes wrong outside of that. *)

From S2P Require Import Prelude XomDomain ModXom CHeap Gctr GctrToy AesCtr AesCtrTheorems GcmContext AesGcm GcmSpec OsslParams CipherParams GcmSession GcmToy.

Section gcm_theorems.
Context {V : Type} `{HeapLaws} `{GcmLaws V} `{OsslLaws}.
Abbreviation E := block_cipher.
Implicit Types (s : gstate V) (ctx : aes_128_gcm_context).

(** ** A session *)

(** How the caller passes additional data: as a parameter before the IV, in an
    update of its own before the data, or, when there is none, not at all. *)
Inductive aad_way := AadParam | AadUpdate | AadNone.

(** [gm_tag] is the tag that decryption is to check. *)
Record gcm_message := GcmMessage {
  gm_iv : list Z; gm_aad : list Z; gm_way : aad_way; gm_calls : list update_call; gm_tag : list Z }.

Definition gm_data (m : gcm_message) : list Z := concat (map u_in (gm_calls m)).

Definition octets (k : pname) (d : list Z) : OSSL_PARAM := Param k PT_OCTET_STRING (Some d) (Z.of_nat (length d)).

Definition set_octets (ctx : aes_128_gcm_context) (k : pname) (d : list Z) : M (gstate V) aes_128_gcm_context :=
  let! '(_, ctx) := aes_128_gcm_set_ctx_params ctx [octets k d] in ret ctx.

(** The update that passes the additional data. *)
Definition gcm_aad_update (fuel : nat) (ctx : aes_128_gcm_context) (aad : list Z) : M (gstate V) aes_128_gcm_context :=
  let! '(_, _, (ctx, _)) := aes_128_gcm_stream_update fuel ctx 0 [] 0 0 aad in ret ctx.

(** One message: the status of the final call, the bytes written, the tag. *)
Definition gcm_process (fuel : nat) (dec : bool) (junk : list Z) (outsize : Z) (ctx : aes_128_gcm_context) (m : gcm_message)
    : M (gstate V) (aes_128_gcm_context * (Z * list Z * list Z)) :=
  let! ctx := match gm_way m with AadParam => set_octets ctx AEAD_TLS1_AAD (gm_aad m) | _ => ret ctx end in
  let! '(_, ctx) := gcm_begin dec ctx (gm_iv m) in
  let! ctx := match gm_way m with AadUpdate => gcm_aad_update fuel ctx (gm_aad m) | _ => ret ctx end in
  let! '(ctx, o) := gcm_updates fuel ctx (gm_calls m) in
  let! ctx := (if dec then set_octets ctx AEAD_TAG (gm_tag m) else ret ctx) in
  let! '(r, outl, (out, ctx)) := aes_128_gcm_stream_final fuel ctx junk outsize in
  ret (ctx, (r, o ++ take (Z.to_nat outl) out, g_tag ctx)).

Fixpoint gcm_messages (fuel : nat) (dec : bool) (junk : list Z) (outsize : Z) (ctx : aes_128_gcm_context) (l : list gcm_message)
    : M (gstate V) (list (Z * list Z * list Z)) :=
  match l with
  | [] => ret []
  | m :: l =>
      let! '(ctx, r) := gcm_process fuel dec junk outsize ctx m in
      let! rs := gcm_messages fuel dec junk outsize ctx l in
      ret (r :: rs)
  end.

Definition gcm_session (fuel : nat) (dec vpclmulqdq : bool) (ptr fresh : Z) (key junk : list Z) (outsize : Z)
    (l : list gcm_message) : M (gstate V) (list (Z * list Z * list Z)) :=
  let! ctx := aes_128_gcm_newctx false vpclmulqdq ptr fresh in
  let! '(_, ctx) := aes_128_gcm_einit ctx (Some key) (Z.of_nat (length key)) None 0 in
  gcm_messages fuel dec junk outsize ctx l.

(** What the standard says. *)
Definition gcm_expected (key : list Z) (dec : bool) (m : gcm_message) : Z * list Z * list Z :=
  let out := gcm_ciphertext E key (gm_iv m) (gm_data m) in
  if dec then
    let tag := gcm_tag E gmul key (gm_iv m) (gm_aad m) (gm_data m) in
    (if bool_decide (tag = gm_tag m) then 1 else 0, out, gm_tag m)
  else (1, out, gcm_tag E gmul key (gm_iv m) (gm_aad m) out).

(** A message the theorems are about.  The IV has 96 bits.  Additional data in
    an update is shorter than a block, and without such an update the first
    update is empty or has at least a block.  An update is in place as
    [in_place] says; where the code works on the buffer itself, only when
    encrypting and without interruptions. *)
Record message_ok (fuel : nat) (dec : bool) (clears : nat) (m : gcm_message) : Prop := {
  mo_iv : length (gm_iv m) = 12%nat;
  mo_aad : match gm_way m with
           | AadParam => first_ok (gm_calls m)
           | AadUpdate => (length (gm_aad m) < 16)%nat
           | AadNone => gm_aad m = [] /\ first_ok (gm_calls m)
           end;
  mo_calls : calls_ok (clears = O /\ dec = false) 0 (gm_calls m);
  mo_fuel : Forall (fuel_for fuel clears) (gm_calls m);
  mo_tag : length (gm_tag m) = 16%nat;
  mo_aad_len : 8 * Z.of_nat (length (gm_aad m)) < 2 ^ 64;
  mo_len : 8 * Z.of_nat (length (gm_data m)) < 2 ^ 64
}.

(** ** Parameters *)

Lemma set_tag_spec ctx tag s : length tag = 16%nat -> length (g_tag ctx) = 16%nat ->
  wp (set_octets ctx AEAD_TAG tag) (fun ctx' s' => ctx' = set_g_tag tag ctx /\ s' = s) s.
Proof.
  intros Ht Hg. unfold set_octets, aes_128_gcm_set_ctx_params, set_ivlen_param, set_tag_param, set_aad_param.
  rewrite !locate_const_one. cbn [p_key octets]. rewrite !decide_False, !decide_True by done.
  apply wp_bind, wp_bind, wp_bind. unfold param_bytes. cbn [p_data octets data_size]. rewrite Ht.
  change (Z.min (Z.of_nat 16) AES_128_GCM_TAG_SIZE) with 16. cbn [Z.ltb Z.of_nat Pos.of_succ_nat Z.compare].
  eapply wp_glift; [done|]. apply wp_ret, wp_bind, wp_ret, wp_ret, wp_ret. split; [|done]. f_equal.
  change (Z.to_nat 16) with 16%nat. rewrite take_ge by lia. unfold splice. rewrite take_0, drop_ge by lia. apply app_nil_r.
Qed.

Lemma set_aad_spec key dec ctx aad s : gready key dec None ctx s ->
  wp (set_octets ctx AEAD_TLS1_AAD aad)
    (fun ctx' s' => gready key dec (Some aad) ctx' s' /\ gs_env s' = gs_env s) s.
Proof.
  intros Hr. unfold set_octets, aes_128_gcm_set_ctx_params, set_ivlen_param, set_tag_param, set_aad_param.
  rewrite !locate_const_one. cbn [p_key octets]. rewrite !decide_False, !decide_True by done.
  apply wp_bind, wp_bind, wp_ret, wp_bind. cbn [p_data octets]. apply wp_bind.
  unfold param_bytes. cbn [p_data octets data_size]. rewrite Z.ltb_irrefl, Nat2Z.id, firstn_all.
  eapply wp_glift; [done|]. apply wp_bind, wp_init_aad; [apply Hr|]. intros p Hp Hfr n. apply wp_ret, wp_ret, wp_ret.
  pose proof (gr_table _ _ _ _ _ Hr) as Ht. split; [|done].
  assert (Hpt : p <> g_Htable ctx) by (intros ->; congruence).
  assert (Hps : p <> g_staging_buffer ctx).
  { intros ->. destruct (gr_code _ _ _ _ _ Hr) as [(_ & Hh & _)|(Hz & _)]; congruence. }
  destruct Hr as [Hcode]. split; try done.
  - destruct Hcode as [(? & ? & ? & ?)|?]; [left|by right]. cbn. rewrite lookup_insert_ne by done. done.
  - cbn. by rewrite lookup_insert_ne.
  - cbn. by rewrite lookup_insert_eq.
Qed.

(** ** The key *)

Lemma gcm_set_key_spec key ctx s : g_staging_buffer ctx = 0 -> g_has_h ctx = false ->
  is_Some (gs_heap s !! g_Htable ctx) -> length key = 16%nat ->
  wp (gcm_set_key ctx key) (fun ctx' s' => exists p, p <> 0 /\ p <> g_Htable ctx /\
    ctx' = set_g_has_h true (set_g_H (hkey key) (set_g_key_initialized true (set_g_staging_buffer p ctx))) /\
    gs_heap s' !! p = Some (setup_128_key (g_has_vaes ctx) (gctr_code (g_has_vaes ctx)) key) /\
    gs_heap s' !! g_Htable ctx = Some (gcm_init (g_has_vpclmulqdq ctx) (bswap_quads (hkey key))) /\
    gs_env s' = gs_env s) s.
Proof.
  intros Hs Hh [old Ht] Hk. unfold gcm_set_key. rewrite Hs. cbn [Z.eqb].
  apply wp_bind, wp_bind, wp_gmalloc. intros p Hpz Hpf. apply wp_ret, wp_bind.
  assert (Hpt : p <> g_Htable ctx) by (intros ->; congruence).
  change (g_staging_buffer (set_g_staging_buffer p ctx)) with p.
  eapply wp_gstore; [apply lookup_insert_eq|]. change (g_has_h _) with (g_has_h ctx). rewrite Hh. apply wp_bind.
  change (g_Htable _) with (g_Htable ctx). change (g_has_vpclmulqdq _) with (g_has_vpclmulqdq ctx).
  cbn [gs_heap gs_refs gs_env].
  eapply wp_gstore; [cbn [gs_heap]; by rewrite !lookup_insert_ne by done|]. apply wp_ret. cbn [gs_heap gs_refs gs_env].
  rewrite take_ge, get_H_spec by lia. exists p. split_and!; try done.
  - by rewrite lookup_insert_ne, lookup_insert_eq.
  - by rewrite lookup_insert_eq.
Qed.

Lemma gcm_key_spec dec vp ptr fresh key s : ptr <> 0 -> fresh <> 0 -> length key = 16%nat -> pool_room (gs_env s) ->
  wp (let! ctx := aes_128_gcm_newctx false vp ptr fresh in
      aes_128_gcm_einit ctx (Some key) (Z.of_nat (length key)) None 0)
    (fun '(_, ctx) s' => gready key dec None ctx s' /\ gs_env s' = gs_env s) s.
Proof.
  intros Hp Hr Hk Hroom. unfold aes_128_gcm_newctx. rewrite !(proj2 (Z.eqb_neq _ _)) by done. cbn [orb].
  apply wp_bind, wp_bind, wp_modify, wp_bind, wp_gmalloc. intros t Ht Htf. apply wp_ret.
  unfold aes_128_gcm_einit. rewrite Hk. cbn [Z.eqb Z.of_nat]. apply wp_bind.
  eapply wp_mono; [apply gcm_set_key_spec; [done|done|eexists; apply lookup_insert_eq|done]|].
  intros ctx s1 (p & Hpz & Hpt & -> & Hcode & Htab & He). apply wp_bind, wp_ret.
  cbn [g_iv_initialized andb negb set_g_has_h set_g_H set_g_key_initialized set_g_staging_buffer]. apply wp_ret.
  split; [|done]. split; try done. left. rewrite He. done.
Qed.

(** ** Messages *)

Lemma fuel_for_mono fuel c c' l : (c' <= c)%nat -> Forall (fuel_for fuel c) l -> Forall (fuel_for fuel c') l.
Proof. intros Hc Hl. eapply Forall_impl; [done|]. intros u. unfold fuel_for. lia. Qed.

Lemma message_ok_mono fuel dec c c' m : (c' <= c)%nat -> message_ok fuel dec c m -> message_ok fuel dec c' m.
Proof.
  intros Hc []. split; try done; [|by eapply fuel_for_mono].
  eapply calls_ok_mono; [|done]. intros [-> ?]. split; [lia|done].
Qed.

(** The additional data, by either way, and the start of the message. *)
Lemma gcm_prologue_spec key dec fuel c ctx m s : gready key dec None ctx s -> message_ok fuel dec c m ->
  wp (let! ctx := match gm_way m with AadParam => set_octets ctx AEAD_TLS1_AAD (gm_aad m) | _ => ret ctx end in
      let! '(_, ctx) := gcm_begin dec ctx (gm_iv m) in
      match gm_way m with AadUpdate => gcm_aad_update fuel ctx (gm_aad m) | _ => ret ctx end)
    (fun ctx' s' => gbase key (gm_iv m) (gm_aad m) dec ctx' s' /\
       (g_first_update ctx' = true \/ first_ok (gm_calls m)) /\
       clears_left (gs_env s') = clears_left (gs_env s)) s.
Proof.
  intros Hr Hm. set (ao := match gm_way m with AadParam => Some (gm_aad m) | _ => None end).
  assert (Hset : wp (match gm_way m with AadParam => set_octets ctx AEAD_TLS1_AAD (gm_aad m) | _ => ret ctx end)
    (fun ctx' s' => gready key dec ao ctx' s' /\ gs_env s' = gs_env s) s).
  { unfold ao. destruct (gm_way m); [by apply set_aad_spec|by apply wp_ret..]. }
  apply wp_bind. eapply wp_mono; [exact Hset|]. intros ctx1 s1 [Hr1 He1].
  apply wp_bind. eapply wp_mono; [apply (gcm_begin_spec key); [done|apply Hm]|].
  intros [r1 ctx2] s2 (-> & Hb & Hf & Ha & _ & Hcl). pose proof (mo_aad _ _ _ _ Hm) as Haad.
  unfold ao in *. destruct (gm_way m); cbn [default] in Hb.
  - apply wp_ret. split_and!; [done|by right|by rewrite Hcl, He1].
  - unfold gcm_aad_update. apply wp_bind. eapply wp_mono;
      [apply (gcm_first_update_spec key (gm_iv m) [] (gm_aad m) dec); [done|done|done|right; split; [done|by apply Ha]]|].
    intros [[r outl] [ctx3 out3]] s3 (_ & _ & _ & Hb3 & Hf3 & _ & He3). apply wp_ret.
    split_and!; [done|by left|by rewrite He3, Hcl, He1].
  - destruct Haad as [Hnil Hfo]. apply wp_ret. rewrite Hnil. split_and!; [done|by right|by rewrite Hcl, He1].
Qed.

Lemma gcm_process_spec key dec fuel junk outsize ctx m s : gready key dec None ctx s ->
  message_ok fuel dec (clears_left (gs_env s)) m -> (clears_left (gs_env s) < fuel)%nat -> (16 <= length junk)%nat -> 16 <= outsize ->
  wp (gcm_process fuel dec junk outsize ctx m) (fun '(ctx', r) s' =>
    gready key dec None ctx' s' /\ r = gcm_expected key dec m /\ (clears_left (gs_env s') <= clears_left (gs_env s))%nat) s.
Proof.
  intros Hr Hm Hf Hj Hos. unfold gcm_process.
  assert (Hpro := gcm_prologue_spec _ _ _ _ _ _ _ Hr Hm).
  destruct Hpro as (ctx0' & s0 & Hrun & Hb0 & Hfu0 & Hcl).
  apply bind_inv in Hrun as (ctx1 & s1 & Hrun1 & Hrun). apply wp_bind. exists ctx1, s1. split; [done|].
  apply bind_inv in Hrun as ([r2 ctx2] & s2 & Hrun2 & Hrun). apply wp_bind. exists (r2, ctx2), s2. split; [done|].
  apply wp_bind. exists ctx0', s0. split; [done|].
  destruct (gcm_updates_first _ _ _ _ fuel _ (gm_calls m) _ Hb0 Hfu0) as (ctx0 & Hb & Hfu & Heq).
  pose proof (gb_ok _ _ _ _ _ _ Hb) as Hc0. apply wp_bind. unfold wp at 1. rewrite Heq.
  eapply wp_mono; [apply (gcm_updates_spec key fuel ctx0 s0 (gm_calls m) Hc0 (gb_vaes _ _ _ _ _ _ Hb) Hfu []);
    [eapply greached_nil; [done|apply Hb]|apply gs_step_refl|rewrite Hcl, (gb_dec _ _ _ _ _ _ Hb); apply Hm|rewrite Hcl; apply Hm]|].
  intros [ctx3 o] s3. cbn zeta. rewrite app_nil_l. fold (gm_data m). change (gwritten key ctx0 []) with (@nil Z).
  rewrite app_nil_l. intros (Hr3 & -> & Hs3).
  set (tag' := if dec then gm_tag m else g_tag ctx0).
  assert (Htl : length tag' = 16%nat) by (unfold tag'; destruct dec; [apply Hm|apply Hb]).
  assert (Htag3 : g_tag ctx3 = g_tag ctx0) by (by destruct Hr3 as [(blk & -> & _) _]).
  assert (Hset : wp (if dec then set_octets ctx3 AEAD_TAG (gm_tag m) else ret ctx3)
    (fun ctx' s' => ctx' = set_g_tag tag' ctx3 /\ s' = s3) s3).
  { unfold tag'. destruct dec; [apply set_tag_spec; [apply Hm|rewrite Htag3; apply Hb]|].
    apply wp_ret. split; [|done]. rewrite <- Htag3. by destruct ctx3. }
  apply wp_bind. eapply wp_mono; [exact Hset|]. intros ctx4 s4 (-> & ->).
  assert (Hb' : gbase key (gm_iv m) (gm_aad m) dec (set_g_tag tag' ctx0) s0) by (destruct Hb as [[]]; done).
  assert (Hr4 : greached key (set_g_tag tag' ctx0) (gm_data m) (set_g_tag tag' ctx3)).
  { destruct Hr3 as [(blk & -> & Hbl) Hpe]. split; [by exists blk|done]. }
  apply wp_bind. eapply wp_mono; [apply (gcm_final_spec key (gm_iv m) (gm_aad m) dec fuel (set_g_tag tag' ctx0) s0 (gm_data m)); try done; try apply Hm|].
  { destruct Hs3 as (_ & _ & _ & ?). lia. }
  intros [[r outl] [out ctx5]] s5 (_ & Hw & Htag & Hr5 & Hcl5). apply wp_ret. split_and!; [done| |destruct Hs3 as (_ & _ & _ & ?); lia].
  change (gwritten key (set_g_tag tag' ctx0) ?d) with (gwritten key ctx0 d) in Hw. rewrite Hw.
  unfold gcm_expected, gcm_ciphertext. change (g_tag (set_g_tag tag' ctx3)) with tag' in Htag.
  unfold tag', gcm_ct in Htag. destruct dec; destruct Htag as [-> ->]; done.
Qed.

Lemma gcm_messages_spec key dec fuel junk outsize l : (16 <= length junk)%nat -> 16 <= outsize ->
  forall ctx s, gready key dec None ctx s -> Forall (message_ok fuel dec (clears_left (gs_env s))) l ->
  (clears_left (gs_env s) < fuel)%nat ->
  wp (gcm_messages fuel dec junk outsize ctx l) (fun rs _ => rs = map (gcm_expected key dec) l) s.
Proof.
  intros Hj Hos. induction l as [|m l IH]; intros ctx s Hr Hl Hf; cbn [gcm_messages]; [by apply wp_ret|].
  apply Forall_cons in Hl as [Hm Hl]. apply wp_bind. eapply wp_mono; [by apply (gcm_process_spec key)|].
  intros [ctx1 r] s1 (Hr1 & -> & Hcl). apply wp_bind. eapply wp_mono; [apply IH; [done| |lia]|].
  - eapply Forall_impl; [done|]. intros m'. by apply message_ok_mono.
  - intros rs s2 ->. by apply wp_ret.
Qed.


(** ** Round trip *)

Lemma gctr_involutive key icb x : gctr E key icb (gctr E key icb x) = x.
Proof.
  unfold gctr. apply list_eq. intros i. rewrite !list_lookup_imap. destruct (x !! i) as [b|] eqn:Hx; [|done]. cbn.
  f_equal. by rewrite Z.lxor_assoc, Z.lxor_nilpotent, Z.lxor_0_r.
Qed.

(** A message that carries the ciphertext and the tag of another. *)
Definition carries (key : list Z) (m m' : gcm_message) : Prop :=
  gm_iv m' = gm_iv m /\ gm_aad m' = gm_aad m /\
  gm_data m' = gcm_ciphertext E key (gm_iv m) (gm_data m) /\
  gm_tag m' = gcm_tag E gmul key (gm_iv m) (gm_aad m) (gm_data m').

(** C24: what was encrypted is decrypted: a session with the AES-NI routine
    that is given the ciphertexts and the tags of messages with 96-bit IVs
    accepts every one of them and writes the plaintexts, with whatever
    interruptions.  The conditions on the updates are those of the session:
    the first one that is not additional data is empty or has at least 16
    bytes, and the buffers are disjoint, or in place and not aligned with no
    byte pending, or in place with no block completed. *)
Theorem gcm_roundtrip fuel vp ptr fresh key junk outsize l l' s :
  ptr <> 0 -> fresh <> 0 -> length key = 16%nat -> pool_room (gs_env s) ->
  (16 <= length junk)%nat -> 16 <= outsize -> (clears_left (gs_env s) < fuel)%nat ->
  Forall (message_ok fuel true (clears_left (gs_env s))) l' -> Forall2 (carries key) l l' ->
  wp (gcm_session fuel true vp ptr fresh key junk outsize l') (fun rs _ =>
    Forall2 (fun m r => r = (1, gm_data m, snd r)) l rs) s.
Proof.
  intros Hp Hr Hk Hroom Hj Hos Hf Hl Hc. unfold gcm_session.
  destruct (gcm_key_spec true vp ptr fresh key s Hp Hr Hk Hroom) as ([r ctx] & s1 & Hrun & Hg & He).
  apply bind_inv in Hrun as (ctx1 & s2 & Hrun1 & Hrun). apply wp_bind. exists ctx1, s2. split; [done|].
  apply wp_bind. exists (r, ctx), s1. split; [done|].
  eapply wp_mono; [apply (gcm_messages_spec key); rewrite ?He; done|]. intros rs _ ->.
  change (map (gcm_expected key true) l') with (gcm_expected key true <$> l').
  apply Forall2_fmap_r. eapply Forall2_impl; [done|]. intros m m' (Hiv & Ha & Hd & Ht).
  cbn. rewrite Ht, Hiv, Ha, bool_decide_true by done. rewrite Hd.
  unfold gcm_ciphertext. by rewrite gctr_involutive.
Qed.

(** ** A message that is shorter than a block *)

(** C38: a message of 1 to 15 bytes without additional data is not encrypted:
    the update takes it for additional data, nothing is written, the final
    call reports success, and the tag is that of an empty message with the
    plaintext as additional data. *)
Theorem gcm_short_message_lost key ctx iv msg fuel junk outsize s :
  gready key false None ctx s -> length iv = 12%nat -> (0 < length msg < 16)%nat ->
  (clears_left (gs_env s) < fuel)%nat -> (16 <= length junk)%nat -> 16 <= outsize ->
  wp (let! '(_, ctx) := gcm_begin false ctx iv in
      let! '(_, outl1, (ctx, _)) := aes_128_gcm_stream_update fuel ctx 0 (repeat 0 32) 32 64 msg in
      let! '(r, outl2, (_, ctx)) := aes_128_gcm_stream_final fuel ctx junk outsize in
      ret (r, outl1 + outl2, g_tag ctx))
    (fun r _ => r = (1, 0, gcm_tag E gmul key iv msg [])) s.
Proof.
  intros Hr Hi Hm Hf Hj Hos. apply wp_bind. eapply wp_mono; [by apply (gcm_begin_spec key)|].
  intros [r ctx1] s1 (_ & Hb & Hfu & Ha & _ & Hcl). apply wp_bind.
  eapply wp_mono; [apply (gcm_first_update_spec key iv [] msg false); [done|done|lia|right; by split; [|apply Ha]]|].
  intros [[r1 outl1] [ctx2 out2]] s2 (-> & -> & _ & Hb2 & _ & _ & He). apply wp_bind.
  pose proof (gb_off _ _ _ _ _ _ Hb2) as Ho.
  assert (Hr2 : greached key ctx2 [] ctx2) by (eapply greached_nil; [apply Hb2|done]).
  eapply wp_mono; [apply (gcm_final_spec key iv msg false fuel ctx2 s2 []); try done; cbn [length]; try lia|].
  { by rewrite He, Hcl. }
  intros [[r3 outl] [out ctx3]] s3 (-> & _ & [-> Ht] & _). apply wp_ret. by rewrite Ht, Ho.
Qed.
End gcm_theorems.

(** ** Misuse that the interface allows *)

Definition gdemo_state (clears : nat) : gstate toy_env := GState ∅ ∅ (ToyEnv ∅ clears).
Definition gdemo_iv : list Z := seqZ 40 12.
Definition gdemo_key2 : list Z := seqZ 99 16.

(** A context with [demo_key], in a message with [gdemo_iv]. *)
Definition gdemo_begin (dec : bool) : M (gstate toy_env) aes_128_gcm_context :=
  let! ctx := aes_128_gcm_newctx false false 64 8192 in
  let! '(_, ctx) := aes_128_gcm_einit ctx (Some demo_key) 16 None 0 in
  let! '(_, ctx) := gcm_begin dec ctx gdemo_iv in ret ctx.

Definition gdemo_final (ctx : aes_128_gcm_context) : M (gstate toy_env) (Z * list Z * aes_128_gcm_context) :=
  let! '(r, outl, (out, ctx)) := aes_128_gcm_stream_final 10 ctx (repeat 0 32) 16 in
  ret (r, take (Z.to_nat outl) out, ctx).

Definition gdemo_msg : list Z := seqZ 7 32.

(** The tag of [gdemo_msg] in a context that is given [gdemo_key2] after a
    first message under [demo_key]. *)
Definition gdemo_rekey : option (list Z) :=
  fst <$> (let! ctx := gdemo_begin false in
           let! '(_, _, (ctx, _)) := aes_128_gcm_stream_update 10 ctx 64 (repeat 0 48) 48 512 gdemo_msg in
           let! '(_, _, ctx) := gdemo_final ctx in
           let! '(_, ctx) := aes_128_gcm_einit ctx (Some gdemo_key2) 16 (Some gdemo_iv) 12 in
           let! '(_, _, (ctx, _)) := aes_128_gcm_stream_update 10 ctx 64 (repeat 0 48) 48 512 gdemo_msg in
           let! '(_, _, ctx) := gdemo_final ctx in
           ret (g_tag ctx)) (gdemo_state 0).

(** Giving a context another key changes the cipher but not the hash key:
    the ciphertext is right and the tag is wrong, because the table made for
    the first key is kept. *)
Theorem gcm_rekey_wrong_tag : exists tag, gdemo_rekey = Some tag /\
  tag <> gcm_tag toy_cipher toy_mul gdemo_key2 gdemo_iv [] (gcm_ciphertext toy_cipher gdemo_key2 gdemo_iv gdemo_msg) /\
  tag = gctr toy_cipher gdemo_key2 (gcm_j0 gdemo_iv)
          (ghash_from toy_mul (toy_cipher demo_key (repeat 0 16)) (repeat 0 16)
             (gcm_ciphertext toy_cipher gdemo_key2 gdemo_iv gdemo_msg ++ gcm_lengths [] gdemo_msg)).
Proof. eexists. split; [vm_compute; reflexivity|]. split; by vm_compute. Qed.

(** Decryption of the encryption of [gdemo_msg], in place or not. *)
Definition gdemo_decrypt (inplace : bool) : option Z :=
  let ct := gcm_ciphertext toy_cipher demo_key gdemo_iv gdemo_msg in
  fst <$> (let! ctx := gdemo_begin true in
           let! '(_, _, (ctx, _)) := aes_128_gcm_stream_update 10 ctx 64 (ct ++ repeat 0 16) 48 (if inplace then 64 else 512) ct in
           let! ctx := set_octets ctx AEAD_TAG (gcm_tag toy_cipher toy_mul demo_key gdemo_iv [] ct) in
           let! '(r, _, _) := gdemo_final ctx in ret r) (gdemo_state 0).

(** Decrypting in place rejects authentic messages: with aligned buffers
    the hash is taken over the input after the routine has overwritten it with
    plaintext. *)
Theorem gcm_in_place_decrypt_rejects : gdemo_decrypt false = Some 1 /\ gdemo_decrypt true = Some 0.
Proof. split; by vm_compute. Qed.

(** A context with additional data is duplicated; both are completed. *)
Definition gdemo_dup : option (Z * aes_128_gcm_context) :=
  fst <$> (let! ctx := gdemo_begin false in
           let! '(_, _, (ctx, _)) := aes_128_gcm_stream_update 10 ctx 64 (repeat 0 32) 32 512 [1; 2; 3] in
           let! ctx2 := aes_128_gcm_dupctx ctx in
           let! '(_, _, ctx) := gdemo_final ctx in
           let! '(r, _, ctx2) := gdemo_final ctx2 in ret (r, ctx2)) (gdemo_state 0).

(** Additional data as a parameter, before or after the IV. *)
Definition gdemo_aad (late : bool) : option (list Z) :=
  fst <$> (let! ctx := aes_128_gcm_newctx false false 64 8192 in
           let! '(_, ctx) := aes_128_gcm_einit ctx (Some demo_key) 16 None 0 in
           let! ctx := (if late then ret ctx else set_octets ctx AEAD_TLS1_AAD (seqZ 0 20)) in
           let! '(_, ctx) := gcm_begin false ctx gdemo_iv in
           let! ctx := (if late then set_octets ctx AEAD_TLS1_AAD (seqZ 0 20) else ret ctx) in
           let! '(_, _, (ctx, _)) := aes_128_gcm_stream_update 10 ctx 64 (repeat 0 48) 48 512 gdemo_msg in
           let! '(_, _, ctx) := gdemo_final ctx in ret (g_tag ctx)) (gdemo_state 0).

(** A duplicate shares the additional data of its original, so completing
    both frees it twice; and additional data that is set after the IV is
    counted in the tag but not hashed, although before the IV it is. *)
Theorem gcm_aad_ownership : gdemo_dup = None /\
  (let tag := gcm_tag toy_cipher toy_mul demo_key gdemo_iv (seqZ 0 20) (gcm_ciphertext toy_cipher demo_key gdemo_iv gdemo_msg) in
   gdemo_aad false = Some tag /\ gdemo_aad true <> Some tag /\ gdemo_aad true <> None).
Proof. split_and!; by vm_compute. Qed.

(** ** Witnesses *)




Lemma gdemo_room : pool_room (gs_env (gdemo_state 3)).
Proof. intros code e' Hl. by vm_compute in Hl. Qed.


(** The message that carries the encryption of [gdemo_msg]. *)
Definition gdemo_plain : gcm_message := GcmMessage gdemo_iv [1; 2; 3] AadUpdate [UpdateCall 64 (repeat 0 64) 512 gdemo_msg] [].
Definition gdemo_sealed : gcm_message :=
  let ct := gcm_ciphertext toy_cipher demo_key gdemo_iv gdemo_msg in
  GcmMessage gdemo_iv [1; 2; 3] AadUpdate
    [UpdateCall 64 (repeat 0 64) 512 (take 5 ct); UpdateCall 64 (repeat 0 64) 512 (drop 5 ct)]
    (gcm_tag toy_cipher toy_mul demo_key gdemo_iv [1; 2; 3] ct).

Lemma gdemo_sealed_ok : Forall (message_ok 6 true 3) [gdemo_sealed].
Proof.
  rewrite Forall_singleton. split; [done|cbn; lia| | |done|by vm_compute|by vm_compute].
  - cbn [gm_calls gdemo_sealed calls_ok u_in]. split_and!; [..|done]; (split; [split; by vm_compute|]); left; left; by vm_compute.
  - unfold gdemo_sealed. cbn [gm_calls]. rewrite !Forall_cons, Forall_nil. unfold fuel_for. split_and!; [..|done]; vm_compute; lia.
Qed.

Lemma gdemo_carries : Forall2 (carries (V := toy_env) demo_key) [gdemo_plain] [gdemo_sealed].
Proof. repeat constructor. Qed.

Lemma gcm_roundtrip_ex : wp (gcm_session 6 true false 64 8192 demo_key (repeat 0 32) 16 [gdemo_sealed])
  (fun rs _ => Forall2 (fun m r => r = (1, gm_data m, snd r)) [gdemo_plain] rs) (gdemo_state 3).
Proof.
  apply (gcm_roundtrip 6 false 64 8192 demo_key (repeat 0 32) 16 [gdemo_plain] [gdemo_sealed] (gdemo_state 3));
    [done|done|done|apply gdemo_room|cbn; lia|lia|cbn; lia|apply gdemo_sealed_ok|apply gdemo_carries].
Defined.

(** The context and the state after the key was set. *)
Definition gdemo_ready : aes_128_gcm_context * gstate toy_env :=
  match (let! ctx := aes_128_gcm_newctx false false 64 8192 in
         aes_128_gcm_einit ctx (Some demo_key) 16 None 0) (gdemo_state 3) with
  | Some ((_, ctx), s) => (ctx, s)
  | None => (GcmCtx [] [] [] [] [] [] [] 0 0 0 0 0 0 0 0 0 0 false false false false false false false, gdemo_state 3)
  end.

Lemma gdemo_ready_ok : gready demo_key false None (fst gdemo_ready) (snd gdemo_ready).
Proof.
  split; try by vm_compute. left. by split_and!; vm_compute.
Qed.

Lemma gcm_short_message_lost_ex : wp (let! '(_, ctx) := gcm_begin false (fst gdemo_ready) gdemo_iv in
      let! '(_, outl1, (ctx, _)) := aes_128_gcm_stream_update 6 ctx 0 (repeat 0 32) 32 64 [5; 6; 7] in
      let! '(r, outl2, (_, ctx)) := aes_128_gcm_stream_final 6 ctx (repeat 0 32) 16 in
      ret (r, outl1 + outl2, g_tag ctx))
    (fun r _ => r = (1, 0, gcm_tag block_cipher gmul demo_key gdemo_iv [5; 6; 7] [])) (snd gdemo_ready).
Proof.
  apply (gcm_short_message_lost demo_key (fst gdemo_ready) gdemo_iv [5; 6; 7] 6 (repeat 0 32) 16 (snd gdemo_ready));
    [apply gdemo_ready_ok|done|cbn; lia|vm_compute; lia|cbn; lia|lia].
Defined.
