(* ===== verification/CipherParamsTheorems.v ===== *)
(** * Parameters of the ciphers: what is advertised is answered

    The getters store the values of the context in the parameters asked for,
    and every parameter of the tables is among them with its type. *)

From S2P Require Import Prelude XomDomain ModXom CHeap Gctr GctrToy AesCtr GcmContext AesGcm GcmSpec OsslParams CipherParams GcmToy.

(** The type of parameter a value can be stored in. *)
Definition fits (t : ptype) (v : pval) : bool :=
  match t, v with
  | PT_UNSIGNED, (VUint _ | VSize _) | PT_INTEGER, VInt _ | PT_OCTET_STRING, VOctets _
  | PT_OCTET_PTR, VOctetPtr _ | PT_UTF8_PTR, VUtf8Ptr _ => true
  | _, _ => false
  end.

(** Every entry of a table is answered with a value of its type. *)
Definition answered (table : list (pname * ptype)) (l : list (pname * list pval)) : Prop :=
  Forall (fun '(k, t) => exists vs, (k, vs) ∈ l /\ existsb (fits t) vs = true) table.

Section params.
Context `{OsslLaws}.

Lemma put_params_app l1 l2 ps : put_params (l1 ++ l2) ps =
  let '(r, ps1) := put_params l1 ps in if r =? 0 then (0, ps1) else put_params l2 ps1.
Proof.
  revert ps. induction l1 as [|[k vs] l1 IH]; intros ps; [done|]. cbn [put_params app].
  destruct (OSSL_PARAM_locate ps k) as [i|]; [|done]. destruct (ps !! i); [|done]. by destruct (try_set _ _).
Qed.

(** All that the context getter of GCM answers. *)
Definition gcm_answers (ctx : aes_128_gcm_context) : list (pname * list pval) :=
  gcm_answers_len ctx ++ gcm_answers_bytes ctx.

Ltac find_answer := eexists; split; [repeat (apply elem_of_cons; first [left; reflexivity|right])|reflexivity].

Lemma gcm_ctx_answered ctx : answered aes_128_gcm_gettable_ctx_params (gcm_answers ctx).
Proof. repeat (apply Forall_cons; split; [find_answer|]). done. Qed.

Lemma ctr_ctx_answered ctx : answered aes_128_ctr_gettable_ctx_params (ctr_ctx_answers ctx).
Proof. repeat (apply Forall_cons; split; [find_answer|]). done. Qed.

(** The context getter of GCM answers what its table advertises: with an
    IV length of at most 16 it is defined for every array; it fails exactly
    when a value does not go into the parameter that asks for it; and
    otherwise the first parameter of each name holds the value of the context
    (key length, IV length, counter, IV, counter block, tag and tag length)
    and no other parameter changes. *)
Theorem gcm_get_ctx_params_correct ctx ps : g_ivlen ctx <= 16 ->
  answered aes_128_gcm_gettable_ctx_params (gcm_answers ctx) /\
  exists r ps', aes_128_gcm_get_ctx_params ctx (Some ps) = Some (r, Some ps') /\ put_post (gcm_answers ctx) ps r ps'.
Proof.
  intros Hiv. split; [apply gcm_ctx_answered|]. destruct (put_params (gcm_answers ctx) ps) as [r ps'] eqn:Hp.
  exists r, ps'. split.
  - unfold gcm_answers in Hp. rewrite put_params_app in Hp. cbn [aes_128_gcm_get_ctx_params].
    destruct (put_params (gcm_answers_len ctx) ps) as [r1 ps1]. destruct (r1 =? 0); [by simplify_eq|].
    rewrite (proj2 (Z.ltb_ge _ _)) by done. cbn [andb]. by rewrite Hp.
  - apply put_params_spec; [|done]. apply (bool_decide_unpack (NoDup [KEYLEN; IVLEN; PADDING; NUM; IV; UPDATED_IV; AEAD_TAGLEN; AEAD_TAG])). done.
Qed.

(** The context getter of counter mode answers what its table advertises,
    as that of GCM does, and without a restriction. *)
Theorem ctr_get_ctx_params_correct ctx ps :
  answered aes_128_ctr_gettable_ctx_params (ctr_ctx_answers ctx) /\
  exists r ps', aes_128_ctr_get_ctx_params ctx (Some ps) = (r, Some ps') /\ put_post (ctr_ctx_answers ctx) ps r ps'.
Proof.
  split; [apply ctr_ctx_answered|]. destruct (put_params (ctr_ctx_answers ctx) ps) as [r ps'] eqn:Hp.
  exists r, ps'. split; [cbn [aes_128_ctr_get_ctx_params]; by rewrite Hp|].
  apply put_params_spec; [|done]. apply (bool_decide_unpack (NoDup [KEYLEN; IVLEN; PADDING; NUM; IV; UPDATED_IV])). done.
Qed.
End params.

Definition pdemo_ctx : aes_128_gcm_context :=
  GcmCtx (seqZ 0 16) [] (seqZ 50 16) (seqZ 20 16) [] [] [] 7 0 0 0 12 0 0 0 0 0 false true true false true false false.
Definition pdemo_params : list OSSL_PARAM :=
  [Param AEAD_TAG PT_OCTET_STRING None 16; Param MODE PT_UNSIGNED None 8; Param IVLEN PT_UNSIGNED None 8].

Lemma gcm_get_ctx_params_correct_ex : g_ivlen pdemo_ctx <= 16 /\
  answered aes_128_gcm_gettable_ctx_params (gcm_answers pdemo_ctx) /\
  exists r ps', aes_128_gcm_get_ctx_params pdemo_ctx (Some pdemo_params) = Some (r, Some ps') /\
    put_post (gcm_answers pdemo_ctx) pdemo_params r ps'.
Proof. split; [by vm_compute|]. apply (gcm_get_ctx_params_correct pdemo_ctx pdemo_params). by vm_compute. Defined.

Lemma ctr_get_ctx_params_correct_ex : let ctx := CtrCtx (seqZ 0 16) (seqZ 20 16) [] 0 0 0 0 0 false in
  answered aes_128_ctr_gettable_ctx_params (ctr_ctx_answers ctx) /\
  exists r ps', aes_128_ctr_get_ctx_params ctx (Some pdemo_params) = (r, Some ps') /\ put_post (ctr_ctx_answers ctx) pdemo_params r ps'.
Proof. intros ctx. apply (ctr_get_ctx_params_correct ctx pdemo_params). Defined.
