(* ===== verification/Hmac.v ===== *)
(** * HMAC-SHA256 of the OpenSSL provider

    [xom_hmac_sha256.c]: contexts with a page of execute-only memory for the
    keyed code, the streaming interface, the padding, and the parameters.  A
    context passes everything on to OpenSSL's own HMAC until a digest was
    chosen. *)

From S2P Require Import Prelude XomDomain ModXom LibXom CHeap Gctr OsslParams.

Definition HMAC_SHA256_BLOCK_SIZE : Z := 64.
Definition HMAC_SHA256_MAC_SIZE : Z := 32.

(** ** Environment

    The code between [hmac256_start] and [hmac256_end], where its entry point
    and the immediates for the key and for the memory encryption are; OpenSSL's
    MAC functions on its own contexts; libxom; the random numbers of the
    processor.  [xom_base] reads the address in a [struct xombuf], [xom_poke]
    is a store through it.  [hmac256] is a call of the routine with what [out]
    held before; the result is what it holds afterwards. *)
Class HmacEnv (V : Type) := {
  hmac256_code : list Z;
  hmac256_entry : Z;
  quad_key : nat -> nat;
  memenc_key_lo : nat;
  memenc_key_hi : nat;
  EVP_MAC_CTX_new : Z -> M V Z;
  EVP_MAC_CTX_free : Z -> M V unit;
  EVP_MAC_CTX_dup : Z -> M V Z;
  EVP_MAC_init : Z -> option (list Z) -> Z -> option (list OSSL_PARAM) -> M V Z;
  EVP_MAC_update : Z -> list Z -> M V Z;
  EVP_MAC_final : Z -> Z -> M V (Z * Z * list Z);
  EVP_MAC_CTX_set_params : Z -> list OSSL_PARAM -> M V Z;
  EVP_MAC_CTX_get_params : Z -> list OSSL_PARAM -> M V (Z * list OSSL_PARAM);
  hx_alloc : Z -> M V Z;
  xom_base : Z -> M V Z;
  hx_write : Z -> list Z -> Z -> M V Z;
  xom_poke : Z -> nat -> list Z -> M V unit;
  hx_lock : Z -> M V Z;
  hx_free : Z -> M V unit;
  hx_mark_register_clear : Z -> Z -> Z -> M V Z;
  get_xom_mode : M V Z;
  rdrand64 : M V (list Z);
  hmac256 : list Z -> Z -> list Z -> bool -> bool -> Z -> M V (list Z)
}.

(** ** The context *)

Record hmac_sha256_ctx := HmacCtx {
  dflt_ctx : Z;
  h_block : Z;                 (* addresses of shared memory *)
  h_hash_state : Z;
  h_refcount : Z;
  h_keylen : Z;
  bytes_compressed : Z;
  h_xbuf : Z;
  hmac_fun : Z;
  h_block_offset : Z;
  use_passthrough : bool;
  h_first_update : bool;
  final_update : bool;
  h_locked : bool;
  marked : bool
}.

Definition set_h_dflt (x : Z) (c : hmac_sha256_ctx) : hmac_sha256_ctx :=
  HmacCtx x (h_block c) (h_hash_state c) (h_refcount c) (h_keylen c) (bytes_compressed c) (h_xbuf c) (hmac_fun c)
    (h_block_offset c) (use_passthrough c) (h_first_update c) (final_update c) (h_locked c) (marked c).
Definition set_h_keylen (x : Z) (c : hmac_sha256_ctx) : hmac_sha256_ctx :=
  HmacCtx (dflt_ctx c) (h_block c) (h_hash_state c) (h_refcount c) x (bytes_compressed c) (h_xbuf c) (hmac_fun c)
    (h_block_offset c) (use_passthrough c) (h_first_update c) (final_update c) (h_locked c) (marked c).
Definition set_h_bytes (x : Z) (c : hmac_sha256_ctx) : hmac_sha256_ctx :=
  HmacCtx (dflt_ctx c) (h_block c) (h_hash_state c) (h_refcount c) (h_keylen c) x (h_xbuf c) (hmac_fun c)
    (h_block_offset c) (use_passthrough c) (h_first_update c) (final_update c) (h_locked c) (marked c).
Definition set_h_offset (x : Z) (c : hmac_sha256_ctx) : hmac_sha256_ctx :=
  HmacCtx (dflt_ctx c) (h_block c) (h_hash_state c) (h_refcount c) (h_keylen c) (bytes_compressed c) (h_xbuf c) (hmac_fun c)
    x (use_passthrough c) (h_first_update c) (final_update c) (h_locked c) (marked c).
Definition set_h_passthrough (x : bool) (c : hmac_sha256_ctx) : hmac_sha256_ctx :=
  HmacCtx (dflt_ctx c) (h_block c) (h_hash_state c) (h_refcount c) (h_keylen c) (bytes_compressed c) (h_xbuf c) (hmac_fun c)
    (h_block_offset c) x (h_first_update c) (final_update c) (h_locked c) (marked c).
Definition set_h_first (x : bool) (c : hmac_sha256_ctx) : hmac_sha256_ctx :=
  HmacCtx (dflt_ctx c) (h_block c) (h_hash_state c) (h_refcount c) (h_keylen c) (bytes_compressed c) (h_xbuf c) (hmac_fun c)
    (h_block_offset c) (use_passthrough c) x (final_update c) (h_locked c) (marked c).
Definition set_h_final (x : bool) (c : hmac_sha256_ctx) : hmac_sha256_ctx :=
  HmacCtx (dflt_ctx c) (h_block c) (h_hash_state c) (h_refcount c) (h_keylen c) (bytes_compressed c) (h_xbuf c) (hmac_fun c)
    (h_block_offset c) (use_passthrough c) (h_first_update c) x (h_locked c) (marked c).
Definition set_h_locked (x : bool) (c : hmac_sha256_ctx) : hmac_sha256_ctx :=
  HmacCtx (dflt_ctx c) (h_block c) (h_hash_state c) (h_refcount c) (h_keylen c) (bytes_compressed c) (h_xbuf c) (hmac_fun c)
    (h_block_offset c) (use_passthrough c) (h_first_update c) (final_update c) x (marked c).
Definition set_h_marked (x : bool) (c : hmac_sha256_ctx) : hmac_sha256_ctx :=
  HmacCtx (dflt_ctx c) (h_block c) (h_hash_state c) (h_refcount c) (h_keylen c) (bytes_compressed c) (h_xbuf c) (hmac_fun c)
    (h_block_offset c) (use_passthrough c) (h_first_update c) (final_update c) (h_locked c) x.

Section hmac.
Context {V : Type} `{HeapEnv} `{HmacEnv V} `{Ossl}.
Abbreviation M := (M (gstate V)).

(** ** The routine *)

(** The routine compresses a block before it looks at the count, so that a
    count of 0 makes it run off the end of the message. *)
Definition call_hmac_implementation (msg : list Z) (block_count : Z) (out_p : Z) (resume_from_out finish : bool) (f : Z)
    : M unit :=
  let n := Z.to_nat (HMAC_SHA256_BLOCK_SIZE * block_count) in
  if (block_count <=? 0) || (Z.of_nat (length msg) <? HMAC_SHA256_BLOCK_SIZE * block_count) then ub
  else
    let! out := gload out_p in
    let! out := gin_env (hmac256 (take n msg) block_count out resume_from_out finish f) in
    gstore out_p out.

(** ** Keys *)

(** [keyptr]: the immediate follows the two bytes of the opcode. *)
Definition keyptr (x : nat) : nat := (x + MOV_OPCODE_SIZE)%nat.

Definition key_buf (key : list Z) (key_len : Z) : list Z :=
  let k := take (Z.to_nat (Z.min 64 key_len)) key in k ++ repeat 0 (64 - length k).

Fixpoint store_quads (x : Z) (n i : nat) (buf : list Z) : Prelude.M V unit :=
  match n with
  | O => ret tt
  | S n => do! xom_poke x (keyptr (quad_key i)) (take 8 (drop (8 * i) buf)) in store_quads x n (S i) buf
  end.

Definition set_hmac_sha256_keys (ctx : hmac_sha256_ctx) (key : option (list Z)) (key_len : Z) : M unit :=
  match key with
  | None => ret tt
  | Some key =>
      if h_locked ctx then ret tt
      else if Z.of_nat (length key) <? Z.min 64 key_len then ub
      else
        do! gin_env (store_quads (h_xbuf ctx) 8 0 (key_buf key key_len)) in
        let! r := gin_env rdrand64 in
        do! gin_env (xom_poke (h_xbuf ctx) (keyptr memenc_key_lo) r) in
        let! r := gin_env rdrand64 in
        gin_env (xom_poke (h_xbuf ctx) (keyptr memenc_key_hi) r)
  end.

(** ** Life cycle *)

(** [ptr] and [fresh] are what [calloc] returns for the context and for its
    counter.  None of the allocations is checked. *)
Definition hmac_new (dflt_hmac ptr fresh : Z) : M hmac_sha256_ctx :=
  if (ptr =? 0) || (fresh =? 0) then ub
  else
    do! set_refcount fresh 1 in
    let! d := gin_env (EVP_MAC_CTX_new dflt_hmac) in
    let! block := gmalloc (heap_junk 256) in
    let! hash_state := gmalloc (heap_junk 96) in
    let! x := gin_env (hx_alloc PAGE_SIZE) in
    if x =? 0 then ub
    else
      let! base := gin_env (xom_base x) in
      let! _ := gin_env (hx_write x hmac256_code 0) in
      ret (HmacCtx d block hash_state fresh 64 0 x (base + hmac256_entry) 0 true false false false false).

Definition hmac_free (ctx : hmac_sha256_ctx) : M unit :=
  let! s := get in
  match gs_refs s !! h_refcount ctx with
  | None => ub
  | Some n =>
      let n := u32 (n - 1) in
      do! (if n =? 0 then
             do! gin_env (hx_free (h_xbuf ctx)) in
             do! modify (fun s => GState (delete (h_refcount ctx) (gs_refs s)) (gs_heap s) (gs_env s)) in
             do! gfree (h_hash_state ctx) in
             gfree (h_block ctx)
           else set_refcount (h_refcount ctx) n) in
      gin_env (EVP_MAC_CTX_free (dflt_ctx ctx))
  end.

(** The original and the duplicate. *)
Definition hmac_dup (ctx : hmac_sha256_ctx) : M (hmac_sha256_ctx * hmac_sha256_ctx) :=
  let! d := gin_env (EVP_MAC_CTX_dup (dflt_ctx ctx)) in
  let! s := get in
  match gs_refs s !! h_refcount ctx with
  | None => ub
  | Some n => do! set_refcount (h_refcount ctx) (u32 (n + 1)) in ret (set_h_dflt d ctx, ctx)
  end.

(** ** Parameters *)

(** [memmem(hay, len, needle, n) != NULL] *)
Fixpoint memmem (hay needle : list Z) : bool :=
  bool_decide (take (length needle) hay = needle) ||
  match hay with [] => false | _ :: hay => memmem hay needle end.

(** "SHA256", and the first 7 bytes of "SHA2-256" *)
Definition SHA256_name : list Z := [83; 72; 65; 50; 53; 54].
Definition SHA2_256_name : list Z := [83; 72; 65; 50; 45; 50; 53].

(** [None] is the failure status 0. *)
Definition set_digest_param (ctx : hmac_sha256_ctx) (ps : list OSSL_PARAM) : M (option hmac_sha256_ctx) :=
  match OSSL_PARAM_locate_const ps MAC_DIGEST with
  | None => ret (Some ctx)
  | Some p =>
      match p_data p with
      | None => ret None
      | Some d =>
          if negb (bool_decide (data_type p = PT_OCTET_STRING) || bool_decide (data_type p = PT_UTF8_STRING)) then ret None
          else if Z.of_nat (length d) <? data_size p then ub
          else
            let name := take (Z.to_nat (data_size p)) d in
            ret (Some (set_h_passthrough (negb (negb (memmem name SHA256_name) || negb (memmem name SHA2_256_name))) ctx))
      end
  end.

Definition set_key_param (ctx : hmac_sha256_ctx) (ps : list OSSL_PARAM) : M (option hmac_sha256_ctx) :=
  match OSSL_PARAM_locate_const ps MAC_KEY with
  | None => ret (Some ctx)
  | Some p =>
      match p_data p with
      | None => ret None
      | Some d =>
          if negb (bool_decide (data_type p = PT_OCTET_STRING)) then ret None
          else
            do! set_hmac_sha256_keys ctx (Some d) (data_size p) in
            ret (Some (set_h_keylen (Z.min 64 (data_size p)) ctx))
      end
  end.

Definition hmac_set_ctx_params (ctx : hmac_sha256_ctx) (ps : list OSSL_PARAM) : M (Z * hmac_sha256_ctx) :=
  let! r := gin_env (EVP_MAC_CTX_set_params (dflt_ctx ctx) ps) in
  if r =? 0 then ret (0, ctx)
  else
    let! o := set_digest_param ctx ps in
    match o with
    | None => ret (0, ctx)
    | Some ctx =>
        let! o := set_key_param ctx ps in
        match o with None => ret (0, ctx) | Some ctx => ret (1, ctx) end
    end.

Definition hmac_get_ctx_params (ctx : hmac_sha256_ctx) (ps : list OSSL_PARAM) : M (Z * list OSSL_PARAM) :=
  if use_passthrough ctx then gin_env (EVP_MAC_CTX_get_params (dflt_ctx ctx) ps)
  else ret (put_params [(MAC_SIZE, [VSize HMAC_SHA256_MAC_SIZE]); (MAC_BLOCK_SIZE, [VSize HMAC_SHA256_BLOCK_SIZE])] ps).

Definition hmac_gettable_ctx_params : list (pname * ptype) := [(MAC_SIZE, PT_UNSIGNED); (MAC_BLOCK_SIZE, PT_UNSIGNED)].

Definition hmac_settable_ctx_params : list (pname * ptype) :=
  [(MAC_DIGEST, PT_UTF8_STRING); (MAC_PROPERTIES, PT_UTF8_STRING); (MAC_KEY, PT_OCTET_STRING);
   (MAC_DIGEST_NOINIT, PT_INTEGER); (MAC_DIGEST_ONESHOT, PT_INTEGER); (MAC_TLS_DATA_SIZE, PT_UNSIGNED)].

(** ** Computing the MAC *)

Definition hmac_init (ctx : hmac_sha256_ctx) (key : option (list Z)) (keylen : Z) (params : option (list OSSL_PARAM))
    : M (Z * hmac_sha256_ctx) :=
  let! ctx := match params with
              | Some ps => let! '(_, ctx) := hmac_set_ctx_params ctx ps in ret ctx
              | None => ret ctx
              end in
  if use_passthrough ctx then
    let! r := gin_env (EVP_MAC_init (dflt_ctx ctx) key keylen params) in ret (r, ctx)
  else
    let! ctx := match key with
                | Some k =>
                    let keylen := if keylen =? 0 then h_keylen ctx else keylen in
                    do! set_hmac_sha256_keys (set_h_keylen (u32 keylen) ctx) (Some k) keylen in
                    ret (set_h_keylen (u32 keylen) ctx)
                | None => ret ctx
                end in
    let! _ := gin_env (hx_lock (h_xbuf ctx)) in
    let ctx := set_h_locked true ctx in
    let! mode := gin_env get_xom_mode in
    if (mode =? XOM_MODE_SLAT) && negb (marked ctx) then
      let! r := gin_env (hx_mark_register_clear (h_xbuf ctx) 0 0) in
      if r =? 0 then ret (1, set_h_marked true ctx) else ret (0, ctx)
    else ret (1, ctx).

(** What was left over and the start of the data make a block. *)
Definition hmac_leftover (ctx : hmac_sha256_ctx) (data : list Z) : M hmac_sha256_ctx :=
  let off := h_block_offset ctx in
  let! block := gload (h_block ctx) in
  let inbuf := take (Z.to_nat off) block ++ take (Z.to_nat (HMAC_SHA256_BLOCK_SIZE - off)) data in
  do! call_hmac_implementation inbuf 1 (h_hash_state ctx) true false (hmac_fun ctx) in
  ret (set_h_bytes (u32 (bytes_compressed ctx + HMAC_SHA256_BLOCK_SIZE)) ctx).

(** [data] that is not aligned is copied first, which changes nothing. *)
Definition hmac_update (ctx : hmac_sha256_ctx) (data : list Z) : M (Z * hmac_sha256_ctx) :=
  let off := h_block_offset ctx in
  if use_passthrough ctx then let! r := gin_env (EVP_MAC_update (dflt_ctx ctx) data) in ret (r, ctx)
  else if Z.of_nat (length data) + off <? HMAC_SHA256_BLOCK_SIZE then
    let! block := gload (h_block ctx) in
    let! block := glift (store_at (Z.to_nat off) data block) in
    do! gstore (h_block ctx) block in
    ret (1, set_h_offset (u8 (off + Z.of_nat (length data))) ctx)
  else
    let! ctx := (if off =? 0 then ret ctx else hmac_leftover ctx data) in
    let data := if off =? 0 then data else drop (Z.to_nat (HMAC_SHA256_BLOCK_SIZE - off)) data in
    let datalen := Z.of_nat (length data) in
    do! call_hmac_implementation data (datalen / HMAC_SHA256_BLOCK_SIZE) (h_hash_state ctx) (h_first_update ctx) false
          (hmac_fun ctx) in
    let full := Z.land datalen (Z.lnot (HMAC_SHA256_BLOCK_SIZE - 1)) in
    let ctx := set_h_bytes (u32 (bytes_compressed ctx + full)) (set_h_first true ctx) in
    let! block := gload (h_block ctx) in
    let! block := glift (store_at 0 (drop (Z.to_nat full) data) block) in
    do! gstore (h_block ctx) block in
    ret (1, set_h_offset (u8 (datalen - full)) ctx).

(** [first_non_data] is an offset in [final_block]. *)
Definition setup_padding (bytes : Z) (first_non_data : Z) (final_block : list Z) : option (bool * list Z) :=
  let L := u64 (Z.shiftl bytes 3 + 0x200) in
  let ext := 48 <? first_non_data in
  let base := (if ext then 64 else 0)%nat in
  let b := splice (base + 56) (be64 L) final_block in
  let i := Z.to_nat first_non_data in
  match b !! i with
  | Some x => if decide (length final_block < base + 64)%nat then None else Some (ext, <[i := Z.lor x 0x80]> b)
  | None => None
  end.

(** Returns the status, [*outl], the bytes written to [out] and the context. *)
Definition hmac_final (ctx : hmac_sha256_ctx) (outsize : Z) : M (Z * Z * (list Z * hmac_sha256_ctx)) :=
  if use_passthrough ctx then
    let! '(r, outl, out) := gin_env (EVP_MAC_final (dflt_ctx ctx) outsize) in ret (r, outl, (out, ctx))
  else
    let! ctx := (if final_update ctx then ret ctx
                 else
                   let off := h_block_offset ctx in
                   let! block := gload (h_block ctx) in
                   let! block := glift (store_at (Z.to_nat off) (repeat 0 (Z.to_nat (2 * HMAC_SHA256_BLOCK_SIZE - off))) block) in
                   let ctx := set_h_bytes (u32 (bytes_compressed ctx + off)) ctx in
                   let! '(ext, block) := glift (setup_padding (bytes_compressed ctx) off block) in
                   do! gstore (h_block ctx) block in
                   do! call_hmac_implementation block (if (ext : bool) then 2 else 1) (h_hash_state ctx) (h_first_update ctx) true
                         (hmac_fun ctx) in
                   ret (set_h_final true ctx)) in
    let! mac := gload (h_hash_state ctx) in
    ret (1, HMAC_SHA256_MAC_SIZE, (take (Z.to_nat (Z.min HMAC_SHA256_MAC_SIZE outsize)) mac, ctx)).
End hmac.
