(* ===== verification/HmacSpec.v ===== *)
(** * HMAC-SHA256: specification and the streaming invariant

    SHA-256 and HMAC (FIPS 180-4, RFC 2104) over an abstract compression
    function, the contracts of the assembly routine, of libxom and of OpenSSL,
    and what initialisation and updates make of a context. *)

From S2P Require Import Prelude XomDomain ModXom LibXom CHeap Gctr OsslParams Hmac.

(** ** The standards *)

Section spec.
Context (compress : list Z -> list Z -> list Z) (iv : list Z) (digest : list Z -> list Z).

(** The padding of a message of [n] bytes *)
Definition sha_pad (n : nat) : list Z := 0x80 :: repeat 0 ((119 - n mod 64) mod 64) ++ be64 (8 * Z.of_nat n).

Definition sha256 (m : list Z) : list Z := digest (foldl compress iv (chunks 64 (m ++ sha_pad (length m)))).

Definition xorpad (x : Z) (k : list Z) : list Z := map (Z.lxor x) k.

(** The key as one block *)
Definition hmac_block_key (key : list Z) : list Z :=
  let k := if decide (length key <= 64)%nat then key else sha256 key in k ++ repeat 0 (64 - length k).

Definition hmac_sha256 (key m : list Z) : list Z :=
  let k := hmac_block_key key in sha256 (xorpad 0x5c k ++ sha256 (xorpad 0x36 k ++ m)).
End spec.

(** ** The code in its page *)

(** The places that are written, the opcodes included, do not overlap. *)
Fixpoint apart (l : list nat) : Prop :=
  match l with
  | [] => True
  | o :: l => Forall (fun o' => (o + 8 <= o')%nat \/ (o' + 8 <= o)%nat) l /\ apart l
  end.

Definition patch (l : list Z) (ps : list (nat * list Z)) : list Z := foldl (fun l p => splice (fst p) (snd p) l) l ps.

Section image.
Context {V : Type} `{HmacEnv V}.

Definition key_slots : list nat := map quad_key (seq 0 8).

(** The page with the code, the key and the two halves of the key of the
    memory encryption *)
Definition hmac_image (page kb r1 r2 : list Z) : list Z :=
  patch (splice 0 hmac256_code page)
    (map (fun i => (keyptr (quad_key i), take 8 (drop (8 * i) kb))) (seq 0 8) ++
     [(keyptr memenc_key_lo, r1); (keyptr memenc_key_hi, r2)]).

(** The key that code has *)
Definition hmac_code_key (code : list Z) : list Z :=
  concat (map (fun o => take 8 (drop (keyptr o) code)) key_slots).
End image.

(** ** What the code relies on *)

Record xbuf_view := XView { xv_base : Z; xv_bytes : list Z; xv_locked : bool }.

(** [hbuf] is the memory of a XOM buffer.  [saved code out] is the hash state
    that is stored in [out], if its authentication tag is right: it is
    encrypted with a key in the code.  The routine faults when it is to resume
    from memory that does not hold a state. *)
Class HmacLaws (V : Type) `{HmacEnv V} := {
  compress : list Z -> list Z -> list Z;
  sha_iv : list Z;
  digest : list Z -> list Z;
  length_digest : forall st, length (digest st) = 32%nat;
  hbuf : V -> Z -> option xbuf_view;
  saved : list Z -> list Z -> option (list Z);
  hmac_layout : apart (key_slots ++ [memenc_key_lo; memenc_key_hi]) /\
    Forall (fun o => (o + 10 <= length hmac256_code)%nat) (key_slots ++ [memenc_key_lo; memenc_key_hi]) /\
    Z.of_nat (length hmac256_code) <= PAGE_SIZE;
  evp_new_spec : forall d e, wp (EVP_MAC_CTX_new d) (fun _ e' => hbuf e' = hbuf e) e;
  evp_set_params_spec : forall d ps e, wp (EVP_MAC_CTX_set_params d ps) (fun _ e' => hbuf e' = hbuf e) e;
  hx_alloc_spec : forall e, wp (hx_alloc PAGE_SIZE) (fun x e' => x <> 0 ->
    exists b page, hbuf e' x = Some (XView b page false) /\ length page = Z.to_nat PAGE_SIZE) e;
  xom_base_spec : forall x v e, hbuf e x = Some v -> wp (xom_base x) (fun b e' => b = xv_base v /\ hbuf e' = hbuf e) e;
  hx_write_spec : forall x b page bytes e, hbuf e x = Some (XView b page false) -> (length bytes <= length page)%nat ->
    wp (hx_write x bytes 0) (fun _ e' => hbuf e' x = Some (XView b (splice 0 bytes page) false)) e;
  xom_poke_spec : forall x b page off bytes e, hbuf e x = Some (XView b page false) -> (off + length bytes <= length page)%nat ->
    wp (xom_poke x off bytes) (fun _ e' => hbuf e' x = Some (XView b (splice off bytes page) false)) e;
  hx_lock_spec : forall x b page l e, hbuf e x = Some (XView b page l) ->
    wp (hx_lock x) (fun _ e' => hbuf e' x = Some (XView b page true)) e;
  get_xom_mode_spec : forall e, wp get_xom_mode (fun _ e' => hbuf e' = hbuf e) e;
  hx_mark_spec : forall x e, wp (hx_mark_register_clear x 0 0) (fun _ e' => hbuf e' = hbuf e) e;
  rdrand64_spec : forall e, wp rdrand64 (fun r e' => length r = 8%nat /\ hbuf e' = hbuf e) e;
  hmac256_spec : forall x b page kb r1 r2 msg n out (resume finish : bool) e,
    let code := hmac_image page kb r1 r2 in let k := hmac_code_key code in
    hbuf e x = Some (XView b code true) -> length page = Z.to_nat PAGE_SIZE -> length kb = 64%nat ->
    length r1 = 8%nat -> length r2 = 8%nat ->
    0 < n -> length msg = Z.to_nat (64 * n) -> length out = 96%nat ->
    match (if resume then saved code out else Some (compress sha_iv (xorpad 0x36 k))) with
    | None => hmac256 msg n out resume finish (b + hmac256_entry) e = None
    | Some st =>
        let st := foldl compress st (chunks 64 msg) in
        wp (hmac256 msg n out resume finish (b + hmac256_entry)) (fun out' e' =>
          length out' = 96%nat /\ hbuf e' = hbuf e /\
          if finish
          then take 32 out' = digest (compress (compress sha_iv (xorpad 0x5c k)) (digest st ++ sha_pad 96))
          else saved code out' = Some st /\ take 32 out' = take 32 out) e
    end
}.

(** ** Lemmas *)

Lemma read_splice_other o o' x (l : list Z) : length x = 8%nat -> (o' + 8 <= length l)%nat ->
  (o + 8 <= o')%nat \/ (o' + 8 <= o)%nat -> take 8 (drop o (splice o' x l)) = take 8 (drop o l).
Proof.
  intros Hx Hl [Ho|Ho].
  - apply take_drop_splice_below; lia.
  - unfold splice. rewrite app_assoc, drop_app_ge by (rewrite length_app, length_take; lia). rewrite drop_drop. do 2 f_equal.
    rewrite length_app, length_take. lia.
Qed.

Lemma patch_length ps : forall l : list Z, Forall (fun p => (fst p + length (snd p) <= length l)%nat) ps ->
  length (patch l ps) = length l.
Proof.
  induction ps as [|[o x] ps IH]; intros l Hp; [done|]. apply Forall_cons in Hp as [Ho Hp]. cbn in Ho.
  change (patch l ((o, x) :: ps)) with (patch (splice o x l) ps).
  pose proof (splice_length o x l Ho) as Hs. by rewrite (IH (splice o x l)); rewrite Hs.
Qed.

Lemma patch_skip o ps : forall l : list Z,
  Forall (fun p => ((o + 8 <= fst p)%nat \/ (fst p + 8 <= o)%nat) /\ length (snd p) = 8%nat /\ (fst p + 8 <= length l)%nat) ps ->
  take 8 (drop o (patch l ps)) = take 8 (drop o l).
Proof.
  induction ps as [|[o' x] ps IH]; intros l Hp; [done|]. apply Forall_cons in Hp as [(Ho & Hx & Hl) Hp]. cbn [fst snd] in *.
  change (patch l ((o', x) :: ps)) with (patch (splice o' x l) ps).
  assert (Hs : length (splice o' x l) = length l) by (apply splice_length; lia).
  rewrite (IH (splice o' x l)); [by apply read_splice_other|by rewrite Hs].
Qed.

(** What is patched in can be read back. *)
Lemma patch_read o x ps : forall l : list Z, apart (map fst ps) ->
  Forall (fun p => length (snd p) = 8%nat /\ (fst p + 8 <= length l)%nat) ps -> (o, x) ∈ ps ->
  take 8 (drop o (patch l ps)) = x.
Proof.
  induction ps as [|[o' x'] ps IH]; intros l Ha Hp Hin; [by apply not_elem_of_nil in Hin|].
  apply Forall_cons in Hp as [(Hx & Hl) Hp]. cbn [fst snd map apart] in *. destruct Ha as [Ha Hap].
  change (patch l ((o', x') :: ps)) with (patch (splice o' x' l) ps).
  assert (Hs : length (splice o' x' l) = length l) by (apply splice_length; lia).
  apply elem_of_cons in Hin as [[= -> ->]|Hin].
  - rewrite (patch_skip o' ps (splice o' x' l)); [by apply take_drop_splice_same; lia|]. rewrite Hs.
    apply Forall_forall. intros [o2 x2] Hin. rewrite Forall_forall in Hp. rewrite Forall_forall in Ha. specialize (Hp _ Hin). cbn in *.
    split; [|done]. apply Ha. apply list_elem_of_In, in_map_iff. exists (o2, x2). split; [done|]. by apply list_elem_of_In.
  - apply (IH (splice o' x' l)); [done|by rewrite Hs|done].
Qed.

Lemma apart_shift k l : apart l -> apart (map (fun o => (o + k)%nat) l).
Proof.
  induction l as [|o l IH]; [done|]. cbn. intros [Ho Ha]. split; [|by apply IH].
  apply Forall_map. eapply Forall_impl; [done|]. cbn. lia.
Qed.

Section image_lemmas.
Context {V : Type} `{HmacLaws V}.

Lemma keyptr_fits o : o ∈ key_slots ++ [memenc_key_lo; memenc_key_hi] ->
  (keyptr o + 8 <= length hmac256_code)%nat /\ (length hmac256_code <= Z.to_nat PAGE_SIZE)%nat.
Proof.
  intros Ho. destruct hmac_layout as (_ & Hf & Hp). rewrite Forall_forall in Hf. specialize (Hf _ Ho).
  unfold keyptr, MOV_OPCODE_SIZE. lia.
Qed.

Lemma concat_quads (kb : list Z) : length kb = 64%nat ->
  concat (map (fun i => take 8 (drop (8 * i) kb)) (seq 0 8)) = kb.
Proof.
  intros Hl. do 65 (destruct kb as [|? kb]; [done || (cbn in Hl; lia)|]). cbn in Hl. lia.
Qed.

Definition image_patches (kb r1 r2 : list Z) : list (nat * list Z) :=
  map (fun i => (keyptr (quad_key i), take 8 (drop (8 * i) kb))) (seq 0 8) ++
  [(keyptr memenc_key_lo, r1); (keyptr memenc_key_hi, r2)].

Lemma image_patches_ok page kb r1 r2 : length page = Z.to_nat PAGE_SIZE -> length kb = 64%nat ->
  length r1 = 8%nat -> length r2 = 8%nat ->
  apart (map fst (image_patches kb r1 r2)) /\
  Forall (fun p => length (snd p) = 8%nat /\ (fst p + 8 <= length (splice 0 hmac256_code page))%nat) (image_patches kb r1 r2).
Proof.
  intros Hp Hk H1 H2. destruct hmac_layout as (Ha & _ & _). split.
  - unfold image_patches. rewrite map_app, map_map. apply (apart_shift MOV_OPCODE_SIZE) in Ha.
    by rewrite map_app in Ha; unfold key_slots in Ha; rewrite map_map in Ha.
  - assert (Hs : length (splice 0 hmac256_code page) = Z.to_nat PAGE_SIZE).
    { rewrite splice_length; [done|]. destruct hmac_layout as (_ & _ & Hl). lia. }
    rewrite Hs. unfold image_patches. apply Forall_app. split.
    + apply Forall_map, Forall_forall. intros i Hi%list_elem_of_In%in_seq. cbn [fst snd].
      destruct (keyptr_fits (quad_key i)) as [Hf Hl]; [|split; [rewrite length_take, length_drop|]; lia].
      apply elem_of_app. left. apply list_elem_of_In, in_map. by apply in_seq.
    + destruct (keyptr_fits memenc_key_lo) as [Hlo Hl]; [apply elem_of_app; right; left|].
      destruct (keyptr_fits memenc_key_hi) as [Hhi _]; [apply elem_of_app; right; right; left|].
      repeat apply Forall_cons_2; cbn [fst snd]; try (split; lia). done.
Qed.

(** The code in the page has the key that was written. *)
Lemma hmac_image_key page kb r1 r2 : length page = Z.to_nat PAGE_SIZE -> length kb = 64%nat ->
  length r1 = 8%nat -> length r2 = 8%nat -> hmac_code_key (hmac_image page kb r1 r2) = kb.
Proof.
  intros Hp Hk H1 H2. destruct (image_patches_ok page kb r1 r2) as [Ha Hf]; try done.
  unfold hmac_code_key, key_slots. rewrite map_map. etransitivity; [|by apply concat_quads]. f_equal.
  apply map_ext_in. intros i Hi. apply (patch_read _ _ (image_patches kb r1 r2)); [done|done|].
  apply elem_of_app. left. apply list_elem_of_In, in_map_iff. by exists i.
Qed.

Lemma hmac_image_length page kb r1 r2 : length page = Z.to_nat PAGE_SIZE -> length kb = 64%nat ->
  length r1 = 8%nat -> length r2 = 8%nat -> length (hmac_image page kb r1 r2) = Z.to_nat PAGE_SIZE.
Proof.
  intros Hp Hk H1 H2. destruct (image_patches_ok page kb r1 r2) as [_ Hf]; try done.
  etransitivity; [apply (patch_length (image_patches kb r1 r2))|].
  - eapply Forall_impl; [done|]. cbn. intros [o x] [-> ?]. done.
  - rewrite splice_length; [done|]. destruct hmac_layout as (_ & _ & Hl). lia.
Qed.
End image_lemmas.

(** ** The streaming invariant *)

Section hmac_proofs.
Context {V : Type} `{HeapLaws} `{HmacLaws V}.
Implicit Types (s : gstate V) (ctx : hmac_sha256_ctx).

(** The state after the inner key *)
Definition inner0 (kb : list Z) : list Z := compress sha_iv (xorpad 0x36 kb).

(** The MAC of a message whose inner hash ends in state [st] *)
Definition outer (kb st : list Z) : list Z :=
  digest (compress (compress sha_iv (xorpad 0x5c kb)) (digest st ++ sha_pad 96)).

Definition absorb (kb data : list Z) : list Z := foldl compress (inner0 kb) (chunks 64 data).

Lemma absorb_app kb x y : (length x mod 64 = 0)%nat -> absorb kb (x ++ y) = foldl compress (absorb kb x) (chunks 64 y).
Proof. intros Hx. unfold absorb. by rewrite chunks_app, foldl_app. Qed.

(** The code of a key *)
Definition is_code (kb code : list Z) : Prop := exists page r1 r2, code = hmac_image page kb r1 r2 /\
  length page = Z.to_nat PAGE_SIZE /\ length kb = 64%nat /\ length r1 = 8%nat /\ length r2 = 8%nat.

(** A context that has its key and took [data] so far. *)
Record hctx (kb code : list Z) ctx s (data : list Z) : Prop := {
  hc_code : is_code kb code;
  hc_buf : hbuf (gs_env s) (h_xbuf ctx) = Some (XView (hmac_fun ctx - hmac256_entry) code true);
  hc_pass : use_passthrough ctx = false;
  hc_final : final_update ctx = false;
  hc_locked : h_locked ctx = true;
  hc_ne : h_block ctx <> h_hash_state ctx;
  hc_off : h_block_offset ctx = Z.of_nat (length data mod 64);
  hc_bytes : bytes_compressed ctx = u32 (Z.of_nat (64 * (length data / 64)));
  hc_block : exists blk, gs_heap s !! h_block ctx = Some blk /\ length blk = 256%nat /\
    take (length data mod 64) blk = drop (64 * (length data / 64)) data;
  hc_state : exists out, gs_heap s !! h_hash_state ctx = Some out /\ length out = 96%nat /\
    if h_first_update ctx then saved code out = Some (absorb kb (take (64 * (length data / 64)) data))
    else (length data < 64)%nat
}.

(** A call of the routine that is defined. *)
Lemma wp_call_hmac (Q : unit -> gstate V -> Prop) kb code ctx msg n (resume finish : bool) out st s :
  is_code kb code -> hbuf (gs_env s) (h_xbuf ctx) = Some (XView (hmac_fun ctx - hmac256_entry) code true) ->
  gs_heap s !! h_hash_state ctx = Some out -> length out = 96%nat -> 0 < n -> (Z.to_nat (64 * n) <= length msg)%nat ->
  (if resume then saved code out = Some st else st = inner0 kb) ->
  let st' := foldl compress st (chunks 64 (take (Z.to_nat (64 * n)) msg)) in
  (forall out' e', length out' = 96%nat -> hbuf e' = hbuf (gs_env s) ->
     (if finish then take 32 out' = outer kb st' else saved code out' = Some st' /\ take 32 out' = take 32 out) ->
     Q tt (GState (gs_refs s) (<[h_hash_state ctx := out']> (gs_heap s)) e')) ->
  wp (call_hmac_implementation msg n (h_hash_state ctx) resume finish (hmac_fun ctx)) Q s.
Proof.
  intros (page & r1 & r2 & -> & Hp & Hk & Hr1 & Hr2) Hb Ho Hl Hn Hm Hst st' HQ.
  unfold call_hmac_implementation, HMAC_SHA256_BLOCK_SIZE.
  rewrite (proj2 (Z.leb_gt _ _)), (proj2 (Z.ltb_ge _ _)) by lia. cbn [orb].
  apply wp_bind. eapply wp_gload; [done|].
  assert (Hml : length (take (Z.to_nat (64 * n)) msg) = Z.to_nat (64 * n)) by (rewrite length_take; lia).
  pose proof (hmac256_spec _ _ page kb r1 r2 _ n out resume finish _ Hb Hp Hk Hr1 Hr2 Hn Hml Hl) as Hspec.
  rewrite hmac_image_key in Hspec by done.
  replace (hmac_fun ctx - hmac256_entry + hmac256_entry) with (hmac_fun ctx) in Hspec by lia.
  assert (Hrun : wp (hmac256 (take (Z.to_nat (64 * n)) msg) n out resume finish (hmac_fun ctx)) (fun out' e' =>
     length out' = 96%nat /\ hbuf e' = hbuf (gs_env s) /\
     if finish then take 32 out' = outer kb st' else saved (hmac_image page kb r1 r2) out' = Some st' /\ take 32 out' = take 32 out) (gs_env s)).
  { destruct resume; [rewrite Hst in Hspec|subst st]; exact Hspec. }
  destruct Hrun as (out' & e' & Hrun & Hl' & He' & Hpost).
  apply wp_bind. exists out', (GState (gs_refs s) (gs_heap s) e'). unfold gin_env. rewrite Hrun. split; [done|].
  eapply wp_gstore; [done|]. cbn. by apply HQ.
Qed.

(** Updates that the code can take: a block that is completed from what was
    left over must not be the first, and must be followed by another. *)
Definition upd_ok (first : bool) (off len : nat) : bool :=
  (off + len <? 64)%nat || (off =? 0)%nat || (first && (128 <=? off + len)%nat).

Lemma div_mod64 n : n = (64 * (n / 64) + n mod 64)%nat /\ (n mod 64 < 64)%nat.
Proof. pose proof (Nat.div_mod_eq n 64). pose proof (Nat.mod_upper_bound n 64). lia. Qed.

(** A short update is kept. *)
Lemma hmac_update_short kb code ctx s data inp : hctx kb code ctx s data -> (length data mod 64 + length inp < 64)%nat ->
  wp (hmac_update ctx inp) (fun '(r, ctx') s' => r = 1 /\ hctx kb code ctx' s' (data ++ inp) /\
    h_first_update ctx' = h_first_update ctx) s.
Proof.
  intros Hc Hl. destruct (hc_block _ _ _ _ _ Hc) as (blk & Hh & Hbl & Hpe). pose proof (hc_off _ _ _ _ _ Hc) as Ho.
  unfold hmac_update. rewrite (hc_pass _ _ _ _ _ Hc), Ho.
  rewrite (proj2 (Z.ltb_lt _ _)) by (unfold HMAC_SHA256_BLOCK_SIZE; lia). rewrite Nat2Z.id.
  apply wp_bind. eapply wp_gload; [done|]. apply wp_bind.
  eapply wp_glift; [unfold store_at; rewrite decide_True by lia; done|]. apply wp_bind. eapply wp_gstore; [done|]. apply wp_ret.
  split_and!; [done| |done].
  destruct (div_mod64 (length data)) as [Hdm Hdr]. set (m := (length data / 64)%nat) in *. set (r := (length data mod 64)%nat) in *.
  assert (Hdiv : (length (data ++ inp) / 64 = m)%nat).
  { rewrite length_app. symmetry. apply (Nat.div_unique _ 64 _ (r + length inp)); lia. }
  assert (Hmod : (length (data ++ inp) mod 64 = r + length inp)%nat).
  { rewrite length_app. symmetry. apply (Nat.mod_unique _ 64 m); lia. }
  destruct Hc as [Hcode Hbuf ??? Hne _ Hby _ (out & Hout & Hol & Hst)]. fold m r in Hby, Hst. clearbody m r.
  split; try done; rewrite ?Hdiv, ?Hmod.
  - cbn. unfold u8. rewrite Z.mod_small; lia.
  - done.
  - exists (splice r inp blk). cbn. rewrite lookup_insert_eq, splice_length by lia. split_and!; [done|done|].
    unfold splice. rewrite app_assoc, take_app_length' by (rewrite length_app, length_take; lia).
    rewrite Hpe, drop_app_le by lia. done.
  - exists out. cbn. rewrite lookup_insert_ne by done. split_and!; [done|done|]. destruct (h_first_update ctx); [|rewrite length_app; lia].
    rewrite take_app_le by lia. done.
Qed.

(** ** Whole blocks *)

(** The second half of an update: [rest] is what follows the [q] blocks that
    are absorbed already, and has a block. *)
Lemma hmac_update_blocks kb code ctx s data rest : let q := (length data / 64)%nat in
  is_code kb code -> hbuf (gs_env s) (h_xbuf ctx) = Some (XView (hmac_fun ctx - hmac256_entry) code true) ->
  use_passthrough ctx = false -> final_update ctx = false -> h_locked ctx = true -> h_block ctx <> h_hash_state ctx ->
  (length data mod 64 = 0)%nat -> bytes_compressed ctx = u32 (Z.of_nat (length data)) ->
  (exists blk, gs_heap s !! h_block ctx = Some blk /\ length blk = 256%nat) ->
  (exists out, gs_heap s !! h_hash_state ctx = Some out /\ length out = 96%nat /\
     if h_first_update ctx then saved code out = Some (absorb kb data) else data = []) ->
  (64 <= length rest)%nat ->
  wp (let datalen := Z.of_nat (length rest) in
      do! call_hmac_implementation rest (datalen / HMAC_SHA256_BLOCK_SIZE) (h_hash_state ctx) (h_first_update ctx) false
            (hmac_fun ctx) in
      let full := Z.land datalen (Z.lnot (HMAC_SHA256_BLOCK_SIZE - 1)) in
      let ctx := set_h_bytes (u32 (bytes_compressed ctx + full)) (set_h_first true ctx) in
      let! block := gload (h_block ctx) in
      let! block := glift (store_at 0 (drop (Z.to_nat full) rest) block) in
      do! gstore (h_block ctx) block in
      ret (1, set_h_offset (u8 (datalen - full)) ctx))
    (fun '(r, ctx') s' => r = 1 /\ hctx kb code ctx' s' (data ++ rest) /\ h_first_update ctx' = true) s.
Proof.
  intros q Hcode Hbuf Hpass Hfin Hlk Hne Hdm Hby (blk & Hblk & Hbl) (out & Hout & Hol & Hst) Hr.
  destruct (div_mod64 (length rest)) as [Hrd Hrm]. set (n := (length rest / 64)%nat) in *. set (r := (length rest mod 64)%nat) in *.
  assert (Hn : Z.of_nat (length rest) / HMAC_SHA256_BLOCK_SIZE = Z.of_nat n).
  { unfold n, HMAC_SHA256_BLOCK_SIZE. by rewrite Nat2Z.inj_div. }
  assert (Hfull : Z.land (Z.of_nat (length rest)) (Z.lnot (HMAC_SHA256_BLOCK_SIZE - 1)) = Z.of_nat (64 * n)).
  { change (HMAC_SHA256_BLOCK_SIZE - 1) with (Z.ones 6). rewrite <- Z.ldiff_land, Z.ldiff_ones_r by lia.
    rewrite Z.shiftl_mul_pow2, Z.shiftr_div_pow2 by lia. change (2 ^ 6) with HMAC_SHA256_BLOCK_SIZE. rewrite Hn.
    unfold HMAC_SHA256_BLOCK_SIZE. lia. }
  cbv zeta. rewrite Hn, Hfull, Nat2Z.id. clearbody n r. apply wp_bind.
  apply (wp_call_hmac _ kb code ctx _ _ _ _ out (absorb kb data)); try done; try lia.
  { destruct (h_first_update ctx); [done|]. by subst data. }
  replace (Z.to_nat (64 * Z.of_nat n)) with (64 * n)%nat by lia. rewrite <- absorb_app by done.
  intros out' e' Hol' He' [Hs' _].
  apply wp_bind. eapply wp_gload; [cbn; by rewrite lookup_insert_ne|].
  apply wp_bind. eapply wp_glift; [unfold store_at; rewrite decide_True; [done|rewrite length_drop; lia]|].
  apply wp_bind. eapply wp_gstore; [cbn; by rewrite lookup_insert_ne|]. apply wp_ret. split_and!; [done| |done].
  set (d := (length data / 64)%nat) in *.
  assert (Hdl : length data = (64 * d)%nat) by (destruct (div_mod64 (length data)); unfold d; lia). clearbody d.
  assert (Hdiv : (length (data ++ rest) / 64 = d + n)%nat).
  { rewrite length_app. symmetry. apply (Nat.div_unique _ 64 _ r); lia. }
  assert (Hmod : (length (data ++ rest) mod 64 = r)%nat).
  { rewrite length_app. symmetry. apply (Nat.mod_unique _ 64 (d + n)); lia. }
  split; try done; rewrite ?Hdiv, ?Hmod.
  - cbn. by rewrite He'.
  - cbn. unfold u8. rewrite Z.mod_small; lia.
  - cbn. rewrite Hby. unfold u32. rewrite Zplus_mod_idemp_l. f_equal. lia.
  - exists (splice 0 (drop (64 * n) rest) blk). cbn. rewrite lookup_insert_eq, splice_length by (rewrite length_drop; lia).
    split_and!; [done|done|]. rewrite take_splice by (rewrite length_drop; lia). rewrite drop_app_ge by lia. f_equal. lia.
  - exists out'. cbn [gs_heap h_hash_state h_block h_first_update set_h_offset set_h_bytes set_h_first].
    rewrite lookup_insert_ne, lookup_insert_eq by done. split_and!; [done|done|].
    rewrite Hs'. do 2 f_equal. rewrite take_app_ge by lia. by replace (64 * (d + n) - length data)%nat with (64 * n)%nat by lia.
Qed.

(** What was left over is completed to a block. *)
Lemma hmac_leftover_spec kb code ctx s data inp : let off := (length data mod 64)%nat in let k := (64 - off)%nat in
  hctx kb code ctx s data -> h_first_update ctx = true -> (off <> 0)%nat -> (k <= length inp)%nat ->
  wp (hmac_leftover ctx inp) (fun ctx' s' =>
    ctx' = set_h_bytes (u32 (Z.of_nat (length (data ++ take k inp)))) ctx /\
    hbuf (gs_env s') = hbuf (gs_env s) /\ gs_heap s' !! h_block ctx = gs_heap s !! h_block ctx /\
    exists out, gs_heap s' !! h_hash_state ctx = Some out /\ length out = 96%nat /\
      saved code out = Some (absorb kb (data ++ take k inp))) s.
Proof.
  intros off k Hc Hf Hoff Hk. destruct (hc_block _ _ _ _ _ Hc) as (blk & Hh & Hbl & Hpe).
  destruct (hc_state _ _ _ _ _ Hc) as (out & Hout & Hol & Hst). rewrite Hf in Hst.
  pose proof (hc_off _ _ _ _ _ Hc) as Ho. pose proof (hc_bytes _ _ _ _ _ Hc) as Hby.
  destruct (div_mod64 (length data)) as [Hdm Hdr]. set (m := (length data / 64)%nat) in *. fold off in Hdm, Hdr, Ho, Hpe.
  assert (Hk' : (off + k = 64)%nat) by lia. clearbody off. unfold hmac_leftover. rewrite Ho, Nat2Z.id.
  replace (Z.to_nat (HMAC_SHA256_BLOCK_SIZE - Z.of_nat off)) with k by (unfold HMAC_SHA256_BLOCK_SIZE; lia). clearbody k.
  apply wp_bind. eapply wp_gload; [done|]. rewrite Hpe. set (x := take (64 * m) data) in *. set (rest := drop (64 * m) data) in *.
  assert (Hdata : data ++ take k inp = x ++ rest ++ take k inp) by (unfold x, rest; by rewrite app_assoc, take_drop).
  assert (Hrl : length rest = off) by (unfold rest; rewrite length_drop; lia).
  assert (Hxl : length x = (64 * m)%nat) by (unfold x; rewrite length_take; lia).
  assert (Hin : length (rest ++ take k inp) = 64%nat) by (rewrite length_app, length_take; lia).
  apply wp_bind. apply (wp_call_hmac _ kb code ctx _ _ _ _ out (absorb kb x)); try done; try lia; try apply Hc.
  change (Z.to_nat (64 * 1)) with 64%nat. rewrite take_ge by lia.
  rewrite <- absorb_app by (rewrite Hxl, Nat.mul_comm; apply Nat.Div0.mod_mul). rewrite <- Hdata.
  intros out' e' Hol' He' [Hs' _]. apply wp_ret. split_and!; [|done| |].
  - f_equal. rewrite Hby, Hdata, length_app, Hin, Hxl. unfold u32. rewrite Zplus_mod_idemp_l. unfold HMAC_SHA256_BLOCK_SIZE. f_equal. lia.
  - cbn. rewrite lookup_insert_ne; [done|]. by apply not_eq_sym, Hc.
  - exists out'. cbn [gs_heap]. by rewrite lookup_insert_eq.
Qed.

Lemma hmac_update_spec kb code ctx s data inp : hctx kb code ctx s data ->
  upd_ok (h_first_update ctx) (length data mod 64) (length inp) = true ->
  wp (hmac_update ctx inp) (fun '(r, ctx') s' => r = 1 /\ hctx kb code ctx' s' (data ++ inp) /\
    h_first_update ctx' = h_first_update ctx || (64 <=? length data mod 64 + length inp)%nat) s.
Proof.
  intros Hc Hok. destruct (decide (length data mod 64 + length inp < 64)%nat) as [Hs|Hs].
  { eapply wp_mono; [by eapply hmac_update_short|]. intros [r ctx'] s' (-> & Hc' & ->).
    rewrite (proj2 (Nat.leb_gt _ _)) by lia. by rewrite orb_false_r. }
  unfold upd_ok in Hok. rewrite (proj2 (Nat.ltb_ge _ _)) in Hok by lia. cbn [orb] in Hok.
  rewrite (proj2 (Nat.leb_le _ _)), orb_true_r by lia.
  unfold hmac_update. pose proof (hc_off _ _ _ _ _ Hc) as Ho. rewrite (hc_pass _ _ _ _ _ Hc), Ho.
  rewrite (proj2 (Z.ltb_ge _ _)) by (unfold HMAC_SHA256_BLOCK_SIZE; lia).
  destruct (div_mod64 (length data)) as [Hdm Hdr]. pose proof Hc as [Hcode Hbuf Hpass Hfin Hlk Hne _ Hby (blk & Hh & Hbl & Hpe) Hst].
  destruct (Nat.eqb_spec (length data mod 64) 0) as [Hz|Hz].
  - rewrite Hz. cbn [Z.of_nat Z.eqb]. apply wp_bind, wp_ret.
    assert (Hall : take (64 * (length data / 64)) data = data) by (apply take_ge; lia).
    apply hmac_update_blocks; try done; try lia.
    + rewrite Hby. do 2 f_equal. lia.
    + eauto.
    + destruct Hst as (out & ? & ? & Hst). exists out. split_and!; [done|done|]. rewrite Hall in Hst.
      destruct (h_first_update ctx); [done|]. apply nil_length_inv. lia.
  - cbn [orb] in Hok. apply andb_true_iff in Hok as [Hf Hlen]. apply Nat.leb_le in Hlen.
    rewrite (proj2 (Z.eqb_neq _ _)) by lia. apply wp_bind.
    eapply wp_mono; [apply (hmac_leftover_spec kb code ctx s data inp); [done|done|done|lia]|].
    intros ctx1 s1 (-> & He & Hb1 & out & Hout & Hol & Hs1).
    replace (Z.to_nat (HMAC_SHA256_BLOCK_SIZE - Z.of_nat (length data mod 64))) with (64 - length data mod 64)%nat
      by (unfold HMAC_SHA256_BLOCK_SIZE; lia).
    set (k := (64 - length data mod 64)%nat) in *.
    assert (Hl1 : (length (data ++ take k inp) = 64 * (length data / 64 + 1))%nat) by (rewrite length_app, length_take; lia).
    eapply wp_mono; [apply (hmac_update_blocks kb code _ s1 (data ++ take k inp) (drop k inp)); try done|].
    + cbn. by rewrite He.
    + rewrite Hl1, Nat.mul_comm. apply Nat.Div0.mod_mul.
    + cbn. rewrite Hb1. eauto.
    + exists out. cbn [h_first_update set_h_bytes h_hash_state]. by rewrite Hf.
    + rewrite length_drop. lia.
    + intros [r ctx'] s'. by rewrite <- app_assoc, take_drop.
Qed.
End hmac_proofs.
