(* ===== verification/HmacToy.v ===== *)
(** * A concrete environment for HMAC

    An instance of the interface, for the witnesses: a compression function
    that mixes bytes, pages at multiples of the page size, and a saved state
    that is marked by a constant tag. *)

From S2P Require Import Prelude XomDomain ModXom LibXom CHeap Gctr OsslParams Hmac HmacSpec.

Record htoy_env := HToy { ht_bufs : gmap Z (list Z * bool) }.

Definition htoy_quad (i : nat) : nat := (10 * i)%nat.
Definition htoy_code : list Z := repeat 0x90 120.
Definition htoy_entry : Z := 3.

Definition htoy_compress (st blk : list Z) : list Z :=
  map (fun i => u8 (3 * nth i st 0 + nth i blk 0 + 5 * nth (i + 32) blk 0 + 7 * nth ((i + 1) mod 32) st 0)) (seq 0 32).
Definition htoy_iv : list Z := seqZ 1 32.
Definition htoy_digest (st : list Z) : list Z := map (fun i => nth i st 0) (seq 0 32).

Definition htoy_key (code : list Z) : list Z :=
  concat (map (fun o => take 8 (drop (keyptr o) code)) (map htoy_quad (seq 0 8))).

Definition htoy_saved (code out : list Z) : option (list Z) :=
  if decide (take 16 (drop 64 out) = repeat 0x5a 16) then Some (take 32 (drop 32 out)) else None.

Definition htoy_call (msg : list Z) (n : Z) (out : list Z) (resume finish : bool) (f : Z) : M htoy_env (list Z) :=
  fun e => match ht_bufs e !! ((f - htoy_entry) / PAGE_SIZE) with
           | Some (code, true) =>
               let k := htoy_key code in
               match (if resume then htoy_saved code out else Some (htoy_compress htoy_iv (xorpad 0x36 k))) with
               | Some st =>
                   let st := foldl htoy_compress st (chunks 64 msg) in
                   Some (if finish
                         then htoy_digest (htoy_compress (htoy_compress htoy_iv (xorpad 0x5c k)) (htoy_digest st ++ sha_pad 96)) ++ drop 32 out
                         else take 32 out ++ st ++ repeat 0x5a 16 ++ drop 80 out, e)
               | None => None
               end
           | _ => None
           end.

Definition htoy_view (e : htoy_env) (x : Z) : option xbuf_view :=
  (fun '(l, b) => XView (PAGE_SIZE * x) l b) <$> ht_bufs e !! x.

Definition htoy_upd (x : Z) (f : list Z * bool -> list Z * bool) : M htoy_env unit :=
  fun e => match ht_bufs e !! x with Some v => Some (tt, HToy (<[x := f v]> (ht_bufs e))) | None => None end.

#[export] Instance htoy : HmacEnv htoy_env := {|
  hmac256_code := htoy_code;
  hmac256_entry := htoy_entry;
  quad_key := htoy_quad;
  memenc_key_lo := 80%nat;
  memenc_key_hi := 90%nat;
  EVP_MAC_CTX_new := fun _ => ret 1;
  EVP_MAC_CTX_free := fun _ => ret tt;
  EVP_MAC_CTX_dup := fun d => ret d;
  EVP_MAC_init := fun _ _ _ _ => ret 1;
  EVP_MAC_update := fun _ _ => ret 1;
  EVP_MAC_final := fun _ _ => ret (1, 0, []);
  EVP_MAC_CTX_set_params := fun _ _ => ret 1;
  EVP_MAC_CTX_get_params := fun _ ps => ret (1, ps);
  hx_alloc := fun n e => let x := fresh ({[0]} ∪ dom (ht_bufs e)) in
                         Some (x, HToy (<[x := (repeat 0xcc (Z.to_nat n), false)]> (ht_bufs e)));
  xom_base := fun x => ret (PAGE_SIZE * x);
  hx_write := fun x bytes off => do! htoy_upd x (fun '(l, b) => (splice (Z.to_nat off) bytes l, b)) in ret 0;
  xom_poke := fun x off bytes => htoy_upd x (fun '(l, b) => (splice off bytes l, b));
  hx_lock := fun x => do! htoy_upd x (fun '(l, b) => (l, true)) in ret 0;
  hx_free := fun x => modify (fun e => HToy (delete x (ht_bufs e)));
  hx_mark_register_clear := fun _ _ _ => ret 0;
  get_xom_mode := ret XOM_MODE_SLAT;
  rdrand64 := ret (repeat 0x77 8);
  hmac256 := htoy_call
|}.

Lemma length_htoy_compress st blk : length (htoy_compress st blk) = 32%nat.
Proof. unfold htoy_compress. by rewrite length_map, length_seq. Qed.

Lemma length_htoy_foldl l : forall st, length st = 32%nat -> length (foldl htoy_compress st l) = 32%nat.
Proof. induction l as [|b l IH]; intros st Hs; [done|]. cbn. apply IH, length_htoy_compress. Qed.

Lemma length_htoy_digest st : length (htoy_digest st) = 32%nat.
Proof. unfold htoy_digest. by rewrite length_map, length_seq. Qed.

Lemma htoy_view_inv e x b l lk : htoy_view e x = Some (XView b l lk) -> ht_bufs e !! x = Some (l, lk) /\ b = PAGE_SIZE * x.
Proof. unfold htoy_view. destruct (ht_bufs e !! x) as [[l' b']|]; intros; by simplify_eq/=. Qed.

Lemma htoy_upd_spec x f b l lk e : htoy_view e x = Some (XView b l lk) ->
  wp (htoy_upd x f) (fun _ e' => htoy_view e' x = Some (XView b (fst (f (l, lk))) (snd (f (l, lk))))) e.
Proof.
  intros [Hx ->]%htoy_view_inv. unfold htoy_upd, wp. rewrite Hx. eexists _, _. split; [done|].
  unfold htoy_view. cbn. rewrite lookup_insert_eq. cbn. by destruct (f (l, lk)).
Qed.

(** ** The contracts *)

Lemma htoy_layout : apart (key_slots ++ [memenc_key_lo; memenc_key_hi]) /\
  Forall (fun o => (o + 10 <= length hmac256_code)%nat) (key_slots ++ [memenc_key_lo; memenc_key_hi]) /\
  Z.of_nat (length hmac256_code) <= PAGE_SIZE.
Proof. split_and!; [cbn; repeat split; repeat constructor; lia|cbn; repeat constructor; lia|by vm_compute]. Qed.

Lemma htoy_alloc e : wp (hx_alloc PAGE_SIZE) (fun x e' => x <> 0 ->
  exists b page, htoy_view e' x = Some (XView b page false) /\ length page = Z.to_nat PAGE_SIZE) e.
Proof.
  eexists _, _. split; [done|]. intros _. set (x := fresh _). exists (PAGE_SIZE * x), (repeat 0xcc (Z.to_nat PAGE_SIZE)).
  unfold htoy_view. cbn [ht_bufs]. rewrite lookup_insert_eq, repeat_length. done.
Qed.

Lemma htoy_base x v e : htoy_view e x = Some v -> wp (xom_base x) (fun b e' => b = xv_base v /\ htoy_view e' = htoy_view e) e.
Proof. destruct v as [b l lk]. intros [_ ->]%htoy_view_inv. by apply wp_ret. Qed.

Lemma htoy_write x b page bytes e : htoy_view e x = Some (XView b page false) -> (length bytes <= length page)%nat ->
  wp (hx_write x bytes 0) (fun _ e' => htoy_view e' x = Some (XView b (splice 0 bytes page) false)) e.
Proof.
  intros Hx _. apply wp_bind. eapply wp_mono; [by eapply htoy_upd_spec|]. intros [] e' He'. by apply wp_ret.
Qed.

Lemma htoy_lock x b page l e : htoy_view e x = Some (XView b page l) ->
  wp (hx_lock x) (fun _ e' => htoy_view e' x = Some (XView b page true)) e.
Proof.
  intros Hx. apply wp_bind. eapply wp_mono; [by eapply htoy_upd_spec|]. intros [] e' He'. by apply wp_ret.
Qed.

Lemma htoy_poke x b page off bytes e : htoy_view e x = Some (XView b page false) -> (off + length bytes <= length page)%nat ->
  wp (xom_poke x off bytes) (fun _ e' => htoy_view e' x = Some (XView b (splice off bytes page) false)) e.
Proof. intros Hx _. by eapply wp_mono; [by eapply htoy_upd_spec|]. Qed.

(** The state that the routine leaves can be read back. *)
Lemma htoy_saved_store code out st : length out = 96%nat -> length st = 32%nat ->
  htoy_saved code (take 32 out ++ st ++ repeat 0x5a 16 ++ drop 80 out) = Some st.
Proof.
  intros Ho Hs. unfold htoy_saved. assert (Ht : length (take 32 out) = 32%nat) by (rewrite length_take; lia).
  rewrite (drop_app_ge (take 32 out)), (drop_app_ge st) by lia. rewrite Ht, Hs. change (64 - 32 - 32)%nat with O. rewrite drop_0.
  rewrite take_app_length' by (by rewrite repeat_length). rewrite decide_True by done.
  rewrite drop_app_length' by done. by rewrite take_app_length' by done.
Qed.

Lemma htoy_hmac256 x b page kb r1 r2 msg n out (resume finish : bool) e :
  let code := hmac_image page kb r1 r2 in let k := hmac_code_key code in
  htoy_view e x = Some (XView b code true) -> length page = Z.to_nat PAGE_SIZE -> length kb = 64%nat ->
  length r1 = 8%nat -> length r2 = 8%nat -> 0 < n -> length msg = Z.to_nat (64 * n) -> length out = 96%nat ->
  match (if resume then htoy_saved code out else Some (htoy_compress htoy_iv (xorpad 0x36 k))) with
  | None => hmac256 msg n out resume finish (b + hmac256_entry) e = None
  | Some st =>
      let st := foldl htoy_compress st (chunks 64 msg) in
      wp (hmac256 msg n out resume finish (b + hmac256_entry)) (fun out' e' =>
        length out' = 96%nat /\ htoy_view e' = htoy_view e /\
        if finish
        then take 32 out' = htoy_digest (htoy_compress (htoy_compress htoy_iv (xorpad 0x5c k)) (htoy_digest st ++ sha_pad 96))
        else htoy_saved code out' = Some st /\ take 32 out' = take 32 out) e
  end.
Proof.
  intros code k [Hx ->]%htoy_view_inv _ _ _ _ _ _ Ho. clearbody code.
  change (hmac256 msg n out resume finish) with (htoy_call msg n out resume finish).
  assert (Hf : (PAGE_SIZE * x + hmac256_entry - htoy_entry) / PAGE_SIZE = x).
  { change hmac256_entry with htoy_entry. rewrite Z.add_simpl_r, Z.mul_comm. by apply Z_div_mult. }
  assert (Hst : forall st, (if resume then htoy_saved code out else Some (htoy_compress htoy_iv (xorpad 0x36 k))) = Some st -> length st = 32%nat).
  { destruct resume; intros st Hs; [|simplify_eq; apply length_htoy_compress].
    unfold htoy_saved in Hs. case_decide; simplify_eq. rewrite length_take, length_drop. lia. }
  change (htoy_key code) with k. destruct (if resume then _ else _) as [st|] eqn:Hcase.
  - specialize (Hst _ eq_refl). eexists _, e. unfold htoy_call. rewrite Hf, Hx. change (htoy_key code) with k. rewrite Hcase.
    split; [done|]. pose proof (length_htoy_foldl (chunks 64 msg) st Hst) as Hl. destruct finish.
    + split_and!; [by rewrite length_app, length_htoy_digest, length_drop, Ho|done|]. rewrite take_app_length'; [done|by rewrite length_htoy_digest].
    + split_and!; [rewrite !length_app, length_take, repeat_length, length_drop, Hl; lia|done|by apply htoy_saved_store|].
      rewrite take_app_length'; [done|]. rewrite length_take. lia.
  - unfold htoy_call. rewrite Hf, Hx. change (htoy_key code) with k. by rewrite Hcase.
Qed.

#[export] Instance htoy_laws : HmacLaws htoy_env := {|
  compress := htoy_compress;
  sha_iv := htoy_iv;
  digest := htoy_digest;
  length_digest := length_htoy_digest;
  hbuf := htoy_view;
  saved := htoy_saved;
  hmac_layout := htoy_layout;
  evp_new_spec := fun d e => wp_ret 1 _ e eq_refl;
  evp_set_params_spec := fun d ps e => wp_ret 1 _ e eq_refl;
  hx_alloc_spec := htoy_alloc;
  xom_base_spec := htoy_base;
  hx_write_spec := htoy_write;
  xom_poke_spec := htoy_poke;
  hx_lock_spec := htoy_lock;
  get_xom_mode_spec := fun e => wp_ret XOM_MODE_SLAT _ e eq_refl;
  hx_mark_spec := fun x e => wp_ret 0 _ e eq_refl;
  rdrand64_spec := fun e => wp_ret (repeat 0x77 8) _ e (conj eq_refl eq_refl);
  hmac256_spec := htoy_hmac256
|}.
