(* ===== verification/HmacTheorems.v ===== *)
(** * HMAC-SHA256: what the provider computes

    For the updates the code can take and for messages whose last block does
    not have 49 to 55 bytes, the result is HMAC-SHA256.  The theorems after
    that say what happens otherwise, and when a context is used again. *)

From S2P Require Import Prelude XomDomain ModXom LibXom CHeap Gctr OsslParams Hmac HmacSpec GcmToy HmacToy.

(** ** Padding *)

Lemma setup_padding_spec bytes off blk : (off < 64)%nat -> length blk = 256%nat ->
  let z := splice off (repeat 0 (128 - off)) blk in let L := u64 (Z.shiftl bytes 3 + 0x200) in
  let ext := bool_decide (48 < off)%nat in let n := (if ext then 128 else 64)%nat in
  exists b, setup_padding bytes (Z.of_nat off) z = Some (ext, b) /\ length b = 256%nat /\
    take n b = take off blk ++ 0x80 :: repeat 0 (n - 9 - off) ++ be64 L.
Proof.
  intros Ho Hl z L ext n. set (p := take off blk). assert (Hp : length p = off) by (unfold p; rewrite length_take; lia).
  assert (Hz : z = p ++ repeat 0 (128 - off) ++ drop 128 blk).
  { unfold z, splice. rewrite repeat_length. do 3 f_equal. lia. }
  assert (Hext : (48 <? Z.of_nat off) = ext) by (unfold ext; case_bool_decide; [apply Z.ltb_lt|apply Z.ltb_ge]; lia).
  assert (Hn : (off + 9 <= n <= 128)%nat) by (unfold n, ext; case_bool_decide; lia).
  assert (Hz1 : repeat 0 (128 - off) = 0 :: repeat 0 (n - 9 - off) ++ repeat 0 (128 - n + 8)).
  { rewrite <- repeat_app. change (0 :: repeat 0 ?k) with (repeat 0 (S k)). f_equal. lia. }
  set (tail := skipn 8 (repeat 0 (128 - n + 8) ++ drop 128 blk)).
  assert (Hb : splice (n - 8) (be64 L) z = p ++ 0 :: repeat 0 (n - 9 - off) ++ be64 L ++ tail).
  { rewrite Hz, Hz1. unfold splice. rewrite length_be64.
    rewrite take_app_ge, drop_app_ge by lia. rewrite <- app_assoc. f_equal. cbn [app].
    replace (n - 8 - length p)%nat with (S (n - 9 - off)) by lia. replace (n - 8 + 8 - length p)%nat with (S (n - 9 - off + 8)) by lia.
    cbn [firstn skipn app]. f_equal. rewrite <- !app_assoc.
    rewrite take_app_length' by (by rewrite repeat_length). do 2 f_equal.
    rewrite drop_app_ge by (rewrite repeat_length; lia). rewrite repeat_length. unfold tail. f_equal. lia. }
  unfold setup_padding. rewrite Hext. replace ((if ext then 64 else 0) + 56)%nat with (n - 8)%nat by (unfold n; destruct ext; lia).
  fold L. rewrite Hb, Nat2Z.id. rewrite lookup_app_r, Hp, Nat.sub_diag by lia. cbn [lookup list_lookup].
  assert (Hzl : length z = 256%nat) by (unfold z; rewrite splice_length; rewrite ?repeat_length; lia).
  rewrite decide_False by (rewrite Hzl; unfold n in *; destruct ext; lia).
  eexists. split; [done|]. rewrite insert_app_r_alt, Hp, Nat.sub_diag by lia. cbn [insert list_insert]. change (Z.lor 0 128) with 0x80.
  assert (Hlen : length (p ++ 0 :: repeat 0 (n - 9 - off) ++ be64 L ++ tail) = 256%nat).
  { rewrite <- Hb, splice_length; rewrite ?length_be64; lia. }
  split; [by rewrite length_app in *; cbn [length] in *|].
  change (p ++ 0x80 :: ?x ++ ?y ++ tail) with (p ++ ([0x80] ++ x) ++ y ++ tail). rewrite !app_assoc.
  rewrite take_app_length'; [by rewrite <- !app_assoc|]. rewrite !length_app, repeat_length, length_be64. cbn [length]. lia.
Qed.

Section hmac_theorems.
Context {V : Type} `{HeapLaws} `{HmacLaws V} `{OsslLaws}.
Implicit Types (s : gstate V) (ctx : hmac_sha256_ctx).

(** HMAC-SHA256 over the compression function of the routine *)
Definition HMAC : list Z -> list Z -> list Z := hmac_sha256 compress sha_iv digest.

Lemma chunks_block (x y : list Z) : length x = 64%nat -> chunks 64 (x ++ y) = x :: chunks 64 y.
Proof.
  intros Hx. rewrite chunks_app by (done || by rewrite Hx). rewrite <- Hx at 1. rewrite chunks_one; [done|].
  by destruct x.
Qed.

Lemma length_xorpad x k : length (xorpad x k) = length k.
Proof. apply length_map. Qed.

Lemma key_buf_block key : (length key <= 64)%nat ->
  key_buf key (Z.of_nat (length key)) = hmac_block_key compress sha_iv digest key /\
  length (key_buf key (Z.of_nat (length key))) = 64%nat.
Proof.
  intros Hk. unfold key_buf, hmac_block_key. rewrite decide_True by done.
  rewrite Z.min_r, Nat2Z.id, firstn_all by lia. split; [done|]. rewrite length_app, repeat_length. lia.
Qed.

(** The standard, in terms of what the routine does. *)
Lemma HMAC_absorb key m : (length key <= 64)%nat -> let kb := key_buf key (Z.of_nat (length key)) in
  HMAC key m = outer kb (absorb kb (m ++ sha_pad (64 + length m))).
Proof.
  intros Hk kb. destruct (key_buf_block key Hk) as [Hb Hl]. fold kb in Hb, Hl.
  unfold HMAC, hmac_sha256. rewrite <- Hb. set (d := sha256 compress sha_iv digest (xorpad 0x36 kb ++ m)).
  assert (Hd : d = digest (absorb kb (m ++ sha_pad (64 + length m)))).
  { unfold d, sha256. rewrite <- app_assoc, chunks_block by (by rewrite length_xorpad). by rewrite length_app, length_xorpad, Hl. }
  rewrite Hd. unfold outer, sha256. set (D := digest (absorb _ _)).
  rewrite length_app, length_xorpad, Hl. replace (length D) with 32%nat by (symmetry; apply length_digest).
  rewrite <- app_assoc, chunks_block by (by rewrite length_xorpad). cbn [foldl].
  rewrite <- (app_nil_r (D ++ _)), chunks_block; [done|]. rewrite length_app. unfold D. by rewrite length_digest.
Qed.

(** ** The final call *)

(** The padding the code makes: a second block from offset 49 on. *)
Definition code_pad (n : nat) : list Z :=
  0x80 :: repeat 0 ((if bool_decide (48 < n mod 64)%nat then 119 else 55) - n mod 64) ++ be64 (8 * Z.of_nat n).

(** It is that of SHA-256 unless the last block has 49 to 55 bytes. *)
Lemma code_pad_ok n : (n mod 64 <= 48 \/ 56 <= n mod 64)%nat -> code_pad n = sha_pad n.
Proof.
  intros Hn. unfold code_pad, sha_pad. do 3 f_equal. destruct (div_mod64 n) as [_ Hr]. case_bool_decide.
  - rewrite (Nat.mod_small (119 - n mod 64)); lia.
  - replace (119 - n mod 64)%nat with (55 - n mod 64 + 1 * 64)%nat by lia.
    rewrite Nat.Div0.mod_add, (Nat.mod_small (55 - n mod 64)); lia.
Qed.

Lemma hmac_final_spec kb code ctx s data outsize : hctx kb code ctx s data -> Z.of_nat (length data) < 2 ^ 32 ->
  wp (hmac_final ctx outsize) (fun '(r, outl, (out, ctx')) s' => r = 1 /\ outl = 32 /\
    out = take (Z.to_nat (Z.min 32 outsize)) (outer kb (absorb kb (data ++ code_pad (64 + length data)))) /\
    use_passthrough ctx' = false /\ final_update ctx' = true /\ h_hash_state ctx' = h_hash_state ctx /\
    exists mac, gs_heap s' !! h_hash_state ctx = Some mac /\ out = take (Z.to_nat (Z.min 32 outsize)) mac) s.
Proof.
  intros Hc Hlen. destruct (hc_block _ _ _ _ _ Hc) as (blk & Hh & Hbl & Hpe).
  destruct (hc_state _ _ _ _ _ Hc) as (out & Hout & Hol & Hst).
  pose proof (hc_off _ _ _ _ _ Hc) as Ho. pose proof (hc_bytes _ _ _ _ _ Hc) as Hby. pose proof (hc_ne _ _ _ _ _ Hc) as Hne.
  destruct (div_mod64 (length data)) as [Hdm Hdr].
  assert (Hpad : code_pad (64 + length data) = 0x80 :: repeat 0 ((if bool_decide (48 < length data mod 64)%nat then 128 else 64) - 9 - length data mod 64)
    ++ be64 (8 * Z.of_nat (64 + length data))).
  { assert (Hm : ((64 + length data) mod 64 = length data mod 64)%nat) by (rewrite Nat.add_comm; apply (Nat.Div0.mod_add _ 1 64)).
    unfold code_pad. rewrite Hm. do 3 f_equal. case_bool_decide; lia. }
  set (m := (length data / 64)%nat) in *. set (r := (length data mod 64)%nat) in *. clearbody m r.
  unfold hmac_final. rewrite (hc_pass _ _ _ _ _ Hc), (hc_final _ _ _ _ _ Hc), Ho, Nat2Z.id.
  replace (Z.to_nat (2 * HMAC_SHA256_BLOCK_SIZE - Z.of_nat r)) with (128 - r)%nat by (unfold HMAC_SHA256_BLOCK_SIZE; lia).
  apply wp_bind, wp_bind. eapply wp_gload; [done|]. apply wp_bind.
  eapply wp_glift; [unfold store_at; rewrite decide_True by (rewrite repeat_length; lia); done|].
  cbn [bytes_compressed set_h_bytes]. rewrite Hby.
  assert (Hu : u32 (u32 (Z.of_nat (64 * m)) + Z.of_nat r) = Z.of_nat (length data)).
  { rewrite !u32_small; rewrite ?u32_small; lia. }
  rewrite Hu. destruct (setup_padding_spec (Z.of_nat (length data)) r blk) as (b & Hb & Hbl' & Htk); [done|done|].
  apply wp_bind. eapply wp_glift; [exact Hb|].
  assert (HL : u64 (Z.shiftl (Z.of_nat (length data)) 3 + 0x200) = 8 * Z.of_nat (64 + length data)).
  { rewrite Z.shiftl_mul_pow2 by lia. unfold u64. rewrite Z.mod_small; lia. }
  rewrite HL, Hpe in Htk. rewrite <- Hpad in Htk. set (ext := bool_decide _) in *.
  apply wp_bind. eapply wp_gstore; [done|]. apply wp_bind.
  set (x := take (64 * m) data) in *. assert (Hxl : length x = (64 * m)%nat) by (unfold x; rewrite length_take; lia).
  apply (wp_call_hmac _ kb code (set_h_bytes (Z.of_nat (length data)) ctx) _ _ _ _ out (absorb kb x)); try apply Hc; try done.
  { cbn. by rewrite lookup_insert_ne. }
  { destruct ext; lia. }
  { rewrite Hbl'. destruct ext; cbn; lia. }
  { cbn [h_first_update set_h_bytes]. destruct (h_first_update ctx); [done|]. unfold x. assert (m = 0)%nat as -> by lia. done. }
  replace (Z.to_nat (64 * (if ext then 2 else 1))) with (if ext then 128 else 64)%nat by (by destruct ext).
  rewrite Htk, <- absorb_app by (rewrite Hxl, Nat.mul_comm; apply Nat.Div0.mod_mul). unfold x.
  rewrite app_assoc, take_drop. intros out' e' Hol' He' Hmac. apply wp_ret, wp_bind.
  eapply wp_gload; [cbn; apply lookup_insert_eq|]. apply wp_ret.
  assert (Hto : take (Z.to_nat (Z.min 32 outsize)) out' = take (Z.to_nat (Z.min 32 outsize)) (take 32 out')).
  { rewrite take_take. f_equal. lia. }
  unfold HMAC_SHA256_MAC_SIZE. split_and!; try done; [by rewrite Hto, Hmac|apply Hc|].
  exists out'. cbn. by rewrite lookup_insert_eq.
Qed.

(** ** A new context *)

Lemma wp_gin {A} (m : M V A) (Q : A -> gstate V -> Prop) s :
  wp m (fun a e => Q a (GState (gs_refs s) (gs_heap s) e)) (gs_env s) -> wp (gin_env m) Q s.
Proof. intros (a & e & Hm & HQ). eexists _, _. unfold gin_env. by rewrite Hm. Qed.

(** There is memory for the page. *)
Definition hx_room : Prop := forall e e', hx_alloc PAGE_SIZE e <> Some (0, e').

(** A context before its key: its page, with [l] in it, can be written. *)
Record hnew (l : list Z) ctx s : Prop := {
  hn_buf : hbuf (gs_env s) (h_xbuf ctx) = Some (XView (hmac_fun ctx - hmac256_entry) l false);
  hn_locked : h_locked ctx = false;
  hn_final : final_update ctx = false;
  hn_first : h_first_update ctx = false;
  hn_off : h_block_offset ctx = 0;
  hn_bytes : bytes_compressed ctx = 0;
  hn_ne : h_block ctx <> h_hash_state ctx;
  hn_block : exists blk, gs_heap s !! h_block ctx = Some blk /\ length blk = 256%nat;
  hn_state : exists out, gs_heap s !! h_hash_state ctx = Some out /\ length out = 96%nat
}.

(** A page with the code *)
Definition code_page (l : list Z) : Prop := exists page, l = splice 0 hmac256_code page /\ length page = Z.to_nat PAGE_SIZE.

Lemma code_fits page : length page = Z.to_nat PAGE_SIZE ->
  (length hmac256_code <= length page)%nat /\ length (splice 0 hmac256_code page) = Z.to_nat PAGE_SIZE.
Proof.
  intros Hp. destruct hmac_layout as (_ & _ & Hl). split; [lia|]. rewrite splice_length; lia.
Qed.

Lemma hmac_new_spec dflt ptr fresh s : hx_room -> ptr <> 0 -> fresh <> 0 ->
  wp (hmac_new dflt ptr fresh) (fun ctx s' => exists l, code_page l /\ hnew l ctx s') s.
Proof.
  intros Hroom Hp Hf. unfold hmac_new. rewrite !(proj2 (Z.eqb_neq _ _)) by done. cbn [orb].
  apply wp_bind, wp_modify, wp_bind, wp_gin. eapply wp_mono; [apply evp_new_spec|]. intros d e1 _.
  apply wp_bind, wp_gmalloc. intros bp Hbp Hbf. apply wp_bind, wp_gmalloc. intros sp Hsp Hsf.
  assert (Hne : bp <> sp) by (intros ->; cbn in Hsf; by rewrite lookup_insert_eq in Hsf).
  apply wp_bind, wp_gin. destruct (hx_alloc_spec e1) as (x & e2 & Hrun & Hx). exists x, e2. split; [done|].
  assert (Hxz : x <> 0) by (intros ->; by apply (Hroom e1 e2)). destruct (Hx Hxz) as (b & page & Hb & Hpl).
  rewrite (proj2 (Z.eqb_neq _ _)) by done. destruct (code_fits page Hpl) as [Hfit _].
  apply wp_bind, wp_gin. eapply wp_mono; [by eapply xom_base_spec|]. cbn [xv_base gs_env]. intros b' e3 (-> & He3).
  apply wp_bind, wp_gin. eapply wp_mono; [apply (hx_write_spec _ b page); [cbn; by rewrite He3|done]|].
  intros r e4 He4. apply wp_ret. exists (splice 0 hmac256_code page). split; [by exists page|].
  split; cbn; try done.
  - rewrite He4. do 2 f_equal. lia.
  - exists (heap_junk 256). by rewrite lookup_insert_ne, lookup_insert_eq, heap_junk_length.
  - exists (heap_junk 96). by rewrite lookup_insert_eq, heap_junk_length.
Qed.

(** ** The key *)

Lemma store_quads_spec x b buf n : forall i l e, hbuf e x = Some (XView b l false) -> length buf = 64%nat -> (i + n <= 8)%nat ->
  length l = Z.to_nat PAGE_SIZE ->
  let ps := map (fun i => (keyptr (quad_key i), take 8 (drop (8 * i) buf))) (seq i n) in
  wp (store_quads x n i buf) (fun _ e' => hbuf e' x = Some (XView b (patch l ps) false) /\ length (patch l ps) = Z.to_nat PAGE_SIZE) e.
Proof.
  induction n as [|n IH]; intros i l e Hx Hb Hi Hl ps; cbn [store_quads]; [by apply wp_ret|].
  set (q := take 8 (drop (8 * i) buf)). assert (Hq : length q = 8%nat) by (unfold q; rewrite length_take, length_drop; lia).
  destruct (keyptr_fits (quad_key i)) as [Hfit Hc].
  { apply elem_of_app. left. apply list_elem_of_In, in_map, in_seq. lia. }
  assert (Hs : length (splice (keyptr (quad_key i)) q l) = Z.to_nat PAGE_SIZE) by (rewrite splice_length; lia).
  apply wp_bind. eapply wp_mono; [apply (xom_poke_spec _ b l); [done|lia]|]. intros [] e1 He1.
  by apply (IH (S i) (splice (keyptr (quad_key i)) q l)); try lia.
Qed.

Lemma set_keys_spec ctx key s page : hnew (splice 0 hmac256_code page) ctx s -> length page = Z.to_nat PAGE_SIZE ->
  (length key <= 64)%nat -> let kb := key_buf key (Z.of_nat (length key)) in
  wp (set_hmac_sha256_keys ctx (Some key) (Z.of_nat (length key))) (fun _ s' => exists code,
    is_code kb code /\ hnew code ctx s') s.
Proof.
  intros Hn Hp Hk kb. destruct (key_buf_block key Hk) as [_ Hkl]. fold kb in Hkl.
  destruct (code_fits page Hp) as [_ Hl]. unfold set_hmac_sha256_keys. rewrite (hn_locked _ _ _ Hn).
  rewrite (proj2 (Z.ltb_ge _ _)) by lia. fold kb.
  apply wp_bind, wp_gin. eapply wp_mono; [apply (store_quads_spec _ _ kb 8 0 _ _ (hn_buf _ _ _ Hn)); done || lia|].
  cbv zeta. set (ps := map _ (seq 0 8)). intros [] e1 [He1 Hl1].
  destruct (keyptr_fits memenc_key_lo) as [Hlo Hc]; [apply elem_of_app; right; left|].
  destruct (keyptr_fits memenc_key_hi) as [Hhi _]; [apply elem_of_app; right; right; left|].
  apply wp_bind, wp_gin. eapply wp_mono; [apply rdrand64_spec|]. cbn [gs_env]. intros r1 e2 [Hr1 He2].
  apply wp_bind, wp_gin. eapply wp_mono; [apply (xom_poke_spec _ (hmac_fun ctx - hmac256_entry) (patch (splice 0 hmac256_code page) ps)); [cbn; by rewrite He2|lia]|].
  intros [] e3 He3. apply wp_bind, wp_gin. eapply wp_mono; [apply rdrand64_spec|]. cbn [gs_env]. intros r2 e4 [Hr2 He4].
  assert (Hl3 : length (splice (keyptr memenc_key_lo) r1 (patch (splice 0 hmac256_code page) ps)) = Z.to_nat PAGE_SIZE) by (rewrite splice_length; lia).
  set (l3 := splice _ r1 _) in *. apply wp_gin.
  eapply wp_mono; [apply (xom_poke_spec _ (hmac_fun ctx - hmac256_entry) l3); [cbn [gs_env]; by rewrite He4|lia]|].
  cbn [gs_refs gs_heap]. intros [] e5 He5. exists (hmac_image page kb r1 r2). split; [by exists page, r1, r2|].
  by destruct Hn.
Qed.

(** ** Initialisation *)

(** libxom can mark the pages of the code. *)
Definition can_mark : Prop := forall x e r e', hx_mark_register_clear x 0 0 e = Some (r, e') -> r = 0.

(** [hmac_init] with a key that fits a block. *)
Lemma hmac_init_spec ctx key s l : hnew l ctx s -> code_page l -> use_passthrough ctx = false -> (0 < length key <= 64)%nat ->
  let kb := key_buf key (Z.of_nat (length key)) in
  wp (hmac_init ctx (Some key) (Z.of_nat (length key)) None) (fun '(r, ctx') s' => exists code,
    hctx kb code ctx' s' [] /\ h_first_update ctx' = false /\ (can_mark -> r = 1)) s.
Proof.
  intros Hn (page & -> & Hp) Hpass Hk kb. unfold hmac_init. apply wp_bind, wp_ret. rewrite Hpass.
  rewrite (proj2 (Z.eqb_neq _ _)) by lia. set (ctx1 := set_h_keylen _ ctx).
  assert (Hn1 : hnew (splice 0 hmac256_code page) ctx1 s) by (by destruct Hn).
  assert (Hpass1 : use_passthrough ctx1 = false) by done. clearbody ctx1.
  apply wp_bind, wp_bind. eapply wp_mono; [apply (set_keys_spec ctx1 key s page); [done|done|lia]|]. fold kb.
  intros [] s1 (code & Hcode & Hn2). apply wp_ret. apply wp_bind, wp_gin.
  eapply wp_mono; [apply (hx_lock_spec _ (hmac_fun ctx1 - hmac256_entry) code false), Hn2|]. intros r1 e2 He2.
  set (ctx2 := set_h_locked true ctx1).
  assert (Hready : forall mk e, hbuf e (h_xbuf ctx1) = hbuf e2 (h_xbuf ctx1) ->
    hctx kb code (if mk : bool then set_h_marked true ctx2 else ctx2) (GState (gs_refs s1) (gs_heap s1) e) []).
  { intros mk e He. rewrite He2 in He. destruct Hn2 as [_ _ ? Hf ?? ? (blk & ? & ?) (out & ? & ?)].
    split; destruct mk; cbn; try done; try (by exists blk); exists out; split_and!; try done; rewrite Hf; lia. }
  apply wp_bind, wp_gin. eapply wp_mono; [apply get_xom_mode_spec|]. cbn [gs_env gs_refs gs_heap]. intros mode e3 He3.
  pose proof (hn_first _ _ _ Hn2) as Hfirst. destruct (_ && _).
  - apply wp_bind, wp_gin. eapply wp_mono; [apply wp_keep, hx_mark_spec|]. cbn [gs_env gs_refs gs_heap]. intros r e4 [Hrun He4].
    destruct (Z.eqb_spec r 0) as [->|Hr]; apply wp_ret; exists code; (split_and!; [|done|]).
    + apply (Hready true). by rewrite He4, He3.
    + done.
    + apply (Hready false). by rewrite He4, He3.
    + intros Hmark. destruct Hr. by eapply Hmark.
  - apply wp_ret. exists code. split_and!; [|done|done]. apply (Hready false). by rewrite He3.
Qed.

(** ** The digest *)

Definition digest_param (name : list Z) : OSSL_PARAM := Param MAC_DIGEST PT_UTF8_STRING (Some name) (Z.of_nat (length name)).

(** OpenSSL accepts the digest. *)
Definition digest_known (name : list Z) : Prop :=
  forall d e e', EVP_MAC_CTX_set_params d [digest_param name] e <> Some (0, e').

Lemma locate_digest name k : OSSL_PARAM_locate_const [digest_param name] k =
  if decide (k = MAC_DIGEST) then Some (digest_param name) else None.
Proof.
  rewrite locate_const_one. destruct (decide (k = MAC_DIGEST)) as [->|Hk]; [by rewrite decide_True|].
  rewrite decide_False; [done|]. by apply not_eq_sym.
Qed.

Lemma set_digest_spec l ctx name s : hnew l ctx s -> digest_known name ->
  wp (hmac_set_ctx_params ctx [digest_param name]) (fun '(r, ctx') s' => hnew l ctx' s' /\
    r = 1 /\ use_passthrough ctx' = memmem name SHA256_name && memmem name SHA2_256_name) s.
Proof.
  intros Hn Hd. unfold hmac_set_ctx_params. apply wp_bind, wp_gin. eapply wp_mono; [apply wp_keep, evp_set_params_spec|].
  intros r e [Hrun He]. assert (Hn' : hnew l ctx (GState (gs_refs s) (gs_heap s) e)) by (destruct Hn; split; try done; cbn; by rewrite He).
  rewrite (proj2 (Z.eqb_neq r 0)) by (intros ->; by eapply Hd).
  unfold set_digest_param, set_key_param. rewrite !locate_digest, decide_True, decide_False by done.
  cbn [p_data digest_param data_type data_size]. rewrite Z.ltb_irrefl, Nat2Z.id, firstn_all.
  apply wp_bind, wp_ret, wp_bind, wp_ret, wp_ret. split; [by destruct Hn'|]. split; [done|].
  cbn. by destruct (memmem name SHA256_name), (memmem name SHA2_256_name).
Qed.

(** ** A whole message *)

Fixpoint hmac_updates (ctx : hmac_sha256_ctx) (l : list (list Z)) : M (gstate V) (option hmac_sha256_ctx) :=
  match l with
  | [] => ret (Some ctx)
  | x :: l => let! '(r, ctx) := hmac_update ctx x in if r =? 0 then ret None else hmac_updates ctx l
  end.

(** Updates that the code can take, one after the other. *)
Fixpoint upds_ok (first : bool) (n : nat) (l : list (list Z)) : bool :=
  match l with
  | [] => true
  | x :: l => upd_ok first (n mod 64) (length x) && upds_ok (first || (64 <=? n mod 64 + length x)%nat) (n + length x) l
  end.

Lemma hmac_updates_spec kb code l : forall ctx s data, hctx kb code ctx s data ->
  upds_ok (h_first_update ctx) (length data) l = true ->
  wp (hmac_updates ctx l) (fun o s' => exists ctx', o = Some ctx' /\ hctx kb code ctx' s' (data ++ concat l)) s.
Proof.
  induction l as [|x l IH]; intros ctx s data Hc Hok; cbn [hmac_updates concat]; [apply wp_ret; exists ctx; by rewrite app_nil_r|].
  apply andb_true_iff in Hok as [Hx Hl]. apply wp_bind. eapply wp_mono; [by eapply hmac_update_spec|].
  intros [r ctx'] s' (-> & Hc' & Hf). cbn [Z.eqb]. rewrite app_assoc. apply IH; [done|]. by rewrite Hf, length_app.
Qed.

(** Context, digest, key, updates, and what the final call returns; [None] if
    a call before it reports a failure. *)
Definition hmac_mac (dflt ptr fresh : Z) (name key : list Z) (l : list (list Z)) (outsize : Z)
    : M (gstate V) (option (Z * Z * list Z)) :=
  let! ctx := hmac_new dflt ptr fresh in
  let! '(r, ctx) := hmac_set_ctx_params ctx [digest_param name] in
  if r =? 0 then ret None
  else
    let! '(r, ctx) := hmac_init ctx (Some key) (Z.of_nat (length key)) None in
    if r =? 0 then ret None
    else
      let! o := hmac_updates ctx l in
      match o with
      | None => ret None
      | Some ctx => let! '(r, outl, (out, _)) := hmac_final ctx outsize in ret (Some (r, outl, out))
      end.

(** C14: HMAC-SHA256 is correct for a key of 1 to 64 bytes, for updates in
    which no block is completed from what was left over before the first full
    block or without another full block after it, and for messages whose last
    block does not have 49 to 55 bytes, when OpenSSL accepts the digest and the
    pages of the code can be marked.  The digest that was asked for does not
    matter, unless its name contains both [SHA256] and [SHA2-25]. *)
Theorem hmac_mac_correct dflt ptr fresh name key l outsize s : hx_room -> ptr <> 0 -> fresh <> 0 ->
  digest_known name -> can_mark -> memmem name SHA256_name && memmem name SHA2_256_name = false -> (0 < length key <= 64)%nat ->
  upds_ok false 0 l = true -> let m := concat l in Z.of_nat (length m) < 2 ^ 32 ->
  (length m mod 64 <= 48 \/ 56 <= length m mod 64)%nat ->
  wp (hmac_mac dflt ptr fresh name key l outsize) (fun r _ =>
    r = Some (1, 32, take (Z.to_nat (Z.min 32 outsize)) (HMAC key m))) s.
Proof.
  intros Hroom Hp Hf Hd Hmark Hname Hk Hl m Hm Hend. unfold hmac_mac.
  apply wp_bind. eapply wp_mono; [by apply hmac_new_spec|]. intros ctx s1 (pg & Hpg & Hn).
  apply wp_bind. eapply wp_mono; [by apply set_digest_spec|]. intros [r ctx1] s2 (Hn1 & -> & Hpass).
  cbn [Z.eqb]. rewrite Hname in Hpass. apply wp_bind. eapply wp_mono; [by eapply hmac_init_spec|].
  intros [r ctx2] s3 (code & Hc & Hfirst & Hr). rewrite (Hr Hmark). cbn [Z.eqb].
  apply wp_bind. eapply wp_mono; [eapply hmac_updates_spec; [done|by rewrite Hfirst]|]. cbn [app]. fold m. intros _ s4 (ctx3 & -> & Hc4).
  apply wp_bind. eapply wp_mono; [by eapply hmac_final_spec|]. intros [[r3 outl] [out ctx4]] s5 (-> & -> & -> & _).
  apply wp_ret. rewrite HMAC_absorb by lia. rewrite code_pad_ok; [done|].
  rewrite Nat.add_comm. change (length m + 64)%nat with (length m + 1 * 64)%nat. by rewrite Nat.Div0.mod_add.
Qed.

(** ** Updates that fail *)

(** Resuming from memory that holds no state is a fault. *)
Lemma call_hmac_faults kb code ctx msg out s : is_code kb code ->
  hbuf (gs_env s) (h_xbuf ctx) = Some (XView (hmac_fun ctx - hmac256_entry) code true) ->
  gs_heap s !! h_hash_state ctx = Some out -> length out = 96%nat -> length msg = 64%nat -> saved code out = None ->
  call_hmac_implementation msg 1 (h_hash_state ctx) true false (hmac_fun ctx) s = None.
Proof.
  intros (page & r1 & r2 & -> & Hp & Hk & Hr1 & Hr2) Hb Ho Hl Hm Hs. unfold call_hmac_implementation.
  rewrite Hm. cbn [Z.leb Z.of_nat orb]. change (_ || _) with false. cbv iota. change (Z.to_nat (HMAC_SHA256_BLOCK_SIZE * 1)) with 64%nat.
  rewrite take_ge by lia. unfold bind, gload. rewrite Ho. unfold gin_env.
  pose proof (hmac256_spec _ _ page kb r1 r2 msg 1 out true false _ Hb Hp Hk Hr1 Hr2 ltac:(lia) Hm Hl) as Hspec.
  rewrite Hs in Hspec. replace (hmac_fun ctx - hmac256_entry + hmac256_entry) with (hmac_fun ctx) in Hspec by lia.
  by rewrite Hspec.
Qed.

Lemma hmac_leftover_faults kb code ctx s data inp : hctx kb code ctx s data -> h_first_update ctx = false ->
  (forall out, gs_heap s !! h_hash_state ctx = Some out -> saved code out = None) ->
  (64 <= length data mod 64 + length inp)%nat -> hmac_leftover ctx inp s = None.
Proof.
  intros Hc Hf Hs Hlen. destruct (hc_block _ _ _ _ _ Hc) as (blk & Hh & Hbl & Hpe).
  destruct (hc_state _ _ _ _ _ Hc) as (out & Hout & Hol & _). destruct (div_mod64 (length data)) as [_ Hr].
  unfold hmac_leftover. unfold bind at 1, gload. rewrite Hh, (hc_off _ _ _ _ _ Hc), Nat2Z.id. unfold bind at 1.
  erewrite call_hmac_faults; try done; try apply Hc; [|by apply Hs].
  rewrite length_app, !length_take. unfold HMAC_SHA256_BLOCK_SIZE. lia.
Qed.

(** An update is defined exactly when the code can take it.  If it
    completes a block from what was left over and no full block was seen
    before, the routine resumes from memory that was never written and faults;
    if less than another block follows, the routine is called for no block at
    all and runs off the end of the data. *)
Theorem hmac_update_defined_iff kb code ctx s data inp : hctx kb code ctx s data ->
  (h_first_update ctx = false -> forall out, gs_heap s !! h_hash_state ctx = Some out -> saved code out = None) ->
  is_Some (hmac_update ctx inp s) <-> upd_ok (h_first_update ctx) (length data mod 64) (length inp) = true.
Proof.
  intros Hc Hs. split.
  2:{ intros Hok. destruct (hmac_update_spec _ _ _ _ _ _ Hc Hok) as (r & s' & -> & _). by eexists. }
  intros [res Hres]. destruct (upd_ok _ _ _) eqn:Hok; [done|]. exfalso. unfold upd_ok in Hok.
  apply orb_false_iff in Hok as [[Hl Hz]%orb_false_iff Hfl]. apply Nat.ltb_ge in Hl. apply Nat.eqb_neq in Hz.
  unfold hmac_update in Hres. rewrite (hc_pass _ _ _ _ _ Hc), (hc_off _ _ _ _ _ Hc) in Hres.
  rewrite (proj2 (Z.ltb_ge _ _)), (proj2 (Z.eqb_neq _ _)) in Hres by (unfold HMAC_SHA256_BLOCK_SIZE; lia).
  destruct (div_mod64 (length data)) as [_ Hr]. destruct (h_first_update ctx) eqn:Hf.
  - cbn [andb] in Hfl. apply Nat.leb_gt in Hfl.
    destruct (hmac_leftover_spec kb code ctx s data inp) as (ctx1 & s1 & Hrun & _); [done|done|done|lia|].
    rewrite (bind_Some _ _ _ _ _ Hrun) in Hres.
    assert (Hn : Z.of_nat (length (drop (Z.to_nat (HMAC_SHA256_BLOCK_SIZE - Z.of_nat (length data mod 64))) inp)) / HMAC_SHA256_BLOCK_SIZE = 0).
    { rewrite length_drop. unfold HMAC_SHA256_BLOCK_SIZE. apply Z.div_small. lia. }
    rewrite Hn in Hres. done.
  - unfold bind at 1 in Hres. by rewrite (hmac_leftover_faults kb code ctx s data inp) in Hres by (done || by apply Hs).
Qed.

(** ** Using a context again *)

(** [hmac_init] on a context that is locked: only the mark can change. *)
Lemma hmac_reinit_spec ctx key s b code : use_passthrough ctx = false -> h_locked ctx = true ->
  hbuf (gs_env s) (h_xbuf ctx) = Some (XView b code true) ->
  wp (hmac_init ctx (Some key) (Z.of_nat (length key)) None) (fun '(_, ctx') s' =>
    (exists n mk, ctx' = set_h_marked mk (set_h_keylen n ctx)) /\ gs_heap s' = gs_heap s /\
    hbuf (gs_env s') (h_xbuf ctx) = Some (XView b code true)) s.
Proof.
  intros Hp Hl Hb. unfold hmac_init. apply wp_bind, wp_ret. rewrite Hp.
  apply wp_bind, wp_bind. unfold set_hmac_sha256_keys. cbn [h_locked set_h_keylen]. rewrite Hl.
  set (n := u32 _). apply wp_ret, wp_ret, wp_bind, wp_gin. eapply wp_mono; [eapply hx_lock_spec; exact Hb|]. intros r1 e1 He1.
  assert (Hctx : set_h_locked true (set_h_keylen n ctx) = set_h_marked (marked ctx) (set_h_keylen n ctx)).
  { destruct ctx; cbn in *; by subst. }
  apply wp_bind, wp_gin. eapply wp_mono; [apply get_xom_mode_spec|]. cbn [gs_env gs_refs gs_heap]. intros mode e2 He2.
  destruct (_ && _).
  - apply wp_bind, wp_gin. eapply wp_mono; [apply hx_mark_spec|]. cbn [gs_env gs_refs gs_heap]. intros r e3 He3.
    destruct (r =? 0); apply wp_ret; cbn [gs_env gs_heap]; rewrite Hctx, He3, He2; (split_and!; [|done|done]).
    + by exists n, true.
    + by exists n, (marked ctx).
  - apply wp_ret. cbn [gs_env gs_heap]. rewrite Hctx, He2. split_and!; [|done|done]. by exists n, (marked ctx).
Qed.

(** A second initialisation cannot change the key: on a context that was
    initialised it leaves the code, and so the key, as it is, whatever key it
    is given, and an update and a final call after it continue the message
    that was begun under the first key. *)
Theorem hmac_rekey_ignored kb code ctx s data key : hctx kb code ctx s data ->
  wp (hmac_init ctx (Some key) (Z.of_nat (length key)) None) (fun '(_, ctx') s' =>
    hctx kb code ctx' s' data /\ hmac_code_key code = kb) s.
Proof.
  intros Hc. eapply wp_mono; [eapply hmac_reinit_spec; apply Hc|].
  intros [r ctx'] s' ((n & mk & ->) & Hh & Hb). split.
  - destruct Hc. split; cbn; rewrite ?Hh; done.
  - destruct (hc_code _ _ _ _ _ Hc) as (pg & r1 & r2 & -> & ? & ? & ? & ?). by apply hmac_image_key.
Qed.

(** A context gives its first MAC for ever: after the final call, it can
    be initialised again with another key, a second message of less than a
    block is accepted, and the next final call reports success and returns the
    MAC of the first message. *)
Theorem hmac_reuse_returns_first_mac ctx s b code blk mac key msg outsize :
  use_passthrough ctx = false -> final_update ctx = true -> h_locked ctx = true ->
  hbuf (gs_env s) (h_xbuf ctx) = Some (XView b code true) -> h_block ctx <> h_hash_state ctx ->
  gs_heap s !! h_block ctx = Some blk -> length blk = 256%nat -> gs_heap s !! h_hash_state ctx = Some mac ->
  0 <= h_block_offset ctx -> Z.of_nat (length msg) + h_block_offset ctx < 64 ->
  wp (let! '(_, ctx) := hmac_init ctx (Some key) (Z.of_nat (length key)) None in
      let! '(_, ctx) := hmac_update ctx msg in hmac_final ctx outsize) (fun '(r, outl, (out, _)) _ =>
    r = 1 /\ outl = 32 /\ out = take (Z.to_nat (Z.min 32 outsize)) mac) s.
Proof.
  intros Hp Hf Hl Hbuf Hne Hb Hbl Hm Ho Hlen. apply wp_bind. eapply wp_mono; [by eapply hmac_reinit_spec|].
  intros [r ctx'] s' ((n & mk & ->) & Hh & _). rewrite <- Hh in Hb, Hm. apply wp_bind. unfold hmac_update.
  cbn [use_passthrough set_h_marked set_h_keylen h_block_offset h_block]. rewrite Hp.
  rewrite (proj2 (Z.ltb_lt _ _)) by done. apply wp_bind. eapply wp_gload; [done|]. apply wp_bind.
  eapply wp_glift; [unfold store_at; rewrite decide_True by lia; done|]. apply wp_bind. eapply wp_gstore; [done|]. apply wp_ret.
  unfold hmac_final. cbn [use_passthrough final_update set_h_offset set_h_marked set_h_keylen]. rewrite Hp, Hf. apply wp_bind, wp_ret, wp_bind.
  eapply wp_gload; [cbn; by rewrite lookup_insert_ne|]. by apply wp_ret.
Qed.
End hmac_theorems.

(** ** The wrong padding *)

Definition hdemo_state : gstate htoy_env := GState ∅ ∅ (HToy ∅).
Definition hdemo_key : list Z := seqZ 1 20.
Definition SHA512_name : list Z := [83; 72; 65; 53; 49; 50].

Definition hdemo_run (name : list Z) (l : list (list Z)) : option (option (list Z)) :=
  match hmac_mac 0 64 8192 name hdemo_key l 32 hdemo_state with Some (o, _) => Some (snd <$> o) | None => None end.

(** For a message whose last block has 49 to 55 bytes the MAC is wrong:
    the length goes into a second block although it fits into the first.  The
    messages of 48 and of 56 bytes are fine. *)
Theorem hmac_padding_wrong :
  hdemo_run SHA256_name [seqZ 0 48] = Some (Some (HMAC hdemo_key (seqZ 0 48))) /\
  hdemo_run SHA256_name [seqZ 0 56] = Some (Some (HMAC hdemo_key (seqZ 0 56))) /\
  Forall (fun n => exists mac, hdemo_run SHA256_name [seqZ 0 n] = Some (Some mac) /\ mac <> HMAC hdemo_key (seqZ 0 n)) (seqZ 49 7).
Proof.
  split_and!; [by vm_compute..|]. change (seqZ 49 7) with [49; 50; 51; 52; 53; 54; 55].
  repeat (apply Forall_cons; split; [eexists; split; [vm_compute; reflexivity|by vm_compute]|]). done.
Qed.

(** ** Witnesses *)

Definition hdemo_calls : list (list Z) := [seqZ 0 70; seqZ 3 10; seqZ 9 200].

Lemma hdemo_room : hx_room (V := htoy_env).
Proof.
  intros e e'. cbn. intros [= Hx _]. pose proof (is_fresh ({[0]} ∪ dom (ht_bufs e) : gset Z)) as Hf.
  rewrite Hx in Hf. set_solver.
Qed.

Lemma hmac_mac_correct_ex : wp (hmac_mac 0 64 8192 SHA512_name hdemo_key hdemo_calls 32)
  (fun r _ => r = Some (1, 32, take (Z.to_nat (Z.min 32 32)) (HMAC (V := htoy_env) hdemo_key (concat hdemo_calls)))) hdemo_state.
Proof.
  apply (hmac_mac_correct 0 64 8192 SHA512_name hdemo_key hdemo_calls 32 hdemo_state);
    [apply hdemo_room|done|done|by intros ???|intros ???? [=]; done|done|vm_compute; lia|done|by vm_compute|left; vm_compute; lia].
Defined.

(** A context that was initialised. *)
Definition hdemo_ready : option (hmac_sha256_ctx * gstate htoy_env) :=
  (let! ctx := hmac_new 0 64 8192 in
   let! '(_, ctx) := hmac_set_ctx_params ctx [digest_param SHA256_name] in
   let! '(_, ctx) := hmac_init ctx (Some hdemo_key) 20 None in ret ctx) hdemo_state.

Definition hdemo_ctx : hmac_sha256_ctx :=
  Eval vm_compute in match hdemo_ready with Some (ctx, _) => ctx | None => HmacCtx 0 0 0 0 0 0 0 0 0 false false false false false end.
Definition hdemo_s : gstate htoy_env := match hdemo_ready with Some (_, s) => s | None => hdemo_state end.

Definition hdemo_kb : list Z := key_buf hdemo_key 20.
Definition hdemo_code : list Z := hmac_image (repeat 0xcc (Z.to_nat PAGE_SIZE)) hdemo_kb (repeat 0x77 8) (repeat 0x77 8).

Lemma hdemo_ok : hctx hdemo_kb hdemo_code hdemo_ctx hdemo_s [].
Proof.
  split; try by vm_compute.
  - exists (repeat 0xcc (Z.to_nat PAGE_SIZE)), (repeat 0x77 8), (repeat 0x77 8). by split_and!.
  - exists (repeat 0xaa 256). split_and!; by vm_compute.
  - exists (repeat 0xaa 96). split_and!; try by vm_compute. cbn. lia.
Qed.

Lemma hdemo_junk out : gs_heap hdemo_s !! h_hash_state hdemo_ctx = Some out -> saved hdemo_code out = None.
Proof.
  assert (Hh : gs_heap hdemo_s !! h_hash_state hdemo_ctx = Some (repeat 0xaa 96)) by (by vm_compute).
  intros Heq. assert (out = repeat 0xaa 96) as -> by congruence. by vm_compute.
Qed.

Lemma hmac_update_defined_iff_ex : is_Some (hmac_update hdemo_ctx (seqZ 0 10) hdemo_s) <->
  upd_ok (h_first_update hdemo_ctx) (length (@nil Z) mod 64) (length (seqZ 0 10)) = true.
Proof.
  apply (hmac_update_defined_iff hdemo_kb hdemo_code hdemo_ctx hdemo_s [] (seqZ 0 10)); [apply hdemo_ok|].
  intros _. apply hdemo_junk.
Defined.

Lemma hmac_rekey_ignored_ex : wp (hmac_init hdemo_ctx (Some (seqZ 50 12)) (Z.of_nat (length (seqZ 50 12))) None)
  (fun '(_, ctx') s' => hctx hdemo_kb hdemo_code ctx' s' [] /\ hmac_code_key hdemo_code = hdemo_kb) hdemo_s.
Proof. apply (hmac_rekey_ignored hdemo_kb hdemo_code hdemo_ctx hdemo_s [] (seqZ 50 12)), hdemo_ok. Defined.

(** A context that has given its MAC. *)
Definition hdemo_done : option (hmac_sha256_ctx * gstate htoy_env) :=
  (let! '(_, ctx) := hmac_update hdemo_ctx (seqZ 0 40) in
   let! '(_, _, (_, ctx)) := hmac_final ctx 32 in ret ctx) hdemo_s.
Definition hdemo_ctx2 : hmac_sha256_ctx :=
  Eval vm_compute in match hdemo_done with Some (ctx, _) => ctx | None => hdemo_ctx end.
Definition hdemo_s2 : gstate htoy_env := match hdemo_done with Some (_, s) => s | None => hdemo_s end.
Definition hdemo_blk : list Z := default [] (gs_heap hdemo_s2 !! h_block hdemo_ctx2).
Definition hdemo_mac : list Z := default [] (gs_heap hdemo_s2 !! h_hash_state hdemo_ctx2).

Lemma hmac_reuse_returns_first_mac_ex :
  wp (let! '(_, ctx) := hmac_init hdemo_ctx2 (Some (seqZ 50 12)) (Z.of_nat (length (seqZ 50 12))) None in
      let! '(_, ctx) := hmac_update ctx (seqZ 7 20) in hmac_final ctx 32)
    (fun '(r, outl, (out, _)) _ => r = 1 /\ outl = 32 /\ out = take (Z.to_nat (Z.min 32 32)) hdemo_mac) hdemo_s2.
Proof.
  apply (hmac_reuse_returns_first_mac hdemo_ctx2 hdemo_s2 (hmac_fun hdemo_ctx2 - hmac256_entry) hdemo_code hdemo_blk hdemo_mac
    (seqZ 50 12) (seqZ 7 20) 32); by vm_compute.
Defined.
