(* ===== verification/Provider.v ===== *)
(** * Entry points of the OpenSSL provider

    [xom_provider.c]: initialisation, which copies the tables of the default
    provider and puts the own implementations in their place, the queries, and
    the teardown. *)

From stdpp Require Import strings.
From S2P Require Import Prelude LibXom OsslParams.

(** The operations that are exported, in the order of [opcodes] *)
Inductive opname :=
  OP_DIGEST | OP_CIPHER | OP_MAC | OP_KDF | OP_RAND | OP_KEYMGMT | OP_KEYEXCH | OP_SIGNATURE | OP_ASYM_CIPHER | OP_KEM |
  OP_ENCODER | OP_DECODER | OP_STORE.

#[export] Instance opname_eq_dec : EqDecision opname.
Proof. solve_decision. Defined.

Definition opcodes : list opname :=
  [OP_DIGEST; OP_CIPHER; OP_MAC; OP_KDF; OP_RAND; OP_KEYMGMT; OP_KEYEXCH; OP_SIGNATURE; OP_ASYM_CIPHER; OP_KEM;
   OP_ENCODER; OP_DECODER; OP_STORE].

(** Whose dispatch table an entry has. *)
Inductive implementation := ImplOther (id : Z) | ImplCtr | ImplGcm | ImplHmac.

(** [algorithm_names] is [None] in the entry that ends a table. *)
Record OSSL_ALGORITHM := Algorithm {
  algorithm_names : option string; property_definition : string; implement : implementation; description : string }.

(** A table is static, or was allocated. *)
Record table := Table { t_static : bool; t_entries : list OSSL_ALGORITHM }.

(** ** Environment

    The numbers of the operations; the default provider and OpenSSL's memory
    of it; [strings] of openssl/opensslv.h; the processor. *)
Class ProviderEnv (V : Type) := {
  op_code : opname -> Z;
  OSSL_OP__HIGHEST : Z;
  OPENSSL_VERSION_STR : string;
  OPENSSL_FULL_VERSION_STR : string;
  OSSL_PROVIDER_load : M V Z;
  OSSL_PROVIDER_unload : Z -> M V unit;
  EVP_MAC_fetch : M V Z;
  EVP_MAC_free : Z -> M V unit;
  OSSL_PROVIDER_query_operation : Z -> Z -> M V (option (list OSSL_ALGORITHM));
  OSSL_PROVIDER_get_capabilities : Z -> string -> M V Z;
  EVP_set_default_properties : string -> M V unit;
  cpuid_7 : M V (Z * Z);                     (* ebx and ecx of leaf 7 *)
  p_get_xom_mode : M V Z;                    (* libxom's get_xom_mode *)
  printf : string -> M V unit;
  destroy_pool : M V unit
}.

Record xom_provctx := ProvCtx {
  dflt_provider : Z; dflt_hmac : Z; pv_has_vaes : bool; pv_has_vpclmulqdq : bool; pv_has_sha : bool }.

(** The global variables of the file. *)
Record pstate (V : Type) := PState {
  default_algorithms : list (option table); xom_provider_debug_prints : bool; xom_hmac_disabled : bool; p_env : V }.
Arguments PState {V}.
Arguments default_algorithms {V}.
Arguments xom_provider_debug_prints {V}.
Arguments xom_hmac_disabled {V}.
Arguments p_env {V}.

Section provider.
Context {V : Type} `{ProviderEnv V} `{Ossl}.
Abbreviation M := (M (pstate V)).

Definition pin_env {A} (m : Prelude.M V A) : M A :=
  fun s => match m (p_env s) with
           | Some (a, e) => Some (a, PState (default_algorithms s) (xom_provider_debug_prints s) (xom_hmac_disabled s) e)
           | None => None
           end.

Definition plift {A} (o : option A) : M A := match o with Some a => ret a | None => ub end.

Definition set_algorithms (l : list (option table)) : M unit :=
  modify (fun s => PState l (xom_provider_debug_prints s) (xom_hmac_disabled s) (p_env s)).

(** [strstr(s, sub) != NULL] *)
Fixpoint strstr (s sub : string) : bool :=
  String.prefix sub s || match s with EmptyString => false | String _ s => strstr s sub end.

Definition empty_algo : list OSSL_ALGORITHM := [Algorithm None "" (ImplOther 0) ""].

(** The entries up to and with the one that ends the table; undefined if
    there is none. *)
Fixpoint count_algos (algos : list OSSL_ALGORITHM) : option nat :=
  match algos with
  | [] => None
  | a :: algos => match algorithm_names a with None => Some 1%nat | Some _ => S <$> count_algos algos end
  end.

(** ** Queries *)

Definition xom_gettable_params : list (pname * ptype) :=
  [(PROV_NAME, PT_UTF8_PTR); (PROV_VERSION, PT_UTF8_PTR); (PROV_BUILDINFO, PT_UTF8_PTR); (PROV_STATUS, PT_INTEGER)].

Definition xom_get_params (ps : list OSSL_PARAM) : Z * list OSSL_PARAM :=
  put_params [(PROV_NAME, [VUtf8Ptr "XOM Provider for OpenSSL"]); (PROV_VERSION, [VUtf8Ptr OPENSSL_VERSION_STR]);
    (PROV_BUILDINFO, [VUtf8Ptr OPENSSL_FULL_VERSION_STR]); (PROV_STATUS, [VInt 1])] ps.

(** [None] is the null pointer. *)
Definition provider_query_operation (operation_id : Z) : M (option (list OSSL_ALGORITHM)) :=
  let! s := get in
  if (Z.of_nat (length (default_algorithms s)) <=? operation_id) || (operation_id <? 0) then ret None
  else match default_algorithms s !! Z.to_nat operation_id with
       | Some (Some t) => ret (Some (t_entries t))
       | _ => ret None
       end.

Definition xom_get_capabilities (ctx : xom_provctx) (capability : string) : M Z :=
  pin_env (OSSL_PROVIDER_get_capabilities (dflt_provider ctx) capability).

(** ** Teardown *)

(** [free] of a static table is undefined. *)
Fixpoint free_tables (l : list (option table)) : M unit :=
  match l with
  | [] => ret tt
  | Some t :: l => if t_static t then ub else free_tables l
  | None :: l => free_tables l
  end.

Definition xom_teardown (ctx : xom_provctx) : M unit :=
  do! (if dflt_hmac ctx =? 0 then ret tt else pin_env (EVP_MAC_free (dflt_hmac ctx))) in
  do! (if dflt_provider ctx =? 0 then ret tt else pin_env (OSSL_PROVIDER_unload (dflt_provider ctx))) in
  let! s := get in
  do! free_tables (default_algorithms s) in
  pin_env destroy_pool.

(** ** Initialisation *)

Definition discover_hardware_support (hmac_disabled : bool) : M (bool * bool * bool) :=
  let! '(b, c) := pin_env cpuid_7 in
  ret (Z.testbit c 9, Z.testbit c 10, if hmac_disabled then false else Z.testbit b 29).

Definition check_xom_mode : M unit :=
  let! mode := pin_env p_get_xom_mode in
  if mode =? 1 then pin_env (printf "Using PKU for XOM enforcement!")
  else if mode =? 2 then pin_env (printf "Using EPT/SLAT for XOM enforcement!")
  else pin_env (printf "XOM is not supported!").

Definition PROVIDER_DEBUG_FLAG : string := "LIBXOM_PROVIDER_DEBUG".
Definition PROVIDER_NO_HMAC_FLAG : string := "LIBXOM_PROVIDER_NO_HMAC".

Fixpoint process_environment_vars (environ : list string) : M unit :=
  match environ with
  | [] => ret tt
  | v :: environ =>
      do! modify (fun s => PState (default_algorithms s)
                             (if strstr v (PROVIDER_DEBUG_FLAG +:+ "=1") then true else xom_provider_debug_prints s)
                             (if strstr v (PROVIDER_NO_HMAC_FLAG +:+ "=1") then true else xom_hmac_disabled s) (p_env s)) in
      process_environment_vars environ
  end.

Definition provider_xom : string := "provider=xom".

Definition hmac_entry : OSSL_ALGORITHM :=
  Algorithm (Some "HMAC") provider_xom ImplHmac "Wrapper for XOM-protected HMAC/SHA256".
Definition aes_128_gcm_entry : OSSL_ALGORITHM :=
  Algorithm (Some "AES-128-GCM:id-aes128-GCM:2.16.840.1.101.3.4.1.6") provider_xom ImplGcm
    "XOM-protected implementation of AES-128-GCM".
Definition aes_128_ctr_entry : OSSL_ALGORITHM :=
  Algorithm (Some "AES-128-CTR") provider_xom ImplCtr "XOM-protected implementation of AES-128-CTR".

(** [strstr(algorithm_names, sub)]; the entries before the last have names. *)
Definition named (a : OSSL_ALGORITHM) (sub : string) : bool :=
  match algorithm_names a with Some n => strstr n sub | None => false end.

(** The body of the inner loop. *)
Definition replace_entry (op : opname) (has_sha : bool) (a : OSSL_ALGORITHM) : OSSL_ALGORITHM :=
  let a := Algorithm (algorithm_names a) provider_xom (implement a) (description a) in
  let a := if bool_decide (op = OP_CIPHER) then
             if named a "AES-128-GCM" then aes_128_gcm_entry
             else if named a "AES-128-CTR" then aes_128_ctr_entry
             else a
           else a in
  if has_sha && bool_decide (op = OP_MAC) && named a "HMAC" then hmac_entry else a.

(** One round of the outer loop. *)
Definition export_operation (prov : Z) (has_sha : bool) (op : opname) : M unit :=
  let! algo := pin_env (OSSL_PROVIDER_query_operation prov (op_code op)) in
  let! s := get in
  let i := Z.to_nat (op_code op) in
  match algo with
  | None => set_algorithms (<[i := Some (Table true empty_algo)]> (default_algorithms s))
  | Some algo =>
      let! n := plift (count_algos algo) in
      let copy := take n algo in
      set_algorithms (<[i := Some (Table false (map (replace_entry op has_sha) (take (n - 1) copy) ++ drop (n - 1) copy))]>
                        (default_algorithms s))
  end.

Fixpoint export_all (prov : Z) (has_sha : bool) (ops : list opname) : M unit :=
  match ops with [] => ret tt | op :: ops => do! export_operation prov has_sha op in export_all prov has_sha ops end.

(** [ptr] is what [calloc] returns for the context, which is not checked. *)
Definition OSSL_provider_init (environ : list string) (ptr : Z) : M (Z * xom_provctx) :=
  do! set_algorithms (repeat None (Z.to_nat (OSSL_OP__HIGHEST + 1))) in
  do! process_environment_vars environ in
  if ptr =? 0 then ub
  else
    let! prov := pin_env OSSL_PROVIDER_load in
    let! hmac := pin_env EVP_MAC_fetch in
    let! s := get in
    let! '(vaes, vpclmulqdq, sha) := discover_hardware_support (xom_hmac_disabled s) in
    do! export_all prov sha opcodes in
    do! pin_env (EVP_set_default_properties "provider=xom") in
    do! pin_env (printf "If you can read this, the XOM provider was successfully initialized!") in
    do! pin_env (printf (if (vaes : bool) then "Using VAES-based implementation!" else "Using AES-NI-based implementation!")) in
    do! (if (sha : bool) then ret tt
         else pin_env (printf "SHA instructions are not supported - not exporting HMAC implementation!")) in
    do! check_xom_mode in
    ret (1, ProvCtx prov hmac vaes vpclmulqdq sha).
End provider.
