(* ===== verification/ProviderTheorems.v ===== *)
(** * The provider exports the default provider with its own entries

    What a query returns after initialisation, when the teardown is defined,
    and which entries are replaced. *)

From stdpp Require Import strings.
From S2P Require Import Prelude LibXom OsslParams Provider.

(** ** What the code relies on *)

(** [tables o] is what the default provider has for an operation, [features]
    are the two registers with the features of the processor, and
    [default_properties] is what later fetches ask for by default. *)
Class ProviderLaws (V : Type) `{ProviderEnv V} := {
  tables : opname -> option (list OSSL_ALGORITHM);
  tables_end : forall o l, tables o = Some l -> exists l0 e rest, l = l0 ++ e :: rest /\
    Forall (fun a => is_Some (algorithm_names a)) l0 /\ algorithm_names e = None;
  op_code_range : forall o, 0 <= op_code o <= OSSL_OP__HIGHEST;
  op_code_inj : forall o o', op_code o = op_code o' -> o = o';
  load_spec : forall e, wp OSSL_PROVIDER_load (fun _ _ => True) e;
  unload_spec : forall p e, wp (OSSL_PROVIDER_unload p) (fun _ _ => True) e;
  fetch_spec : forall e, wp EVP_MAC_fetch (fun _ _ => True) e;
  mac_free_spec : forall m e, wp (EVP_MAC_free m) (fun _ _ => True) e;
  query_spec : forall p o e, wp (OSSL_PROVIDER_query_operation p (op_code o)) (fun r _ => r = tables o) e;
  features : Z * Z;
  cpuid_spec : forall e, wp cpuid_7 (fun r _ => r = features) e;
  default_properties : V -> string;
  set_properties_spec : forall p e, wp (EVP_set_default_properties p) (fun _ e' => default_properties e' = p) e;
  printf_spec : forall p e, wp (printf p) (fun _ e' => default_properties e' = default_properties e) e;
  xom_mode_spec : forall e, wp p_get_xom_mode (fun _ e' => default_properties e' = default_properties e) e;
  destroy_spec : forall e, wp destroy_pool (fun _ _ => True) e
}.

Section provider_proofs.
Context {V : Type} `{ProviderLaws V}.
Implicit Types (s : pstate V).

(** ** Tables *)

(** The own entry that takes the place of one with the given names. *)
Definition own_entry (op : opname) (has_sha : bool) (names : string) : option OSSL_ALGORITHM :=
  match op with
  | OP_CIPHER => if strstr names "AES-128-GCM" then Some aes_128_gcm_entry
                 else if strstr names "AES-128-CTR" then Some aes_128_ctr_entry else None
  | OP_MAC => if has_sha && strstr names "HMAC" then Some hmac_entry else None
  | _ => None
  end.

(** The named entries of a table, each replaced by an own one or with the
    provider's property, and the entry that ends it. *)
Fixpoint exported (op : opname) (has_sha : bool) (l : list OSSL_ALGORITHM) : list OSSL_ALGORITHM :=
  match l with
  | [] => []
  | a :: l => match algorithm_names a with
              | None => [a]
              | Some n => default (Algorithm (Some n) "provider=xom" (implement a) (description a)) (own_entry op has_sha n)
                          :: exported op has_sha l
              end
  end.

Lemma count_algos_spec l0 e rest : Forall (fun a => is_Some (algorithm_names a)) l0 -> algorithm_names e = None ->
  count_algos (l0 ++ e :: rest) = Some (S (length l0)).
Proof.
  intros Hl He. induction Hl as [|a l0 [n Ha] _ IH]; cbn; [by rewrite He|]. by rewrite Ha, IH.
Qed.

Lemma replace_entry_spec op sha a n : algorithm_names a = Some n ->
  replace_entry op sha a = default (Algorithm (Some n) "provider=xom" (implement a) (description a)) (own_entry op sha n).
Proof.
  intros Hn. unfold replace_entry, own_entry, named. cbn [algorithm_names]. rewrite Hn.
  destruct op; repeat (rewrite bool_decide_true by done || rewrite bool_decide_false by done);
    cbn [algorithm_names]; rewrite ?andb_true_r, ?andb_false_r; cbn [andb]; repeat case_match; simplify_eq/=; done || congruence.
Qed.

Lemma exported_spec op sha l0 e rest : Forall (fun a => is_Some (algorithm_names a)) l0 -> algorithm_names e = None ->
  exported op sha (l0 ++ e :: rest) = map (replace_entry op sha) l0 ++ [e].
Proof.
  intros Hl He. induction Hl as [|a l0 [n Ha] _ IH]; cbn [exported app map]; [by rewrite He|].
  by rewrite Ha, IH, (replace_entry_spec _ _ _ n).
Qed.

(** The table that is exported for an operation. *)
Definition export (sha : bool) (o : opname) : table :=
  match tables o with Some l => Table false (exported o sha l) | None => Table true empty_algo end.

Lemma wp_pin {A} (m : M V A) (Q : A -> pstate V -> Prop) s :
  wp m (fun a e => Q a (PState (default_algorithms s) (xom_provider_debug_prints s) (xom_hmac_disabled s) e)) (p_env s) ->
  wp (pin_env m) Q s.
Proof. intros (a & e & Hm & HQ). eexists _, _. unfold pin_env. by rewrite Hm. Qed.

Lemma export_operation_spec prov sha o s :
  wp (export_operation prov sha o)
    (fun _ s' => default_algorithms s' = <[Z.to_nat (op_code o) := Some (export sha o)]> (default_algorithms s)) s.
Proof.
  unfold export_operation, export. apply wp_bind, wp_pin. eapply wp_mono; [apply query_spec|]. intros r e ->.
  apply wp_bind, wp_get. destruct (tables o) as [l|] eqn:Ht; [|by apply wp_modify].
  destruct (tables_end o l Ht) as (l0 & a & rest & -> & Hl & Ha). rewrite count_algos_spec, exported_spec by done.
  apply wp_bind, wp_ret. apply wp_modify. cbn [default_algorithms]. do 3 f_equal.
  rewrite (cons_middle a l0 rest), app_assoc, take_app_length' by (rewrite length_app; cbn; lia).
  replace (S (length l0) - 1)%nat with (length l0) by lia. by rewrite take_app_length, drop_app_length.
Qed.

(** After exporting some operations: their tables are there, the other places
    of the array are as before. *)
Lemma export_all_spec prov sha ops : forall s, length (default_algorithms s) = Z.to_nat (OSSL_OP__HIGHEST + 1) ->
  wp (export_all prov sha ops) (fun _ s' =>
    length (default_algorithms s') = Z.to_nat (OSSL_OP__HIGHEST + 1) /\
    (forall o, o ∈ ops -> default_algorithms s' !! Z.to_nat (op_code o) = Some (Some (export sha o))) /\
    (forall i, (forall o, o ∈ ops -> i <> Z.to_nat (op_code o)) -> default_algorithms s' !! i = default_algorithms s !! i)) s.
Proof.
  induction ops as [|o ops IH]; intros s Hl; cbn [export_all]; [apply wp_ret; set_solver|].
  apply wp_bind. eapply wp_mono; [apply export_operation_spec|]. intros [] s1 Hs1.
  eapply wp_mono; [apply IH; by rewrite Hs1, length_insert|]. intros [] s2 (Hl2 & Hin & Hout). split_and!; [done| |].
  - intros o' Ho'. destruct (decide (o' ∈ ops)) as [Hi|Hi]; [by apply Hin|].
    apply elem_of_cons in Ho' as [->|?]; [|done]. rewrite Hout, Hs1.
    + apply list_lookup_insert_eq. pose proof (op_code_range o). lia.
    + intros o' Ho' Heq. pose proof (op_code_range o). pose proof (op_code_range o').
      assert (o = o') as -> by (apply op_code_inj; lia). done.
  - intros i Hi. rewrite Hout, Hs1 by (intros o' Ho'; apply Hi; by right). apply list_lookup_insert_ne.
    intros <-. by apply (Hi o); [left|].
Qed.

(** ** Initialisation *)

Lemma process_environment_spec environ : forall s, wp (process_environment_vars environ) (fun _ s' =>
  default_algorithms s' = default_algorithms s /\
  xom_hmac_disabled s' = (existsb (fun v => strstr v "LIBXOM_PROVIDER_NO_HMAC=1") environ || xom_hmac_disabled s)) s.
Proof.
  induction environ as [|v environ IH]; intros s; cbn [process_environment_vars]; [by apply wp_ret|].
  apply wp_bind, wp_modify. eapply wp_mono; [apply IH|]. intros [] s' (Hd & Hh). split; [done|]. rewrite Hh.
  cbn [xom_hmac_disabled existsb]. change (PROVIDER_NO_HMAC_FLAG +:+ "=1") with "LIBXOM_PROVIDER_NO_HMAC=1".
  destruct (strstr v "LIBXOM_PROVIDER_NO_HMAC=1"); cbn [orb]; [apply orb_true_r|done].
Qed.

Lemma opcodes_all o : o ∈ opcodes.
Proof. destruct o; unfold opcodes; set_solver. Qed.

(** The array and the context that initialisation makes. *)
Definition exported_all (ctx : xom_provctx) s : Prop :=
  length (default_algorithms s) = Z.to_nat (OSSL_OP__HIGHEST + 1) /\
  (forall o, default_algorithms s !! Z.to_nat (op_code o) = Some (Some (export (pv_has_sha ctx) o))) /\
  (forall i t, default_algorithms s !! i = Some (Some t) -> exists o, i = Z.to_nat (op_code o)).

(** What is printed does not change anything else. *)
Definition same_exports s s' : Prop :=
  default_algorithms s' = default_algorithms s /\ default_properties (p_env s') = default_properties (p_env s).

Lemma printf_keeps p s : wp (pin_env (printf p)) (fun _ s' => same_exports s s') s.
Proof. apply wp_pin. eapply wp_mono; [apply printf_spec|]. intros [] e He. by split. Qed.

Lemma check_xom_mode_keeps s : wp check_xom_mode (fun _ s' => same_exports s s') s.
Proof.
  unfold check_xom_mode. apply wp_bind, wp_pin. eapply wp_mono; [apply xom_mode_spec|]. intros mode e He.
  repeat case_match; (eapply wp_mono; [apply printf_keeps|]); intros [] s' [Hd Hp]; (split; [done|by rewrite Hp]).
Qed.

(** HMAC is exported if the processor has the SHA instructions and nothing
    disables it. *)
Definition hmac_wanted (environ : list string) s : bool :=
  negb (existsb (fun v => strstr v "LIBXOM_PROVIDER_NO_HMAC=1") environ || xom_hmac_disabled s) && Z.testbit (fst features) 29.

Lemma provider_init_spec environ ptr s : ptr <> 0 ->
  wp (OSSL_provider_init environ ptr) (fun '(r, ctx) s' => r = 1 /\ exported_all ctx s' /\
    pv_has_sha ctx = hmac_wanted environ s /\ default_properties (p_env s') = "provider=xom") s.
Proof.
  intros Hp. unfold OSSL_provider_init. apply wp_bind, wp_modify. set (s0 := PState _ _ _ _).
  assert (Hl0 : length (default_algorithms s0) = Z.to_nat (OSSL_OP__HIGHEST + 1)) by apply repeat_length.
  apply wp_bind. eapply wp_mono; [apply process_environment_spec|]. intros [] s1 (Hd1 & Hh1).
  rewrite (proj2 (Z.eqb_neq _ _)) by done.
  apply wp_bind, wp_pin. eapply wp_mono; [apply load_spec|]. intros prov e2 _.
  apply wp_bind, wp_pin. eapply wp_mono; [apply fetch_spec|]. intros hm e3 _. apply wp_bind, wp_get.
  unfold discover_hardware_support. apply wp_bind, wp_bind, wp_pin. eapply wp_mono; [apply cpuid_spec|]. intros [b c] e4 Hbc.
  apply wp_ret. cbn [default_algorithms xom_hmac_disabled xom_provider_debug_prints]. set (sha := if xom_hmac_disabled s1 then _ else _).
  apply wp_bind. eapply wp_mono; [apply export_all_spec; cbn; by rewrite Hd1|]. cbn [default_algorithms].
  intros [] s5 (Hl & Hin & Hout). apply wp_bind, wp_pin. eapply wp_mono; [apply set_properties_spec|]. intros [] e6 He6.
  apply wp_bind. eapply wp_mono; [apply printf_keeps|]. intros [] s7 [Hd7 Hp7].
  apply wp_bind. eapply wp_mono; [apply printf_keeps|]. intros [] s8 [Hd8 Hp8].
  apply wp_bind, (wp_mono _ (fun _ s' => same_exports s8 s')); [destruct sha; [by apply wp_ret|apply printf_keeps]|].
  intros [] s9 [Hd9 Hp9]. apply wp_bind. eapply wp_mono; [apply check_xom_mode_keeps|]. intros [] s10 [Hd Hpr].
  rewrite Hd9, Hd8, Hd7 in Hd. rewrite Hp9, Hp8, Hp7 in Hpr. cbn [default_algorithms p_env] in Hd, Hpr.
  apply wp_ret. unfold exported_all. rewrite Hd. split; [done|]. split; [|split; [|congruence]].
  - split_and!; [done| |].
    + intros o. apply Hin, opcodes_all.
    + intros i t Hi. destruct (decide (Exists (fun o => i = Z.to_nat (op_code o)) opcodes)) as [(o & _ & Ho)%Exists_exists|Hno]; [by exists o|].
      rewrite Hout, Hd1 in Hi; [by apply list_elem_of_lookup_2, list_elem_of_In, repeat_spec in Hi|].
      intros o Ho ->. apply Hno, Exists_exists. by exists o.
  - cbn. unfold sha, hmac_wanted. rewrite Hh1, <- Hbc. by destruct (_ || _).
Qed.

(** After initialisation a query returns, for each operation, the table of
    the default provider in which every named entry carries this provider's
    property and the entries for AES-128-GCM, AES-128-CTR and (if the processor
    has the SHA instructions and the environment does not disable it) HMAC are
    this provider's own; an empty table where the default provider has none;
    and nothing for any other number.  Fetches then ask for this provider by
    default. *)
Theorem provider_init_exports environ ptr s : ptr <> 0 ->
  wp (OSSL_provider_init environ ptr) (fun '(r, ctx) s' => r = 1 /\
    (forall o, provider_query_operation (op_code o) s' =
       Some (Some (match tables o with Some l => exported o (hmac_wanted environ s) l | None => empty_algo end), s')) /\
    (forall id, (forall o, id <> op_code o) -> provider_query_operation id s' = Some (None, s')) /\
    default_properties (p_env s') = "provider=xom") s.
Proof.
  intros Hp. eapply wp_mono; [by apply provider_init_spec|]. intros [r ctx] s' (-> & (Hl & Hin & Hout) & Hsha & Hprop).
  rewrite Hsha in Hin. split_and!; [done| | |done].
  - intros o. unfold provider_query_operation, bind, get, ret. pose proof (op_code_range o) as Hr.
    rewrite (proj2 (Z.leb_gt _ _)), (proj2 (Z.ltb_ge _ _)) by lia. cbn [orb]. rewrite Hin. unfold export. by destruct (tables o).
  - intros id Hid. unfold provider_query_operation, bind, get, ret.
    destruct (Z.leb_spec (Z.of_nat (length (default_algorithms s'))) id), (Z.ltb_spec id 0); cbn [orb]; try done.
    destruct (default_algorithms s' !! Z.to_nat id) as [[t|]|] eqn:Hi; [|done|done].
    destruct (Hout _ _ Hi) as [o Ho]. pose proof (op_code_range o). destruct (Hid o). lia.
Qed.

(** ** Teardown *)

Lemma free_tables_spec l s : is_Some (free_tables l s) <-> Forall (fun t => match t with Some t => t_static t = false | None => True end) l.
Proof.
  induction l as [|[t|] l IH]; cbn [free_tables].
  - split; [done|]. intros _. by eexists.
  - rewrite Forall_cons. destruct (t_static t); [|tauto]. split; [by intros [? ?]|by intros [? _]].
  - rewrite Forall_cons. tauto.
Qed.

Lemma wp_pin_keeps {A} (m : M V A) s : wp m (fun _ _ => True) (p_env s) ->
  wp (pin_env m) (fun _ s' => default_algorithms s' = default_algorithms s) s.
Proof. intros Hm. apply wp_pin. eapply wp_mono; [exact Hm|]. done. Qed.

(** Nothing but the tables can make the teardown undefined. *)
Lemma xom_teardown_free ctx s : is_Some (xom_teardown ctx s) <-> is_Some (free_tables (default_algorithms s) s).
Proof.
  unfold xom_teardown.
  assert (Hh : wp (if dflt_hmac ctx =? 0 then ret tt else pin_env (EVP_MAC_free (dflt_hmac ctx)))
    (fun _ s' => default_algorithms s' = default_algorithms s) s).
  { destruct (dflt_hmac ctx =? 0); [by apply wp_ret|]. apply wp_pin_keeps, mac_free_spec. }
  destruct Hh as ([] & s1 & Hrun1 & Hs1). rewrite (bind_Some _ _ _ _ _ Hrun1).
  assert (Hp : wp (if dflt_provider ctx =? 0 then ret tt else pin_env (OSSL_PROVIDER_unload (dflt_provider ctx)))
    (fun _ s' => default_algorithms s' = default_algorithms s1) s1).
  { destruct (dflt_provider ctx =? 0); [by apply wp_ret|]. apply wp_pin_keeps, unload_spec. }
  destruct Hp as ([] & s2 & Hrun2 & Hs2). rewrite (bind_Some _ _ _ _ _ Hrun2).
  unfold bind at 1, get. rewrite Hs2, Hs1. rewrite (free_tables_spec _ s), <- (free_tables_spec _ s2). unfold bind.
  split.
  - intros [r Hr]. destruct (free_tables _ s2) as [[u s3]|]; [by eexists|done].
  - intros [[u s3] Hr]. rewrite Hr. destruct (wp_pin_keeps destroy_pool s3 (destroy_spec _)) as ([] & s4 & -> & _). by eexists.
Qed.

(** The provider can be torn down exactly when the default provider has a
    table for every operation.  For an operation without one the provider has
    put its static empty table into the array, and the teardown frees it. *)
Theorem provider_teardown_defined_iff environ ptr s : ptr <> 0 ->
  wp (OSSL_provider_init environ ptr) (fun '(_, ctx) s' =>
    is_Some (xom_teardown ctx s') <-> forall o, tables o <> None) s.
Proof.
  intros Hp. eapply wp_mono; [by apply provider_init_spec|]. intros [r ctx] s' (_ & (Hl & Hin & Hout) & _ & _).
  rewrite xom_teardown_free, free_tables_spec, Forall_lookup. split.
  - intros Hall o Ht. specialize (Hall _ _ (Hin o)). unfold export in Hall. by rewrite Ht in Hall.
  - intros Hall i [t|] Hi; [|done]. destruct (Hout _ _ Hi) as [o ->]. rewrite Hin in Hi. injection Hi as <-.
    unfold export. specialize (Hall o). by destruct (tables o).
Qed.
End provider_proofs.

(** ** Replaced by part of a name *)

(** An entry of the default provider for AES-128-GCM-SIV, which is another
    mode, is replaced by that for AES-128-GCM, names and all, because a part of
    the name is compared; CTR and other modes are told apart. *)
Theorem provider_replaces_gcm_siv id d sha :
  replace_entry OP_CIPHER sha (Algorithm (Some "AES-128-GCM-SIV") "provider=default" (ImplOther id) d) = aes_128_gcm_entry /\
  replace_entry OP_CIPHER sha (Algorithm (Some "AES-128-CTR") "provider=default" (ImplOther id) d) = aes_128_ctr_entry /\
  replace_entry OP_CIPHER sha (Algorithm (Some "AES-128-CBC:AES128") "provider=default" (ImplOther id) d) =
    Algorithm (Some "AES-128-CBC:AES128") provider_xom (ImplOther id) d.
Proof. by destruct sha. Qed.

(** ** A concrete default provider *)

Definition ptoy_code (o : opname) : Z :=
  match o with
  | OP_DIGEST => 1 | OP_CIPHER => 2 | OP_MAC => 3 | OP_KDF => 4 | OP_RAND => 5 | OP_KEYMGMT => 10 | OP_KEYEXCH => 11
  | OP_SIGNATURE => 12 | OP_ASYM_CIPHER => 13 | OP_KEM => 14 | OP_ENCODER => 20 | OP_DECODER => 21 | OP_STORE => 22
  end.

Definition ptoy_names (o : opname) : list string :=
  match o with
  | OP_CIPHER => ["AES-128-CBC"; "AES-128-GCM:id-aes128-GCM"; "AES-128-CTR"]
  | OP_MAC => ["CMAC"; "HMAC"]
  | _ => ["X"]
  end.

Definition ptoy_tables (o : opname) : option (list OSSL_ALGORITHM) :=
  match o with
  | OP_STORE => None
  | _ => Some (map (fun n => Algorithm (Some n) "provider=default" (ImplOther 7) "") (ptoy_names o) ++ empty_algo)
  end.

Definition ptoy_op (z : Z) : option opname := List.find (fun o => ptoy_code o =? z) opcodes.

#[export] Instance ptoy : ProviderEnv string := {|
  op_code := ptoy_code;
  OSSL_OP__HIGHEST := 22;
  OPENSSL_VERSION_STR := "3.1";
  OPENSSL_FULL_VERSION_STR := "3.1.0";
  OSSL_PROVIDER_load := ret 1;
  OSSL_PROVIDER_unload := fun _ => ret tt;
  EVP_MAC_fetch := ret 2;
  EVP_MAC_free := fun _ => ret tt;
  OSSL_PROVIDER_query_operation := fun _ z => ret (match ptoy_op z with Some o => ptoy_tables o | None => None end);
  OSSL_PROVIDER_get_capabilities := fun _ _ => ret 1;
  EVP_set_default_properties := fun p _ => Some (tt, p);
  cpuid_7 := ret (Z.shiftl 1 29, 0);
  p_get_xom_mode := ret 2;
  printf := fun _ => ret tt;
  destroy_pool := ret tt
|}.

Lemma ptoy_tables_end o l : ptoy_tables o = Some l -> exists l0 e rest, l = l0 ++ e :: rest /\
  Forall (fun a => is_Some (algorithm_names a)) l0 /\ algorithm_names e = None.
Proof.
  intros Hl. exists (map (fun n => Algorithm (Some n) "provider=default" (ImplOther 7) "") (ptoy_names o)),
    (Algorithm None "" (ImplOther 0) ""), []. split_and!; [|apply Forall_map, Forall_forall; by eexists|done].
  by destruct o; simplify_eq/=.
Qed.

Lemma ptoy_query p o e : wp (OSSL_PROVIDER_query_operation p (op_code o)) (fun r _ => r = ptoy_tables o) e.
Proof. apply wp_ret. by destruct o. Qed.

#[export] Instance ptoy_laws : ProviderLaws string.
Proof.
  refine {| tables := ptoy_tables; tables_end := ptoy_tables_end; query_spec := ptoy_query;
            features := (Z.shiftl 1 29, 0); default_properties := id |}.
  - by intros [].
  - by intros [] [].
  - intros e. by apply wp_ret.
  - intros p e. by apply wp_ret.
  - intros e. by apply wp_ret.
  - intros p e. by apply wp_ret.
  - intros e. by apply wp_ret.
  - intros p e. by exists tt, p.
  - intros p e. by apply wp_ret.
  - intros e. by apply wp_ret.
  - intros e. by apply wp_ret.
Defined.

Definition pdemo_state : pstate string := PState [] false false "x".

Lemma provider_init_exports_ex : wp (OSSL_provider_init ["HOME=/"] 64) (fun '(r, ctx) s' => r = 1 /\
    (forall o, provider_query_operation (op_code o) s' =
       Some (Some (match tables o with Some l => exported o (hmac_wanted ["HOME=/"] pdemo_state) l | None => empty_algo end), s')) /\
    (forall id, (forall o, id <> op_code o) -> provider_query_operation id s' = Some (None, s')) /\
    default_properties (p_env s') = "provider=xom") pdemo_state.
Proof. apply (provider_init_exports ["HOME=/"] 64 pdemo_state). done. Defined.

Lemma provider_teardown_defined_iff_ex : wp (OSSL_provider_init ["HOME=/"] 64) (fun '(_, ctx) s' =>
    is_Some (xom_teardown ctx s') <-> forall o, tables o <> None) pdemo_state.
Proof. apply (provider_teardown_defined_iff ["HOME=/"] 64 pdemo_state). done. Defined.
